(* ===== verification/_CoqProject ===== *)
-Q . S2P
Prelude.v
Messages.v
StdCache.v
Checkpoint.v
Directory.v
Coherence.v
CoherenceProtocol.v
FastCache.v
SingleCMPProtocol.v
FastCMPCache.v
KeenKraken.v
BranchPredictor.v
BranchLearning.v
BPWarm.v
MMU.v
TLB.v
MMUTiming.v
MMUQueues.v
NetPort.v
NetSwitch.v
NetShim.v
NetInvariant.v
NetSwitching.v
NetRuns.v
NetDelivery.v
NetBuild.v
Network.v
TimingQueues.v
CacheBuffers.v
MissAddressFile.v
TagArray.v
TagArrayContract.v
CacheController.v
InclusiveMESI.v
CacheBus.v
CacheReservations.v
MesiInvariant.v
MesiLaws.v
CacheProcesses.v
CacheSchedule.v
CacheRuns.v
TimingCache.v
MesiRuns.v
MesiRequests.v
RegisterMap.v
RegisterFile.v
Renaming.v
RenamingInvariant.v
RenamingRuns.v
RenamingContract.v
