(* ===== verification/Prelude.v ===== *)
(** * Flexus: a full-system simulator's components

    A verification library for Flexus, whose components are wired to two simulators:
    KeenKraken, which is driven by a trace and has no time
    (src/simulators/KeenKraken/wiring.cpp), and KnottyKraken, which runs cycle by
    cycle.  Modelled are the whole memory hierarchy of the first with its wires, the
    branch predictor and its warming, the MMU of both, and the network, the cycle-level
    caches and the register renaming of the second.

    In KeenKraken a request of the instruction feeder enters a first-level cache
    through a port, the cache calls the level below through its own ports, that level
    may snoop the first-level caches on the way, and all of this happens inside one
    call.  What the components keep between calls is the contents of the tag arrays,
    the directory of sharers, predictor tables, translations and counters.  The
    components of KnottyKraken are driven once a cycle and keep queues of messages.

    ** The program and its model

    - Memory messages (components/CommonQEMU/Slices/MemoryMessage.hpp), the
      payload of every port, are in Messages.v: the 88 message types, the
      predicates that classify them, the message object.
    - The standard tag array (components/FastCache/StdCache.hpp; the copy in
      FastCMPCache is the same code) is in StdCache.v: sets in recency order with
      unique tags and ways, [lookup], [allocate], [updateState].  Checkpoint.v has
      its [saveState] and [loadState] in both formats.
    - The first-level protocols (components/FastCache/CoherenceProtocol.hpp,
      InclusiveMESI.hpp, InclusiveMOESI.hpp) are in CoherenceProtocol.v: the
      tables, and every specialised action template as a case of one function.
    - The first-level cache component (components/FastCache/FastCacheImpl.cpp) is
      in FastCache.v.
    - Sharing vectors, directory entries, the directory interface and the infinite
      directory (components/FastCMPCache: SharingVector.hpp,
      BlockDirectoryEntry.hpp, AbstractDirectory.hpp, InfiniteDirectory.cpp) are
      in Directory.v, Modules [SV], [Entry] and [Inf].
    - The chip-level protocol (components/FastCMPCache/SingleCMPProtocol.cpp) is
      in SingleCMPProtocol.v, the chip-level cache (FastCMPCacheImpl.cpp) in
      FastCMPCache.v.
    - Memory and DMA (components/FastMemoryLoopback) and the wires between all of
      these are in KeenKraken.v.
    - The branch predictors (components/CommonQEMU/BranchPredictor.cpp) are in
      BranchPredictor.v: the tables in Modules [GShare], [Bim] and [Btb], the
      predictor of the trace simulator in [Fast], that of the timing simulator in
      [Comb].  BranchLearning.v has their theorems.  BPWarm.v has the component that
      trains them from the trace (components/BPWarm/BPWarmImpl.cpp).
    - The MMU (components/MMU): MMU.v has the registers, granules, resolvers and the
      walk of the trace simulator (MMUUtil.cpp, ARMTranslationGranules.cpp,
      TTResolvers.cpp, pageWalk.cpp), TLB.v the translation caches and the trace port
      of MMUImpl.cpp, MMUTiming.v the queues, the cycle-level walker and the ports of
      the timing simulator, MMUQueues.v the theorems about its queues.
    - The network (components/NetShim): NetPort.v has messages, the buffers at the
      ends of channels and the channels (netcommon.hpp, channel.cpp), NetSwitch.v the
      switches (netswitch.cpp), NetShim.v nodes, the container and the component
      (netnode.cpp, netcontainer.cpp, MemoryNetworkImpl.cpp).  NetInvariant.v,
      NetSwitching.v, NetRuns.v and NetDelivery.v build the invariant of its runs from
      ports up, NetBuild.v shows that a topology file establishes it, and Network.v
      has the theorems.
    - The cycle-level caches (components/Cache): TimingQueues.v has the message queues
      and pipelines (components/CommonQEMU/MessageQueues.hpp), CacheBuffers.v the evict
      and snoop buffers (CacheBuffers.hpp), MissAddressFile.v the miss address file and
      CacheController.v the controller with every process and scheduling loop
      (CacheController.hpp and .cpp, BaseCacheControllerImpl.hpp and .cpp), CacheBus.v
      the component with its ports and bus (CacheImpl.cpp).  The virtual functions of a
      protocol are the class [CacheController.Policy].  CacheReservations.v states the
      invariant of the reservations and the rules to take and return them,
      CacheProcesses.v shows that every process keeps it, CacheSchedule.v that every
      loop does, CacheRuns.v that runs do; TimingCache.v has the theorems.
    - Their tag array (StdArray.hpp, BasicCacheState.hpp and .cpp, AbstractArray.hpp) is
      in TagArray.v, with block states in Module [BlockState] and sets and the array in
      Module [Arr]; TagArrayContract.v has its theorems.
    - Their protocol InclusiveMESI (InclusiveMESI.hpp and .cpp) is in InclusiveMESI.v,
      every handler as an instance of [CacheController.Policy], a case of a switch as a
      definition of its own.  MesiInvariant.v has what it keeps and the rules for one
      step, MesiLaws.v shows that every handler keeps it and the laws of [PolicyLaws],
      MesiRuns.v what follows for runs, MesiRequests.v which requests are granted.
    - Register renaming in the core (components/uArchARM): RegisterMap.v has the map
      tables (MapTable.hpp), RegisterFile.v the register file and the bypass network
      (RegisterFile.hpp, BypassNetwork.hpp), Renaming.v the core's operations on them
      (CoreModel/registers.cpp), the reorder buffer (CoreModel/dispatch.cpp, cycle.cpp)
      and the effects that map, free and restore the registers of an instruction
      (components/armDecoder/Effects.cpp, encodings/armSharedFunctions.cpp).
      RenamingInvariant.v has what the operations keep, RenamingRuns.v what dispatch,
      retirement and squash of an instruction do to it, RenamingContract.v the theorems.

    State and calls: a component is a record of its fields.  In the memory hierarchy
    the whole system is a record of components ([KeenKraken.Sys]), and a component's
    code is a function of the system's state that sees its own fields through a
    [Slot].  A port is a function argument, so a call through a port may come back and
    change the caller's own fields, as it may in the code (an eviction during
    [allocate], a snoop during a request).  A message travels by reference: a port
    returns what it leaves in it; the translations of the timing MMU, which its queues
    share, live in a store.  A failing [DBG_Assert] is the value [Assert], and [wp]
    below is total correctness: no assertion fails and the run ends.

    ** Interfaces

    Coherence.v states what the levels promise each other about one block: the
    invariant [ok_block] (at most one writer, the directory knows every holder,
    the chip-level state fits), what a request is granted, how a cache answers a
    snoop.  Three classes carry the promises: [Directory.DirectoryPromise] (a
    directory is a function from blocks to sets of caches), [FastCache.LowerLevel]
    (what a first-level cache may rely on below it) and [FastCMPCache.UpperLevel]
    (what the chip-level cache may rely on above and below it).  Two more,
    [CacheReservations.PolicyInvariant] and [CacheReservations.PolicyLaws], are the
    invariant that a protocol of a cycle-level cache brings and what the controller
    relies on of its handlers.  The theorems of a component are proved against the class
    of its neighbours; KeenKraken.v discharges the first three for the wired system,
    MesiLaws.v the last two for InclusiveMESI.

    ** The theorems

    - KeenKraken.v, for every system that starts up with the MESI protocol above, one
      block size and separate instruction and data caches (the shipped user_postload),
      any sizes, widths up to 256 cores, port arrays of the chip-level cache with a
      place for every core (CMPWidth is 0 or at least the width), and any sequence of
      requests: no assertion fails; at most one writer and no reader beside it; the
      directory is inclusive; what a store, a load, a fetch, a non-allocating store
      and a DMA access achieve and what they leave alone.
    - FastCache.v: a cache's snoop port refines the abstract answer; with the MOESI
      protocol every store asserts.
    - Directory.v: the directory refines a function to sets of sharers; entries keep
      their sharing state in step with their vector; the searches and images of a
      sharing vector; checkpoints lose nothing.
    - StdCache.v: an allocation replaces at most one block, the least recently used
      one, and changes no other; addresses decompose into tag and set.
    - Checkpoint.v: both checkpoint formats restore every block's state; a restored
      set that had one free way is full and evicts too early.
    - CoherenceProtocol.v, SingleCMPProtocol.v: the tables are functions with exactly
      the rows the states and requests call for. FastCMPCache.v: snoop replies combine
      in any order. Messages.v: the classifications agree.
    - BranchLearning.v: the two predictors agree on feedback for branches that were
      predicted as branches; every run is safe and keeps its statistics in balance;
      what the target buffer retains; a steady branch that runs alone is learned; what
      checkpoints, returns and 32-bit targets lose. BPWarm.v: two slots per core, with
      annulled instructions, are as good as the whole history; its delay slots.
    - MMU.v, TLB.v: the trace walk finds what the architecture's tables say, but for
      the two reserved encodings of descriptors, which it does not treat as faults;
      the two TLBs are LRU lists. MMUTiming.v, MMUQueues.v: the cycle-level walk ends
      and agrees with the trace walk; requests are conserved, but for those that a
      resynchronisation drops; which requests are left behind, and why warmed
      translations are not found.
    - Network.v, for every network that a topology file builds with routes that lead
      home and every sequence of packets and cycles: no assertion fails and no buffer
      overflows; packets are neither lost nor duplicated nor misdelivered; nodes are
      only given what they accept; quiescence is emptiness. Two behaviours of the
      switches' arbitration that its comments exclude.
    - TimingCache.v, for a cache with a bus, every protocol that keeps [PolicyLaws]
      and every sequence of cycles and of messages into available ports without
      prefetches ([CacheRuns.wired]; what prefetches do is shown apart): the
      reservations of queues, buffers and the miss file are those of the processes
      under way, nothing overflows, and nothing stays reserved in a quiesced cache;
      three paths that stop the simulator; quiescence with work left.
    - TagArrayContract.v: an allocation replaces at most the least recently used block
      that is not protected; how addresses decompose, and which geometries are
      accepted without a set; an array with the pseudo-LRU policy takes in no
      block but block 0.
    - MesiRuns.v, for InclusiveMESI over a tag array of any geometry with at least one
      set and such sequences of messages and cycles: a block is in the array or in the
      evict buffer, not both, and no block is ever owned; the run stops at none but
      the listed assertions. MesiRequests.v: a request is granted exactly as a table
      by type and state says, the atomic preload of a shared block, which is answered
      and asks for an upgrade, included.
    - RenamingContract.v, for a reorder buffer of any size and every sequence of
      dispatches of well-formed instructions, retirements, squashes and uses of the
      mapped registers: no assertion fails and a free register is always found;
      sources get the newest older write; the architectural registers change only at
      retirement; a squash restores the mappings. An instruction with one register as
      two destinations is not well formed, and in every such core its squash breaks
      the table.

    ** Bounds and fuel

    Machine integers are [Z].  Addresses are 64-bit and not negative; masks such
    as [~(BlockSize - 1)] are [Z.lnot], which agrees with the 64-bit mask on them.
    Sizes are 32-bit and products of them do not overflow, since [initialize]
    asserts that they multiply to the cache size; a text checkpoint's shift of the set
    number, 32-bit in the code, is exact up to caches whose sets span 2^31 bytes of
    addresses.  [log_base2] has 64 rounds of
    fuel for 64-bit arguments, the scans of [getClosestSharer] 513 rounds for 512
    bits, decimal printing 20 digits for 64-bit numbers, the trace walk four rounds
    for the four levels, the loop over the ports of a switch one round per port and
    the loop over an internal buffer one per message, the loops of a timing cache one
    per free server, waiting message or process; each is proved enough where a
    theorem depends on it.  Runs of the network have fewer than 2^31 - 1 events, so
    that serial numbers and the queues of the nodes stay within 32 bits.  Every other
    loop of the model is structural.

    ** What is not modelled

    The region-tracker tag array and the bounded directories (the shipped
    configuration selects neither), region messages, notify channels, the opening of
    checkpoint files, the checkpoints of the TLBs, statistics beyond the counters that
    the components bump, the text of topology files, state dumps, and the other
    components: the feeder and its QEMU interface, the shared cache of KnottyKraken,
    its core and decoder but for the renaming of registers (the semantic actions, the
    memory queues, speculation, interrupts and fetch are left out, so which
    instruction retires, is squashed or uses its registers when is any sequence of
    events), prefetchers and trackers, and the component framework but for the port
    arrays that KeenKraken's wires go through. The registers and the memory that QEMU
    provides, and the availability of a network's neighbours, are arguments. Of the
    cycle-level caches the protocols with owned blocks (InclusiveMOESI,
    TaglessInclusiveMOESI), the region tracker as a tag array, transaction trackers
    beyond their presence and fill level, statistics and checkpoints are left out; the
    assertions in MesiInvariant.v are those that need to know what the other components send.

    This file holds what all others use: assertions and state, slots, lists with a
    unique key, and facts about vectors and masks. *)

From stdpp Require Import base gmap sets list strings fin_maps sorting.
From Stdlib Require Import ZArith Lia.

(** ** Assertions, state and total correctness

    Every component of the simulator may stop the simulation with
    [DBG_Assert].  A run that reaches a failing assertion is the value
    [Assert why]; a run that ends normally is [Done a].  Stateful code is a
    function of the state [W] of everything that is wired together, so a call
    through a port may change the caller's own state, as it may in the code. *)

Inductive outcome (A : Type) : Type :=
| Done (a : A)
| Assert (why : string).

Arguments Done {A} _.
Arguments Assert {A} _.

#[export] Instance outcome_ret : MRet outcome := fun A a => Done a.
#[export] Instance outcome_bind : MBind outcome := fun A B f m =>
  match m with Done a => f a | Assert why => Assert why end.

Definition M (W A : Type) : Type := W -> outcome (A * W).

#[export] Instance M_ret {W} : MRet (M W) := fun A a w => Done (a, w).
#[export] Instance M_bind {W} : MBind (M W) := fun A B f m w =>
  match m w with Done (a, w') => f a w' | Assert why => Assert why end.

Definition dbg_fail {W A} (why : string) : M W A := fun _ => Assert why.
Definition dbg_assert {W} (b : bool) (why : string) : M W () :=
  fun w => if b then Done ((), w) else Assert why.
Definition gets {W A} (f : W -> A) : M W A := fun w => Done (f w, w).
Definition modify {W} (f : W -> W) : M W () := fun w => Done ((), f w).
Definition lift {W A} (o : outcome A) : M W A := fun w =>
  match o with Done a => Done (a, w) | Assert why => Assert why end.

(** [wp m Q w]: started in [w], [m] reaches no failing assertion and ends with
    a result and a state that satisfy [Q]. *)
Definition wp {W A} (m : M W A) (Q : A -> W -> Prop) (w : W) : Prop :=
  match m w with Done (a, w') => Q a w' | Assert _ => False end.

Create HintDb flexus discriminated.
Create Rewrite HintDb flexus_simpl.

Section wp_rules.
Context {W : Type}.

Lemma wp_ret {A} (a : A) (Q : A -> W -> Prop) w : Q a w -> wp (mret a) Q w.
Proof. done. Qed.

Lemma wp_bind {A B} (m : M W A) (f : A -> M W B) Q w :
  wp m (fun a w' => wp (f a) Q w') w -> wp (m ≫= f) Q w.
Proof.
  unfold wp, mbind, M_bind. by destruct (m w) as [[a w']|].
Qed.

Lemma wp_mono {A} (m : M W A) (Q Q' : A -> W -> Prop) w :
  wp m Q w -> (forall a w', Q a w' -> Q' a w') -> wp m Q' w.
Proof. unfold wp. destruct (m w) as [[a w']|]; eauto. Qed.

Lemma wp_gets {A} (f : W -> A) (Q : A -> W -> Prop) w : Q (f w) w -> wp (gets f) Q w.
Proof. done. Qed.

Lemma wp_modify (f : W -> W) (Q : () -> W -> Prop) w : Q () (f w) -> wp (modify f) Q w.
Proof. done. Qed.

Lemma wp_assert b why (Q : () -> W -> Prop) w : b = true -> Q () w -> wp (dbg_assert b why) Q w.
Proof. by intros ->. Qed.

Lemma wp_done {A} (m : M W A) Q w :
  wp m Q w <-> exists a w', m w = Done (a, w') /\ Q a w'.
Proof.
  unfold wp. destruct (m w) as [[a w']|why]; split; try naive_solver.
Qed.
End wp_rules.

(** [wlp m Q w]: started in [w], [m] reaches a failing assertion or ends with a
    result and a state that satisfy [Q]. *)
Definition wlp {W A} (m : M W A) (Q : A -> W -> Prop) (w : W) : Prop :=
  match m w with Done (a, w') => Q a w' | Assert _ => True end.

Section wlp_rules.
Context {W : Type}.

Lemma wlp_ret {A} (a : A) (Q : A -> W -> Prop) w : Q a w -> wlp (mret a) Q w.
Proof. done. Qed.

Lemma wlp_bind {A B} (m : M W A) (f : A -> M W B) Q w :
  wlp m (fun a w' => wlp (f a) Q w') w -> wlp (m ≫= f) Q w.
Proof. unfold wlp, mbind, M_bind. by destruct (m w) as [[a w']|]. Qed.

Lemma wlp_mono {A} (m : M W A) (Q Q' : A -> W -> Prop) w :
  wlp m Q w -> (forall a w', Q a w' -> Q' a w') -> wlp m Q' w.
Proof. unfold wlp. destruct (m w) as [[a w']|]; eauto. Qed.

Lemma wlp_gets {A} (f : W -> A) (Q : A -> W -> Prop) w : Q (f w) w -> wlp (gets f) Q w.
Proof. done. Qed.

Lemma wlp_modify (f : W -> W) (Q : () -> W -> Prop) w : Q () (f w) -> wlp (modify f) Q w.
Proof. done. Qed.

Lemma wlp_assert b why (Q : () -> W -> Prop) w : (b = true -> Q () w) -> wlp (dbg_assert b why) Q w.
Proof. unfold wlp, dbg_assert. destruct b; auto. Qed.

Lemma wlp_lift {A} (o : outcome A) (Q : A -> W -> Prop) w :
  (forall a, o = Done a -> Q a w) -> wlp (lift o) Q w.
Proof. unfold wlp, lift. destruct o; auto. Qed.
End wlp_rules.

(** [safe E m Q w]: started in [w], [m] ends with a result and a state that satisfy
    [Q], or stops at an assertion that [E] allows. *)
Definition safe {W A} (E : string -> Prop) (m : M W A) (Q : A -> W -> Prop) (w : W) : Prop :=
  match m w with Done (a, w') => Q a w' | Assert why => E why end.

(** A loop that repeats a step until the step says that it is over. *)
Fixpoint repeat_while {W} (fuel : nat) (step : M W bool) : M W () :=
  match fuel with
  | O => dbg_fail "out of fuel"
  | S n => again ← step; if (again : bool) then repeat_while n step else mret ()
  end.

Fixpoint for_each {W A} (l : list A) (f : A -> M W ()) : M W () :=
  match l with [] => mret () | a :: l => f a;; for_each l f end.

Section safe_rules.
Context {W : Type} (E : string -> Prop).

Lemma safe_ret {A} (a : A) (Q : A -> W -> Prop) w : Q a w -> safe E (mret a) Q w.
Proof. done. Qed.

Lemma safe_bind {A B} (m : M W A) (f : A -> M W B) Q w :
  safe E m (fun a w' => safe E (f a) Q w') w -> safe E (m ≫= f) Q w.
Proof. unfold safe, mbind, M_bind. by destruct (m w) as [[a w']|]. Qed.

Lemma safe_mono {A} (m : M W A) (Q Q' : A -> W -> Prop) w :
  safe E m Q w -> (forall a w', Q a w' -> Q' a w') -> safe E m Q' w.
Proof. unfold safe. destruct (m w) as [[a w']|]; eauto. Qed.

Lemma safe_gets {A} (f : W -> A) (Q : A -> W -> Prop) w : Q (f w) w -> safe E (gets f) Q w.
Proof. done. Qed.

Lemma safe_modify (f : W -> W) (Q : () -> W -> Prop) w : Q () (f w) -> safe E (modify f) Q w.
Proof. done. Qed.

Lemma safe_assert b why (Q : () -> W -> Prop) w :
  (b = false -> E why) -> (b = true -> Q () w) -> safe E (dbg_assert b why) Q w.
Proof. unfold safe, dbg_assert. destruct b; auto. Qed.

Lemma safe_fail {A} why (Q : A -> W -> Prop) w : E why -> safe E (dbg_fail why) Q w.
Proof. done. Qed.

Lemma safe_lift {A} (o : outcome A) (Q : A -> W -> Prop) w :
  (exists a, o = Done a /\ Q a w) -> safe E (lift o) Q w.
Proof. by intros (a & -> & H). Qed.

Lemma safe_lift_any {A} (o : outcome A) (Q : A -> W -> Prop) w :
  match o with Done a => Q a w | Assert why => E why end -> safe E (lift o) Q w.
Proof. unfold safe, lift. by destruct o. Qed.

(** A loop keeps its invariant; it ends when every round that is not the last one
    makes a measure smaller. *)
Lemma safe_while (I : W -> Prop) (measure : W -> nat) (step : M W bool) :
  (forall w, I w -> safe E step (fun again w' => I w' /\ (again = true -> measure w' < measure w)) w) ->
  forall fuel w, I w -> measure w < fuel -> safe E (repeat_while fuel step) (fun _ w' => I w') w.
Proof.
  intros Hs. induction fuel as [|n IH]; intros w Hw F; [lia|]. cbn. apply safe_bind.
  eapply safe_mono; [by apply Hs|]. cbn beta. intros [] w' [Hw' L]; [|done].
  apply IH; [done|]. specialize (L eq_refl). lia.
Qed.

Lemma safe_for_each {A} (I : W -> Prop) (l : list A) (f : A -> M W ()) w :
  (forall a, a ∈ l -> forall w, I w -> safe E (f a) (fun _ => I) w) ->
  I w -> safe E (for_each l f) (fun _ => I) w.
Proof.
  revert w. induction l as [|a l IH]; intros w Hf Hw; [done|]. cbn. apply safe_bind.
  eapply safe_mono; [apply Hf; [apply list_elem_of_here|done]|]. cbn beta. intros _ w' Hw'.
  apply IH; [|done]. intros b Hb. apply Hf. by apply list_elem_of_further.
Qed.
End safe_rules.

(** Splits the run of a sequence of calls into the runs of the calls. *)
Ltac wp_base :=
  lazymatch goal with
  | |- wp (_ ≫= _) _ _ => apply wp_bind
  | |- wp (mret _) _ _ => apply wp_ret
  | |- wp (gets _) _ _ => apply wp_gets
  | |- wp (modify _) _ _ => apply wp_modify
  | |- wp (dbg_assert _ _) _ _ => apply wp_assert
  end.

(** The same for [wlp]; a call that is neither is left to the caller. *)
Ltac wlp_base :=
  lazymatch goal with
  | |- wlp (_ ≫= _) _ _ => apply wlp_bind
  | |- wlp (mret _) _ _ => apply wlp_ret
  | |- wlp (gets _) _ _ => apply wlp_gets
  | |- wlp (modify _) _ _ => apply wlp_modify
  | |- wlp (dbg_assert _ _) _ _ => apply wlp_assert; intros _
  end.
Ltac wlp_steps := repeat (wlp_base; cbn beta).

(** A component's own state inside the state of the whole system. *)
Record Slot (W S : Type) : Type := mkSlot {
  view : W -> S;
  put : S -> W -> W;
}.
Arguments view {W S} _ _.
Arguments put {W S} _ _ _.
Arguments mkSlot {W S} _ _.

Definition update {W S} (l : Slot W S) (f : S -> S) : M W () :=
  modify (fun w => put l (f (view l w)) w).

Lemma wp_update {W S} (l : Slot W S) (f : S -> S) (Q : () -> W -> Prop) w :
  Q () (put l (f (view l w)) w) -> wp (update l f) Q w.
Proof. done. Qed.

Ltac wp_step :=
  lazymatch goal with
  | |- wp (update _ _) _ _ => apply wp_update
  | _ => wp_base
  end.
Ltac wp_steps := repeat (wp_step; cbn beta).

Class SlotLaws {W S} (l : Slot W S) : Prop := {
  view_put : forall s w, view l (put l s w) = s;
  put_put : forall s s' w, put l s (put l s' w) = put l s w;
  put_view : forall w, put l (view l w) w = w;
}.

(** A component run on its own is the whole system. *)
Definition self_slot {S} : Slot S S := mkSlot (fun s => s) (fun s _ => s).
#[export] Instance self_slot_laws {S} : SlotLaws (@self_slot S).
Proof. by split. Qed.

(** ** Lists with a unique key

    The containers of the code are searched by a key that no two elements
    share.  [find_by key k l] is the element with that key; reordering the
    container does not change what a search finds. *)

Section find_by.
Context {A K : Type} `{EqDecision K} (key : A -> K).

Definition find_by (k : K) (l : list A) : option A :=
  List.find (fun a => bool_decide (key a = k)) l.

Lemma find_by_Some k l a : find_by k l = Some a -> a ∈ l /\ key a = k.
Proof.
  intros F. apply List.find_some in F as [I E].
  rewrite <-list_elem_of_In in I. by apply bool_decide_eq_true in E.
Qed.

Lemma find_by_None k l : find_by k l = None <-> k ∉ key <$> l.
Proof.
  unfold find_by. induction l as [|b l IH]; cbn; [set_solver|].
  case_bool_decide; [set_solver|]. rewrite IH. set_solver.
Qed.

Lemma find_by_elem k l a :
  NoDup (key <$> l) -> a ∈ l -> key a = k -> find_by k l = Some a.
Proof.
  unfold find_by. intros ND I <-.
  induction l as [|b l IH]; cbn in *; [set_solver|].
  apply NoDup_cons in ND as [NI ND]. case_bool_decide as E.
  - apply elem_of_cons in I as [->|I]; [done|].
    exfalso. apply NI. apply list_elem_of_fmap. eauto.
  - apply IH; [done|]. set_solver.
Qed.

Lemma find_by_iff k l a :
  NoDup (key <$> l) -> find_by k l = Some a <-> a ∈ l /\ key a = k.
Proof.
  intros ND. split; [apply find_by_Some|]. intros [I E]. by apply find_by_elem.
Qed.

Lemma find_by_perm k l l' :
  NoDup (key <$> l) -> l ≡ₚ l' -> find_by k l = find_by k l'.
Proof.
  intros ND P. assert (ND' : NoDup (key <$> l')) by (by rewrite <-P).
  apply option_eq. intros a. rewrite !find_by_iff by done. by rewrite P.
Qed.

Lemma find_by_map k l (f : A -> A) :
  (forall a, key (f a) = key a) -> find_by k (f <$> l) = f <$> find_by k l.
Proof.
  intros Hf. unfold find_by. induction l as [|b l IH]; [done|].
  cbn. rewrite Hf. by case_bool_decide.
Qed.
End find_by.

(** Filters: of elements that all fail, of an image, of a sorted list. *)
Lemma filter_none {A} (P : A -> Prop) `{!forall x, Decision (P x)} l :
  (forall x, x ∈ l -> ~ P x) -> filter P l = [].
Proof.
  induction l as [|x l IH]; intros N; [done|]. rewrite filter_cons_False by (apply N, list_elem_of_here).
  apply IH. intros y Hy. apply N. by apply list_elem_of_further.
Qed.

Lemma filter_every {A} (P : A -> Prop) `{!forall x, Decision (P x)} (l : list A) :
  (forall x, x ∈ l -> P x) -> filter P l = l.
Proof.
  induction l as [|x l IH]; intros N; [done|]. rewrite filter_cons_True by (apply N, list_elem_of_here).
  f_equal. apply IH. intros y Hy. apply N. by apply list_elem_of_further.
Qed.

Lemma filter_fmap_keys {A B} (f : A -> B) (P : B -> Prop) `{!forall x, Decision (P x)} (l : list A) :
  filter P (f <$> l) = f <$> filter (fun x => P (f x)) l.
Proof.
  induction l as [|x l IH]; [done|]. cbn [fmap list_fmap]. rewrite !filter_cons.
  case_decide; cbn; by rewrite IH.
Qed.

Lemma filter_sorted {A} (R : relation A) (P : A -> Prop) `{!forall x, Decision (P x)} l :
  StronglySorted R l -> StronglySorted R (filter P l).
Proof.
  induction 1 as [|x l St IH Fx]; [constructor|]. rewrite filter_cons.
  case_decide; [|done]. constructor; [done|]. apply Forall_forall. intros y [_ Hy]%list_elem_of_filter.
  rewrite Forall_forall in Fx. auto.
Qed.

(** ** Vectors

    An element access outside the vector is undefined in the code; in the model it
    ends the run like a failing assertion. *)

Definition vec_at {A} (v : list A) (i : Z) : outcome A :=
  match (if (0 <=? i)%Z then v !! Z.to_nat i else None) with
  | Some a => Done a
  | None => Assert "vector index out of range"
  end.
Definition vec_put {A} (v : list A) (i : Z) (a : A) : outcome (list A) :=
  _ ← vec_at v i; Done (<[Z.to_nat i := a]> v).

Lemma vec_at_in {A} (v : list A) (i : Z) :
  (0 <= i < Z.of_nat (length v))%Z -> exists a, v !! Z.to_nat i = Some a /\ vec_at v i = Done a.
Proof.
  intros Hi. destruct (lookup_lt_is_Some_2 v (Z.to_nat i)) as [a Ha]; [lia|].
  exists a. unfold vec_at. rewrite (proj2 (Z.leb_le 0 i)) by lia. by rewrite Ha.
Qed.

Lemma vec_put_in {A} (v : list A) (i : Z) (a : A) :
  (0 <= i < Z.of_nat (length v))%Z -> vec_put v i a = Done (<[Z.to_nat i := a]> v).
Proof. intros Hi. unfold vec_put. by destruct (vec_at_in v i Hi) as (b & _ & ->). Qed.

(** ** Counting loops and families *)

(** The loops [for (i = 0; i < n; i++)]. *)
Definition below (n : Z) : list Z := Z.of_nat <$> seq 0 (Z.to_nat n).

(** An array with one element changed. *)
Definition fset {A} (i : Z) (x : A) (f : Z -> A) : Z -> A := fun j => if (j =? i)%Z then x else f j.

Lemma below_spec n i : i ∈ below n <-> (0 <= i < n)%Z.
Proof.
  unfold below. rewrite list_elem_of_fmap. split.
  - intros (k & -> & [H1 H2]%elem_of_seq). lia.
  - intros [H1 H2]. exists (Z.to_nat i). rewrite elem_of_seq. lia.
Qed.

Lemma below_NoDup n : NoDup (below n).
Proof. unfold below. apply NoDup_fmap_2; [intros ? ?; lia|apply NoDup_seq]. Qed.

Lemma fset_same {A} i (x : A) F : fset i x F i = x.
Proof. unfold fset. by rewrite Z.eqb_refl. Qed.
Lemma fset_other {A} i (x : A) F j : j <> i -> fset i x F j = F j.
Proof. unfold fset. intros N. by rewrite (proj2 (Z.eqb_neq j i) N). Qed.

(** ** Masks *)

Lemma land_bound (x m : Z) : (0 <= m -> 0 <= Z.land x m <= m)%Z.
Proof.
  intros Hm. split; [apply Z.land_nonneg; by right|].
  assert (E : (m = Z.land x m + Z.ldiff m x)%Z).
  { rewrite Z.add_nocarry_lxor.
    - rewrite Z.lxor_lor.
      + apply Z.bits_inj'. intros n Hn.
        rewrite Z.lor_spec, Z.land_spec, Z.ldiff_spec.
        by destruct (Z.testbit x n), (Z.testbit m n).
      + apply Z.bits_inj'. intros n Hn.
        rewrite !Z.land_spec, Z.ldiff_spec, Z.bits_0.
        by destruct (Z.testbit x n), (Z.testbit m n).
    - apply Z.bits_inj'. intros n Hn.
      rewrite !Z.land_spec, Z.ldiff_spec, Z.bits_0.
      by destruct (Z.testbit x n), (Z.testbit m n). }
  assert (0 <= Z.ldiff m x)%Z by (apply Z.ldiff_nonneg; by left). lia.
Qed.

Lemma land_idem (x m : Z) : Z.land (Z.land x m) m = Z.land x m.
Proof. by rewrite <-Z.land_assoc, Z.land_diag. Qed.

Lemma StronglySorted_filter_impl {A} (P : A -> Prop) `{forall x, Decision (P x)}
    (R R' : relation A) (l : list A) :
  (forall x y, P x -> P y -> R x y -> R' x y) ->
  StronglySorted R l -> StronglySorted R' (filter P l).
Proof.
  intros HR St. induction St as [|x l St IH F]; [constructor|].
  rewrite filter_cons. case_decide as Px; [|done]. constructor; [done|].
  apply Forall_forall. intros y Hy. apply list_elem_of_filter in Hy as [Py Iy].
  rewrite Forall_forall in F. auto.
Qed.
