(* ===== verification/Messages.v ===== *)
(** * Memory messages

    The payload that every cache, directory and memory component exchanges
    (components/CommonQEMU/Slices/MemoryMessage.hpp): the enumeration of the
    message types with its code numbers, the classifying predicates, and the
    message object itself.  A predicate that throws a [FlexusException] for a
    type it does not recognise returns [None] for it. *)

From S2P Require Import Prelude.
From stdpp Require Import base gmap sets list strings.
From Stdlib Require Import ZArith Lia.

Local Open Scope Z_scope.

Inductive MemoryMessageType : Set :=
  | LoadReq | StoreReq | StorePrefetchReq | FetchReq | NonAllocatingStoreReq | RMWReq |
  CmpxReq | AtomicPreloadReq | FlushReq | ReadReq | WriteReq | WriteAllocate | UpgradeReq |
  UpgradeAllocate | Flush | EvictDirty | EvictWritable | EvictClean | SVBClean | LoadReply |
  StoreReply | StorePrefetchReply | FetchReply | RMWReply | CmpxReply | AtomicPreloadReply |
  MissReply | MissReplyWritable | MissReplyDirty | UpgradeReply | NonAllocatingStoreReply |
  Invalidate | Downgrade | Probe | DownProbe | ReturnReq | InvalidateAck | InvUpdateAck |
  DowngradeAck | DownUpdateAck | ProbedNotPresent | ProbedClean | ProbedWritable |
  ProbedDirty | DownProbePresent | DownProbeNotPresent | ReturnReply | StreamFetch |
  PrefetchReadNoAllocReq | PrefetchReadAllocReq | PrefetchInsert | PrefetchInsertWritable |
  PrefetchReadReply | PrefetchWritableReply | PrefetchDirtyReply | PrefetchReadRedundant |
  StreamFetchWritableReply | StreamFetchRejected | ReturnNAck | ReturnReplyDirty | FetchFwd |
  ReadFwd | WriteFwd | FwdNAck | FwdReply | FwdReplyOwned | FwdReplyWritable |
  FwdReplyDirty | ReadAck | ReadAckDirty | FetchAck | FetchAckDirty | WriteAck | UpgradeAck |
  NASAck | ReadNAck | FetchNAck | WriteNAck | UpgradeNAck | NASNAck | MissNotify |
  MissNotifyData | BackInvalidate | InvalidateNAck | ProtocolMessage | EvictAck |
  WriteRetry | NumMemoryMessageTypes.

Definition type_code (t : MemoryMessageType) : Z :=
  match t with
  | LoadReq => 0 | StoreReq => 1 | StorePrefetchReq => 2 | FetchReq => 3
  | NonAllocatingStoreReq => 4 | RMWReq => 5 | CmpxReq => 6 | AtomicPreloadReq => 7
  | FlushReq => 8 | ReadReq => 9 | WriteReq => 10 | WriteAllocate => 11 | UpgradeReq => 12
  | UpgradeAllocate => 13 | Flush => 14 | EvictDirty => 15 | EvictWritable => 16
  | EvictClean => 17 | SVBClean => 18 | LoadReply => 19 | StoreReply => 20
  | StorePrefetchReply => 21 | FetchReply => 22 | RMWReply => 23 | CmpxReply => 24
  | AtomicPreloadReply => 25 | MissReply => 26 | MissReplyWritable => 27
  | MissReplyDirty => 28 | UpgradeReply => 29 | NonAllocatingStoreReply => 30
  | Invalidate => 31 | Downgrade => 32 | Probe => 33 | DownProbe => 34 | ReturnReq => 35
  | InvalidateAck => 36 | InvUpdateAck => 37 | DowngradeAck => 38 | DownUpdateAck => 39
  | ProbedNotPresent => 40 | ProbedClean => 41 | ProbedWritable => 42 | ProbedDirty => 43
  | DownProbePresent => 44 | DownProbeNotPresent => 45 | ReturnReply => 46
  | StreamFetch => 47 | PrefetchReadNoAllocReq => 48 | PrefetchReadAllocReq => 49
  | PrefetchInsert => 50 | PrefetchInsertWritable => 51 | PrefetchReadReply => 52
  | PrefetchWritableReply => 53 | PrefetchDirtyReply => 54 | PrefetchReadRedundant => 55
  | StreamFetchWritableReply => 56 | StreamFetchRejected => 57 | ReturnNAck => 58
  | ReturnReplyDirty => 59 | FetchFwd => 60 | ReadFwd => 61 | WriteFwd => 62 | FwdNAck => 63
  | FwdReply => 64 | FwdReplyOwned => 65 | FwdReplyWritable => 66 | FwdReplyDirty => 67
  | ReadAck => 68 | ReadAckDirty => 69 | FetchAck => 70 | FetchAckDirty => 71
  | WriteAck => 72 | UpgradeAck => 73 | NASAck => 74 | ReadNAck => 75 | FetchNAck => 76
  | WriteNAck => 77 | UpgradeNAck => 78 | NASNAck => 79 | MissNotify => 80
  | MissNotifyData => 81 | BackInvalidate => 82 | InvalidateNAck => 83
  | ProtocolMessage => 84 | EvictAck => 85 | WriteRetry => 86 | NumMemoryMessageTypes => 87
  end.

Definition all_types : list MemoryMessageType :=
  [LoadReq; StoreReq; StorePrefetchReq; FetchReq; NonAllocatingStoreReq; RMWReq; CmpxReq;
   AtomicPreloadReq; FlushReq; ReadReq; WriteReq; WriteAllocate; UpgradeReq; UpgradeAllocate;
   Flush; EvictDirty; EvictWritable; EvictClean; SVBClean; LoadReply; StoreReply;
   StorePrefetchReply; FetchReply; RMWReply; CmpxReply; AtomicPreloadReply; MissReply;
   MissReplyWritable; MissReplyDirty; UpgradeReply; NonAllocatingStoreReply; Invalidate;
   Downgrade; Probe; DownProbe; ReturnReq; InvalidateAck; InvUpdateAck; DowngradeAck;
   DownUpdateAck; ProbedNotPresent; ProbedClean; ProbedWritable; ProbedDirty;
   DownProbePresent; DownProbeNotPresent; ReturnReply; StreamFetch; PrefetchReadNoAllocReq;
   PrefetchReadAllocReq; PrefetchInsert; PrefetchInsertWritable; PrefetchReadReply;
   PrefetchWritableReply; PrefetchDirtyReply; PrefetchReadRedundant; StreamFetchWritableReply;
   StreamFetchRejected; ReturnNAck; ReturnReplyDirty; FetchFwd; ReadFwd; WriteFwd; FwdNAck;
   FwdReply; FwdReplyOwned; FwdReplyWritable; FwdReplyDirty; ReadAck; ReadAckDirty; FetchAck;
   FetchAckDirty; WriteAck; UpgradeAck; NASAck; ReadNAck; FetchNAck; WriteNAck; UpgradeNAck;
   NASNAck; MissNotify; MissNotifyData; BackInvalidate; InvalidateNAck; ProtocolMessage;
   EvictAck; WriteRetry; NumMemoryMessageTypes].

Definition type_of_code (z : Z) : option MemoryMessageType :=
  match z with Z.neg _ => None | _ => all_types !! Z.to_nat z end.

Lemma type_of_type_code t : type_of_code (type_code t) = Some t.
Proof. by destruct t. Qed.

#[export] Instance type_code_inj : Inj (=) (=) type_code.
Proof.
  intros s t E. apply (inj Some). by rewrite <-!type_of_type_code, E.
Qed.

Definition type_eqb (s t : MemoryMessageType) : bool := type_code s =? type_code t.

Lemma type_eqb_eq s t : type_eqb s t = true <-> s = t.
Proof.
  unfold type_eqb. rewrite Z.eqb_eq. split; [apply (inj type_code) | by intros ->].
Qed.

#[export] Instance type_eq_dec : EqDecision MemoryMessageType.
Proof.
  intros s t. destruct (type_eqb s t) eqn:E; [left | right].
  - by apply type_eqb_eq.
  - intros Est. apply type_eqb_eq in Est. congruence.
Defined.

#[export] Instance type_countable : Countable MemoryMessageType :=
  inj_countable type_code type_of_code type_of_type_code.

Lemma elem_of_all_types t : t ∈ all_types.
Proof.
  apply list_elem_of_lookup. exists (Z.to_nat (type_code t)). by destruct t.
Qed.

(** A decidable statement about every message type is checked by running it. *)
Lemma forall_types (P : MemoryMessageType -> Prop) `{forall t, Decision (P t)} :
  forallb (fun t => bool_decide (P t)) all_types = true -> forall t, P t.
Proof.
  intros F t. rewrite forallb_forall in F.
  eapply bool_decide_eq_true, F, list_elem_of_In, elem_of_all_types.
Qed.

Definition isRequest (t : MemoryMessageType) : option bool :=
  match t with
  | LoadReq | StoreReq | StorePrefetchReq | NonAllocatingStoreReq | FetchReq | RMWReq |
  CmpxReq | AtomicPreloadReq | FlushReq | ReadReq | WriteReq | WriteAllocate | UpgradeReq |
  UpgradeAllocate | Flush | EvictDirty | EvictWritable | EvictClean | SVBClean | Invalidate |
  Downgrade | Probe | DownProbe | ReturnReq | StreamFetch | PrefetchReadNoAllocReq |
  PrefetchReadAllocReq | PrefetchInsert | PrefetchInsertWritable => Some true
  | LoadReply | StoreReply | StorePrefetchReply | FetchReply | RMWReply | CmpxReply |
  AtomicPreloadReply | MissReply | MissReplyWritable | MissReplyDirty | UpgradeReply |
  NonAllocatingStoreReply | InvalidateAck | InvalidateNAck | InvUpdateAck | DowngradeAck |
  DownUpdateAck | ProbedNotPresent | ProbedClean | ProbedWritable | ProbedDirty |
  ReturnReply | PrefetchReadReply | PrefetchWritableReply | PrefetchDirtyReply |
  PrefetchReadRedundant | DownProbePresent | DownProbeNotPresent | StreamFetchWritableReply |
  StreamFetchRejected => Some false
  | _ => None
  end.

Definition isWrite (t : MemoryMessageType) : option bool :=
  match t with
  | StoreReq | StorePrefetchReq | NonAllocatingStoreReq | RMWReq | CmpxReq | WriteReq |
  WriteAllocate | UpgradeReq | UpgradeAllocate | AtomicPreloadReq => Some true
  | Flush | EvictDirty | EvictWritable | EvictClean | SVBClean | Invalidate | Downgrade |
  Probe | DownProbe | ReturnReq | StreamFetch | PrefetchReadNoAllocReq |
  PrefetchReadAllocReq | PrefetchInsert | PrefetchInsertWritable | FlushReq | ReadReq |
  RMWReply | CmpxReply | LoadReq | LoadReply | AtomicPreloadReply | FetchReq | FetchReply |
  StoreReply | StorePrefetchReply | MissReply | MissReplyWritable | MissReplyDirty |
  UpgradeReply | NonAllocatingStoreReply | InvalidateAck | InvUpdateAck | DowngradeAck |
  DownUpdateAck | ProbedNotPresent | ProbedClean | ProbedWritable | ProbedDirty |
  DownProbePresent | DownProbeNotPresent | ReturnReply | PrefetchReadReply |
  PrefetchWritableReply | PrefetchDirtyReply | PrefetchReadRedundant |
  StreamFetchWritableReply | StreamFetchRejected => Some false
  | _ => None
  end.

Definition usesSnoopChannel (t : MemoryMessageType) : option bool :=
  match t with
  | FlushReq | Flush | EvictDirty | EvictWritable | EvictClean | SVBClean | InvalidateNAck |
  InvalidateAck | InvUpdateAck | DowngradeAck | DownUpdateAck | ProbedNotPresent |
  ProbedClean | ProbedWritable | ProbedDirty | PrefetchInsert | PrefetchInsertWritable |
  DownProbe | ReturnReply => Some true
  | LoadReq | AtomicPreloadReq | StoreReq | StorePrefetchReq | NonAllocatingStoreReq |
  FetchReq | RMWReq | CmpxReq | ReadReq | WriteReq | WriteAllocate | UpgradeReq |
  UpgradeAllocate | StreamFetch | PrefetchReadNoAllocReq | PrefetchReadAllocReq => Some false
  | Invalidate | Downgrade | Probe | LoadReply | AtomicPreloadReply | StoreReply |
  StorePrefetchReply | FetchReply | RMWReply | CmpxReply | MissReply | MissReplyWritable |
  MissReplyDirty | UpgradeReply | NonAllocatingStoreReply | PrefetchReadReply |
  PrefetchWritableReply | PrefetchDirtyReply | PrefetchReadRedundant | DownProbePresent |
  DownProbeNotPresent | ReturnReq | StreamFetchWritableReply | StreamFetchRejected => Some false
  | _ => None
  end.

Definition directionToBack (t : MemoryMessageType) : option bool :=
  match t with
  | LoadReq | AtomicPreloadReq | StoreReq | StorePrefetchReq | NonAllocatingStoreReq |
  FetchReq | RMWReq | CmpxReq | FlushReq | ReadReq | WriteReq | WriteAllocate | UpgradeReq |
  UpgradeAllocate | Flush | EvictDirty | EvictWritable | EvictClean | SVBClean |
  StreamFetch | PrefetchReadNoAllocReq | PrefetchReadAllocReq | PrefetchInsert |
  PrefetchInsertWritable | InvalidateAck | InvUpdateAck | DowngradeAck | DownUpdateAck |
  ProbedNotPresent | ProbedClean | ProbedWritable | ProbedDirty | DownProbe | ReturnReply => Some true
  | Invalidate | Downgrade | Probe | LoadReply | AtomicPreloadReply | StoreReply |
  StorePrefetchReply | FetchReply | RMWReply | CmpxReply | MissReply | MissReplyWritable |
  MissReplyDirty | UpgradeReply | NonAllocatingStoreReply | PrefetchReadReply |
  PrefetchWritableReply | PrefetchDirtyReply | PrefetchReadRedundant | DownProbePresent |
  DownProbeNotPresent | ReturnReq | StreamFetchWritableReply | StreamFetchRejected => Some false
  | _ => None
  end.

Definition isSnoopType (t : MemoryMessageType) : bool :=
  match t with
  | Invalidate | Downgrade | InvalidateAck | InvUpdateAck | DowngradeAck | DownUpdateAck => true
  | _ => false
  end.

Definition isAckType (t : MemoryMessageType) : bool :=
  match t with
  | ReadAck | FetchAck | WriteAck | UpgradeAck | NASAck => true
  | _ => false
  end.

Definition isEvictType (t : MemoryMessageType) : bool :=
  match t with
  | EvictDirty | EvictWritable | EvictClean => true
  | _ => false
  end.

Definition isProbeType (t : MemoryMessageType) : bool :=
  match t with
  | Probe | ProbedNotPresent | ProbedClean | ProbedWritable | ProbedDirty | DownProbe |
  DownProbePresent | DownProbeNotPresent => true
  | _ => false
  end.

Definition isPrefetchType (t : MemoryMessageType) : bool :=
  match t with
  | StreamFetch | PrefetchReadNoAllocReq | PrefetchReadAllocReq | PrefetchInsert |
  PrefetchInsertWritable | PrefetchReadReply | PrefetchWritableReply | PrefetchDirtyReply |
  PrefetchReadRedundant | StreamFetchWritableReply | StreamFetchRejected => true
  | _ => false
  end.

Inductive tFillLevel : Set :=
  | eUnknown | eL1 | eL2 | eL3 | eLocalMem | eRemoteMem | ePrefetchBuffer | ePeerL1Cache
  | eL2Prefetcher | eL1I | eCore | ePeerL2 | eDirectory | NumFillLevels.

(** The fields of a message that the modelled components read or write. *)
Record MemoryMessage : Type := mkMessage {
  theType : MemoryMessageType;
  theAddress : Z;
  theAssociatedPC : Z;
  theReqSize : Z;
  theCoreIdx : Z;
  theDstream : bool;
  theFillLevel : tFillLevel;
  theAckRequiresData : bool;
}.

(** [explicit MemoryMessage(aType, anAddress)] *)
Definition newMessage (aType : MemoryMessageType) (anAddress : Z) : MemoryMessage :=
  mkMessage aType anAddress 0 0 0 true eUnknown false.

(** The copy constructor: the core index and the fill level start over. *)
Definition copyMessage (m : MemoryMessage) : MemoryMessage :=
  mkMessage (theType m) (theAddress m) (theAssociatedPC m) (theReqSize m) 0 (theDstream m)
    eUnknown (theAckRequiresData m).

Definition set_type (t : MemoryMessageType) (m : MemoryMessage) : MemoryMessage :=
  mkMessage t (theAddress m) (theAssociatedPC m) (theReqSize m) (theCoreIdx m) (theDstream m)
    (theFillLevel m) (theAckRequiresData m).
Definition set_address (a : Z) (m : MemoryMessage) : MemoryMessage :=
  mkMessage (theType m) a (theAssociatedPC m) (theReqSize m) (theCoreIdx m) (theDstream m)
    (theFillLevel m) (theAckRequiresData m).
Definition set_dstream (b : bool) (m : MemoryMessage) : MemoryMessage :=
  mkMessage (theType m) (theAddress m) (theAssociatedPC m) (theReqSize m) (theCoreIdx m) b
    (theFillLevel m) (theAckRequiresData m).
Definition set_fillLevel (l : tFillLevel) (m : MemoryMessage) : MemoryMessage :=
  mkMessage (theType m) (theAddress m) (theAssociatedPC m) (theReqSize m) (theCoreIdx m)
    (theDstream m) l (theAckRequiresData m).

Definition set_reqSize (n : Z) (m : MemoryMessage) : MemoryMessage :=
  mkMessage (theType m) (theAddress m) (theAssociatedPC m) n (theCoreIdx m) (theDstream m)
    (theFillLevel m) (theAckRequiresData m).
Definition set_coreIdx (i : Z) (m : MemoryMessage) : MemoryMessage :=
  mkMessage (theType m) (theAddress m) (theAssociatedPC m) (theReqSize m) i (theDstream m)
    (theFillLevel m) (theAckRequiresData m).
Definition set_pc (a : Z) (m : MemoryMessage) : MemoryMessage :=
  mkMessage (theType m) (theAddress m) a (theReqSize m) (theCoreIdx m) (theDstream m)
    (theFillLevel m) (theAckRequiresData m).
Definition set_ackRequiresData (b : bool) (m : MemoryMessage) : MemoryMessage :=
  mkMessage (theType m) (theAddress m) (theAssociatedPC m) (theReqSize m) (theCoreIdx m)
    (theDstream m) (theFillLevel m) b.

Definition HEADER_SIZE : Z := 8.

Definition messageSize (m : MemoryMessage) : Z :=
  match theType m with
  | FetchReq | ReadReq | WriteReq | UpgradeReq | EvictWritable | EvictClean | UpgradeReply |
  NonAllocatingStoreReply | Invalidate | InvalidateAck | InvalidateNAck | FetchFwd | ReadFwd |
  WriteFwd | FwdNAck | WriteAck | UpgradeAck | NASAck | ReadNAck | FetchNAck | WriteNAck |
  UpgradeNAck | NASNAck | MissNotify | BackInvalidate | ProtocolMessage | EvictAck |
  WriteRetry => HEADER_SIZE
  | ReadAck | FetchAck =>
      if theAckRequiresData m then HEADER_SIZE + theReqSize m else HEADER_SIZE
  | ReadAckDirty | FetchAckDirty | MissNotifyData | NonAllocatingStoreReq | FwdReply |
  FwdReplyOwned | FwdReplyWritable | FwdReplyDirty | InvUpdateAck | FetchReply | MissReply |
  MissReplyWritable | MissReplyDirty | EvictDirty => HEADER_SIZE + theReqSize m
  | _ => -1
  end.

Definition directionToFront (t : MemoryMessageType) : option bool :=
  negb <$> directionToBack t.

Definition maxProbe (a b : MemoryMessageType) : MemoryMessageType :=
  if type_eqb a ProbedDirty || type_eqb b ProbedDirty then ProbedDirty
  else if type_eqb a ProbedWritable || type_eqb b ProbedWritable then ProbedWritable
  else if type_eqb a ProbedClean || type_eqb b ProbedClean then ProbedClean
  else ProbedNotPresent.

Lemma theType_set_type t m : theType (set_type t m) = t.
Proof. done. Qed.
Lemma theAddress_set_type t m : theAddress (set_type t m) = theAddress m.
Proof. done. Qed.
#[export] Hint Rewrite theType_set_type theAddress_set_type : flexus_simpl.

(** The predicates agree with each other.  What uses the
    snoop channel and what is a write travel to the back side, with the one
    exception of [InvalidateNAck], which [usesSnoopChannel] knows and
    [directionToBack] throws on; every type is a request or a reply for
    [isRequest] exactly when it is a type [directionToBack] knows, again up to
    [InvalidateNAck]. *)
Theorem message_classes_agree (t : MemoryMessageType) :
  (usesSnoopChannel t = Some true -> t <> InvalidateNAck -> directionToBack t = Some true) /\
  (isWrite t = Some true -> isRequest t = Some true /\ directionToBack t = Some true) /\
  (isEvictType t = true -> usesSnoopChannel t = Some true) /\
  (t <> InvalidateNAck -> (isRequest t = None <-> directionToBack t = None)) /\
  (isRequest InvalidateNAck = Some false /\ directionToBack InvalidateNAck = None).
Proof. destruct t; cbn; intuition congruence. Qed.

(** A type that [isRequest] throws on has a code beyond the end of the string
    literal that the exception's argument indexes with it: the expression
    ["isRequest not recognized: " + theType] is pointer arithmetic on a literal
    of 26 characters. *)
Lemma isRequest_throw_code t : isRequest t = None -> 26 < type_code t.
Proof. destruct t; cbn; lia || congruence. Qed.

Lemma set_type_twice t t' m : set_type t (set_type t' m) = set_type t m.
Proof. done. Qed.

Lemma set_type_id m : set_type (theType m) m = m.
Proof. by destruct m. Qed.

(** ** Probe replies *)

(** How much of a block a probe reply says is there: nothing, a clean copy, a
    writable copy, a dirty copy.  Any other type says nothing. *)
Definition probe_level (t : MemoryMessageType) : Z :=
  match t with
  | ProbedClean => 1
  | ProbedWritable => 2
  | ProbedDirty => 3
  | _ => 0
  end.

Definition is_probe_reply (t : MemoryMessageType) : bool :=
  match t with
  | ProbedNotPresent | ProbedClean | ProbedWritable | ProbedDirty => true
  | _ => false
  end.

Lemma probe_level_inj s t :
  is_probe_reply s = true -> is_probe_reply t = true -> probe_level s = probe_level t -> s = t.
Proof. destruct s; try done; destruct t; done. Qed.

Lemma maxProbe_is_reply a b : is_probe_reply (maxProbe a b) = true.
Proof.
  unfold maxProbe. by repeat case_match.
Qed.

Lemma probe_level_eqb t :
  type_eqb t ProbedDirty = (probe_level t =? 3) /\
  type_eqb t ProbedWritable = (probe_level t =? 2) /\
  type_eqb t ProbedClean = (probe_level t =? 1) /\ 0 <= probe_level t <= 3.
Proof. destruct t; cbn; lia. Qed.

(** The result is a probe reply and says of the block exactly
    the larger of what the two arguments say, so that combining any number of
    replies in any order and grouping gives the same answer. *)
Theorem maxProbe_is_maximum (a b c : MemoryMessageType) :
  is_probe_reply (maxProbe a b) = true /\
  probe_level (maxProbe a b) = Z.max (probe_level a) (probe_level b) /\
  maxProbe a b = maxProbe b a /\ maxProbe a (maxProbe b c) = maxProbe (maxProbe a b) c.
Proof.
  assert (L : forall a b, probe_level (maxProbe a b) = Z.max (probe_level a) (probe_level b)).
  { clear. intros a b. unfold maxProbe.
    destruct (probe_level_eqb a) as (-> & -> & -> & Ha), (probe_level_eqb b) as (-> & -> & -> & Hb).
    repeat (case_match; rewrite ?orb_true_iff, ?orb_false_iff, ?Z.eqb_eq, ?Z.eqb_neq in * ); cbn; lia. }
  split_and!; [apply maxProbe_is_reply|apply L|..];
    (apply probe_level_inj; [apply maxProbe_is_reply..|]); rewrite !L; lia.
Qed.
