(* ===== verification/StdCache.v ===== *)
(** * The standard tag array of the functional caches

    components/FastCache/StdCache.hpp and its copy
    components/FastCMPCache/StdCache.hpp, with the state encoding of
    CoherenceStates.hpp and [log_base2] of components/CommonQEMU/Util.hpp.

    A set is a [boost::multi_index_container]: the sequenced index is the list
    (head = least recently used, end = most recently used), the tag and way
    indices are unique keys.  Nodes keep their address while they move, and a
    block keeps its way number for life, so an iterator is the way number of
    the block it points to.  [theBlocks] is the array of the sets. *)

From S2P Require Import Prelude.
From stdpp Require Import base gmap sets list strings sorting.
From Stdlib Require Import ZArith Lia.

Local Open Scope Z_scope.

(** ** Coherence states *)

Inductive CoherenceState_t : Set :=
  | kMigratory | kModified | kOwned | kExclusive | kShared | kInvalid.

Definition state_bits (s : CoherenceState_t) : Z :=
  match s with
  | kMigratory => 0x0F
  | kModified => 0x07
  | kOwned => 0x05
  | kExclusive => 0x03
  | kShared => 0x01
  | kInvalid => 0x00
  end.

Definition kValid_Bit : Z := 0x1.
Definition kExclusive_Bit : Z := 0x2.
Definition kDirty_Bit : Z := 0x4.

Definition isValid (s : CoherenceState_t) : bool :=
  negb (Z.land (state_bits s) kValid_Bit =? 0).

#[export] Instance CoherenceState_eq_dec : EqDecision CoherenceState_t.
Proof. solve_decision. Defined.

Definition state_eqb (s t : CoherenceState_t) : bool := state_bits s =? state_bits t.

Lemma state_eqb_eq s t : state_eqb s t = true <-> s = t.
Proof. destruct s, t; cbn; naive_solver. Qed.

Lemma isValid_spec s : isValid s = true <-> s <> kInvalid.
Proof. destruct s; cbn; naive_solver. Qed.

Definition Short2State (s : CoherenceState_t) : string :=
  match s with
  | kMigratory => "Migratory"
  | kModified => "Modified"
  | kOwned => "Owned"
  | kExclusive => "Exclusive"
  | kShared => "Shared"
  | kInvalid => "Invalid"
  end.

(** ** [log_base2]: the loop [for (val >>= 1; val > 0; val >>= 1, ret++)] *)

Fixpoint log_base2_loop (fuel : nat) (val ret : Z) : Z :=
  match fuel with
  | O => ret
  | S fuel =>
      if 0 <? val then log_base2_loop fuel (Z.shiftr val 1) (ret + 1) else ret
  end.

(** 64 rounds are enough for every argument type the code uses it at. *)
Definition log_base2 (val : Z) : Z := log_base2_loop 64 (Z.shiftr val 1) 0.
#[global] Arguments log_base2 : simpl never.

(** ** Blocks and sets *)

Record BlockEntry : Type := mkBlock {
  tag : Z;
  state : CoherenceState_t;
  way : nat;
}.

#[export] Instance BlockEntry_eq_dec : EqDecision BlockEntry.
Proof. solve_decision. Defined.

Abbreviation block_set := (list BlockEntry).

Definition ChangeBlockState (s : CoherenceState_t) (b : BlockEntry) : BlockEntry :=
  mkBlock (tag b) s (way b).
Definition ReplaceBlock (t : Z) (s : CoherenceState_t) (b : BlockEntry) : BlockEntry :=
  mkBlock t s (way b).

(** [get<by_tag>().find(tag)] and the dereference of an iterator. *)
Definition find_tag (s : block_set) (t : Z) : option BlockEntry := find_by tag t s.
Definition block_at (s : block_set) (w : nat) : option BlockEntry := find_by way w s.

(** [modify] of a multi-index container with a unique tag key: when the new key
    collides with another element, the modified element is erased. *)
Definition modify_block (w : nat) (f : BlockEntry -> BlockEntry) (s : block_set) : block_set :=
  match block_at s w with
  | None => s
  | Some b =>
      if bool_decide (Exists (fun c => way c <> w /\ tag c = tag (f b)) s)
      then filter (fun c => way c <> w) s
      else (fun c => if decide (way c = w) then f c else c) <$> s
  end.

(** [relocate(end, it)] and [relocate(begin, it)] of the sequenced index. *)
Definition relocate_tail (w : nat) (s : block_set) : block_set :=
  filter (fun c => way c <> w) s ++ filter (fun c => way c = w) s.
Definition relocate_head (w : nat) (s : block_set) : block_set :=
  filter (fun c => way c = w) s ++ filter (fun c => way c <> w) s.

(** ** The cache *)

Record StdCache : Type := mkCache {
  theNumSets : Z;
  theAssoc : Z;
  theBlockSize : Z;
  blockShift : Z;
  blockSetMask : Z;
  blockTagMask : Z;
  theBlocks : list block_set;
  theAllocateInProgress : bool;
  theAllocateAddr : Z;
}.

Definition set_blocks (bs : list block_set) (c : StdCache) : StdCache :=
  mkCache (theNumSets c) (theAssoc c) (theBlockSize c) (blockShift c) (blockSetMask c)
    (blockTagMask c) bs (theAllocateInProgress c) (theAllocateAddr c).
Definition set_allocating (b : bool) (a : Z) (c : StdCache) : StdCache :=
  mkCache (theNumSets c) (theAssoc c) (theBlockSize c) (blockShift c) (blockSetMask c)
    (blockTagMask c) (theBlocks c) b a.

(** The constructor. *)
Definition newStdCache (aBlockSize aNumSets anAssociativity : Z) : outcome StdCache :=
  if negb (0 <? anAssociativity) then Assert "theAssoc > 0"
  else if negb (0 <? aNumSets) then Assert "theNumSets > 0"
  else if negb (0 <? aBlockSize) then Assert "theBlockSize > 0"
  else if negb (Z.land aNumSets (aNumSets - 1) =? 0) then Assert "theNumSets"
  else if negb (Z.land aBlockSize (aBlockSize - 1) =? 0) then Assert "theBlockSize"
  else Done (mkCache aNumSets anAssociativity aBlockSize (log_base2 aBlockSize) (aNumSets - 1)
               (Z.lnot (aBlockSize - 1)) (replicate (Z.to_nat aNumSets) []) false 0).

Definition get_set (c : StdCache) (addr : Z) : Z :=
  Z.land (Z.shiftr addr (blockShift c)) (blockSetMask c).
Definition get_tag (c : StdCache) (addr : Z) : Z := Z.land addr (blockTagMask c).

(** [&(theBlocks[set_index])] and an update through that pointer. *)
Definition the_set (c : StdCache) (i : Z) : block_set := default [] (theBlocks c !! Z.to_nat i).
Definition put_set (i : Z) (s : block_set) (c : StdCache) : StdCache :=
  set_blocks (<[Z.to_nat i := s]> (theBlocks c)) c.
Definition alter_set (i : Z) (f : block_set -> block_set) (c : StdCache) : StdCache :=
  put_set i (f (the_set c i)) c.

(** [StdLookupResult]: the set by its index, the block by its way. *)
Record LookupResult : Type := mkLookup {
  lr_address : Z;
  lr_state : CoherenceState_t;
  lr_set : Z;
  lr_block : nat;
}.

Definition lr_deref (lr : LookupResult) (c : StdCache) : option BlockEntry :=
  block_at (the_set c (lr_set lr)) (lr_block lr).

Definition getState (lr : LookupResult) (c : StdCache) : CoherenceState_t :=
  match lr_deref lr c with
  | Some b => if tag b =? lr_address lr then state b else lr_state lr
  | None => lr_state lr
  end.

Definition update_lru (lr : LookupResult) (c : StdCache) : StdCache :=
  alter_set (lr_set lr) (relocate_tail (lr_block lr)) c.
Definition make_block_lru (lr : LookupResult) (c : StdCache) : StdCache :=
  alter_set (lr_set lr) (relocate_head (lr_block lr)) c.

Definition updateState (lr : LookupResult) (new_state : CoherenceState_t)
    (make_MRU make_LRU : bool) (c : StdCache) : StdCache :=
  let c := alter_set (lr_set lr) (modify_block (lr_block lr) (ChangeBlockState new_state)) c in
  if make_MRU then update_lru lr c
  else if make_LRU then make_block_lru lr c
  else c.

Definition cache_lookup (tagset : Z) (c : StdCache) : LookupResult * StdCache :=
  let t := get_tag c tagset in
  let i := get_set c tagset in
  let s := the_set c i in
  match find_tag s t with
  | Some b => (mkLookup t (state b) i (way b), c)
  | None =>
      if Z.of_nat (length s) <? theAssoc c
      then (mkLookup t kInvalid i (length s), put_set i (mkBlock t kInvalid (length s) :: s) c)
      else (mkLookup t kInvalid i (default 0%nat (way <$> head s)), c)
  end.

(** [allocate]: the part before and the part after the call of [evict], which
    goes through the cache component and may come back to this array.  Whether
    the block is replaced is decided before that call. *)
Definition allocate_begin (lr : LookupResult) (c : StdCache) : StdCache :=
  set_allocating true (get_tag c (lr_address lr)) c.
Definition allocate_replaces (lr : LookupResult) (c : StdCache) : bool :=
  match lr_deref lr c with
  | Some b => negb (tag b =? get_tag c (lr_address lr))
  | None => false
  end.

(** The block that [allocate] hands to [evict], if any. *)
Definition allocate_victim (lr : LookupResult) (c : StdCache) : option BlockEntry :=
  match lr_deref lr c with
  | Some b => if allocate_replaces lr c && isValid (state b) then Some b else None
  | None => None
  end.

Definition allocate_end (lr : LookupResult) (replace : bool) (new_state : CoherenceState_t)
    (c : StdCache) : StdCache :=
  let change := if replace then ReplaceBlock (get_tag c (lr_address lr)) new_state
                else ChangeBlockState new_state in
  let c := alter_set (lr_set lr) (modify_block (lr_block lr) change) c in
  let c := alter_set (lr_set lr) (relocate_tail (lr_block lr)) c in
  set_allocating false (theAllocateAddr c) c.

Definition allocate {W} (cell : Slot W StdCache) (evict : Z -> CoherenceState_t -> M W ())
    (lr : LookupResult) (new_state : CoherenceState_t) : M W () :=
  update cell (allocate_begin lr);;
  c ← gets (view cell);
  (match allocate_victim lr c with
   | Some b => evict (tag b) (state b)
   | None => mret ()
   end);;
  update cell (allocate_end lr (allocate_replaces lr c) new_state).

(** [getSetTags]: the hashed index enumerates a set in an order that the code
    does not rely on; the list keeps the recency order. *)
Definition getSetTags (c : StdCache) (address : Z) : list Z :=
  let i := get_set c address in
  (if theAllocateInProgress c && (get_set c (theAllocateAddr c) =? i)
   then [theAllocateAddr c] else []) ++
  (tag <$> filter (fun b => isValid (state b) = true) (the_set c i)).

(** ** Sets: what an operation does to the contents *)

(** A set of at most [assoc] blocks, no two with the same tag or way, in the
    ways that the pushes of [lookup] have handed out. *)
Record wf_set (assoc : nat) (s : block_set) : Prop := {
  wf_tags : NoDup (tag <$> s);
  wf_ways : NoDup (way <$> s);
  wf_size : (length s <= assoc)%nat;
  wf_way_bound : Forall (fun b => (way b < length s)%nat) s;
}.

Lemma relocate_tail_perm w s : relocate_tail w s ≡ₚ s.
Proof. unfold relocate_tail. rewrite (comm (++)). apply filter_app_complement. Qed.

Lemma relocate_head_perm w s : relocate_head w s ≡ₚ s.
Proof. apply filter_app_complement. Qed.

Lemma wf_set_perm assoc s s' : s ≡ₚ s' -> wf_set assoc s -> wf_set assoc s'.
Proof.
  intros P [H1 H2 H3 H4]. split; rewrite <-?P; try done.
  by rewrite <-(Permutation_length P).
Qed.

Lemma find_tag_perm assoc s s' t : wf_set assoc s -> s ≡ₚ s' -> find_tag s' t = find_tag s t.
Proof. intros W P. symmetry. apply find_by_perm; [apply W | done]. Qed.

Lemma block_at_perm assoc s s' w : wf_set assoc s -> s ≡ₚ s' -> block_at s' w = block_at s w.
Proof. intros W P. symmetry. apply find_by_perm; [apply W | done]. Qed.

Definition put_block (w : nat) (f : BlockEntry -> BlockEntry) (s : block_set) : block_set :=
  (fun c => if decide (way c = w) then f c else c) <$> s.

(** A change that brings no tag of another block leaves a well-formed set. *)
Lemma modify_block_no_collision w f s b :
  block_at s w = Some b ->
  (forall c, c ∈ s -> way c <> w -> tag c <> tag (f b)) ->
  modify_block w f s = put_block w f s.
Proof.
  intros B NC. unfold modify_block. rewrite B. case_bool_decide as E; [|done].
  apply Exists_exists in E as (c & Hc & Hw & Ht). by destruct (NC c).
Qed.

Section put_block.
Context (assoc : nat) (w : nat) (f : BlockEntry -> BlockEntry) (s : block_set) (b : BlockEntry).
Hypothesis (WF : wf_set assoc s) (B : block_at s w = Some b).
Hypothesis (Fway : forall c, way (f c) = way c).
Hypothesis (NC : forall c, c ∈ s -> way c <> w -> tag c <> tag (f b)).

Lemma put_block_ways : way <$> put_block w f s = way <$> s.
Proof using Fway.
  unfold put_block. rewrite <-list_fmap_compose. apply list_fmap_ext. intros i c _. cbn.
  case_decide; [apply Fway | done].
Qed.

Lemma block_at_way_unique c : c ∈ s -> way c = w -> c = b.
Proof using WF B.
  intros I E. assert (block_at s w = Some c) by (apply find_by_elem; [apply WF|done..]).
  congruence.
Qed.

Lemma elem_of_put_block c : c ∈ put_block w f s <-> c = f b \/ (c ∈ s /\ way c <> w).
Proof using WF B Fway.
  unfold put_block. rewrite list_elem_of_fmap.
  destruct (find_by_Some _ _ _ _ B) as [Ib Eb]. split.
  - intros (d & -> & I). case_decide as E; [|by right].
    left. f_equal. by apply block_at_way_unique.
  - intros [-> | [I E]].
    + exists b. by rewrite decide_True.
    + exists c. by rewrite decide_False.
Qed.

Lemma put_block_tags : NoDup (tag <$> put_block w f s).
Proof using WF B Fway NC.
  assert (NDw : NoDup (way <$> put_block w f s)) by (rewrite put_block_ways; apply WF).
  apply NoDup_fmap_1 in NDw.
  apply NoDup_fmap_2_strong; [|done]. intros x y Hx Hy E.
  apply elem_of_put_block in Hx, Hy.
  destruct Hx as [-> | [Ix Ex]], Hy as [-> | [Iy Ey]]; [done| | |].
  - by destruct (NC y).
  - by destruct (NC x).
  - assert (Fx : find_tag s (tag x) = Some x) by (apply find_by_elem; [apply WF|done..]).
    assert (Fy : find_tag s (tag x) = Some y) by (apply find_by_elem; [apply WF|done..]).
    congruence.
Qed.

Lemma put_block_wf : wf_set assoc (put_block w f s).
Proof using WF B Fway NC.
  split.
  - apply put_block_tags.
  - rewrite put_block_ways. apply WF.
  - unfold put_block. rewrite length_fmap. apply WF.
  - apply Forall_fmap. unfold put_block. rewrite length_fmap.
    eapply Forall_impl; [apply WF|]. intros c Hc. cbn. case_decide; rewrite ?Fway; done.
Qed.

Lemma put_block_at : block_at (put_block w f s) w = Some (f b).
Proof using WF B Fway NC.
  destruct (find_by_Some _ _ _ _ B) as [Ib Eb].
  apply find_by_elem; [apply put_block_wf| apply elem_of_put_block; by left |].
  by rewrite Fway.
Qed.

Lemma find_tag_put_block t :
  find_tag (put_block w f s) t =
    if decide (t = tag (f b)) then Some (f b)
    else if decide (t = tag b) then None else find_tag s t.
Proof using WF B Fway NC.
  destruct (find_by_Some _ _ _ _ B) as [Ib Eb].
  destruct (decide (t = tag (f b))) as [->|N1].
  - apply find_by_elem; [apply put_block_tags| apply elem_of_put_block; by left | done].
  - apply option_eq. intros c. unfold find_tag.
    rewrite find_by_iff by apply put_block_tags. rewrite elem_of_put_block.
    case_decide as N2; [|rewrite find_by_iff by apply WF]; split; try naive_solver.
    + intros [[->|[I E]] <-]; [done|].
      assert (Fb : find_tag s (tag b) = Some b) by (apply find_by_elem; [apply WF|done..]).
      assert (Fc : find_tag s (tag b) = Some c) by (apply find_by_elem; [apply WF|done..]).
      congruence.
    + intros [I <-]. split; [right; split; [done|] | done].
      intros E. apply N2. f_equal. by apply block_at_way_unique.
Qed.
End put_block.

(** ** The cache as a map from block addresses to states *)

Record wf_cache (c : StdCache) : Prop := {
  wfc_assoc : 0 < theAssoc c;
  wfc_sets_pos : 0 < theNumSets c;
  wfc_mask : blockSetMask c = theNumSets c - 1;
  wfc_len : length (theBlocks c) = Z.to_nat (theNumSets c);
  wfc_set i s : theBlocks c !! i = Some s ->
    wf_set (Z.to_nat (theAssoc c)) s /\
    Forall (fun b => isValid (state b) = true ->
                     get_set c (tag b) = Z.of_nat i /\ get_tag c (tag b) = tag b) s;
}.

(** The coherence state the cache holds for a block: [kInvalid] when absent. *)
Definition peek (c : StdCache) (a : Z) : CoherenceState_t :=
  default kInvalid (state <$> find_tag (the_set c (get_set c a)) a).

Definition same_geometry (c c' : StdCache) : Prop :=
  theNumSets c = theNumSets c' /\ theAssoc c = theAssoc c' /\ blockShift c = blockShift c' /\
  blockSetMask c = blockSetMask c' /\ blockTagMask c = blockTagMask c'.

#[export] Instance same_geometry_equiv : Equivalence same_geometry.
Proof. split; repeat intro; unfold same_geometry in *; intuition congruence. Qed.

Definition home (c : StdCache) (i : Z) (b : BlockEntry) : Prop :=
  isValid (state b) = true -> get_set c (tag b) = i /\ get_tag c (tag b) = tag b.

Section cache.
Context (c : StdCache) (WF : wf_cache c).

Lemma get_set_bound a : 0 <= get_set c a < theNumSets c.
Proof using WF.
  unfold get_set. rewrite (wfc_mask c WF).
  pose proof (wfc_sets_pos c WF). pose proof (land_bound (Z.shiftr a (blockShift c)) (theNumSets c - 1)).
  lia.
Qed.

Lemma the_set_in_range i :
  0 <= i < theNumSets c ->
  theBlocks c !! Z.to_nat i = Some (the_set c i) /\
  wf_set (Z.to_nat (theAssoc c)) (the_set c i) /\ Forall (home c i) (the_set c i).
Proof using WF.
  intros Hi. unfold the_set.
  destruct (theBlocks c !! Z.to_nat i) as [s|] eqn:E; cbn.
  - destruct (wfc_set c WF _ _ E) as [H1 H2]. split; [done|]. split; [done|].
    eapply Forall_impl; [exact H2|]. intros b Hb V. destruct (Hb V). split; [lia|done].
  - apply lookup_ge_None in E. rewrite (wfc_len c WF) in E. lia.
Qed.

Lemma the_set_alter i f j :
  0 <= i < theNumSets c -> 0 <= j < theNumSets c ->
  the_set (alter_set i f c) j = if decide (i = j) then f (the_set c i) else the_set c j.
Proof using WF.
  intros Hi Hj. unfold alter_set, put_set, the_set at 1. cbn.
  case_decide as E.
  - subst. rewrite list_lookup_insert_eq; [done|]. rewrite (wfc_len c WF). lia.
  - rewrite list_lookup_insert_ne by lia. done.
Qed.

Lemma alter_set_wf i f :
  0 <= i < theNumSets c ->
  wf_set (Z.to_nat (theAssoc c)) (f (the_set c i)) -> Forall (home c i) (f (the_set c i)) ->
  wf_cache (alter_set i f c).
Proof using WF.
  intros Hi H1 H2. destruct WF as [A B C D E]. split; cbn; try done.
  - by rewrite length_insert.
  - intros j s Hs. apply list_lookup_insert_Some in Hs as [(<- & <- & _)|(_ & Hs)].
    + split; [done|]. eapply Forall_impl; [exact H2|]. intros b Hb V.
      destruct (Hb V). split; [|done]. rewrite Z2Nat.id by lia. done.
    + by apply E.
Qed.

Lemma alter_set_geometry i f : same_geometry c (alter_set i f c).
Proof. done. Qed.

Lemma peek_alter i f a :
  0 <= i < theNumSets c ->
  peek (alter_set i f c) a =
    if decide (i = get_set c a)
    then default kInvalid (state <$> find_tag (f (the_set c i)) a) else peek c a.
Proof using WF.
  intros Hi. unfold peek. change (get_set (alter_set i f c) a) with (get_set c a).
  rewrite the_set_alter by (done || apply get_set_bound). by case_decide.
Qed.
End cache.

(** A lookup result for the block address [a] that is still good: it points to
    the block of [a], or to the block to replace when [a] is not in its set. *)
Record handle (c : StdCache) (lr : LookupResult) (a : Z) (b : BlockEntry) : Prop := {
  h_address : lr_address lr = a;
  h_aligned : get_tag c a = a;
  h_set : lr_set lr = get_set c a;
  h_block : lr_deref lr c = Some b;
  h_miss : tag b <> a -> find_tag (the_set c (get_set c a)) a = None /\ lr_state lr = kInvalid;
}.

Lemma find_tag_None s t : find_tag s t = None <-> t ∉ tag <$> s.
Proof. apply find_by_None. Qed.

Section lookup.
Context (c : StdCache) (WF : wf_cache c).

Lemma handle_getState lr a b : handle c lr a b -> getState lr c = peek c a.
Proof using WF.
  intros [H1 H2 H3 H4 H5]. unfold getState. rewrite H4, H1.
  destruct (Z.eqb_spec (tag b) a) as [E|N].
  - unfold lr_deref in H4. rewrite H3 in H4. apply find_by_Some in H4 as [I _].
    destruct (the_set_in_range c WF (get_set c a)) as (_ & W & _); [by apply get_set_bound|].
    unfold peek. replace (find_tag _ a) with (Some b); [done|].
    symmetry. apply find_by_elem; [apply W|done..].
  - destruct (H5 N) as [F ->]. unfold peek. by rewrite F.
Qed.

Lemma push_placeholder_wf i t :
  0 <= i < theNumSets c -> t ∉ tag <$> the_set c i ->
  Z.of_nat (length (the_set c i)) < theAssoc c ->
  wf_cache (put_set i (mkBlock t kInvalid (length (the_set c i)) :: the_set c i) c).
Proof using WF.
  intros Hi NI HL.
  destruct (the_set_in_range c WF i Hi) as (_ & [T Ws Sz Wb] & Hh).
  apply (alter_set_wf c WF i (fun s => mkBlock t kInvalid (length s) :: s) Hi); cbn.
  - split; cbn.
    + by apply NoDup_cons.
    + apply NoDup_cons. split; [|done]. intros I. apply list_elem_of_fmap in I as (b & E & I).
      rewrite Forall_forall in Wb. specialize (Wb b I). lia.
    + lia.
    + constructor; [cbn; lia|]. eapply Forall_impl; [exact Wb|]. intros b; cbn; lia.
  - constructor; [|done]. intros V. by cbn in V.
Qed.

(** [lookup] finds the state of the block, or makes a placeholder or picks a
    victim for it; it changes the state of no block. *)
Lemma cache_lookup_spec a lr c' :
  get_tag c a = a -> cache_lookup a c = (lr, c') ->
  wf_cache c' /\ same_geometry c c' /\ (forall a', peek c' a' = peek c a') /\
  (exists b, handle c' lr a b) /\ getState lr c' = peek c a.
Proof using WF.
  intros Ha E. unfold cache_lookup in E. rewrite Ha in E.
  pose proof (get_set_bound c WF a) as Hi.
  destruct (the_set_in_range c WF _ Hi) as (Hl & W & Hh).
  set (i := get_set c a) in *. set (s := the_set c i) in *.
  destruct (find_tag s a) as [b|] eqn:F.
  - injection E as <- <-. destruct (find_by_Some _ _ _ _ F) as [I Et].
    assert (H : handle c (mkLookup a (state b) i (way b)) a b).
    { split; cbn; try done. apply find_by_elem; [apply W|done..]. }
    split_and!; [done..|by eexists|by eapply handle_getState].
  - destruct (Z.ltb_spec (Z.of_nat (length s)) (theAssoc c)) as [L|L]; injection E as <- <-.
    + pose proof (proj1 (find_tag_None _ _) F) as NI.
      pose proof (push_placeholder_wf i a Hi NI L) as W'.
      assert (P : forall a', peek (put_set i (mkBlock a kInvalid (length s) :: s) c) a' = peek c a').
      { intros a'. change (put_set i _ c) with (alter_set i (fun s => mkBlock a kInvalid (length s) :: s) c).
        rewrite peek_alter by done. case_decide as Ei; [|done].
        unfold peek. rewrite <-Ei. change (the_set c i) with s. unfold find_tag, find_by. cbn.
        case_bool_decide as Ea; [|done]. subst a'. unfold find_tag, find_by in F. by rewrite F. }
      assert (H : handle (put_set i (mkBlock a kInvalid (length s) :: s) c)
                    (mkLookup a kInvalid i (length s)) a (mkBlock a kInvalid (length s))).
      { split; cbn; try done. unfold lr_deref. cbn.
        change (put_set i _ c) with (alter_set i (fun s => mkBlock a kInvalid (length s) :: s) c).
        rewrite the_set_alter, decide_True by done. unfold block_at, find_by. cbn.
        by rewrite bool_decide_true. }
      split_and!; [done..|by eexists|].
      transitivity (peek (put_set i (mkBlock a kInvalid (length s) :: s) c) a); [|by apply P].
      clear WF. unfold getState. rewrite (h_block _ _ _ _ H). cbn. rewrite Z.eqb_refl.
      rewrite P. unfold peek. change (the_set c (get_set c a)) with s. by rewrite F.
    + destruct s as [|b s'] eqn:Es.
      { cbn in L. pose proof (wfc_assoc c WF). lia. }
      assert (H : handle c (mkLookup a kInvalid i (way b)) a b).
      { split; cbn; try done.
        - unfold lr_deref. cbn. fold s. rewrite Es. unfold block_at, find_by. cbn.
          by rewrite bool_decide_true.
        - intros _. fold i. fold s. by rewrite Es. }
      split_and!; [done..|by eexists|by eapply handle_getState].
Qed.
End lookup.

(** What an operation [f] of the block address [a] promises: the result is a
    well-formed cache of the same geometry whose block states are [upd]. *)
Definition effect (c c' : StdCache) (upd : Z -> CoherenceState_t) : Prop :=
  wf_cache c' /\ same_geometry c c' /\ forall a, peek c' a = upd a.

Definition only (c : StdCache) (a : Z) (st : CoherenceState_t) (a' : Z) : CoherenceState_t :=
  if decide (a' = a) then st else peek c a'.

Section operations.
Context (c : StdCache) (WF : wf_cache c) (lr : LookupResult) (a : Z) (b : BlockEntry).
Hypothesis (H : handle c lr a b).

Lemma handle_in_range : 0 <= lr_set lr < theNumSets c.
Proof using WF H. rewrite (h_set _ _ _ _ H). by apply get_set_bound. Qed.

Lemma handle_set_wf :
  wf_set (Z.to_nat (theAssoc c)) (the_set c (lr_set lr)) /\
  Forall (home c (lr_set lr)) (the_set c (lr_set lr)).
Proof using WF H. by destruct (the_set_in_range c WF _ handle_in_range) as (_ & ? & ?). Qed.

Lemma handle_elem : b ∈ the_set c (lr_set lr) /\ way b = lr_block lr.
Proof using H. exact (find_by_Some _ _ _ _ (h_block _ _ _ _ H)). Qed.

(** Moving blocks within the recency order. *)
Lemma reorder_spec f :
  (forall s, f s ≡ₚ s) ->
  effect c (alter_set (lr_set lr) f c) (peek c) /\
  handle (alter_set (lr_set lr) f c) lr a b.
Proof using WF H.
  intros Pf. pose proof handle_in_range as Hi. destruct handle_set_wf as [W Hh].
  assert (WF' : wf_cache (alter_set (lr_set lr) f c)).
  { apply alter_set_wf; [done..| |].
    - eapply wf_set_perm; [symmetry; apply Pf|done].
    - by rewrite (Pf _). }
  split; [split; [done|split; [done|]]|].
  - intros a'. rewrite peek_alter by done. case_decide as E; [|done].
    unfold peek. rewrite <-E. by rewrite (find_tag_perm _ _ _ _ W (symmetry (Pf _))).
  - destruct H as [H1 H2 H3 H4 H5]. split; try done.
    + unfold lr_deref in *. rewrite the_set_alter, decide_True by done.
      by rewrite (block_at_perm _ _ _ _ W (symmetry (Pf _))).
    + intros N. destruct (H5 N) as [F L]. split; [|done].
      change (get_set (alter_set (lr_set lr) f c) a) with (get_set c a).
      rewrite <-H3 in *. rewrite the_set_alter, decide_True by done.
      by rewrite (find_tag_perm _ _ _ _ W (symmetry (Pf _))).
Qed.

Lemma update_lru_spec :
  effect c (update_lru lr c) (peek c) /\ handle (update_lru lr c) lr a b.
Proof using WF H. apply reorder_spec, relocate_tail_perm. Qed.

Lemma make_block_lru_spec :
  effect c (make_block_lru lr c) (peek c) /\ handle (make_block_lru lr c) lr a b.
Proof using WF H. apply reorder_spec, relocate_head_perm. Qed.
End operations.

(** Changing the block under a handle: its state, or its tag and state. *)
Section change.
Context (c : StdCache) (WF : wf_cache c) (lr : LookupResult) (a : Z) (b : BlockEntry).
Hypothesis (H : handle c lr a b).
Context (f : BlockEntry -> BlockEntry) (st : CoherenceState_t).
Hypothesis (Fb : f b = mkBlock a st (way b)) (Fway : forall x, way (f x) = way x).

Lemma change_no_collision x :
  x ∈ the_set c (lr_set lr) -> way x <> lr_block lr -> tag x <> tag (f b).
Proof using WF H Fb.
  rewrite Fb. cbn. intros I N E.
  destruct (handle_set_wf c WF lr a b H) as [W _]. destruct (handle_elem c lr a b H) as [Ib Wb].
  destruct (decide (tag b = a)) as [Ea|Na].
  - apply N. rewrite <-Wb. f_equal.
    assert (Fx : find_tag (the_set c (lr_set lr)) a = Some x) by (apply find_by_elem; [apply W|done..]).
    assert (Fb' : find_tag (the_set c (lr_set lr)) a = Some b) by (apply find_by_elem; [apply W|done..]).
    congruence.
  - destruct (h_miss _ _ _ _ H Na) as [F _]. rewrite <-(h_set _ _ _ _ H) in F.
    apply find_tag_None in F. apply F. rewrite <-E. by apply list_elem_of_fmap_2.
Qed.

Lemma change_spec :
  let c' := alter_set (lr_set lr) (modify_block (lr_block lr) f) c in
  effect c c' (fun a' => if decide (a' = a) then st
                         else if decide (a' = tag b) then
                                if isValid (state b) then kInvalid else peek c a'
                         else peek c a') /\
  handle c' lr a (f b).
Proof using All.
  cbn zeta. pose proof (handle_in_range c WF lr a b H) as Hi.
  destruct (handle_set_wf c WF lr a b H) as [W Hh]. destruct (handle_elem c lr a b H) as [Ib Wb].
  pose proof (h_block _ _ _ _ H) as B. unfold lr_deref in B.
  set (s := the_set c (lr_set lr)) in *. set (w := lr_block lr) in *.
  assert (Em : modify_block w f s = put_block w f s)
    by (eapply modify_block_no_collision; [done|apply change_no_collision]).
  pose proof (put_block_wf _ w f s b W B Fway change_no_collision) as W'.
  assert (WF' : wf_cache (alter_set (lr_set lr) (modify_block w f) c)).
  { apply alter_set_wf; [done..| |]; fold s; rewrite Em; [done|].
    apply Forall_forall. intros x Hx. apply (elem_of_put_block _ w f s b W B Fway) in Hx.
    destruct Hx as [-> | [I _]].
    - rewrite Fb. intros _. cbn. by rewrite (h_set _ _ _ _ H), (h_aligned _ _ _ _ H).
    - rewrite Forall_forall in Hh. by apply Hh. }
  split; [split; [done|split; [done|]]|].
  - intros a'. rewrite peek_alter by done. fold s. rewrite Em.
    rewrite (find_tag_put_block _ w f s b W B Fway change_no_collision), Fb. cbn.
    pose proof (h_set _ _ _ _ H) as Hs.
    assert (Ht : get_set c (tag b) = lr_set lr -> peek c (tag b) = state b).
    { intros Es. unfold peek. rewrite Es. fold s.
      replace (find_tag s (tag b)) with (Some b); [done|].
      symmetry. apply find_by_elem; [apply W|done..]. }
    rewrite Forall_forall in Hh. pose proof (Hh b Ib) as Hb.
    destruct (decide (a' = a)) as [->|N1]; [by rewrite decide_True|].
    destruct (decide (a' = tag b)) as [->|N2].
    + case_decide as E.
      * cbn. destruct (isValid (state b)) eqn:V; [done|].
        rewrite Ht by done. destruct (state b); done.
      * destruct (isValid (state b)) eqn:V; [|done]. by destruct (Hb V).
    + case_decide as E; [|done]. unfold peek. by rewrite <-E.
  - split; try apply H.
    + unfold lr_deref. rewrite the_set_alter, decide_True by done. fold s w. rewrite Em.
      apply (put_block_at _ w f s b W B Fway change_no_collision).
    + rewrite Fb. by cbn.
Qed.
End change.

Lemma effect_trans c c1 c2 u1 u2 :
  effect c c1 u1 -> effect c1 c2 u2 -> effect c c2 u2.
Proof.
  intros (_ & G1 & _) (W & G2 & P). split; [done|]. split; [|done]. by transitivity c1.
Qed.

Lemma effect_ext c c' u u' : (forall a, u a = u' a) -> effect c c' u -> effect c c' u'.
Proof. intros E (W & G & P). split; [done|]. split; [done|]. intros a. by rewrite P. Qed.

(** [changeState] on a block that is in the cache sets the state of that block
    and of no other, and keeps the lookup result good. *)
Lemma updateState_spec c lr a b st mru lru :
  wf_cache c -> handle c lr a b -> tag b = a ->
  effect c (updateState lr st mru lru c) (only c a st) /\
  exists b', handle (updateState lr st mru lru c) lr a b' /\ tag b' = a.
Proof.
  intros WF H Et.
  destruct (change_spec c WF lr a b H (ChangeBlockState st) st) as [E1 H1];
    [by rewrite <-Et | done |].
  assert (E1' : effect c (alter_set (lr_set lr) (modify_block (lr_block lr) (ChangeBlockState st)) c)
                  (only c a st)).
  { eapply effect_ext; [|exact E1]. intros a'. unfold only. cbn.
    destruct (decide (a' = a)) as [|N]; [done|]. by rewrite decide_False by congruence. }
  clear E1. unfold updateState.
  set (c1 := alter_set (lr_set lr) (modify_block (lr_block lr) (ChangeBlockState st)) c) in *.
  pose proof E1' as (WF1 & G1 & P1).
  destruct mru; [|destruct lru]; [| |by eauto].
  - destruct (update_lru_spec c1 WF1 lr a _ H1) as [E2 H2]. split; [|by eauto].
    eapply effect_ext; [exact P1|]. by eapply effect_trans.
  - destruct (make_block_lru_spec c1 WF1 lr a _ H1) as [E2 H2]. split; [|by eauto].
    eapply effect_ext; [exact P1|]. by eapply effect_trans.
Qed.

Lemma set_allocating_effect c x y : wf_cache c -> effect c (set_allocating x y c) (peek c).
Proof. intros [A B C D E]. split; [by split|]. by split. Qed.

Lemma handle_set_allocating c lr a b x y : handle c lr a b -> handle (set_allocating x y c) lr a b.
Proof. intros [A B C D E]. by split. Qed.

(** The block [allocate] hands to [evict] is another block of the cache, valid,
    and reported with its own state. *)
Lemma allocate_victim_spec c lr a b v :
  wf_cache c -> handle c lr a b -> allocate_victim lr c = Some v ->
  v = b /\ tag v <> a /\ state v <> kInvalid /\ peek c (tag v) = state v /\
  get_tag c (tag v) = tag v.
Proof.
  intros WF H E. unfold allocate_victim, allocate_replaces in E.
  rewrite (h_block _ _ _ _ H), (h_address _ _ _ _ H), (h_aligned _ _ _ _ H) in E.
  destruct (Z.eqb_spec (tag b) a) as [|N]; [done|]. cbn in E.
  destruct (isValid (state b)) eqn:V; [|done]. injection E as <-.
  destruct (handle_set_wf c WF lr a b H) as [W Hh]. destruct (handle_elem c lr a b H) as [Ib Wb].
  rewrite Forall_forall in Hh. destruct (Hh b Ib V) as [Hs Ht].
  split_and!; [done|done|by apply isValid_spec| |done].
  unfold peek. rewrite Hs. replace (find_tag _ (tag b)) with (Some b); [done|].
  symmetry. apply find_by_elem; [apply W|done..].
Qed.

(** [allocate] after the eviction: the block gets its state, the replaced block
    is gone, and no other block changes. *)
Lemma allocate_end_spec c lr a b st :
  wf_cache c -> handle c lr a b ->
  effect c (allocate_end lr (allocate_replaces lr c) st c)
    (fun a' => if decide (a' = a) then st
               else if decide (allocate_victim lr c = Some b /\ a' = tag b) then kInvalid
               else peek c a').
Proof.
  intros WF H.
  assert (Ev : allocate_victim lr c = Some b <-> tag b <> a /\ isValid (state b) = true).
  { unfold allocate_victim, allocate_replaces.
    rewrite (h_block _ _ _ _ H), (h_address _ _ _ _ H), (h_aligned _ _ _ _ H).
    destruct (Z.eqb_spec (tag b) a), (isValid (state b)); cbn; naive_solver. }
  set (f := if allocate_replaces lr c then ReplaceBlock (get_tag c (lr_address lr)) st
            else ChangeBlockState st).
  destruct (change_spec c WF lr a b H f st) as [E1 H1].
  { unfold f, allocate_replaces.
    rewrite (h_block _ _ _ _ H), (h_address _ _ _ _ H), (h_aligned _ _ _ _ H).
    by destruct (Z.eqb_spec (tag b) a) as [<-|]. }
  { intros x. unfold f. by destruct (allocate_replaces lr c). }
  pose proof E1 as (WF1 & _ & P1).
  destruct (reorder_spec _ WF1 lr a _ H1 (relocate_tail (lr_block lr)))
    as [E2 _]; [apply relocate_tail_perm|].
  unfold allocate_end. cbn zeta. fold f.
  pose proof (effect_trans _ _ _ _ _ E1 E2) as E3. pose proof E2 as (WF2 & _ & P2).
  eapply effect_ext; [|eapply effect_trans; [exact E3|by apply set_allocating_effect]].
  intros a'. rewrite P2, P1. destruct (decide (a' = a)) as [|N]; [done|].
  destruct (decide (a' = tag b)) as [->|N2].
  - destruct (isValid (state b)) eqn:V.
    + rewrite decide_True; [done|]. split; [apply Ev; naive_solver|done].
    + rewrite decide_False; [done|]. rewrite Ev. naive_solver.
  - rewrite decide_False; [done|]. naive_solver.
Qed.

(** ** Replacement order *)

(** The time of the last use of way [w] in the history [ws] of uses, the most
    recent first; 0 when it was never used. *)
Fixpoint last_use (ws : list nat) (w : nat) : nat :=
  match ws with
  | [] => 0%nat
  | x :: ws => if decide (x = w) then S (length ws) else last_use ws w
  end.

Lemma last_use_bound ws w : (last_use ws w <= length ws)%nat.
Proof. induction ws as [|x ws IH]; cbn; [lia|]. case_decide; lia. Qed.

(** After any history of uses the recency list is ordered by last use. *)
Lemma touches_sorted s ws :
  StronglySorted (fun b1 b2 => (last_use ws (way b1) <= last_use ws (way b2))%nat)
    (foldr relocate_tail s ws).
Proof.
  induction ws as [|w ws IH]; cbn [foldr].
  - induction s; constructor; [done|]. by apply Forall_forall.
  - apply StronglySorted_app. split_and!.
    + intros x y Hx Hy. apply list_elem_of_filter in Hx as [Nx _], Hy as [-> _].
      cbn. rewrite decide_False, decide_True by done. pose proof (last_use_bound ws (way x)). lia.
    + eapply StronglySorted_filter_impl; [|exact IH].
      intros x y Nx Ny. cbn. by rewrite !decide_False by done.
    + eapply StronglySorted_filter_impl; [|exact IH]. by intros x y -> ->.
Qed.

(** On a miss in a full set the block [lookup] picks for
    replacement is one whose last use is the oldest in the history of the
    set's uses, whatever the history. *)
Theorem lru_victim_oldest (c : StdCache) (a : Z) (s0 : block_set) (ws : list nat) (b : BlockEntry) :
  the_set c (get_set c a) = foldr relocate_tail s0 ws ->
  find_tag (the_set c (get_set c a)) (get_tag c a) = None ->
  theAssoc c <= Z.of_nat (length (the_set c (get_set c a))) ->
  b ∈ the_set c (get_set c a) ->
  (last_use ws (lr_block (cache_lookup a c).1) <= last_use ws (way b))%nat.
Proof.
  intros E F L I. unfold cache_lookup. rewrite F.
  destruct (Z.ltb_spec (Z.of_nat (length (the_set c (get_set c a)))) (theAssoc c)); [lia|].
  pose proof (touches_sorted s0 ws) as St. rewrite <-E in St.
  destruct (the_set c (get_set c a)) as [|x s]; [set_solver|]. cbn.
  apply StronglySorted_cons in St as [Hx _]. rewrite Forall_forall in Hx.
  apply elem_of_cons in I as [->|I]; [lia|by apply Hx].
Qed.

Definition lru_sample : StdCache :=
  mkCache 1 2 64 6 0 (Z.lnot 63) [[mkBlock 64 kShared 0; mkBlock 0 kModified 1]] false 0.

Lemma lru_victim_oldest_witness :
  (last_use [1; 0]%nat (lr_block (cache_lookup 128 lru_sample).1) <= last_use [1; 0]%nat 1)%nat.
Proof.
  apply (lru_victim_oldest lru_sample 128 [mkBlock 0 kModified 1; mkBlock 64 kShared 0] [1; 0]%nat
           (mkBlock 0 kModified 1)); [reflexivity|reflexivity|by vm_compute|].
  apply list_elem_of_further, list_elem_of_here.
Defined.

(** ** Allocation as a whole *)

(** A cache on its own, with the list of the blocks it has handed to [evict]. *)
Definition logged : Slot (StdCache * list (Z * CoherenceState_t)) StdCache :=
  mkSlot fst (fun c w => (c, snd w)).
Definition log_evict (t : Z) (s : CoherenceState_t)
    : M (StdCache * list (Z * CoherenceState_t)) () := modify (fun w => (fst w, snd w ++ [(t, s)])).

(** [lookup] followed by [allocate] on what it found. *)
Definition fill (a : Z) (st : CoherenceState_t) (c : StdCache)
    : outcome (() * (StdCache * list (Z * CoherenceState_t))) :=
  let r := cache_lookup a c in allocate logged log_evict (fst r) st (snd r, []).

Lemma allocate_logged lr st c :
  let c' := allocate_begin lr c in
  allocate logged log_evict lr st (c, []) =
    Done ((), (allocate_end lr (allocate_replaces lr c') st c',
               match allocate_victim lr c' with Some v => [(tag v, state v)] | None => [] end)).
Proof.
  unfold allocate, update, gets, modify, mbind, M_bind. cbn [view put logged fst snd].
  by destruct (allocate_victim lr (allocate_begin lr c)).
Qed.

(** A lookup points to another block only when the set is full. *)
Lemma lookup_miss_full c a b :
  wf_cache c -> get_tag c a = a -> lr_deref (cache_lookup a c).1 (cache_lookup a c).2 = Some b ->
  tag b <> a -> theAssoc c <= Z.of_nat (length (the_set c (get_set c a))).
Proof.
  intros WF Ha D N. unfold cache_lookup in D. rewrite Ha in D.
  pose proof (get_set_bound c WF a) as Hi. destruct (the_set_in_range c WF _ Hi) as (_ & W & _).
  set (i := get_set c a) in *. destruct (find_tag (the_set c i) a) as [b'|] eqn:F.
  - destruct (find_by_Some _ _ _ _ F) as [I Et]. cbn in D.
    assert (block_at (the_set c i) (way b') = Some b') by (apply find_by_elem; [apply W|done..]).
    unfold lr_deref in D. cbn in D. congruence.
  - destruct (Z.ltb_spec (Z.of_nat (length (the_set c i))) (theAssoc c)) as [L|L]; [|done].
    unfold lr_deref in D. cbn [fst snd lr_set lr_block] in D.
    change (put_set i _ c) with (alter_set i (fun s => mkBlock a kInvalid (length s) :: s) c) in D.
    rewrite the_set_alter, decide_True in D by done. unfold block_at, find_by in D. cbn in D.
    rewrite bool_decide_true in D by done. injection D as <-. by cbn in N.
Qed.

(** C25 (allocation): filling a block of an aligned address gives it the state
    asked for in a well-formed cache.  At most one block is handed to [evict]:
    another valid block of the same set, with the state it has, and only when
    the set is full.  That block is gone afterwards, and every other block
    keeps its state. *)
Theorem fill_replaces_one (c : StdCache) (a : Z) (st : CoherenceState_t) :
  wf_cache c -> get_tag c a = a ->
  exists c' evicted, fill a st c = Done ((), (c', evicted)) /\ wf_cache c' /\
    (length evicted <= 1)%nat /\
    (forall t s, (t, s) ∈ evicted ->
       t <> a /\ s = peek c t /\ s <> kInvalid /\ get_set c t = get_set c a /\
       theAssoc c <= Z.of_nat (length (the_set c (get_set c a)))) /\
    (forall a', peek c' a' = if decide (a' = a) then st
                             else if decide (a' ∈ fst <$> evicted) then kInvalid else peek c a').
Proof.
  intros WF Ha. unfold fill. destruct (cache_lookup a c) as [lr c1] eqn:E.
  destruct (cache_lookup_spec c WF a lr c1 Ha E) as (W1 & G1 & P1 & (b & H1) & _).
  pose proof (lookup_miss_full c a b WF Ha) as Full. rewrite E in Full. cbn [fst snd] in *.
  set (c2 := allocate_begin lr c1).
  assert (H2 : handle c2 lr a b) by (by apply handle_set_allocating).
  destruct (set_allocating_effect c1 true (get_tag c1 (lr_address lr)) W1) as (W2 & _ & P2).
  fold (allocate_begin lr c1) in W2, P2. fold c2 in W2, P2.
  destruct (allocate_end_spec c2 lr a b st W2 H2) as (W3 & _ & P3).
  exists (allocate_end lr (allocate_replaces lr c2) st c2),
    (match allocate_victim lr c2 with Some v => [(tag v, state v)] | None => [] end).
  destruct (allocate_victim lr c2) as [v|] eqn:V.
  - destruct (allocate_victim_spec c2 lr a b v W2 H2 V) as (-> & N & Vd & Pv & Tv).
    assert (Sb : get_set c (tag b) = get_set c a).
    { destruct (handle_set_wf c2 W2 lr a b H2) as [_ Hh]. rewrite Forall_forall in Hh.
      destruct (Hh b (proj1 (handle_elem _ _ _ _ H2))) as [Es _]; [by apply isValid_spec|].
      pose proof (h_set _ _ _ _ H2) as Hs. destruct G1 as (_ & _ & Gs & Gm & _).
      unfold get_set in *. cbn [c2 allocate_begin set_allocating blockShift blockSetMask] in *.
      rewrite Gs, Gm. congruence. }
    split_and!; [|done|cbn; lia| |].
    + rewrite allocate_logged. fold c2. by rewrite V.
    + intros t s I. apply list_elem_of_singleton in I. injection I as -> ->.
      split_and!; [done|by rewrite <-P1, <-P2|done|done|].
      apply Full; [exact (h_block _ _ _ _ H1)|done].
    + intros a'. rewrite P3. destruct (decide (a' = a)) as [|Na]; [done|].
      cbn [fmap list_fmap fst]. destruct (decide (a' = tag b)) as [->|Nb].
      * rewrite !decide_True; [done|apply list_elem_of_here|by split].
      * rewrite !decide_False; [by rewrite P2, P1|by intros ?%list_elem_of_singleton|by intros []].
  - split_and!; [|done|cbn; lia|set_solver|].
    + rewrite allocate_logged. fold c2. by rewrite V.
    + intros a'. rewrite P3. destruct (decide (a' = a)) as [|Na]; [done|].
      rewrite !decide_False; [by rewrite P2, P1|apply not_elem_of_nil|intros [Ev _]; congruence].
Qed.

Lemma lru_sample_wf : wf_cache lru_sample.
Proof.
  split; [done..|]. intros [|i] s E; [|by apply lookup_nil_Some in E || done].
  injection E as <-. split; [|by repeat constructor].
  split; [apply (bool_decide_unpack _); vm_compute; exact I..|cbn; lia|repeat constructor; cbn; lia].
Qed.

Lemma fill_replaces_one_witness :
  exists c', fill 128 kExclusive lru_sample = Done ((), (c', [(64, kShared)])) /\
    peek c' 128 = kExclusive /\ peek c' 64 = kInvalid /\ peek c' 0 = kModified.
Proof.
  destruct (fill_replaces_one lru_sample 128 kExclusive lru_sample_wf eq_refl)
    as (c' & ev & E & _ & _ & _ & P).
  assert (F : fill 128 kExclusive lru_sample =
    Done ((), ((match fill 128 kExclusive lru_sample with Done (_, (x, _)) => x | Assert _ => lru_sample end),
               [(64, kShared)]))) by (vm_compute; reflexivity).
  rewrite E in F. injection F as ->. exists c'. split; [exact E|]. rewrite !P. by split_and!.
Defined.

(** ** Construction *)

Lemma log_base2_loop_spec fuel v r :
  0 <= v < 2 ^ Z.of_nat fuel -> log_base2_loop fuel v r = if 0 <? v then r + Z.log2 v + 1 else r.
Proof.
  revert v r. induction fuel as [|fuel IH]; intros v r Hv.
  - cbn in *. destruct (Z.ltb_spec 0 v); [lia|done].
  - cbn [log_base2_loop]. destruct (Z.ltb_spec 0 v) as [P|P]; [|done].
    assert (Hs : Z.shiftr v 1 = v / 2) by (by rewrite Z.shiftr_div_pow2).
    rewrite IH.
    + rewrite Hs. destruct (Z.ltb_spec 0 (v / 2)) as [Q|Q].
      * rewrite <-Hs, Z.log2_shiftr by lia. pose proof (Z.log2_pos v). 
        assert (1 < v) by (destruct (decide (v = 1)) as [->|]; [done|lia]). lia.
      * assert (v = 1) as -> by (pose proof (Z.div_mod v 2); pose proof (Z.mod_pos_bound v 2); lia).
        cbn. lia.
    + rewrite Hs. split; [apply Z.div_pos; lia|]. apply Z.div_lt_upper_bound; [lia|].
      rewrite Nat2Z.inj_succ, Z.pow_succ_r in Hv by lia. lia.
Qed.

(** [log_base2] is the integer logarithm on every positive 64-bit value. *)
Lemma log_base2_spec v : 0 < v < 2 ^ 64 -> log_base2 v = Z.log2 v.
Proof.
  intros Hv. unfold log_base2.
  assert (Hs : Z.shiftr v 1 = v / 2) by (by rewrite Z.shiftr_div_pow2).
  rewrite log_base2_loop_spec.
  - destruct (Z.ltb_spec 0 (Z.shiftr v 1)) as [P|P].
    + assert (1 < v) by (destruct (decide (v = 1)) as [->|]; [done|lia]).
      rewrite Z.log2_shiftr by lia. pose proof (Z.log2_pos v). lia.
    + assert (v = 1) as -> by (pose proof (Z.div_mod v 2); pose proof (Z.mod_pos_bound v 2); lia).
      done.
  - rewrite Hs. split; [apply Z.div_pos; lia|]. apply Z.div_lt_upper_bound; [lia|].
    change (Z.of_nat 64) with 64. lia.
Qed.

Lemma newStdCache_wf bs ns assoc c :
  newStdCache bs ns assoc = Done c ->
  wf_cache c /\ (forall a, peek c a = kInvalid) /\ blockTagMask c = Z.lnot (bs - 1) /\
  theAssoc c = assoc.
Proof.
  unfold newStdCache. intros E.
  destruct (Z.ltb_spec 0 assoc); cbn [negb] in E; [|done].
  destruct (Z.ltb_spec 0 ns); cbn [negb] in E; [|done].
  destruct (Z.ltb_spec 0 bs); cbn [negb] in E; [|done].
  repeat (case_match; [done|]). injection E as <-.
  assert (L : forall i s, replicate (Z.to_nat ns) ([] : block_set) !! i = Some s -> s = []).
  { intros i s Hs. by apply lookup_replicate in Hs as [-> _]. }
  split; [|split; [|by split]].
  - constructor; cbn [theAssoc theNumSets blockSetMask theBlocks]; [assumption..|reflexivity| |].
    + apply length_replicate.
    + intros i s Hs. apply L in Hs as ->. split; [|by constructor].
      split; cbn [length fmap list_fmap]; [constructor..|lia|constructor].
  - intros a. unfold peek, the_set. cbn [theBlocks].
    destruct (replicate _ _ !! _) as [s|] eqn:Es; [|reflexivity].
    apply L in Es as ->. reflexivity.
Qed.

(** ** Addresses *)

Lemma power_of_two x : 0 < x -> Z.land x (x - 1) = 0 -> x = 2 ^ Z.log2 x.
Proof.
  intros P L. destruct (Z.log2_spec x P) as [Lo Hi]. set (k := Z.log2 x) in *.
  destruct (decide (x = 2 ^ k)) as [|N]; [done|]. exfalso.
  assert (K : 0 <= k) by apply Z.log2_nonneg.
  assert (B : Z.testbit (Z.land x (x - 1)) k = true).
  { rewrite Z.land_spec, Z.bit_log2 by done.
    assert (Ek : Z.log2 (x - 1) = k) by (apply Z.log2_unique; lia).
    rewrite <-Ek at 1. apply Z.bit_log2. pose proof (Z.pow_pos_nonneg 2 k). lia. }
  by rewrite L, Z.bits_0 in B.
Qed.

(** In a cache the constructor accepts, the tag of
    an address is the address of its block, the set index is the block number
    modulo the number of sets and names a set that exists, and two addresses
    have the same tag exactly when they lie in the same block. *)
Theorem address_decomposition (bs ns assoc : Z) (c : StdCache) (a : Z) :
  newStdCache bs ns assoc = Done c -> bs < 2 ^ 31 ->
  get_tag c a = bs * (a / bs) /\ get_set c a = (a / bs) mod ns /\
  (Z.to_nat (get_set c a) < length (theBlocks c))%nat /\
  (forall b, get_tag c a = get_tag c b <-> a / bs = b / bs).
Proof.
  intros E Hb. destruct (newStdCache_wf bs ns assoc c E) as (WF & _ & Tm & _).
  unfold newStdCache in E.
  destruct (Z.ltb_spec 0 assoc); cbn [negb] in E; [|done].
  destruct (Z.ltb_spec 0 ns) as [Pn|]; cbn [negb] in E; [|done].
  destruct (Z.ltb_spec 0 bs) as [Pb|]; cbn [negb] in E; [|done].
  destruct (Z.eqb_spec (Z.land ns (ns - 1)) 0) as [Ln|]; cbn [negb] in E; [|done].
  destruct (Z.eqb_spec (Z.land bs (bs - 1)) 0) as [Lb|]; cbn [negb] in E; [|done].
  assert (Sh : blockShift c = Z.log2 bs /\ blockSetMask c = ns - 1 /\ theNumSets c = ns)
    by (injection E as <-; split; [apply log_base2_spec; lia|done]).
  destruct Sh as (Sh & Sm & Ns). apply power_of_two in Ln, Lb; try done.
  set (k := Z.log2 bs) in *. set (m := Z.log2 ns) in *.
  assert (K : 0 <= k) by apply Z.log2_nonneg. assert (M : 0 <= m) by apply Z.log2_nonneg.
  assert (Tag : forall x, get_tag c x = bs * (x / bs)).
  { intros x. unfold get_tag. rewrite Tm. assert (bs - 1 = Z.ones k) as -> by (rewrite Z.ones_equiv; lia).
    rewrite <-Z.ldiff_land, Z.ldiff_ones_r, Z.shiftl_mul_pow2, Z.shiftr_div_pow2, <-Lb by done. lia. }
  split_and!; [apply Tag| | |].
  - unfold get_set. rewrite Sh, Sm. assert (ns - 1 = Z.ones m) as -> by (rewrite Z.ones_equiv; lia).
    by rewrite Z.land_ones, Z.shiftr_div_pow2, <-Ln, <-Lb by done.
  - pose proof (get_set_bound c WF a). rewrite (wfc_len c WF). lia.
  - intros b. rewrite !Tag. split; [|by intros ->]. intros F. apply Z.mul_reg_l in F; lia.
Qed.

Lemma address_decomposition_witness :
  exists c, newStdCache 64 4 2 = Done c /\ get_tag c 1000 = 960 /\ get_set c 1000 = 3.
Proof.
  eexists. split; [reflexivity|].
  destruct (address_decomposition 64 4 2 _ 1000 eq_refl) as (T & S & _); [done|]. split; [exact T|exact S].
Defined.
