(* ===== verification/Checkpoint.v ===== *)
(** * Checkpoints of the tag array

    [saveState] and [loadState] of components/FastCache/StdCache.hpp, in both
    formats.  A boost archive is the sequence of the values written to it;
    reading past its end throws, which is an [Assert] here.  The text format is
    the sequence of characters: printing and the extractions [s >> paren] and
    [s >> number] work on it, white space skipped as [istream] does.  A set is
    filled with [push_back], which a multi-index container refuses when the tag
    or the way is taken. *)

From S2P Require Import Prelude StdCache.
From stdpp Require Import base gmap sets list strings.
From Stdlib Require Import ZArith Lia Ascii.

Local Open Scope Z_scope.

Definition push_back (b : BlockEntry) (s : block_set) : block_set :=
  if bool_decide (Exists (fun c => tag c = tag b \/ way c = way b) s) then s else s ++ [b].

(** ** The binary format *)

Record BlockSerializer : Type := mkSerial {
  bs_tag : Z;
  bs_way : Z;
  bs_state : ascii;
}.

(** [serialize] writes the tag and the state; the way is not written. *)
Definition serialize (b : BlockSerializer) : Z * ascii := (bs_tag b, bs_state b).

Record Archive : Type := mkArchive {
  ar_set_count : Z;
  ar_associativity : Z;
  ar_blocks : list (Z * ascii);
}.

Definition state_char (s : CoherenceState_t) : outcome ascii :=
  match s with
  | kModified => Done "M"%char
  | kOwned => Done "O"%char
  | kExclusive => Done "E"%char
  | kShared => Done "S"%char
  | kInvalid => Done "I"%char
  | kMigratory => Assert "Don't know how to save state"
  end.

Definition char_state (c : ascii) : outcome CoherenceState_t :=
  if Ascii.eqb c "M" then Done kModified
  else if Ascii.eqb c "O" then Done kOwned
  else if Ascii.eqb c "E" then Done kExclusive
  else if Ascii.eqb c "S" then Done kShared
  else if Ascii.eqb c "I" then Done kInvalid
  else Assert "Unknown Block State".

Fixpoint save_blocks (s : block_set) : outcome (list (Z * ascii)) :=
  match s with
  | [] => Done []
  | b :: s =>
      c ← state_char (state b);
      l ← save_blocks s;
      Done (serialize (mkSerial (tag b) (Z.of_nat (way b)) c) :: l)
  end.

(** [for (; way < theAssoc; way++)] *)
Definition pad_ways (assoc : Z) (s : block_set) : list nat :=
  seq (length s) (Z.to_nat assoc - length s).

Fixpoint save_sets (assoc : Z) (l : list block_set) : outcome (list (Z * ascii)) :=
  match l with
  | [] => Done []
  | s :: l =>
      blocks ← save_blocks s;
      rest ← save_sets assoc l;
      Done (blocks ++ ((fun w => serialize (mkSerial 0 (Z.of_nat w) "I"%char)) <$> pad_ways assoc s) ++ rest)
  end.

Definition saveBinary (c : StdCache) : outcome Archive :=
  l ← save_sets (theAssoc c) (theBlocks c);
  Done (mkArchive (theNumSets c) (theAssoc c) l).

(** [for (way = 0; way < theAssoc; way++)] *)
Fixpoint load_ways (ways : list nat) (l : list (Z * ascii)) (s : block_set)
    : outcome (block_set * list (Z * ascii)) :=
  match ways with
  | [] => Done (s, l)
  | w :: ways =>
      match l with
      | [] => Assert "input stream error"
      | b :: l =>
          st ← char_state (snd b);
          load_ways ways l (push_back (mkBlock (fst b) st w) s)
      end
  end.

Fixpoint load_sets (assoc : Z) (sets : list block_set) (l : list (Z * ascii))
    : outcome (list block_set) :=
  match sets with
  | [] => Done []
  | s :: sets =>
      r ← load_ways (seq 0 (Z.to_nat assoc)) l s;
      rest ← load_sets assoc sets (snd r);
      Done (fst r :: rest)
  end.

Definition loadBinary (a : Archive) (c : StdCache) : outcome StdCache :=
  if negb (ar_set_count a =? theNumSets c) then Assert "Error loading cache state. Sets"
  else if negb (ar_associativity a =? theAssoc c) then Assert "Error loading cache state. Ways"
  else
    sets ← load_sets (theAssoc c) (theBlocks c) (ar_blocks a);
    Done (set_blocks sets c).

(** ** The text format *)

Abbreviation text := (list ascii).

Definition digit (d : Z) : ascii := ascii_of_nat (Z.to_nat (48 + d)).
Definition digit_value (c : ascii) : option Z :=
  let n := Z.of_nat (nat_of_ascii c) in
  if (48 <=? n) && (n <=? 57) then Some (n - 48) else None.

(** [s << n] for a number that is not negative; 20 digits hold any 64-bit one. *)
Fixpoint print_digits (fuel : nat) (n : Z) (rest : text) : text :=
  match fuel with
  | O => rest
  | S fuel =>
      let rest := digit (n mod 10) :: rest in
      if n <? 10 then rest else print_digits fuel (n / 10) rest
  end.
Definition print_number (n : Z) (rest : text) : text := print_digits 20 n rest.

Definition print (s : string) (rest : text) : text := String.list_ascii_of_string s ++ rest.

Definition kSave_ValidBit : Z := 1.
Definition kSave_DirtyBit : Z := 2.
Definition kSave_ModifiableBit : Z := 4.

Definition save_state (s : CoherenceState_t) : outcome Z :=
  match s with
  | kModified => Done (Z.lor (Z.lor kSave_ValidBit kSave_DirtyBit) kSave_ModifiableBit)
  | kOwned => Done (Z.lor kSave_ValidBit kSave_DirtyBit)
  | kExclusive => Done (Z.lor kSave_ValidBit kSave_ModifiableBit)
  | kShared => Done kSave_ValidBit
  | kInvalid => Done 0
  | kMigratory => Assert "Don't know how to save state"
  end.

Definition load_state (z : Z) : outcome CoherenceState_t :=
  if z =? Z.lor (Z.lor kSave_ValidBit kSave_DirtyBit) kSave_ModifiableBit then Done kModified
  else if z =? Z.lor kSave_ValidBit kSave_DirtyBit then Done kOwned
  else if z =? Z.lor kSave_ValidBit kSave_ModifiableBit then Done kExclusive
  else if z =? kSave_ValidBit then Done kShared
  else if z =? 0 then Done kInvalid
  else Assert "Don't know how to load state".

Definition text_shift (c : StdCache) : Z := blockShift c + log_base2 (theNumSets c).

Definition print_block (st tag : Z) (rest : text) : text :=
  print "[ " (print_number st (print " " (print_number tag (print " ]" rest)))).

Fixpoint print_blocks (shift : Z) (s : block_set) (rest : text) : outcome text :=
  match s with
  | [] => Done rest
  | b :: s =>
      st ← save_state (state b);
      rest ← print_blocks shift s rest;
      Done (print_block st (Z.shiftr (tag b) shift) rest)
  end.

Definition print_order (assoc : Z) (rest : text) : text :=
  foldr (fun j t => print_number (Z.of_nat j) (print " " t)) rest (seq 0 (Z.to_nat assoc)).

Definition newline : ascii := ascii_of_nat 10.

(** One line of the file: a set. *)
Definition print_set (shift assoc : Z) (s : block_set) (rest : text) : outcome text :=
  let tail := print "} < " (print_order assoc (print "> " (newline :: rest))) in
  let pads := foldr (fun _ t => print "[ 0 0 ]" t) tail (pad_ways assoc s) in
  t ← print_blocks shift s pads;
  Done (print "{" t).

Fixpoint print_sets (shift assoc : Z) (l : list block_set) : outcome text :=
  match l with
  | [] => Done []
  | s :: l => rest ← print_sets shift assoc l; print_set shift assoc s rest
  end.

Definition saveText (c : StdCache) : outcome text :=
  print_sets (text_shift c) (theAssoc c) (theBlocks c).

(** The extractions.  [None] is a stream that has failed. *)
Definition is_space (c : ascii) : bool :=
  let n := Z.of_nat (nat_of_ascii c) in (n =? 32) || ((9 <=? n) && (n <=? 13)).

Fixpoint skip_space (s : text) : text :=
  match s with
  | c :: rest => if is_space c then skip_space rest else s
  | [] => []
  end.

Definition read_char (s : text) : option (ascii * text) :=
  match skip_space s with
  | c :: rest => Some (c, rest)
  | [] => None
  end.

Fixpoint read_digits (acc : Z) (s : text) : Z * text :=
  match s with
  | c :: rest => match digit_value c with
                 | Some d => read_digits (10 * acc + d) rest
                 | None => (acc, s)
                 end
  | [] => (acc, [])
  end.

(** An optional sign, then at least one digit. *)
Definition read_signed (s : text) : option (Z * text) :=
  let s := skip_space s in
  let '(neg, s) := match s with
                   | c :: rest => if Ascii.eqb c "-" then (true, rest)
                                  else if Ascii.eqb c "+" then (false, rest) else (false, s)
                   | [] => (false, s)
                   end in
  match s with
  | c :: _ => match digit_value c with
              | Some _ => let '(v, rest) := read_digits 0 s in Some (if neg then - v else v, rest)
              | None => None
              end
  | [] => None
  end.

(** [s >> int32_t] fails out of range; [s >> uint64_t] takes a sign modulo
    [2^64] and fails when the magnitude is out of range. *)
Definition read_int32 (s : text) : option (Z * text) :=
  '(v, rest) ← read_signed s;
  if (- 2 ^ 31 <=? v) && (v <? 2 ^ 31) then Some (v, rest) else None.
Definition read_uint64 (s : text) : option (Z * text) :=
  '(v, rest) ← read_signed s;
  if Z.abs v <? 2 ^ 64 then Some (v mod 2 ^ 64, rest) else None.

(** [s >> paren] with the check that follows it. *)
Definition expect (c : ascii) (s : text) : option text :=
  '(p, s) ← read_char s;
  if Ascii.eqb p c then Some s else None.

(** A block: a bracket, the state, the tag, a bracket. *)
Definition read_block (s : text) : option (Z * Z * text) :=
  '(_, s) ← read_char s;
  '(st, s) ← read_int32 s;
  '(t, s) ← read_uint64 s;
  '(_, s) ← read_char s;
  Some (st, t, s).

(** [None] inside [Done]: the load returns false.  After a failed extraction
    the code goes on until the next bracket it checks, which is then wrong. *)
Fixpoint read_blocks (shift base : Z) (ways : list nat) (s : text) (set : block_set)
    : outcome (option (block_set * text)) :=
  match ways with
  | [] => Done (Some (set, s))
  | w :: ways =>
      match read_block s with
      | None => Done None
      | Some (st, t, s) =>
          state ← load_state st;
          read_blocks shift base ways s
            (push_back (mkBlock (Z.lor (Z.shiftl t shift mod 2 ^ 64) base) state w) set)
      end
  end.

(** The order at the end of a line is read and not used. *)
Fixpoint read_order (ways : list nat) (s : text) : option text :=
  match ways with
  | [] => Some s
  | _ :: ways => '(_, s) ← read_int32 s; read_order ways s
  end.

Definition read_set (shift base assoc : Z) (s : text) (set : block_set)
    : outcome (option (block_set * text)) :=
  let ways := seq 0 (Z.to_nat assoc) in
  match expect "{" s with
  | None => Done None
  | Some s =>
      r ← read_blocks shift base ways s set;
      match r with
      | None => Done None
      | Some (set, s) =>
          match (s ← expect "}" s; s ← expect "<" s; s ← read_order ways s; expect ">" s) with
          | None => Done None
          | Some s => Done (Some (set, s))
          end
      end
  end.

(** [set << blockShift] is a shift of an [int32_t]; the model's is the same as long as
    the sets and their block size stay within 2^31 bytes. *)
Fixpoint read_sets (shift blockShift assoc i : Z) (sets : list block_set) (s : text)
    : outcome (option (list block_set)) :=
  match sets with
  | [] => Done (Some [])
  | set :: sets =>
      r ← read_set shift (Z.shiftl i blockShift) assoc s set;
      match r with
      | None => Done None
      | Some (set, s) =>
          rest ← read_sets shift blockShift assoc (i + 1) sets s;
          Done (option_map (cons set) rest)
      end
  end.

Definition loadText (s : text) (c : StdCache) : outcome (option StdCache) :=
  r ← read_sets (text_shift c) (blockShift c) (theAssoc c) 0 (theBlocks c) s;
  Done (option_map (fun sets => set_blocks sets c) r).

(** ** What a restored set holds

    Both formats write the blocks of a set in recency order and then a padding
    of invalid blocks, and read them back into ways 0, 1, ... *)

Fixpoint refill (k : nat) (l : list (Z * CoherenceState_t)) (s : block_set) : block_set :=
  match l with
  | [] => s
  | (t, st) :: l => refill (S k) l (push_back (mkBlock t st k) s)
  end.

Definition contents (s : block_set) : list (Z * CoherenceState_t) := (fun b => (tag b, state b)) <$> s.

Fixpoint renumber (k : nat) (s : block_set) : block_set :=
  match s with
  | [] => []
  | b :: s => mkBlock (tag b) (state b) k :: renumber (S k) s
  end.

(** The first of the padding blocks stays, in the most recent place, unless the
    set holds a block with its tag; the others are refused. *)
Definition restored (pad assoc : Z) (s : block_set) : block_set :=
  renumber 0 s ++
  (if decide (Z.of_nat (length s) < assoc /\ pad ∉ tag <$> s)
   then [mkBlock pad kInvalid (length s)] else []).

Section refill.
Lemma refill_app k l1 l2 s : refill k (l1 ++ l2) s = refill (k + length l1) l2 (refill k l1 s).
Proof.
  revert k s. induction l1 as [|[t st] l1 IH]; intros k s; cbn; [by rewrite Nat.add_0_r|].
  rewrite IH. f_equal. lia.
Qed.

Lemma push_back_fresh b s :
  tag b ∉ tag <$> s -> Forall (fun c => (way c < way b)%nat) s -> push_back b s = s ++ [b].
Proof.
  intros N F. unfold push_back. rewrite bool_decide_false; [done|].
  intros E. apply Exists_exists in E as (c & I & [Et|Ew]).
  - apply N. rewrite <-Et. by apply list_elem_of_fmap_2.
  - rewrite Forall_forall in F. specialize (F c I). lia.
Qed.

Lemma push_back_taken b s : tag b ∈ tag <$> s -> push_back b s = s.
Proof.
  intros I. apply list_elem_of_fmap in I as (c & E & I). unfold push_back.
  rewrite bool_decide_true; [done|]. apply Exists_exists. exists c. auto.
Qed.

Lemma refill_contents k s acc :
  NoDup (tag <$> (acc ++ s)) -> Forall (fun c => (way c < k)%nat) acc ->
  refill k (contents s) acc = acc ++ renumber k s.
Proof.
  revert k acc. induction s as [|b s IH]; intros k acc ND F; cbn [contents fmap list_fmap refill renumber];
    [by rewrite app_nil_r|].
  rewrite fmap_app, fmap_cons in ND.
  assert (Nb : tag b ∉ tag <$> acc).
  { apply NoDup_app in ND as (_ & D & _). intros I. by apply (D _ I), list_elem_of_here. }
  rewrite push_back_fresh by done. fold (contents s). rewrite IH; [by rewrite <-app_assoc| |].
  - by rewrite <-app_assoc, !fmap_app, fmap_cons.
  - apply Forall_app. split; [eapply Forall_impl; [exact F|]; cbn; lia|]. constructor; [cbn; lia|done].
Qed.

Lemma refill_taken k pad n acc :
  pad ∈ tag <$> acc -> refill k (replicate n (pad, kInvalid)) acc = acc.
Proof.
  revert k. induction n as [|n IH]; intros k I; cbn; [done|]. rewrite push_back_taken by done. by apply IH.
Qed.

Lemma refill_pads k pad n acc :
  Forall (fun c => (way c < k)%nat) acc ->
  refill k (replicate n (pad, kInvalid)) acc =
    acc ++ (if decide ((0 < n)%nat /\ pad ∉ tag <$> acc) then [mkBlock pad kInvalid k] else []).
Proof.
  intros F. destruct (decide (pad ∈ tag <$> acc)) as [I|N].
  - rewrite refill_taken, decide_False by (done || by intros []). by rewrite app_nil_r.
  - destruct n as [|n]; [rewrite decide_False by (intros []; lia); cbn; by rewrite app_nil_r|].
    rewrite decide_True by (split; [lia|done]). cbn [replicate refill]. rewrite push_back_fresh by done.
    apply refill_taken. rewrite fmap_app. apply elem_of_app. right. apply list_elem_of_here.
Qed.

Lemma renumber_tags k s : tag <$> renumber k s = tag <$> s.
Proof. revert k. induction s as [|b s IH]; intros k; cbn; [done|]. by f_equal. Qed.

Lemma renumber_ways k s : way <$> renumber k s = seq k (length s).
Proof. revert k. induction s as [|b s IH]; intros k; cbn; [done|]. by f_equal. Qed.

Lemma renumber_length k s : length (renumber k s) = length s.
Proof. revert k. induction s as [|b s IH]; intros k; cbn; [done|]. by f_equal. Qed.

Lemma renumber_bound k s : Forall (fun b => (way b < k + length s)%nat) (renumber k s).
Proof.
  revert k. induction s as [|b s IH]; intros k; cbn; [constructor|]. constructor; [cbn; lia|].
  eapply Forall_impl; [apply IH|]. cbn. lia.
Qed.

Lemma renumber_Forall (P : Z -> CoherenceState_t -> Prop) k s :
  Forall (fun b => P (tag b) (state b)) s -> Forall (fun b => P (tag b) (state b)) (renumber k s).
Proof.
  revert k. induction s as [|b s IH]; intros k F; cbn; [constructor|].
  apply Forall_cons in F as [Fb F]. constructor; [done|by apply IH].
Qed.

Lemma find_renumber k s t : state <$> find_tag (renumber k s) t = state <$> find_tag s t.
Proof.
  unfold find_tag, find_by. revert k. induction s as [|b s IH]; intros k; cbn; [done|].
  by case_bool_decide.
Qed.

(** Reading back what was written for a set. *)
Lemma refill_restored pad assoc s :
  NoDup (tag <$> s) ->
  refill 0 (contents s ++ replicate (Z.to_nat assoc - length s) (pad, kInvalid)) [] =
    restored pad assoc s.
Proof.
  intros ND. rewrite refill_app, refill_contents by (done || constructor). cbn [app].
  unfold contents. rewrite length_fmap. rewrite refill_pads.
  - unfold restored. rewrite renumber_tags. f_equal.
    destruct (decide (pad ∉ tag <$> s)) as [N|N]; cbn [Nat.add].
    + destruct (decide (Z.of_nat (length s) < assoc)).
      * by rewrite !decide_True by (split; [lia|done]).
      * by rewrite !decide_False by (intros [? _]; lia).
    + by rewrite !decide_False by (by intros []).
  - eapply Forall_impl; [apply renumber_bound|]. cbn. lia.
Qed.

Lemma restored_state pad assoc s t :
  default kInvalid (state <$> find_tag (restored pad assoc s) t) =
  default kInvalid (state <$> find_tag s t).
Proof.
  rewrite <-(find_renumber 0 s t). unfold restored, find_tag, find_by.
  generalize (renumber 0 s). intros l. induction l as [|b l IH]; cbn [app List.find].
  - case_decide; cbn; [|done]. by case_bool_decide.
  - by case_bool_decide.
Qed.

Lemma restored_wf pad assoc s :
  0 < assoc -> wf_set (Z.to_nat assoc) s -> wf_set (Z.to_nat assoc) (restored pad assoc s).
Proof.
  intros Pa [T Ws Sz Wb]. unfold restored. case_decide as D; [|rewrite app_nil_r].
  - destruct D as [L N]. split.
    + rewrite fmap_app, renumber_tags. apply NoDup_app. split_and!; [done| |apply NoDup_singleton].
      intros x I Ix. apply list_elem_of_singleton in Ix. cbn in Ix. by subst.
    + rewrite fmap_app, renumber_ways. change (way <$> [_]) with (seq (0 + length s) 1).
      rewrite <-seq_app. apply NoDup_seq.
    + rewrite length_app, renumber_length. cbn. lia.
    + rewrite length_app, renumber_length. apply Forall_app. split; [|constructor; [cbn; lia|done]].
      eapply Forall_impl; [apply renumber_bound|]. cbn. lia.
  - split; rewrite ?renumber_tags, ?renumber_ways, ?renumber_length; [done|apply NoDup_seq|done|].
    eapply Forall_impl; [apply renumber_bound|]. cbn. lia.
Qed.

Lemma restored_home pad assoc s (P : Z -> CoherenceState_t -> Prop) :
  (forall t, P t kInvalid) ->
  Forall (fun b => P (tag b) (state b)) s -> Forall (fun b => P (tag b) (state b)) (restored pad assoc s).
Proof.
  intros Pi F. apply Forall_app. split; [by apply renumber_Forall|]. case_decide; repeat constructor. apply Pi.
Qed.
End refill.

(** A cache whose sets have been restored holds every block in its old state. *)
Definition restore_cache (pad : Z -> Z) (c : StdCache) : StdCache :=
  set_blocks (imap (fun i s => restored (pad (Z.of_nat i)) (theAssoc c) s) (theBlocks c)) c.

Lemma restore_cache_spec pad c :
  wf_cache c -> wf_cache (restore_cache pad c) /\ forall a, peek (restore_cache pad c) a = peek c a.
Proof.
  intros WF. pose proof WF as [A B M L S]. split.
  - split; cbn [restore_cache set_blocks theAssoc theNumSets blockSetMask theBlocks]; [done..| |].
    + by rewrite length_imap.
    + intros i s E. rewrite list_lookup_imap in E.
      destruct (theBlocks c !! i) as [s0|] eqn:E0; [|done]. cbn in E. injection E as <-.
      destruct (S i s0 E0) as [W H]. split; [by apply restored_wf|].
      apply (restored_home _ _ _ (fun t st => isValid st = true -> get_set c t = Z.of_nat i /\ get_tag c t = t));
        [done|exact H].
  - intros a. unfold peek. change (get_set (restore_cache pad c) a) with (get_set c a).
    pose proof (get_set_bound c WF a) as Hi.
    unfold the_set. cbn [restore_cache set_blocks theBlocks]. rewrite list_lookup_imap.
    destruct (theBlocks c !! Z.to_nat (get_set c a)) as [s|] eqn:E; cbn; [|done]. apply restored_state.
Qed.

(** A cache of the same geometry with nothing in it, as the constructor makes it. *)
Definition emptied (c : StdCache) : StdCache := set_blocks (replicate (length (theBlocks c)) []) c.

(** ** The binary format loses nothing *)

(** The states either format can write. *)
Definition savable (c : StdCache) : Prop :=
  Forall (Forall (fun b => state b <> kMigratory)) (theBlocks c).

(** A serialized block that reads back as a tag and a state. *)
Definition reads_as (b : Z * ascii) (p : Z * CoherenceState_t) : Prop :=
  fst b = fst p /\ char_state (snd b) = Done (snd p).

Lemma save_blocks_spec s :
  Forall (fun b => state b <> kMigratory) s ->
  exists l, save_blocks s = Done l /\ Forall2 reads_as l (contents s).
Proof.
  induction 1 as [|b s N F (l & E & R)]; [by exists []|]. cbn [save_blocks contents fmap list_fmap].
  rewrite E. destruct b as [t st w]. cbn in *.
  destruct st; try done; cbn; eexists; (split; [done|]); by constructor.
Qed.

Lemma load_ways_spec bl l rest k acc :
  Forall2 reads_as bl l ->
  load_ways (seq k (length l)) (bl ++ rest) acc = Done (refill k l acc, rest).
Proof.
  intros R. revert k acc. induction R as [|b [t st] bl l [Rt Rs] R IH]; intros k acc; [done|].
  cbn [app length seq load_ways refill]. rewrite Rs. cbn in *. rewrite Rt. apply IH.
Qed.

Lemma pads_read assoc s :
  Forall2 reads_as ((fun w => serialize (mkSerial 0 (Z.of_nat w) "I"%char)) <$> pad_ways assoc s)
    (replicate (Z.to_nat assoc - length s) (0, kInvalid)).
Proof.
  unfold pad_ways. generalize (length s) at 1. generalize (Z.to_nat assoc - length s)%nat.
  intros n. induction n as [|n IH]; intros k; cbn; constructor; [done|apply IH].
Qed.

Lemma load_save_sets assoc l :
  Forall (fun s => wf_set (Z.to_nat assoc) s /\ Forall (fun b => state b <> kMigratory) s) l ->
  exists bl, save_sets assoc l = Done bl /\
    load_sets assoc (replicate (length l) []) bl = Done (restored 0 assoc <$> l).
Proof.
  induction 1 as [|s l [W N] F (bl & E & L)]; [by exists []|].
  destruct (save_blocks_spec s N) as (sl & Es & R). cbn [save_sets]. rewrite Es, E.
  unfold mbind, outcome_bind. eexists. split; [done|]. cbn [length replicate load_sets].
  pose proof (Forall2_app R (pads_read assoc s)) as R2.
  pose proof (wf_size _ _ W). rewrite app_assoc.
  assert (Len : length (contents s ++ replicate (Z.to_nat assoc - length s) (0, kInvalid)) = Z.to_nat assoc).
  { unfold contents. rewrite length_app, length_fmap, length_replicate. lia. }
  rewrite <-Len at 1. rewrite (load_ways_spec _ _ bl 0 [] R2). unfold mbind, outcome_bind. cbn [fst snd].
  rewrite L, refill_restored by apply W. done.
Qed.

Lemma sets_savable c :
  wf_cache c -> savable c ->
  Forall (fun s => wf_set (Z.to_nat (theAssoc c)) s /\ Forall (fun b => state b <> kMigratory) s) (theBlocks c).
Proof.
  intros WF Sv. apply Forall_forall. intros s I. split.
  - apply list_elem_of_lookup in I as [i E]. by destruct (wfc_set c WF i s E).
  - unfold savable in Sv. rewrite Forall_forall in Sv. by apply Sv.
Qed.

Lemma binary_restores (c : StdCache) :
  wf_cache c -> savable c ->
  exists ar, saveBinary c = Done ar /\ loadBinary ar (emptied c) = Done (restore_cache (fun _ => 0) c).
Proof.
  intros WF Sv. destruct (load_save_sets _ _ (sets_savable c WF Sv)) as (bl & E & L).
  eexists. split; [unfold saveBinary; rewrite E; done|].
  unfold loadBinary, emptied. cbn [ar_set_count ar_associativity ar_blocks set_blocks theNumSets theAssoc theBlocks].
  rewrite !Z.eqb_refl. cbn [negb]. rewrite L. unfold mbind, outcome_bind, restore_cache.
  assert (Ei : forall l, imap (fun _ s => restored 0 (theAssoc c) s) l = restored 0 (theAssoc c) <$> l)
    by (intros l; induction l; cbn; [done|by f_equal]).
  by rewrite Ei.
Qed.

(** C35 (binary checkpoints): a well-formed cache without migratory blocks saves
    without a failing assertion; loading the archive into an empty cache of the
    same geometry succeeds and gives a well-formed cache that holds every block
    in the state it had. *)
Theorem binary_checkpoint_roundtrip (c : StdCache) :
  wf_cache c -> savable c ->
  exists ar c', saveBinary c = Done ar /\ loadBinary ar (emptied c) = Done c' /\
    wf_cache c' /\ forall a, peek c' a = peek c a.
Proof.
  intros WF Sv. destruct (binary_restores c WF Sv) as (ar & E & L).
  exists ar, (restore_cache (fun _ => 0) c). split; [exact E|]. split; [exact L|]. by apply restore_cache_spec.
Qed.

Definition saved_sample : StdCache :=
  mkCache 2 2 64 6 1 (Z.lnot 63) [[]; [mkBlock 704 kModified 1; mkBlock 448 kShared 0]] false 0.

Lemma saved_sample_wf : wf_cache saved_sample.
Proof.
  split; [done..|]. intros [|[|i]] s E; [injection E as <-..|done]; (split; [|by repeat constructor]);
    (split; [apply (bool_decide_unpack _); vm_compute; exact I..|cbn; lia|repeat constructor; cbn; lia]).
Qed.

Lemma saved_sample_savable : savable saved_sample.
Proof. by repeat constructor. Qed.

Lemma binary_checkpoint_roundtrip_witness :
  exists ar c', saveBinary saved_sample = Done ar /\ loadBinary ar (emptied saved_sample) = Done c' /\
    peek c' 704 = kModified /\ peek c' 448 = kShared /\ peek c' 0 = kInvalid.
Proof.
  destruct (binary_checkpoint_roundtrip saved_sample saved_sample_wf saved_sample_savable)
    as (ar & c' & E & L & _ & P).
  exists ar, c'. split; [exact E|]. split; [exact L|]. rewrite !P. by split_and!.
Defined.

(** ** Printing and reading numbers *)

Section numbers.
Lemma digit_cases d : 0 <= d < 10 -> d ∈ [0; 1; 2; 3; 4; 5; 6; 7; 8; 9].
Proof. intros H. rewrite !elem_of_cons. lia. Qed.

Lemma digit_facts d :
  0 <= d < 10 ->
  digit_value (digit d) = Some d /\ is_space (digit d) = false /\
  Ascii.eqb (digit d) "-" = false /\ Ascii.eqb (digit d) "+" = false.
Proof.
  intros H. apply digit_cases in H. repeat (apply elem_of_cons in H as [->|H]; [by vm_compute|]).
  by apply not_elem_of_nil in H.
Qed.

Definition stops (s : text) : Prop :=
  match s with c :: _ => digit_value c = None | [] => True end.

Lemma read_digits_stop n s : stops s -> read_digits n s = (n, s).
Proof. destruct s as [|c s]; cbn; [done|]. by intros ->. Qed.

Lemma read_print_digits fuel n s :
  0 <= n < 10 ^ Z.of_nat fuel -> (0 < fuel)%nat ->
  read_digits 0 (print_digits fuel n s) = read_digits n s.
Proof.
  revert n s. induction fuel as [|fuel IH]; intros n s Hn Hf; [lia|]. cbn [print_digits].
  pose proof (Z.mod_pos_bound n 10). pose proof (Z.div_mod n 10).
  destruct (digit_facts (n mod 10)) as (Dv & _); [lia|].
  destruct (Z.ltb_spec n 10).
  - cbn [read_digits]. rewrite Dv, Z.mod_small by lia. f_equal; lia.
  - rewrite IH.
    + cbn [read_digits]. rewrite Dv. f_equal; lia.
    + rewrite Nat2Z.inj_succ, Z.pow_succ_r in Hn by lia. split; [apply Z.div_pos; lia|].
      apply Z.div_lt_upper_bound; lia.
    + destruct fuel; [|lia]. rewrite Nat2Z.inj_succ in Hn. cbn in Hn. lia.
Qed.

Lemma print_digits_head fuel n s :
  0 <= n -> exists d l, 0 <= d < 10 /\ print_digits (S fuel) n s = digit d :: l.
Proof.
  revert n s. induction fuel as [|fuel IH]; intros n s Hn;
    pose proof (Z.mod_pos_bound n 10); cbn [print_digits].
  - exists (n mod 10). eexists. split; [lia|]. by destruct (n <? 10).
  - destruct (n <? 10); [exists (n mod 10); eexists; split; [lia|done]|].
    apply (IH (n / 10)). apply Z.div_pos; lia.
Qed.

Lemma skip_space_idem s : skip_space (skip_space s) = skip_space s.
Proof. induction s as [|c s IH]; cbn; [done|]. destruct (is_space c) eqn:E; [done|]. cbn. by rewrite E. Qed.

Lemma read_signed_skip s s' : skip_space s = skip_space s' -> read_signed s = read_signed s'.
Proof. intros E. unfold read_signed. by rewrite E. Qed.
Lemma read_char_skip s s' : skip_space s = skip_space s' -> read_char s = read_char s'.
Proof. intros E. unfold read_char. by rewrite E. Qed.

(** A printed number reads back, up to the character that ends it. *)
Lemma read_signed_print n s :
  0 <= n < 2 ^ 64 -> stops s -> read_signed (print_number n s) = Some (n, s).
Proof.
  intros Hn St. unfold print_number.
  destruct (print_digits_head 19 n s) as (d & l & Hd & E); [lia|].
  pose proof (read_print_digits 20 n s) as R. rewrite E in R |- *.
  destruct (digit_facts d Hd) as (Dv & Sp & Mi & Pl).
  unfold read_signed. cbn [skip_space]. rewrite Sp, Mi, Pl, Dv, R, read_digits_stop by (done || lia). done.
Qed.

Lemma read_int32_print n s s' :
  0 <= n < 2 ^ 31 -> stops s -> skip_space s' = skip_space (print_number n s) ->
  read_int32 s' = Some (n, s).
Proof.
  intros Hn St E. unfold read_int32. rewrite (read_signed_skip _ _ E), read_signed_print by (done || lia).
  cbn [mbind option_bind]. destruct (Z.leb_spec (- 2 ^ 31) n), (Z.ltb_spec n (2 ^ 31)); try lia. done.
Qed.

Lemma read_uint64_print n s s' :
  0 <= n < 2 ^ 64 -> stops s -> skip_space s' = skip_space (print_number n s) ->
  read_uint64 s' = Some (n, s).
Proof.
  intros Hn St E. unfold read_uint64. rewrite (read_signed_skip _ _ E), read_signed_print by done.
  cbn [mbind option_bind]. rewrite Z.abs_eq by lia. destruct (Z.ltb_spec n (2 ^ 64)); [|lia].
  by rewrite Z.mod_small.
Qed.

Lemma expect_skip c s s' : skip_space s' = c :: s -> expect c s' = Some s.
Proof. intros E. unfold expect, read_char. rewrite E. cbn. by rewrite Ascii.eqb_refl. Qed.

Lemma read_char_cons c s : is_space c = false -> read_char (c :: s) = Some (c, s).
Proof. intros E. unfold read_char. cbn [skip_space]. by rewrite E. Qed.

Lemma read_block_print st t s :
  0 <= st < 2 ^ 31 -> 0 <= t < 2 ^ 64 -> read_block (print_block st t s) = Some (st, t, s).
Proof.
  intros Hs Ht. unfold read_block, print_block, print. cbn [String.list_ascii_of_string app].
  rewrite read_char_cons by done. cbn [mbind option_bind].
  rewrite (read_int32_print st (" "%char :: print_number t (" "%char :: "]"%char :: s))) by done.
  cbn [mbind option_bind]. by rewrite (read_uint64_print t (" "%char :: "]"%char :: s)).
Qed.
End numbers.

(** ** The text format loses nothing *)

(** A printed pair of numbers that reads back as a tag and a state. *)
Definition prints_as (shift base : Z) (q : Z * Z) (p : Z * CoherenceState_t) : Prop :=
  0 <= fst q < 2 ^ 31 /\ 0 <= snd q < 2 ^ 64 /\ load_state (fst q) = Done (snd p) /\
  Z.lor (Z.shiftl (snd q) shift mod 2 ^ 64) base = fst p.

Definition print_line (l : list (Z * Z)) (rest : text) : text :=
  foldr (fun q t => print_block (fst q) (snd q) t) rest l.

Lemma read_blocks_print shift base l l' k acc rest :
  Forall2 (prints_as shift base) l l' ->
  read_blocks shift base (seq k (length l')) (print_line l rest) acc =
    Done (Some (refill k l' acc, rest)).
Proof.
  intros R. revert k acc. induction R as [|[st t] [tg s] l l' (Hs & Ht & L & E) R IH]; intros k acc; [done|].
  cbn [length seq read_blocks print_line foldr refill fst snd] in *. rewrite read_block_print by done.
  rewrite L. unfold mbind, outcome_bind. rewrite E. apply IH.
Qed.

(** The tag is rebuilt from its upper bits and the set index. *)
Lemma tag_rebuild t k m :
  0 <= k -> 0 <= m -> 0 <= t < 2 ^ 64 -> Z.land t (Z.lnot (2 ^ k - 1)) = t ->
  Z.lor (Z.shiftl (Z.shiftr t (k + m)) (k + m) mod 2 ^ 64)
    (Z.shiftl (Z.land (Z.shiftr t k) (2 ^ m - 1)) k) = t.
Proof.
  intros Hk Hm Ht Al. assert (O : forall n, 2 ^ n - 1 = Z.ones n) by (intros n; rewrite Z.ones_equiv; lia).
  rewrite O in Al |- *. apply Z.bits_inj'. intros n Hn. rewrite Z.lor_spec, Z.shiftl_spec by done.
  assert (High : 64 <= n -> Z.testbit t n = false).
  { intros L. destruct (decide (t = 0)) as [->|]; [apply Z.bits_0|]. apply Z.bits_above_log2; [lia|].
    apply Z.log2_lt_pow2; [lia|]. apply (Z.lt_le_trans _ (2 ^ 64)); [lia|]. apply Z.pow_le_mono_r; lia. }
  assert (Low : n < k -> Z.testbit t n = false).
  { intros L. rewrite <-Al, Z.land_spec, Z.lnot_spec, Z.ones_spec_low by lia. by rewrite andb_false_r. }
  assert (B2 : Z.testbit (Z.land (Z.shiftr t k) (Z.ones m)) (n - k) =
               (k <=? n) && (n <? k + m) && Z.testbit t n).
  { destruct (Z.leb_spec k n) as [L|L]; cbn [andb]; [|by rewrite Z.testbit_neg_r by lia].
    rewrite Z.land_spec, Z.shiftr_spec, Z.sub_add by lia. destruct (Z.ltb_spec n (k + m)); cbn [andb].
    - by rewrite Z.ones_spec_low, andb_true_r by lia.
    - by rewrite Z.ones_spec_high, andb_false_r by lia. }
  assert (B1 : Z.testbit (Z.shiftl (Z.shiftr t (k + m)) (k + m) mod 2 ^ 64) n =
               (n <? 64) && (k + m <=? n) && Z.testbit t n).
  { destruct (Z.ltb_spec n 64) as [L|L]; cbn [andb]; [|by rewrite Z.mod_pow2_bits_high by lia].
    rewrite Z.mod_pow2_bits_low, Z.shiftl_spec by lia.
    destruct (Z.leb_spec (k + m) n); cbn [andb]; [|by rewrite Z.testbit_neg_r by lia].
    by rewrite Z.shiftr_spec, Z.sub_add by lia. }
  rewrite B1, B2. destruct (Z.ltb_spec n 64); [|rewrite High by lia; by rewrite !andb_false_r].
  destruct (Z.leb_spec (k + m) n), (Z.leb_spec k n), (Z.ltb_spec n (k + m)); cbn [andb orb]; try lia;
    rewrite ?orb_false_r; try done. symmetry. apply Low. lia.
Qed.

(** Every block, valid or not, sits in the set of its address. *)
Definition homed (c : StdCache) : Prop :=
  forall i s b, theBlocks c !! i = Some s -> b ∈ s ->
    get_tag c (tag b) = tag b /\ get_set c (tag b) = Z.of_nat i /\ 0 <= tag b < 2 ^ 64.

(** The geometry the constructor computes, in powers of two. *)
Record geometry (c : StdCache) (k m : Z) : Prop := {
  geo_k : 0 <= k;
  geo_m : 0 <= m;
  geo_shift : blockShift c = k;
  geo_sets : blockSetMask c = 2 ^ m - 1;
  geo_tags : blockTagMask c = Z.lnot (2 ^ k - 1);
  geo_text : text_shift c = k + m;
}.

Section text_format.
Context (c : StdCache) (k m : Z).
Hypothesis (WF : wf_cache c) (G : geometry c k m) (Sv : savable c) (Hm : homed c).
Hypothesis (Wide : theAssoc c < 2 ^ 31).

Lemma block_prints i s b :
  theBlocks c !! i = Some s -> b ∈ s ->
  exists st, save_state (state b) = Done st /\
    prints_as (k + m) (Z.shiftl (Z.of_nat i) k) (st, Z.shiftr (tag b) (k + m)) (tag b, state b).
Proof using G Sv Hm.
  intros E I. destruct (Hm i s b E I) as (Ht & Hs & Hr). destruct G as [Pk Pm Gs Gm Gt _].
  assert (N : state b <> kMigratory).
  { unfold savable in Sv. rewrite Forall_forall in Sv.
    specialize (Sv s (list_elem_of_lookup_2 _ _ _ E)). rewrite Forall_forall in Sv. by apply Sv. }
  assert (Up : 0 <= Z.shiftr (tag b) (k + m) < 2 ^ 64).
  { rewrite Z.shiftr_div_pow2 by lia. pose proof (Z.pow_pos_nonneg 2 (k + m)).
    split; [apply Z.div_pos; lia|]. apply Z.div_lt_upper_bound; nia. }
  assert (Tb : Z.lor (Z.shiftl (Z.shiftr (tag b) (k + m)) (k + m) mod 2 ^ 64) (Z.shiftl (Z.of_nat i) k) = tag b).
  { rewrite <-Hs. unfold get_set. rewrite Gs, Gm. apply tag_rebuild; [done|done|done|].
    unfold get_tag in Ht. by rewrite Gt in Ht. }
  destruct (state b); try done; eexists; (split; [reflexivity|]);
    (split; [by split; vm_compute|split; [exact Up|split; [reflexivity|exact Tb]]]).
Qed.

Lemma print_blocks_spec i s rest :
  theBlocks c !! i = Some s -> forall l, (forall b, b ∈ l -> b ∈ s) ->
  exists q, print_blocks (k + m) l rest = Done (print_line q rest) /\
    Forall2 (prints_as (k + m) (Z.shiftl (Z.of_nat i) k)) q (contents l).
Proof using G Sv Hm.
  intros E. induction l as [|b l IH]; intros Sub; [by exists []|].
  destruct (block_prints i s b E) as (st & Es & P); [apply Sub, list_elem_of_here|].
  destruct IH as (q & Eq & R); [intros; by apply Sub, list_elem_of_further|].
  exists ((st, Z.shiftr (tag b) (k + m)) :: q). cbn [print_blocks]. rewrite Es, Eq. split; [done|].
  by constructor.
Qed.

Lemma print_pads shift base n l rest :
  foldr (fun _ t => print "[ 0 0 ]" t) rest (seq l n) = print_line (replicate n (0, 0)) rest /\
  Forall2 (prints_as shift base) (replicate n (0, 0)) (replicate n (base, kInvalid)).
Proof using.
  split.
  - revert l. induction n as [|n IH]; intros l; cbn [seq foldr replicate print_line]; [done|].
    rewrite IH. reflexivity.
  - apply Forall2_replicate. split_and!; cbn; [done..|]. by rewrite Z.shiftl_0_l.
Qed.

Lemma read_order_print n l rest s :
  Z.of_nat (l + n) < 2 ^ 31 ->
  skip_space s = skip_space (foldr (fun j t => print_number (Z.of_nat j) (print " " t)) rest (seq l n)) ->
  exists r, read_order (seq l n) s = Some r /\ skip_space r = skip_space rest.
Proof using.
  revert l s. induction n as [|n IH]; intros l s B E; cbn [seq foldr read_order] in *; [by exists s|].
  assert (Hl : 0 <= Z.of_nat l < 2 ^ 31) by lia.
  rewrite (read_int32_print _ _ s Hl (eq_refl : stops (print " " _)) E). cbn [mbind option_bind].
  apply IH; [lia|done].
Qed.

Lemma read_set_print i s rest :
  theBlocks c !! i = Some s ->
  exists t, print_set (k + m) (theAssoc c) s rest = Done t /\
    (forall s', skip_space s' = skip_space t ->
     exists r, read_set (k + m) (Z.shiftl (Z.of_nat i) k) (theAssoc c) s' [] =
       Done (Some (restored (Z.shiftl (Z.of_nat i) k) (theAssoc c) s, r)) /\ skip_space r = skip_space rest).
Proof using WF G Sv Hm Wide.
  intros E. destruct (wfc_set c WF i s E) as [W _]. pose proof (wf_size _ _ W) as Sz.
  unfold print_set. set (tail := print "} < " _). set (base := Z.shiftl (Z.of_nat i) k).
  unfold pad_ways. set (n := (Z.to_nat (theAssoc c) - length s)%nat).
  destruct (print_pads (k + m) base n (length s) tail) as [-> Rp].
  destruct (print_blocks_spec i s (print_line (replicate n (0, 0)) tail) E s) as (q & -> & Rq); [done|].
  eexists. split; [reflexivity|]. intros s' Es. unfold read_set.
  rewrite (expect_skip "{" (print_line q (print_line (replicate n (0, 0)) tail))) by exact Es.
  assert (Eq : print_line q (print_line (replicate n (0, 0)) tail) = print_line (q ++ replicate n (0, 0)) tail)
    by (unfold print_line; by rewrite foldr_app).
  pose proof (Forall2_app Rq Rp) as R.
  assert (Len : length (contents s ++ replicate n (base, kInvalid)) = Z.to_nat (theAssoc c))
    by (unfold contents; rewrite length_app, length_fmap, length_replicate; lia).
  rewrite Eq, <-Len. rewrite (read_blocks_print (k + m) base _ _ 0 [] tail R). rewrite Len.
  unfold mbind at 1, outcome_bind at 1. unfold n at 1. rewrite refill_restored by apply W.
  destruct (read_order_print (Z.to_nat (theAssoc c)) 0 (print "> " (newline :: rest))
    (" "%char :: print_order (theAssoc c) (print "> " (newline :: rest)))) as (r & Er & Sr);
    [pose proof (wfc_assoc c WF); lia|done|].
  unfold tail. rewrite (expect_skip "}" (print " < " (print_order (theAssoc c) (print "> " (newline :: rest)))))
    by reflexivity.
  cbn [mbind option_bind].
  rewrite (expect_skip "<" (" "%char :: print_order (theAssoc c) (print "> " (newline :: rest)))) by reflexivity.
  cbn [mbind option_bind]. rewrite Er. cbn [mbind option_bind].
  rewrite (expect_skip ">" (" "%char :: newline :: rest)) by exact Sr. eexists. split; [reflexivity|]. done.
Qed.
Lemma read_sets_print i l :
  (forall j s, l !! j = Some s -> theBlocks c !! (i + j)%nat = Some s) ->
  exists t, print_sets (k + m) (theAssoc c) l = Done t /\
    (forall s', skip_space s' = skip_space t ->
     read_sets (k + m) k (theAssoc c) (Z.of_nat i) (replicate (length l) []) s' =
       Done (Some (imap (fun j s => restored (Z.shiftl (Z.of_nat (i + j)) k) (theAssoc c) s) l))).
Proof using WF G Sv Hm Wide.
  revert i. induction l as [|s l IH]; intros i Sub; [by exists []|].
  destruct (IH (S i)) as (t & Et & Rt).
  { intros j s' Ej. rewrite Nat.add_succ_comm. by apply Sub. }
  destruct (read_set_print i s t) as (t' & Et' & Rt').
  { specialize (Sub 0%nat s eq_refl). by rewrite Nat.add_0_r in Sub. }
  exists t'. cbn [print_sets]. rewrite Et. split; [exact Et'|]. intros s' Es.
  destruct (Rt' s' Es) as (r & Er & Sr). cbn [length replicate read_sets]. rewrite Er.
  unfold mbind, outcome_bind. replace (Z.of_nat i + 1) with (Z.of_nat (S i)) by lia. rewrite (Rt r Sr).
  cbn [option_map imap]. rewrite Nat.add_0_r. do 3 f_equal. apply imap_ext. intros j x _. cbn.
  do 3 f_equal. lia.
Qed.
End text_format.

Lemma text_restores (bs ns assoc : Z) (c0 c : StdCache) :
  newStdCache bs ns assoc = Done c0 -> bs < 2 ^ 31 -> ns < 2 ^ 31 -> assoc < 2 ^ 31 ->
  same_geometry c0 c -> wf_cache c -> savable c -> homed c ->
  exists t, saveText c = Done t /\
    loadText t (emptied c) = Done (Some (restore_cache (fun i => Z.shiftl i (blockShift c)) c)).
Proof.
  intros E Hb Hn Ha Sg WF Sv Hm.
  assert (exists k m, geometry c k m /\ theAssoc c < 2 ^ 31) as (k & m & G & Wide).
  { exists (Z.log2 bs), (Z.log2 ns). unfold newStdCache in E.
    destruct (Z.ltb_spec 0 assoc); cbn [negb] in E; [|done].
    destruct (Z.ltb_spec 0 ns) as [Pn|]; cbn [negb] in E; [|done].
    destruct (Z.ltb_spec 0 bs) as [Pb|]; cbn [negb] in E; [|done].
    destruct (Z.eqb_spec (Z.land ns (ns - 1)) 0) as [Ln|]; cbn [negb] in E; [|done].
    destruct (Z.eqb_spec (Z.land bs (bs - 1)) 0) as [Lb|]; cbn [negb] in E; [|done].
    injection E as <-. destruct Sg as (S1 & S2 & S3 & S4 & S5). cbn in S1, S2, S3, S4, S5.
    apply power_of_two in Ln, Lb; try done. split; [|lia].
    split; unfold text_shift; rewrite <-?S1, <-?S3, <-?S4, <-?S5, <-?Ln, <-?Lb;
      rewrite ?log_base2_spec by lia; first [done|apply Z.log2_nonneg]. }
  destruct (read_sets_print c k m WF G Sv Hm Wide 0 (theBlocks c)) as (t & Et & Rt); [done|].
  exists t. split.
  { unfold saveText. by rewrite (geo_text _ _ _ G). }
  unfold loadText.
  change (text_shift (emptied c)) with (text_shift c). change (blockShift (emptied c)) with (blockShift c).
  rewrite (geo_text _ _ _ G), (geo_shift _ _ _ G). cbn [emptied set_blocks theAssoc theBlocks].
  change 0 with (Z.of_nat 0). by rewrite (Rt t eq_refl).
Qed.

(** C34 (text checkpoints): a well-formed cache without migratory blocks, of a
    geometry that the constructor computes, whose blocks sit in the sets of
    their addresses, saves as text without a failing assertion; reading the text
    into an empty cache of the same geometry succeeds and gives a well-formed
    cache that holds every block in the state it had. *)
Theorem text_checkpoint_roundtrip (bs ns assoc : Z) (c0 c : StdCache) :
  newStdCache bs ns assoc = Done c0 -> bs < 2 ^ 31 -> ns < 2 ^ 31 -> assoc < 2 ^ 31 ->
  same_geometry c0 c -> wf_cache c -> savable c -> homed c ->
  exists t c', saveText c = Done t /\ loadText t (emptied c) = Done (Some c') /\
    wf_cache c' /\ forall a, peek c' a = peek c a.
Proof.
  intros E Hb Hn Ha Sg WF Sv Hm. destruct (text_restores bs ns assoc c0 c) as (t & Et & Rt); [done..|].
  exists t, (restore_cache (fun i => Z.shiftl i (blockShift c)) c). split; [exact Et|]. split; [exact Rt|].
  by apply restore_cache_spec.
Qed.

Lemma text_checkpoint_roundtrip_witness :
  exists t c', saveText saved_sample = Done t /\ loadText t (emptied saved_sample) = Done (Some c') /\
    peek c' 704 = kModified /\ peek c' 448 = kShared.
Proof.
  destruct (text_checkpoint_roundtrip 64 2 2 (emptied saved_sample) saved_sample eq_refl)
    as (t & c' & E & L & _ & P); [done|done|done|done|exact saved_sample_wf|exact saved_sample_savable| |].
  - intros [|[|i]] s b Ei I; [injection Ei as <-..|done]; [by apply not_elem_of_nil in I|].
    apply elem_of_cons in I as [->|I]; [by vm_compute|]. apply list_elem_of_singleton in I as ->. by vm_compute.
  - exists t, c'. split; [exact E|]. split; [exact L|]. rewrite !P. by split.
Defined.

(** ** What the padding costs *)

(** The blocks that filling a block evicts. *)
Definition evicts (a : Z) (c : StdCache) : outcome (list (Z * CoherenceState_t)) :=
  r ← fill a kShared c; Done (snd (snd r)).

Lemma evicts_victim a c :
  evicts a c = Done (let '(lr, c1) := cache_lookup a c in
    match allocate_victim lr (allocate_begin lr c1) with Some v => [(tag v, state v)] | None => [] end).
Proof.
  unfold evicts, fill. destruct (cache_lookup a c) as [lr c1]. cbn zeta. cbn [fst snd].
  by rewrite allocate_logged.
Qed.

(** A set with a free way takes a block without an eviction. *)
Lemma evicts_nothing a c :
  wf_cache c -> get_tag c a = a -> Z.of_nat (length (the_set c (get_set c a))) < theAssoc c ->
  evicts a c = Done [].
Proof.
  intros WF Ha L. rewrite evicts_victim. destruct (cache_lookup a c) as [lr c1] eqn:E.
  destruct (cache_lookup_spec c WF a lr c1 Ha E) as (W1 & _ & _ & (b & H1) & _).
  pose proof (lookup_miss_full c a b WF Ha) as Full. rewrite E in Full. cbn [fst snd] in Full.
  destruct (allocate_victim lr (allocate_begin lr c1)) as [v|] eqn:V; [exfalso|done].
  assert (H2 : handle (allocate_begin lr c1) lr a b) by (by apply handle_set_allocating).
  destruct (set_allocating_effect c1 true (get_tag c1 (lr_address lr)) W1) as (W2 & _ & _).
  destruct (allocate_victim_spec _ lr a b v W2 H2 V) as (-> & N & _).
  specialize (Full (h_block _ _ _ _ H1) N). lia.
Qed.

(** A full set gives up its first block, the least recently used, when it is valid. *)
Lemma evicts_first a c v rest :
  get_tag c a = a -> the_set c (get_set c a) = v :: rest -> theAssoc c <= Z.of_nat (length (v :: rest)) ->
  a ∉ tag <$> v :: rest -> isValid (state v) = true -> evicts a c = Done [(tag v, state v)].
Proof.
  intros Ha Es L N V. rewrite evicts_victim. unfold cache_lookup. rewrite Ha, Es.
  rewrite (proj2 (find_tag_None _ _) N), (proj2 (Z.ltb_ge _ _) L). cbn [fmap option_fmap option_map head default].
  unfold allocate_victim, allocate_replaces, lr_deref. cbn [lr_set lr_block lr_address].
  change (the_set (allocate_begin _ c)) with (the_set c).
  change (get_tag (allocate_begin _ c)) with (get_tag c). rewrite Es, Ha.
  assert (B : block_at (v :: rest) (way v) = Some v).
  { unfold block_at, find_by. cbn. by rewrite bool_decide_true. }
  cbn [from_option]. change (id (way v)) with (way v). rewrite B, (proj2 (Z.eqb_neq _ _)), V; [done|].
  intros E. apply N. rewrite <-E. apply list_elem_of_here.
Qed.

Lemma restored_evicts pad c a v rest :
  wf_cache c -> get_tag c a = a -> the_set c (get_set c a) = v :: rest ->
  Z.of_nat (length (v :: rest)) + 1 = theAssoc c -> isValid (state v) = true ->
  a ∉ tag <$> v :: rest -> pad (get_set c a) ∉ tag <$> v :: rest -> a <> pad (get_set c a) ->
  evicts a (restore_cache pad c) = Done [(tag v, state v)].
Proof.
  intros WF Ha Es L V N Np Na. pose proof (get_set_bound c WF a) as Hi.
  assert (E : the_set (restore_cache pad c) (get_set c a) = restored (pad (get_set c a)) (theAssoc c) (v :: rest)).
  { unfold the_set in *. cbn [restore_cache set_blocks theBlocks]. rewrite list_lookup_imap.
    destruct (theBlocks c !! _) as [s|]; cbn in Es |- *; [|done]. subst s. by rewrite Z2Nat.id by lia. }
  unfold restored in E. rewrite decide_True in E by (split; [lia|done]). cbn [renumber app] in E.
  eapply (evicts_first a (restore_cache pad c) (mkBlock (tag v) (state v) 0)); [exact Ha|exact E| | |exact V].
  - change (theAssoc (restore_cache pad c)) with (theAssoc c). rewrite <-L. cbn [length]. rewrite length_app, renumber_length.
    cbn. lia.
  - cbn [fmap list_fmap tag]. rewrite fmap_app, renumber_tags. cbn [fmap list_fmap tag] in N |- *.
    rewrite app_comm_cons, elem_of_app, list_elem_of_singleton. tauto.
Qed.

(** C38 (a restored set is full too early): a set with one free way, whose least
    recently used block is valid, takes a block that it does not hold without an
    eviction; after the cache has been saved and loaded, in either format, it evicts
    that valid block for it, since an invalid block of the padding occupies the free
    way.  The padding has the tag 0 in the binary format, and the first address of the
    set in the text format; the set must not hold a block with that tag already, and the
    block that is filled must be another one.  The cache is as for the round trips:
    well formed, without migratory blocks, every block in the set of its address. *)
Theorem restored_set_evicts_early (bs ns assoc : Z) (c0 c : StdCache) (a : Z) (v : BlockEntry) (rest : block_set) :
  newStdCache bs ns assoc = Done c0 -> bs < 2 ^ 31 -> ns < 2 ^ 31 -> assoc < 2 ^ 31 ->
  same_geometry c0 c -> wf_cache c -> savable c -> homed c ->
  get_tag c a = a -> the_set c (get_set c a) = v :: rest -> Z.of_nat (length (v :: rest)) + 1 = theAssoc c ->
  isValid (state v) = true -> a ∉ tag <$> v :: rest ->
  let pad := Z.shiftl (get_set c a) (blockShift c) in
  evicts a c = Done [] /\
  (0 ∉ tag <$> v :: rest -> a <> 0 ->
   (ar ← saveBinary c; c' ← loadBinary ar (emptied c); evicts a c') = Done [(tag v, state v)]) /\
  (pad ∉ tag <$> v :: rest -> a <> pad ->
   exists c', (t ← saveText c; loadText t (emptied c)) = Done (Some c') /\ evicts a c' = Done [(tag v, state v)]).
Proof.
  cbv zeta. intros E Hb Hn Hs Sg WF Sv Hm Ha Es L V N. split_and!.
  - apply evicts_nothing; [done|done|]. rewrite Es. lia.
  - intros N0 A0. destruct (binary_restores c WF Sv) as (ar & Ea & El). rewrite Ea. cbn [mbind outcome_bind].
    rewrite El. cbn [mbind outcome_bind]. by apply (restored_evicts (fun _ => 0) c a v rest).
  - intros Np Ap. destruct (text_restores bs ns assoc c0 c) as (t & Et & Rt); [done..|].
    rewrite Et. cbn [mbind outcome_bind]. rewrite Rt. eexists. split; [reflexivity|].
    by apply (restored_evicts (fun i => Z.shiftl i (blockShift c)) c a v rest).
Qed.

Definition half_full : StdCache :=
  mkCache 1 2 64 6 0 (Z.lnot 63) [[mkBlock 704 kModified 0]] false 0.

Lemma half_full_wf : wf_cache half_full.
Proof.
  split; [done..|]. intros [|i] s E; [|done]. injection E as <-. split; [|by repeat constructor].
  split; [apply (bool_decide_unpack _); vm_compute; exact I..|cbn; lia|repeat constructor; cbn; lia].
Qed.

Lemma restored_set_evicts_early_witness :
  evicts 448 half_full = Done [] /\
  (ar ← saveBinary half_full; c ← loadBinary ar (emptied half_full); evicts 448 c) = Done [(704, kModified)].
Proof.
  destruct (restored_set_evicts_early 64 1 2 (emptied half_full) half_full 448 (mkBlock 704 kModified 0) [])
    as (E & B & _); [done|done|done|done|done|exact half_full_wf|by repeat constructor| |done|done|done|done| |].
  - intros [|i] s b Ei I; [injection Ei as <-|done]. apply list_elem_of_singleton in I as ->. by vm_compute.
  - intros I%list_elem_of_singleton. discriminate I.
  - split; [exact E|]. apply B; [|done]. intros I%list_elem_of_singleton. discriminate I.
Defined.
