(* ===== verification/Directory.v ===== *)
(** * Sharing vectors and the chip directory

    components/FastCMPCache: SharingVector.hpp, the block entries of
    InfiniteDirectory.cpp and BlockDirectoryEntry.hpp, the interface and the
    common methods of AbstractDirectory.hpp, and InfiniteDirectory.cpp.

    A [std::bitset<512>] is the integer with those bits; [getSharers] below is
    the list of the indices of its set bits. *)

From S2P Require Import Prelude Messages.
From stdpp Require Import base gmap sets list strings sorting.
From Stdlib Require Import ZArith Lia.

Local Open Scope Z_scope.

Definition MAX_NUM_SHARERS : Z := 512.
Abbreviation SharingVector := Z (only parsing).

Module SV.
Definition empty : SharingVector := 0.

Definition indices : list Z := seqZ 0 MAX_NUM_SHARERS.

Definition in_range (index : Z) : bool := (0 <=? index) && (index <? MAX_NUM_SHARERS).

Definition addSharer (index : Z) (v : SharingVector) : outcome SharingVector :=
  if in_range index then Done (Z.setbit v index) else Assert "Invalid index".

Definition removeSharer (index : Z) (v : SharingVector) : outcome SharingVector :=
  if in_range index then Done (Z.clearbit v index) else Assert "Invalid index".

Definition isSharer (index : Z) (v : SharingVector) : outcome bool :=
  if in_range index then Done (Z.testbit v index) else Assert "Invalid index".

(** [toList]: the loop over all indices in order. *)
Definition toList (v : SharingVector) : list Z :=
  filter (fun i => Z.testbit v i = true) indices.

Definition countSharers (v : SharingVector) : Z := Z.of_nat (length (toList v)).

Definition getFirstSharer (v : SharingVector) : Z := default (-1) (head (toList v)).

(** [for (; lhs < MAX_NUM_SHARERS; lhs++) if (sharers[lhs]) break;] *)
Fixpoint scan_up (fuel : nat) (lhs : Z) (v : SharingVector) : Z :=
  match fuel with
  | O => lhs
  | S fuel =>
      if lhs <? MAX_NUM_SHARERS then
        if Z.testbit v lhs then lhs else scan_up fuel (lhs + 1) v
      else lhs
  end.

(** [for (; rhs >= 0; rhs--) if (sharers[rhs]) break;] *)
Fixpoint scan_down (fuel : nat) (rhs : Z) (v : SharingVector) : Z :=
  match fuel with
  | O => rhs
  | S fuel =>
      if 0 <=? rhs then
        if Z.testbit v rhs then rhs else scan_down fuel (rhs - 1) v
      else rhs
  end.

(** 513 rounds end both loops from any index in range. *)
Definition getClosestSharer (index : Z) (v : SharingVector) : Z :=
  let lhs := scan_up 513 (index + 1) v in
  let rhs := scan_down 513 (index - 1) v in
  if 0 <=? rhs then
    if lhs <? MAX_NUM_SHARERS then
      if (index - rhs) <? (lhs - index) then rhs else lhs
    else rhs
  else if lhs <? MAX_NUM_SHARERS then lhs
  else if Z.testbit v index then index
  else -1.

Definition intersect (a b : SharingVector) : SharingVector := Z.land a b.
Definition union (a b : SharingVector) : SharingVector := Z.lor a b.
Definition flip (v : SharingVector) : SharingVector := Z.lxor v (Z.ones MAX_NUM_SHARERS).
Definition any (v : SharingVector) : bool := negb (v =? 0).

(** [getUInt64]: [for (i = 63; i >= 0; i--) { ret <<= 1; ret |= sharers[i]; }] *)
Fixpoint getUInt64_loop (n : nat) (ret : Z) (v : SharingVector) : Z :=
  match n with
  | O => ret
  | S i =>
      getUInt64_loop i
        (Z.lor (Z.land (Z.shiftl ret 1) (Z.ones 64)) (if Z.testbit v (Z.of_nat i) then 1 else 0)) v
  end.
Definition getUInt64 (v : SharingVector) : Z := getUInt64_loop 64 0 v.

(** [setSharers(std::bitset<MAX_NUM_SHARERS> s)], bit by bit. *)
Definition setSharers (s : Z) : SharingVector :=
  foldl (fun v i => if Z.testbit s i then Z.setbit v i else Z.clearbit v i) 0 indices.

Definition wf (v : SharingVector) : Prop := 0 <= v < 2 ^ MAX_NUM_SHARERS.
End SV.

Inductive SharingState : Set := ZeroSharers | OneSharer | ManySharers.

#[export] Instance SharingState_eq_dec : EqDecision SharingState.
Proof. solve_decision. Defined.

Definition state_of_count (count : Z) : SharingState :=
  if count =? 1 then OneSharer else if count =? 0 then ZeroSharers else ManySharers.

(** ** Directory entries *)

Record DirectoryEntry : Type := mkEntry {
  e_address : Z;
  e_sharers : SharingVector;
  e_state : SharingState;
}.

Module Entry.
Definition create (addr : Z) : DirectoryEntry := mkEntry addr SV.empty ZeroSharers.

Definition addSharer (index : Z) (e : DirectoryEntry) : outcome DirectoryEntry :=
  v ← SV.addSharer index (e_sharers e);
  Done (mkEntry (e_address e) v
          (if SV.countSharers v =? 1 then OneSharer else ManySharers)).

Definition makeExclusive (index : Z) (e : DirectoryEntry) : outcome DirectoryEntry :=
  b ← SV.isSharer index (e_sharers e);
  if negb b then Assert "is not a sharer"
  else if negb (SV.countSharers (e_sharers e) =? 1) then Assert "Cannot make exclusive"
  else Done (mkEntry (e_address e) (e_sharers e) OneSharer).

Definition removeSharer (index : Z) (e : DirectoryEntry) : outcome DirectoryEntry :=
  v ← SV.removeSharer index (e_sharers e);
  Done (mkEntry (e_address e) v
          (if SV.countSharers v =? 0 then ZeroSharers
           else if SV.countSharers v =? 1 then OneSharer else e_state e)).

Definition setSharers (v : SharingVector) (e : DirectoryEntry) : DirectoryEntry :=
  mkEntry (e_address e) v (state_of_count (SV.countSharers v)).

Definition clear (e : DirectoryEntry) : DirectoryEntry :=
  mkEntry (e_address e) SV.empty ZeroSharers.

Definition reset (addr : Z) (e : DirectoryEntry) : DirectoryEntry :=
  mkEntry addr SV.empty ZeroSharers.

(** [operator&=] of BlockDirectoryEntry. *)
Definition intersect (e e' : DirectoryEntry) : DirectoryEntry :=
  let v := SV.intersect (e_sharers e) (e_sharers e') in
  mkEntry (e_address e) v (state_of_count (SV.countSharers v)).

(** [StdDirEntryExtendedSerializer]: the address and all 512 sharer bits. *)
Definition getSerializer (e : DirectoryEntry) : Z * Z := (e_address e, e_sharers e).
Definition of_serializer (s : Z * Z) : DirectoryEntry :=
  let v := SV.setSharers (snd s) in
  mkEntry (fst s) v (state_of_count (SV.countSharers v)).

(** [StdDirEntrySerializer], of BlockDirectoryEntry: 64 sharer bits. *)
Definition getSerializer64 (e : DirectoryEntry) : Z * Z :=
  (e_address e, SV.getUInt64 (e_sharers e)).

Definition wf (e : DirectoryEntry) : Prop :=
  SV.wf (e_sharers e) /\ e_state e = state_of_count (SV.countSharers (e_sharers e)).
End Entry.

(** ** The directory interface

    The virtual methods of [AbstractDirectory].  [D] is the directory object,
    [H] what [AbstractEntry_p] points to; a null pointer is [None]. *)

Record AbstractDirectory (D H : Type) : Type := mkDirectory {
  dir_lookup : Z -> Z -> MemoryMessageType -> D -> SharingVector * SharingState * option H;
  dir_snoopLookup : Z -> Z -> MemoryMessageType -> D ->
    SharingVector * SharingState * option H * bool;
  dir_addSharer : Z -> option H -> Z -> D -> outcome D;
  dir_addExclusiveSharer : Z -> option H -> Z -> D -> outcome D;
  dir_removeSharer : Z -> option H -> Z -> D -> outcome D;
  dir_failedSnoop : Z -> option H -> Z -> D -> outcome D;
  dir_makeSharerExclusive : Z -> option H -> Z -> D -> outcome D;
  dir_recordSnoop : bool -> D -> D;
}.
Arguments dir_lookup {D H} _ _ _ _ _.
Arguments dir_snoopLookup {D H} _ _ _ _ _.
Arguments dir_addSharer {D H} _ _ _ _ _.
Arguments dir_addExclusiveSharer {D H} _ _ _ _ _.
Arguments dir_removeSharer {D H} _ _ _ _ _.
Arguments dir_failedSnoop {D H} _ _ _ _ _.
Arguments dir_makeSharerExclusive {D H} _ _ _ _ _.
Arguments dir_recordSnoop {D H} _ _ _.

Section AbstractDirectory.
Context {D H : Type} (ops : AbstractDirectory D H).

(** [recordSnoopHit] is [dir_recordSnoop true], [recordSnoopMiss] is
    [dir_recordSnoop false]. *)
Definition processSnoopResponse (index : Z) (type : MemoryMessageType) (dir_entry : option H)
    (address : Z) (d : D) : outcome D :=
  match type with
  | Invalidate | ReturnNAck =>
      dir_failedSnoop ops index dir_entry address (dir_recordSnoop ops false d)
  | InvalidateAck | InvUpdateAck =>
      dir_removeSharer ops index dir_entry address (dir_recordSnoop ops true d)
  | ReturnReply | ReturnReplyDirty | DowngradeAck | DownUpdateAck =>
      Done (dir_recordSnoop ops true d)
  | _ => Assert "Unknown Snoop Response"
  end.

(** The second [switch], on the response that goes out. *)
Definition recordResponse (index : Z) (response : MemoryMessageType)
    (dir_entry : option H) (address : Z) (d : D) : outcome D :=
  match response with
  | MissReply | FwdReplyOwned => dir_addSharer ops index dir_entry address d
  | MissReplyWritable | MissReplyDirty => dir_addExclusiveSharer ops index dir_entry address d
  | NonAllocatingStoreReply => Done d
  | _ => Assert "Uknown Request+Response combination"
  end.

Definition abstract_processRequestResponse (index : Z) (request response : MemoryMessageType)
    (dir_entry : option H) (address : Z) (d : D) : outcome D :=
  match request with
  | EvictClean | EvictWritable | EvictDirty => dir_removeSharer ops index dir_entry address d
  | UpgradeReq =>
      if type_eqb response UpgradeReply then dir_makeSharerExclusive ops index dir_entry address d
      else Assert "Received in response to UpgradeReq"
  | _ => recordResponse index response dir_entry address d
  end.
End AbstractDirectory.

(** ** The infinite directory

    [theDirectory] is an [unordered_map] from block addresses to counted
    pointers.  An entry pointer names the entry of its address: entries leave
    the map only in [processRequestResponse]. *)

Record InfiniteDirectory : Type := mkInf {
  theDirectory : gmap Z DirectoryEntry;
  theSnoopMisses : Z;
  theSnoopHits : Z;
}.

Module Inf.
Definition set_dir (m : gmap Z DirectoryEntry) (d : InfiniteDirectory) : InfiniteDirectory :=
  mkInf m (theSnoopMisses d) (theSnoopHits d).

Definition findEntry (addr : Z) (d : InfiniteDirectory) : option DirectoryEntry :=
  theDirectory d !! addr.

(** [findOrCreateEntry]: the entry, inserted when it is new. *)
Definition findOrCreateEntry (addr : Z) (d : InfiniteDirectory)
    : DirectoryEntry * InfiniteDirectory :=
  match theDirectory d !! addr with
  | Some e => (e, d)
  | None => (Entry.create addr, set_dir (<[addr := Entry.create addr]> (theDirectory d)) d)
  end.

(** A method of the entry behind a pointer, in place. *)
Definition on_entry (addr : Z) (f : DirectoryEntry -> outcome DirectoryEntry)
    (d : InfiniteDirectory) : outcome InfiniteDirectory :=
  match theDirectory d !! addr with
  | Some e => e' ← f e; Done (set_dir (<[addr := e']> (theDirectory d)) d)
  | None => Assert "dangling directory entry"
  end.

Definition addSharer (index : Z) (dir_entry : option Z) (address : Z) (d : InfiniteDirectory)
    : outcome InfiniteDirectory :=
  match dir_entry with
  | Some a => on_entry a (Entry.addSharer index) d
  | None => on_entry address (Entry.addSharer index) (snd (findOrCreateEntry address d))
  end.

Definition addExclusiveSharer (index : Z) (dir_entry : option Z) (address : Z)
    (d : InfiniteDirectory) : outcome InfiniteDirectory :=
  let f e := e' ← Entry.addSharer index e; Entry.makeExclusive index e' in
  match dir_entry with
  | Some a => on_entry a f d
  | None => on_entry address f (snd (findOrCreateEntry address d))
  end.

Definition removeSharer (index : Z) (dir_entry : option Z) (address : Z) (d : InfiniteDirectory)
    : outcome InfiniteDirectory :=
  match dir_entry with
  | Some a => on_entry a (Entry.removeSharer index) d
  | None => Done d
  end.

Definition makeSharerExclusive (index : Z) (dir_entry : option Z) (address : Z)
    (d : InfiniteDirectory) : outcome InfiniteDirectory :=
  match dir_entry with
  | Some a => on_entry a (Entry.makeExclusive index) d
  | None => Done d
  end.

Definition lookup (index address : Z) (req_type : MemoryMessageType) (d : InfiniteDirectory)
    : SharingVector * SharingState * option Z :=
  match findEntry address d with
  | Some e => (e_sharers e, e_state e, Some address)
  | None => (SV.empty, ZeroSharers, None)
  end.

Definition snoopLookup (index address : Z) (req_type : MemoryMessageType) (d : InfiniteDirectory)
    : SharingVector * SharingState * option Z * bool :=
  match findEntry address d with
  | Some e => (e_sharers e, e_state e, Some address, true)
  | None => (SV.empty, ZeroSharers, None, false)
  end.

Definition recordSnoop (hit : bool) (d : InfiniteDirectory) : InfiniteDirectory :=
  if hit then mkInf (theDirectory d) (theSnoopMisses d) (theSnoopHits d + 1)
  else mkInf (theDirectory d) (theSnoopMisses d + 1) (theSnoopHits d).

Definition ops : AbstractDirectory InfiniteDirectory Z :=
  mkDirectory _ _ lookup snoopLookup addSharer addExclusiveSharer removeSharer removeSharer
    makeSharerExclusive recordSnoop.

(** The override: an entry without sharers is dropped after an eviction. *)
Definition processRequestResponse (index : Z) (request response : MemoryMessageType)
    (dir_entry : option Z) (address : Z) (d : InfiniteDirectory) : outcome InfiniteDirectory :=
  d ← abstract_processRequestResponse ops index request response dir_entry address d;
  if negb (isEvictType request) then Done d
  else
    match dir_entry with
    | None => Done d
    | Some a =>
        match theDirectory d !! a with
        | Some e => if decide (e_state e = ZeroSharers)
                    then Done (set_dir (delete address (theDirectory d)) d) else Done d
        | None => Done d
        end
    end.

(** [saveState] and [loadState]: the entries, in the map's own order. *)
Definition saveState (d : InfiniteDirectory) : list (Z * Z) :=
  (fun p => Entry.getSerializer (snd p)) <$> map_to_list (theDirectory d).

Definition loadEntry (d : InfiniteDirectory) (s : Z * Z) : InfiniteDirectory :=
  let e := Entry.of_serializer s in
  if decide (e_state e = ZeroSharers) then d
  else match theDirectory d !! fst s with
       | Some _ => d
       | None => set_dir (<[fst s := e]> (theDirectory d)) d
       end.
Definition loadState (l : list (Z * Z)) (d : InfiniteDirectory) : InfiniteDirectory :=
  foldl loadEntry d l.
End Inf.

(** ** Sharing vectors as sets of indices *)

Section sharing_vector.
Implicit Types (v : SharingVector) (i j : Z).

Lemma in_range_spec i : SV.in_range i = true <-> 0 <= i < MAX_NUM_SHARERS.
Proof. unfold SV.in_range. rewrite andb_true_iff, Z.leb_le, Z.ltb_lt. lia. Qed.

Lemma elem_of_indices i : i ∈ SV.indices <-> 0 <= i < MAX_NUM_SHARERS.
Proof. unfold SV.indices. rewrite elem_of_seqZ. lia. Qed.

Lemma elem_of_toList v i :
  i ∈ SV.toList v <-> 0 <= i < MAX_NUM_SHARERS /\ Z.testbit v i = true.
Proof. unfold SV.toList. rewrite list_elem_of_filter, elem_of_indices. naive_solver. Qed.

Lemma NoDup_toList v : NoDup (SV.toList v).
Proof. apply NoDup_filter, NoDup_seqZ. Qed.

Lemma wf_testbit v i : SV.wf v -> Z.testbit v i = true -> 0 <= i < MAX_NUM_SHARERS.
Proof.
  intros [H0 H1] T. destruct (decide (i < 0)) as [N|N].
  { rewrite Z.testbit_neg_r in T by lia. done. }
  split; [lia|]. destruct (decide (i < MAX_NUM_SHARERS)) as [|G]; [done|].
  destruct (decide (v = 0)) as [->|]; [by rewrite Z.bits_0 in T|].
  rewrite Z.bits_above_log2 in T; [done|lia|].
  assert (Z.log2 v < MAX_NUM_SHARERS) by (apply Z.log2_lt_pow2; lia). lia.
Qed.

Lemma elem_of_toList_wf v i : SV.wf v -> i ∈ SV.toList v <-> Z.testbit v i = true.
Proof. intros W. rewrite elem_of_toList. pose proof (wf_testbit v i W). naive_solver. Qed.

Lemma wf_intro v : 0 <= v -> (forall i, Z.testbit v i = true -> i < MAX_NUM_SHARERS) -> SV.wf v.
Proof.
  intros H0 B. split; [done|]. destruct (decide (v = 0)) as [->|]; [done|].
  apply Z.log2_lt_pow2; [lia|]. apply B, Z.bit_log2. lia.
Qed.

Lemma wf_empty : SV.wf SV.empty.
Proof. split; vm_compute; done. Qed.

Lemma setbit_nonneg v i : 0 <= v -> 0 <= Z.setbit v i.
Proof.
  intros H. rewrite Z.setbit_spec'. apply Z.lor_nonneg. split; [done|].
  destruct (Z.le_gt_cases 0 i); [apply Z.pow_nonneg; lia|]. by rewrite Z.pow_neg_r.
Qed.

Lemma clearbit_nonneg v i : 0 <= v -> 0 <= Z.clearbit v i.
Proof. intros H. rewrite Z.clearbit_spec'. apply Z.ldiff_nonneg. by left. Qed.

Lemma testbit_setbit v i j : 0 <= i -> Z.testbit (Z.setbit v i) j = (i =? j) || Z.testbit v j.
Proof.
  intros. destruct (decide (0 <= j)); [by rewrite Z.setbit_eqb|].
  rewrite !Z.testbit_neg_r by lia. destruct (Z.eqb_spec i j); [lia|done].
Qed.

Lemma testbit_clearbit v i j :
  0 <= i -> Z.testbit (Z.clearbit v i) j = Z.testbit v j && negb (i =? j).
Proof.
  intros. destruct (decide (0 <= j)); [by rewrite Z.clearbit_eqb|].
  by rewrite !Z.testbit_neg_r by lia.
Qed.

Lemma setbit_wf v i : 0 <= i < MAX_NUM_SHARERS -> SV.wf v -> SV.wf (Z.setbit v i).
Proof.
  intros Hi W. apply wf_intro; [apply setbit_nonneg, W|]. intros j.
  rewrite testbit_setbit by lia. intros [E%Z.eqb_eq|E]%orb_true_iff; [lia|]. apply wf_testbit in E; [lia|done].
Qed.

Lemma clearbit_wf v i : 0 <= i -> SV.wf v -> SV.wf (Z.clearbit v i).
Proof.
  intros Hi W. apply wf_intro; [apply clearbit_nonneg, W|]. intros j.
  rewrite testbit_clearbit by lia. intros [E _]%andb_true_iff. apply wf_testbit in E; [lia|done].
Qed.

Lemma count_zero v : SV.wf v -> SV.countSharers v = 0 <-> forall j, Z.testbit v j = false.
Proof.
  intros W. unfold SV.countSharers. split.
  - intros E j. destruct (Z.testbit v j) eqn:T; [|done].
    apply elem_of_toList_wf in T; [|done]. destruct (SV.toList v); [set_solver|done].
  - intros E. destruct (SV.toList v) as [|i l] eqn:El; [done|].
    assert (i ∈ SV.toList v) as I by (rewrite El; set_solver).
    apply elem_of_toList_wf in I; [|done]. congruence.
Qed.

Lemma count_one v :
  SV.wf v -> SV.countSharers v = 1 <-> exists i, forall j, Z.testbit v j = bool_decide (j = i).
Proof.
  intros W. unfold SV.countSharers. split.
  - intros E. destruct (SV.toList v) as [|i [|]] eqn:El; [done| |cbn in E; lia].
    exists i. intros j. apply eq_bool_prop_intro. rewrite bool_decide_spec.
    rewrite <-(list_elem_of_singleton j i), <-El, elem_of_toList_wf by done.
    split; [apply Is_true_true_1|apply Is_true_true_2].
  - intros [i E]. assert (P : SV.toList v ≡ₚ [i]); [|by rewrite P].
    apply NoDup_Permutation; [apply NoDup_toList|apply NoDup_singleton|].
    intros j. rewrite elem_of_toList_wf, E, bool_decide_eq_true by done. set_solver.
Qed.

Lemma count_nonneg v : 0 <= SV.countSharers v.
Proof. unfold SV.countSharers. lia. Qed.

Lemma count_mono v v' :
  (forall j, Z.testbit v j = true -> Z.testbit v' j = true) ->
  SV.countSharers v <= SV.countSharers v'.
Proof.
  intros L. unfold SV.countSharers. apply inj_le.
  apply submseteq_length, NoDup_submseteq; [apply NoDup_toList|].
  intros j. rewrite !elem_of_toList. naive_solver.
Qed.
End sharing_vector.

(** The sharing states as statements about the set. *)
Section sharing_state.
Context (v : SharingVector) (W : SV.wf v).

Lemma state_zero :
  state_of_count (SV.countSharers v) = ZeroSharers <-> forall j, Z.testbit v j = false.
Proof using W.
  rewrite <-count_zero by done. unfold state_of_count.
  destruct (Z.eqb_spec (SV.countSharers v) 1), (Z.eqb_spec (SV.countSharers v) 0); split; try done; lia.
Qed.

Lemma state_one :
  state_of_count (SV.countSharers v) = OneSharer <->
  exists i, forall j, Z.testbit v j = bool_decide (j = i).
Proof using W.
  rewrite <-count_one by done. unfold state_of_count.
  destruct (Z.eqb_spec (SV.countSharers v) 1), (Z.eqb_spec (SV.countSharers v) 0); split; try done; lia.
Qed.
End sharing_state.

(** ** Entries keep their state in step with their sharers *)

Lemma entry_create_wf a : Entry.wf (Entry.create a).
Proof. split; [apply wf_empty|done]. Qed.

Lemma entry_addSharer_spec i e :
  0 <= i < MAX_NUM_SHARERS -> Entry.wf e ->
  exists e', Entry.addSharer i e = Done e' /\ Entry.wf e' /\ e_address e' = e_address e /\
             e_sharers e' = Z.setbit (e_sharers e) i.
Proof.
  intros Hi [W S]. unfold Entry.addSharer, SV.addSharer.
  rewrite (proj2 (in_range_spec i)) by done. cbn. eexists. split; [done|].
  split; [|done]. pose proof (setbit_wf _ _ Hi W) as W'. split; [done|]. cbn.
  unfold state_of_count. destruct (Z.eqb_spec (SV.countSharers (Z.setbit (e_sharers e) i)) 1); [done|].
  destruct (Z.eqb_spec (SV.countSharers (Z.setbit (e_sharers e) i)) 0) as [E|]; [|done].
  rewrite count_zero in E by done. specialize (E i).
  rewrite testbit_setbit, Z.eqb_refl in E by lia. done.
Qed.

Lemma entry_removeSharer_spec i e :
  0 <= i < MAX_NUM_SHARERS -> Entry.wf e ->
  exists e', Entry.removeSharer i e = Done e' /\ Entry.wf e' /\ e_address e' = e_address e /\
             e_sharers e' = Z.clearbit (e_sharers e) i.
Proof.
  intros Hi [W S]. unfold Entry.removeSharer, SV.removeSharer.
  rewrite (proj2 (in_range_spec i)) by done. cbn. eexists. split; [done|].
  split; [|done]. pose proof (clearbit_wf (e_sharers e) i ltac:(lia) W) as W'. split; [done|]. cbn.
  assert (SV.countSharers (Z.clearbit (e_sharers e) i) <= SV.countSharers (e_sharers e)).
  { apply count_mono. intros j. rewrite testbit_clearbit by lia. by intros [? _]%andb_true_iff. }
  pose proof (count_nonneg (Z.clearbit (e_sharers e) i)). rewrite S. unfold state_of_count.
  destruct (Z.eqb_spec (SV.countSharers (Z.clearbit (e_sharers e) i)) 0) as [->|]; [done|].
  destruct (Z.eqb_spec (SV.countSharers (Z.clearbit (e_sharers e) i)) 1); [done|].
  destruct (Z.eqb_spec (SV.countSharers (e_sharers e)) 1); [lia|].
  destruct (Z.eqb_spec (SV.countSharers (e_sharers e)) 0); [lia|done].
Qed.

Lemma entry_makeExclusive_spec i e :
  Entry.wf e -> (forall j, Z.testbit (e_sharers e) j = bool_decide (j = i)) ->
  Entry.makeExclusive i e = Done e.
Proof.
  intros [W S] O. assert (T : Z.testbit (e_sharers e) i = true) by (by rewrite O, bool_decide_true).
  unfold Entry.makeExclusive, SV.isSharer.
  rewrite (proj2 (in_range_spec i)) by (by eapply wf_testbit). cbn. rewrite T. cbn.
  assert (C : SV.countSharers (e_sharers e) = 1) by (apply count_one; eauto).
  rewrite C. cbn. rewrite C in S. cbn in S. destruct e; cbn in *. by subst.
Qed.

(** ** What a directory promises the chip-level cache

    [dir_sharers d a] is the set of caches the directory records for the block
    [a], [dir_entry_of d a h] says that the pointer [h] is what [lookup] of [a]
    gives.  Entries of other blocks never change. *)

Definition removes_sharer (t : MemoryMessageType) : bool :=
  match t with
  | Invalidate | ReturnNAck | InvalidateAck | InvUpdateAck => true
  | _ => false
  end.
Definition snoop_reply (t : MemoryMessageType) : bool :=
  match t with
  | Invalidate | ReturnNAck | InvalidateAck | InvUpdateAck
  | ReturnReply | ReturnReplyDirty | DowngradeAck | DownUpdateAck => true
  | _ => false
  end.

(** What the answer to a request does to the sharers of its block. *)
Definition sharers_after (index : Z) (request response : MemoryMessageType) (v : SharingVector)
    : SharingVector :=
  if isEvictType request then Z.clearbit v index
  else if type_eqb request UpgradeReq || type_eqb response NonAllocatingStoreReply then v
  else Z.setbit v index.

Definition only_sharer (i : Z) (v : SharingVector) : Prop :=
  forall j, Z.testbit v j = true -> j = i.

(** When the answer is one the directory can record. *)
Definition recordable (index : Z) (request response : MemoryMessageType) (v : SharingVector) : Prop :=
  if isEvictType request then True
  else if type_eqb request UpgradeReq
  then response = UpgradeReply /\ Z.testbit v index = true /\ only_sharer index v
  else match response with
       | MissReply | FwdReplyOwned | NonAllocatingStoreReply => True
       | MissReplyWritable | MissReplyDirty => only_sharer index v
       | _ => False
       end.

Class DirectoryPromise {D H : Type} (ops : AbstractDirectory D H)
    (prr : Z -> MemoryMessageType -> MemoryMessageType -> option H -> Z -> D -> outcome D) : Type := {
  dir_ok : D -> Prop;
  dir_sharers : D -> Z -> SharingVector;
  dir_entry_of : D -> Z -> option H -> Prop;
  promise_wf : forall d a, dir_ok d -> SV.wf (dir_sharers d a);
  promise_lookup : forall d i a t, dir_ok d -> exists h,
    dir_lookup ops i a t d =
      (dir_sharers d a, state_of_count (SV.countSharers (dir_sharers d a)), h) /\
    dir_entry_of d a h;
  promise_snoopLookup : forall d i a t, dir_ok d -> exists h (valid : bool),
    dir_snoopLookup ops i a t d =
      (dir_sharers d a, state_of_count (SV.countSharers (dir_sharers d a)), h, valid) /\
    dir_entry_of d a h /\ (valid = false -> dir_sharers d a = SV.empty);
  promise_snoop : forall d a h k t,
    dir_ok d -> dir_entry_of d a h -> 0 <= k < MAX_NUM_SHARERS -> snoop_reply t = true ->
    exists d', processSnoopResponse ops k t h a d = Done d' /\ dir_ok d' /\ dir_entry_of d' a h /\
      forall b, dir_sharers d' b =
        if decide (b = a /\ removes_sharer t = true) then Z.clearbit (dir_sharers d a) k
        else dir_sharers d b;
  promise_response : forall d a h i request response,
    dir_ok d -> dir_entry_of d a h -> 0 <= i < MAX_NUM_SHARERS ->
    recordable i request response (dir_sharers d a) ->
    exists d', prr i request response h a d = Done d' /\ dir_ok d' /\
      forall b, dir_sharers d' b =
        if decide (b = a) then sharers_after i request response (dir_sharers d a)
        else dir_sharers d b;
}.

(** ** The infinite directory keeps the promise *)

Module InfSpec.
Definition ok (d : InfiniteDirectory) : Prop :=
  map_Forall (fun a e => Entry.wf e /\ e_address e = a) (theDirectory d).
Definition sharers (d : InfiniteDirectory) (a : Z) : SharingVector :=
  default SV.empty (e_sharers <$> theDirectory d !! a).
Definition entry_of (d : InfiniteDirectory) (a : Z) (h : option Z) : Prop :=
  h = (if theDirectory d !! a then Some a else None).

Lemma sharers_wf d a : ok d -> SV.wf (sharers d a).
Proof.
  intros O. unfold sharers. destruct (theDirectory d !! a) eqn:E; cbn; [|apply wf_empty].
  by destruct (O _ _ E) as [[? _] _].
Qed.

(** A method run on the entry of [a], which exists. *)
Lemma on_entry_spec d a e f e' :
  ok d -> theDirectory d !! a = Some e -> f e = Done e' ->
  Entry.wf e' -> e_address e' = e_address e ->
  exists d', Inf.on_entry a f d = Done d' /\ ok d' /\
    theDirectory d' = <[a := e']> (theDirectory d).
Proof.
  intros O E F W A. unfold Inf.on_entry. rewrite E, F. cbn. eexists. split; [done|].
  split; [|done]. apply map_Forall_insert_2; [|done]. split; [done|].
  rewrite A. by destruct (O _ _ E) as [_ ?].
Qed.

Lemma sharers_insert d d' a e' b :
  theDirectory d' = <[a := e']> (theDirectory d) ->
  sharers d' b = if decide (b = a) then e_sharers e' else sharers d b.
Proof.
  intros E. unfold sharers. rewrite E. case_decide as B.
  - subst. by rewrite lookup_insert_eq.
  - by rewrite lookup_insert_ne.
Qed.

Lemma entry_of_insert d d' a e' h :
  entry_of d a h -> theDirectory d' = <[a := e']> (theDirectory d) ->
  is_Some (theDirectory d !! a) -> entry_of d' a h.
Proof.
  unfold entry_of. intros -> E [e Ee]. rewrite E, lookup_insert_eq. by rewrite Ee.
Qed.

Lemma removeSharer_spec d a h k :
  ok d -> entry_of d a h -> 0 <= k < MAX_NUM_SHARERS ->
  exists d', Inf.removeSharer k h a d = Done d' /\ ok d' /\ entry_of d' a h /\
    forall b, sharers d' b = if decide (b = a) then Z.clearbit (sharers d a) k else sharers d b.
Proof.
  intros O Eh Hk. unfold entry_of in Eh.
  destruct (theDirectory d !! a) as [e|] eqn:E; subst h; cbn.
  - destruct (O _ _ E) as [We Ae]. destruct (entry_removeSharer_spec k e Hk We) as (e' & F & W' & A' & S').
    destruct (on_entry_spec d a e _ e' O E F W' A') as (d' & -> & O' & E').
    eexists; split_and!; [done|done|eapply entry_of_insert; [|done|by eexists]; unfold entry_of; by rewrite E|].
    intros b. rewrite (sharers_insert _ _ _ _ _ E'). unfold sharers at 2. by rewrite E, S'.
  - eexists; split_and!; [done|done|unfold entry_of; by rewrite E|].
    intros b. case_decide as B; [|done]. subst. unfold sharers. rewrite E.
    change (default SV.empty (e_sharers <$> None)) with 0. symmetry. apply Z.bits_inj'. intros n _. by rewrite testbit_clearbit, !Z.bits_0 by lia.
Qed.

Lemma recordSnoop_spec hit d : theDirectory (Inf.recordSnoop hit d) = theDirectory d.
Proof. by destruct hit. Qed.

Lemma ok_ext d d' : theDirectory d = theDirectory d' -> ok d -> ok d'.
Proof. unfold ok. by intros ->. Qed.
Lemma sharers_ext d d' a : theDirectory d = theDirectory d' -> sharers d a = sharers d' a.
Proof. unfold sharers. by intros ->. Qed.
Lemma entry_of_ext d d' a h : theDirectory d = theDirectory d' -> entry_of d a h -> entry_of d' a h.
Proof. unfold entry_of. by intros ->. Qed.

Lemma processSnoopResponse_spec d a h k t :
  ok d -> entry_of d a h -> 0 <= k < MAX_NUM_SHARERS -> snoop_reply t = true ->
  exists d', processSnoopResponse Inf.ops k t h a d = Done d' /\ ok d' /\ entry_of d' a h /\
    forall b, sharers d' b =
      if decide (b = a /\ removes_sharer t = true) then Z.clearbit (sharers d a) k
      else sharers d b.
Proof.
  intros O Eh Hk R.
  assert (Hit : forall hit, removes_sharer t = true ->
    exists d', Inf.removeSharer k h a (Inf.recordSnoop hit d) = Done d' /\ ok d' /\
      entry_of d' a h /\ forall b, sharers d' b =
        if decide (b = a /\ removes_sharer t = true) then Z.clearbit (sharers d a) k
        else sharers d b).
  { intros hit Rm. pose proof (recordSnoop_spec hit d) as E.
    destruct (removeSharer_spec (Inf.recordSnoop hit d) a h k) as (d' & -> & O' & E' & S');
      [by eapply ok_ext|by eapply entry_of_ext|done|].
    eexists; split_and!; [done..|]. intros b. rewrite S', !(sharers_ext _ _ _ E).
    destruct (decide (b = a)); [rewrite decide_True by done|rewrite decide_False by naive_solver]; done. }
  assert (Miss : forall hit, removes_sharer t = false ->
    exists d', Done (Inf.recordSnoop hit d) = Done d' /\ ok d' /\ entry_of d' a h /\
      forall b, sharers d' b =
        if decide (b = a /\ removes_sharer t = true) then Z.clearbit (sharers d a) k
        else sharers d b).
  { intros hit Rm. pose proof (recordSnoop_spec hit d) as E.
    eexists; split_and!; [done|by eapply ok_ext|by eapply entry_of_ext|].
    intros b. rewrite decide_False by (intros [_ ?]; congruence). by apply sharers_ext. }
  destruct t; try discriminate R;
    first [exact (Hit true eq_refl)|exact (Hit false eq_refl)|exact (Miss true eq_refl)].
Qed.

Lemma addSharer_found d a h i :
  ok d -> entry_of d a h -> 0 <= i < MAX_NUM_SHARERS ->
  exists d1 e e', (h = Some a /\ d1 = d \/ h = None /\ d1 = snd (Inf.findOrCreateEntry a d)) /\
    ok d1 /\ theDirectory d1 !! a = Some e /\ (forall b, sharers d1 b = sharers d b) /\
    Entry.addSharer i e = Done e' /\ Entry.wf e' /\ e_address e' = e_address e /\
    e_sharers e' = Z.setbit (sharers d a) i.
Proof.
  intros O Eh Hi. unfold entry_of in Eh.
  destruct (theDirectory d !! a) as [e|] eqn:E; subst h.
  - destruct (O _ _ E) as [We Ae]. destruct (entry_addSharer_spec i e Hi We) as (e' & F & W' & A' & S').
    exists d, e, e'. split_and!; try done; [by left|]. unfold sharers. by rewrite E.
  - destruct (entry_addSharer_spec i (Entry.create a) Hi (entry_create_wf a)) as (e' & F & W' & A' & S').
    exists (snd (Inf.findOrCreateEntry a d)), (Entry.create a), e'.
    unfold Inf.findOrCreateEntry. rewrite E. cbn.
    split_and!; try done; [by right| | | |].
    + apply map_Forall_insert_2; [|done]. split; [apply entry_create_wf|done].
    + by rewrite lookup_insert_eq.
    + intros b. unfold sharers. cbn. destruct (decide (b = a)) as [->|].
      * by rewrite lookup_insert_eq, E.
      * by rewrite lookup_insert_ne.
    + unfold sharers. by rewrite E.
Qed.

Lemma addSharer_spec d a h i :
  ok d -> entry_of d a h -> 0 <= i < MAX_NUM_SHARERS ->
  exists d', Inf.addSharer i h a d = Done d' /\ ok d' /\
    forall b, sharers d' b = if decide (b = a) then Z.setbit (sharers d a) i else sharers d b.
Proof.
  intros O Eh Hi. destruct (addSharer_found d a h i O Eh Hi)
    as (d1 & e & e' & C & O1 & E & S1 & F & W' & A' & S').
  destruct (on_entry_spec d1 a e _ e' O1 E F W' A') as (d' & R & O' & E').
  exists d'. split; [destruct C as [[-> ->]|[-> ->]]; exact R|]. split; [done|].
  intros b. by rewrite (sharers_insert _ _ _ _ _ E'), S', S1.
Qed.

Lemma addExclusiveSharer_spec d a h i :
  ok d -> entry_of d a h -> 0 <= i < MAX_NUM_SHARERS -> only_sharer i (sharers d a) ->
  exists d', Inf.addExclusiveSharer i h a d = Done d' /\ ok d' /\
    forall b, sharers d' b = if decide (b = a) then Z.setbit (sharers d a) i else sharers d b.
Proof.
  intros O Eh Hi Only. destruct (addSharer_found d a h i O Eh Hi)
    as (d1 & e & e' & C & O1 & E & S1 & F & W' & A' & S').
  assert (X : Entry.makeExclusive i e' = Done e').
  { apply entry_makeExclusive_spec; [done|]. intros j. rewrite S', testbit_setbit by lia.
    case_bool_decide as J; [subst; by rewrite Z.eqb_refl|].
    destruct (Z.eqb_spec i j); [lia|]. cbn.
    destruct (Z.testbit (sharers d a) j) eqn:T; [|done]. by apply Only in T. }
  destruct (on_entry_spec d1 a e (fun e => e' ← Entry.addSharer i e; Entry.makeExclusive i e') e')
    as (d' & R & O' & E'); [done|done|by rewrite F|done|done|].
  exists d'. split; [destruct C as [[-> ->]|[-> ->]]; exact R|]. split; [done|].
  intros b. by rewrite (sharers_insert _ _ _ _ _ E'), S', S1.
Qed.

(** An eviction that leaves no sharer drops the entry: the block then reads
    as unshared, as before. *)
Lemma evict_response_spec d a h i request response :
  isEvictType request = true -> ok d -> entry_of d a h -> 0 <= i < MAX_NUM_SHARERS ->
  exists d', Inf.processRequestResponse i request response h a d = Done d' /\ ok d' /\
    forall b, sharers d' b = if decide (b = a) then Z.clearbit (sharers d a) i else sharers d b.
Proof.
  intros Ev O Eh Hi. unfold Inf.processRequestResponse.
  assert (R : abstract_processRequestResponse Inf.ops i request response h a d =
              Inf.removeSharer i h a d) by (by destruct request).
  rewrite R. destruct (removeSharer_spec d a h i O Eh Hi) as (d1 & -> & O1 & E1 & S1).
  cbn. rewrite Ev. cbn. unfold entry_of in E1.
  destruct (theDirectory d1 !! a) as [e|] eqn:E; subst h; [|by eauto].
  rewrite E. case_decide as Z0; [|by eauto]. eexists; split; [done|]. split.
  { by apply map_Forall_delete. }
  intros b. rewrite <-S1. unfold sharers. cbn. destruct (decide (b = a)) as [->|].
  - rewrite lookup_delete_eq, E. cbn. destruct (O1 _ _ E) as [[We Se] _]. rewrite Z0 in Se.
    symmetry in Se. rewrite state_zero in Se by done. symmetry. apply Z.bits_inj'. intros n _.
    rewrite Se. symmetry. apply Z.bits_0.
  - by rewrite lookup_delete_ne.
Qed.

Lemma processRequestResponse_spec d a h i request response :
  ok d -> entry_of d a h -> 0 <= i < MAX_NUM_SHARERS ->
  recordable i request response (sharers d a) ->
  exists d', Inf.processRequestResponse i request response h a d = Done d' /\ ok d' /\
    forall b, sharers d' b =
      if decide (b = a) then sharers_after i request response (sharers d a) else sharers d b.
Proof.
  intros O Eh Hi Rec. unfold recordable in Rec. unfold sharers_after.
  destruct (isEvictType request) eqn:Ev; [by apply evict_response_spec|].
  assert (K : forall o : outcome InfiniteDirectory,
    abstract_processRequestResponse Inf.ops i request response h a d = o ->
    Inf.processRequestResponse i request response h a d = o).
  { intros o <-. unfold Inf.processRequestResponse. rewrite Ev. by destruct (abstract_processRequestResponse _ _ _ _ _ _ _). }
  destruct (type_eqb request UpgradeReq) eqn:Up; cbn [orb].
  - apply type_eqb_eq in Up as ->. destruct Rec as (-> & T & Only).
    exists d. split; [|split; [done|]]; [|intros b; by case_decide; subst].
    apply K. cbn. unfold entry_of in Eh. destruct (theDirectory d !! a) as [e|] eqn:E; subst h; [|done].
    cbn. unfold Inf.on_entry. rewrite E. destruct (O _ _ E) as [We _].
    assert (Es : e_sharers e = sharers d a) by (unfold sharers; by rewrite E).
    rewrite entry_makeExclusive_spec; [|done|].
    + cbn. unfold Inf.set_dir. rewrite insert_id by done. by destruct d.
    + intros j. rewrite Es. case_bool_decide as J; [by subst|].
      destruct (Z.testbit (sharers d a) j) eqn:Tj; [|done]. by apply Only in Tj.
  - assert (R : abstract_processRequestResponse Inf.ops i request response h a d =
                recordResponse Inf.ops i response h a d) by (by destruct request).
    rewrite (K _ R). destruct response; try done;
      first [exact (addSharer_spec d a h i O Eh Hi)
            |exact (addExclusiveSharer_spec d a h i O Eh Hi Rec)|idtac].
    exists d. split; [done|]. split; [done|]. intros b. by case_decide; subst.
Qed.
End InfSpec.

#[export] Instance Inf_promise : DirectoryPromise Inf.ops Inf.processRequestResponse.
Proof.
  refine {| dir_ok := InfSpec.ok; dir_sharers := InfSpec.sharers; dir_entry_of := InfSpec.entry_of |}.
  - exact InfSpec.sharers_wf.
  - intros d i a t O. cbn. unfold Inf.lookup, Inf.findEntry, InfSpec.entry_of, InfSpec.sharers.
    destruct (theDirectory d !! a) as [e|] eqn:E; eexists; (split; [|done]); [|done].
    cbn. by destruct (O _ _ E) as [[_ <-] _].
  - intros d i a t O. cbn. unfold Inf.snoopLookup, Inf.findEntry, InfSpec.entry_of, InfSpec.sharers.
    destruct (theDirectory d !! a) as [e|] eqn:E; cbn.
    + exists (Some a), true. destruct (O _ _ E) as [[_ <-] _]. by split_and!.
    + exists None, false. by split_and!.
  - exact InfSpec.processSnoopResponse_spec.
  - exact InfSpec.processRequestResponse_spec.
Defined.

(** ** Whole-vector operations *)

Section vector_loops.
Context (v : SharingVector).

Lemma setSharers_fold s l w j :
  Forall (fun i => 0 <= i) l ->
  Z.testbit (foldl (fun v i => if Z.testbit s i then Z.setbit v i else Z.clearbit v i) w l) j =
    if decide (j ∈ l) then Z.testbit s j else Z.testbit w j.
Proof.
  revert w. induction l as [|i l IH]; intros w F; cbn.
  { by rewrite decide_False by set_solver. }
  apply Forall_cons in F as [Hi F]. rewrite IH by done.
  destruct (decide (j ∈ l)) as [I|N]; [rewrite decide_True by set_solver; done|].
  destruct (decide (j = i)) as [->|D].
  - rewrite decide_True by set_solver. destruct (Z.testbit s i) eqn:T.
    + by rewrite testbit_setbit, Z.eqb_refl by lia.
    + by rewrite testbit_clearbit, Z.eqb_refl, andb_false_r by lia.
  - rewrite decide_False by set_solver.
    assert (E : (i =? j) = false) by lia. destruct (Z.testbit s i).
    + by rewrite testbit_setbit, E by lia.
    + by rewrite testbit_clearbit, E, andb_true_r by lia.
Qed.

(** [setSharers] copies every bit. *)
Lemma setSharers_id : SV.wf v -> SV.setSharers v = v.
Proof.
  intros W. unfold SV.setSharers. apply Z.bits_inj'. intros j Hj. rewrite setSharers_fold.
  - case_decide as I; [done|]. rewrite Z.bits_0. symmetry. apply not_true_iff_false. intros T.
    apply I, elem_of_indices. by apply (wf_testbit v).
  - apply Forall_forall. intros i Hi. apply elem_of_indices in Hi. lia.
Qed.

Lemma scan_up_spec fuel lhs :
  MAX_NUM_SHARERS - lhs < Z.of_nat fuel ->
  let r := SV.scan_up fuel lhs v in
  lhs <= r /\ (forall j, lhs <= j < r -> j < MAX_NUM_SHARERS -> Z.testbit v j = false) /\
  (r < MAX_NUM_SHARERS -> Z.testbit v r = true).
Proof.
  revert lhs. induction fuel as [|fuel IH]; intros lhs B; cbn zeta.
  { cbn. split_and!; [lia|intros; lia|intros; lia]. }
  cbn [SV.scan_up]. destruct (Z.ltb_spec lhs MAX_NUM_SHARERS) as [L|L].
  - destruct (Z.testbit v lhs) eqn:T; [split_and!; [lia|intros; lia|done]|].
    destruct (IH (lhs + 1)) as (H1 & H2 & H3); [lia|]. split_and!; [lia| |done].
    intros j Hj Hm. destruct (decide (j = lhs)) as [->|]; [done|]. apply H2; lia.
  - split_and!; [lia|intros; lia|intros; lia].
Qed.

Lemma scan_down_spec fuel rhs :
  rhs + 1 < Z.of_nat fuel ->
  let r := SV.scan_down fuel rhs v in
  r <= rhs /\ (forall j, r < j <= rhs -> 0 <= j -> Z.testbit v j = false) /\
  (0 <= r -> Z.testbit v r = true).
Proof.
  revert rhs. induction fuel as [|fuel IH]; intros rhs B; cbn zeta.
  { cbn. split_and!; [lia|intros; lia|intros; lia]. }
  cbn [SV.scan_down]. destruct (Z.leb_spec 0 rhs) as [L|L].
  - destruct (Z.testbit v rhs) eqn:T; [split_and!; [lia|intros; lia|done]|].
    destruct (IH (rhs - 1)) as (H1 & H2 & H3); [lia|]. split_and!; [lia| |done].
    intros j Hj Hm. destruct (decide (j = rhs)) as [->|]; [done|]. apply H2; lia.
  - split_and!; [lia|intros; lia|intros; lia].
Qed.

Lemma getUInt64_loop_spec n ret j :
  (n <= 64)%nat -> 0 <= ret < 2 ^ (64 - Z.of_nat n) -> 0 <= j ->
  Z.testbit (SV.getUInt64_loop n ret v) j =
    if decide (j < Z.of_nat n) then Z.testbit v j else Z.testbit ret (j - Z.of_nat n).
Proof.
  revert ret. induction n as [|n IH]; intros ret Hn Hr Hj; cbn [SV.getUInt64_loop].
  { rewrite decide_False by lia. f_equal. lia. }
  assert (P : 2 ^ (64 - Z.of_nat n) = 2 * 2 ^ (64 - Z.of_nat (S n))).
  { rewrite <-Z.pow_succ_r by lia. f_equal. lia. }
  assert (Le : 2 ^ (64 - Z.of_nat n) <= 2 ^ 64) by (apply Z.pow_le_mono_r; lia).
  assert (Sh : Z.shiftl ret 1 = 2 * ret) by (rewrite Z.shiftl_mul_pow2; lia).
  assert (Mask : Z.land (Z.shiftl ret 1) (Z.ones 64) = 2 * ret).
  { rewrite Z.land_ones, Sh by lia. apply Z.mod_small. lia. }
  rewrite Mask. set (b := if Z.testbit v (Z.of_nat n) then 1 else 0).
  assert (Hb : b = Z.b2z (Z.testbit v (Z.of_nat n))) by (unfold b; by destruct (Z.testbit v (Z.of_nat n))).
  assert (Lor : Z.lor (2 * ret) b = 2 * ret + b).
  { assert (Z.land (2 * ret) b = 0).
    { apply Z.bits_inj'. intros m Hm. rewrite Z.land_spec, Z.bits_0, Hb.
      destruct (decide (m = 0)) as [->|]; [by rewrite Z.testbit_even_0|].
      destruct (Z.testbit v (Z.of_nat n)); cbn [Z.b2z]; [|by rewrite Z.bits_0, andb_false_r].
      by rewrite (Z.bits_above_log2 1), andb_false_r by (cbn; lia). }
    by rewrite <-Z.lxor_lor, <-Z.add_nocarry_lxor. }
  rewrite Lor, IH; [|lia| |done].
  - destruct (decide (j < Z.of_nat n)); [by rewrite decide_True by lia|].
    destruct (decide (j = Z.of_nat n)) as [->|].
    + rewrite decide_True by lia. rewrite Z.sub_diag, Hb. apply Z.testbit_0_r.
    + rewrite decide_False by lia.
      replace (j - Z.of_nat n) with (Z.succ (j - Z.of_nat (S n))) by lia.
      rewrite Hb. apply Z.testbit_succ_r. lia.
  - subst b. destruct (Z.testbit v (Z.of_nat n)); lia.
Qed.
End vector_loops.

(** Asked from an index in range, the answer is a
    sharer other than the index itself at minimal distance (the upper one when
    two are equally near); when there is no other sharer it is the index if
    that shares, and -1 otherwise.  The two scans end within their fuel. *)
Theorem closest_sharer_nearest (v : SharingVector) (index : Z) :
  SV.wf v -> 0 <= index < MAX_NUM_SHARERS ->
  let r := SV.getClosestSharer index v in
  (forall j, Z.testbit v j = true -> j <> index ->
     Z.testbit v r = true /\ r <> index /\ Z.abs (r - index) <= Z.abs (j - index) /\
     (Z.abs (r - index) = Z.abs (j - index) -> j <= r)) /\
  (only_sharer index v -> r = if Z.testbit v index then index else -1).
Proof.
  intros W Hi. cbn zeta. unfold SV.getClosestSharer.
  assert (M : MAX_NUM_SHARERS = 512) by done.
  destruct (scan_up_spec v 513 (index + 1)) as (U1 & U2 & U3); [lia|].
  destruct (scan_down_spec v 513 (index - 1)) as (D1 & D2 & D3); [lia|].
  set (lhs := SV.scan_up 513 (index + 1) v) in *.
  set (rhs := SV.scan_down 513 (index - 1) v) in *.
  assert (J : forall j, Z.testbit v j = true -> j <> index ->
    (index < j -> lhs <= j /\ lhs < MAX_NUM_SHARERS) /\ (j < index -> j <= rhs)).
  { intros j T N. pose proof (wf_testbit v j W T). split; intros L.
    - destruct (decide (lhs <= j)); [lia|]. rewrite U2 in T by lia. done.
    - destruct (decide (j <= rhs)); [lia|]. rewrite D2 in T by lia. done. }
  split.
  - intros j T N. pose proof (wf_testbit v j W T). destruct (J j T N) as [JU JD].
    destruct (Z.leb_spec 0 rhs), (Z.ltb_spec lhs MAX_NUM_SHARERS);
      [destruct (Z.ltb_spec (index - rhs) (lhs - index))|..]; try lia;
      (split; [by auto with lia|]; lia).
  - intros Only.
    assert (~ 0 <= rhs) by (intros L; apply D3, Only in L; lia).
    assert (~ lhs < MAX_NUM_SHARERS) by (intros L; apply U3, Only in L; lia).
    destruct (Z.leb_spec 0 rhs); [lia|]. destruct (Z.ltb_spec lhs MAX_NUM_SHARERS); [lia|].
    by destruct (Z.testbit v index).
Qed.

Lemma closest_sharer_nearest_witness :
  SV.getClosestSharer 7 (Z.setbit (Z.setbit 0 3) 11) = 11 /\
  Z.abs (SV.getClosestSharer 7 (Z.setbit (Z.setbit 0 3) 11) - 7) <= Z.abs (3 - 7).
Proof.
  split; [by vm_compute|].
  apply (closest_sharer_nearest (Z.setbit (Z.setbit 0 3) 11) 7);
    [split; vm_compute; done|split; [done|by vm_compute]|by vm_compute|done].
Defined.

(** The 64-bit image of a sharing vector is the vector modulo
    [2^64]: exact for the first 64 caches, and the sharers above are lost. *)
Theorem getUInt64_truncates (v : SharingVector) :
  0 <= v -> SV.getUInt64 v = v mod 2 ^ 64.
Proof.
  intros Hv. unfold SV.getUInt64. rewrite <-Z.land_ones by lia. apply Z.bits_inj'. intros j Hj.
  rewrite getUInt64_loop_spec by lia. rewrite Z.land_spec. change (Z.of_nat 64) with 64.
  case_decide as L.
  - by rewrite Z.ones_spec_low, andb_true_r by lia.
  - by rewrite Z.ones_spec_high, andb_false_r, Z.bits_0 by lia.
Qed.

Lemma getUInt64_truncates_witness :
  SV.getUInt64 (Z.setbit (Z.setbit 0 70) 5) = Z.setbit (Z.setbit 0 70) 5 mod 2 ^ 64.
Proof. apply (getUInt64_truncates (Z.setbit (Z.setbit 0 70) 5)). vm_compute. done. Defined.

(** ** Checkpoints *)

Section checkpoint.
Definition restore (m h : Z) (l : list (Z * Z)) : InfiniteDirectory :=
  Inf.loadState l (mkInf ∅ m h).

Lemma foldl_cons {A B} (f : A -> B -> A) a x l : foldl f a (x :: l) = foldl f (f a x) l.
Proof. reflexivity. Qed.

Lemma loadState_fold l d :
  NoDup (fst <$> l) ->
  Forall (fun s => SV.wf (snd s)) l -> InfSpec.ok d ->
  (forall s, s ∈ l -> theDirectory d !! fst s = None) ->
  InfSpec.ok (Inf.loadState l d) /\
  forall a, InfSpec.sharers (Inf.loadState l d) a =
    default (InfSpec.sharers d a) (snd <$> find_by fst a l).
Proof.
  revert d. induction l as [|s l IH]; intros d ND F O Fresh; [done|].
  cbn [fmap list_fmap] in ND. apply NoDup_cons in ND as [NI ND]. apply Forall_cons in F as [Ws F].
  set (e := Entry.of_serializer s).
  assert (Ee : e = mkEntry (fst s) (snd s) (state_of_count (SV.countSharers (snd s)))).
  { unfold e, Entry.of_serializer. by rewrite setSharers_id. }
  assert (step : exists d1, Inf.loadState (s :: l) d = Inf.loadState l d1 /\ InfSpec.ok d1 /\
    (forall x, x <> fst s -> theDirectory d1 !! x = theDirectory d !! x) /\
    (forall x, InfSpec.sharers d1 x = if decide (x = fst s) then snd s else InfSpec.sharers d x)).
  { assert (Fs : theDirectory d !! fst s = None) by (apply Fresh, list_elem_of_here).
    exists (Inf.loadEntry d s). split; [unfold Inf.loadState; by rewrite foldl_cons|]. unfold Inf.loadEntry. cbn zeta.
    change (Entry.of_serializer s) with e. rewrite Fs.
    destruct (decide (e_state e = ZeroSharers)) as [Z0|Z0].
    - split_and!; [done|done|]. intros x. case_decide as X; [|done]. subst x.
      rewrite Ee in Z0. cbn in Z0. rewrite state_zero in Z0 by done.
      unfold InfSpec.sharers. rewrite Fs. cbn.
      apply Z.bits_inj'. intros n _. by rewrite Z0, Z.bits_0.
    - split_and!.
      + apply map_Forall_insert_2; [|done]. rewrite Ee. split; [by split|done].
      + intros x X. cbn. by rewrite lookup_insert_ne.
      + intros x. erewrite InfSpec.sharers_insert by reflexivity. by rewrite Ee. }
  destruct step as (d1 & -> & O1 & L1 & S1).
  assert (Ne : forall x, x ∈ l -> fst x <> fst s).
  { intros x I E. apply NI. rewrite <-E. by apply list_elem_of_fmap_2. }
  destruct (IH d1) as [O2 S2]; [done..| |].
  { intros x I. rewrite L1 by (by apply Ne). by apply Fresh, list_elem_of_further. }
  split; [done|]. intros a. rewrite S2, S1. unfold find_by. cbn. case_bool_decide as B.
  - subst a. rewrite decide_True by done. cbn.
    replace (List.find _ l) with (None : option (Z * Z)); [done|].
    symmetry. by apply (find_by_None fst).
  - rewrite decide_False by congruence. done.
Qed.
End checkpoint.

(** C36 (directory checkpoints): a directory saved and loaded into an empty one
    records the same sharers for every block and is well formed. *)
Theorem directory_checkpoint_roundtrip (d : InfiniteDirectory) (m h : Z) :
  InfSpec.ok d ->
  let d' := restore m h (Inf.saveState d) in
  InfSpec.ok d' /\ forall a, InfSpec.sharers d' a = InfSpec.sharers d a.
Proof.
  intros O. cbn zeta. unfold restore, Inf.saveState.
  set (l := (fun p => Entry.getSerializer (snd p)) <$> map_to_list (theDirectory d)).
  assert (El : forall p, p ∈ map_to_list (theDirectory d) ->
    Entry.getSerializer (snd p) = (fst p, e_sharers (snd p)) /\ SV.wf (e_sharers (snd p))).
  { intros [a e] I. apply elem_of_map_to_list in I. destruct (O _ _ I) as [[W _] A]. cbn.
    unfold Entry.getSerializer. by rewrite A. }
  assert (Ef : fst <$> l = fst <$> map_to_list (theDirectory d)).
  { unfold l. rewrite <-list_fmap_compose. apply list_fmap_ext. intros i p Hp.
    apply list_elem_of_lookup_2 in Hp. destruct (El p Hp) as [E _]. unfold compose. by rewrite E. }
  assert (ND : NoDup (fst <$> l)) by (rewrite Ef; apply NoDup_fst_map_to_list).
  destruct (loadState_fold l (mkInf ∅ m h)) as [O' S'].
  - done.
  - apply Forall_forall. intros s Hs. apply list_elem_of_fmap in Hs as (p & -> & Hp).
    destruct (El p Hp) as [-> ?]. done.
  - apply map_Forall_empty.
  - intros s _. apply lookup_empty.
  - split; [done|]. intros a. rewrite S'. change (InfSpec.sharers (mkInf ∅ m h) a) with SV.empty.
    unfold InfSpec.sharers. destruct (theDirectory d !! a) as [e|] eqn:E; cbn.
    + apply elem_of_map_to_list in E.
      rewrite (find_by_elem fst a l (a, e_sharers e)); [done|done| |done].
      apply list_elem_of_fmap. exists (a, e). split; [|done]. by destruct (El _ E) as [-> _].
    + rewrite (proj2 (find_by_None fst a l)); [done|]. rewrite Ef. intros I.
      apply list_elem_of_fmap in I as ([a' e] & -> & I). apply elem_of_map_to_list in I.
      cbn in E. congruence.
Qed.

Definition sample_directory : InfiniteDirectory :=
  mkInf {[ 64 := mkEntry 64 (Z.setbit (Z.setbit 0 3) 130) ManySharers ]} 0 0.

Lemma directory_checkpoint_roundtrip_witness :
  InfSpec.sharers sample_directory 64 = Z.setbit (Z.setbit 0 3) 130 /\
  forall a, InfSpec.sharers (restore 0 0 (Inf.saveState sample_directory)) a =
            InfSpec.sharers sample_directory a.
Proof.
  split; [reflexivity|].
  refine (proj2 (directory_checkpoint_roundtrip sample_directory 0 0 _)).
  apply map_Forall_singleton. split; [|done]. split; [split; vm_compute; done|by vm_compute].
Defined.

(** ** Lists of sharers *)

Lemma seqZ_sorted i n : 0 <= n -> StronglySorted Z.lt (seqZ i n).
Proof.
  intros Hn. revert i. apply (natlike_ind (fun n => forall i, StronglySorted Z.lt (seqZ i n))); [|clear|done].
  - intros i. constructor.
  - intros n Hn IH i. rewrite seqZ_cons by lia. constructor.
    + rewrite Z.pred_succ. apply IH.
    + apply Forall_forall. intros j Hj. apply elem_of_seqZ in Hj. lia.
Qed.

Lemma indices_sorted : StronglySorted Z.lt SV.indices.
Proof. apply seqZ_sorted. done. Qed.

(** [toList] lists exactly the sharers, each once and in
    increasing order; [getFirstSharer] is the least of them, or -1 when there is
    none. *)
Theorem sharer_list_exact (v : SharingVector) :
  SV.wf v ->
  (forall i, i ∈ SV.toList v <-> Z.testbit v i = true) /\
  StronglySorted Z.lt (SV.toList v) /\ NoDup (SV.toList v) /\
  (forall i, Z.testbit v i = true ->
     Z.testbit v (SV.getFirstSharer v) = true /\ SV.getFirstSharer v <= i) /\
  (SV.getFirstSharer v = -1 <-> v = SV.empty).
Proof.
  intros W. assert (In : forall i, i ∈ SV.toList v <-> Z.testbit v i = true)
    by (intros i; by apply elem_of_toList_wf).
  assert (St : StronglySorted Z.lt (SV.toList v))
    by (eapply StronglySorted_filter_impl; [|apply indices_sorted]; done).
  split_and!; [done|done|apply NoDup_toList|..]; unfold SV.getFirstSharer.
  - intros i Ti. apply In in Ti. destruct (SV.toList v) as [|x l] eqn:El; [by apply not_elem_of_nil in Ti|].
    cbn. split; [apply In, list_elem_of_here|]. apply StronglySorted_cons in St as [Fx _].
    apply elem_of_cons in Ti as [->|Ti]; [lia|]. rewrite Forall_forall in Fx. specialize (Fx i Ti). lia.
  - split.
    + intros E. destruct (SV.toList v) as [|x l] eqn:El.
      * apply Z.bits_inj'. intros n _. unfold SV.empty. rewrite Z.bits_0. apply not_true_iff_false.
        intros T. apply In in T. by apply not_elem_of_nil in T.
      * cbn in E. subst x. assert (T : Z.testbit v (-1) = true) by apply In, list_elem_of_here.
        apply wf_testbit in T; [lia|done].
    + intros ->. by vm_compute.
Qed.

Lemma sharer_list_exact_witness :
  SV.toList (Z.setbit (Z.setbit 0 300) 5) = [5; 300] /\ SV.getFirstSharer (Z.setbit (Z.setbit 0 300) 5) <= 300.
Proof.
  split; [by vm_compute|].
  apply (sharer_list_exact (Z.setbit (Z.setbit 0 300) 5)); [split; vm_compute; done|by vm_compute].
Defined.

(** ** Entries under any sequence of operations *)

Inductive EntryOp : Type :=
| OpAdd (index : Z)
| OpRemove (index : Z)
| OpSet (v : SharingVector)
| OpClear
| OpReset (addr : Z)
| OpIntersect (e : DirectoryEntry).

Definition entry_op (o : EntryOp) (e : DirectoryEntry) : outcome DirectoryEntry :=
  match o with
  | OpAdd index => Entry.addSharer index e
  | OpRemove index => Entry.removeSharer index e
  | OpSet v => Done (Entry.setSharers v e)
  | OpClear => Done (Entry.clear e)
  | OpReset addr => Done (Entry.reset addr e)
  | OpIntersect e' => Done (Entry.intersect e e')
  end.

Definition entry_op_ok (o : EntryOp) : Prop :=
  match o with
  | OpAdd index | OpRemove index => 0 <= index < MAX_NUM_SHARERS
  | OpSet v => SV.wf v
  | OpIntersect e => SV.wf (e_sharers e)
  | _ => True
  end.

Fixpoint entry_ops (l : list EntryOp) (e : DirectoryEntry) : outcome DirectoryEntry :=
  match l with
  | [] => Done e
  | o :: l => e ← entry_op o e; entry_ops l e
  end.

Lemma intersect_wf v w : SV.wf v -> SV.wf (SV.intersect v w).
Proof.
  intros W. unfold SV.intersect. apply wf_intro; [apply Z.land_nonneg; left; apply W|].
  intros i. rewrite Z.land_spec. intros [T _]%andb_true_iff. apply wf_testbit in T; [lia|done].
Qed.

Lemma entry_op_wf o e :
  entry_op_ok o -> Entry.wf e -> exists e', entry_op o e = Done e' /\ Entry.wf e'.
Proof.
  intros Ok W. destruct o as [i|i|v| |a|e1]; cbn in *.
  - destruct (entry_addSharer_spec i e Ok W) as (e' & -> & W' & _). eauto.
  - destruct (entry_removeSharer_spec i e Ok W) as (e' & -> & W' & _). eauto.
  - eexists. split; [done|]. by split.
  - eexists. split; [done|]. split; [apply wf_empty|done].
  - eexists. split; [done|]. split; [apply wf_empty|done].
  - eexists. split; [done|]. split; [apply intersect_wf, W|done].
Qed.

(** A directory entry that starts fresh and goes through any
    sequence of additions, removals, replacements, intersections and resets
    has, at the end, a sharing state that says how many sharers its vector has;
    [makeExclusive] then succeeds, changing nothing, exactly for the only
    sharer. *)
Theorem entry_state_in_step (addr index : Z) (l : list EntryOp) :
  Forall entry_op_ok l -> 0 <= index < MAX_NUM_SHARERS ->
  exists e, entry_ops l (Entry.create addr) = Done e /\ SV.wf (e_sharers e) /\
    e_state e = state_of_count (SV.countSharers (e_sharers e)) /\
    (Entry.makeExclusive index e = Done e <->
     Z.testbit (e_sharers e) index = true /\ only_sharer index (e_sharers e)).
Proof.
  intros F Hi. generalize (entry_create_wf addr). generalize (Entry.create addr).
  induction F as [|o l Ok F IH]; intros e W; cbn [entry_ops].
  - exists e. split; [done|]. split; [apply W|]. split; [apply W|]. split.
    + unfold Entry.makeExclusive, SV.isSharer. rewrite (proj2 (in_range_spec index)) by done. cbn.
      destruct (Z.testbit (e_sharers e) index) eqn:T; [|done]. cbn.
      destruct (Z.eqb_spec (SV.countSharers (e_sharers e)) 1) as [C|]; [|done]. intros _. split; [done|].
      apply count_one in C as [i C]; [|apply W]. intros j Tj.
      rewrite C in T, Tj. apply bool_decide_eq_true in T, Tj. congruence.
    + intros [T O]. apply entry_makeExclusive_spec; [done|]. intros j. case_bool_decide as J; [by subst|].
      apply not_true_iff_false. intros Tj. by apply J, O.
  - destruct (entry_op_wf o e Ok W) as (e1 & -> & W1). exact (IH e1 W1).
Qed.

Lemma entry_state_in_step_witness :
  exists e, entry_ops [OpAdd 3; OpAdd 7; OpRemove 3] (Entry.create 64) = Done e /\ e_state e = OneSharer /\
    Entry.makeExclusive 7 e = Done e.
Proof.
  destruct (entry_state_in_step 64 7 [OpAdd 3; OpAdd 7; OpRemove 3]) as (e & E & W & S & X);
    [repeat (apply Forall_cons_2; [cbn; unfold MAX_NUM_SHARERS; lia|]); apply Forall_nil_2|done|].
  assert (Ee : e_sharers e = Z.setbit 0 7).
  { assert (E' := E). vm_compute in E'. injection E' as <-. by vm_compute. }
  exists e. split; [exact E|]. split; [by rewrite S, Ee; vm_compute|].
  apply X. rewrite Ee. split; [by vm_compute|]. intros j. rewrite testbit_setbit, Z.bits_0, orb_false_r by lia.
  rewrite Z.eqb_eq. auto.
Defined.

(** ** The directory against its specification

    The specification is a function from blocks to sets of caches; a step is a
    snoop reply or the answer to a request, each recorded through the entry
    that a lookup of the block has given. *)

Inductive DirStep : Type :=
| SnoopReply (index : Z) (type : MemoryMessageType) (address : Z)
| Answer (index : Z) (request response : MemoryMessageType) (address : Z).

Definition dir_step (s : DirStep) (d : InfiniteDirectory) : outcome InfiniteDirectory :=
  match s with
  | SnoopReply index type address =>
      processSnoopResponse Inf.ops index type (Inf.lookup index address type d).2 address d
  | Answer index request response address =>
      Inf.processRequestResponse index request response (Inf.lookup index address request d).2 address d
  end.

Fixpoint dir_steps (l : list DirStep) (d : InfiniteDirectory) : outcome InfiniteDirectory :=
  match l with
  | [] => Done d
  | s :: l => d ← dir_step s d; dir_steps l d
  end.

Definition spec_step (s : DirStep) (A : Z -> SharingVector) : Z -> SharingVector :=
  match s with
  | SnoopReply index type address => fun b =>
      if decide (b = address /\ removes_sharer type = true) then Z.clearbit (A address) index else A b
  | Answer index request response address => fun b =>
      if decide (b = address) then sharers_after index request response (A address) else A b
  end.

Definition spec_enabled (s : DirStep) (A : Z -> SharingVector) : Prop :=
  match s with
  | SnoopReply index type _ => 0 <= index < MAX_NUM_SHARERS /\ snoop_reply type = true
  | Answer index request response address =>
      0 <= index < MAX_NUM_SHARERS /\ recordable index request response (A address)
  end.

Fixpoint spec_run (l : list DirStep) (A B : Z -> SharingVector) : Prop :=
  match l with
  | [] => forall a, A a = B a
  | s :: l => spec_enabled s A /\ spec_run l (spec_step s A) B
  end.

Lemma lookup_entry_of i a t d : InfSpec.entry_of d a (Inf.lookup i a t d).2.
Proof.
  unfold InfSpec.entry_of, Inf.lookup, Inf.findEntry. by destruct (theDirectory d !! a).
Qed.

Lemma spec_step_ext s A A' : (forall a, A a = A' a) -> forall a, spec_step s A a = spec_step s A' a.
Proof. intros E a. destruct s; cbn; rewrite !E; done. Qed.

Lemma spec_enabled_ext s A A' : (forall a, A a = A' a) -> spec_enabled s A -> spec_enabled s A'.
Proof. intros E. destruct s; cbn; by rewrite ?E. Qed.

Lemma spec_run_ext l A A' B : (forall a, A a = A' a) -> spec_run l A B -> spec_run l A' B.
Proof.
  revert A A'. induction l as [|s l IH]; intros A A' E; cbn; [intros H a; by rewrite <-E|].
  intros [H1 H2]. split; [by eapply spec_enabled_ext|].
  eapply IH; [|exact H2]. by apply spec_step_ext.
Qed.

Lemma dir_step_refines s d :
  InfSpec.ok d -> spec_enabled s (InfSpec.sharers d) ->
  exists d', dir_step s d = Done d' /\ InfSpec.ok d' /\
    forall a, InfSpec.sharers d' a = spec_step s (InfSpec.sharers d) a.
Proof.
  intros O E. destruct s as [i t a|i rq rs a]; cbn in E; destruct E as [Hi E]; unfold dir_step.
  - destruct (InfSpec.processSnoopResponse_spec d a (Inf.lookup i a t d).2 i t) as (d' & Ed & O' & _ & S);
      [done|apply lookup_entry_of|done|done|]. by exists d'.
  - destruct (InfSpec.processRequestResponse_spec d a (Inf.lookup i a rq d).2 i rq rs) as (d' & Ed & O' & S);
      [done|apply lookup_entry_of|done|done|]. by exists d'.
Qed.

(** C20 (the directory refines sets of sharers): started from any well-formed
    directory, every sequence of snoop replies and request answers that the
    specification allows runs without a failing assertion and ends in a
    well-formed directory that records exactly the sets the specification
    computes. *)
Theorem directory_refines_sets (l : list DirStep) (d : InfiniteDirectory) (B : Z -> SharingVector) :
  InfSpec.ok d -> spec_run l (InfSpec.sharers d) B ->
  exists d', dir_steps l d = Done d' /\ InfSpec.ok d' /\ forall a, InfSpec.sharers d' a = B a.
Proof.
  revert d. induction l as [|s l IH]; intros d O R; cbn [dir_steps]; [by exists d|].
  destruct R as [En R]. destruct (dir_step_refines s d O En) as (d1 & -> & O1 & S1).
  apply (IH d1 O1). eapply spec_run_ext; [|exact R]. intros a. by rewrite S1.
Qed.

Lemma directory_refines_sets_witness :
  exists d', dir_steps [Answer 2 ReadReq MissReplyWritable 64; SnoopReply 2 ReturnReply 64;
                        Answer 5 ReadReq MissReply 64; Answer 2 EvictClean MissReply 64] (mkInf ∅ 0 0) = Done d' /\
    InfSpec.sharers d' 64 = Z.setbit 0 5.
Proof.
  set (l := [Answer 2 ReadReq MissReplyWritable 64; SnoopReply 2 ReturnReply 64;
             Answer 5 ReadReq MissReply 64; Answer 2 EvictClean MissReply 64]).
  destruct (directory_refines_sets l (mkInf ∅ 0 0)
    (foldl (fun A s => spec_step s A) (InfSpec.sharers (mkInf ∅ 0 0)) l)) as (d' & E & _ & S).
  - apply map_Forall_empty.
  - unfold l. cbn [spec_run foldl spec_enabled recordable isEvictType type_eqb].
    split_and!; unfold MAX_NUM_SHARERS; try lia; try done.
    intros j T. by rewrite Z.bits_0 in T.
  - exists d'. split; [exact E|]. rewrite S. by vm_compute.
Defined.
