(* ===== verification/Coherence.v ===== *)
(** * The coherence contract

    What the levels of the functional memory hierarchy promise each other,
    without their tag arrays, messages and statistics: a [View] is the state
    that every first-level cache and the chip-level cache hold for every block,
    with the sharers the directory records.  A block is [ok_block] when the
    directory covers the copies above it and a writable copy is the only one.
    While the chip-level cache has answered a request and the requesting cache
    has not yet stored the answer, the block is [granted]. *)

From S2P Require Import Prelude Messages StdCache Directory.
From stdpp Require Import base list.
From Stdlib Require Import ZArith Lia.

Local Open Scope Z_scope.

Record View : Type := mkView {
  L1 : Z -> Z -> CoherenceState_t;
  L2 : Z -> CoherenceState_t;
  SH : Z -> SharingVector;
}.

(** The states InclusiveMESI uses. *)
Definition mesi (s : CoherenceState_t) : bool :=
  match s with kModified | kExclusive | kShared | kInvalid => true | _ => false end.

Definition writable (s : CoherenceState_t) : bool :=
  match s with kModified | kExclusive => true | _ => false end.

Definition exclusive_below (s : CoherenceState_t) : bool :=
  match s with kExclusive | kInvalid => true | _ => false end.

(** [n] is the number of first-level caches, by directory index. *)
Record ok_block (n : Z) (V : View) (a : Z) : Prop := {
  ok_l1 : forall k, 0 <= k < n -> mesi (L1 V k a) = true;
  ok_l2 : mesi (L2 V a) = true;
  ok_wf : SV.wf (SH V a);
  ok_range : forall k, Z.testbit (SH V a) k = true -> 0 <= k < n;
  ok_dir : forall k, 0 <= k < n -> L1 V k a <> kInvalid -> Z.testbit (SH V a) k = true;
  ok_excl : forall k, 0 <= k < n -> writable (L1 V k a) = true ->
    only_sharer k (SH V a) /\ exclusive_below (L2 V a) = true;
}.

Record granted (n : Z) (V : View) (k a : Z) (excl : bool) : Prop := {
  g_l1 : forall j, 0 <= j < n -> j <> k -> mesi (L1 V j a) = true /\ writable (L1 V j a) = false;
  g_l2 : mesi (L2 V a) = true;
  g_wf : SV.wf (SH V a);
  g_range : forall j, Z.testbit (SH V a) j = true -> 0 <= j < n;
  g_dir : forall j, 0 <= j < n -> j <> k -> L1 V j a <> kInvalid -> Z.testbit (SH V a) j = true;
  g_own : Z.testbit (SH V a) k = true;
  g_excl : excl = true -> only_sharer k (SH V a) /\ exclusive_below (L2 V a) = true;
}.

(** Outside of the block [a]: the caches above and the directory are as before,
    and the chip-level cache may have dropped blocks. *)
Definition frame (n : Z) (a : Z) (V V' : View) : Prop :=
  forall b, b <> a ->
    (forall j, 0 <= j < n -> L1 V' j b = L1 V j b) /\ SH V' b = SH V b /\
    (L2 V' b = L2 V b \/ L2 V' b = kInvalid).

(** Two views that agree on the caches above and on the directory at block
    [b], the second with the chip-level copy possibly dropped. *)
Definition same_at (n : Z) (b : Z) (V V' : View) : Prop :=
  (forall j, 0 <= j < n -> L1 V' j b = L1 V j b) /\ SH V' b = SH V b /\
  (L2 V' b = L2 V b \/ L2 V' b = kInvalid).

Section contract.
Context (n : Z).

Lemma frame_same_at a b V V' : frame n a V V' -> b <> a -> same_at n b V V'.
Proof. intros F N. exact (F b N). Qed.

Lemma same_at_trans b V V1 V2 : same_at n b V V1 -> same_at n b V1 V2 -> same_at n b V V2.
Proof.
  intros (A1 & B1 & C1) (A2 & B2 & C2). split_and!.
  - intros j Hj. by rewrite A2, A1.
  - congruence.
  - destruct C2 as [C2|C2]; rewrite C2; naive_solver.
Qed.

Lemma frame_trans a V V1 V2 : frame n a V V1 -> frame n a V1 V2 -> frame n a V V2.
Proof. intros F1 F2 b N. exact (same_at_trans b V V1 V2 (F1 b N) (F2 b N)). Qed.

Lemma frame_refl a V : frame n a V V.
Proof. intros b N. split_and!; auto. Qed.

(** Dropping the chip-level copy keeps a block in order. *)
Lemma ok_block_same a V V' : ok_block n V a -> same_at n a V V' -> ok_block n V' a.
Proof.
  intros [H1 H2 H3 H4 H5 H6] (A & B & C). split; rewrite ?B; try done.
  - intros k Hk. rewrite A by done. auto.
  - by destruct C as [->| ->].
  - intros k Hk. rewrite A by done. auto.
  - intros k Hk. rewrite A by done. intros Wk. destruct (H6 k Hk Wk) as [O E].
    split; [done|]. by destruct C as [->| ->].
Qed.

Lemma granted_same k a V V' excl :
  granted n V k a excl ->
  (forall j, 0 <= j < n -> j <> k -> L1 V' j a = L1 V j a) -> SH V' a = SH V a ->
  (L2 V' a = L2 V a \/ L2 V' a = kInvalid) -> granted n V' k a excl.
Proof.
  intros [H1 H2 H3 H4 H5 H6 H7] A B C. split; rewrite ?B; try done.
  - intros j Hj N. rewrite A by done. auto.
  - by destruct C as [->| ->].
  - intros j Hj N. rewrite A by done. auto.
  - intros X. destruct (H7 X) as [O E]. split; [done|]. by destruct C as [->| ->].
Qed.

(** An exclusive grant leaves no other copy above. *)
Lemma granted_alone k a V :
  granted n V k a true -> forall j, 0 <= j < n -> j <> k -> L1 V j a = kInvalid.
Proof.
  intros [H1 H2 H3 H4 H5 H6 H7] j Hj N.
  destruct (decide (L1 V j a = kInvalid)) as [|I]; [done|].
  destruct (H7 eq_refl) as [O _]. by apply H5, O in I.
Qed.

(** Storing the granted block ends the request. *)
Lemma granted_stored k a V V' excl st :
  granted n V k a excl -> 0 <= k < n -> mesi st = true -> (writable st = true -> excl = true) ->
  L1 V' k a = st -> (forall j, 0 <= j < n -> j <> k -> L1 V' j a = L1 V j a) ->
  SH V' a = SH V a -> (L2 V' a = L2 V a \/ L2 V' a = kInvalid) -> ok_block n V' a.
Proof.
  intros G Hk Ms Wr Own Oth B C.
  apply (granted_same k a V V' excl) in G; [|done..]. destruct G as [H1 H2 H3 H4 H5 H6 H7].
  split; [| done | done | done | |].
  - intros j Hj. destruct (decide (j = k)) as [->|N]; [by rewrite Own|]. by apply H1.
  - intros j Hj V0. destruct (decide (j = k)) as [->|N]; [done|]. by apply H5.
  - intros j Hj Wj. destruct (decide (j = k)) as [->|N].
    + rewrite Own in Wj. auto.
    + destruct (H1 j Hj N) as [_ Q]. congruence.
Qed.

(** A cache that lowers its own copy, or writes a block it may write. *)
Lemma ok_own_change k a V V' :
  ok_block n V a -> 0 <= k < n -> mesi (L1 V' k a) = true ->
  (L1 V' k a <> kInvalid -> L1 V k a <> kInvalid) ->
  (writable (L1 V' k a) = true -> writable (L1 V k a) = true) ->
  (forall j, 0 <= j < n -> j <> k -> L1 V' j a = L1 V j a) ->
  SH V' a = SH V a -> L2 V' a = L2 V a -> ok_block n V' a.
Proof.
  intros [H1 H2 H3 H4 H5 H6] Hk Ms In Wr Oth B C. split; rewrite ?B, ?C; try done.
  - intros j Hj. destruct (decide (j = k)) as [->|N]; [done|]. rewrite Oth by done. auto.
  - intros j Hj. destruct (decide (j = k)) as [->|N]; [auto|]. rewrite Oth by done. auto.
  - intros j Hj. destruct (decide (j = k)) as [->|N]; [auto|]. rewrite Oth by done. auto.
Qed.

(** Single writer, multiple readers, at the level of the view. *)
Lemma ok_swmr V a j k :
  ok_block n V a -> 0 <= j < n -> 0 <= k < n -> j <> k ->
  writable (L1 V k a) = true -> L1 V j a = kInvalid.
Proof.
  intros O Hj Hk N Wk. destruct (decide (L1 V j a = kInvalid)) as [|I]; [done|].
  apply (ok_dir _ _ _ O) in I; [|done]. apply (ok_excl _ _ _ O) in Wk as [On _]; [|done].
  by apply On in I.
Qed.
End contract.

Definition all_ok (n : Z) (V : View) : Prop := forall a, ok_block n V a.

Definition set_l1 (k a : Z) (st : CoherenceState_t) (V : View) : View :=
  mkView (fun j b => if decide (j = k /\ b = a) then st else L1 V j b) (L2 V) (SH V).

(** The block is in order once cache [k] has dropped its copy. *)
Definition released (n : Z) (V : View) (k a : Z) : Prop := ok_block n (set_l1 k a kInvalid V) a.

Lemma released_dropped n V V' k a :
  released n V k a -> L1 V' k a = kInvalid ->
  (forall j, 0 <= j < n -> j <> k -> L1 V' j a = L1 V j a) -> SH V' a = SH V a ->
  (L2 V' a = L2 V a \/ L2 V' a = kInvalid) -> ok_block n V' a.
Proof.
  intros R E O B C. apply (ok_block_same n a _ _ R). split; [|done]. intros j Hj. cbn.
  case_decide as D; [by destruct D as [-> _]|]. destruct (decide (j = k)); [naive_solver|auto].
Qed.

Lemma ok_released n V k a : 0 <= k < n -> ok_block n V a -> released n V k a.
Proof.
  intros Hk O. apply (ok_own_change n k a V); cbn; try done.
  - by rewrite decide_True.
  - by rewrite decide_True.
  - by rewrite decide_True.
  - intros j Hj N. by rewrite decide_False by naive_solver.
Qed.

(** ** Requests of a first-level cache and their answers *)

(** The state the requesting cache must hold when it sends a request for a
    copy, and what an answer grants: with [excl] the block may be written. *)
Definition may_ask (t : MemoryMessageType) (own : CoherenceState_t) : Prop :=
  match t with
  | ReadReq | FetchReq | WriteReq => own = kInvalid
  | UpgradeReq => own = kShared
  | _ => False
  end.

Definition answers (t reply : MemoryMessageType) (excl : bool) : Prop :=
  match t with
  | ReadReq => reply = MissReply /\ excl = false \/
               (reply = MissReplyWritable \/ reply = MissReplyDirty) /\ excl = true
  | FetchReq => reply = MissReply
  | WriteReq => (reply = MissReply \/ reply = MissReplyWritable \/ reply = MissReplyDirty) /\ excl = true
  | UpgradeReq => reply = UpgradeReply /\ excl = true
  | _ => False
  end.

(** The notice for a block that leaves in a given state. *)
Definition evict_notice (t : MemoryMessageType) (own : CoherenceState_t) : Prop :=
  match own with
  | kModified => t = EvictDirty
  | kExclusive => t = EvictWritable
  | kShared => t = EvictClean
  | _ => False
  end.

Definition request_type (t : MemoryMessageType) : bool :=
  match t with ReadReq | FetchReq | WriteReq | UpgradeReq => true | _ => false end.

(** ** Snoops of a first-level cache

    The state a MESI cache without caches above it moves to, and its answer. *)

Definition snoop_answer (s : CoherenceState_t) (t : MemoryMessageType)
    : CoherenceState_t * MemoryMessageType :=
  match t, s with
  | ReturnReq, kModified => (kShared, ReturnReplyDirty)
  | ReturnReq, (kExclusive | kShared) => (kShared, ReturnReply)
  | ReturnReq, _ => (kInvalid, ReturnNAck)
  | Invalidate, kModified => (kInvalid, InvUpdateAck)
  | Invalidate, (kExclusive | kShared) => (kInvalid, InvalidateAck)
  | Invalidate, _ => (kInvalid, Invalidate)
  | Downgrade, kModified => (kShared, DownUpdateAck)
  | Downgrade, (kExclusive | kShared) => (kShared, DowngradeAck)
  | _, _ => (kInvalid, DowngradeAck)
  end.

Definition snoop_request (t : MemoryMessageType) : bool :=
  match t with ReturnReq | Invalidate | Downgrade => true | _ => false end.

Definition snoop_class (t reply : MemoryMessageType) : bool :=
  match t with
  | Invalidate => match reply with Invalidate | InvalidateAck | InvUpdateAck => true | _ => false end
  | ReturnReq => match reply with ReturnReply | ReturnReplyDirty | ReturnNAck => true | _ => false end
  | _ => false
  end.

(** The answer of a cache that held the block modified. *)
Definition dirty_reply (t : MemoryMessageType) : MemoryMessageType :=
  match t with Invalidate => InvUpdateAck | _ => ReturnReplyDirty end.
