(* ===== verification/CoherenceProtocol.v ===== *)
(** * Coherence protocols of the functional caches

    components/FastCache/CoherenceProtocol.hpp with its two protocols,
    InclusiveMESI.hpp and InclusiveMOESI.hpp.  A protocol is a table from a
    state and a request to an action, and one from a state and a snoop to a
    snoop action.  The actions are C++ templates; each specialisation is a case
    of [doCoherenceAction] or [SnoopAction], and the template that is not
    specialised, which asserts, is their default case.  A message travels by
    reference: an action returns what it leaves in it. *)

From S2P Require Import Prelude Messages StdCache.
From stdpp Require Import base gmap sets list strings.
From Stdlib Require Import ZArith Lia.

Local Open Scope Z_scope.

Inductive access_t : Set :=
  | kReadAccess | kWriteAccess | kFetchAccess | kUpgrade | kEvictClean | kEvictWritable
  | kEvictDirty | kStoreAccess | kNAWAccess | kUnknownAccess.

#[export] Instance access_eq_dec : EqDecision access_t.
Proof. solve_decision. Defined.

Definition Short2Req (r : access_t) : string :=
  match r with
  | kReadAccess | kWriteAccess => "Write"
  | kFetchAccess => "Fetch"
  | kUpgrade => "Upgrade"
  | kEvictClean => "EvictClean"
  | kEvictWritable => "EvictWritable"
  | kEvictDirty => "EvictDirty"
  | kStoreAccess => "Store"
  | kNAWAccess => "NonAllocateWrite"
  | kUnknownAccess => "Unknown"
  end.

Definition message2access (type : MemoryMessageType) : outcome access_t :=
  match type with
  | ReadReq => Done kReadAccess
  | WriteReq => Done kWriteAccess
  | FetchReq => Done kFetchAccess
  | UpgradeReq => Done kUpgrade
  | EvictClean => Done kEvictClean
  | EvictWritable => Done kEvictWritable
  | EvictDirty => Done kEvictDirty
  | LoadReq => Done kReadAccess
  | RMWReq | CmpxReq | StoreReq => Done kStoreAccess
  | NonAllocatingStoreReq => Done kNAWAccess
  | StorePrefetchReq | FlushReq | WriteAllocate | UpgradeAllocate | Flush =>
      Assert "Unexpected memory message type"
  | LoadReply | StoreReply | StorePrefetchReply | FetchReply | RMWReply | CmpxReply | MissReply |
  MissReplyWritable | MissReplyDirty | UpgradeReply => Assert "Asked to map Reply type"
  | Invalidate | Downgrade | Probe | DownProbe | ReturnReq =>
      Assert "Asked to map Backside request type"
  | InvalidateAck | InvUpdateAck | DowngradeAck | DownUpdateAck | ProbedNotPresent | ProbedClean |
  ProbedWritable | ProbedDirty | DownProbePresent | DownProbeNotPresent | ReturnReply =>
      Assert "Asked to map Backside response type"
  | StreamFetch | PrefetchReadNoAllocReq | PrefetchReadAllocReq | PrefetchInsert |
  PrefetchInsertWritable | PrefetchReadReply | PrefetchWritableReply | PrefetchDirtyReply |
  PrefetchReadRedundant | SVBClean => Assert "Asked to map Special Request/Response type"
  | _ => Assert "Asked to map unknown type"
  end.

(** ** Template parameters of the actions *)

Inductive SendCode : Set :=
  | SendNone | SendUpgrade | SendWrite | SendRead | SendFetch | SendNAW | SendPOISON.
Inductive AllocCode : Set := NoAllocate | Allocate | AllocPOISON.
Inductive StateCode : Set :=
  | SameState | M_State | O_State | E_State | S_State | I_State | DependState | StatePOISON.
Inductive OrderCode : Set := UpdateLRU | NoUpdateLRU | OrderPOISON.
Inductive ResponseCode : Set :=
  | FillWritable | FillValid | FillDepend | FillDirty | NoResponse | ResponsePOISON.
Inductive SnoopCode : Set := DoSnoop | NoSnoop | SnoopPOISON.
Inductive SnoopResp : Set := Resp (t : MemoryMessageType) | SnoopDepend | RespPOISON.

Record CoherenceAction : Set := mkAction {
  a_send : SendCode; a_alloc : AllocCode; a_state : StateCode; a_order : OrderCode;
  a_response : ResponseCode;
}.
Definition POISON_ACTION : CoherenceAction :=
  mkAction SendPOISON AllocPOISON StatePOISON OrderPOISON ResponsePOISON.

Record SnoopActionCode : Set := mkSnoop {
  s_resp : SnoopResp; s_snoop : SnoopCode; s_state : StateCode; s_mru : bool; s_lru : bool;
}.

(** A protocol object: the two maps, with the statistic each entry counts, and
    what [evict] answers for a block, given whether a cache above it held the
    block dirty. *)
Record CoherenceProtocol : Type := mkProtocol {
  coherence_map : list ((CoherenceState_t * access_t) * (CoherenceAction * string));
  snoop_map : list ((CoherenceState_t * MemoryMessageType) * (SnoopActionCode * string));
  protocol_evict : CoherenceState_t -> bool -> MemoryMessageType;
}.

(** [std::map::find] *)
Definition assoc_find {K V} `{EqDecision K} (k : K) (l : list (K * V)) : option V :=
  snd <$> find_by fst k l.

Definition getCoherenceAction (p : CoherenceProtocol) (s : CoherenceState_t) (a : access_t)
    : outcome (CoherenceAction * string) :=
  match assoc_find (s, a) (coherence_map p) with
  | Some r => Done r
  | None => Assert "Invalid Coherence State+Request Pair"
  end.

Definition getSnoopAction (p : CoherenceProtocol) (s : CoherenceState_t) (t : MemoryMessageType)
    : outcome (SnoopActionCode * string) :=
  match assoc_find (s, t) (snoop_map p) with
  | Some r => Done r
  | None => Assert "Invalid Snoop State+Request Pair"
  end.

(** ** Actions *)

Section actions.
Context {W : Type} (cell : Slot W StdCache).
Context (forwardMessage continueSnoop : MemoryMessage -> M W MemoryMessage).
Context (evict : Z -> CoherenceState_t -> M W ()).

Definition lookup_updateLRU (lr : LookupResult) : M W () := update cell (update_lru lr).
Definition lookup_changeState (lr : LookupResult) (st : CoherenceState_t) (mru lru : bool)
    : M W () := update cell (updateState lr st mru lru).
Definition lookup_allocate (lr : LookupResult) (st : CoherenceState_t) : M W () :=
  allocate cell evict lr st.

(** What the read action makes of the response to its [ReadReq]. *)
Definition read_fill (is_load : bool) (message : MemoryMessage)
    : outcome (CoherenceState_t * MemoryMessage) :=
  match theType message with
  | MissReply => Done (kShared, message)
  | MissReplyWritable => Done (kExclusive, message)
  | MissReplyDirty => Done (if is_load then kModified else kExclusive, message)
  | FwdReplyOwned => Done (kOwned, set_type MissReply message)
  | _ => Assert "Unexpected response to ReadReq"
  end.

Definition doCoherenceAction (act : CoherenceAction) (lr : LookupResult) (message : MemoryMessage)
    : M W MemoryMessage :=
  match act with
  | mkAction SendNone NoAllocate SameState NoUpdateLRU NoResponse => mret message
  | mkAction SendNone NoAllocate SameState UpdateLRU FillWritable =>
      lookup_updateLRU lr;; mret (set_type MissReplyWritable message)
  | mkAction SendNone NoAllocate DependState UpdateLRU FillDirty =>
      (if type_eqb (theType message) LoadReq then lookup_updateLRU lr
       else lookup_changeState lr kExclusive true false);;
      mret (set_type MissReplyDirty message)
  | mkAction SendNone NoAllocate SameState UpdateLRU FillDirty =>
      lookup_updateLRU lr;; mret (set_type MissReplyDirty message)
  | mkAction SendNone NoAllocate E_State UpdateLRU FillDirty =>
      lookup_changeState lr kExclusive true false;; mret (set_type MissReplyDirty message)
  | mkAction SendNone NoAllocate SameState UpdateLRU FillValid =>
      lookup_updateLRU lr;; mret (set_type MissReply message)
  | mkAction SendNone NoAllocate M_State UpdateLRU FillWritable =>
      lookup_changeState lr kModified true false;; mret (set_type MissReplyWritable message)
  | mkAction SendNone NoAllocate SameState UpdateLRU NoResponse =>
      lookup_updateLRU lr;; mret message
  | mkAction SendUpgrade NoAllocate M_State UpdateLRU FillWritable =>
      message ← forwardMessage (set_type UpgradeReq message);
      lookup_changeState lr kModified true false;; mret (set_type MissReplyWritable message)
  | mkAction SendUpgrade NoAllocate E_State UpdateLRU FillWritable =>
      message ← forwardMessage (set_type UpgradeReq message);
      lookup_changeState lr kExclusive true false;; mret (set_type MissReplyWritable message)
  | mkAction SendNone NoAllocate M_State UpdateLRU NoResponse =>
      lookup_changeState lr kModified true false;; mret message
  | mkAction SendNone NoAllocate E_State UpdateLRU NoResponse =>
      lookup_changeState lr kExclusive true false;; mret message
  | mkAction SendUpgrade NoAllocate M_State UpdateLRU NoResponse =>
      message ← forwardMessage (set_type UpgradeReq message);
      lookup_changeState lr kModified true false;; mret message
  | mkAction SendUpgrade NoAllocate E_State UpdateLRU NoResponse =>
      message ← forwardMessage (set_type UpgradeReq message);
      lookup_changeState lr kExclusive true false;; mret message
  | mkAction SendRead Allocate DependState UpdateLRU FillDepend =>
      let is_load := type_eqb (theType message) LoadReq in
      message ← forwardMessage (set_type ReadReq message);
      r ← lift (read_fill is_load message);
      lookup_allocate lr (fst r);; mret (snd r)
  | mkAction SendWrite Allocate M_State UpdateLRU FillDepend =>
      message ← forwardMessage (set_type WriteReq message);
      lookup_allocate lr kModified;; mret message
  | mkAction SendWrite Allocate E_State UpdateLRU FillDepend =>
      message ← forwardMessage (set_type WriteReq message);
      lookup_allocate lr kExclusive;; mret message
  | mkAction SendFetch Allocate S_State UpdateLRU FillValid =>
      message ← forwardMessage (set_type FetchReq message);
      lookup_allocate lr kShared;; mret (set_type MissReply message)
  | mkAction SendFetch Allocate DependState UpdateLRU FillValid =>
      message ← forwardMessage (set_type FetchReq message);
      lookup_allocate lr (if type_eqb (theType message) FwdReplyOwned then kOwned else kShared);;
      mret (set_type MissReply message)
  | mkAction SendNAW NoAllocate SameState NoUpdateLRU FillDepend => forwardMessage message
  | _ => dbg_fail "Invalid Request+State combination"
  end.

Definition SnoopAction (act : SnoopActionCode) (lr : LookupResult) (message : MemoryMessage)
    : M W MemoryMessage :=
  match act with
  | mkSnoop (Resp r) NoSnoop SameState false false => mret (set_type r message)
  | mkSnoop (Resp r) NoSnoop S_State mru lru =>
      lookup_changeState lr kShared mru lru;; mret (set_type r message)
  | mkSnoop (Resp r) DoSnoop S_State mru lru =>
      message ← continueSnoop message;
      lookup_changeState lr kShared mru lru;; mret (set_type r message)
  | mkSnoop (Resp r) DoSnoop I_State mru lru =>
      message ← continueSnoop message;
      lookup_changeState lr kInvalid mru lru;; mret (set_type r message)
  | mkSnoop (Resp r) DoSnoop O_State mru lru =>
      message ← continueSnoop message;
      lookup_changeState lr kOwned mru lru;; mret (set_type r message)
  | mkSnoop SnoopDepend DoSnoop I_State mru lru =>
      message ← continueSnoop message;
      lookup_changeState lr kInvalid mru lru;;
      mret (if type_eqb (theType message) Invalidate then set_type InvalidateAck message
            else message)
  | mkSnoop SnoopDepend DoSnoop S_State mru lru =>
      message ← continueSnoop message;
      lookup_changeState lr kShared mru lru;;
      mret (if type_eqb (theType message) Downgrade then set_type DowngradeAck message
            else message)
  | mkSnoop SnoopDepend DoSnoop DependState mru lru =>
      message ← continueSnoop message;
      if type_eqb (theType message) DownUpdateAck then
        lookup_changeState lr kOwned mru lru;; mret message
      else
        lookup_changeState lr kShared mru lru;; mret (set_type DowngradeAck message)
  | mkSnoop (Resp ReturnReply) DoSnoop DependState mru lru =>
      message ← continueSnoop (set_type Downgrade message);
      lookup_changeState lr
        (if type_eqb (theType message) DownUpdateAck then kOwned else kShared) mru lru;;
      mret (set_type ReturnReply message)
  | _ => dbg_fail "Invalid SnoopRequest+State combination"
  end.
End actions.

(** ** InclusiveMESI *)

Definition MESI_requests (using_traces : bool)
    : list ((CoherenceState_t * access_t) * (CoherenceAction * string)) :=
  [((kModified, kReadAccess),
         (mkAction SendNone NoAllocate DependState UpdateLRU FillDirty, "HitReadModified"));
   ((kModified, kWriteAccess),
         (mkAction SendNone NoAllocate E_State UpdateLRU FillDirty, "HitWriteModified"));
   ((kModified, kStoreAccess),
         (mkAction SendNone NoAllocate SameState UpdateLRU FillDirty, "HitWriteModified"));
   ((kModified, kNAWAccess),
         (mkAction SendNone NoAllocate SameState UpdateLRU FillDirty, "HitNAWModified"));
   ((kModified, kFetchAccess),
         (mkAction SendNone NoAllocate SameState UpdateLRU FillValid, "HitFetchModified"));
   ((kModified, kUpgrade),
         (mkAction SendNone NoAllocate E_State UpdateLRU FillDirty, "HitUpgradeModified"));
   ((kModified, kEvictClean),
         (mkAction SendNone NoAllocate SameState UpdateLRU NoResponse, "HitEvictModified"));
   ((kModified, kEvictWritable), (POISON_ACTION, "HitEvictWModified"));
   ((kModified, kEvictDirty), (POISON_ACTION, "HitEvictDModified"));
   ((kExclusive, kReadAccess),
         (mkAction SendNone NoAllocate SameState UpdateLRU FillValid, "HitReadExclusive"));
   ((kExclusive, kWriteAccess),
         (mkAction SendNone NoAllocate SameState UpdateLRU FillWritable, "HitWriteExclusive"));
   ((kExclusive, kStoreAccess),
         (mkAction SendNone NoAllocate M_State UpdateLRU FillWritable, "HitWriteExclusive"));
   ((kExclusive, kNAWAccess),
         (mkAction SendNone NoAllocate M_State UpdateLRU FillWritable, "HitNAWExclusive"));
   ((kExclusive, kFetchAccess),
         (mkAction SendNone NoAllocate SameState UpdateLRU FillValid, "HitFetchExclusive"));
   ((kExclusive, kUpgrade),
         (mkAction SendNone NoAllocate SameState UpdateLRU FillWritable, "HitUpgradeExclusive"));
   ((kExclusive, kEvictClean),
         (mkAction SendNone NoAllocate SameState UpdateLRU NoResponse, "HitEvictExclusive"));
   ((kExclusive, kEvictWritable),
         (mkAction SendNone NoAllocate SameState UpdateLRU NoResponse, "HitEvictWExclusive"));
   ((kExclusive, kEvictDirty),
         (mkAction SendNone NoAllocate M_State UpdateLRU NoResponse, "HitEvictDExclusive"));
   ((kShared, kReadAccess),
         (mkAction SendNone NoAllocate SameState UpdateLRU FillValid, "HitReadShared"));
   ((kShared, kWriteAccess),
         (mkAction SendUpgrade NoAllocate E_State UpdateLRU FillWritable, "MissWriteShared"));
   ((kShared, kStoreAccess),
         (mkAction SendUpgrade NoAllocate M_State UpdateLRU FillWritable, "MissWriteShared"));
   ((kShared, kNAWAccess),
         (mkAction SendUpgrade NoAllocate M_State UpdateLRU FillWritable, "MissNAWShared"));
   ((kShared, kFetchAccess),
         (mkAction SendNone NoAllocate SameState UpdateLRU FillValid, "HitFetchShared"));
   ((kShared, kUpgrade),
         (mkAction SendUpgrade NoAllocate E_State UpdateLRU FillWritable, "MissUpgradeShared"));
   ((kShared, kEvictClean),
         (mkAction SendNone NoAllocate SameState UpdateLRU NoResponse, "HitEvictShared"))] ++
  (if using_traces then
   [((kShared, kEvictWritable),
          (mkAction SendNone NoAllocate SameState UpdateLRU NoResponse, "MissEvictWShared"));
    ((kShared, kEvictDirty),
          (mkAction SendUpgrade NoAllocate M_State UpdateLRU NoResponse, "MissEvictDShared"))]
   else
   [((kShared, kEvictWritable), (POISON_ACTION, "MissEvictWShared"));
    ((kShared, kEvictDirty), (POISON_ACTION, "MissEvictDShared"))]) ++
  [((kInvalid, kReadAccess),
         (mkAction SendRead Allocate DependState UpdateLRU FillDepend, "MissReadInvalid"));
   ((kInvalid, kWriteAccess),
         (mkAction SendWrite Allocate E_State UpdateLRU FillDepend, "MissWriteInvalid"));
   ((kInvalid, kStoreAccess),
         (mkAction SendWrite Allocate M_State UpdateLRU FillDepend, "MissWriteInvalid"));
   ((kInvalid, kNAWAccess),
         (mkAction SendNAW NoAllocate SameState NoUpdateLRU FillDepend, "MissNAWInvalid"));
   ((kInvalid, kFetchAccess),
         (mkAction SendFetch Allocate DependState UpdateLRU FillValid, "MissFetchInvalid"))] ++
  (if using_traces then
   [((kInvalid, kUpgrade),
          (mkAction SendWrite Allocate M_State UpdateLRU FillDepend, "MissUpgradeInvalid"));
    ((kInvalid, kEvictClean),
          (mkAction SendNone NoAllocate SameState NoUpdateLRU NoResponse, "MissEvictInvalid"));
    ((kInvalid, kEvictWritable),
          (mkAction SendNone NoAllocate SameState NoUpdateLRU NoResponse, "MissEvictWInvalid"));
    ((kInvalid, kEvictDirty),
          (mkAction SendNone NoAllocate SameState NoUpdateLRU NoResponse, "MissEvictDInvalid"))]
   else
   [((kInvalid, kUpgrade), (POISON_ACTION, "MissUpgradeInvalid"));
    ((kInvalid, kEvictClean), (POISON_ACTION, "MissEvictInvalid"));
    ((kInvalid, kEvictWritable), (POISON_ACTION, "MissEvictWInvalid"));
    ((kInvalid, kEvictDirty), (POISON_ACTION, "MissEvictDInvalid"))]).

Definition MESI_snoops (DowngradeLRU SnoopLRU : bool)
    : list ((CoherenceState_t * MemoryMessageType) * (SnoopActionCode * string)) :=
  (if SnoopLRU then
   [((kModified, ReturnReq),
          (mkSnoop (Resp ReturnReplyDirty) NoSnoop S_State false true, "HitReturnReqModified"));
    ((kExclusive, ReturnReq),
          (mkSnoop (Resp ReturnReply) DoSnoop S_State false true, "HitReturnReqExclusive"))]
   else
   [((kModified, ReturnReq),
          (mkSnoop (Resp ReturnReplyDirty) NoSnoop S_State false false, "HitReturnReqModified"));
    ((kExclusive, ReturnReq),
          (mkSnoop (Resp ReturnReply) DoSnoop S_State false false, "HitReturnReqExclusive"))]) ++
  [((kShared, ReturnReq),
         (mkSnoop (Resp ReturnReply) NoSnoop SameState false false, "HitReturnReqShared"));
   ((kInvalid, ReturnReq),
         (mkSnoop (Resp ReturnNAck) NoSnoop SameState false false, "MissReturnReqInvalid"));
   ((kModified, Invalidate),
         (mkSnoop (Resp InvUpdateAck) DoSnoop I_State false true, "HitInvalidateModified"));
   ((kExclusive, Invalidate),
         (mkSnoop SnoopDepend DoSnoop I_State false true, "HitInvalidateExclusive"));
   ((kShared, Invalidate),
         (mkSnoop (Resp InvalidateAck) DoSnoop I_State false true, "HitInvalidateShared"));
   ((kInvalid, Invalidate),
         (mkSnoop (Resp Invalidate) NoSnoop SameState false false, "MissInvalidateInvalid"))] ++
  (if DowngradeLRU then
   [((kModified, Downgrade),
          (mkSnoop (Resp DownUpdateAck) DoSnoop S_State false true, "HitDowngradeModified"));
    ((kExclusive, Downgrade),
          (mkSnoop SnoopDepend DoSnoop S_State false true, "HitDowngradeExclusive"))]
   else
   [((kModified, Downgrade),
          (mkSnoop (Resp DownUpdateAck) DoSnoop S_State false true, "HitDowngradeModified"));
    ((kExclusive, Downgrade),
          (mkSnoop SnoopDepend DoSnoop S_State false true, "HitDowngradeExclusive"))]) ++
  [((kShared, Downgrade),
         (mkSnoop (Resp DowngradeAck) NoSnoop SameState false false, "HitDowngradeShared"));
   ((kInvalid, Downgrade),
         (mkSnoop (Resp DowngradeAck) NoSnoop SameState false false, "MissDowngradeInvalid"))].

Definition MESI_evict (state : CoherenceState_t) (was_dirty : bool) : MemoryMessageType :=
  if was_dirty || state_eqb state kModified then EvictDirty
  else if state_eqb state kExclusive then EvictWritable
  else EvictClean.

Definition InclusiveMESI (using_traces DowngradeLRU SnoopLRU : bool) : CoherenceProtocol :=
  mkProtocol (MESI_requests using_traces) (MESI_snoops DowngradeLRU SnoopLRU) MESI_evict.

(** ** InclusiveMOESI *)

Definition MOESI_requests (using_traces : bool)
    : list ((CoherenceState_t * access_t) * (CoherenceAction * string)) :=
  [((kModified, kReadAccess),
         (mkAction SendNone NoAllocate E_State UpdateLRU FillDirty, "HitReadModified"));
   ((kModified, kWriteAccess),
         (mkAction SendNone NoAllocate E_State UpdateLRU FillDirty, "HitWriteModified"));
   ((kModified, kNAWAccess),
         (mkAction SendNone NoAllocate E_State UpdateLRU FillDirty, "HitNAWModified"));
   ((kModified, kFetchAccess),
         (mkAction SendNone NoAllocate SameState UpdateLRU FillValid, "HitFetchModified"));
   ((kModified, kUpgrade),
         (mkAction SendNone NoAllocate E_State UpdateLRU FillDirty, "HitUpgradeModified"));
   ((kModified, kEvictClean),
         (mkAction SendNone NoAllocate SameState UpdateLRU NoResponse, "HitEvictModified"));
   ((kModified, kEvictWritable), (POISON_ACTION, "HitEvictWModified"));
   ((kModified, kEvictDirty), (POISON_ACTION, "HitEvictDModified"));
   ((kOwned, kReadAccess),
         (mkAction SendNone NoAllocate SameState UpdateLRU FillValid, "HitReadOwned"));
   ((kOwned, kWriteAccess),
         (mkAction SendUpgrade NoAllocate E_State UpdateLRU FillWritable, "MissWriteOwned"));
   ((kOwned, kNAWAccess),
         (mkAction SendUpgrade NoAllocate E_State UpdateLRU FillWritable, "MissNAWOwned"));
   ((kOwned, kFetchAccess),
         (mkAction SendNone NoAllocate SameState UpdateLRU FillValid, "HitFetchOwned"));
   ((kOwned, kUpgrade),
         (mkAction SendUpgrade NoAllocate E_State UpdateLRU FillWritable, "MissUpgradeOwned"));
   ((kOwned, kEvictClean),
         (mkAction SendNone NoAllocate SameState UpdateLRU NoResponse, "HitEvictOwned"))] ++
  (if using_traces then
   [((kOwned, kEvictWritable),
          (mkAction SendNone NoAllocate SameState UpdateLRU NoResponse, "MissEvictWOwned"));
    ((kOwned, kEvictDirty),
          (mkAction SendUpgrade NoAllocate M_State UpdateLRU NoResponse, "MissEvictDOwned"))]
   else
   [((kOwned, kEvictWritable), (POISON_ACTION, "MissEvictWOwned"));
    ((kOwned, kEvictDirty), (POISON_ACTION, "MissEvictDOwned"))]) ++
  [((kExclusive, kReadAccess),
         (mkAction SendNone NoAllocate SameState UpdateLRU FillValid, "HitReadExclusive"));
   ((kExclusive, kWriteAccess),
         (mkAction SendNone NoAllocate SameState UpdateLRU FillWritable, "HitWriteExclusive"));
   ((kExclusive, kNAWAccess),
         (mkAction SendNone NoAllocate M_State UpdateLRU FillWritable, "HitNAWExclusive"));
   ((kExclusive, kFetchAccess),
         (mkAction SendNone NoAllocate SameState UpdateLRU FillValid, "HitFetchExclusive"));
   ((kExclusive, kUpgrade),
         (mkAction SendNone NoAllocate SameState UpdateLRU FillWritable, "HitUpgradeExclusive"));
   ((kExclusive, kEvictClean),
         (mkAction SendNone NoAllocate SameState UpdateLRU NoResponse, "HitEvictExclusive"));
   ((kExclusive, kEvictWritable),
         (mkAction SendNone NoAllocate SameState UpdateLRU NoResponse, "HitEvictWExclusive"));
   ((kExclusive, kEvictDirty),
         (mkAction SendNone NoAllocate M_State UpdateLRU NoResponse, "HitEvictDExclusive"));
   ((kShared, kReadAccess),
         (mkAction SendNone NoAllocate SameState UpdateLRU FillValid, "HitReadShared"));
   ((kShared, kWriteAccess),
         (mkAction SendUpgrade NoAllocate E_State UpdateLRU FillWritable, "MissWriteShared"));
   ((kShared, kNAWAccess),
         (mkAction SendUpgrade NoAllocate E_State UpdateLRU FillWritable, "MissNAWShared"));
   ((kShared, kFetchAccess),
         (mkAction SendNone NoAllocate SameState UpdateLRU FillValid, "HitFetchShared"));
   ((kShared, kUpgrade),
         (mkAction SendUpgrade NoAllocate E_State UpdateLRU FillWritable, "MissUpgradeShared"));
   ((kShared, kEvictClean),
         (mkAction SendNone NoAllocate SameState UpdateLRU NoResponse, "HitEvictShared"))] ++
  (if using_traces then
   [((kShared, kEvictWritable),
          (mkAction SendNone NoAllocate SameState UpdateLRU NoResponse, "MissEvictWShared"));
    ((kShared, kEvictDirty),
          (mkAction SendUpgrade NoAllocate M_State UpdateLRU NoResponse, "MissEvictDShared"))]
   else
   [((kShared, kEvictWritable), (POISON_ACTION, "MissEvictWShared"));
    ((kShared, kEvictDirty), (POISON_ACTION, "MissEvictDShared"))]) ++
  [((kInvalid, kReadAccess),
         (mkAction SendRead Allocate DependState UpdateLRU FillDepend, "MissReadInvalid"));
   ((kInvalid, kWriteAccess),
         (mkAction SendWrite Allocate E_State UpdateLRU FillDepend, "MissWriteInvalid"));
   ((kInvalid, kNAWAccess),
         (mkAction SendNAW NoAllocate SameState NoUpdateLRU FillDepend, "MissNAWInvalid"));
   ((kInvalid, kFetchAccess),
         (mkAction SendFetch Allocate DependState UpdateLRU FillValid, "MissFetchInvalid"))] ++
  (if using_traces then
   [((kInvalid, kUpgrade),
          (mkAction SendWrite Allocate M_State UpdateLRU FillDepend, "MissUpgradeInvalid"));
    ((kInvalid, kEvictClean),
          (mkAction SendNone NoAllocate SameState NoUpdateLRU NoResponse, "MissEvictInvalid"));
    ((kInvalid, kEvictWritable),
          (mkAction SendNone NoAllocate SameState NoUpdateLRU NoResponse, "MissEvictWInvalid"));
    ((kInvalid, kEvictDirty),
          (mkAction SendNone NoAllocate SameState NoUpdateLRU NoResponse, "MissEvictDInvalid"))]
   else
   [((kInvalid, kUpgrade), (POISON_ACTION, "MissUpgradeInvalid"));
    ((kInvalid, kEvictClean), (POISON_ACTION, "MissEvictInvalid"));
    ((kInvalid, kEvictWritable), (POISON_ACTION, "MissEvictWInvalid"));
    ((kInvalid, kEvictDirty), (POISON_ACTION, "MissEvictDInvalid"))]).

Definition MOESI_snoops (DowngradeLRU SnoopLRU : bool)
    : list ((CoherenceState_t * MemoryMessageType) * (SnoopActionCode * string)) :=
  (if SnoopLRU then
   [((kModified, ReturnReq),
          (mkSnoop (Resp ReturnReplyDirty) NoSnoop S_State false true, "HitReturnReqModified"));
    ((kExclusive, ReturnReq),
          (mkSnoop (Resp ReturnReply) DoSnoop DependState false true, "HitReturnReqExclusive"))]
   else
   [((kModified, ReturnReq),
          (mkSnoop (Resp ReturnReplyDirty) NoSnoop S_State false false, "HitReturnReqModified"));
    ((kExclusive, ReturnReq),
          (mkSnoop (Resp ReturnReply) DoSnoop DependState false false, "HitReturnReqExclusive"))]) ++
  [((kOwned, ReturnReq),
         (mkSnoop (Resp ReturnReplyDirty) NoSnoop S_State false false, "HitReturnReqOwned"));
   ((kShared, ReturnReq),
         (mkSnoop (Resp ReturnReply) NoSnoop SameState false false, "HitReturnReqShared"));
   ((kInvalid, ReturnReq),
         (mkSnoop (Resp ReturnNAck) NoSnoop SameState false false, "MissReturnReqInvalid"));
   ((kModified, Invalidate),
         (mkSnoop (Resp InvUpdateAck) DoSnoop I_State false true, "HitInvalidateModified"));
   ((kOwned, Invalidate),
         (mkSnoop (Resp InvalidateAck) DoSnoop I_State false true, "HitInvalidateOwned"));
   ((kExclusive, Invalidate),
         (mkSnoop SnoopDepend DoSnoop I_State false true, "HitInvalidateExclusive"));
   ((kShared, Invalidate),
         (mkSnoop (Resp InvalidateAck) DoSnoop I_State false true, "HitInvalidateShared"));
   ((kInvalid, Invalidate),
         (mkSnoop (Resp Invalidate) NoSnoop SameState false false, "MissInvalidateInvalid"))] ++
  (if DowngradeLRU then
   [((kModified, Downgrade),
          (mkSnoop (Resp DownUpdateAck) DoSnoop O_State false true, "HitDowngradeModified"));
    ((kExclusive, Downgrade),
          (mkSnoop SnoopDepend DoSnoop DependState false true, "HitDowngradeExclusive"))]
   else
   [((kModified, Downgrade),
          (mkSnoop (Resp DownUpdateAck) DoSnoop O_State false false, "HitDowngradeModified"));
    ((kExclusive, Downgrade),
          (mkSnoop SnoopDepend DoSnoop DependState false false, "HitDowngradeExclusive"))]) ++
  [((kOwned, Downgrade),
         (mkSnoop RespPOISON SnoopPOISON StatePOISON false false, "HitDowngradeOwned"));
   ((kShared, Downgrade),
         (mkSnoop RespPOISON SnoopPOISON StatePOISON false false, "HitDowngradeShared"));
   ((kInvalid, Downgrade),
         (mkSnoop (Resp DowngradeAck) NoSnoop SameState false false, "MissDowngradeInvalid"))].

Definition MOESI_evict (state : CoherenceState_t) (was_dirty : bool) : MemoryMessageType :=
  if was_dirty || state_eqb state kModified || state_eqb state kOwned then EvictDirty
  else if state_eqb state kExclusive then EvictWritable
  else EvictClean.

Definition InclusiveMOESI (using_traces DowngradeLRU SnoopLRU : bool) : CoherenceProtocol :=
  mkProtocol (MOESI_requests using_traces) (MOESI_snoops DowngradeLRU SnoopLRU) MOESI_evict.

Definition GenerateCoherenceProtocol (name : string) (using_traces downgrade_lru snoop_lru : bool)
    : outcome CoherenceProtocol :=
  if String.eqb name "InclusiveMOESI" then Done (InclusiveMOESI using_traces downgrade_lru snoop_lru)
  else if String.eqb name "InclusiveMESI" then
    Done (InclusiveMESI using_traces downgrade_lru snoop_lru)
  else Assert "Unknown CoherenceProtocol".

(** ** The tables as functions *)

(** The states of the protocol by name, and the requests and snoops that each
    of its states must be able to take. *)
Record table_ok (p : CoherenceProtocol) (states : list CoherenceState_t) (accesses : list access_t)
    : Prop := {
  to_requests_once : NoDup (fst <$> coherence_map p);
  to_snoops_once : NoDup (fst <$> snoop_map p);
  to_requests : fst <$> coherence_map p ≡ₚ s ← states; a ← accesses; [(s, a)];
  to_snoops : fst <$> snoop_map p ≡ₚ s ← states; t ← [ReturnReq; Invalidate; Downgrade]; [(s, t)];
}.

(** Whatever the flags, InclusiveMESI has exactly one
    row for each of its four states and each of the nine accesses, and
    InclusiveMOESI exactly one for each of its five states and each access but
    a store, for which it has none; both have exactly one snoop row for each
    state and each of the three snoops.  A protocol of any other name is
    refused. *)
Theorem protocol_tables (name : string) (u d s : bool) :
  match GenerateCoherenceProtocol name u d s with
  | Done p =>
      (name = "InclusiveMESI" /\
       table_ok p [kModified; kExclusive; kShared; kInvalid]
         [kReadAccess; kWriteAccess; kFetchAccess; kUpgrade; kEvictClean; kEvictWritable;
          kEvictDirty; kStoreAccess; kNAWAccess]) \/
      (name = "InclusiveMOESI" /\
       table_ok p [kModified; kOwned; kExclusive; kShared; kInvalid]
         [kReadAccess; kWriteAccess; kFetchAccess; kUpgrade; kEvictClean; kEvictWritable;
          kEvictDirty; kNAWAccess])
  | Assert _ => name <> "InclusiveMESI" /\ name <> "InclusiveMOESI"
  end%string.
Proof.
  unfold GenerateCoherenceProtocol.
  destruct (String.eqb_spec name "InclusiveMOESI") as [->|N1];
    [|destruct (String.eqb_spec name "InclusiveMESI") as [->|N2]]; [right|left|done];
    (split; [done|]); destruct u, d, s; split; apply (bool_decide_unpack _); vm_compute; exact I.
Qed.
