(* ===== verification/FastCache.v ===== *)
(** * The functional cache component

    components/FastCache/FastCacheImpl.cpp with the standard tag array: the
    request and snoop ports, evictions, and the calls to the neighbouring
    components.  The neighbours are the ports [RequestOut], [SnoopOutI] and
    [SnoopOutD]: functions of the state [W] of the whole system, in which this
    component's own state is the slot [me]. *)

From S2P Require Import Prelude Messages StdCache CoherenceProtocol Directory Coherence.
From stdpp Require Import base gmap sets list strings.
From Stdlib Require Import ZArith Lia.

Local Open Scope Z_scope.

Record FastCache : Type := mkFastCache {
  theProtocol : CoherenceProtocol;
  theCache : StdCache;
  theStats : gmap string Z;
  theBlockMask : Z;
  theEvictMessage : MemoryMessage;
  theInvalidateMessage : MemoryMessage;
  cfg_CleanEvictions : bool;
}.

Definition set_cache (c : StdCache) (x : FastCache) : FastCache :=
  mkFastCache (theProtocol x) c (theStats x) (theBlockMask x) (theEvictMessage x)
    (theInvalidateMessage x) (cfg_CleanEvictions x).
Definition set_stats (s : gmap string Z) (x : FastCache) : FastCache :=
  mkFastCache (theProtocol x) (theCache x) s (theBlockMask x) (theEvictMessage x)
    (theInvalidateMessage x) (cfg_CleanEvictions x).
Definition set_evict_message (m : MemoryMessage) (x : FastCache) : FastCache :=
  mkFastCache (theProtocol x) (theCache x) (theStats x) (theBlockMask x) m
    (theInvalidateMessage x) (cfg_CleanEvictions x).
Definition set_invalidate_message (m : MemoryMessage) (x : FastCache) : FastCache :=
  mkFastCache (theProtocol x) (theCache x) (theStats x) (theBlockMask x) (theEvictMessage x)
    m (cfg_CleanEvictions x).

(** [(theStats->*stat_ptr)++] *)
Definition bump (stat : string) (s : gmap string Z) : gmap string Z :=
  <[stat := default 0 (s !! stat) + 1]> s.

(** The configuration parameters [initialize] reads. *)
Record FastCacheCfg : Type := mkFastCacheCfg {
  cfg_Size : Z;
  cfg_Associativity : Z;
  cfg_BlockSize : Z;
  cfg_clean_evict : bool;
  cfg_Protocol : string;
  cfg_UsingTraces : bool;
  cfg_DowngradeLRU : bool;
  cfg_SnoopLRU : bool;
}.

Definition initialize (cfg : FastCacheCfg) (flexusIndex : Z) : outcome FastCache :=
  p ← GenerateCoherenceProtocol (cfg_Protocol cfg) (cfg_UsingTraces cfg) (cfg_DowngradeLRU cfg)
        (cfg_SnoopLRU cfg);
  if negb (Z.land (cfg_BlockSize cfg) (cfg_BlockSize cfg - 1) =? 0) then Assert "BlockSize"
  else if negb (4 <=? cfg_BlockSize cfg) then Assert "BlockSize >= 4"
  else
    let num_sets := Z.quot (Z.quot (cfg_Size cfg) (cfg_BlockSize cfg)) (cfg_Associativity cfg) in
    if negb (Z.land num_sets (num_sets - 1) =? 0) then Assert "num_sets"
    else if negb (cfg_BlockSize cfg * num_sets * cfg_Associativity cfg =? cfg_Size cfg)
    then Assert "cfg.Size"
    else
      c ← newStdCache (cfg_BlockSize cfg) num_sets (cfg_Associativity cfg);
      Done (mkFastCache p c ∅ (Z.lnot (cfg_BlockSize cfg - 1))
              (mkMessage EvictDirty 0 0 0 flexusIndex true eUnknown false)
              (newMessage Invalidate 0) (cfg_clean_evict cfg)).

(** The tag array inside the component's slot. *)
Definition cache_slot {W} (me : Slot W FastCache) : Slot W StdCache :=
  mkSlot (fun w => theCache (view me w)) (fun c w => put me (set_cache c (view me w)) w).

#[export] Instance cache_slot_laws {W} (me : Slot W FastCache) `{!SlotLaws me} :
  SlotLaws (cache_slot me).
Proof.
  split; intros; cbn.
  - by rewrite view_put.
  - by rewrite view_put, put_put.
  - assert (E : set_cache (theCache (view me w)) (view me w) = view me w) by (by destruct (view me w)).
    by rewrite E, put_view.
Qed.

Section component.
Context {W : Type} (me : Slot W FastCache).
Context (SnoopOutI SnoopOutD : MemoryMessage -> M W MemoryMessage).

Definition continueSnoop (msg : MemoryMessage) : M W MemoryMessage :=
  dup_msg ← (if type_eqb (theType msg) Downgrade then mret (copyMessage msg)
             else SnoopOutI (copyMessage msg));
  msg ← SnoopOutD msg;
  mret (if type_eqb (theType msg) ReturnNAck && negb (type_eqb (theType dup_msg) ReturnNAck)
        then set_type (theType dup_msg) msg else msg).

(** One of the two halves of [sendInvalidate]: the member message goes out
    through a port and keeps what comes back. *)
Definition sendInvalidate_half (port : MemoryMessage -> M W MemoryMessage) : M W bool :=
  x ← gets (view me);
  m ← port (set_type Invalidate (theInvalidateMessage x));
  update me (set_invalidate_message m);;
  mret (type_eqb (theType m) InvUpdateAck).

Definition sendInvalidate (addr : Z) (icache dcache : bool) : M W bool :=
  update me (fun x => set_invalidate_message (set_address addr (theInvalidateMessage x)) x);;
  was_dirty ← (if icache then sendInvalidate_half SnoopOutI else mret false);
  (if dcache then sendInvalidate_half SnoopOutD else mret false);;
  x ← gets (view me);
  mret (was_dirty || type_eqb (theType (theInvalidateMessage x)) InvUpdateAck).

(** The snoop port. *)
Definition snoop_lookup (tagset : Z) : M W LookupResult :=
  c ← gets (view (cache_slot me));
  let r := cache_lookup tagset c in
  update (cache_slot me) (fun _ => snd r);;
  mret (fst r).

Definition push_SnoopIn (aMessage : MemoryMessage) : M W MemoryMessage :=
  x ← gets (view me);
  let tagset := Z.land (theAddress aMessage) (theBlockMask x) in
  snp_lookup ← snoop_lookup tagset;
  c ← gets (view (cache_slot me));
  r ← lift (getSnoopAction (theProtocol x) (getState snp_lookup c) (theType aMessage));
  aMessage ← SnoopAction (cache_slot me) continueSnoop (fst r) snp_lookup aMessage;
  update me (fun x => set_stats (bump (snd r) (theStats x)) x);;
  snoop_lookup tagset;;
  mret aMessage.

(** The request side. *)
Context (RequestOut : MemoryMessage -> M W MemoryMessage).

Definition forwardMessage (msg : MemoryMessage) : M W MemoryMessage := RequestOut msg.

Definition evict (aTagset : Z) (aLineState : CoherenceState_t) : M W () :=
  update me (fun x => set_evict_message (set_address aTagset (theEvictMessage x)) x);;
  was_dirty ← sendInvalidate aTagset true true;
  update me (fun x => set_evict_message
               (set_type (protocol_evict (theProtocol x) aLineState was_dirty) (theEvictMessage x)) x);;
  x ← gets (view me);
  if type_eqb (theType (theEvictMessage x)) EvictDirty || cfg_CleanEvictions x then
    m ← RequestOut (theEvictMessage x);
    update me (set_evict_message m)
  else mret ().

Definition push_RequestIn (aMessage : MemoryMessage) : M W MemoryMessage :=
  x ← gets (view me);
  let tagset := Z.land (theAddress aMessage) (theBlockMask x) in
  access_type ← lift (message2access (theType aMessage));
  lr ← snoop_lookup tagset;
  c ← gets (view (cache_slot me));
  r ← lift (getCoherenceAction (theProtocol x) (getState lr c) access_type);
  aMessage ← doCoherenceAction (cache_slot me) forwardMessage evict (fst r) lr aMessage;
  update me (fun x => set_stats (bump (snd r) (theStats x)) x);;
  mret aMessage.

Definition push_FetchRequestIn (aMessage : MemoryMessage) : M W MemoryMessage :=
  push_RequestIn (set_dstream false aMessage).
End component.

(** ** What the component keeps true of its own state *)

Definition l1_ok (bm : Z) (x : FastCache) : Prop :=
  wf_cache (theCache x) /\ blockTagMask (theCache x) = bm /\ theBlockMask x = bm /\
  exists usingTraces downgradeLRU snoopLRU,
    theProtocol x = InclusiveMESI usingTraces downgradeLRU snoopLRU.

Lemma l1_ok_set_cache bm x c u :
  l1_ok bm x -> effect (theCache x) c u -> l1_ok bm (set_cache c x).
Proof.
  intros (W & T & B & P) (W' & G & _). split; [done|]. split; [|done].
  cbn. destruct G as (_ & _ & _ & _ & <-). done.
Qed.

Lemma set_cache_set_cache c c' x : set_cache c (set_cache c' x) = set_cache c x.
Proof. done. Qed.

Section own_state.
Context {W : Type} (me : Slot W FastCache) `{!SlotLaws me} (bm : Z).

Lemma wp_snoop_lookup a (Q : LookupResult -> W -> Prop) w :
  l1_ok bm (view me w) -> Z.land a bm = a ->
  (forall lr c b, l1_ok bm (set_cache c (view me w)) ->
     (forall a', peek c a' = peek (theCache (view me w)) a') -> handle c lr a b ->
     getState lr c = peek (theCache (view me w)) a ->
     Q lr (put me (set_cache c (view me w)) w)) ->
  wp (snoop_lookup me a) Q w.
Proof using SlotLaws0.
  intros Ok Al K. unfold snoop_lookup. wp_steps. cbn.
  destruct (cache_lookup a (theCache (view me w))) as [lr c] eqn:E. cbn.
  pose proof Ok as (Wf & T & _).
  destruct (cache_lookup_spec (theCache (view me w)) Wf a lr c) as (W' & G & P & (b & H) & S);
    [unfold get_tag; by rewrite T|done|].
  apply (K lr c b); [|done|done|done]. by apply (l1_ok_set_cache bm _ c _ Ok (conj W' (conj G P))).
Qed.

Lemma wp_changeState lr a b st mru lru (Q : () -> W -> Prop) w :
  l1_ok bm (view me w) -> handle (theCache (view me w)) lr a b -> tag b = a ->
  (forall c, l1_ok bm (set_cache c (view me w)) ->
     (forall a', peek c a' = only (theCache (view me w)) a st a') ->
     Q () (put me (set_cache c (view me w)) w)) ->
  wp (lookup_changeState (cache_slot me) lr st mru lru) Q w.
Proof using SlotLaws0.
  intros Ok H Et K. unfold lookup_changeState, update. wp_steps. cbn.
  destruct (updateState_spec (theCache (view me w)) lr a b st mru lru) as [E _];
    [apply Ok|done|done|].
  apply K; [by eapply l1_ok_set_cache|apply E].
Qed.

Lemma wp_updateLRU lr a b (Q : () -> W -> Prop) w :
  l1_ok bm (view me w) -> handle (theCache (view me w)) lr a b ->
  (forall c, l1_ok bm (set_cache c (view me w)) ->
     (forall a', peek c a' = peek (theCache (view me w)) a') ->
     Q () (put me (set_cache c (view me w)) w)) ->
  wp (lookup_updateLRU (cache_slot me) lr) Q w.
Proof using SlotLaws0.
  intros Ok H K. unfold lookup_updateLRU, update. wp_steps. cbn.
  destruct (update_lru_spec (theCache (view me w)) (proj1 Ok) lr a b H) as [E _].
  apply K; [by eapply l1_ok_set_cache|apply E].
Qed.

Lemma handle_present c lr a b : handle c lr a b -> peek c a <> kInvalid -> tag b = a.
Proof using.
  intros H V. destruct (decide (tag b = a)) as [|N]; [done|].
  destruct (h_miss _ _ _ _ H N) as [F _]. destruct V. unfold peek. by rewrite F.
Qed.

(** With nothing above, a snoop stays in the component. *)
Lemma wp_continueSnoop msg (Q : MemoryMessage -> W -> Prop) w :
  Q msg w -> wp (continueSnoop mret mret msg) Q w.
Proof using.
  intros H. unfold continueSnoop. apply wp_bind.
  assert (K : wp (dup_msg ← mret (copyMessage msg); msg ← mret msg;
     mret (if type_eqb (theType msg) ReturnNAck && negb (type_eqb (theType dup_msg) ReturnNAck)
           then set_type (theType dup_msg) msg else msg)) Q w).
  { wp_steps. cbn. by destruct (type_eqb (theType msg) ReturnNAck). }
  destruct (type_eqb (theType msg) Downgrade); exact K.
Qed.
End own_state.

(** ** Snoops *)

Lemma only_same c a b : only c a (peek c a) b = peek c b.
Proof. unfold only. by case_decide; subst. Qed.

Lemma set_cache_id x : set_cache (theCache x) x = x.
Proof. by destruct x. Qed.

Section snoop.
Context {W : Type} (me : Slot W FastCache) `{!SlotLaws me} (bm : Z).

(** What a snoop leaves in the component's slot. *)
Definition snooped (a : Z) (w : W) (msg m' : MemoryMessage) (w' : W) : Prop :=
  let r := snoop_answer (peek (theCache (view me w)) a) (theType msg) in
  m' = set_type (snd r) msg /\ exists x, w' = put me x w /\ l1_ok bm x /\
    forall b, peek (theCache x) b = only (theCache (view me w)) a (fst r) b.

Lemma wp_SnoopAction u d s lr a b msg w :
  l1_ok bm (view me w) -> handle (theCache (view me w)) lr a b ->
  mesi (peek (theCache (view me w)) a) = true -> snoop_request (theType msg) = true ->
  exists act stat,
    getSnoopAction (InclusiveMESI u d s) (peek (theCache (view me w)) a) (theType msg) =
      Done (act, stat) /\
    wp (SnoopAction (cache_slot me) (continueSnoop mret mret) act lr msg) (snooped a w msg) w.
Proof using SlotLaws0.
  intros Ok H Ms Rq. unfold snooped.
  assert (P : peek (theCache (view me w)) a <> kInvalid -> tag b = a) by (by apply (handle_present _ lr)).
  pose proof (only_same (theCache (view me w)) a) as Same.
  destruct (peek (theCache (view me w)) a), (theType msg) eqn:T; try done; destruct u, d, s;
    do 2 eexists; (split; [vm_compute; reflexivity|]); cbn [SnoopAction snoop_answer fst snd];
    try (apply wp_ret; split; [done|]; exists (view me w); by rewrite put_view);
    specialize (P ltac:(done)); wp_steps; try (apply wp_continueSnoop; wp_steps);
    (eapply wp_changeState; [done..|]; intros c Okc Pc; wp_steps; rewrite ?T; cbn [type_eqb];
     split; [done|]; by eauto).
Qed.

Lemma l1_ok_set_stats st x : l1_ok bm x -> l1_ok bm (set_stats st x).
Proof using. done. Qed.

Lemma push_SnoopIn_spec msg w :
  let a := Z.land (theAddress msg) bm in
  l1_ok bm (view me w) -> mesi (peek (theCache (view me w)) a) = true ->
  snoop_request (theType msg) = true ->
  wp (push_SnoopIn me mret mret msg) (snooped a w msg) w.
Proof using SlotLaws0.
  intros a Ok Ms Rq. pose proof Ok as (Wf & T & B & u & d & s & P).
  unfold push_SnoopIn. wp_step. wp_step. cbn beta. rewrite B, P. fold a.
  apply wp_bind. apply (wp_snoop_lookup me bm); [done|apply land_idem|].
  intros lr c b Ok1 Pk H St. wp_steps. cbn [view cache_slot theCache].
  rewrite view_put. cbn [set_cache theCache]. rewrite St, <-(Pk a).
  set (w1 := put me (set_cache c (view me w)) w).
  assert (V1 : view me w1 = set_cache c (view me w)) by apply view_put.
  destruct (wp_SnoopAction u d s lr a b msg w1) as (act & stat & E & R);
    rewrite ?V1; cbn [theCache set_cache]; rewrite ?Pk; [done..|].
  rewrite V1 in E. cbn [theCache set_cache] in E. rewrite Pk in E. rewrite E.
  unfold wp at 1. cbn [lift fst snd]. apply wp_bind.
  eapply wp_mono; [exact R|]. intros m2 w2 (-> & x2 & -> & Ok2 & P2).
  rewrite V1 in P2. cbn [theCache set_cache] in P2.
  wp_steps. unfold w1. rewrite !put_put, view_put.
  apply (wp_snoop_lookup me bm); rewrite ?view_put; [done|apply land_idem|].
  intros lr3 c3 b3 Ok3 P3 _ _. wp_steps. split; [by cbn; rewrite Pk|].
  rewrite !put_put. eexists. split; [done|]. split; [done|]. intros b'. cbn.
  rewrite P3. cbn. rewrite P2. unfold only. rewrite !Pk. done.
Qed.
End snoop.

(** ** Requests *)

(** The requests a processor sends to its caches. *)
Definition cpu_request (t : MemoryMessageType) : bool :=
  match t with
  | LoadReq | ReadReq | FetchReq | StoreReq | RMWReq | CmpxReq | WriteReq
  | NonAllocatingStoreReq => true
  | _ => false
  end.

(** The state of the block in the requesting cache, before and after. *)
Definition served (t : MemoryMessageType) (own own' : CoherenceState_t) : Prop :=
  match t with
  | LoadReq | ReadReq | FetchReq => own' <> kInvalid
  | StoreReq | RMWReq | CmpxReq => own' = kModified
  | WriteReq => writable own' = true
  | NonAllocatingStoreReq => own' = if decide (own = kInvalid) then kInvalid else kModified
  | _ => False
  end.

(** ** The level below, as the cache relies on it

    [RequestOut] leads to the level below.  [V w] is the view of the whole
    hierarchy in [w], in which this cache is number [k] of [n]; [env w] is what
    the level below keeps true of its own state. *)

Class LowerLevel {W : Type} (me : Slot W FastCache) (n k bm : Z) (V : W -> View) (env : W -> Prop)
    (RequestOut : MemoryMessage -> M W MemoryMessage) : Prop := {
  ll_index : 0 <= k < n;
  ll_own w : env w -> l1_ok bm (view me w) /\
    forall a, L1 (V w) k a = peek (theCache (view me w)) a;
  ll_put w x : env w -> l1_ok bm x ->
    env (put me x w) /\
    (forall j a, 0 <= j < n -> j <> k -> L1 (V (put me x w)) j a = L1 (V w) j a) /\
    (forall a, L2 (V (put me x w)) a = L2 (V w) a) /\
    (forall a, SH (V (put me x w)) a = SH (V w) a);
  ll_miss w msg : let a := Z.land (theAddress msg) bm in
    env w -> ok_block n (V w) a -> may_ask (theType msg) (L1 (V w) k a) ->
    wp (RequestOut msg) (fun m w' => env w' /\ view me w' = view me w /\ frame n a (V w) (V w') /\
      exists excl, granted n (V w') k a excl /\ answers (theType msg) (theType m) excl) w;
  ll_store w msg : let a := Z.land (theAddress msg) bm in
    env w -> ok_block n (V w) a -> L1 (V w) k a = kInvalid ->
    theType msg = NonAllocatingStoreReq ->
    wp (RequestOut msg) (fun m w' => env w' /\ view me w' = view me w /\ frame n a (V w) (V w') /\
      ok_block n (V w') a /\ (forall j, 0 <= j < n -> L1 (V w') j a = kInvalid) /\
      theType m = NonAllocatingStoreReply) w;
  ll_evict w msg : let a := theAddress msg in
    env w -> Z.land a bm = a -> ok_block n (V w) a -> evict_notice (theType msg) (L1 (V w) k a) ->
    wp (RequestOut msg) (fun m w' => env w' /\ view me w' = view me w /\ frame n a (V w) (V w') /\
      (forall j, 0 <= j < n -> L1 (V w') j a = L1 (V w) j a) /\ released n (V w') k a) w;
}.

Section requests.
Context {W : Type} (me : Slot W FastCache) `{!SlotLaws me} (n k bm : Z).
Context (V : W -> View) (env : W -> Prop) (RequestOut : MemoryMessage -> M W MemoryMessage).
Context `{LL : !LowerLevel me n k bm V env RequestOut}.

(** The view after a change of this cache only. *)
Lemma own_put w x upd :
  env w -> l1_ok bm x -> (forall a, peek (theCache x) a = upd a) ->
  env (put me x w) /\
  (forall j a, 0 <= j < n -> j <> k -> L1 (V (put me x w)) j a = L1 (V w) j a) /\
  (forall a, L1 (V (put me x w)) k a = upd a) /\
  (forall a, L2 (V (put me x w)) a = L2 (V w) a) /\
  (forall a, SH (V (put me x w)) a = SH (V w) a).
Proof using LL SlotLaws0.
  intros E Ok P. destruct (ll_put w x E Ok) as (E' & H1 & H2 & H3). split_and!; [done..| |done|done].
  intros a. destruct (ll_own _ E') as [_ ->]. by rewrite view_put.
Qed.

Definition same_view (U U' : View) : Prop :=
  forall a, (forall j, 0 <= j < n -> L1 U' j a = L1 U j a) /\ L2 U' a = L2 U a /\ SH U' a = SH U a.

Lemma own_quiet w x :
  env w -> l1_ok bm x -> (forall a, peek (theCache x) a = peek (theCache (view me w)) a) ->
  env (put me x w) /\ same_view (V w) (V (put me x w)).
Proof using LL SlotLaws0.
  intros E Ok P. destruct (own_put w x _ E Ok P) as (E' & H1 & H2 & H3 & H4). split; [done|].
  intros a. split_and!; [|done..]. intros j Hj. destruct (decide (j = k)) as [->|N]; [|auto].
  rewrite H2. symmetry. by apply ll_own.
Qed.

Lemma same_view_at a U U' : same_view U U' -> same_at n a U U'.
Proof using. intros S. destruct (S a) as (A & B & C). split_and!; auto. Qed.

Lemma same_view_ok U U' : same_view U U' -> all_ok n U -> all_ok n U'.
Proof using. intros S O a. eapply ok_block_same; [apply O|by apply same_view_at]. Qed.

(** Messages are not part of what the cache holds. *)
Definition same_array (x x' : FastCache) : Prop :=
  theCache x' = theCache x /\ theProtocol x' = theProtocol x /\ theBlockMask x' = theBlockMask x /\
  cfg_CleanEvictions x' = cfg_CleanEvictions x.

Lemma same_array_ok x x' : same_array x x' -> l1_ok bm x -> l1_ok bm x'.
Proof using. intros (A & B & C & _) (W1 & T & M & P). unfold l1_ok. by rewrite A, B, C. Qed.

Lemma wp_sendInvalidate addr (Q : bool -> W -> Prop) w :
  (forall x, same_array (view me w) x -> theEvictMessage x = theEvictMessage (view me w) ->
     Q false (put me x w)) ->
  wp (sendInvalidate me mret mret addr true true) Q w.
Proof using SlotLaws0.
  intros K. unfold sendInvalidate, sendInvalidate_half, update. cbv iota.
  wp_steps. rewrite !view_put, !put_put. by apply K.
Qed.

(** What goes out for a block that leaves, and whether it does. *)
Lemma wp_evict a st (Q : () -> W -> Prop) w :
  l1_ok bm (view me w) ->
  (forall x, same_array (view me w) x -> theAddress (theEvictMessage x) = a ->
     theType (theEvictMessage x) = MESI_evict st false ->
     wp (if type_eqb (MESI_evict st false) EvictDirty || cfg_CleanEvictions x then
           m ← RequestOut (theEvictMessage x); update me (set_evict_message m)
         else mret ()) Q (put me x w)) ->
  wp (evict me mret mret RequestOut a st) Q w.
Proof using SlotLaws0.
  intros (Wf & T & B & u & d & s & P) K. unfold evict. wp_step. unfold update at 1. wp_step.
  apply wp_bind. apply wp_sendInvalidate. intros x Sx Ex.
  rewrite view_put in Sx, Ex. wp_steps. rewrite !view_put, !put_put.
  assert (Px : theProtocol x = InclusiveMESI u d s) by (destruct Sx as (_ & -> & _); done).
  rewrite Px. change (protocol_evict (InclusiveMESI u d s) st false) with (MESI_evict st false).
  apply (K (set_evict_message (set_type (MESI_evict st false) (theEvictMessage x)) x));
    [done|by cbn; rewrite Ex|done].
Qed.

(** Evicting a block that the cache holds: the level below hears of it, or
    the copy was clean and goes in silence. *)
Lemma evict_spec a st w :
  env w -> Z.land a bm = a -> st = peek (theCache (view me w)) a -> st <> kInvalid ->
  ok_block n (V w) a ->
  wp (evict me mret mret RequestOut a st) (fun _ w' =>
    env w' /\ same_array (view me w) (view me w') /\ frame n a (V w) (V w') /\
    (forall j, 0 <= j < n -> L1 (V w') j a = L1 (V w) j a) /\ released n (V w') k a) w.
Proof using LL SlotLaws0.
  intros E Al St Vd O. pose proof (ll_own w E) as [Ok Own].
  assert (Ms : mesi st = true) by (rewrite St, <-Own; apply O, ll_index).
  apply wp_evict; [done|]. intros x Sx Ax Tx. pose proof (same_array_ok _ _ Sx Ok) as Okx.
  destruct (own_quiet w x E Okx) as [E1 S1]; [intros; by destruct Sx as (-> & _)|].
  assert (O1 : ok_block n (V (put me x w)) a) by (eapply ok_block_same; [done|by apply same_view_at]).
  destruct (S1 a) as (S1a & _).
  assert (F1 : frame n a (V w) (V (put me x w))) by (intros b _; by apply same_view_at).
  destruct (type_eqb (MESI_evict st false) EvictDirty || cfg_CleanEvictions x).
  - wp_step. eapply wp_mono; [apply ll_evict|]; rewrite ?Ax; [done..| |].
    { rewrite Tx, S1a by apply ll_index. rewrite Own, <-St. by destruct st. }
    intros m w2 (E2 & V2 & F2 & L & R). unfold update. wp_step. rewrite V2, view_put.
    destruct (own_quiet w2 (set_evict_message m x) E2) as [E3 S3].
    { by apply (same_array_ok x). }
    { intros b. by rewrite V2, view_put. }
    split_and!; [done|by rewrite view_put| | |].
    + eapply frame_trans; [done|]. eapply frame_trans; [done|]. intros b _. by apply same_view_at.
    + intros j Hj. destruct (S3 a) as (S3a & _). by rewrite S3a, L, S1a.
    + eapply ok_block_same; [exact R|]. destruct (S3 a) as (S3a & S3b & S3c).
      split_and!; [|done|by left]. intros j Hj. cbn. case_decide; [done|auto].
  - wp_step. split_and!; [done|by rewrite view_put|done|done|].
    apply ok_released; [apply ll_index|done].
Qed.

(** Outside of the block [a]: this cache may have lost blocks, and no other
    first-level cache changes. *)
Definition keeps_others (a : Z) (U U' : View) : Prop :=
  forall b, b <> a ->
    (L1 U' k b = L1 U k b \/ L1 U' k b = kInvalid) /\
    (forall j, 0 <= j < n -> j <> k -> L1 U' j b = L1 U j b).

Definition stored (a : Z) (st : CoherenceState_t) (U U' : View) : Prop :=
  all_ok n U' /\ L1 U' k a = st /\
  (forall j, 0 <= j < n -> j <> k -> L1 U' j a = L1 U j a) /\ keeps_others a U U'.

(** The end of [allocate], in a state [w2] that differs from the state of
    the grant by the departure of the victim [v], if there is one. *)
Lemma allocate_end_stored lr a b st excl w w2 :
  env w -> env w2 -> granted n (V w) k a excl -> (forall b', b' <> a -> ok_block n (V w) b') ->
  mesi st = true -> (writable st = true -> excl = true) ->
  handle (theCache (view me w2)) lr a b ->
  (forall a', peek (theCache (view me w2)) a' = peek (theCache (view me w)) a') ->
  (forall v, allocate_victim lr (theCache (view me w2)) = Some v ->
     frame n (tag v) (V w) (V w2) /\
     (forall j, 0 <= j < n -> L1 (V w2) j (tag v) = L1 (V w) j (tag v)) /\
     released n (V w2) k (tag v)) ->
  (allocate_victim lr (theCache (view me w2)) = None -> same_view (V w) (V w2)) ->
  let w' := put me (set_cache (allocate_end lr (allocate_replaces lr (theCache (view me w2))) st
                                 (theCache (view me w2))) (view me w2)) w2 in
  env w' /\ stored a st (V w) (V w').
Proof using LL SlotLaws0.
  intros E E2 G Oth Ms Wr H Pk Vic NoVic w'. pose proof (ll_own w2 E2) as [Ok2 Own2].
  pose proof (ll_own w E) as [_ Own].
  pose proof (allocate_end_spec _ lr a b st (proj1 Ok2) H) as Eff.
  destruct (own_put w2 _ _ E2 (l1_ok_set_cache bm _ _ _ Ok2 Eff) (proj2 (proj2 Eff)))
    as (E' & A1 & A2 & A3 & A4). fold w' in E', A1, A2, A3, A4. split; [done|].
  set (vic := allocate_victim lr (theCache (view me w2))) in *.
  assert (Va : forall v, vic = Some v -> tag v <> a).
  { intros v Ev. by apply (allocate_victim_spec _ lr a b v (proj1 Ok2) H) in Ev as (_ & ? & _). }
  assert (Vb : forall v, vic = Some v -> v = b).
  { intros v Ev. by apply (allocate_victim_spec _ lr a b v (proj1 Ok2) H) in Ev as (? & _). }
  assert (S2 : forall b', (forall v, vic = Some v -> b' <> tag v) -> same_at n b' (V w) (V w2)).
  { intros b' N. destruct vic as [v|]; [|by apply same_view_at, NoVic].
    destruct (Vic v eq_refl) as (F & _). exact (F b' (N v eq_refl)). }
  assert (L2' : forall j b', 0 <= j < n -> L1 (V w2) j b' = L1 (V w) j b').
  { intros j b' Hj. destruct vic as [v|]; [|by apply NoVic].
    destruct (Vic v eq_refl) as (F & L & _). destruct (decide (b' = tag v)) as [->|N]; [auto|].
    by apply (F b' N). }
  assert (Ka : L1 (V w') k a = st) by (by rewrite A2, decide_True).
  assert (Kb : forall b', b' <> a ->
    L1 (V w') k b' = if decide (vic = Some b /\ b' = tag b) then kInvalid else L1 (V w) k b').
  { intros b' N. rewrite A2, decide_False, Pk, <-Own by done. done. }
  destruct (S2 a) as (_ & SHa & L2a); [intros v Ev; apply Va in Ev; congruence|].
  split_and!; [|done|..].
  - intros b'. destruct (decide (b' = a)) as [->|N].
    + eapply granted_stored; [done|apply ll_index|done|done|done| |by rewrite A4|by rewrite A3].
      intros j Hj Nj. by rewrite A1, L2'.
    + destruct (decide (vic = Some b /\ b' = tag b)) as [[Ev ->]|Nv].
      * destruct (Vic b Ev) as (_ & _ & R). eapply released_dropped; [done| | |by rewrite A4|by left].
        { by rewrite Kb, decide_True. }
        { intros j Hj Nj. by rewrite A1. }
      * apply (ok_block_same n b' (V w)); [auto|]. eapply same_at_trans; [apply S2|].
        { intros v Ev ->. apply Nv. by rewrite <-(Vb v Ev). }
        split_and!; [|by rewrite A4|by left]. intros j Hj. destruct (decide (j = k)) as [->|Nj]; [|auto].
        by rewrite Kb, decide_False, L2' by done.
  - intros j Hj Nj. by rewrite A1, L2'.
  - intros b' N. split.
    { rewrite Kb by done. destruct (decide (vic = Some b /\ b' = tag b)); [by right|by left]. }
    intros j Hj Nj. by rewrite A1, L2'.
Qed.

Lemma wp_allocate lr a b st excl w (Q : () -> W -> Prop) :
  env w -> granted n (V w) k a excl -> (forall b', b' <> a -> ok_block n (V w) b') ->
  mesi st = true -> (writable st = true -> excl = true) ->
  handle (theCache (view me w)) lr a b ->
  (forall w', env w' -> stored a st (V w) (V w') -> Q () w') ->
  wp (lookup_allocate (cache_slot me) (evict me mret mret RequestOut) lr st) Q w.
Proof using LL SlotLaws0.
  intros E G Oth Ms Wr H K. pose proof (ll_own w E) as [Ok Own].
  unfold lookup_allocate, allocate. wp_steps. cbn [view cache_slot put].
  set (c1 := allocate_begin lr (theCache (view me w))).
  set (w1 := put me (set_cache c1 (view me w)) w).
  assert (V1 : view me w1 = set_cache c1 (view me w)) by apply view_put.
  assert (H1 : handle c1 lr a b) by (by apply handle_set_allocating).
  pose proof (set_allocating_effect (theCache (view me w)) true
                (get_tag (theCache (view me w)) (lr_address lr)) (proj1 Ok)) as Ef.
  pose proof (l1_ok_set_cache bm _ c1 _ Ok Ef) as Ok1.
  destruct (own_quiet w (set_cache c1 (view me w)) E Ok1) as [E1 S1]; [apply Ef|]. fold w1 in E1, S1.
  rewrite V1. cbn [theCache set_cache].
  destruct (allocate_victim lr c1) as [v|] eqn:Ev.
  - destruct (allocate_victim_spec c1 lr a b v (proj1 Ok1) H1 Ev) as (-> & Nt & Sv & Pv & Av).
    eapply wp_mono; [apply (evict_spec (tag b) (state b) w1)|].
    + done.
    + destruct Ok1 as (_ & T & _). unfold get_tag in Av. by rewrite <-T.
    + by rewrite V1.
    + done.
    + eapply ok_block_same; [apply Oth, Nt|by apply same_view_at].
    + intros [] w2 (E2 & (C2 & _) & F & L & R). cbn beta. wp_steps.
      rewrite V1 in C2. cbn in C2.
      assert (X : allocate_victim lr (theCache (view me w2)) = Some b) by (by rewrite C2).
      cbn [view cache_slot put]. rewrite <-C2. apply K; eapply (allocate_end_stored lr a b st excl w w2);
        try done; rewrite ?C2; try done; try (by apply Ef); rewrite Ev; try done;
        intros v' [= <-]; (split_and!; [|intros j Hj; rewrite L by done; by apply S1|done]);
        (eapply frame_trans; [|exact F]); intros b' _; by apply same_view_at.
  - wp_steps. cbn [view cache_slot put].
    assert (C1 : theCache (view me w1) = c1) by (by rewrite V1). rewrite <-C1.
    apply K; eapply (allocate_end_stored lr a b st excl w w1); try done; rewrite ?C1; try done;
      try (by apply Ef); by rewrite Ev.
Qed.

(** What a request of the processor for block [a] achieves. *)
Definition request_post (a : Z) (t : MemoryMessageType) (U U' : View) : Prop :=
  all_ok n U' /\ served t (L1 U k a) (L1 U' k a) /\ keeps_others a U U' /\
  (t = NonAllocatingStoreReq -> L1 U k a = kInvalid ->
   forall j, 0 <= j < n -> L1 U' j a = kInvalid).

Lemma request_post_same a t U U1 U' U2 :
  same_view U U1 -> same_view U' U2 -> request_post a t U1 U' -> request_post a t U U2.
Proof using LL.
  intros S1 S2 (O & Sv & Kp & Na). pose proof ll_index as Hk.
  assert (A1 : forall j b, 0 <= j < n -> L1 U1 j b = L1 U j b) by (intros; by apply S1).
  assert (A2 : forall j b, 0 <= j < n -> L1 U2 j b = L1 U' j b) by (intros; by apply S2).
  split_and!.
  - by eapply same_view_ok.
  - by rewrite A2, <-A1.
  - intros b N. destruct (Kp b N) as [K1 K2]. rewrite A2, <-A1 by done. split; [done|].
    intros j Hj Nj. rewrite A2, <-A1 by done. auto.
  - intros T I j Hj. rewrite A2 by done. apply Na; [done| |done]. by rewrite A1.
Qed.

(** Requests that the cache serves on its own. *)
Lemma local_post w x a t st' :
  env w -> all_ok n (V w) -> l1_ok bm x ->
  (forall b, peek (theCache x) b = only (theCache (view me w)) a st' b) ->
  mesi st' = true -> L1 (V w) k a <> kInvalid ->
  (writable st' = true -> writable (L1 (V w) k a) = true) ->
  served t (L1 (V w) k a) st' -> env (put me x w) /\ request_post a t (V w) (V (put me x w)).
Proof using LL SlotLaws0.
  intros E O Ok P Ms Vd Wr Sv. pose proof (ll_own w E) as [_ Own].
  destruct (own_put w x _ E Ok P) as (E' & A1 & A2 & A3 & A4). split; [done|].
  assert (Ka : L1 (V (put me x w)) k a = st') by (rewrite A2; unfold only; by rewrite decide_True).
  assert (Kb : forall b, b <> a -> L1 (V (put me x w)) k b = L1 (V w) k b).
  { intros b N. rewrite A2, Own. unfold only. by rewrite decide_False. }
  split_and!.
  - intros b. destruct (decide (b = a)) as [->|N].
    + apply (ok_own_change n k a (V w)); rewrite ?Ka; try done; [apply ll_index|auto].
    + apply (ok_block_same n b (V w)); [auto|]. split_and!; [|by rewrite A4|by left].
      intros j Hj. destruct (decide (j = k)) as [->|]; auto.
  - by rewrite Ka.
  - intros b N. split; [left; auto|]. intros j Hj Nj. auto.
  - done.
Qed.

Lemma local_lru lr a b t w (Q : () -> W -> Prop) :
  env w -> all_ok n (V w) -> handle (theCache (view me w)) lr a b -> L1 (V w) k a <> kInvalid ->
  served t (L1 (V w) k a) (L1 (V w) k a) ->
  (forall w', env w' /\ request_post a t (V w) (V w') -> Q () w') ->
  wp (lookup_updateLRU (cache_slot me) lr) Q w.
Proof using LL SlotLaws0.
  intros E O H Vd Sv K. pose proof (ll_own w E) as [Ok Own].
  eapply wp_updateLRU; [done..|]. intros c Okc Pc. apply K.
  apply (local_post w _ a t (L1 (V w) k a)); try done.
  - intros b'. cbn. by rewrite Pc, Own, only_same.
  - apply O, ll_index.
Qed.

Lemma local_change lr a b t st' mru lru w (Q : () -> W -> Prop) :
  env w -> all_ok n (V w) -> handle (theCache (view me w)) lr a b ->
  mesi st' = true -> L1 (V w) k a <> kInvalid ->
  (writable st' = true -> writable (L1 (V w) k a) = true) ->
  served t (L1 (V w) k a) st' ->
  (forall w', env w' /\ request_post a t (V w) (V w') -> Q () w') ->
  wp (lookup_changeState (cache_slot me) lr st' mru lru) Q w.
Proof using LL SlotLaws0.
  intros E O H Ms Vd Wr Sv K. pose proof (ll_own w E) as [Ok Own].
  eapply (wp_changeState me bm lr a b); [done|done| |].
  { apply (handle_present _ lr a b H). by rewrite <-Own. }
  intros c Okc Pc. apply K. by apply (local_post w _ a t st').
Qed.

(** A shared copy becomes writable: the level below takes the others away. *)
Lemma upgrade_post lr a b t st' mru lru (f : MemoryMessage -> MemoryMessage) msg w :
  env w -> all_ok n (V w) -> handle (theCache (view me w)) lr a b ->
  a = Z.land (theAddress msg) bm -> L1 (V w) k a = kShared ->
  mesi st' = true -> writable st' = true -> served t kShared st' ->
  wp (message ← forwardMessage RequestOut (set_type UpgradeReq msg);
      lookup_changeState (cache_slot me) lr st' mru lru;; mret (f message))
     (fun _ w' => env w' /\ request_post a t (V w) (V w')) w.
Proof using LL SlotLaws0.
  intros E O H Ea Sh Ms Wr Sv. unfold forwardMessage. wp_step.
  eapply wp_mono; [apply ll_miss|]; rewrite ?theAddress_set_type, <-?Ea; [done|auto|by rewrite Sh|].
  intros m w2 (E2 & V2 & F & excl & G & An). destruct An as [_ ->].
  pose proof (ll_own w E) as [Ok Own]. wp_step.
  eapply (wp_changeState me bm lr a b); rewrite ?V2; [done|done| |].
  { apply (handle_present _ lr a b H). by rewrite <-Own, Sh. }
  intros c Okc Pc. wp_step. destruct (own_put w2 _ _ E2 Okc Pc) as (E3 & A1 & A2 & A3 & A4).
  rewrite <-V2 in *. set (w3 := put me _ _) in *. split; [done|].
  assert (Ka : L1 (V w3) k a = st') by (rewrite A2; unfold only; by rewrite decide_True).
  assert (Kb : forall b', b' <> a -> L1 (V w3) k b' = L1 (V w) k b').
  { intros b' N. rewrite A2, Own. unfold only. by rewrite decide_False, V2. }
  split_and!.
  - intros b'. destruct (decide (b' = a)) as [->|N].
    + eapply granted_stored; [done|apply ll_index|done|done|done|auto|by rewrite A4|by left].
    + apply (ok_block_same n b' (V w)); [auto|]. eapply same_at_trans; [exact (F b' N)|].
      split_and!; [|by rewrite A4|by left]. intros j Hj. destruct (decide (j = k)) as [->|]; [|auto].
      rewrite Kb by done. symmetry. by apply (F b' N).
  - by rewrite Ka, Sh.
  - intros b' N. split; [left; auto|]. intros j Hj Nj. rewrite A1 by done. by apply (F b' N).
  - rewrite Sh. done.
Qed.

(** A miss: the level below answers, and the block is stored in a state that
    the answer allows. *)
Lemma miss_post lr a b t T msg w (pick : MemoryMessage -> outcome (CoherenceState_t * MemoryMessage)) :
  env w -> all_ok n (V w) -> handle (theCache (view me w)) lr a b ->
  a = Z.land (theAddress msg) bm -> may_ask T (L1 (V w) k a) -> t <> NonAllocatingStoreReq ->
  (forall m excl, answers T (theType m) excl -> exists st m', pick m = Done (st, m') /\
     mesi st = true /\ (writable st = true -> excl = true) /\ served t (L1 (V w) k a) st) ->
  wp (message ← forwardMessage RequestOut (set_type T msg);
      r ← lift (pick message);
      lookup_allocate (cache_slot me) (evict me mret mret RequestOut) lr (fst r);;
      mret (snd r))
     (fun _ w' => env w' /\ request_post a t (V w) (V w')) w.
Proof using LL SlotLaws0.
  intros E O H Ea Ask Nt Pick. unfold forwardMessage. wp_step.
  eapply wp_mono; [apply ll_miss|]; rewrite ?theAddress_set_type, <-?Ea; [done|auto|done|].
  intros m w2 (E2 & V2 & F & excl & G & An).
  destruct (Pick m excl An) as (st & m' & -> & Ms & Wr & Sv). wp_step. unfold wp at 1. cbn [lift fst snd].
  wp_step. eapply (wp_allocate lr a b st excl); [done|done| |done|done|by rewrite V2|].
  { intros b' N. eapply ok_block_same; [apply O|exact (F b' N)]. }
  intros w3 E3 (O3 & K3 & S3 & Kp). wp_step. split; [done|]. split_and!; [done|by rewrite K3| |done].
  intros b' N. destruct (Kp b' N) as [K1 K2]. destruct (F b' N) as (F1 & _). split.
  - rewrite <-(F1 k) by apply ll_index. done.
  - intros j Hj Nj. by rewrite K2, F1.
Qed.

(** The same, when the stored state does not depend on a choice. *)
Lemma miss_post_fixed lr a b t T msg w (st : MemoryMessage -> CoherenceState_t)
    (f : MemoryMessage -> MemoryMessage) :
  env w -> all_ok n (V w) -> handle (theCache (view me w)) lr a b ->
  a = Z.land (theAddress msg) bm -> may_ask T (L1 (V w) k a) -> t <> NonAllocatingStoreReq ->
  (forall m excl, answers T (theType m) excl ->
     mesi (st m) = true /\ (writable (st m) = true -> excl = true) /\
     served t (L1 (V w) k a) (st m)) ->
  wp (message ← forwardMessage RequestOut (set_type T msg);
      lookup_allocate (cache_slot me) (evict me mret mret RequestOut) lr (st message);;
      mret (f message))
     (fun _ w' => env w' /\ request_post a t (V w) (V w')) w.
Proof using LL SlotLaws0.
  intros E O H Ea Ask Nt Pick.
  apply (miss_post lr a b t T msg w (fun m => Done (st m, f m))); try done.
  intros m excl An. destruct (Pick m excl An) as (? & ? & ?). by eauto 10.
Qed.

(** A store that does not allocate, of a block the cache does not hold. *)
Lemma store_post a msg w :
  env w -> all_ok n (V w) -> a = Z.land (theAddress msg) bm -> L1 (V w) k a = kInvalid ->
  theType msg = NonAllocatingStoreReq ->
  wp (forwardMessage RequestOut msg)
     (fun _ w' => env w' /\ request_post a NonAllocatingStoreReq (V w) (V w')) w.
Proof using LL.
  intros E O Ea I T. unfold forwardMessage.
  eapply wp_mono; [apply ll_store|]; rewrite <-?Ea; [done|auto|done|done|].
  intros m w2 (E2 & V2 & F & Ok & No & _). split; [done|]. split_and!.
  - intros b. destruct (decide (b = a)) as [->|N]; [done|].
    eapply ok_block_same; [apply O|exact (F b N)].
  - cbn. rewrite I, decide_True by done. apply No, ll_index.
  - intros b N. destruct (F b N) as (F1 & _). split; [left; apply F1, ll_index|auto].
  - done.
Qed.

(** Every row of the MESI table that a request of the processor can reach. *)
Lemma action_spec u d s lr a b msg w :
  env w -> all_ok n (V w) -> handle (theCache (view me w)) lr a b ->
  a = Z.land (theAddress msg) bm -> cpu_request (theType msg) = true ->
  exists acc act stat, message2access (theType msg) = Done acc /\
    getCoherenceAction (InclusiveMESI u d s) (L1 (V w) k a) acc = Done (act, stat) /\
    wp (doCoherenceAction (cache_slot me) (forwardMessage RequestOut)
          (evict me mret mret RequestOut) act lr msg)
       (fun _ w' => env w' /\ request_post a (theType msg) (V w) (V w')) w.
Proof using LL SlotLaws0.
  intros E O H Ea Rq. assert (Ms : mesi (L1 (V w) k a) = true) by apply O, ll_index.
  destruct (L1 (V w) k a) eqn:St; try done; destruct (theType msg) eqn:T; try done; destruct u;
    do 3 eexists; (split; [reflexivity|]); (split; [vm_compute; reflexivity|]);
    cbn [doCoherenceAction]; rewrite ?T; cbn [type_eqb type_code Z.eqb Pos.eqb];
    lazymatch goal with
    | |- wp (lookup_updateLRU _ _ ≫= _) _ _ =>
        wp_step; eapply (local_lru lr a b _ w _ E O H); rewrite ?St; [done| |intros w' K; wp_step; exact K]; done
    | |- wp (lookup_changeState _ _ _ _ _ ≫= _) _ _ =>
        wp_step; eapply (local_change lr a b _ _ _ _ w _ E O H); rewrite ?St; [done|done|done| |intros w' K; wp_step; exact K]; done
    | |- wp (forwardMessage _ (set_type UpgradeReq _) ≫= _) _ _ =>
        eapply (upgrade_post lr a b); done
    | |- wp (forwardMessage _ (set_type ReadReq _) ≫= _) _ _ =>
        apply (miss_post lr a b); rewrite ?St; [done..|];
        intros m excl An; unfold read_fill; destruct An as [[-> ->]|[[-> | ->] ->]];
        do 2 eexists; split_and!; done
    | |- wp (forwardMessage _ (set_type WriteReq _) ≫=
             (fun _ => lookup_allocate _ _ _ ?st ≫= _)) _ _ =>
        apply (miss_post_fixed lr a b _ WriteReq msg w (fun _ => st) (fun m => m) E O H Ea);
        rewrite ?St; [done|done|]; intros m excl [_ ->]; done
    | |- wp (forwardMessage _ (set_type FetchReq _) ≫= _) _ _ =>
        apply (miss_post_fixed lr a b _ FetchReq msg w
          (fun m => if type_eqb (theType m) FwdReplyOwned then kOwned else kShared)
          (set_type MissReply) E O H Ea);
        rewrite ?St; [done|done|]; intros m excl ->; done
    | |- wp (forwardMessage _ _) _ _ => by apply store_post
    end.
Qed.

Lemma push_RequestIn_spec msg w :
  let a := Z.land (theAddress msg) bm in
  env w -> all_ok n (V w) -> cpu_request (theType msg) = true ->
  wp (push_RequestIn me mret mret RequestOut msg)
     (fun _ w' => env w' /\ request_post a (theType msg) (V w) (V w')) w.
Proof using LL SlotLaws0.
  intros a E O Rq. pose proof (ll_own w E) as [Ok Own]. pose proof Ok as (Wf & T & B & u & d & s & P).
  unfold push_RequestIn. wp_step. wp_step. cbn beta zeta. rewrite B, P. fold a. wp_step.
  assert (exists acc, message2access (theType msg) = Done acc) as [acc Acc]
    by (destruct (theType msg); try done; by eexists).
  rewrite Acc. unfold wp at 1. cbn [lift]. wp_step.
  apply (wp_snoop_lookup me bm); [done|apply land_idem|].
  intros lr c b Ok1 Pk H St. wp_step. wp_step. cbn beta.
  set (w1 := put me (set_cache c (view me w)) w).
  assert (V1 : view me w1 = set_cache c (view me w)) by apply view_put.
  destruct (own_quiet w (set_cache c (view me w)) E Ok1 Pk) as [E1 S1]. fold w1 in E1, S1.
  destruct (action_spec u d s lr a b msg w1) as (acc' & act & stat & Acc' & Act & R);
    [done|by eapply same_view_ok|by rewrite V1|done|done|].
  assert (acc' = acc) as -> by congruence.
  cbn [view cache_slot]. rewrite V1. cbn [theCache set_cache].
  rewrite St, <-Own, <-(proj1 (S1 a) k) by apply ll_index.
  rewrite Act. wp_step. unfold wp at 1. cbn [lift fst snd]. wp_step.
  eapply wp_mono; [exact R|]. intros m w2 [E2 P2]. wp_steps.
  pose proof (ll_own w2 E2) as [Ok2 _].
  destruct (own_quiet w2 (set_stats (bump stat (theStats (view me w2))) (view me w2)) E2)
    as [E3 S3]; [done|done|]. split; [done|].
  by eapply request_post_same.
Qed.

Lemma push_FetchRequestIn_spec msg w :
  let a := Z.land (theAddress msg) bm in
  env w -> all_ok n (V w) -> cpu_request (theType msg) = true ->
  wp (push_FetchRequestIn me mret mret RequestOut msg)
     (fun _ w' => env w' /\ request_post a (theType msg) (V w) (V w')) w.
Proof using LL SlotLaws0.
  intros a E O Rq. exact (push_RequestIn_spec (set_dstream false msg) w E O Rq).
Qed.
End requests.

(** ** A cache on its own *)

Definition alone (x : FastCache) : Prop := l1_ok (theBlockMask x) x.

(** C19 (snoops refine the abstract answer): a cache with the MESI protocol and
    nothing above it answers every invalidation, downgrade and return request
    as [snoop_answer] says for the state it holds, moves that block to the
    state [snoop_answer] gives, and changes the state of no other block. *)
Theorem snoop_refines_answer (x : FastCache) (msg : MemoryMessage) :
  let a := Z.land (theAddress msg) (theBlockMask x) in
  let r := snoop_answer (peek (theCache x) a) (theType msg) in
  alone x -> mesi (peek (theCache x) a) = true -> snoop_request (theType msg) = true ->
  exists x', push_SnoopIn self_slot mret mret msg x = Done (set_type (snd r) msg, x') /\ alone x' /\
    forall b, peek (theCache x') b = if decide (b = a) then fst r else peek (theCache x) b.
Proof.
  intros a r Ok Ms Rq.
  pose proof (push_SnoopIn_spec self_slot (theBlockMask x) msg x Ok Ms Rq) as S.
  apply wp_done in S as (m & x' & E & -> & y & -> & Oky & Pk). exists y. split_and!.
  - exact E.
  - unfold alone. destruct Oky as (W & T & B & P). rewrite B. by split_and!.
  - exact Pk.
Qed.

Definition snoop_sample : FastCache :=
  mkFastCache (InclusiveMESI false false false) lru_sample ∅ (Z.lnot 63)
    (newMessage EvictDirty 0) (newMessage Invalidate 0) true.

Lemma snoop_refines_answer_witness :
  exists x', push_SnoopIn self_slot mret mret (newMessage ReturnReq 8) snoop_sample =
               Done (newMessage ReturnReplyDirty 8, x') /\
    peek (theCache x') 0 = kShared /\ peek (theCache x') 64 = kShared.
Proof.
  destruct (snoop_refines_answer snoop_sample (newMessage ReturnReq 8)) as (x' & E & _ & P);
    [|done|done|].
  - split_and!; [exact lru_sample_wf|done|done|]. by exists false, false, false.
  - exists x'. split; [exact E|]. rewrite !P. by split.
Defined.

(** C37 (stores and InclusiveMOESI): a cache configured with the MOESI protocol
    fails an assertion on every store, read-modify-write and compare and
    exchange, whatever it holds and whatever is below it: the protocol has no
    row for a store. *)
Theorem moesi_asserts_on_stores {W} (me : Slot W FastCache) (SnoopOutI SnoopOutD RequestOut :
    MemoryMessage -> M W MemoryMessage) (u d s : bool) (msg : MemoryMessage) (w : W) :
  theProtocol (view me w) = InclusiveMOESI u d s ->
  theType msg = StoreReq \/ theType msg = RMWReq \/ theType msg = CmpxReq ->
  push_RequestIn me SnoopOutI SnoopOutD RequestOut msg w =
    Assert "Invalid Coherence State+Request Pair".
Proof.
  intros P T. assert (A : message2access (theType msg) = Done kStoreAccess)
    by (by destruct T as [->|[->| ->]]).
  assert (N : forall st, getCoherenceAction (InclusiveMOESI u d s) st kStoreAccess =
    Assert "Invalid Coherence State+Request Pair")
    by (intros st; destruct st, u; reflexivity).
  unfold push_RequestIn, mbind, M_bind. cbn [gets]. rewrite A, P. cbn [lift].
  unfold snoop_lookup, update, modify, mbind, M_bind. cbn [gets mret M_ret]. by rewrite N.
Qed.

Lemma moesi_asserts_on_stores_witness :
  push_RequestIn self_slot mret mret mret (newMessage StoreReq 0)
    (mkFastCache (InclusiveMOESI false false false) lru_sample ∅ (Z.lnot 63)
       (newMessage EvictDirty 0) (newMessage Invalidate 0) true) =
    Assert "Invalid Coherence State+Request Pair".
Proof.
  apply (moesi_asserts_on_stores self_slot mret mret mret false false false); [reflexivity|by left].
Defined.
