(* ===== verification/SingleCMPProtocol.v ===== *)
(** * The chip-level protocol

    components/FastCMPCache/SingleCMPProtocol.cpp with [PrimaryAction] and
    [SharingState] of AbstractProtocol.hpp: a table from the state of the block
    in the chip-level cache, the number of sharers above and the request to the
    snoops to send, the answer to give and the state to move to. *)

From S2P Require Import Prelude Messages StdCache Directory Coherence.
From stdpp Require Import base list strings.
From Stdlib Require Import ZArith Lia.

Local Open Scope Z_scope.

(** [#define NoRequest NumMemoryMessageTypes], and the same for [NO_RESP]. *)
Abbreviation NoRequest := NumMemoryMessageTypes.
Abbreviation NO_RESP := NumMemoryMessageTypes.

(** The two-element arrays of the code are pairs of fields. *)
Record PrimaryAction : Type := mkPrimary {
  snoop_type : MemoryMessageType;
  terminal_response0 : MemoryMessageType;
  terminal_response1 : MemoryMessageType;
  response0 : MemoryMessageType;
  response1 : MemoryMessageType;
  next_state0 : CoherenceState_t;
  next_state1 : CoherenceState_t;
  multicast : bool;
  forward_request : bool;
  act_allocate : bool;
  act_update : bool;
  act_stat : string;
  poison : bool;
}.

Definition ProtocolKey : Type := CoherenceState_t * SharingState * MemoryMessageType.
Definition ProtocolRow : Type := ProtocolKey * PrimaryAction.

(** The statistic [CacheStats::req##_##c_state##_##d_state]. *)
Definition state_token (s : CoherenceState_t) : string :=
  match s with
  | kMigratory => "kMigratory" | kModified => "kModified" | kOwned => "kOwned"
  | kExclusive => "kExclusive" | kShared => "kShared" | kInvalid => "kInvalid"
  end.
Definition sharing_token (s : SharingState) : string :=
  match s with
  | ZeroSharers => "ZeroSharers" | OneSharer => "OneSharer" | ManySharers => "ManySharers"
  end.
Definition request_token (t : MemoryMessageType) : string :=
  match t with
  | ReadReq => "ReadReq" | FetchReq => "FetchReq" | UpgradeReq => "UpgradeReq"
  | WriteReq => "WriteReq" | NonAllocatingStoreReq => "NonAllocatingStoreReq"
  | EvictClean => "EvictClean" | EvictWritable => "EvictWritable" | EvictDirty => "EvictDirty"
  | _ => "NoStat"
  end.
Definition protocol_stat (req : MemoryMessageType) (c : CoherenceState_t) (d : SharingState) : string :=
  request_token req +:+ "_" +:+ state_token c +:+ "_" +:+ sharing_token d.

(** [ADD_ACTION] and [ADD_POISON_ACTION]. *)
Definition action (req : MemoryMessageType) (c_state : CoherenceState_t) (d_state : SharingState)
    (snoop terminal1 terminal2 resp1 resp2 : MemoryMessageType) (ns1 ns2 : CoherenceState_t)
    (multi fwd alloc upd : bool) : ProtocolRow :=
  ((c_state, d_state, req),
   mkPrimary snoop terminal1 terminal2 resp1 resp2 ns1 ns2 multi fwd alloc upd
     (protocol_stat req c_state d_state) false).
Definition poison_row (req : MemoryMessageType) (c_state : CoherenceState_t) (d_state : SharingState)
    : ProtocolRow :=
  ((c_state, d_state, req),
   mkPrimary NumMemoryMessageTypes NumMemoryMessageTypes NumMemoryMessageTypes NumMemoryMessageTypes
     NumMemoryMessageTypes kInvalid kInvalid false false false false "NoStat" true).

(** ** [initializeProtocol] *)

Definition ReadReq_rows : list ProtocolRow :=
  [action ReadReq kModified ZeroSharers NoRequest NoRequest NoRequest MissReplyDirty NO_RESP kInvalid kInvalid
     false false false true;
   action ReadReq kModified OneSharer NoRequest NoRequest NoRequest MissReply NO_RESP kModified kModified
     false false false true;
   action ReadReq kModified ManySharers NoRequest NoRequest NoRequest MissReply NO_RESP kModified kModified
     false false false true;
   action ReadReq kExclusive ZeroSharers NoRequest NoRequest NoRequest MissReplyWritable NO_RESP kExclusive kExclusive
     false false false true;
   action ReadReq kExclusive OneSharer ReturnReq ReturnReply ReturnReplyDirty MissReply MissReply kExclusive kModified
     false false false true;
   action ReadReq kExclusive ManySharers NoRequest NoRequest NoRequest MissReply NO_RESP kExclusive kExclusive
     false false false true;
   action ReadReq kShared ZeroSharers NoRequest NoRequest NoRequest MissReply NO_RESP kShared kShared
     false false false true;
   action ReadReq kShared OneSharer NoRequest NoRequest NoRequest MissReply NO_RESP kShared kShared
     false false false true;
   action ReadReq kShared ManySharers NoRequest NoRequest NoRequest MissReply NO_RESP kShared kShared
     false false false true;
   action ReadReq kInvalid ZeroSharers NoRequest NoRequest NoRequest MissReplyWritable NO_RESP kExclusive kExclusive
     false true true true;
   action ReadReq kInvalid OneSharer ReturnReq ReturnReply ReturnReplyDirty MissReply MissReply kShared kModified
     false false true true;
   action ReadReq kInvalid ManySharers ReturnReq ReturnReply ReturnReplyDirty MissReply MissReply kShared kModified
     false false true true].

Definition FetchReq_rows : list ProtocolRow :=
  [action FetchReq kModified ZeroSharers NoRequest NoRequest NoRequest MissReply NO_RESP kModified kModified
     false false false true;
   action FetchReq kModified OneSharer ReturnReq ReturnReply ReturnReplyDirty MissReply MissReply kModified kModified
     false false false true;
   action FetchReq kModified ManySharers NoRequest NoRequest NoRequest MissReply NO_RESP kModified kModified
     false false false true;
   action FetchReq kExclusive ZeroSharers NoRequest NoRequest NoRequest MissReply NO_RESP kExclusive kExclusive
     false false false true;
   action FetchReq kExclusive OneSharer ReturnReq ReturnReply ReturnReplyDirty MissReply MissReply kExclusive kModified
     false false false true;
   action FetchReq kExclusive ManySharers NoRequest NoRequest NoRequest MissReply NO_RESP kExclusive kExclusive
     false false false true;
   action FetchReq kShared ZeroSharers NoRequest NoRequest NoRequest MissReply NO_RESP kShared kShared
     false false false true;
   action FetchReq kShared OneSharer NoRequest NoRequest NoRequest MissReply NO_RESP kShared kShared
     false false false true;
   action FetchReq kShared ManySharers NoRequest NoRequest NoRequest MissReply NO_RESP kShared kShared
     false false false true;
   action FetchReq kInvalid ZeroSharers NoRequest NoRequest NoRequest MissReply NO_RESP kShared kShared
     false true true true;
   action FetchReq kInvalid OneSharer ReturnReq ReturnReply ReturnReplyDirty MissReply MissReply kShared kModified
     false false true true;
   action FetchReq kInvalid ManySharers ReturnReq ReturnReply ReturnReplyDirty MissReply NO_RESP kShared kModified
     false false true true].

Definition UpgradeReq_rows : list ProtocolRow :=
  [poison_row UpgradeReq kModified ZeroSharers;
   action UpgradeReq kModified OneSharer NoRequest NoRequest NoRequest UpgradeReply NO_RESP kInvalid kInvalid
     false false false true;
   action UpgradeReq kModified ManySharers Invalidate InvalidateAck InvUpdateAck UpgradeReply UpgradeReply kInvalid kInvalid
     true false false true;
   poison_row UpgradeReq kExclusive ZeroSharers;
   action UpgradeReq kExclusive OneSharer NoRequest NoRequest NoRequest UpgradeReply NO_RESP kInvalid kInvalid
     false false false true;
   action UpgradeReq kExclusive ManySharers Invalidate InvalidateAck InvUpdateAck UpgradeReply UpgradeReply kInvalid kInvalid
     true false false true;
   poison_row UpgradeReq kShared ZeroSharers;
   action UpgradeReq kShared OneSharer NoRequest NoRequest NoRequest UpgradeReply NO_RESP kInvalid kInvalid
     false false false true;
   action UpgradeReq kShared ManySharers Invalidate InvalidateAck InvUpdateAck UpgradeReply UpgradeReply kInvalid kInvalid
     true false false true;
   poison_row UpgradeReq kInvalid ZeroSharers;
   action UpgradeReq kInvalid OneSharer NoRequest NoRequest NoRequest UpgradeReply NO_RESP kInvalid kInvalid
     false false false true;
   action UpgradeReq kInvalid ManySharers Invalidate InvalidateAck InvUpdateAck UpgradeReply UpgradeReply kInvalid kInvalid
     true false false true].

Definition WriteReq_rows : list ProtocolRow :=
  [action WriteReq kModified ZeroSharers NoRequest NoRequest NoRequest MissReplyDirty NO_RESP kInvalid kInvalid
     false false false true;
   action WriteReq kModified OneSharer Invalidate InvalidateAck InvUpdateAck MissReplyDirty MissReplyDirty kInvalid kInvalid
     false false false true;
   action WriteReq kModified ManySharers Invalidate InvalidateAck InvUpdateAck MissReplyDirty MissReplyDirty kInvalid kInvalid
     true false false true;
   action WriteReq kExclusive ZeroSharers NoRequest NoRequest NoRequest MissReplyWritable NO_RESP kInvalid kInvalid
     false false false true;
   action WriteReq kExclusive OneSharer Invalidate InvalidateAck InvUpdateAck MissReply MissReplyDirty kInvalid kInvalid
     false false false true;
   action WriteReq kExclusive ManySharers Invalidate InvalidateAck InvUpdateAck MissReply MissReplyDirty kInvalid kInvalid
     true false false true;
   action WriteReq kShared ZeroSharers NoRequest NoRequest NoRequest MissReplyWritable NO_RESP kInvalid kInvalid
     false false false true;
   action WriteReq kShared OneSharer Invalidate InvalidateAck InvUpdateAck MissReply MissReply kInvalid kInvalid
     false false false true;
   action WriteReq kShared ManySharers Invalidate InvalidateAck InvUpdateAck MissReply NO_RESP kInvalid kInvalid
     true false false true;
   action WriteReq kInvalid ZeroSharers NoRequest NoRequest NoRequest MissReplyWritable NO_RESP kInvalid kInvalid
     false true false true;
   action WriteReq kInvalid OneSharer Invalidate InvalidateAck InvUpdateAck MissReply MissReply kInvalid kInvalid
     false false false true;
   action WriteReq kInvalid ManySharers Invalidate InvalidateAck InvUpdateAck MissReply NO_RESP kInvalid kInvalid
     true false false true].

Definition NonAllocatingStoreReq_rows : list ProtocolRow :=
  [action NonAllocatingStoreReq kModified ZeroSharers NoRequest NoRequest NoRequest NonAllocatingStoreReply NO_RESP kModified kModified
     false false false true;
   action NonAllocatingStoreReq kModified OneSharer Invalidate InvalidateAck InvUpdateAck NonAllocatingStoreReply NonAllocatingStoreReply kModified kModified
     false false false true;
   action NonAllocatingStoreReq kModified ManySharers Invalidate InvalidateAck InvUpdateAck NonAllocatingStoreReply NonAllocatingStoreReply kModified kModified
     true false false true;
   action NonAllocatingStoreReq kExclusive ZeroSharers NoRequest NoRequest NoRequest NonAllocatingStoreReply NO_RESP kModified kModified
     false false false true;
   action NonAllocatingStoreReq kExclusive OneSharer Invalidate InvalidateAck InvUpdateAck NonAllocatingStoreReply NonAllocatingStoreReply kModified kModified
     false false false true;
   action NonAllocatingStoreReq kExclusive ManySharers Invalidate InvalidateAck InvUpdateAck NonAllocatingStoreReply NonAllocatingStoreReply kModified kModified
     true false false true;
   action NonAllocatingStoreReq kShared ZeroSharers NoRequest NoRequest NoRequest NonAllocatingStoreReply NO_RESP kModified kModified
     false false false true;
   action NonAllocatingStoreReq kShared OneSharer Invalidate InvalidateAck InvUpdateAck NonAllocatingStoreReply NonAllocatingStoreReply kModified kModified
     false false false true;
   action NonAllocatingStoreReq kShared ManySharers Invalidate InvalidateAck InvUpdateAck NonAllocatingStoreReply NO_RESP kModified kModified
     true false false true;
   action NonAllocatingStoreReq kInvalid ZeroSharers NoRequest NoRequest NoRequest NonAllocatingStoreReply NO_RESP kInvalid kInvalid
     false true false true;
   action NonAllocatingStoreReq kInvalid OneSharer Invalidate NoRequest NoRequest NonAllocatingStoreReply NonAllocatingStoreReply kInvalid kInvalid
     false true false true;
   action NonAllocatingStoreReq kInvalid ManySharers Invalidate NoRequest NoRequest NonAllocatingStoreReply NO_RESP kInvalid kInvalid
     true true false true].

Definition EvictClean_rows : list ProtocolRow :=
  [poison_row EvictClean kModified ZeroSharers;
   action EvictClean kModified OneSharer NoRequest NoRequest NoRequest NO_RESP NO_RESP kModified kModified
     false false false false;
   action EvictClean kModified ManySharers NoRequest NoRequest NoRequest NO_RESP NO_RESP kModified kModified
     false false false false;
   poison_row EvictClean kExclusive ZeroSharers;
   action EvictClean kExclusive OneSharer NoRequest NoRequest NoRequest NO_RESP NO_RESP kExclusive kExclusive
     false false false false;
   action EvictClean kExclusive ManySharers NoRequest NoRequest NoRequest NO_RESP NO_RESP kExclusive kExclusive
     false false false false;
   poison_row EvictClean kShared ZeroSharers;
   action EvictClean kShared OneSharer NoRequest NoRequest NoRequest NO_RESP NO_RESP kShared kShared
     false false false false;
   action EvictClean kShared ManySharers NoRequest NoRequest NoRequest NO_RESP NO_RESP kShared kShared
     false false false false;
   poison_row EvictClean kInvalid ZeroSharers;
   action EvictClean kInvalid OneSharer NoRequest NoRequest NoRequest NO_RESP NO_RESP kInvalid kInvalid
     false false false false;
   action EvictClean kInvalid ManySharers NoRequest NoRequest NoRequest NO_RESP NO_RESP kInvalid kInvalid
     false false false false].

Definition EvictWritable_rows : list ProtocolRow :=
  [poison_row EvictWritable kModified ZeroSharers;
   action EvictWritable kModified OneSharer NoRequest NoRequest NoRequest NO_RESP NO_RESP kModified kModified
     false false false false;
   poison_row EvictWritable kModified ManySharers;
   poison_row EvictWritable kExclusive ZeroSharers;
   action EvictWritable kExclusive OneSharer NoRequest NoRequest NoRequest NO_RESP NO_RESP kExclusive kExclusive
     false false false false;
   poison_row EvictWritable kExclusive ManySharers;
   poison_row EvictWritable kShared ZeroSharers;
   poison_row EvictWritable kShared OneSharer;
   poison_row EvictWritable kShared ManySharers;
   poison_row EvictWritable kInvalid ZeroSharers;
   action EvictWritable kInvalid OneSharer NoRequest NoRequest NoRequest NO_RESP NO_RESP kExclusive kExclusive
     false false true false;
   poison_row EvictWritable kInvalid ManySharers].

Definition EvictDirty_rows : list ProtocolRow :=
  [poison_row EvictDirty kModified ZeroSharers;
   poison_row EvictDirty kModified OneSharer;
   poison_row EvictDirty kModified ManySharers;
   poison_row EvictDirty kExclusive ZeroSharers;
   action EvictDirty kExclusive OneSharer NoRequest NoRequest NoRequest NO_RESP NO_RESP kModified kModified
     false false true false;
   poison_row EvictDirty kExclusive ManySharers;
   poison_row EvictDirty kShared ZeroSharers;
   poison_row EvictDirty kShared OneSharer;
   poison_row EvictDirty kShared ManySharers;
   poison_row EvictDirty kInvalid ZeroSharers;
   action EvictDirty kInvalid OneSharer NoRequest NoRequest NoRequest NO_RESP NO_RESP kModified kModified
     false false true false;
   poison_row EvictDirty kInvalid ManySharers].

Definition theProtocolHash : list ProtocolRow :=
  ReadReq_rows ++ FetchReq_rows ++ UpgradeReq_rows ++ WriteReq_rows ++ NonAllocatingStoreReq_rows ++ EvictClean_rows ++ EvictWritable_rows ++ EvictDirty_rows.

#[export] Instance ProtocolKey_eq_dec : EqDecision ProtocolKey.
Proof. solve_decision. Defined.

Module SingleCMP.
(** The composite key of the hash is unique: an [insert] of a present key has
    no effect, so the first row of a key is the one [find] gives. *)
Definition getAction (c_state : CoherenceState_t) (d_state : SharingState)
    (type : MemoryMessageType) : outcome PrimaryAction :=
  match find_by fst (c_state, d_state, type) theProtocolHash with
  | Some (_, a) => if poison a then Assert "Poison Action!" else Done a
  | None => Assert "Poison Action!"
  end.

Definition evict (state : CoherenceState_t) : MemoryMessageType :=
  if state_eqb state kModified then EvictDirty else EvictClean.
End SingleCMP.

(** ** What every row of the table keeps to *)

(** The requests of the first-level caches. *)
Definition l2_request (t : MemoryMessageType) : bool :=
  match t with
  | ReadReq | FetchReq | UpgradeReq | WriteReq | NonAllocatingStoreReq
  | EvictClean | EvictWritable | EvictDirty => true
  | _ => false
  end.

(** The requests that may go on to memory, and those that may snoop. *)
Definition goes_below (t : MemoryMessageType) : bool :=
  match t with ReadReq | FetchReq | WriteReq | NonAllocatingStoreReq => true | _ => false end.
Definition goes_above (t : MemoryMessageType) : bool := goes_below t || type_eqb t UpgradeReq.

(** Snoops end with the answers of a copy that was clean or dirty, or never. *)
Definition terminals_ok (a : PrimaryAction) : bool :=
  match snoop_type a with
  | Invalidate =>
      (type_eqb (terminal_response0 a) InvalidateAck && type_eqb (terminal_response1 a) InvUpdateAck) ||
      (type_eqb (terminal_response0 a) NoRequest && type_eqb (terminal_response1 a) NoRequest)
  | ReturnReq =>
      type_eqb (terminal_response0 a) ReturnReply && type_eqb (terminal_response1 a) ReturnReplyDirty
  | NumMemoryMessageTypes => true
  | _ => false
  end.

Definition row_ok (r : ProtocolRow) : bool :=
  let '((c, d, t), a) := r in
  poison a ||
  (l2_request t && terminals_ok a && mesi (next_state0 a) && mesi (next_state1 a) &&
   (negb (forward_request a) || goes_below t) &&
   (type_eqb (snoop_type a) NoRequest || goes_above t) &&
   (act_allocate a || negb (state_eqb c kInvalid) ||
    state_eqb (next_state0 a) kInvalid && state_eqb (next_state1 a) kInvalid)).

Lemma rows_ok : forallb row_ok theProtocolHash = true.
Proof. vm_compute. reflexivity. Qed.

Lemma getAction_row c d t a :
  SingleCMP.getAction c d t = Done a -> row_ok ((c, d, t), a) = true /\ poison a = false.
Proof.
  unfold SingleCMP.getAction. destruct (find_by _ _ _) as [[k a']|] eqn:F; [|done].
  apply find_by_Some in F as [I E]. cbn in E. subst k.
  destruct (poison a') eqn:P; [done|]. intros [= <-]. split; [|done].
  apply list_elem_of_In in I. pose proof rows_ok as R. rewrite forallb_forall in R. by apply R.
Qed.

(** A row that is not poison, read as a statement. *)
Record row_spec (c : CoherenceState_t) (t : MemoryMessageType) (a : PrimaryAction) : Prop := {
  row_request : l2_request t = true;
  row_terminals : terminals_ok a = true;
  row_next0 : mesi (next_state0 a) = true;
  row_next1 : mesi (next_state1 a) = true;
  row_below : forward_request a = true -> goes_below t = true;
  row_above : snoop_type a <> NoRequest -> goes_above t = true;
  row_invalid : act_allocate a = false -> c = kInvalid ->
    next_state0 a = kInvalid /\ next_state1 a = kInvalid;
}.

Lemma getAction_spec c d t a : SingleCMP.getAction c d t = Done a -> row_spec c t a.
Proof.
  intros E. destruct (getAction_row c d t a E) as [R Pz]. unfold row_ok in R. rewrite Pz in R.
  cbn [orb] in R. rewrite !andb_true_iff in R.
  destruct R as ((((((R1 & R2) & R3) & R4) & R5) & R6) & R7). split; try done.
  - intros F. by rewrite F in R5.
  - intros N. apply orb_true_iff in R6 as [R6|R6]; [|done]. by apply type_eqb_eq in R6.
  - intros F ->. rewrite F in R7. cbn [orb negb state_eqb state_bits Z.eqb] in R7.
    apply andb_true_iff in R7 as [N0 N1]. by apply state_eqb_eq in N0, N1.
Qed.

(** ** The rows of each request *)

(** No copy above can be writable: the state is not one that a writable copy
    may sit on, or there is not exactly one sharer. *)
Definition no_writer (c : CoherenceState_t) (d : SharingState) : Prop :=
  exclusive_below c = false \/ d <> OneSharer.

Ltac table_cases c d :=
  destruct c; try discriminate; destruct d; intros E; vm_compute in E; try discriminate E;
  injection E as <-; cbn; unfold no_writer.

Lemma read_rows c d a :
  mesi c = true -> SingleCMP.getAction c d ReadReq = Done a ->
  (snoop_type a = NoRequest /\ response0 a = MissReply /\ no_writer c d) \/
  (snoop_type a = ReturnReq /\ response0 a = MissReply /\ response1 a = MissReply) \/
  (snoop_type a = NoRequest /\ (response0 a = MissReplyWritable \/ response0 a = MissReplyDirty) /\
   exclusive_below (next_state0 a) = true /\ d = ZeroSharers).
Proof. intros Mc. table_cases c d; naive_solver. Qed.

Lemma fetch_rows c d a :
  mesi c = true -> SingleCMP.getAction c d FetchReq = Done a ->
  response0 a = MissReply /\
  (snoop_type a = NoRequest /\ no_writer c d \/
   snoop_type a = ReturnReq /\ (response1 a = MissReply \/ no_writer c d)).
Proof. intros Mc. table_cases c d; naive_solver. Qed.

Definition write_reply (t : MemoryMessageType) : Prop :=
  t = MissReply \/ t = MissReplyWritable \/ t = MissReplyDirty.

Lemma write_rows c d a :
  mesi c = true -> SingleCMP.getAction c d WriteReq = Done a ->
  write_reply (response0 a) /\ (write_reply (response1 a) \/ snoop_type a = NoRequest \/ no_writer c d) /\
  next_state0 a = kInvalid /\ next_state1 a = kInvalid /\
  (snoop_type a = Invalidate /\ (multicast a = true \/ d = OneSharer) \/ d = ZeroSharers).
Proof. unfold write_reply. intros Mc. table_cases c d; naive_solver. Qed.

Lemma upgrade_rows c d a :
  mesi c = true -> SingleCMP.getAction c d UpgradeReq = Done a ->
  response0 a = UpgradeReply /\ (response1 a = UpgradeReply \/ snoop_type a = NoRequest) /\
  next_state0 a = kInvalid /\ next_state1 a = kInvalid /\
  (snoop_type a = Invalidate /\ multicast a = true \/ d = OneSharer).
Proof. intros Mc. table_cases c d; naive_solver. Qed.

Lemma store_rows c d a :
  mesi c = true -> SingleCMP.getAction c d NonAllocatingStoreReq = Done a ->
  response0 a = NonAllocatingStoreReply /\
  (response1 a = NonAllocatingStoreReply \/ snoop_type a = NoRequest \/ no_writer c d) /\
  (snoop_type a = Invalidate /\ (multicast a = true \/ d = OneSharer) \/ d = ZeroSharers).
Proof. intros Mc. table_cases c d; naive_solver. Qed.

(** The requests that the table can answer in every state. *)
Lemma rows_exist c d t :
  mesi c = true -> goes_below t = true -> exists a, SingleCMP.getAction c d t = Done a.
Proof. destruct c, t; try done; destruct d; intros _ _; eexists; vm_compute; reflexivity. Qed.

Lemma upgrade_exists c d :
  mesi c = true -> d <> ZeroSharers -> exists a, SingleCMP.getAction c d UpgradeReq = Done a.
Proof. destruct c; try done; destruct d; try done; intros _ _; eexists; vm_compute; reflexivity. Qed.

(** An eviction notice that fits the block: no snoop, and the chip-level cache
    takes the block over when the notice carries a right or data. *)
Lemma evict_rows c d t own :
  mesi c = true -> evict_notice t own -> d <> ZeroSharers ->
  (writable own = true -> d = OneSharer /\ exclusive_below c = true) ->
  exists a, SingleCMP.getAction c d t = Done a /\ snoop_type a = NoRequest /\
    next_state0 a = match own with
                    | kModified => kModified
                    | kExclusive => kExclusive
                    | _ => c
                    end.
Proof.
  intros Mc N D Wr. destruct own; try done; cbn in N; subst t.
  - destruct (Wr eq_refl) as [-> Xc]. destruct c; try done; eexists; (split; [vm_compute; reflexivity|done]).
  - destruct (Wr eq_refl) as [-> Xc]. destruct c; try done; eexists; (split; [vm_compute; reflexivity|done]).
  - destruct c; try done; destruct d; try done; eexists; (split; [vm_compute; reflexivity|done]).
Qed.

(** For each of the four states, each
    sharing state and each of the eight requests the table has exactly one row,
    and it has no others. *)
Theorem protocol_table_complete :
  NoDup (fst <$> theProtocolHash) /\
  (forall c d t, (c, d, t) ∈ fst <$> theProtocolHash <-> mesi c = true /\ l2_request t = true).
Proof.
  split.
  - apply (bool_decide_unpack _). vm_compute. exact I.
  - assert (F : Forall (fun k => mesi k.1.1 = true /\ l2_request k.2 = true) (fst <$> theProtocolHash)).
    { apply (bool_decide_unpack _). vm_compute. exact I. }
    intros c d t. split.
    + intros I. rewrite Forall_forall in F. exact (F _ I).
    + intros [Hc Ht]. destruct c, t; try done; destruct d; apply (bool_decide_unpack _);
        vm_compute; exact I.
Qed.
