(* ===== verification/FastCMPCache.v ===== *)
(** * The chip-level cache

    components/FastCMPCache/FastCMPCacheImpl.cpp with the standard tag array:
    the request ports from the first-level caches, the snoop port from memory,
    and the snoops that the protocol asks for.  The directory is any object
    with the interface of AbstractDirectory.hpp. *)

From S2P Require Import Prelude Messages StdCache Directory Coherence SingleCMPProtocol.
From stdpp Require Import base gmap sets list strings.
From Stdlib Require Import ZArith Lia.

Local Open Scope Z_scope.

(** The one closure that a directory hands to [scheduleDelayedAction]: a call
    of [invalidateBlock] for an entry that lost its place. *)
Inductive DelayedAction : Type := InvalidateBlock (address : Z) (sharers : SharingVector).

Record FastCMPCache (D : Type) : Type := mkCMP {
  l2_directory : D;
  l2_cache : StdCache;
  l2_cacheStats : gmap string Z;
  l2_dirStats : gmap string Z;
  l2_dirHistograms : gmap (string * Z) Z;
  l2_coherenceUnitMask : Z;
  l2_evictMessage : MemoryMessage;
  l2_scheduledActions : list DelayedAction;
  l2_separateID : bool;
  l2_alwaysMulticast : bool;
}.
Arguments mkCMP {D} _ _ _ _ _ _ _ _ _ _.
Arguments l2_directory {D} _.
Arguments l2_cache {D} _.
Arguments l2_cacheStats {D} _.
Arguments l2_dirStats {D} _.
Arguments l2_dirHistograms {D} _.
Arguments l2_coherenceUnitMask {D} _.
Arguments l2_evictMessage {D} _.
Arguments l2_scheduledActions {D} _.
Arguments l2_separateID {D} _.
Arguments l2_alwaysMulticast {D} _.

Module CMP.
Section setters.
Context {D : Type}.
Implicit Types x : FastCMPCache D.
Definition set_directory (d : D) x : FastCMPCache D :=
  mkCMP d (l2_cache x) (l2_cacheStats x) (l2_dirStats x) (l2_dirHistograms x)
    (l2_coherenceUnitMask x) (l2_evictMessage x) (l2_scheduledActions x)
    (l2_separateID x) (l2_alwaysMulticast x).
Definition set_cache (c : StdCache) x : FastCMPCache D :=
  mkCMP (l2_directory x) c (l2_cacheStats x) (l2_dirStats x) (l2_dirHistograms x)
    (l2_coherenceUnitMask x) (l2_evictMessage x) (l2_scheduledActions x)
    (l2_separateID x) (l2_alwaysMulticast x).
Definition set_stats (cs ds : gmap string Z) (h : gmap (string * Z) Z) x : FastCMPCache D :=
  mkCMP (l2_directory x) (l2_cache x) cs ds h
    (l2_coherenceUnitMask x) (l2_evictMessage x) (l2_scheduledActions x)
    (l2_separateID x) (l2_alwaysMulticast x).
Definition set_evictMessage (m : MemoryMessage) x : FastCMPCache D :=
  mkCMP (l2_directory x) (l2_cache x) (l2_cacheStats x) (l2_dirStats x) (l2_dirHistograms x)
    (l2_coherenceUnitMask x) m (l2_scheduledActions x)
    (l2_separateID x) (l2_alwaysMulticast x).
Definition set_scheduled (l : list DelayedAction) x : FastCMPCache D :=
  mkCMP (l2_directory x) (l2_cache x) (l2_cacheStats x) (l2_dirStats x) (l2_dirHistograms x)
    (l2_coherenceUnitMask x) (l2_evictMessage x) l
    (l2_separateID x) (l2_alwaysMulticast x).
End setters.

Definition count {K} `{Countable K} (k : K) (s : gmap K Z) : gmap K Z :=
  <[k := default 0 (s !! k) + 1]> s.

(** The configuration parameters [initialize] reads. *)
Record Cfg : Type := mkCfg {
  cfg_CMPWidth : Z;
  cfg_Size : Z;
  cfg_Associativity : Z;
  cfg_BlockSize : Z;
  cfg_SeparateID : bool;
  cfg_AlwaysMulticast : bool;
  cfg_CoherenceUnit : Z;
}.

(** [FLEXUS_PORT_ARRAY_WIDTH(FastCMPCache, ...)]: every port array has this
    width, an [index_t]; [initialize] computes its [theCMPWidth] alike. *)
Definition port_array_width (cfg : Cfg) (systemWidth : Z) : Z :=
  (if cfg_CMPWidth cfg =? 0 then systemWidth else cfg_CMPWidth cfg) mod 2 ^ 32.

(** [CREATE_DIRECTORY] and its setters have made the directory. *)
Definition initialize {D} (cfg : Cfg) (systemWidth : Z) (directory : D) : outcome (FastCMPCache D) :=
  let theCMPWidth := port_array_width cfg systemWidth in
  if negb (theCMPWidth <=? MAX_NUM_SHARERS) then Assert "This implementation only supports"
  else if negb (Z.land (cfg_BlockSize cfg) (cfg_BlockSize cfg - 1) =? 0) then Assert "BlockSize"
  else if negb (4 <=? cfg_BlockSize cfg) then Assert "BlockSize >= 4"
  else
    let num_sets := Z.quot (Z.quot (cfg_Size cfg) (cfg_BlockSize cfg)) (cfg_Associativity cfg) in
    if negb (Z.land num_sets (num_sets - 1) =? 0) then Assert "num_sets"
    else if negb (cfg_BlockSize cfg * num_sets * cfg_Associativity cfg =? cfg_Size cfg)
    then Assert "cfg.Size"
    else
      c ← newStdCache (cfg_BlockSize cfg) num_sets (cfg_Associativity cfg);
      Done (mkCMP directory c ∅ ∅ ∅ (Z.lnot (cfg_CoherenceUnit cfg - 1))
              (newMessage EvictDirty 0) [] (cfg_SeparateID cfg) (cfg_AlwaysMulticast cfg)).

Definition combineSnoopResponse (a b : MemoryMessageType) : outcome MemoryMessageType :=
  if type_eqb a NoRequest then Done b
  else if type_eqb b NoRequest then Done a
  else if type_eqb a InvUpdateAck || type_eqb b InvUpdateAck then Done InvUpdateAck
  else if type_eqb a InvalidateAck || type_eqb b InvalidateAck then Done InvalidateAck
  else if type_eqb a Invalidate || type_eqb b Invalidate then Done Invalidate
  else if type_eqb a ReturnReplyDirty || type_eqb b ReturnReplyDirty then Done ReturnReplyDirty
  else if type_eqb a ReturnReply || type_eqb b ReturnReply then Done ReturnReply
  else if type_eqb a ReturnNAck && type_eqb b ReturnNAck then Done ReturnNAck
  else Assert "Unknown message types to combine".

(** What the snoop loop of [processRequest] keeps from round to round. *)
Record SnoopLoop : Type := mkLoop {
  sl_msg : MemoryMessage;
  sl_response : MemoryMessageType;
  sl_our_response : MemoryMessageType;
  sl_use_ns1 : bool;
  sl_unnecessary : Z;
  sl_extra : Z;
  sl_found_terminal : bool;
}.

Definition terminal (action : PrimaryAction) (t : MemoryMessageType) : bool :=
  type_eqb t (terminal_response0 action) || type_eqb t (terminal_response1 action).
End CMP.

(** The tag array inside the component's slot. *)
Definition l2_cache_slot {W D} (me : Slot W (FastCMPCache D)) : Slot W StdCache :=
  mkSlot (fun w => l2_cache (view me w)) (fun c w => put me (CMP.set_cache c (view me w)) w).

Section component.
Context {W D H : Type} (ops : AbstractDirectory D H).
Context (prr : Z -> MemoryMessageType -> MemoryMessageType -> option H -> Z -> D -> outcome D).
Context (me : Slot W (FastCMPCache D)).
Context (SnoopOutI SnoopOutD : Z -> MemoryMessage -> M W MemoryMessage).
Context (RequestOut : MemoryMessage -> M W MemoryMessage).

(** A method of the directory that may assert, in place. *)
Definition on_directory (f : D -> outcome D) : M W () :=
  x ← gets (view me);
  d ← lift (f (l2_directory x));
  update me (CMP.set_directory d).

(** The channel of the cache with directory index [index]. *)
Definition snoopOut (separateID : bool) (index : Z) (msg : MemoryMessage) : M W MemoryMessage :=
  if separateID then
    if negb (Z.land index 1 =? 0) then SnoopOutI (Z.shiftr index 1) msg
    else SnoopOutD (Z.shiftr index 1) msg
  else SnoopOutD index msg.

Fixpoint invalidate_loop (separateID : bool) (slist : list Z) (msg : MemoryMessage) : M W () :=
  match slist with
  | [] => mret ()
  | index :: slist =>
      msg ← (if separateID then snoopOut true index (set_type Invalidate msg)
             else m ← SnoopOutI index (set_type Invalidate msg); SnoopOutD index m);
      invalidate_loop separateID slist msg
  end.

Definition invalidateBlock (address : Z) (sharers : SharingVector) : M W () :=
  x ← gets (view me);
  invalidate_loop (l2_separateID x) (SV.toList sharers) (newMessage Invalidate address).

Fixpoint run_actions (l : list DelayedAction) : M W () :=
  match l with
  | [] => mret ()
  | InvalidateBlock address sharers :: l => invalidateBlock address sharers;; run_actions l
  end.

Definition performDelayedActions : M W () :=
  x ← gets (view me);
  run_actions (l2_scheduledActions x);;
  update me (CMP.set_scheduled []).

Definition l2_evict (aTagset : Z) (aLineState : CoherenceState_t) : M W () :=
  update me (fun x => CMP.set_evictMessage
               (set_type (SingleCMP.evict aLineState) (set_address aTagset (l2_evictMessage x))) x);;
  x ← gets (view me);
  m ← RequestOut (l2_evictMessage x);
  update me (CMP.set_evictMessage m).

Definition l2_lookup (addr : Z) : M W LookupResult :=
  c ← gets (view (l2_cache_slot me));
  let r := cache_lookup addr c in
  update (l2_cache_slot me) (fun _ => snd r);;
  mret (fst r).

(** One round of the snoop loop: the snoop, its answer, and what the
    directory learns from it. *)
Definition snoop_one (action : PrimaryAction) (dir_entry : option H) (addr index : Z)
    (st : CMP.SnoopLoop) : M W CMP.SnoopLoop :=
  x ← gets (view me);
  m ← snoopOut (l2_separateID x) index (set_type (snoop_type action) (CMP.sl_msg st));
  response ← lift (CMP.combineSnoopResponse (CMP.sl_response st) (theType m));
  let second := negb (type_eqb response (terminal_response0 action)) &&
                type_eqb response (terminal_response1 action) in
  on_directory (processSnoopResponse ops index (theType m) dir_entry addr);;
  mret (CMP.mkLoop m response
          (if second then response1 action else CMP.sl_our_response st)
          (second || CMP.sl_use_ns1 st)
          (CMP.sl_unnecessary st) (CMP.sl_extra st) (CMP.sl_found_terminal st)).

Definition count_unnecessary (st : CMP.SnoopLoop) : CMP.SnoopLoop :=
  CMP.mkLoop (CMP.sl_msg st) (CMP.sl_response st) (CMP.sl_our_response st) (CMP.sl_use_ns1 st)
    (CMP.sl_unnecessary st + 1) (CMP.sl_extra st) (CMP.sl_found_terminal st).
Definition count_found (st : CMP.SnoopLoop) : CMP.SnoopLoop :=
  CMP.mkLoop (CMP.sl_msg st) (CMP.sl_response st) (CMP.sl_our_response st) (CMP.sl_use_ns1 st)
    (CMP.sl_unnecessary st)
    (if CMP.sl_found_terminal st then CMP.sl_extra st + 1 else CMP.sl_extra st) true.

Fixpoint snoop_loop (action : PrimaryAction) (alwaysMulticast multiple_snoops : bool)
    (dir_entry : option H) (addr anIndex : Z) (snoop_list : list Z) (st : CMP.SnoopLoop)
    : M W CMP.SnoopLoop :=
  match snoop_list with
  | [] => mret st
  | index :: rest =>
      let loop := snoop_loop action alwaysMulticast multiple_snoops dir_entry addr anIndex rest in
      if index =? anIndex then loop st
      else
        st ← snoop_one action dir_entry addr index st;
        if negb (multicast action) && negb (alwaysMulticast && multiple_snoops) then
          if CMP.terminal action (CMP.sl_response st) then mret st
          else loop (count_unnecessary st)
        else if negb (CMP.terminal action (theType (CMP.sl_msg st))) then loop (count_unnecessary st)
        else if negb (multicast action) && alwaysMulticast && multiple_snoops &&
                CMP.terminal action (theType (CMP.sl_msg st)) then loop (count_found st)
        else loop st
  end.

(** [Request]_[where] counters and the histograms of [DirectoryStats]. *)
Definition dir_stat_name (orig_msg_type : MemoryMessageType) (accessed_memory : bool)
    : option string :=
  match orig_msg_type with
  | ReadReq => Some (if accessed_memory then "theReadsOffChip" else "theReadsOnChip")
  | WriteReq => Some (if accessed_memory then "theWritesOffChip" else "theWritesOnChip")
  | FetchReq => Some (if accessed_memory then "theFetchesOffChip" else "theFetchesOnChip")
  | UpgradeReq => if accessed_memory then None else Some "theUpgradesOnChip"
  | _ => None
  end.

Definition record_stats (action : PrimaryAction) (orig_msg_type : MemoryMessageType)
    (accessed_memory : bool) (potential_sharers unnecessary extra : Z) : M W () :=
  update me (fun x =>
    let cs := CMP.count (act_stat action) (l2_cacheStats x) in
    match dir_stat_name orig_msg_type accessed_memory with
    | None => CMP.set_stats cs (l2_dirStats x) (l2_dirHistograms x) x
    | Some name =>
        let h := CMP.count (name +:+ "_PSharers", potential_sharers) (l2_dirHistograms x) in
        CMP.set_stats cs (CMP.count name (l2_dirStats x))
          (if accessed_memory then h
           else CMP.count (name +:+ "_ASharers", extra)
                  (CMP.count (name +:+ "_FSharers", unnecessary) h)) x
    end).

(** The classification of hits and misses at the end of [processRequest]. *)
Definition classify (orig_msg_type : MemoryMessageType) (accessed_memory snoop_success : bool)
    : outcome (list string) :=
  off ← (if accessed_memory then
           match orig_msg_type with
           | ReadReq => Done ["Misses_Offchip_Read"]
           | FetchReq => Done ["Misses_Offchip_Fetch"]
           | WriteReq => Done ["Misses_Offchip_Write"]
           | NonAllocatingStoreReq => Done ["Misses_Offchip_NAStore"]
           | _ => Assert "Illegal message type"
           end
         else Done []);
  on ← (if snoop_success then
          match orig_msg_type with
          | ReadReq => Done ["Misses_Onchip_Read"]
          | FetchReq => Done ["Misses_Onchip_Fetch"]
          | WriteReq => Done ["Misses_Onchip_Write"]
          | NonAllocatingStoreReq => Done ["Misses_Onchip_NAStore"]
          | UpgradeReq => Done []
          | _ => Assert "Illegal message type"
          end
        else Done []);
  hit ← (if negb snoop_success && negb accessed_memory then
           match orig_msg_type with
           | ReadReq => Done ["Hits_Read"]
           | FetchReq => Done ["Hits_Fetch"]
           | WriteReq => Done ["Hits_Write"]
           | NonAllocatingStoreReq => Done ["Hits_NAStore"]
           | EvictClean | EvictDirty | EvictWritable | UpgradeReq => Done []
           | _ => Assert "Illegal message type"
           end
         else Done []);
  Done (off ++ on ++ hit).

(** The update of the tag array at the end of a request. *)
Definition update_cache (action : PrimaryAction) (use_ns1 : bool) (lr : LookupResult) : M W () :=
  let nstate := if use_ns1 then next_state1 action else next_state0 action in
  if act_allocate action then allocate (l2_cache_slot me) l2_evict lr nstate
  else
    c ← gets (view (l2_cache_slot me));
    let cur := getState lr c in
    if negb (state_eqb nstate cur) then
      dbg_assert (negb (state_eqb cur kInvalid)) "trying the change state from Invalid";;
      update (l2_cache_slot me) (updateState lr nstate (act_update action) false)
    else if act_update action && negb (state_eqb cur kInvalid) then
      update (l2_cache_slot me) (update_lru lr)
    else mret ().

(** The snoops of a request: the loop, when the action asks for it. *)
Definition snoop_phase (action : PrimaryAction) (sharers : SharingVector) (dir_entry : option H)
    (addr anIndex : Z) (aMessage : MemoryMessage) : M W CMP.SnoopLoop :=
  let st0 := CMP.mkLoop (copyMessage aMessage) NoRequest (response0 action) false 0 0 false in
  if type_eqb (snoop_type action) NoRequest then mret st0
  else
    x ← gets (view me);
    let snoop_list := SV.toList sharers in
    let multiple_snoops :=
      (1 <? Z.of_nat (length snoop_list)) &&
      negb ((Z.of_nat (length snoop_list) =? 2) && bool_decide (anIndex ∈ snoop_list)) in
    snoop_loop action (l2_alwaysMulticast x) multiple_snoops dir_entry addr anIndex snoop_list st0.

Definition processRequest (anIndex : Z) (aMessage : MemoryMessage) : M W MemoryMessage :=
  x ← gets (view me);
  let addr := Z.land (theAddress aMessage) (l2_coherenceUnitMask x) in
  performDelayedActions;;
  x ← gets (view me);
  let '(sharers, state, dir_entry) := dir_lookup ops anIndex addr (theType aMessage) (l2_directory x) in
  lr ← l2_lookup addr;
  c ← gets (view (l2_cache_slot me));
  action ← lift (SingleCMP.getAction (getState lr c) state (theType aMessage));
  dbg_assert (negb (poison action)) "POISON";;
  st ← snoop_phase action sharers dir_entry addr anIndex aMessage;
  let snooping := negb (type_eqb (snoop_type action) NoRequest) in
  let potential_sharers := if snooping then Z.of_nat (length (SV.toList sharers)) else 0 in
  let snoop_success := snooping && CMP.terminal action (CMP.sl_response st) in
  let orig_msg_type := theType aMessage in
  let accessed_memory := negb snoop_success && forward_request action in
  aMessage ← (if accessed_memory then RequestOut aMessage else mret aMessage);
  let aMessage := set_type (CMP.sl_our_response st) aMessage in
  on_directory (prr anIndex orig_msg_type (theType aMessage) dir_entry addr);;
  update_cache action (CMP.sl_use_ns1 st) lr;;
  record_stats action orig_msg_type accessed_memory potential_sharers
    (CMP.sl_unnecessary st) (CMP.sl_extra st);;
  names ← lift (classify orig_msg_type accessed_memory snoop_success);
  update me (fun x => CMP.set_stats (foldr CMP.count (l2_cacheStats x) names) (l2_dirStats x)
                        (l2_dirHistograms x) x);;
  mret aMessage.

(** The ports. *)
Definition l2_FetchRequestIn (anIndex : Z) (aMessage : MemoryMessage) : M W MemoryMessage :=
  x ← gets (view me);
  processRequest (if l2_separateID x then Z.lor (Z.shiftl anIndex 1) 1 else anIndex)
    (set_dstream false aMessage).

Definition l2_RequestIn (anIndex : Z) (aMessage : MemoryMessage) : M W MemoryMessage :=
  x ← gets (view me);
  processRequest (if l2_separateID x then Z.shiftl anIndex 1 else anIndex)
    (set_dstream true aMessage).

Fixpoint l2_snoop_loop (type : MemoryMessageType) (dir_entry : option H) (addr : Z)
    (snoop_list : list Z) (snoop_msg : MemoryMessage) : M W () :=
  match snoop_list with
  | [] => mret ()
  | index :: rest =>
      x ← gets (view me);
      m ← snoopOut (l2_separateID x) index (set_type type snoop_msg);
      on_directory (processSnoopResponse ops index (theType m) dir_entry addr);;
      l2_snoop_loop type dir_entry addr rest m
  end.

Definition l2_SnoopIn (aMessage : MemoryMessage) : M W MemoryMessage :=
  x ← gets (view me);
  let addr := Z.land (theAddress aMessage) (l2_coherenceUnitMask x) in
  performDelayedActions;;
  x ← gets (view me);
  let '(sharers, state, dir_entry, dir_valid) :=
    dir_snoopLookup ops 0 addr (theType aMessage) (l2_directory x) in
  lr ← l2_lookup addr;
  c ← gets (view (l2_cache_slot me));
  go_on ← (if type_eqb (theType aMessage) Downgrade then
             (if state_eqb (getState lr c) kModified
              then update (l2_cache_slot me) (updateState lr kExclusive false false) else mret ());;
             mret (negb (1 <? SV.countSharers sharers))
           else
             dbg_assert (type_eqb (theType aMessage) Invalidate) "Invalidate";;
             (if negb (state_eqb (getState lr c) kInvalid)
              then update (l2_cache_slot me) (updateState lr kInvalid false false) else mret ());;
             mret true);
  (if (go_on : bool) && dir_valid then
     l2_snoop_loop (theType aMessage) dir_entry addr (SV.toList sharers) (copyMessage aMessage)
   else mret ());;
  mret aMessage.
End component.

(** ** What the chip-level cache relies on

    [l1_of w k] is the first-level cache with directory index [k], and [hold]
    the state it holds for a block.  A snoop changes the snooped cache as
    [snoop_answer] says and no other; memory changes neither. *)

Class UpperLevel {W D X : Type} (me : Slot W (FastCMPCache D)) (n bm : Z)
    (l1_of : W -> Z -> X) (hold : X -> Z -> CoherenceState_t) (env : W -> Prop)
    (SnoopOutI SnoopOutD : Z -> MemoryMessage -> M W MemoryMessage)
    (RequestOut : MemoryMessage -> M W MemoryMessage) : Prop := {
  ul_width : n <= MAX_NUM_SHARERS;
  ul_put w x : env w -> env (put me x w) /\ forall k, l1_of (put me x w) k = l1_of w k;
  ul_snoop w k msg : let a := Z.land (theAddress msg) bm in
    env w -> 0 <= k < n -> mesi (hold (l1_of w k) a) = true -> snoop_request (theType msg) = true ->
    wp (snoopOut SnoopOutI SnoopOutD true k msg) (fun m w' =>
      let r := snoop_answer (hold (l1_of w k) a) (theType msg) in
      env w' /\ view me w' = view me w /\ m = set_type (snd r) msg /\
      (forall b, hold (l1_of w' k) b = if decide (b = a) then fst r else hold (l1_of w k) b) /\
      (forall j, j <> k -> l1_of w' j = l1_of w j)) w;
  ul_memory w msg :
    env w -> goes_below (theType msg) || isEvictType (theType msg) = true ->
    wp (RequestOut msg) (fun m w' =>
      env w' /\ view me w' = view me w /\ forall k, l1_of w' k = l1_of w k) w;
}.

Lemma combine_class t a b :
  (a = NoRequest \/ snoop_class t a = true) -> snoop_class t b = true ->
  exists r, CMP.combineSnoopResponse a b = Done r /\ snoop_class t r = true /\
    (r = dirty_reply t -> a = dirty_reply t \/ b = dirty_reply t).
Proof.
  intros [->|A] B.
  { exists b. split; [done|]. split; [done|]. by right. }
  destruct t; try done; destruct a; try done; destruct b; try done;
    (eexists; split; [reflexivity|]; split; [done|]; cbn; auto).
Qed.

Lemma snoop_answer_class t s :
  mesi s = true -> t = Invalidate \/ t = ReturnReq ->
  snoop_class t (snd (snoop_answer s t)) = true /\
  snoop_reply (snd (snoop_answer s t)) = true /\
  mesi (fst (snoop_answer s t)) = true /\ writable (fst (snoop_answer s t)) = false /\
  (snd (snoop_answer s t) = dirty_reply t -> s = kModified).
Proof. intros M [->| ->]; destruct s; done. Qed.

Lemma class_reply t r : snoop_class t r = true -> r <> NoRequest.
Proof. intros C ->. by destruct t. Qed.

(** ** The choices of a request *)

Definition one_other (i : Z) (v : SharingVector) : Prop :=
  forall j j', Z.testbit v j = true -> Z.testbit v j' = true -> j <> i -> j' <> i -> j = j'.

(** The choices a request of cache [i] for block [a] leaves open, in the view
    [U]: the action, the caches [L] that were snooped, the sharers [v1] that
    this leaves, the answer [r] and the next state [ns]. *)
Record phase (i a : Z) (T : MemoryMessageType) (U : View) (action : PrimaryAction) (L : list Z)
    (v1 : SharingVector) (r : MemoryMessageType) (ns : CoherenceState_t) : Prop := {
  ph_row : SingleCMP.getAction (L2 U a) (state_of_count (SV.countSharers (SH U a))) T = Done action;
  ph_sub : forall j, j ∈ L -> Z.testbit (SH U a) j = true /\ j <> i;
  ph_none : snoop_type action = NoRequest -> L = [];
  ph_all : snoop_type action <> NoRequest -> multicast action = true \/ one_other i (SH U a) ->
    forall j, Z.testbit (SH U a) j = true -> j <> i -> j ∈ L;
  ph_wf : SV.wf v1;
  ph_v1 : forall j, Z.testbit v1 j = Z.testbit (SH U a) j &&
    negb (bool_decide (j ∈ L) && removes_sharer (snd (snoop_answer (L1 U j a) (snoop_type action))));
  ph_out : r = response0 action /\ ns = next_state0 action \/
    r = response1 action /\ ns = next_state1 action /\ exists j, j ∈ L /\ L1 U j a = kModified;
}.


Section choices.
Context (n i a : Z) (U : View) (Ok : ok_block n U a) (Hi : 0 <= i < n).
Abbreviation sharing := (state_of_count (SV.countSharers (SH U a))).

Lemma not_sharer_invalid j : 0 <= j < n -> Z.testbit (SH U a) j = false -> L1 U j a = kInvalid.
Proof using Ok.
  intros Hj T. destruct (decide (L1 U j a = kInvalid)) as [|N]; [done|].
  apply (ok_dir _ _ _ Ok) in N; [congruence|done].
Qed.

(** Only the block of a single sharer may be writable above. *)
Lemma quiet_unless_one : sharing <> OneSharer -> forall j, 0 <= j < n -> writable (L1 U j a) = false.
Proof using Ok.
  intros N j Hj. apply not_true_iff_false. intros Wj. apply N.
  destruct (ok_excl _ _ _ Ok j Hj Wj) as [On _]. apply state_one; [apply Ok|].
  exists j. intros j'. case_bool_decide as E; [subst|].
  - apply (ok_dir _ _ _ Ok); [done|]. by destruct (L1 U j a).
  - apply not_true_iff_false. intros T. by apply On in T.
Qed.

Lemma quiet_unless_exclusive :
  exclusive_below (L2 U a) = false -> forall j, 0 <= j < n -> writable (L1 U j a) = false.
Proof using Ok.
  intros X j Hj. apply not_true_iff_false. intros Wj.
  destruct (ok_excl _ _ _ Ok j Hj Wj) as [_ E]. congruence.
Qed.

Lemma one_sharer_one_other : sharing = OneSharer -> one_other i (SH U a).
Proof using Ok Hi.
  intros S. apply state_one in S as [k E]; [|apply Ok]. intros j j' T T' _ _.
  rewrite E in T, T'. apply bool_decide_eq_true in T, T'. congruence.
Qed.

Lemma zero_sharers_none : sharing = ZeroSharers -> forall j, Z.testbit (SH U a) j = false.
Proof using Ok Hi. intros S. apply state_zero; [apply Ok|done]. Qed.

(** The state of cache [j] after the snoops. *)
Definition after_snoop (action : PrimaryAction) (L : list Z) (j : Z) : CoherenceState_t :=
  if bool_decide (j ∈ L) then fst (snoop_answer (L1 U j a) (snoop_type action)) else L1 U j a.

Lemma phase_snoops T action L v1 r ns :
  phase i a T U action L v1 r ns -> L <> [] ->
  snoop_type action = Invalidate \/ snoop_type action = ReturnReq.
Proof using Ok Hi.
  intros Ph N. pose proof (getAction_spec _ _ _ _ (ph_row _ _ _ _ _ _ _ _ _ Ph)) as Row.
  pose proof (row_terminals _ _ _ Row) as Tm. pose proof (ph_none _ _ _ _ _ _ _ _ _ Ph) as No.
  unfold terminals_ok in Tm. destruct (snoop_type action); auto; try done. by destruct N, No.
Qed.

(** The caches above keep to MESI and to the directory during the snoops. *)
Lemma phase_above T action L v1 r ns j :
  phase i a T U action L v1 r ns -> 0 <= j < n ->
  mesi (after_snoop action L j) = true /\
  (j ∈ L -> writable (after_snoop action L j) = false) /\
  (after_snoop action L j <> kInvalid -> Z.testbit v1 j = true).
Proof using Ok Hi.
  intros Ph Hj. unfold after_snoop. pose proof (ok_l1 _ _ _ Ok j Hj) as Ms.
  rewrite (ph_v1 _ _ _ _ _ _ _ _ _ Ph). case_bool_decide as Ij.
  - destruct (phase_snoops T action L v1 r ns Ph) as [E|E]; [by intros ->; apply not_elem_of_nil in Ij| |];
      rewrite E; destruct (ph_sub _ _ _ _ _ _ _ _ _ Ph j Ij) as [-> _];
      destruct (L1 U j a); done.
  - split; [done|]. split; [done|]. intros N. rewrite (ok_dir _ _ _ Ok) by done. done.
Qed.

Lemma phase_next T action L v1 r ns : phase i a T U action L v1 r ns -> mesi ns = true.
Proof using Ok Hi.
  intros Ph. pose proof (getAction_spec _ _ _ _ (ph_row _ _ _ _ _ _ _ _ _ Ph)) as Row.
  destruct (ph_out _ _ _ _ _ _ _ _ _ Ph) as [(_ & ->)|(_ & -> & _)]; apply Row.
Qed.

(** The second outcome needs a snooped cache that may write. *)
Lemma phase_first T action L v1 r ns :
  phase i a T U action L v1 r ns ->
  snoop_type action = NoRequest \/ exclusive_below (L2 U a) = false \/ sharing <> OneSharer ->
  r = response0 action /\ ns = next_state0 action.
Proof using Ok Hi.
  intros Ph C. destruct (ph_out _ _ _ _ _ _ _ _ _ Ph) as [O|(_ & _ & j & Ij & Mj)]; [done|exfalso].
  destruct (ph_sub _ _ _ _ _ _ _ _ _ Ph j Ij) as [Tj _]. pose proof (ok_range _ _ _ Ok j Tj) as Hj.
  destruct C as [C|C].
  - rewrite (ph_none _ _ _ _ _ _ _ _ _ Ph C) in Ij. by apply not_elem_of_nil in Ij.
  - assert (writable (L1 U j a) = false); [|by rewrite Mj in *].
    destruct C as [C|C]; [by apply quiet_unless_exclusive|by apply quiet_unless_one].
Qed.

(** No other cache may write after the snoops of a read. *)
Lemma phase_quiet T action L v1 r ns j :
  phase i a T U action L v1 r ns -> 0 <= j < n -> j <> i ->
  (snoop_type action <> NoRequest \/ exclusive_below (L2 U a) = false \/ sharing <> OneSharer) ->
  writable (after_snoop action L j) = false.
Proof using Ok Hi.
  intros Ph Hj Nj C. destruct (phase_above T action L v1 r ns j Ph Hj) as (_ & Wr & _).
  destruct (decide (j ∈ L)) as [Ij|Ij]; [auto|]. unfold after_snoop.
  rewrite bool_decide_false by done.
  destruct (decide (sharing = OneSharer)) as [Es|Es]; [|by apply quiet_unless_one].
  destruct C as [C|[C|C]]; [|by apply quiet_unless_exclusive|done].
  destruct (Z.testbit (SH U a) j) eqn:Tj.
  - destruct Ij. apply (ph_all _ _ _ _ _ _ _ _ _ Ph); [done| |done|done].
    right. by apply one_sharer_one_other.
  - by rewrite (not_sharer_invalid j Hj Tj).
Qed.

(** After invalidations that reach every other sharer none is left. *)
Lemma phase_alone T action L v1 r ns j :
  phase i a T U action L v1 r ns ->
  snoop_type action = Invalidate /\ (multicast action = true \/ sharing = OneSharer) \/
  sharing = ZeroSharers \/ (Z.testbit (SH U a) i = true /\ sharing = OneSharer) ->
  Z.testbit v1 j = true -> j = i.
Proof using Ok Hi.
  intros Ph C T1. rewrite (ph_v1 _ _ _ _ _ _ _ _ _ Ph) in T1. apply andb_true_iff in T1 as [Tj Rm].
  destruct (decide (j = i)) as [|N]; [done|exfalso].
  destruct C as [[Sn M]|[Es|[Ti Es]]].
  - assert (j ∈ L) as Ij.
    { apply (ph_all _ _ _ _ _ _ _ _ _ Ph); [by rewrite Sn| |done|done].
      destruct M as [M|M]; [by left|right]. by apply one_sharer_one_other. }
    rewrite bool_decide_true, Sn in Rm by done. by destruct (L1 U j a).
  - by rewrite zero_sharers_none in Tj.
  - apply state_one in Es as [k E]; [|apply Ok]. rewrite E in Tj, Ti.
    apply bool_decide_eq_true in Tj, Ti. congruence.
Qed.

(** The sharers after the answer, when it adds the requester or leaves the
    sharers as the snoops have left them. *)
Lemma phase_granted T action L v1 r ns excl U' :
  phase i a T U action L v1 r ns -> n <= MAX_NUM_SHARERS ->
  SH U' a = Z.setbit v1 i \/ SH U' a = v1 /\ Z.testbit v1 i = true ->
  L2 U' a = ns -> (forall j, 0 <= j < n -> j <> i -> L1 U' j a = after_snoop action L j) ->
  (forall j, 0 <= j < n -> j <> i -> writable (after_snoop action L j) = false) ->
  (excl = true -> exclusive_below ns = true /\ forall j, Z.testbit v1 j = true -> j = i) ->
  granted n U' i a excl.
Proof using Ok Hi.
  intros Ph Hn Es En El Q Ex.
  assert (T' : forall j, Z.testbit (SH U' a) j = (i =? j) || Z.testbit v1 j).
  { intros j. destruct Es as [->|[-> Ti]]; [by rewrite testbit_setbit by lia|].
    destruct (Z.eqb_spec i j); [by subst|done]. }
  assert (R1 : forall j, Z.testbit v1 j = true -> 0 <= j < n).
  { intros j Tj. apply (ok_range _ _ _ Ok). rewrite (ph_v1 _ _ _ _ _ _ _ _ _ Ph) in Tj.
    by apply andb_true_iff in Tj as [? _]. }
  split.
  - intros j Hj Nj. rewrite El by done. split; [|auto]. by apply (phase_above T action L v1 r ns).
  - rewrite En. by apply (phase_next T action L v1 r ns).
  - destruct Es as [->|[-> _]]; [apply setbit_wf; [lia|]|]; apply Ph.
  - intros j. rewrite T'. intros [Ej|Tj]%orb_true_iff; [apply Z.eqb_eq in Ej; lia|auto].
  - intros j Hj Nj. rewrite El, T' by done. intros V. apply orb_true_iff. right.
    by apply (phase_above T action L v1 r ns j Ph Hj).
  - by rewrite T', Z.eqb_refl.
  - intros X. destruct (Ex X) as [X1 X2]. split; [|by rewrite En]. intros j. rewrite T'.
    intros [Ej|Tj]%orb_true_iff; [apply Z.eqb_eq in Ej; lia|auto].
Qed.

Lemma alone_quiet T action L v1 r ns :
  phase i a T U action L v1 r ns -> (forall j, Z.testbit v1 j = true -> j = i) ->
  forall j, 0 <= j < n -> j <> i -> after_snoop action L j = kInvalid.
Proof using Ok Hi.
  intros Ph Al j Hj Nj. destruct (phase_above T action L v1 r ns j Ph Hj) as (_ & _ & D).
  destruct (decide (after_snoop action L j = kInvalid)) as [|N]; [done|]. by apply D, Al in N.
Qed.

(** What a request for a copy may be answered with. *)
Record grants (T : MemoryMessageType) (action : PrimaryAction) (L : list Z) (v1 : SharingVector)
    (r : MemoryMessageType) (ns : CoherenceState_t) (excl : bool) : Prop := {
  gr_record : recordable i T r v1;
  gr_after : sharers_after i T r v1 = Z.setbit v1 i \/
             sharers_after i T r v1 = v1 /\ Z.testbit v1 i = true;
  gr_quiet : forall j, 0 <= j < n -> j <> i -> writable (after_snoop action L j) = false;
  gr_excl : excl = true -> exclusive_below ns = true /\ forall j, Z.testbit v1 j = true -> j = i;
  gr_answers : answers T r excl;
}.

Lemma phase_read action L v1 r ns :
  phase i a ReadReq U action L v1 r ns -> exists excl, grants ReadReq action L v1 r ns excl.
Proof using Ok Hi.
  intros Ph. pose proof (ph_out _ _ _ _ _ _ _ _ _ Ph) as Out.
  destruct (read_rows _ _ _ (ok_l2 _ _ _ Ok) (ph_row _ _ _ _ _ _ _ _ _ Ph))
    as [(Sn & R0 & Nw)|[(Sn & R0 & R1)|(Sn & R0 & X0 & Z0)]].
  - destruct (phase_first _ _ _ _ _ _ Ph) as [-> ->]; [by left|]. rewrite R0.
    exists false. split; [done|by left| |done|by left].
    intros j Hj Nj. eapply phase_quiet; [done..|]. by right.
  - assert (r = MissReply) as -> by (destruct Out as [(-> & _)|(-> & _)]; congruence).
    exists false. split; [done|by left| |done|by left].
    intros j Hj Nj. eapply phase_quiet; [done..|]. left. by rewrite Sn.
  - destruct (phase_first _ _ _ _ _ _ Ph) as [-> ->]; [by left|]. exists true.
    assert (Al : forall j, Z.testbit v1 j = true -> j = i).
    { intros j. eapply phase_alone; [done|]. auto. }
    split.
    + by destruct R0 as [-> | ->].
    + left. by destruct R0 as [-> | ->].
    + intros j Hj Nj. by rewrite (alone_quiet _ _ _ _ _ _ Ph).
    + done.
    + right. done.
Qed.

Lemma phase_fetch action L v1 r ns :
  phase i a FetchReq U action L v1 r ns -> grants FetchReq action L v1 r ns false.
Proof using Ok Hi.
  intros Ph. pose proof (ph_out _ _ _ _ _ _ _ _ _ Ph) as Out.
  destruct (fetch_rows _ _ _ (ok_l2 _ _ _ Ok) (ph_row _ _ _ _ _ _ _ _ _ Ph)) as (R0 & C).
  assert (r = MissReply) as ->.
  { destruct C as [[Sn _]|[_ [R1|Nw]]].
    - destruct (phase_first _ _ _ _ _ _ Ph) as [-> _]; [by left|done].
    - destruct Out as [(-> & _)|(-> & _)]; congruence.
    - destruct (phase_first _ _ _ _ _ _ Ph) as [-> _]; [by right|done]. }
  split; [done|by left| |done|done].
  intros j Hj Nj. eapply phase_quiet; [done..|].
  destruct C as [[_ Nw]|[Sn _]]; [by right|left; by rewrite Sn].
Qed.

Lemma phase_write action L v1 r ns :
  phase i a WriteReq U action L v1 r ns -> grants WriteReq action L v1 r ns true.
Proof using Ok Hi.
  intros Ph. pose proof (ph_out _ _ _ _ _ _ _ _ _ Ph) as Out.
  destruct (write_rows _ _ _ (ok_l2 _ _ _ Ok) (ph_row _ _ _ _ _ _ _ _ _ Ph)) as (R0 & R1 & N0 & N1 & C).
  assert (Al : forall j, Z.testbit v1 j = true -> j = i).
  { intros j. eapply phase_alone; [done|]. naive_solver. }
  assert (R : write_reply r).
  { destruct R1 as [R1|R1]; [by destruct Out as [(-> & _)|(-> & _)]|].
    by destruct (phase_first _ _ _ _ _ _ Ph R1) as [-> _]. }
  assert (ns = kInvalid) as -> by (destruct Out as [(_ & ->)|(_ & -> & _)]; congruence).
  split.
  - by destruct R as [->|[->| ->]].
  - left. by destruct R as [->|[->| ->]].
  - intros j Hj Nj. by rewrite (alone_quiet _ _ _ _ _ _ Ph).
  - done.
  - split; [done|done].
Qed.

Lemma phase_upgrade action L v1 r ns :
  Z.testbit (SH U a) i = true ->
  phase i a UpgradeReq U action L v1 r ns -> grants UpgradeReq action L v1 r ns true.
Proof using Ok Hi.
  intros Ti Ph. pose proof (ph_out _ _ _ _ _ _ _ _ _ Ph) as Out.
  destruct (upgrade_rows _ _ _ (ok_l2 _ _ _ Ok) (ph_row _ _ _ _ _ _ _ _ _ Ph)) as (R0 & R1 & N0 & N1 & C).
  assert (Al : forall j, Z.testbit v1 j = true -> j = i).
  { intros j. eapply phase_alone; [done|]. naive_solver. }
  assert (r = UpgradeReply) as ->.
  { destruct R1 as [R1|R1]; [destruct Out as [(-> & _)|(-> & _)]; congruence|].
    destruct (phase_first _ _ _ _ _ _ Ph) as [-> _]; [by left|done]. }
  assert (ns = kInvalid) as -> by (destruct Out as [(_ & ->)|(_ & -> & _)]; congruence).
  assert (T1 : Z.testbit v1 i = true).
  { rewrite (ph_v1 _ _ _ _ _ _ _ _ _ Ph), Ti, bool_decide_false; [done|].
    intros I. by destruct (ph_sub _ _ _ _ _ _ _ _ _ Ph i I). }
  split; [done|by right| |done|done].
  intros j Hj Nj. by rewrite (alone_quiet _ _ _ _ _ _ Ph).
Qed.

Lemma phase_store action L v1 r ns :
  phase i a NonAllocatingStoreReq U action L v1 r ns ->
  r = NonAllocatingStoreReply /\ (forall j, Z.testbit v1 j = true -> j = i).
Proof using Ok Hi.
  intros Ph. pose proof (ph_out _ _ _ _ _ _ _ _ _ Ph) as Out.
  destruct (store_rows _ _ _ (ok_l2 _ _ _ Ok) (ph_row _ _ _ _ _ _ _ _ _ Ph)) as (R0 & R1 & C).
  split.
  - destruct R1 as [R1|R1]; [destruct Out as [(-> & _)|(-> & _)]; congruence|].
    destruct (phase_first _ _ _ _ _ _ Ph R1) as [-> _]. done.
  - intros j. eapply phase_alone; [done|]. naive_solver.
Qed.

(** An eviction notice that fits the block of the sender finds its row. *)
Lemma phase_evict_row T :
  evict_notice T (L1 U i a) ->
  exists action, SingleCMP.getAction (L2 U a) sharing T = Done action /\ snoop_type action = NoRequest.
Proof using Ok Hi.
  intros Nt. assert (Vd : L1 U i a <> kInvalid) by (intros E; by rewrite E in Nt).
  pose proof (ok_dir _ _ _ Ok i Hi Vd) as Ti.
  destruct (evict_rows (L2 U a) sharing T (L1 U i a)) as (act & E & Sn & _); [apply Ok|done| | |by eauto].
  - intros Z0. by rewrite zero_sharers_none in Ti.
  - intros Wi. destruct (ok_excl _ _ _ Ok i Hi Wi) as [On Xb]. split; [|done].
    apply state_one; [apply Ok|]. exists i. intros j. case_bool_decide as J; [by subst|].
    apply not_true_iff_false. intros Tj. by apply On in Tj.
Qed.

Lemma phase_evict T action L v1 r ns :
  evict_notice T (L1 U i a) -> phase i a T U action L v1 r ns ->
  L = [] /\ isEvictType T = true /\ forall j, Z.testbit v1 j = Z.testbit (SH U a) j.
Proof using Ok Hi.
  intros Nt Ph. destruct (phase_evict_row T Nt) as (act & E & Sn).
  assert (act = action) as -> by (rewrite (ph_row _ _ _ _ _ _ _ _ _ Ph) in E; congruence).
  pose proof (ph_none _ _ _ _ _ _ _ _ _ Ph Sn) as ->. split; [done|]. split.
  - destruct (L1 U i a); cbn in Nt; by subst.
  - intros j. rewrite (ph_v1 _ _ _ _ _ _ _ _ _ Ph), bool_decide_false by apply not_elem_of_nil.
    apply andb_true_r.
Qed.

(** The block once the sender of the notice has dropped its copy. *)
Lemma phase_released T action L v1 r ns U' :
  evict_notice T (L1 U i a) -> phase i a T U action L v1 r ns -> n <= MAX_NUM_SHARERS ->
  SH U' a = Z.clearbit v1 i -> L2 U' a = ns ->
  (forall j, 0 <= j < n -> L1 U' j a = L1 U j a) -> released n U' i a.
Proof using Ok Hi.
  intros Nt Ph Hn Es En El. destruct (phase_evict T action L v1 r ns Nt Ph) as (-> & _ & V1).
  assert (Vd : L1 U i a <> kInvalid) by (intros E; by rewrite E in Nt).
  assert (T' : forall j, Z.testbit (SH U' a) j = Z.testbit (SH U a) j && negb (i =? j)).
  { intros j. by rewrite Es, testbit_clearbit, V1 by lia. }
  split; cbn [L1 L2 SH set_l1].
  - intros j Hj. case_decide; [done|]. rewrite El by done. by apply Ok.
  - rewrite En. by apply (phase_next T action [] v1 r ns).
  - rewrite Es. apply clearbit_wf; [lia|apply Ph].
  - intros j. rewrite T'. intros [Tj _]%andb_true_iff. by apply Ok.
  - intros j Hj. case_decide as D; [done|]. rewrite El, T' by done. intros V.
    rewrite (ok_dir _ _ _ Ok j Hj V). destruct (Z.eqb_spec i j); [naive_solver|done].
  - intros j Hj. case_decide as D; [done|]. rewrite El by done. intros Wj.
    destruct (ok_excl _ _ _ Ok j Hj Wj) as [On _]. apply (ok_dir _ _ _ Ok i Hi), On in Vd.
    naive_solver.
Qed.
End choices.

Section proofs.
Context {W D H X : Type} (ops : AbstractDirectory D H).
Context (prr : Z -> MemoryMessageType -> MemoryMessageType -> option H -> Z -> D -> outcome D).
Context `{P : !DirectoryPromise ops prr}.
Context (me : Slot W (FastCMPCache D)) `{!SlotLaws me} (n bm : Z).
Context (l1_of : W -> Z -> X) (hold : X -> Z -> CoherenceState_t) (env : W -> Prop).
Context (SnoopOutI SnoopOutD : Z -> MemoryMessage -> M W MemoryMessage).
Context (RequestOut : MemoryMessage -> M W MemoryMessage).
Context `{UL : !UpperLevel me n bm l1_of hold env SnoopOutI SnoopOutD RequestOut}.

Definition l2_ok (x : FastCMPCache D) : Prop :=
  wf_cache (l2_cache x) /\ blockTagMask (l2_cache x) = bm /\ l2_coherenceUnitMask x = bm /\
  l2_separateID x = true /\ l2_scheduledActions x = [] /\ dir_ok (l2_directory x).

Definition l2_view (w : W) : View :=
  mkView (fun k a => hold (l1_of w k) a) (fun a => peek (l2_cache (view me w)) a)
    (fun a => dir_sharers (l2_directory (view me w)) a).

(** The answer of cache [j] to a snoop of type [t] for block [a]. *)
Abbreviation ans w j a t := (snoop_answer (hold (l1_of w j) a) t).

(** The caches of [L] have been snooped, once each, and nothing else has
    changed but the directory entry of the block. *)
Record snooped_by (t : MemoryMessageType) (a : Z) (h : option H) (L : list Z) (w w' : W) : Prop := {
  sb_env : env w';
  sb_l2 : exists d, view me w' = CMP.set_directory d (view me w) /\ dir_ok d /\ dir_entry_of d a h /\
    (forall b, b <> a -> dir_sharers d b = dir_sharers (l2_directory (view me w)) b) /\
    (forall j, Z.testbit (dir_sharers d a) j =
       Z.testbit (dir_sharers (l2_directory (view me w)) a) j &&
       negb (bool_decide (j ∈ L) && removes_sharer (snd (ans w j a t))));
  sb_hold : forall j, j ∈ L ->
    forall b, hold (l1_of w' j) b = if decide (b = a) then fst (ans w j a t) else hold (l1_of w j) b;
  sb_others : forall j, j ∉ L -> l1_of w' j = l1_of w j;
}.

Lemma snooped_none t a h w :
  env w -> dir_ok (l2_directory (view me w)) -> dir_entry_of (l2_directory (view me w)) a h ->
  snooped_by t a h [] w w.
Proof using All.
  intros E O Eh. split; [done| |set_solver|done].
  exists (l2_directory (view me w)). split; [by destruct (view me w)|]. split_and!; [done..|].
  intros j. rewrite bool_decide_false by set_solver. by rewrite andb_true_r.
Qed.

Lemma snooped_cons t a h k L w w1 w2 :
  snooped_by t a h [k] w w1 -> snooped_by t a h L w1 w2 -> k ∉ L -> snooped_by t a h (k :: L) w w2.
Proof using All.
  intros [E1 (d1 & V1 & O1 & Eh1 & S1 & T1) H1 N1] [E2 (d2 & V2 & O2 & Eh2 & S2 & T2) H2 N2] NI.
  assert (Same : forall j, j ∈ L -> l1_of w1 j = l1_of w j) by (intros j I; apply N1; set_solver).
  split; [done| | |].
  - exists d2. rewrite V1 in *. cbn in *. split_and!; [by rewrite V2|done|done| |].
    + intros b Nb. by rewrite S2, S1.
    + intros j. rewrite T2, T1.
      destruct (decide (j = k)) as [->|Nk].
      * rewrite (bool_decide_false (k ∈ L)), (bool_decide_true (k ∈ [k])),
          (bool_decide_true (k ∈ k :: L)) by set_solver. by rewrite andb_true_r.
      * rewrite (bool_decide_false (j ∈ [k])) by set_solver. cbn [negb andb]. rewrite andb_true_r.
        destruct (decide (j ∈ L)) as [I|I].
        -- rewrite !bool_decide_true by set_solver. by rewrite (Same j I).
        -- by rewrite !bool_decide_false by set_solver.
  - intros j I b. destruct (decide (j = k)) as [->|Nk].
    + rewrite (N2 k NI). apply H1. set_solver.
    + assert (j ∈ L) as I' by set_solver. rewrite H2 by done. by rewrite (Same j I').
  - intros j I. rewrite N2, N1 by set_solver. done.
Qed.

Lemma set_dir_set_dir (d d' : D) x : CMP.set_directory d (CMP.set_directory d' x) = CMP.set_directory d x.
Proof using Type. done. Qed.

Lemma wp_on_directory f (d : D) (Q : () -> W -> Prop) w :
  f (l2_directory (view me w)) = Done d ->
  Q () (put me (CMP.set_directory d (view me w)) w) -> wp (on_directory me f) Q w.
Proof using Type.
  intros E K. unfold on_directory. wp_steps. rewrite E. unfold wp at 1. cbn [lift]. by wp_steps.
Qed.

(** One snoop and what the directory makes of the answer. *)
Lemma wp_snoop t a h k msg w (Q : MemoryMessage -> W -> Prop) :
  env w -> l2_ok (view me w) -> dir_entry_of (l2_directory (view me w)) a h ->
  0 <= k < n -> mesi (hold (l1_of w k) a) = true -> Z.land (theAddress msg) bm = a ->
  t = Invalidate \/ t = ReturnReq \/ t = Downgrade ->
  (forall w1, env w1 -> view me w1 = view me w ->
     (forall d, snooped_by t a h [k] w (put me (CMP.set_directory d (view me w1)) w1) ->
        processSnoopResponse ops k (snd (ans w k a t)) h a (l2_directory (view me w1)) = Done d ->
        Q (set_type (snd (ans w k a t)) msg) w1)) ->
  wp (snoopOut SnoopOutI SnoopOutD true k (set_type t msg)) Q w.
Proof using All.
  intros E (Wf & T & B & S & A & O) Eh Hk Ms Al Ht K.
  eapply wp_mono; [apply ul_snoop|]; rewrite ?theAddress_set_type, ?Al; [done..|by destruct Ht as [->|[->| ->]]|].
  intros m w1 (E1 & V1 & -> & H1 & N1). cbn [theType set_type] in *. rewrite set_type_twice.
  destruct (promise_snoop (l2_directory (view me w1)) a h k (snd (ans w k a t)))
    as (d & R & Od & Ed & Sd); rewrite ?V1; [done|done|pose proof ul_width; lia| |].
  { by destruct Ht as [->|[->| ->]], (hold (l1_of w k) a). }
  apply (K w1 E1 V1 d); [|done].
  destruct (ul_put w1 (CMP.set_directory d (view me w1)) E1) as [E2 N2].
  split; [done| | |].
  - exists d. rewrite view_put, V1. split_and!; [done..| |].
    + intros b Nb. rewrite Sd, decide_False by naive_solver. by rewrite V1.
    + intros j. rewrite Sd, V1. destruct (removes_sharer (snd (ans w k a t))) eqn:Rm.
      * rewrite decide_True by done. rewrite testbit_clearbit by lia. f_equal.
        destruct (decide (j = k)) as [->|Nj].
        -- rewrite bool_decide_true, Z.eqb_refl, Rm by set_solver. done.
        -- rewrite bool_decide_false by set_solver. destruct (Z.eqb_spec k j); [lia|done].
      * rewrite decide_False by naive_solver. destruct (decide (j = k)) as [->|Nj].
        -- by rewrite Rm, andb_false_r, andb_true_r.
        -- rewrite bool_decide_false by set_solver. by rewrite andb_true_r.
  - intros j Ij b. apply list_elem_of_singleton in Ij as ->. by rewrite N2, H1.
  - intros j Ij. rewrite N2, N1; [done|set_solver].
Qed.

Lemma l2_ok_set_directory (d : D) x : l2_ok x -> dir_ok d -> l2_ok (CMP.set_directory d x).
Proof using Type. by intros (A & B & C & E & F & G) O. Qed.

Lemma snooped_l2_ok t a h L w w' : snooped_by t a h L w w' -> l2_ok (view me w) -> l2_ok (view me w').
Proof using Type.
  intros [_ (d & -> & O & _) _ _] Ok. by apply l2_ok_set_directory.
Qed.

Lemma snooped_entry t a h L w w' :
  snooped_by t a h L w w' -> dir_entry_of (l2_directory (view me w')) a h.
Proof using Type. by intros [_ (d & -> & _ & E & _) _ _]. Qed.

(** What the loop tells about the answers: the second outcome of the action
    is chosen only when a snooped cache held the block modified. *)
Definition second_chosen (action : PrimaryAction) (t : MemoryMessageType) (a : Z) (L : list Z)
    (w : W) (st st' : CMP.SnoopLoop) : Prop :=
  CMP.sl_our_response st' = CMP.sl_our_response st /\ CMP.sl_use_ns1 st' = CMP.sl_use_ns1 st \/
  CMP.sl_our_response st' = response1 action /\ CMP.sl_use_ns1 st' = true /\
  (CMP.sl_response st = dirty_reply t \/ exists j, j ∈ L /\ hold (l1_of w j) a = kModified).

Lemma terminals_second action t r :
  terminals_ok action = true -> snoop_type action = t -> t = Invalidate \/ t = ReturnReq ->
  negb (type_eqb r (terminal_response0 action)) && type_eqb r (terminal_response1 action) = true ->
  r = dirty_reply t.
Proof using Type.
  intros Tm <- Ht [N1 N2]%andb_true_iff. apply type_eqb_eq in N2 as ->.
  unfold terminals_ok in Tm. destruct Ht as [E|E]; rewrite E in Tm |- *.
  - apply orb_true_iff in Tm as [[T0 T1]%andb_true_iff|[T0 T1]%andb_true_iff];
      apply type_eqb_eq in T0, T1; [done|]. by rewrite T0, T1 in N1.
  - apply andb_true_iff in Tm as [T0 T1]. by apply type_eqb_eq in T1.
Qed.

(** One round of the loop. *)
Lemma snoop_one_spec t a h action k st w (Q : CMP.SnoopLoop -> W -> Prop) :
  env w -> l2_ok (view me w) -> dir_entry_of (l2_directory (view me w)) a h ->
  0 <= k < n -> mesi (hold (l1_of w k) a) = true ->
  snoop_type action = t -> t = Invalidate \/ t = ReturnReq -> terminals_ok action = true ->
  Z.land (theAddress (CMP.sl_msg st)) bm = a ->
  CMP.sl_response st = NoRequest \/ snoop_class t (CMP.sl_response st) = true ->
  (forall st1 w1, snooped_by t a h [k] w w1 -> second_chosen action t a [k] w st st1 ->
     Z.land (theAddress (CMP.sl_msg st1)) bm = a -> snoop_class t (CMP.sl_response st1) = true ->
     (CMP.sl_response st1 = dirty_reply t ->
      CMP.sl_response st = dirty_reply t \/ hold (l1_of w k) a = kModified) -> Q st1 w1) ->
  wp (snoop_one ops me SnoopOutI SnoopOutD action h a k st) Q w.
Proof using All.
  intros E Ok Eh Hk Ms Et Ht Tm Al Rs K. unfold snoop_one. wp_steps.
  pose proof Ok as (_ & _ & _ & S & _). rewrite S, Et.
  eapply (wp_snoop t a h k); [done..|naive_solver|]. intros w1 E1 V1 d Sb R.
  destruct (snoop_answer_class t (hold (l1_of w k) a)) as (C & _ & _ & _ & Dm); [done..|].
  destruct (combine_class t (CMP.sl_response st) (snd (ans w k a t)) Rs C) as (r & Er & Cr & Dr).
  cbn [theType set_type]. wp_step. rewrite Er. unfold wp at 1. cbn [lift]. wp_step.
  eapply wp_on_directory; [exact R|]. wp_step.
  assert (Dirty : r = dirty_reply t ->
    CMP.sl_response st = dirty_reply t \/ hold (l1_of w k) a = kModified).
  { intros Y. apply Dr in Y as [Y|Y]; auto. }
  apply K; cbn; [exact Sb| |done|done|done].
  destruct (negb (type_eqb r (terminal_response0 action)) && type_eqb r (terminal_response1 action))
    eqn:Sec; [|by left].
  right. split_and!; [done..|].
  apply (terminals_second action t) in Sec; [|done..]. destruct (Dirty Sec) as [Y|Y]; [by left|right].
  exists k. split; [set_solver|done].
Qed.

Lemma second_chosen_step action t a h k L w w1 st st1 st' :
  snooped_by t a h [k] w w1 -> k ∉ L ->
  second_chosen action t a [k] w st st1 ->
  (CMP.sl_response st1 = dirty_reply t ->
   CMP.sl_response st = dirty_reply t \/ hold (l1_of w k) a = kModified) ->
  second_chosen action t a L w1 st1 st' -> second_chosen action t a (k :: L) w st st'.
Proof using Type.
  intros Sb NI S1 Dr S2.
  assert (Mod : forall j, j ∈ L -> hold (l1_of w1 j) a = hold (l1_of w j) a).
  { intros j Ij. rewrite (sb_others _ _ _ _ _ _ Sb j); [done|]. intros ->%list_elem_of_singleton. done. }
  destruct S2 as [[A2 B2]|(A2 & B2 & C2)].
  - destruct S1 as [[A1 B1]|(A1 & B1 & C1)]; [left; split; congruence|right].
    split_and!; [congruence..|]. destruct C1 as [C1|(j & Ij & Mj)]; [by left|right].
    exists j. split; [|done]. apply list_elem_of_singleton in Ij as ->. apply list_elem_of_here.
  - right. split_and!; [done..|]. destruct C2 as [C2|(j & Ij & Mj)].
    + destruct (Dr C2) as [Y|Y]; [by left|right]. exists k. split; [apply list_elem_of_here|done].
    + right. exists j. split; [by apply list_elem_of_further|]. by rewrite <-Mod.
Qed.

(** The loop snoops caches of the list other than the requester; it snoops
    all of them when it is a multicast or there is only one. *)
Lemma snoop_loop_spec t a h i action am ms l st w (Q : CMP.SnoopLoop -> W -> Prop) :
  env w -> l2_ok (view me w) -> dir_entry_of (l2_directory (view me w)) a h ->
  NoDup l -> (forall j, j ∈ l -> 0 <= j < n /\ mesi (hold (l1_of w j) a) = true) ->
  snoop_type action = t -> t = Invalidate \/ t = ReturnReq -> terminals_ok action = true ->
  Z.land (theAddress (CMP.sl_msg st)) bm = a ->
  CMP.sl_response st = NoRequest \/ snoop_class t (CMP.sl_response st) = true ->
  (forall st' w' L, snooped_by t a h L w w' -> (forall j, j ∈ L -> j ∈ l /\ j <> i) ->
     second_chosen action t a L w st st' ->
     (multicast action = true \/ (forall j j', j ∈ l -> j' ∈ l -> j <> i -> j' <> i -> j = j') ->
      forall j, j ∈ l -> j <> i -> j ∈ L) -> Q st' w') ->
  wp (snoop_loop ops me SnoopOutI SnoopOutD action am ms h a i l st) Q w.
Proof using All.
  intros E Ok Eh ND Rng Et Ht Tm Al Rs K. revert st w E Ok Eh Rng Al Rs Q K.
  induction l as [|k l IH]; intros st w E Ok Eh Rng Al Rs Q K; cbn [snoop_loop].
  { wp_step. apply (K st w []); [apply snooped_none; [done|apply Ok|done]|set_solver|by left|set_solver]. }
  apply NoDup_cons in ND as [NI ND].
  destruct (Z.eqb_spec k i) as [->|Nk].
  { apply IH; [done..|intros j Ij; by apply Rng, list_elem_of_further|done|done|].
    intros st' w' L Sb Sub Sec All'. apply (K st' w' L); [done| |done|].
    - intros j Ij. destruct (Sub j Ij). split; [by apply list_elem_of_further|done].
    - intros M j Ij Nj. apply elem_of_cons in Ij as [->|Ij]; [done|]. apply All'; [|done..].
      destruct M as [M|M]; [by left|right]. intros j1 j2 I1 I2. apply M; by apply list_elem_of_further. }
  destruct (Rng k) as [Hk Mk]; [apply list_elem_of_here|].
  wp_step. eapply (snoop_one_spec t a h); [done..|].
  intros st1 w1 Sb S1 Al1 Cl1 Dr.
  assert (Rest : forall st2, CMP.sl_msg st2 = CMP.sl_msg st1 ->
    CMP.sl_response st2 = CMP.sl_response st1 -> CMP.sl_our_response st2 = CMP.sl_our_response st1 ->
    CMP.sl_use_ns1 st2 = CMP.sl_use_ns1 st1 ->
    wp (snoop_loop ops me SnoopOutI SnoopOutD action am ms h a i l st2) Q w1).
  { intros st2 M2 R2 O2 U2. pose proof (sb_others _ _ _ _ _ _ Sb) as Oth.
    apply IH; [done|apply Sb|by eapply snooped_l2_ok|by eapply snooped_entry| |by rewrite M2|by rewrite R2; right|].
    - intros j Ij. destruct (Rng j) as [Hj Mj]; [by apply list_elem_of_further|]. split; [done|].
      rewrite Oth; [done|]. intros ->%list_elem_of_singleton. done.
    - intros st' w' L Sb' Sub Sec All'.
      assert (k ∉ L) as NL by (intros I; by destruct (Sub k I)).
      apply (K st' w' (k :: L)).
      + by eapply snooped_cons.
      + intros j [->|Ij]%elem_of_cons; [split; [apply list_elem_of_here|done]|].
        destruct (Sub j Ij). split; [by apply list_elem_of_further|done].
      + eapply second_chosen_step; [done|done|done|done|].
        unfold second_chosen in *. by rewrite R2, O2, U2 in Sec.
      + intros M j [->|Ij]%elem_of_cons Nj; [apply list_elem_of_here|]. apply list_elem_of_further.
        apply All'; [|done..]. destruct M as [M|M]; [by left|right].
        intros j1 j2 I1 I2. apply M; by apply list_elem_of_further. }
  destruct (negb (multicast action) && negb (am && ms)) eqn:Mc.
  - destruct (CMP.terminal action (CMP.sl_response st1)); [|by apply Rest].
    wp_step. apply (K st1 w1 [k]); [done| |done|].
    + intros j ->%list_elem_of_singleton. split; [apply list_elem_of_here|done].
    + intros [M|M] j Ij Nj; [by rewrite M in Mc|].
      apply list_elem_of_singleton. apply M; [done|apply list_elem_of_here|done|done].
  - destruct (negb (CMP.terminal action (theType (CMP.sl_msg st1)))); [by apply Rest|].
    destruct (_ && _ && _); by apply Rest.
Qed.

(** ** The tag array of the chip-level cache *)

Lemma l2_ok_set_cache c u x : l2_ok x -> effect (l2_cache x) c u -> l2_ok (CMP.set_cache c x).
Proof using Type.
  intros (A & B & C) (W' & G & _). split; [done|]. split; [|done].
  cbn. by destruct G as (_ & _ & _ & _ & <-).
Qed.

Definition array_step (a : Z) (ns : CoherenceState_t) (w w' : W) : Prop :=
  env w' /\ l2_ok (view me w') /\ l2_directory (view me w') = l2_directory (view me w) /\
  (forall k, l1_of w' k = l1_of w k) /\ peek (l2_cache (view me w')) a = ns /\
  (forall b, b <> a -> peek (l2_cache (view me w')) b = peek (l2_cache (view me w)) b \/
                       peek (l2_cache (view me w')) b = kInvalid).

(** A change of the component's own state that keeps its directory. *)
Lemma array_put a ns w x :
  env w -> l2_ok x -> l2_directory x = l2_directory (view me w) -> peek (l2_cache x) a = ns ->
  (forall b, b <> a -> peek (l2_cache x) b = peek (l2_cache (view me w)) b \/
                       peek (l2_cache x) b = kInvalid) ->
  array_step a ns w (put me x w).
Proof using All.
  intros E Ok Dx Pa Pb. destruct (ul_put w x E) as [E' N]. unfold array_step. rewrite view_put.
  by split_and!.
Qed.

Lemma wp_l2_lookup a (Q : LookupResult -> W -> Prop) w :
  env w -> l2_ok (view me w) -> Z.land a bm = a ->
  (forall lr c b, l2_ok (CMP.set_cache c (view me w)) ->
     (forall a', peek c a' = peek (l2_cache (view me w)) a') -> handle c lr a b ->
     getState lr c = peek (l2_cache (view me w)) a ->
     Q lr (put me (CMP.set_cache c (view me w)) w)) ->
  wp (l2_lookup me a) Q w.
Proof using All.
  intros E Ok Al K. unfold l2_lookup. wp_steps. cbn.
  destruct (cache_lookup a (l2_cache (view me w))) as [lr c] eqn:El. cbn.
  pose proof Ok as (Wf & T & _).
  destruct (cache_lookup_spec (l2_cache (view me w)) Wf a lr c) as (W' & G & Pk & (b & Hb) & S);
    [unfold get_tag; by rewrite T|done|].
  apply (K lr c b); [|done|done|done]. by apply (l2_ok_set_cache c _ _ Ok (conj W' (conj G Pk))).
Qed.

Lemma l2_evict_spec a st w (Q : () -> W -> Prop) :
  env w ->
  (forall w' m, env w' ->
     view me w' = CMP.set_evictMessage m (view me w) -> (forall k, l1_of w' k = l1_of w k) ->
     Q () w') ->
  wp (l2_evict me RequestOut a st) Q w.
Proof using All.
  intros E K. unfold l2_evict. wp_steps. rewrite view_put.
  set (x1 := CMP.set_evictMessage _ (view me w)).
  destruct (ul_put w x1 E) as [E1 N1].
  eapply wp_mono; [apply ul_memory; [done|]|].
  { cbn. unfold SingleCMP.evict. by destruct (state_eqb st kModified). }
  intros m w2 (E2 & V2 & N2). wp_step.
  destruct (ul_put w2 (CMP.set_evictMessage m (view me w2)) E2) as [E3 N3].
  apply (K _ m); [done| |].
  - by rewrite view_put, V2, view_put.
  - intros k. by rewrite N3, N2, N1.
Qed.

(** [allocate] of the chip-level cache: the victim goes to memory. *)
Lemma wp_l2_allocate lr a b ns w (Q : () -> W -> Prop) :
  env w -> l2_ok (view me w) -> handle (l2_cache (view me w)) lr a b ->
  (forall w', array_step a ns w w' -> Q () w') ->
  wp (allocate (l2_cache_slot me) (l2_evict me RequestOut) lr ns) Q w.
Proof using All.
  intros E Ok Hd K. unfold allocate. wp_steps. cbn [view l2_cache_slot put].
  set (c1 := allocate_begin lr (l2_cache (view me w))).
  set (w1 := put me (CMP.set_cache c1 (view me w)) w).
  assert (V1 : view me w1 = CMP.set_cache c1 (view me w)) by apply view_put.
  assert (H1 : handle c1 lr a b) by (by apply handle_set_allocating).
  pose proof (set_allocating_effect (l2_cache (view me w)) true
                (get_tag (l2_cache (view me w)) (lr_address lr)) (proj1 Ok)) as Ef.
  pose proof (l2_ok_set_cache c1 _ _ Ok Ef) as Ok1.
  destruct (ul_put w (CMP.set_cache c1 (view me w)) E) as [E1 N1]. fold w1 in E1, N1.
  rewrite V1. cbn [l2_cache CMP.set_cache].
  assert (Fin : forall w2, env w2 -> (forall k, l1_of w2 k = l1_of w1 k) ->
    (exists m, view me w2 = CMP.set_evictMessage m (view me w1)) \/ view me w2 = view me w1 ->
    wp (update (l2_cache_slot me) (allocate_end lr (allocate_replaces lr c1) ns)) Q w2).
  { intros w2 E2 N2 V2. wp_step. cbn [view l2_cache_slot put].
    assert (C2 : l2_cache (view me w2) = c1 /\ l2_directory (view me w2) = l2_directory (view me w) /\
                 l2_ok (view me w2)).
    { destruct V2 as [[m ->]| ->]; rewrite V1; done. }
    destruct C2 as (C2 & D2 & Ok2). rewrite C2.
    pose proof (allocate_end_spec c1 lr a b ns (proj1 Ok1) H1) as Eff.
    apply K. destruct (array_put a ns w2
      (CMP.set_cache (allocate_end lr (allocate_replaces lr c1) ns c1) (view me w2)))
      as (A1 & A2 & A3 & A4 & A5 & A6); [done| |done| | |].
    - eapply l2_ok_set_cache; [done|]. rewrite C2. exact Eff.
    - destruct Eff as (_ & _ & Pk). cbn. by rewrite Pk, decide_True.
    - intros b' Nb. destruct Eff as (_ & _ & Pk). cbn. rewrite Pk, decide_False, C2 by done.
      destruct (decide _); auto.
    - split_and!; [done|done|by rewrite A3|intros k; by rewrite A4, N2, N1|done|].
      intros b' Nb. destruct (A6 b' Nb) as [Y|Y]; [left|by right]. rewrite Y, C2. apply Ef. }
  destruct (allocate_victim lr c1) as [v|].
  - apply l2_evict_spec; [done|]. intros w2 m E2 V2 N2. apply Fin; [done|done|by left; eexists].
  - wp_step. apply Fin; [done|done|by right].
Qed.

Lemma wp_update_cache action (use1 : bool) lr a b w (Q : () -> W -> Prop) :
  let ns := if use1 then next_state1 action else next_state0 action in
  env w -> l2_ok (view me w) -> handle (l2_cache (view me w)) lr a b ->
  (act_allocate action = false -> peek (l2_cache (view me w)) a = kInvalid -> ns = kInvalid) ->
  (forall w', array_step a ns w w' -> Q () w') ->
  wp (update_cache me RequestOut action use1 lr) Q w.
Proof using All.
  intros ns E Ok Hd Safe K. unfold update_cache. fold ns.
  destruct (act_allocate action); [by eapply wp_l2_allocate|]. specialize (Safe eq_refl).
  wp_steps. cbn [view l2_cache_slot]. rewrite (handle_getState _ (proj1 Ok) _ _ _ Hd).
  destruct (state_eqb ns (peek (l2_cache (view me w)) a)) eqn:Eq; cbn [negb].
  - apply state_eqb_eq in Eq.
    assert (Keep : array_step a ns w w).
    { split_and!; [done|done|done|done|done|]. by left. }
    destruct (act_update action && negb (state_eqb (peek (l2_cache (view me w)) a) kInvalid)); [|wp_step; auto].
    wp_step. cbn [view l2_cache_slot put]. apply K.
    destruct (update_lru_spec _ (proj1 Ok) lr a b Hd) as [Ef _].
    apply array_put; [done|by eapply l2_ok_set_cache|done| |].
    + cbn. destruct Ef as (_ & _ & ->). done.
    + intros b' _. left. cbn. by destruct Ef as (_ & _ & ->).
  - assert (Vd : peek (l2_cache (view me w)) a <> kInvalid).
    { intros I. rewrite I, (Safe I) in Eq. done. }
    wp_steps; [by destruct (peek (l2_cache (view me w)) a)|]. cbn [view l2_cache_slot put].
    destruct (updateState_spec (l2_cache (view me w)) lr a b ns (act_update action) false) as [Ef _];
      [apply Ok|done| |].
    { destruct (decide (tag b = a)) as [|N]; [done|]. destruct (h_miss _ _ _ _ Hd N) as [F _].
      destruct Vd. unfold peek. by rewrite F. }
    apply K. apply array_put; [done|by eapply l2_ok_set_cache|done| |].
    + cbn. destruct Ef as (_ & _ & ->). unfold only. by rewrite decide_True.
    + intros b' Nb. left. cbn. destruct Ef as (_ & _ & ->). unfold only. by rewrite decide_False.
Qed.

(** ** A whole request *)
Lemma wp_delayed (Q : () -> W -> Prop) w :
  l2_ok (view me w) -> Q () w -> wp (performDelayedActions me SnoopOutI SnoopOutD) Q w.
Proof using All.
  intros (_ & _ & _ & _ & A & _) K. unfold performDelayedActions. wp_steps. rewrite A. cbn [run_actions].
  wp_steps. assert (E : CMP.set_scheduled [] (view me w) = view me w)
    by (destruct (view me w); cbn in *; by subst).
  by rewrite E, put_view.
Qed.

Lemma wp_snoop_phase a h i action sharers msg w (Q : CMP.SnoopLoop -> W -> Prop) :
  env w -> l2_ok (view me w) -> dir_entry_of (l2_directory (view me w)) a h ->
  Z.land (theAddress msg) bm = a -> terminals_ok action = true ->
  sharers = dir_sharers (l2_directory (view me w)) a ->
  (forall j, Z.testbit sharers j = true -> 0 <= j < n /\ mesi (hold (l1_of w j) a) = true) ->
  (forall st w' L, snooped_by (snoop_type action) a h L w w' ->
     (forall j, j ∈ L -> Z.testbit sharers j = true /\ j <> i) ->
     (snoop_type action = NoRequest -> L = []) ->
     (snoop_type action <> NoRequest -> multicast action = true \/ one_other i sharers ->
      forall j, Z.testbit sharers j = true -> j <> i -> j ∈ L) ->
     (CMP.sl_our_response st = response0 action /\ CMP.sl_use_ns1 st = false \/
      CMP.sl_our_response st = response1 action /\ CMP.sl_use_ns1 st = true /\
      exists j, j ∈ L /\ hold (l1_of w j) a = kModified) -> Q st w') ->
  wp (snoop_phase ops me SnoopOutI SnoopOutD action sharers h a i msg) Q w.
Proof using All.
  intros E Ok Eh Al Tm Es Rng K. unfold snoop_phase.
  destruct (type_eqb (snoop_type action) NoRequest) eqn:Ns.
  { apply type_eqb_eq in Ns. wp_step. apply (K _ w []); [|set_solver|done|done|by left].
    apply snooped_none; [done|apply Ok|done]. }
  assert (Nq : snoop_type action <> NoRequest) by (intros F; apply type_eqb_eq in F; congruence).
  wp_steps. assert (Wf : SV.wf sharers) by (rewrite Es; apply promise_wf, Ok).
  assert (Ht : snoop_type action = Invalidate \/ snoop_type action = ReturnReq).
  { unfold terminals_ok in Tm. destruct (snoop_type action); try done; auto. }
  eapply (snoop_loop_spec (snoop_type action) a h); [done..|apply NoDup_toList| |done|done|done|done|by left|].
  { intros j Ij. apply elem_of_toList_wf in Ij; [|done]. auto. }
  intros st w' L Sb Sub Sec All'. apply (K st w' L); [done| |done| |].
  - intros j Ij. destruct (Sub j Ij) as [I1 I2]. by apply elem_of_toList_wf in I1.
  - intros _ M j Tj Nj. apply All'; [|by apply elem_of_toList_wf|done].
    destruct M as [M|M]; [by left|right]. intros j1 j2 I1 I2.
    apply elem_of_toList_wf in I1, I2; [|done..]. by apply M.
  - destruct Sec as [[A B]|(A & B & C)]; [by left|right]. split_and!; [done..|].
    destruct C as [C|C]; [|done]. cbn in C. by destruct Ht as [F|F]; rewrite F in C.
Qed.

Lemma classify_done action c T acc suc :
  row_spec c T action -> (acc = true -> forward_request action = true) ->
  (suc = true -> snoop_type action <> NoRequest) ->
  exists l, classify T acc suc = Done l.
Proof using Type.
  intros R A S.
  assert (F' : acc = true -> goes_below T = true) by (intros Y; by apply (row_below _ _ _ R), A).
  assert (G' : suc = true -> goes_above T = true) by (intros Y; by apply (row_above _ _ _ R), S).
  pose proof (row_request _ _ _ R).
  destruct T; try done; destruct acc, suc; try (specialize (F' eq_refl); done);
    try (specialize (G' eq_refl); done); cbn; by eexists.
Qed.

Record request_done (i a : Z) (T : MemoryMessageType) (action : PrimaryAction) (L : list Z)
    (v1 : SharingVector) (r : MemoryMessageType) (ns : CoherenceState_t) (w w' : W) : Prop := {
  rd_env : env w';
  rd_l2 : l2_ok (view me w');
  rd_others : forall j, j ∉ L -> l1_of w' j = l1_of w j;
  rd_hold : forall j, j ∈ L -> forall b, hold (l1_of w' j) b =
    if decide (b = a) then fst (ans w j a (snoop_type action)) else hold (l1_of w j) b;
  rd_sharers : forall b, SH (l2_view w') b =
    if decide (b = a) then sharers_after i T r v1 else SH (l2_view w) b;
  rd_state : L2 (l2_view w') a = ns;
  rd_victim : forall b, b <> a -> L2 (l2_view w') b = L2 (l2_view w) b \/ L2 (l2_view w') b = kInvalid;
}.

(** After the snoops: memory, the directory, the tag array and statistics. *)
Lemma finish_request i a h action L msg st w1 w2 lr b
    (c : CoherenceState_t) (pot : Z) (suc : bool) (Q : MemoryMessage -> W -> Prop) :
  let T := theType msg in
  let r := CMP.sl_our_response st in
  let ns := if CMP.sl_use_ns1 st then next_state1 action else next_state0 action in
  let v1 := dir_sharers (l2_directory (view me w2)) a in
  let acc := negb suc && forward_request action in
  l2_ok (view me w1) -> 0 <= i < n ->
  row_spec c T action -> snooped_by (snoop_type action) a h L w1 w2 ->
  handle (l2_cache (view me w1)) lr a b -> peek (l2_cache (view me w1)) a = c ->
  (suc = true -> snoop_type action <> NoRequest) ->
  recordable i T r v1 ->
  (forall m w', theType m = r -> request_done i a T action L v1 r ns w1 w' -> Q m w') ->
  wp (aMessage ← (if acc then RequestOut msg else mret msg);
      let aMessage := set_type r aMessage in
      on_directory me (prr i T (theType aMessage) h a);;
      update_cache me RequestOut action (CMP.sl_use_ns1 st) lr;;
      record_stats me action T acc pot (CMP.sl_unnecessary st) (CMP.sl_extra st);;
      names ← lift (classify T acc suc);
      update me (fun x => CMP.set_stats (foldr CMP.count (l2_cacheStats x) names) (l2_dirStats x)
                            (l2_dirHistograms x) x);;
      mret aMessage) Q w2.
Proof using All.
  intros T r ns v1 acc Ok1 Hi Row Sb Hd Pc Suc Rec K.
  pose proof (snooped_l2_ok _ _ _ _ _ _ Sb Ok1) as Ok2.
  destruct Sb as [E2 (d2 & V2 & Od2 & Eh2 & S2 & T2) H2 N2].
  assert (Safe : act_allocate action = false -> c = kInvalid -> ns = kInvalid).
  { intros Y1 Y2. destruct (row_invalid _ _ _ Row Y1 Y2). unfold ns. by destruct (CMP.sl_use_ns1 st). }
  destruct (classify_done action c T acc suc Row) as [names Nm];
    [by unfold acc; destruct suc, (forward_request action)|done|].
  (* memory *)
  assert (Mem : forall Q', (forall m w3, env w3 -> view me w3 = view me w2 ->
      (forall k, l1_of w3 k = l1_of w2 k) -> Q' m w3) ->
    wp (if acc then RequestOut msg else mret msg) Q' w2).
  { intros Q' K'. destruct acc eqn:Acc; [|wp_step; by apply K'].
    eapply wp_mono; [apply ul_memory|]; [done| |naive_solver].
    fold T. rewrite (row_below _ _ _ Row); [done|]. unfold acc in Acc. by apply andb_true_iff in Acc as [_ ?]. }
  wp_step. apply Mem. intros m w3 E3 V3 N3. cbn [theType set_type].
  (* the directory *)
  destruct (promise_response (l2_directory (view me w3)) a h i T r) as (d4 & R4 & O4 & S4);
    rewrite ?V3; [apply Ok2| |pose proof ul_width; lia|done|].
  { by rewrite V2. }
  wp_step. eapply wp_on_directory; [exact R4|]. wp_step.
  set (w4 := put me (CMP.set_directory d4 (view me w3)) w3).
  assert (V4 : view me w4 = CMP.set_directory d4 (view me w3)) by apply view_put.
  destruct (ul_put w3 (CMP.set_directory d4 (view me w3)) E3) as [E4 N4]. fold w4 in E4, N4.
  assert (C4 : l2_cache (view me w4) = l2_cache (view me w1)) by (by rewrite V4, V3, V2).
  (* the tag array *)
  eapply (wp_update_cache action _ lr a b); [done| |by rewrite C4| |].
  { rewrite V4. apply l2_ok_set_directory; [by rewrite V3|done]. }
  { rewrite C4, Pc. exact Safe. }
  intros w5 (E5 & Ok5 & D5 & N5 & P5 & B5).
  (* the statistics *)
  unfold record_stats. wp_steps. rewrite Nm. unfold wp at 1. cbn [lift]. wp_steps.
  rewrite view_put, put_put. set (x6 := CMP.set_stats _ _ _ _).
  assert (X6 : l2_cache x6 = l2_cache (view me w5) /\ l2_directory x6 = l2_directory (view me w5) /\ l2_ok x6).
  { unfold x6. by destruct (dir_stat_name T acc). }
  destruct X6 as (C6 & D6 & Ok6). destruct (ul_put w5 x6 E5) as [E6 N6].
  apply K; [done|]. split; rewrite ?view_put; cbn [L2 SH l2_view].
  - done.
  - done.
  - intros j Nj. by rewrite N6, N5, N4, N3, N2.
  - intros j Ij b'. by rewrite N6, N5, N4, N3, H2.
  - intros b'. rewrite view_put, D6, D5, V4. cbn [l2_directory CMP.set_directory].
    rewrite S4, V3. destruct (decide (b' = a)) as [->|Nb]; [done|]. rewrite V2. cbn. by rewrite S2.
  - by rewrite view_put, C6, P5.
  - intros b' Nb. rewrite view_put, C6. destruct (B5 b' Nb) as [->|Y]; [left; by rewrite C4|by right].
Qed.

Lemma processRequest_spec i msg w (Q : MemoryMessage -> W -> Prop) :
  let a := Z.land (theAddress msg) bm in
  let T := theType msg in
  env w -> l2_ok (view me w) -> ok_block n (l2_view w) a -> 0 <= i < n ->
  (exists action, SingleCMP.getAction (L2 (l2_view w) a)
     (state_of_count (SV.countSharers (SH (l2_view w) a))) T = Done action) ->
  (forall action L v1 r ns, phase i a T (l2_view w) action L v1 r ns -> recordable i T r v1) ->
  (forall m w' action L v1 r ns, phase i a T (l2_view w) action L v1 r ns -> theType m = r ->
     request_done i a T action L v1 r ns w w' -> Q m w') ->
  wp (processRequest ops prr me SnoopOutI SnoopOutD RequestOut i msg) Q w.
Proof using All.
  intros a T E Ok B Hi [action Act] Rec K. unfold processRequest. wp_step. wp_step.
  pose proof Ok as (_ & _ & Mk & _ & _ & Od). cbn zeta. rewrite Mk. fold a. fold T.
  wp_step. apply wp_delayed; [done|]. wp_step. wp_step.
  destruct (promise_lookup (l2_directory (view me w)) i a T Od) as (h & Lk & Eh). rewrite Lk.
  wp_step. apply wp_l2_lookup; [done|done|apply land_idem|]. intros lr c b Ok1 Pk Hd Gs. wp_step. wp_step.
  set (w1 := put me (CMP.set_cache c (view me w)) w).
  assert (V1 : view me w1 = CMP.set_cache c (view me w)) by apply view_put.
  destruct (ul_put w (CMP.set_cache c (view me w)) E) as [E1 N1]. fold w1 in E1, N1.
  cbn [view l2_cache_slot]. rewrite V1. cbn [l2_cache CMP.set_cache]. rewrite Gs.
  cbn [L2 SH l2_view] in Act. rewrite Act. wp_step. unfold wp at 1. cbn [lift].
  pose proof (getAction_spec _ _ _ _ Act) as Row.
  assert (Pz : poison action = false) by (by apply getAction_row in Act as [_ ?]).
  wp_step. wp_step; [by rewrite Pz|]. wp_step.
  eapply (wp_snoop_phase a h); rewrite ?V1; [done|done|done|done|apply Row|done| |].
  { intros j Tj. rewrite N1. pose proof (ok_range _ _ _ B j Tj). split; [done|]. by apply (ok_l1 _ _ _ B). }
  intros st w2 L Sb Sub None All' Out. cbn zeta.
  set (ns := if CMP.sl_use_ns1 st then next_state1 action else next_state0 action).
  assert (Ph : phase i a T (l2_view w) action L (dir_sharers (l2_directory (view me w2)) a)
                 (CMP.sl_our_response st) ns).
  { destruct Sb as [_ (d2 & V2 & Od2 & _ & _ & T2) _ _]. rewrite V2, V1 in *. cbn in *.
    split; [exact Act|exact Sub|exact None|exact All'|by apply promise_wf| |].
    - intros j. rewrite T2, N1. done.
    - unfold ns. destruct Out as [(-> & ->)|(-> & -> & j & Ij & Mj)]; [by left|right].
      split_and!; [done..|]. exists j. split; [done|]. rewrite N1 in Mj. exact Mj. }
  eapply (finish_request i a h action L msg st w1 w2 lr b); rewrite ?V1; cbn [l2_cache CMP.set_cache];
    [done|done|exact Row|done|done|by rewrite Pk| | |].
  { intros [Sn _]%andb_true_iff F. by rewrite F in Sn. }
  { exact (Rec _ _ _ _ _ Ph). }
  intros m w' Tm [R1 R2 R3 R4 R5 R6 R7]. eapply K; [exact Ph|done|].
  assert (Va : forall b', SH (l2_view w1) b' = SH (l2_view w) b' /\ L2 (l2_view w1) b' = L2 (l2_view w) b').
  { intros b'. cbn. rewrite V1. cbn. by rewrite Pk. }
  split; [done|done| | | |done|].
  - intros j Nj. by rewrite R3, N1.
  - intros j Ij b'. by rewrite R4, !N1.
  - intros b'. rewrite R5. case_decide; [done|]. by destruct (Va b') as [-> _].
  - intros b' Nb. destruct (Va b') as [_ <-]. auto.
Qed.

Section request.
Context (i : Z) (msg : MemoryMessage) (w : W).
Abbreviation a := (Z.land (theAddress msg) bm).
Abbreviation T := (theType msg).
Hypothesis (E : env w) (Ok : l2_ok (view me w)) (B : ok_block n (l2_view w) a) (Hi : 0 <= i < n).

Lemma done_above action L v1 r ns w' j :
  request_done i a T action L v1 r ns w w' ->
  L1 (l2_view w') j a = after_snoop a (l2_view w) action L j.
Proof using Type.
  intros R. cbn. unfold after_snoop. case_bool_decide as I.
  - by rewrite (rd_hold _ _ _ _ _ _ _ _ _ _ R), decide_True.
  - by rewrite (rd_others _ _ _ _ _ _ _ _ _ _ R).
Qed.

Lemma done_frame action L v1 r ns w' :
  request_done i a T action L v1 r ns w w' -> frame n a (l2_view w) (l2_view w').
Proof using Type.
  intros R b Nb. split_and!.
  - intros j Hj. cbn. destruct (decide (j ∈ L)) as [I|I].
    + by rewrite (rd_hold _ _ _ _ _ _ _ _ _ _ R), decide_False.
    + by rewrite (rd_others _ _ _ _ _ _ _ _ _ _ R).
  - by rewrite (rd_sharers _ _ _ _ _ _ _ _ _ _ R), decide_False.
  - by apply (rd_victim _ _ _ _ _ _ _ _ _ _ R).
Qed.

Lemma requester_untouched action L v1 r ns w' :
  phase i a T (l2_view w) action L v1 r ns -> request_done i a T action L v1 r ns w w' ->
  l1_of w' i = l1_of w i.
Proof using Type.
  intros Ph R. apply (rd_others _ _ _ _ _ _ _ _ _ _ R). intros I.
  by destruct (ph_sub _ _ _ _ _ _ _ _ _ Ph i I).
Qed.

Lemma l2_miss :
  may_ask T (L1 (l2_view w) i a) ->
  wp (processRequest ops prr me SnoopOutI SnoopOutD RequestOut i msg) (fun m w' =>
    env w' /\ l2_ok (view me w') /\ l1_of w' i = l1_of w i /\ frame n a (l2_view w) (l2_view w') /\
    exists excl, granted n (l2_view w') i a excl /\ answers T (theType m) excl) w.
Proof using All.
  intros Ask.
  assert (G : forall action L v1 r ns, phase i a T (l2_view w) action L v1 r ns ->
    exists excl, grants n i a (l2_view w) T action L v1 r ns excl).
  { intros action L v1 r ns Ph. destruct T eqn:ET; try done.
    all: first
      [ by apply phase_read | exists true; by apply phase_write | exists false; by apply phase_fetch
      | exists true; apply phase_upgrade; [done..| |done]; apply (ok_dir _ _ _ B); [done|]; by rewrite Ask ]. }
  apply processRequest_spec; [done..| | |].
  - destruct T eqn:ET; try done; try (apply rows_exist; [apply B|done]).
    apply upgrade_exists; [apply B|]. intros Z0.
    assert (Ti : Z.testbit (SH (l2_view w) a) i = true) by (apply (ok_dir _ _ _ B); [done|by rewrite Ask]).
    by rewrite (zero_sharers_none n i a (l2_view w) B Hi Z0) in Ti.
  - intros action L v1 r ns Ph. destruct (G _ _ _ _ _ Ph) as [excl Gr]. apply Gr.
  - intros m w' action L v1 r ns Ph Em R. destruct (G _ _ _ _ _ Ph) as [excl Gr].
    split_and!; [apply R|apply R|by eapply requester_untouched|by eapply done_frame|].
    exists excl. rewrite Em. split; [|apply Gr].
    eapply (phase_granted n i a (l2_view w) B Hi); [done|apply ul_width| | | |apply Gr|apply Gr].
    + rewrite (rd_sharers _ _ _ _ _ _ _ _ _ _ R), decide_True by done. apply Gr.
    + apply R.
    + intros j Hj Nj. by apply (done_above action L v1 r ns).
Qed.

Lemma l2_store :
  T = NonAllocatingStoreReq -> L1 (l2_view w) i a = kInvalid ->
  wp (processRequest ops prr me SnoopOutI SnoopOutD RequestOut i msg) (fun m w' =>
    env w' /\ l2_ok (view me w') /\ l1_of w' i = l1_of w i /\ frame n a (l2_view w) (l2_view w') /\
    ok_block n (l2_view w') a /\ (forall j, 0 <= j < n -> L1 (l2_view w') j a = kInvalid) /\
    theType m = NonAllocatingStoreReply) w.
Proof using All.
  intros ET Own. apply processRequest_spec; [done..| | |].
  - rewrite ET. apply rows_exist; [apply B|done].
  - intros action L v1 r ns Ph. rewrite ET in *.
    destruct (phase_store n i a (l2_view w) B Hi _ _ _ _ _ Ph) as [-> _]. done.
  - intros m w' action L v1 r ns Ph Em R. pose proof Ph as Ph'. rewrite ET in Ph'.
    destruct (phase_store n i a (l2_view w) B Hi _ _ _ _ _ Ph') as [-> Al].
    assert (SHa : SH (l2_view w') a = v1).
    { rewrite (rd_sharers _ _ _ _ _ _ _ _ _ _ R), decide_True by done. by rewrite ET. }
    assert (No : forall j, 0 <= j < n -> L1 (l2_view w') j a = kInvalid).
    { intros j Hj. destruct (decide (j = i)) as [->|N].
      - cbn. by rewrite (requester_untouched _ _ _ _ _ _ Ph R).
      - rewrite (done_above _ _ _ _ _ _ j R).
        by apply (alone_quiet n i a (l2_view w) B Hi _ _ _ _ _ _ Ph). }
    split_and!; [apply R|apply R|by eapply requester_untouched|by eapply done_frame| |done|done].
    split.
    + intros j Hj. by rewrite No.
    + rewrite (rd_state _ _ _ _ _ _ _ _ _ _ R). by eapply (phase_next n i a (l2_view w) B Hi).
    + rewrite SHa. apply Ph.
    + intros j. rewrite SHa. intros ->%Al. done.
    + intros j Hj V. by rewrite No in V.
    + intros j Hj Wj. by rewrite No in Wj.
Qed.

Lemma l2_evict_notice :
  evict_notice T (L1 (l2_view w) i a) ->
  wp (processRequest ops prr me SnoopOutI SnoopOutD RequestOut i msg) (fun m w' =>
    env w' /\ l2_ok (view me w') /\ l1_of w' i = l1_of w i /\ frame n a (l2_view w) (l2_view w') /\
    (forall j, 0 <= j < n -> L1 (l2_view w') j a = L1 (l2_view w) j a) /\
    released n (l2_view w') i a) w.
Proof using All.
  intros Nt. apply processRequest_spec; [done..| | |].
  - destruct (phase_evict_row n i a (l2_view w) B Hi T Nt) as (act & Ea & _). by exists act.
  - intros action L v1 r ns Ph.
    destruct (phase_evict n i a (l2_view w) B Hi T _ _ _ _ _ Nt Ph) as (_ & Ev & _).
    unfold recordable. by rewrite Ev.
  - intros m w' action L v1 r ns Ph Em R.
    destruct (phase_evict n i a (l2_view w) B Hi T _ _ _ _ _ Nt Ph) as (-> & Ev & _).
    assert (Same : forall j, 0 <= j < n -> L1 (l2_view w') j a = L1 (l2_view w) j a).
    { intros j Hj. cbn. rewrite (rd_others _ _ _ _ _ _ _ _ _ _ R); [done|apply not_elem_of_nil]. }
    split_and!; [apply R|apply R|by eapply requester_untouched|by eapply done_frame|done|].
    eapply (phase_released n i a (l2_view w) B Hi); [done|exact Ph|apply ul_width| |apply R|done].
    rewrite (rd_sharers _ _ _ _ _ _ _ _ _ _ R), decide_True by done.
    unfold sharers_after. by rewrite Ev.
Qed.
End request.

(** ** Snoops from memory *)

Lemma l2_snoop_loop_spec t a h l msg w (Q : () -> W -> Prop) :
  env w -> l2_ok (view me w) -> dir_entry_of (l2_directory (view me w)) a h -> NoDup l ->
  (forall j, j ∈ l -> 0 <= j < n /\ mesi (hold (l1_of w j) a) = true) ->
  t = Invalidate \/ t = Downgrade -> Z.land (theAddress msg) bm = a ->
  (forall w', snooped_by t a h l w w' -> Q () w') ->
  wp (l2_snoop_loop ops me SnoopOutI SnoopOutD t h a l msg) Q w.
Proof using All.
  intros E Ok Eh ND Rng Ht. revert msg w E Ok Eh Rng Q.
  induction l as [|k l IH]; intros msg w E Ok Eh Rng Q Al K; cbn [l2_snoop_loop].
  { wp_step. apply K, snooped_none; [done|apply Ok|done]. }
  apply NoDup_cons in ND as [NI ND]. destruct (Rng k) as [Hk Mk]; [apply list_elem_of_here|].
  wp_steps. pose proof Ok as (_ & _ & _ & S & _). rewrite S.
  eapply (wp_snoop t a h k); [done..|naive_solver|]. intros w1 E1 V1 d Sb R. wp_step.
  eapply wp_on_directory; [exact R|]. set (w2 := put me _ w1) in *.
  pose proof (sb_others _ _ _ _ _ _ Sb) as Oth.
  apply IH; [done|apply Sb|by eapply snooped_l2_ok|by eapply snooped_entry| |done|].
  - intros j Ij. destruct (Rng j) as [Hj Mj]; [by apply list_elem_of_further|]. split; [done|].
    rewrite Oth; [done|]. intros ->%list_elem_of_singleton. done.
  - intros w' Sb'. apply K. by eapply snooped_cons.
Qed.

(** What a snoop from memory for block [a] leaves. *)
Definition memory_snooped (a : Z) (t : MemoryMessageType) (U U' : View) : Prop :=
  frame n a U U' /\ ok_block n U' a /\
  (t = Invalidate -> L2 U' a = kInvalid /\ forall j, 0 <= j < n -> L1 U' j a = kInvalid) /\
  (t = Downgrade -> L2 U' a <> kModified /\ forall j, 0 <= j < n -> writable (L1 U' j a) = false).

(** The state the chip-level cache moves to. *)
Definition snooped_state (t : MemoryMessageType) (c : CoherenceState_t) : CoherenceState_t :=
  if type_eqb t Downgrade then (if state_eqb c kModified then kExclusive else c) else kInvalid.

Lemma ok_memory_snooped a t h L U w1 w2 :
  let U2 := l2_view w2 in
  ok_block n U a -> t = Invalidate \/ t = Downgrade ->
  l2_ok (view me w1) -> snooped_by t a h L w1 w2 ->
  (forall j b, hold (l1_of w1 j) b = L1 U j b) ->
  (forall b, SH (l2_view w1) b = SH U b) ->
  L2 (l2_view w1) a = snooped_state t (L2 U a) ->
  (forall b, b <> a -> L2 (l2_view w1) b = L2 U b) ->
  (forall j, j ∈ L -> Z.testbit (SH U a) j = true) ->
  ((forall j, Z.testbit (SH U a) j = true -> j ∈ L) \/
   t = Downgrade /\ state_of_count (SV.countSharers (SH U a)) <> OneSharer) ->
  memory_snooped a t U U2.
Proof using All.
  intros U2 B Ht Ok1 Sb E1 ES EL2 EL2b SubL AllL. pose proof (snooped_l2_ok _ _ _ _ _ _ Sb Ok1) as Ok2.
  destruct Sb as [E2 (d2 & V2 & Od2 & Eh2 & S2 & T2) H2 N2].
  assert (C2 : forall b, L2 U2 b = L2 (l2_view w1) b) by (intros b; cbn; by rewrite V2).
  assert (La : forall j, L1 U2 j a = if decide (j ∈ L) then fst (snoop_answer (L1 U j a) t) else L1 U j a).
  { intros j. cbn. destruct (decide (j ∈ L)) as [I|I].
    - by rewrite H2, decide_True, E1.
    - by rewrite N2, E1. }
  assert (Sa : forall j, Z.testbit (SH U2 a) j = Z.testbit (SH U a) j &&
    negb (bool_decide (j ∈ L) && removes_sharer (snd (snoop_answer (L1 U j a) t)))).
  { intros j. cbn. rewrite V2. cbn. rewrite T2, E1, <-ES. done. }
  assert (Q : forall j, 0 <= j < n -> writable (L1 U2 j a) = false).
  { intros j Hj. rewrite La. pose proof (ok_l1 _ _ _ B j Hj). destruct (decide (j ∈ L)) as [I|I].
    - by destruct Ht as [-> | ->], (L1 U j a).
    - destruct AllL as [AllL|[-> N1]]; [|by apply (quiet_unless_one n a U B)].
      rewrite (not_sharer_invalid n a U B); [done|done|]. apply not_true_iff_false. auto. }
  assert (Inv : t = Invalidate -> forall j, 0 <= j < n -> L1 U2 j a = kInvalid).
  { intros -> j Hj. rewrite La. pose proof (ok_l1 _ _ _ B j Hj). destruct (decide (j ∈ L)) as [I|I].
    - by destruct (L1 U j a).
    - destruct AllL as [AllL|[? _]]; [|done].
      apply (not_sharer_invalid n a U B); [done|]. apply not_true_iff_false. auto. }
  split_and!.
  - intros b Nb. split_and!.
    + intros j Hj. cbn. destruct (decide (j ∈ L)) as [I|I].
      * by rewrite H2, decide_False, E1.
      * by rewrite N2, E1.
    + cbn. rewrite V2. cbn. rewrite S2 by done. apply ES.
    + left. by rewrite C2, EL2b.
  - split.
    + intros j Hj. rewrite La. pose proof (ok_l1 _ _ _ B j Hj).
      case_decide; [|done]. by destruct Ht as [-> | ->], (L1 U j a).
    + rewrite C2, EL2. pose proof (ok_l2 _ _ _ B). by destruct Ht as [-> | ->], (L2 U a).
    + cbn. rewrite V2. by apply promise_wf.
    + intros j. rewrite Sa. intros [Tj _]%andb_true_iff. by apply B.
    + intros j Hj. rewrite La, Sa. pose proof (ok_dir _ _ _ B j Hj) as Dj.
      destruct (decide (j ∈ L)) as [I|I].
      * rewrite (SubL j I), bool_decide_true by done. pose proof (ok_l1 _ _ _ B j Hj).
        by destruct Ht as [-> | ->], (L1 U j a).
      * intros V. by rewrite Dj, bool_decide_false.
    + intros j Hj. by rewrite Q.
  - intros Et. split; [|by apply Inv]. rewrite C2, EL2, Et. done.
  - intros Et. split; [|done]. rewrite C2, EL2, Et. by destruct (L2 U a).
Qed.

(** The tag array's part of a snoop from memory. *)
Lemma wp_snooped_state t lr a b st st' mru lru w (Q : () -> W -> Prop) :
  env w -> l2_ok (view me w) -> handle (l2_cache (view me w)) lr a b ->
  peek (l2_cache (view me w)) a = st -> st <> kInvalid -> snooped_state t st = st' ->
  (forall w', env w' -> l2_ok (view me w') -> (forall k, l1_of w' k = l1_of w k) ->
     l2_directory (view me w') = l2_directory (view me w) ->
     (forall b', peek (l2_cache (view me w')) b' = only (l2_cache (view me w)) a (snooped_state t st) b') ->
     Q () w') ->
  wp (update (l2_cache_slot me) (updateState lr st' mru lru)) Q w.
Proof using All.
  intros E Ok Hd Pa Vd Es K. wp_step. cbn [view l2_cache_slot put].
  destruct (updateState_spec (l2_cache (view me w)) lr a b st' mru lru) as [Ef _]; [apply Ok|done| |].
  { destruct (decide (tag b = a)) as [|N]; [done|]. destruct (h_miss _ _ _ _ Hd N) as [F _].
    destruct Vd. rewrite <-Pa. unfold peek. by rewrite F. }
  set (c' := updateState lr st' mru lru (l2_cache (view me w))) in *.
  destruct (ul_put w (CMP.set_cache c' (view me w)) E) as [E' N].
  apply K; rewrite ?view_put; [done|by eapply l2_ok_set_cache|done|done|].
  intros b'. cbn. rewrite Es. apply Ef.
Qed.

(** [w2] is [w] with the tag array's part of the snoop done. *)
Record array_snooped (t : MemoryMessageType) (a : Z) (w w2 : W) : Prop := {
  as_env : env w2;
  as_ok : l2_ok (view me w2);
  as_l1 k : l1_of w2 k = l1_of w k;
  as_dir : l2_directory (view me w2) = l2_directory (view me w);
  as_l2 b : peek (l2_cache (view me w2)) b =
    only (l2_cache (view me w)) a (snooped_state t (peek (l2_cache (view me w)) a)) b;
}.

Abbreviation recorded w a := (dir_sharers (l2_directory (view me w)) a).

Lemma array_snooped_done t a h L w w2 w' :
  ok_block n (l2_view w) a -> t = Invalidate \/ t = Downgrade -> array_snooped t a w w2 ->
  snooped_by t a h L w2 w' -> (forall j, j ∈ L -> Z.testbit (recorded w a) j = true) ->
  ((forall j, Z.testbit (recorded w a) j = true -> j ∈ L) \/
   t = Downgrade /\ state_of_count (SV.countSharers (recorded w a)) <> OneSharer) ->
  env w' /\ l2_ok (view me w') /\ memory_snooped a t (l2_view w) (l2_view w').
Proof using All.
  intros B Ht [E2 Ok2 N2 D2 P2] Sb Sub AllL. split_and!; [apply Sb|by eapply snooped_l2_ok|].
  eapply (ok_memory_snooped a t h L (l2_view w) w2 w'); try done.
  - intros j b'. by rewrite N2.
  - intros b'. cbn. by rewrite D2.
  - cbn. rewrite P2. unfold only. by rewrite decide_True.
  - intros b' Nb. cbn. rewrite P2. unfold only. by rewrite decide_False.
Qed.

(** The snoops, once the tag array is updated. *)
Lemma snoops_after_array t a h (go valid : bool) (msg snoop_msg : MemoryMessage) w w2 :
  Z.land (theAddress snoop_msg) bm = a ->
  ok_block n (l2_view w) a -> t = Invalidate \/ t = Downgrade -> array_snooped t a w w2 ->
  dir_entry_of (l2_directory (view me w)) a h -> (valid = false -> recorded w a = SV.empty) ->
  (go = false -> t = Downgrade /\ state_of_count (SV.countSharers (recorded w a)) <> OneSharer) ->
  wp ((if go && valid then l2_snoop_loop ops me SnoopOutI SnoopOutD t h a (SV.toList (recorded w a)) snoop_msg
       else mret ());; mret msg) (fun _ w' =>
    env w' /\ l2_ok (view me w') /\ memory_snooped a t (l2_view w) (l2_view w')) w2.
Proof using All.
  intros Ea B Ht As Eh Iv Go. pose proof As as [E2 Ok2 N2 D2 P2].
  wp_step. destruct (go && valid) eqn:GV.
  - apply (l2_snoop_loop_spec t a h (SV.toList (recorded w a)));
      [done|done|by rewrite D2|apply NoDup_toList| |done|done|].
    + intros j Ij. apply elem_of_toList_wf in Ij; [|apply B].
      pose proof (ok_range _ _ _ B j Ij). split; [done|]. rewrite N2. by apply (ok_l1 _ _ _ B).
    + intros w' Sb. wp_step. eapply array_snooped_done; [done..| |].
      * intros j Ij. by apply elem_of_toList_wf in Ij; [|apply B].
      * left. intros j Tj. apply elem_of_toList_wf; [apply B|done].
  - wp_step. wp_step. apply (array_snooped_done t a h [] w w2); [done|done|done| | |].
    + apply snooped_none; [done|apply Ok2|by rewrite D2].
    + intros j Ij. by apply not_elem_of_nil in Ij.
    + destruct go; [|right; auto]. cbn in GV. subst valid. left. intros j Tj.
      rewrite Iv in Tj by done. by rewrite Z.bits_0 in Tj.
Qed.

Lemma downgrade_stays_above v :
  negb (1 <? SV.countSharers v) = false ->
  Downgrade = Downgrade /\ state_of_count (SV.countSharers v) <> OneSharer.
Proof using.
  intros F%negb_false_iff%Z.ltb_lt. split; [done|]. unfold state_of_count.
  destruct (Z.eqb_spec (SV.countSharers v) 1); [lia|]. by destruct (SV.countSharers v =? 0).
Qed.

Lemma l2_SnoopIn_spec msg w :
  let a := Z.land (theAddress msg) bm in
  env w -> l2_ok (view me w) -> ok_block n (l2_view w) a ->
  theType msg = Invalidate \/ theType msg = Downgrade ->
  wp (l2_SnoopIn ops me SnoopOutI SnoopOutD msg) (fun _ w' =>
    env w' /\ l2_ok (view me w') /\ memory_snooped a (theType msg) (l2_view w) (l2_view w')) w.
Proof using All.
  intros a E Ok B Ht. unfold l2_SnoopIn. wp_step. wp_step.
  pose proof Ok as (_ & _ & Mk & _ & _ & Od). cbn zeta. rewrite Mk. fold a.
  wp_step. apply wp_delayed; [done|]. wp_step. wp_step.
  destruct (promise_snoopLookup (l2_directory (view me w)) 0 a (theType msg) Od) as (h & valid & Lk & Eh & Iv).
  rewrite Lk. wp_step. apply wp_l2_lookup; [done|done|apply land_idem|]. intros lr c b Ok1 Pk Hd Gs.
  wp_step. wp_step. set (w1 := put me (CMP.set_cache c (view me w)) w).
  assert (V1 : view me w1 = CMP.set_cache c (view me w)) by apply view_put.
  destruct (ul_put w (CMP.set_cache c (view me w)) E) as [E1 N1]. fold w1 in E1, N1.
  cbn [view l2_cache_slot]. rewrite V1. cbn [l2_cache CMP.set_cache]. rewrite Gs.
  set (st := peek (l2_cache (view me w)) a).
  assert (Keep : forall t, snooped_state t st = st -> array_snooped t a w w1).
  { intros t Es. split; [done|by rewrite V1|done|by rewrite V1|]. intros b'. rewrite V1. cbn. fold st.
    rewrite Es, Pk. unfold only. case_decide; [by subst|done]. }
  assert (Move : forall t w2, env w2 -> l2_ok (view me w2) -> (forall k, l1_of w2 k = l1_of w1 k) ->
    l2_directory (view me w2) = l2_directory (view me w1) ->
    (forall b', peek (l2_cache (view me w2)) b' = only (l2_cache (view me w1)) a (snooped_state t st) b') ->
    array_snooped t a w w2).
  { intros t w2 E2 Ok2 N2 D2 P2. split; [done|done|intros k; by rewrite N2|by rewrite D2, V1|].
    intros b'. rewrite P2, V1. unfold only. cbn. by rewrite Pk. }
  assert (Pst : peek (l2_cache (view me w1)) a = st) by (rewrite V1; cbn; apply Pk).
  destruct Ht as [Ht|Ht]; rewrite Ht; cbn [type_eqb type_code Z.eqb Pos.eqb]; wp_step; wp_step.
  - wp_step; [done|]. wp_step. destruct (state_eqb st kInvalid) eqn:Si; cbn [negb].
    + apply state_eqb_eq in Si. wp_step. wp_step. apply snoops_after_array; auto; done.
    + eapply (wp_snooped_state Invalidate lr a b st); [done|by rewrite V1|by rewrite V1|done| |done|].
      { intros F. by rewrite F in Si. }
      intros w2 E2 Ok2 N2 D2 P2. wp_step. apply snoops_after_array; auto; done.
  - destruct (state_eqb st kModified) eqn:Sm.
    + apply state_eqb_eq in Sm.
      eapply (wp_snooped_state Downgrade lr a b st); [done|by rewrite V1|by rewrite V1|done|by rewrite Sm|by rewrite Sm|].
      intros w2 E2 Ok2 N2 D2 P2. wp_step. apply snoops_after_array; auto. apply downgrade_stays_above.
    + wp_step. wp_step. apply snoops_after_array; auto; [|apply downgrade_stays_above].
      apply Keep. unfold snooped_state. by rewrite Sm.
Qed.
End proofs.

(** ** Combining snoop replies *)

Fixpoint combine_all (acc : MemoryMessageType) (l : list MemoryMessageType) : outcome MemoryMessageType :=
  match l with
  | [] => Done acc
  | b :: l => r ← CMP.combineSnoopResponse acc b; combine_all r l
  end.

(** How much a reply found: nothing, a clean copy, a modified copy. *)
Definition reply_rank (t : MemoryMessageType) : Z :=
  match t with
  | InvalidateAck | ReturnReply => 1
  | InvUpdateAck | ReturnReplyDirty => 2
  | _ => 0
  end.

Lemma combine_rank t a b :
  snoop_class t a = true -> snoop_class t b = true ->
  exists r, CMP.combineSnoopResponse a b = Done r /\ snoop_class t r = true /\
    reply_rank r = Z.max (reply_rank a) (reply_rank b).
Proof.
  intros A B. destruct t; try done; destruct a; try done; destruct b; try done;
    (eexists; split; [reflexivity|]; by split).
Qed.

Lemma reply_rank_inj t a b :
  snoop_class t a = true -> snoop_class t b = true -> reply_rank a = reply_rank b -> a = b.
Proof. intros A B. destruct t; try done; destruct a; try done; destruct b; done. Qed.

Lemma combine_all_rank t a l :
  snoop_class t a = true -> Forall (fun b => snoop_class t b = true) l ->
  exists r, combine_all a l = Done r /\ snoop_class t r = true /\
    reply_rank r = foldr (fun b m => Z.max (reply_rank b) m) (reply_rank a) l.
Proof.
  intros A F. revert a A. induction F as [|b l B F IH]; intros a A; cbn [combine_all foldr]; [by exists a|].
  destruct (combine_rank t a b A B) as (r & -> & R & Rk). destruct (IH r R) as (r' & E & R' & Rk').
  exists r'. split; [exact E|]. split; [done|]. rewrite Rk', Rk. clear.
  induction l as [|c l IH]; cbn; lia.
Qed.

Lemma max_perm (f : MemoryMessageType -> Z) (x : Z) l l' :
  l ≡ₚ l' -> foldr (fun b m => Z.max (f b) m) x l = foldr (fun b m => Z.max (f b) m) x l'.
Proof. induction 1; cbn; lia. Qed.

(** The replies to one kind of snoop combine
    without a failing assertion, in any order and number, to the one that found
    the most: a modified copy if any cache had one, else a clean copy if any
    did, else nothing.  The order of the snoops does not matter. *)
Theorem combine_replies (t : MemoryMessageType) (l l' : list MemoryMessageType) :
  l <> [] -> Forall (fun b => snoop_class t b = true) l -> l ≡ₚ l' ->
  exists r, combine_all NoRequest l = Done r /\ combine_all NoRequest l' = Done r /\ r ∈ l /\
    forall b, b ∈ l -> reply_rank b <= reply_rank r.
Proof.
  intros N F P. assert (F' : Forall (fun b => snoop_class t b = true) l') by (by rewrite <-P).
  assert (K : forall m, m <> [] -> Forall (fun b => snoop_class t b = true) m ->
    exists r, combine_all NoRequest m = Done r /\ snoop_class t r = true /\
      reply_rank r = foldr (fun b x => Z.max (reply_rank b) x) 0 m).
  { intros [|a m] Hm Fm; [done|]. apply Forall_cons in Fm as [A Fm].
    destruct (combine_all_rank t a m A Fm) as (r & E & R & Rk). exists r. split; [exact E|]. split; [done|].
    rewrite Rk. assert (0 <= reply_rank a) by (destruct a; cbn; lia). clear -H.
    induction m as [|c m IH]; cbn in *; lia. }
  assert (N' : l' <> []) by (intros ->; by apply Permutation_nil_r in P).
  destruct (K l N F) as (r & E & R & Rk), (K l' N' F') as (r' & E' & R' & Rk').
  assert (r' = r) as -> by (apply (reply_rank_inj t); [done..|]; rewrite Rk, Rk'; symmetry; by apply max_perm).
  exists r. split_and!; [done|done| |].
  - assert (X : exists b, b ∈ l /\ reply_rank b = foldr (fun b x => Z.max (reply_rank b) x) 0 l).
    { clear -N F. destruct l as [|a l]; [done|]. clear N. revert a F.
      induction l as [|c l IH]; intros a F.
      - exists a. split; [apply list_elem_of_here|]. cbn. destruct a; cbn; lia.
      - apply Forall_cons in F as [A F]. destruct (IH c F) as (b & I & Eb). cbn [foldr] in *.
        destruct (Z.max_spec (reply_rank a) (Z.max (reply_rank c) (foldr (fun b x => Z.max (reply_rank b) x) 0 l)))
          as [[_ ->]|[_ ->]]; [exists b; split; [by apply list_elem_of_further|done]|].
        exists a. split; [apply list_elem_of_here|done]. }
    destruct X as (b & I & Eb). rewrite Forall_forall in F.
    assert (r = b) as -> by (apply (reply_rank_inj t); [done|by apply F|lia]). done.
  - intros b I. rewrite Rk. clear -I. induction I as [|x y l I IH]; cbn; lia.
Qed.

Lemma combine_replies_witness :
  exists r, combine_all NoRequest [Invalidate; InvUpdateAck; InvalidateAck] = Done r /\
    combine_all NoRequest [InvalidateAck; Invalidate; InvUpdateAck] = Done r /\ reply_rank r = 2.
Proof.
  destruct (combine_replies Invalidate [Invalidate; InvUpdateAck; InvalidateAck]
              [InvalidateAck; Invalidate; InvUpdateAck]) as (r & E & E' & I & B); [done|by repeat constructor| |].
  - apply (bool_decide_unpack _). by vm_compute.
  - exists r. split; [exact E|]. split; [exact E'|]. vm_compute in E. by injection E as <-.
Defined.
