(* ===== verification/KeenKraken.v ===== *)
(** * The trace simulator

    simulators/KeenKraken/wiring.cpp: the feeder's requests reach the
    first-level caches, which call the chip-level cache, which snoops them and
    calls the memory of components/FastMemoryLoopback; DMA enters at the
    memory.  A component array is a vector of the simulated width. *)

From S2P Require Import Prelude Messages StdCache Directory Coherence CoherenceProtocol.
From S2P Require Import FastCache SingleCMPProtocol FastCMPCache.
From stdpp Require Import base gmap sets list strings fin vector.
From Stdlib Require Import ZArith Lia.

Local Open Scope Z_scope.

Record Sys (width : nat) : Type := mkSys {
  theL1D : vec FastCache width;
  theL1I : vec FastCache width;
  theL2 : FastCMPCache InfiniteDirectory;
  theMemory : gmap string Z;
  theL2Cfg : CMP.Cfg;
}.
Arguments mkSys {width} _ _ _ _ _.
Arguments theL1D {width} _.
Arguments theL1I {width} _.
Arguments theL2 {width} _.
Arguments theMemory {width} _.
Arguments theL2Cfg {width} _.

Section wiring.
Context {width : nat}.
Abbreviation W := (Sys width).

Definition l1d_slot (c : fin width) : Slot W FastCache :=
  mkSlot (fun w => theL1D w !!! c)
    (fun x w => mkSys (vinsert c x (theL1D w)) (theL1I w) (theL2 w) (theMemory w) (theL2Cfg w)).
Definition l1i_slot (c : fin width) : Slot W FastCache :=
  mkSlot (fun w => theL1I w !!! c)
    (fun x w => mkSys (theL1D w) (vinsert c x (theL1I w)) (theL2 w) (theMemory w)
       (theL2Cfg w)).
Definition l2_slot : Slot W (FastCMPCache InfiniteDirectory) :=
  mkSlot theL2 (fun x w => mkSys (theL1D w) (theL1I w) x (theMemory w) (theL2Cfg w)).
Definition memory_slot : Slot W (gmap string Z) :=
  mkSlot theMemory (fun x w => mkSys (theL1D w) (theL1I w) (theL2 w) x (theL2Cfg w)).

(** FastMemoryLoopback: the port from the chip-level cache. *)
Definition memory_FromCache (message : MemoryMessage) : M W MemoryMessage :=
  let reply t stat :=
    update memory_slot (bump stat);; mret (set_fillLevel eLocalMem (set_type t message)) in
  let count stat := update memory_slot (bump stat);; mret message in
  match theType message with
  | LoadReq | FetchReq => reply MissReply "theReadRequests_stat"
  | ReadReq | PrefetchReadNoAllocReq | PrefetchReadAllocReq => reply MissReply "theReadRequests_stat"
  | StoreReq | StorePrefetchReq | RMWReq | CmpxReq | WriteReq | WriteAllocate =>
      count "theWriteRequests_stat"
  | UpgradeReq | UpgradeAllocate => reply MissReplyWritable "theUpgradeRequest_stat"
  | EvictDirty => count "theEvictDirtys_stat"
  | EvictWritable => count "theEvictWritables_stat"
  | EvictClean => count "theEvictCleans_stat"
  | NonAllocatingStoreReq => reply NonAllocatingStoreReply "theNonAllocatingStoreReq_stat"
  | _ => dbg_fail "unknown request received"
  end.

(** [operator[]] of a component array that scales with the system. *)
Definition channel (core : Z) : option (fin width) :=
  match decide (Z.to_nat core < width)%nat with
  | left H => if 0 <=? core then Some (nat_to_fin H) else None
  | right _ => None
  end.
Definition l2_ports (w : W) : Z := CMP.port_array_width (theL2Cfg w) (Z.of_nat width).

(** [FLEXUS_CHANNEL_ARRAY] of the chip-level cache, component 0 of its array,
    wired to a plain port of the first-level caches. *)
Definition send (slot : fin width -> Slot W FastCache) (core : Z) (msg : MemoryMessage)
    : M W MemoryMessage :=
  aPortWidth ← gets l2_ports;
  dbg_assert (core <? aPortWidth) "PortIndex";;
  match channel (0 * aPortWidth + core) with
  | Some c => push_SnoopIn (slot c) mret mret msg
  | None => dbg_fail "Component Index"
  end.

(** [resolve_channel] of a push port array: the sender's index picks the
    component, one chip-level cache here, and the port. *)
Definition theL2_width : Z := 1.
Definition push_array (port : Z -> MemoryMessage -> M W MemoryMessage) (anIndex : Z)
    (aPayload : MemoryMessage) : M W MemoryMessage :=
  aWidth ← gets l2_ports;
  dbg_assert (anIndex / aWidth <? theL2_width) "Component Index";;
  port (anIndex mod aWidth) aPayload.

(** [WIRE(theL2, SnoopOutI, theL1I, SnoopIn)] and [WIRE(theL2, SnoopOutD, theL1D, SnoopIn)]. *)
Definition L2_SnoopOutI : Z -> MemoryMessage -> M W MemoryMessage := send l1i_slot.
Definition L2_SnoopOutD : Z -> MemoryMessage -> M W MemoryMessage := send l1d_slot.

(** [WIRE(theL1D, RequestOut, theL2, RequestIn)] and
    [WIRE(theL1I, RequestOut, theL2, FetchRequestIn)]. *)
Definition L1D_RequestOut (c : fin width) : MemoryMessage -> M W MemoryMessage :=
  push_array (l2_RequestIn Inf.ops Inf.processRequestResponse l2_slot L2_SnoopOutI L2_SnoopOutD
    memory_FromCache) (Z.of_nat (fin_to_nat c)).
Definition L1I_RequestOut (c : fin width) : MemoryMessage -> M W MemoryMessage :=
  push_array (l2_FetchRequestIn Inf.ops Inf.processRequestResponse l2_slot L2_SnoopOutI L2_SnoopOutD
    memory_FromCache) (Z.of_nat (fin_to_nat c)).

(** [WIRE(theFeeder, ToL1D, theL1D, RequestIn)], [WIRE(theFeeder, ToL1I, theL1I,
    FetchRequestIn)]; the first-level caches' own snoop ports have no wire. *)
Definition ToL1D (c : fin width) (msg : MemoryMessage) : M W MemoryMessage :=
  push_RequestIn (l1d_slot c) mret mret (L1D_RequestOut c) msg.
Definition ToL1I (c : fin width) (msg : MemoryMessage) : M W MemoryMessage :=
  push_FetchRequestIn (l1i_slot c) mret mret (L1I_RequestOut c) msg.

(** [WIRE(theFeeder, ToDMA, theMemory, DMA)] and [WIRE(theMemory, ToCache, theL2, SnoopIn)]. *)
Definition ToCache : MemoryMessage -> M W MemoryMessage :=
  l2_SnoopIn Inf.ops l2_slot L2_SnoopOutI L2_SnoopOutD.
Definition ToDMA (message : MemoryMessage) : M W MemoryMessage :=
  if type_eqb (theType message) WriteReq then
    update memory_slot (bump "theWriteDMA_stat");;
    ToCache (set_type Invalidate message)
  else
    update memory_slot (bump "theReadDMA_stat");;
    dbg_assert (type_eqb (theType message) ReadReq) "ReadReq";;
    ToCache (set_type Downgrade message).

(** What the feeder sends, one request at a time. *)
Inductive Request : Type :=
| DataRequest (c : fin width) (msg : MemoryMessage)
| FetchRequest (c : fin width) (msg : MemoryMessage)
| DMARequest (msg : MemoryMessage).

Definition serve (r : Request) : M W MemoryMessage :=
  match r with
  | DataRequest c msg => ToL1D c msg
  | FetchRequest c msg => ToL1I c msg
  | DMARequest msg => ToDMA msg
  end.

Fixpoint run (l : list Request) : M W () :=
  match l with
  | [] => mret ()
  | r :: l => serve r;; run l
  end.
End wiring.
Arguments Request : clear implicits.

(** ** Start-up *)

Fixpoint vec_sequence {A n} (v : vec (outcome A) n) : outcome (vec A n) :=
  match v with
  | [#] => Done [#]
  | o ::: v =>
      a ← o;
      v' ← vec_sequence v;
      Done (a ::: v')
  end.

Definition boot (width : nat) (l1d l1i : FastCacheCfg) (l2 : CMP.Cfg) : outcome (Sys width) :=
  d ← vec_sequence (fun_to_vec (fun c : fin width => initialize l1d (Z.of_nat (fin_to_nat c))));
  i ← vec_sequence (fun_to_vec (fun c : fin width => initialize l1i (Z.of_nat (fin_to_nat c))));
  x ← CMP.initialize l2 (Z.of_nat width) (mkInf ∅ 0 0);
  Done (mkSys d i x ∅ l2).

(** ** Component slots *)

Lemma vinsert_vinsert {A n} (i : fin n) (x y : A) (v : vec A n) :
  vinsert i x (vinsert i y v) = vinsert i x v.
Proof. apply vec_to_list_inj2. rewrite !vec_to_list_insert. apply list_insert_insert_eq. Qed.

#[export] Instance l1d_laws {width} (c : fin width) : SlotLaws (l1d_slot c).
Proof.
  split; intros; cbn.
  - apply vlookup_insert.
  - by rewrite vinsert_vinsert.
  - rewrite vlookup_insert_self. by destruct w.
Qed.
#[export] Instance l1i_laws {width} (c : fin width) : SlotLaws (l1i_slot c).
Proof.
  split; intros; cbn.
  - apply vlookup_insert.
  - by rewrite vinsert_vinsert.
  - rewrite vlookup_insert_self. by destruct w.
Qed.
#[export] Instance l2_laws {width} : SlotLaws (@l2_slot width).
Proof. split; intros; cbn; [done..|by destruct w]. Qed.

(** ** The first-level caches by directory index *)

Lemma index_split k : k = 2 * Z.shiftr k 1 + Z.land k 1 /\ (Z.land k 1 = 0 \/ Z.land k 1 = 1).
Proof.
  assert (Es : Z.shiftr k 1 = k / 2) by (by rewrite Z.shiftr_div_pow2).
  assert (El : Z.land k 1 = k mod 2) by (apply (Z.land_ones k 1); lia).
  pose proof (Z.div_mod k 2). pose proof (Z.mod_pos_bound k 2). lia.
Qed.

Section system.
Context {width : nat} (bm : Z).
Hypothesis (Hwidth : Z.of_nat width <= 256).
Abbreviation W := (Sys width).
Definition ncaches : Z := 2 * Z.of_nat width.

(** [2 * core] is the data cache, [2 * core + 1] the instruction cache. *)
Definition l1_slot (k : Z) : option (Slot W FastCache) :=
  (if Z.land k 1 =? 0 then l1d_slot else l1i_slot) <$> channel (Z.shiftr k 1).
Definition l1_of (w : W) (k : Z) : option FastCache := (fun s => view s w) <$> l1_slot k.
Definition hold (x : option FastCache) (a : Z) : CoherenceState_t :=
  match x with Some x => peek (theCache x) a | None => kInvalid end.

(** The port arrays of the chip-level cache have a place for every core. *)
Definition ports_ok (w : W) : Prop := Z.of_nat width <= l2_ports w.
Definition upper_ok (w : W) : Prop :=
  ports_ok w /\ forall k x, l1_of w k = Some x -> l1_ok bm x.
Definition sys_view (w : W) : View := l2_view Inf.ops Inf.processRequestResponse l2_slot l1_of hold w.
Definition sys_ok (w : W) : Prop :=
  upper_ok w /\ l2_ok Inf.ops Inf.processRequestResponse bm (theL2 w).

Lemma channel_spec core (c : fin width) :
  channel core = Some c <-> core = Z.of_nat (fin_to_nat c).
Proof using Type.
  unfold channel. destruct (decide (Z.to_nat core < width)%nat) as [L|L].
  - destruct (Z.leb_spec 0 core) as [P|P]; split.
    + intros [= <-]. rewrite fin_to_nat_to_fin. lia.
    + intros ->. f_equal. apply (inj fin_to_nat). rewrite fin_to_nat_to_fin. lia.
    + done.
    + intros ->. lia.
  - split; [done|]. intros ->. pose proof (fin_to_nat_lt c). lia.
Qed.

Lemma channel_some core : 0 <= core < Z.of_nat width -> exists c : fin width, channel core = Some c.
Proof using Type.
  intros Hc. assert (L : (Z.to_nat core < width)%nat) by lia. exists (nat_to_fin L).
  apply channel_spec. rewrite fin_to_nat_to_fin. lia.
Qed.

(** An index in range, as core and kind of cache. *)
Lemma index_cases k :
  0 <= k < ncaches ->
  exists c : fin width,
    k = 2 * Z.of_nat (fin_to_nat c) /\ Z.land k 1 = 0 /\ Z.shiftr k 1 = Z.of_nat (fin_to_nat c) \/
    k = 2 * Z.of_nat (fin_to_nat c) + 1 /\ Z.land k 1 = 1 /\ Z.shiftr k 1 = Z.of_nat (fin_to_nat c).
Proof using Type.
  unfold ncaches. intros Hk.
  assert (Es : Z.shiftr k 1 = k / 2) by (by rewrite Z.shiftr_div_pow2).
  assert (El : Z.land k 1 = k mod 2) by (apply (Z.land_ones k 1); lia).
  pose proof (Z.div_mod k 2). pose proof (Z.mod_pos_bound k 2).
  destruct (channel_some (k / 2)) as [c Hc]; [lia|]. apply channel_spec in Hc. exists c. lia.
Qed.

Lemma l1_slot_some k : 0 <= k < ncaches -> exists s, l1_slot k = Some s /\ SlotLaws s.
Proof using Type.
  intros Hk. destruct (index_cases k Hk) as [c [(_ & El & Es)|(_ & El & Es)]];
    unfold l1_slot; rewrite El, Es, (proj2 (channel_spec _ c)) by done; eexists; (split; [done|apply _]).
Qed.

(** A write to one first-level cache is seen at its index and no other. *)
Lemma l1_of_put k s x w j :
  l1_slot k = Some s -> l1_of (put s x w) j = if decide (j = k) then Some x else l1_of w j.
Proof using Type.
  unfold l1_of, l1_slot. intros Es.
  destruct (channel (Z.shiftr k 1)) as [c|] eqn:Ck; [|done]. cbn in Es. injection Es as <-.
  apply channel_spec in Ck. destruct (index_split k) as [Ek Lk], (index_split j) as [Ej Lj].
  destruct (channel (Z.shiftr j 1)) as [c'|] eqn:Cj; cbn.
  - apply channel_spec in Cj. destruct (decide (j = k)) as [->|N].
    + assert (c' = c) as -> by (apply (inj fin_to_nat); lia).
      destruct (Z.eqb_spec (Z.land k 1) 0); cbn; by rewrite vlookup_insert.
    + destruct (Z.eqb_spec (Z.land k 1) 0), (Z.eqb_spec (Z.land j 1) 0); cbn; try done;
        (rewrite vlookup_insert_ne; [done|]; intros ->; lia).
  - case_decide as N; [|done]. subst j. exfalso.
    assert (channel (Z.shiftr k 1) = Some c) by (by apply channel_spec). congruence.
Qed.

Lemma l1_slot_view k s w : l1_slot k = Some s -> l1_of w k = Some (view s w).
Proof using Type. intros E. unfold l1_of. by rewrite E. Qed.

Lemma l1_put_l2 k s x w : l1_slot k = Some s -> theL2 (put s x w) = theL2 w.
Proof using Type.
  unfold l1_slot. intros E. destruct (channel (Z.shiftr k 1)); [|done]. injection E as <-.
  by destruct (Z.land k 1 =? 0).
Qed.

Lemma l1_put_cfg k s x w : l1_slot k = Some s -> theL2Cfg (put s x w) = theL2Cfg w.
Proof using Type.
  unfold l1_slot. intros E. destruct (channel (Z.shiftr k 1)); [|done]. injection E as <-.
  by destruct (Z.land k 1 =? 0).
Qed.

(** The other components' slots are not first-level caches. *)
Lemma l1_of_below (w : W) x m k :
  l1_of (mkSys (theL1D w) (theL1I w) x m (theL2Cfg w)) k = l1_of w k.
Proof using Type.
  unfold l1_of, l1_slot. destruct (channel (Z.shiftr k 1)); [|done]. by destruct (Z.land k 1 =? 0).
Qed.
Lemma upper_below (w : W) x m :
  upper_ok w -> upper_ok (mkSys (theL1D w) (theL1I w) x m (theL2Cfg w)).
Proof using Type. intros [P U]. split; [exact P|]. intros k y. rewrite l1_of_below. apply U. Qed.

Lemma upper_put k s x w : l1_slot k = Some s -> upper_ok w -> l1_ok bm x -> upper_ok (put s x w).
Proof using Type.
  intros E [P U] Ok. split; [unfold ports_ok, l2_ports; by rewrite (l1_put_cfg k)|].
  intros j y. rewrite (l1_of_put k s x w j E). case_decide; [by intros [= <-]|apply U].
Qed.

(** With a port for every core, the wires carry the messages unchanged. *)
Lemma send_slot (slot : fin width -> Slot W FastCache) (c : fin width) msg w :
  ports_ok w -> send slot (Z.of_nat (fin_to_nat c)) msg w = push_SnoopIn (slot c) mret mret msg w.
Proof using Type.
  unfold ports_ok, send. intros P. pose proof (fin_to_nat_lt c).
  unfold mbind at 1, M_bind at 1. cbn [gets]. unfold mbind at 1, M_bind at 1. unfold dbg_assert.
  rewrite (proj2 (Z.ltb_lt _ _)) by lia. cbn beta iota.
  rewrite (proj2 (channel_spec _ c)) by lia. done.
Qed.

Lemma snoopOut_slot k s msg w :
  ports_ok w -> l1_slot k = Some s ->
  snoopOut L2_SnoopOutI L2_SnoopOutD true k msg w = push_SnoopIn s mret mret msg w.
Proof using Type.
  unfold l1_slot, snoopOut, L2_SnoopOutI, L2_SnoopOutD. intros P E.
  destruct (channel (Z.shiftr k 1)) as [c|] eqn:Ec; [|done]. injection E as <-.
  apply channel_spec in Ec. rewrite Ec. destruct (Z.land k 1 =? 0); by apply send_slot.
Qed.

Lemma push_array_port port (c : fin width) msg w :
  ports_ok w -> push_array port (Z.of_nat (fin_to_nat c)) msg w = port (Z.of_nat (fin_to_nat c)) msg w.
Proof using Type.
  unfold ports_ok, push_array. intros P. pose proof (fin_to_nat_lt c).
  unfold mbind at 1, M_bind at 1. cbn [gets]. unfold mbind at 1, M_bind at 1. unfold dbg_assert.
  rewrite Z.div_small, Z.mod_small by lia. done.
Qed.

(** The first-level caches and memory are what the chip-level cache relies on. *)
#[local] Instance sys_upper :
  UpperLevel l2_slot ncaches bm l1_of hold upper_ok L2_SnoopOutI L2_SnoopOutD memory_FromCache.
Proof using Hwidth.
  split.
  - unfold ncaches, MAX_NUM_SHARERS. lia.
  - intros w x U. split; [by apply upper_below|]. intros k. apply l1_of_below.
  - intros w k msg a U Hk Ms Rq. destruct (l1_slot_some k Hk) as (s & Es & Ls).
    pose proof (l1_slot_view k s w Es) as Vk. rewrite Vk in *. cbn [hold] in *.
    unfold wp at 1. rewrite (snoopOut_slot k s msg w (proj1 U) Es).
    eapply (wp_mono (push_SnoopIn s mret mret msg));
      [apply (push_SnoopIn_spec s bm); [by apply (proj2 U k)|done|done]|].
    intros m w' (Em & x & -> & Ok & Pk). fold a in Em, Pk.
    split_and!; [by apply (upper_put k)|cbn; by rewrite (l1_put_l2 k)|done| |].
    + intros b. rewrite (l1_of_put k), decide_True by done. cbn. rewrite Pk. done.
    + intros j N. by rewrite (l1_of_put k), decide_False.
  - intros w msg U T. unfold memory_FromCache. destruct (theType msg); try done; wp_steps;
      (split_and!; [by apply upper_below|done|]; intros k; apply l1_of_below).
Qed.

(** The chip-level cache is what a first-level cache relies on. *)
Lemma sys_lower k s (RequestOut : MemoryMessage -> M W MemoryMessage) :
  0 <= k < ncaches -> l1_slot k = Some s ->
  (forall msg w, sys_ok w -> exists b, RequestOut msg w =
     processRequest Inf.ops Inf.processRequestResponse l2_slot L2_SnoopOutI L2_SnoopOutD
       memory_FromCache k (set_dstream b msg) w) ->
  LowerLevel s ncaches k bm sys_view sys_ok RequestOut.
Proof using Hwidth.
  intros Hk Es Req. pose proof (l1_slot_some k Hk) as (s' & Es' & Ls). assert (s' = s) as -> by congruence.
  assert (Wp : forall msg w Q, sys_ok w -> (forall b, wp (processRequest Inf.ops Inf.processRequestResponse
      l2_slot L2_SnoopOutI L2_SnoopOutD memory_FromCache k (set_dstream b msg)) Q w) ->
    wp (RequestOut msg) Q w).
  { intros msg w Q Ok K. destruct (Req msg w Ok) as [b E]. unfold wp. rewrite E. apply K. }
  assert (Back : forall w w', l1_of w' k = l1_of w k -> view s w' = view s w).
  { intros w w'. rewrite !(l1_slot_view k s) by done. congruence. }
  split.
  - done.
  - intros w [U _]. pose proof (l1_slot_view k s w Es) as Vk. split; [by apply (proj2 U k)|].
    intros a. cbn. by rewrite Vk.
  - intros w x [U L] Ok. split_and!.
    + split; [by apply (upper_put k)|by rewrite (l1_put_l2 k)].
    + intros j a Hj N. cbn. by rewrite (l1_of_put k), decide_False.
    + intros a. cbn. by rewrite (l1_put_l2 k).
    + intros a. cbn. by rewrite (l1_put_l2 k).
  - intros w msg a [U L] B Ask. apply Wp; [done|]. intros b.
    eapply wp_mono; [exact (l2_miss Inf.ops Inf.processRequestResponse l2_slot ncaches bm l1_of hold upper_ok
      _ _ _ k (set_dstream b msg) w U L B Hk Ask)|].
    intros m w' (U' & L' & V' & F & G). split_and!; [done|by apply Back|done|done].
  - intros w msg a [U L] B Own T. apply Wp; [done|]. intros b.
    eapply wp_mono; [exact (l2_store Inf.ops Inf.processRequestResponse l2_slot ncaches bm l1_of hold upper_ok
      _ _ _ k (set_dstream b msg) w U L B Hk T Own)|].
    intros m w' (U' & L' & V' & F & G). split_and!; [done|by apply Back|done|apply G..].
  - intros w msg a [U L] Al B Nt. apply Wp; [done|]. intros b.
    pose proof (l2_evict_notice Inf.ops Inf.processRequestResponse l2_slot ncaches bm l1_of hold upper_ok
      _ _ _ k (set_dstream b msg) w U L) as Ev.
    cbn [theAddress theType set_dstream] in Ev. fold a in Ev. rewrite Al in Ev.
    eapply wp_mono; [exact (Ev B Hk Nt)|].
    intros m w' (U' & L' & V' & F & G). split_and!; [done|by apply Back|done|apply G..].
Qed.

(** ** One request at a time *)

Definition coherent (w : W) : Prop := sys_ok w /\ all_ok ncaches (sys_view w).

Definition allowed (r : Request width) : bool :=
  match r with
  | DataRequest _ msg | FetchRequest _ msg => cpu_request (theType msg)
  | DMARequest msg => type_eqb (theType msg) WriteReq || type_eqb (theType msg) ReadReq
  end.

Definition data_index (c : fin width) : Z := 2 * Z.of_nat (fin_to_nat c).
Definition fetch_index (c : fin width) : Z := 2 * Z.of_nat (fin_to_nat c) + 1.
Definition block_of (msg : MemoryMessage) : Z := Z.land (theAddress msg) bm.

(** What a request achieves, in the views before and after. *)
Definition achieves (r : Request width) (U U' : View) : Prop :=
  match r with
  | DataRequest c msg => request_post ncaches (data_index c) (block_of msg) (theType msg) U U'
  | FetchRequest c msg => request_post ncaches (fetch_index c) (block_of msg) (theType msg) U U'
  | DMARequest msg =>
      memory_snooped ncaches (block_of msg)
        (if type_eqb (theType msg) WriteReq then Invalidate else Downgrade) U U'
  end.

Lemma data_slot c : 0 <= data_index c < ncaches /\ l1_slot (data_index c) = Some (l1d_slot c).
Proof using Type.
  pose proof (fin_to_nat_lt c). unfold data_index, ncaches. split; [lia|].
  destruct (index_split (2 * Z.of_nat (fin_to_nat c))) as [E L].
  unfold l1_slot. rewrite (proj2 (channel_spec _ c)) by lia.
  assert (Z.land (2 * Z.of_nat (fin_to_nat c)) 1 = 0) as -> by lia. done.
Qed.

Lemma fetch_slot c : 0 <= fetch_index c < ncaches /\ l1_slot (fetch_index c) = Some (l1i_slot c).
Proof using Type.
  pose proof (fin_to_nat_lt c). unfold fetch_index, ncaches. split; [lia|].
  destruct (index_split (2 * Z.of_nat (fin_to_nat c) + 1)) as [E L].
  unfold l1_slot. rewrite (proj2 (channel_spec _ c)) by lia.
  assert (Z.land (2 * Z.of_nat (fin_to_nat c) + 1) 1 = 1) as -> by lia. done.
Qed.

Lemma L1D_RequestOut_index c msg w :
  sys_ok w -> L1D_RequestOut c msg w =
    processRequest Inf.ops Inf.processRequestResponse l2_slot L2_SnoopOutI L2_SnoopOutD
      memory_FromCache (data_index c) (set_dstream true msg) w.
Proof using Type.
  intros [[P _] (_ & _ & _ & S & _)]. unfold L1D_RequestOut. rewrite push_array_port by done.
  unfold l2_RequestIn, data_index.
  unfold mbind at 1, M_bind at 1. cbn [gets view l2_slot]. rewrite S. done.
Qed.

Lemma L1I_RequestOut_index c msg w :
  sys_ok w -> L1I_RequestOut c msg w =
    processRequest Inf.ops Inf.processRequestResponse l2_slot L2_SnoopOutI L2_SnoopOutD
      memory_FromCache (fetch_index c) (set_dstream false msg) w.
Proof using Type.
  intros [[P _] (_ & _ & _ & S & _)]. unfold L1I_RequestOut. rewrite push_array_port by done.
  unfold l2_FetchRequestIn, fetch_index.
  unfold mbind at 1, M_bind at 1. cbn [gets view l2_slot]. rewrite S. f_equal.
  rewrite Z.shiftl_mul_pow2 by lia. set (x := Z.of_nat (fin_to_nat c)).
  rewrite <-Z.lxor_lor, <-Z.add_nocarry_lxor; [lia|..]; apply Z.bits_inj'; intros m Hm;
    rewrite Z.land_spec, Z.bits_0; (destruct (decide (m = 0)) as [->|];
      [change (x * 2 ^ 1) with (x * 2); by rewrite Z.mul_comm, Z.testbit_even_0|]);
    by rewrite (Z.bits_above_log2 1), andb_false_r by (cbn; lia).
Qed.

Lemma memory_count_coherent w x : coherent w -> coherent (put memory_slot x w).
Proof using Type.
  intros [[U L] O]. split; [split; [by apply upper_below|done]|].
  intros a. eapply ok_block_same; [apply O|]. split_and!; [|done|by left].
  intros j Hj. cbn. by rewrite l1_of_below.
Qed.

Lemma sys_view_memory w x j a : L1 (sys_view (put memory_slot x w)) j a = L1 (sys_view w) j a.
Proof using Type. cbn. by rewrite l1_of_below. Qed.

(** The snoop of a DMA request, after the memory has counted it. *)
Lemma dma_spec t msg w x :
  coherent w -> t = Invalidate \/ t = Downgrade ->
  wp (ToCache (set_type t msg)) (fun _ w' =>
    coherent w' /\ memory_snooped ncaches (block_of msg) t (sys_view w) (sys_view w'))
    (put memory_slot x w).
Proof using Hwidth.
  intros C Ht. pose proof (memory_count_coherent w x C) as [[U L] O].
  eapply wp_mono; [exact (l2_SnoopIn_spec Inf.ops Inf.processRequestResponse l2_slot ncaches bm l1_of hold
    upper_ok _ _ memory_FromCache (set_type t msg) _ U L (O _) Ht)|].
  cbn [theType theAddress set_type]. fold (block_of msg).
  intros _ w' (U' & L' & F & B & I & D). split.
  - split; [done|]. intros b. destruct (decide (b = block_of msg)) as [->|N]; [exact B|].
    eapply ok_block_same; [apply O|exact (F b N)].
  - split_and!; [|exact B|exact I|exact D]. intros b N. destruct (F b N) as (F1 & F2 & F3).
    split_and!; [|exact F2|exact F3]. intros j Hj. transitivity (L1 (sys_view (put memory_slot x w)) j b);
      [by apply F1|apply sys_view_memory].
Qed.

(** Every allowed request of a coherent system is served without a failing
    assertion and leaves it coherent. *)
Lemma serve_spec r w :
  coherent w -> allowed r = true ->
  wp (serve r) (fun _ w' => coherent w' /\ achieves r (sys_view w) (sys_view w')) w.
Proof using Hwidth.
  intros C Al. pose proof C as [Ok O]. destruct r as [c msg|c msg|msg]; cbn [serve allowed achieves] in *.
  - destruct (data_slot c) as [Hk Es].
    assert (LL : LowerLevel (l1d_slot c) ncaches (data_index c) bm sys_view sys_ok (L1D_RequestOut c)).
    { apply sys_lower; [done..|]. intros m w0 Ok0. exists true. by apply L1D_RequestOut_index. }
    eapply wp_mono; [exact (push_RequestIn_spec (l1d_slot c) ncaches (data_index c) bm sys_view sys_ok
      (L1D_RequestOut c) msg w Ok O Al)|].
    intros m w' [Ok' P]. split; [|exact P]. split; [done|apply P].
  - destruct (fetch_slot c) as [Hk Es].
    assert (LL : LowerLevel (l1i_slot c) ncaches (fetch_index c) bm sys_view sys_ok (L1I_RequestOut c)).
    { apply sys_lower; [done..|]. intros m w0 Ok0. exists false. by apply L1I_RequestOut_index. }
    eapply wp_mono; [exact (push_FetchRequestIn_spec (l1i_slot c) ncaches (fetch_index c) bm sys_view sys_ok
      (L1I_RequestOut c) msg w Ok O Al)|].
    intros m w' [Ok' P]. split; [|exact P]. split; [done|apply P].
  - unfold ToDMA. destruct (type_eqb (theType msg) WriteReq).
    + wp_step. wp_step. apply dma_spec; auto.
    + wp_step. wp_step. wp_step. wp_step; [done|]. apply dma_spec; auto.
Qed.

Lemma run_spec l w :
  coherent w -> Forall (fun r => allowed r = true) l -> wp (run l) (fun _ w' => coherent w') w.
Proof using Hwidth.
  revert w. induction l as [|r l IH]; intros w C F; cbn [run]; [by wp_step|].
  apply Forall_cons in F as [Al F]. wp_step. eapply wp_mono; [by apply serve_spec|].
  intros m w' [C' _]. by apply IH.
Qed.
End system.

(** ** Start-up gives a coherent system *)

Lemma vec_sequence_lookup {A n} (v : vec (outcome A) n) (v' : vec A n) (i : fin n) :
  vec_sequence v = Done v' -> v !!! i = Done (v' !!! i).
Proof.
  revert v'. induction v as [|o n v IH]; intros v' E; [inv_fin i|].
  cbn in E. destruct o as [x|]; [|done]. cbn in E.
  destruct (vec_sequence v) as [w|] eqn:Ew; [|done]. injection E as <-.
  inv_fin i; [done|]. intros i. by apply IH.
Qed.

(** The settings the simulator is run with (user_postload): one block size, the
    MESI protocol above, and instruction and data caches tracked separately.
    Sizes, associativities, clean evictions, trace mode, multicast and the
    LRU flags are free. *)
Definition l1_setting (bs : Z) (cfg : FastCacheCfg) : Prop :=
  cfg_Protocol cfg = "InclusiveMESI"%string /\ FastCache.cfg_BlockSize cfg = bs.
Definition l2_setting (bs : Z) (cfg : CMP.Cfg) : Prop :=
  CMP.cfg_SeparateID cfg = true /\ CMP.cfg_BlockSize cfg = bs /\ CMP.cfg_CoherenceUnit cfg = bs.

Lemma l1_initialize_ok bs cfg idx x :
  l1_setting bs cfg -> initialize cfg idx = Done x ->
  l1_ok (Z.lnot (bs - 1)) x /\ forall a, peek (theCache x) a = kInvalid.
Proof.
  intros (P & B) E. unfold initialize in E. rewrite P, B in E.
  assert (G : GenerateCoherenceProtocol "InclusiveMESI" (cfg_UsingTraces cfg) (cfg_DowngradeLRU cfg) (cfg_SnoopLRU cfg) =
    Done (InclusiveMESI (cfg_UsingTraces cfg) (cfg_DowngradeLRU cfg) (cfg_SnoopLRU cfg))) by reflexivity.
  rewrite G in E. unfold mbind, outcome_bind in E. cbv beta iota zeta in E.
  repeat (case_match; [done|]).
  destruct (newStdCache _ _ _) as [c|] eqn:Ec; [|done]. injection E as <-.
  destruct (newStdCache_wf _ _ _ _ Ec) as (Wf & Pk & Mk & _). split; [|done].
  split; [done|]. split; [done|]. split; [done|]. by do 3 eexists.
Qed.

Lemma l2_initialize_ok bs cfg sw x :
  l2_setting bs cfg -> CMP.initialize cfg sw (mkInf ∅ 0 0) = Done x ->
  l2_ok Inf.ops Inf.processRequestResponse (Z.lnot (bs - 1)) x /\
  (forall a, peek (l2_cache x) a = kInvalid) /\ l2_directory x = mkInf ∅ 0 0.
Proof.
  intros (S & B & U) E. unfold CMP.initialize in E. rewrite S, B, U in E.
  unfold mbind, outcome_bind in E. cbv zeta in E. repeat (case_match; [done|]).
  destruct (newStdCache _ _ _) as [c|] eqn:Ec; [|done]. injection E as <-.
  destruct (newStdCache_wf _ _ _ _ Ec) as (Wf & Pk & Mk & _). split; [|done].
  by split_and!.
Qed.

(** The port arrays of the chip-level cache have a place for every core: its
    [CMPWidth] is 0, the width of the system (what initializeParameters sets)
    or more. *)
Definition enough_ports (width : nat) (cfg : CMP.Cfg) : Prop :=
  Z.of_nat width <= CMP.port_array_width cfg (Z.of_nat width).

Lemma enough_ports_default width cfg :
  Z.of_nat width <= 256 -> CMP.cfg_CMPWidth cfg = 0 \/ CMP.cfg_CMPWidth cfg = Z.of_nat width ->
  enough_ports width cfg.
Proof.
  intros Hw E. unfold enough_ports, CMP.port_array_width.
  destruct (Z.eqb_spec (CMP.cfg_CMPWidth cfg) 0) as [_|N]; [|destruct E as [E|E]; [done|rewrite E]];
    rewrite Z.mod_small by lia; done.
Qed.

Lemma boot_coherent width bs l1d l1i l2 w :
  enough_ports width l2 -> l1_setting bs l1d -> l1_setting bs l1i -> l2_setting bs l2 ->
  boot width l1d l1i l2 = Done w -> coherent (Z.lnot (bs - 1)) w.
Proof.
  intros Hp Sd Si S2 E. unfold boot, mbind, outcome_bind in E. cbv beta in E.
  destruct (vec_sequence (fun_to_vec (fun c : fin width => initialize l1d _))) as [vd|] eqn:Ed; [|done].
  destruct (vec_sequence (fun_to_vec (fun c : fin width => initialize l1i _))) as [vi|] eqn:Ei; [|done].
  destruct (CMP.initialize l2 _ _) as [x|] eqn:E2; [|done]. injection E as <-.
  destruct (l2_initialize_ok bs l2 _ x S2 E2) as (Ok2 & Pk2 & D2).
  assert (P0 : ports_ok (mkSys vd vi x ∅ l2)) by exact Hp.
  assert (L1s : forall k y, l1_of (mkSys vd vi x ∅ l2) k = Some y ->
    l1_ok (Z.lnot (bs - 1)) y /\ forall a, peek (theCache y) a = kInvalid).
  { intros k y. unfold l1_of, l1_slot. destruct (channel (Z.shiftr k 1)) as [c|]; [|done].
    cbn. destruct (Z.land k 1 =? 0); cbn; intros [= <-].
    - apply (vec_sequence_lookup _ _ c) in Ed. rewrite lookup_fun_to_vec in Ed.
      by apply (l1_initialize_ok bs l1d _ _ Sd Ed).
    - apply (vec_sequence_lookup _ _ c) in Ei. rewrite lookup_fun_to_vec in Ei.
      by apply (l1_initialize_ok bs l1i _ _ Si Ei). }
  assert (L0 : forall k a, L1 (sys_view (mkSys vd vi x ∅ l2)) k a = kInvalid).
  { intros k a. cbn. destruct (l1_of _ k) as [y|] eqn:Ey; [|done]. by apply (L1s k y). }
  assert (S0 : forall a, SH (sys_view (mkSys vd vi x ∅ l2)) a = SV.empty).
  { intros a. cbn. rewrite D2. done. }
  split; [split; [split; [exact P0|intros k y Ey; by apply (L1s k y)]|exact Ok2]|].
  intros a. split.
  - intros k _. by rewrite L0.
  - cbn. by rewrite Pk2.
  - rewrite S0. apply wf_empty.
  - intros k T. rewrite S0 in T. by rewrite Z.bits_0 in T.
  - intros k _ V. by rewrite L0 in V.
  - intros k _ Wk. by rewrite L0 in Wk.
Qed.

(** ** The simulator from its start *)

(** A width, a block size and settings that start up, in state [w0]. *)
Record configured {width} (bs : Z) (l1d l1i : FastCacheCfg) (l2 : CMP.Cfg) (w0 : Sys width) : Prop := {
  conf_width : Z.of_nat width <= 256;
  conf_ports : enough_ports width l2;
  conf_l1d : l1_setting bs l1d;
  conf_l1i : l1_setting bs l1i;
  conf_l2 : l2_setting bs l2;
  conf_boot : boot width l1d l1i l2 = Done w0;
}.

Inductive reachable {width} (w0 : Sys width) : Sys width -> Prop :=
| reach_start : reachable w0 w0
| reach_step w r m w' :
    reachable w0 w -> allowed r = true -> serve r w = Done (m, w') -> reachable w0 w'.

Abbreviation mask bs := (Z.lnot (bs - 1)).

Section from_start.
Context {width : nat} (bs : Z) (l1d l1i : FastCacheCfg) (l2 : CMP.Cfg) (w0 : Sys width).
Hypothesis (C : configured bs l1d l1i l2 w0).

Lemma start_coherent : coherent (mask bs) w0.
Proof using C. apply (boot_coherent width bs l1d l1i l2); apply C. Qed.

Lemma reachable_coherent w : reachable w0 w -> coherent (mask bs) w.
Proof using C.
  induction 1 as [|w r m w' R IH Al E]; [apply start_coherent|].
  pose proof (serve_spec (mask bs) (conf_width _ _ _ _ _ C) r w IH Al) as S.
  unfold wp in S. rewrite E in S. apply S.
Qed.

Lemma reachable_serve w r :
  reachable w0 w -> allowed r = true ->
  exists m w', serve r w = Done (m, w') /\ coherent (mask bs) w' /\
    achieves (mask bs) r (sys_view w) (sys_view w').
Proof using C.
  intros R Al. pose proof (serve_spec (mask bs) (conf_width _ _ _ _ _ C) r w (reachable_coherent w R) Al) as S.
  apply wp_done in S as (m & w' & E & Co & A). by exists m, w'.
Qed.
End from_start.

(** A system of two cores with small caches, for the examples. *)
Definition small_l1 : FastCacheCfg := mkFastCacheCfg 256 2 64 true "InclusiveMESI" false false false.
Definition small_l2 : CMP.Cfg := CMP.mkCfg 2 512 2 64 true false 64.
Definition small_start : outcome (Sys 2) := boot 2 small_l1 small_l1 small_l2.
Definition small_system : Sys 2 :=
  Eval vm_compute in
    match small_start as o return match o with Done _ => Sys 2 | Assert _ => unit end with
    | Done w => w
    | Assert _ => tt
    end.

Lemma small_configured : configured 64 small_l1 small_l1 small_l2 small_system.
Proof. split; [done|by repeat split..|]. vm_compute. reflexivity. Qed.

(** ** Theorems about the simulator *)

(** C1 (no assertion fails): take a simulated width of at most 256 cores, a
    CMPWidth of 0 (the width of the system) or at least that width, the
    first-level caches with the protocol "InclusiveMESI" and block size [bs],
    the chip-level cache with SeparateID and both BlockSize and CoherenceUnit
    equal to [bs] ([configured]; sizes, associativities and the other settings
    are free), and suppose that start-up succeeds.  Then the simulator serves
    every sequence of requests whose types the ports accept ([allowed]): loads,
    fetches, stores, atomic and non-allocating accesses from any core and DMA
    reads and writes: no [DBG_Assert] of the port arrays, the caches, the
    directory, the protocols or memory is reached, so the run ends.
    [wide_chip_asserts] and [narrow_chip_asserts] show that the bounds on the
    two widths are needed. *)
Theorem run_never_asserts {width} (bs : Z) (l1d l1i : FastCacheCfg) (l2 : CMP.Cfg) (w0 : Sys width)
    (l : list (Request width)) :
  configured bs l1d l1i l2 w0 -> Forall (fun r => allowed r = true) l ->
  exists w, run l w0 = Done ((), w).
Proof.
  intros C F. pose proof (run_spec (mask bs) (conf_width _ _ _ _ _ C) l w0 (start_coherent _ _ _ _ _ C) F) as S.
  apply wp_done in S as ([] & w & E & _). by exists w.
Qed.

Definition small_trace : list (Request 2) :=
  [DataRequest 0%fin (newMessage StoreReq 0); DataRequest 1%fin (newMessage LoadReq 8);
   FetchRequest 0%fin (newMessage FetchReq 64); DMARequest (newMessage WriteReq 0);
   DataRequest 1%fin (newMessage NonAllocatingStoreReq 320)].

Lemma run_never_asserts_witness :
  Forall (fun r => allowed r = true) small_trace /\ exists w, run small_trace small_system = Done ((), w).
Proof.
  assert (F : Forall (fun r => allowed r = true) small_trace) by (by repeat constructor).
  split; [exact F|]. exact (run_never_asserts 64 small_l1 small_l1 small_l2 small_system small_trace small_configured F).
Defined.

(** C2 (single writer, multiple readers): in every state the simulator can
    reach, a block that some first-level cache holds modified or exclusive is
    held by no other first-level cache, data or instruction, of any core. *)
Theorem single_writer {width} (bs : Z) (l1d l1i : FastCacheCfg) (l2 : CMP.Cfg) (w0 w : Sys width)
    (a j k : Z) :
  configured bs l1d l1i l2 w0 -> reachable w0 w ->
  0 <= j < 2 * Z.of_nat width -> 0 <= k < 2 * Z.of_nat width -> j <> k ->
  writable (hold (l1_of w k) a) = true -> hold (l1_of w j) a = kInvalid.
Proof.
  intros C R Hj Hk N Wk. destruct (reachable_coherent _ _ _ _ _ C w R) as [_ O].
  exact (ok_swmr _ (sys_view w) a j k (O a) Hj Hk N Wk).
Qed.

Definition after_store : outcome (Sys 2) :=
  match serve (DataRequest 0%fin (newMessage StoreReq 64)) small_system with
  | Done (_, w) => Done w
  | Assert why => Assert why
  end.
Definition stored_system : Sys 2 :=
  Eval vm_compute in
    match after_store as o return match o with Done _ => Sys 2 | Assert _ => unit end with
    | Done w => w
    | Assert _ => tt
    end.
Definition store_reply : MemoryMessage :=
  Eval vm_compute in
    match serve (DataRequest 0%fin (newMessage StoreReq 64)) small_system with
    | Done (m, _) => m
    | Assert _ => newMessage StoreReq 0
    end.
Lemma stored_reachable : reachable small_system stored_system.
Proof.
  apply (reach_step small_system small_system (DataRequest 0%fin (newMessage StoreReq 64)) store_reply);
    [constructor|reflexivity|vm_compute; reflexivity].
Qed.

Lemma single_writer_witness :
  hold (l1_of stored_system 0) 64 = kModified /\ hold (l1_of stored_system 2) 64 = kInvalid.
Proof.
  split; [vm_compute; reflexivity|].
  apply (single_writer 64 small_l1 small_l1 small_l2 small_system stored_system 64 2 0
           small_configured stored_reachable); [done|done|done|vm_compute; reflexivity].
Defined.

(** C3 (the directory is inclusive): in every reachable state the directory
    records every first-level cache that holds a copy, and when a copy is
    modified or exclusive its holder is the only recorded sharer and the
    chip-level cache holds the block exclusive or not at all. *)
Theorem directory_inclusive {width} (bs : Z) (l1d l1i : FastCacheCfg) (l2 : CMP.Cfg) (w0 w : Sys width)
    (a k : Z) :
  configured bs l1d l1i l2 w0 -> reachable w0 w -> 0 <= k < 2 * Z.of_nat width ->
  (hold (l1_of w k) a <> kInvalid ->
   Z.testbit (InfSpec.sharers (l2_directory (theL2 w)) a) k = true) /\
  (writable (hold (l1_of w k) a) = true ->
   only_sharer k (InfSpec.sharers (l2_directory (theL2 w)) a) /\
   exclusive_below (peek (l2_cache (theL2 w)) a) = true).
Proof.
  intros C R Hk. destruct (reachable_coherent _ _ _ _ _ C w R) as [_ O]. destruct (O a) as [_ _ _ _ D X].
  split; [exact (D k Hk)|exact (X k Hk)].
Qed.

Lemma directory_inclusive_witness :
  Z.testbit (InfSpec.sharers (l2_directory (theL2 stored_system)) 64) 0 = true.
Proof.
  apply (directory_inclusive 64 small_l1 small_l1 small_l2 small_system stored_system 64 0
           small_configured stored_reachable); [done|vm_compute; done].
Defined.

(** C4 (stores): in every reachable state a store, read-modify-write or compare
    and exchange of a core is served; afterwards its data cache holds the block
    modified, no other first-level cache holds it, and for other blocks the
    other caches are unchanged while its own may only have lost blocks. *)
Theorem store_takes_ownership {width} (bs : Z) (l1d l1i : FastCacheCfg) (l2 : CMP.Cfg)
    (w0 w : Sys width) (c : fin width) (msg : MemoryMessage) :
  let k := data_index c in
  let a := block_of (mask bs) msg in
  configured bs l1d l1i l2 w0 -> reachable w0 w ->
  theType msg = StoreReq \/ theType msg = RMWReq \/ theType msg = CmpxReq ->
  exists m w', serve (DataRequest c msg) w = Done (m, w') /\
    hold (l1_of w' k) a = kModified /\
    (forall j, 0 <= j < 2 * Z.of_nat width -> j <> k -> hold (l1_of w' j) a = kInvalid) /\
    (forall j b, 0 <= j < 2 * Z.of_nat width -> b <> a ->
       hold (l1_of w' j) b = hold (l1_of w j) b \/ (j = k /\ hold (l1_of w' j) b = kInvalid)).
Proof.
  intros k a C R T. destruct (reachable_serve _ _ _ _ _ C w (DataRequest c msg) R) as (m & w' & E & [_ O] & P).
  { by destruct T as [T|[T|T]]; cbn; rewrite T. }
  exists m, w'. split; [done|]. destruct P as (_ & Sv & Kp & _). fold k a in Sv, Kp.
  assert (Own : L1 (sys_view w') k a = kModified) by (by destruct T as [T|[T|T]]; rewrite T in Sv).
  assert (Hk : 0 <= k < ncaches (width := width)) by apply data_slot.
  split_and!; [done| |].
  - intros j Hj N. apply (ok_swmr _ (sys_view w') a j k (O a)); [done|done|done|by rewrite Own].
  - intros j b Hj N. destruct (Kp b N) as [K1 K2]. destruct (decide (j = k)) as [->|Nj]; [naive_solver|].
    left. exact (K2 j Hj Nj).
Qed.

Lemma store_takes_ownership_witness :
  exists m w', serve (DataRequest 1%fin (newMessage RMWReq 72)) stored_system = Done (m, w') /\
    hold (l1_of w' 2) 64 = kModified /\ hold (l1_of w' 0) 64 = kInvalid.
Proof.
  destruct (store_takes_ownership 64 small_l1 small_l1 small_l2 small_system stored_system 1%fin
              (newMessage RMWReq 72) small_configured stored_reachable) as (m & w' & E & O & N & _);
    [by right; left|].
  exists m, w'. split; [exact E|]. split; [exact O|]. apply (N 0); [done|by vm_compute].
Defined.

(** C5 (loads and fetches): in every reachable state a load or a fetch of a core
    is served; afterwards its cache holds the block, if no other cache can
    write it, and no cache has lost another block but the requester. *)
Theorem read_gets_copy {width} (bs : Z) (l1d l1i : FastCacheCfg) (l2 : CMP.Cfg)
    (w0 w : Sys width) (c : fin width) (msg : MemoryMessage) (data : bool) :
  let k := if data then data_index c else fetch_index c in
  let a := block_of (mask bs) msg in
  configured bs l1d l1i l2 w0 -> reachable w0 w ->
  theType msg = LoadReq \/ theType msg = ReadReq \/ theType msg = FetchReq ->
  exists m w', serve (if data then DataRequest c msg else FetchRequest c msg) w = Done (m, w') /\
    hold (l1_of w' k) a <> kInvalid /\
    (forall j, 0 <= j < 2 * Z.of_nat width -> j <> k -> writable (hold (l1_of w' j) a) = false) /\
    (forall j b, 0 <= j < 2 * Z.of_nat width -> b <> a ->
       hold (l1_of w' j) b = hold (l1_of w j) b \/ (j = k /\ hold (l1_of w' j) b = kInvalid)).
Proof.
  intros k a C R T.
  destruct (reachable_serve _ _ _ _ _ C w (if data then DataRequest c msg else FetchRequest c msg) R)
    as (m & w' & E & [_ O] & P).
  { by destruct data, T as [T|[T|T]]; cbn; rewrite T. }
  exists m, w'. split; [done|].
  assert (P' : request_post ncaches k a (theType msg) (sys_view w) (sys_view w')) by (by destruct data).
  destruct P' as (_ & Sv & Kp & _).
  assert (Own : L1 (sys_view w') k a <> kInvalid) by (by destruct T as [T|[T|T]]; rewrite T in Sv).
  assert (Hk : 0 <= k < ncaches (width := width)) by (destruct data; [apply data_slot|apply fetch_slot]).
  split_and!; [done| |].
  - intros j Hj N. apply not_true_iff_false. intros Wj.
    apply Own, (ok_swmr _ (sys_view w') a k j (O a)); done.
  - intros j b Hj N. destruct (Kp b N) as [K1 K2]. destruct (decide (j = k)) as [->|Nj]; [naive_solver|].
    left. exact (K2 j Hj Nj).
Qed.

Lemma read_gets_copy_witness :
  exists m w', serve (FetchRequest 1%fin (newMessage FetchReq 100)) stored_system = Done (m, w') /\
    hold (l1_of w' 3) 64 <> kInvalid /\ writable (hold (l1_of w' 0) 64) = false.
Proof.
  destruct (read_gets_copy 64 small_l1 small_l1 small_l2 small_system stored_system 1%fin
              (newMessage FetchReq 100) false small_configured stored_reachable) as (m & w' & E & O & N & _);
    [by right; right|].
  exists m, w'. split; [exact E|]. split; [exact O|]. apply (N 0); [done|by vm_compute].
Defined.

(** C6 (DMA): in every reachable state a DMA write is served and leaves the
    block in no cache of the chip; a DMA read is served and leaves no cache
    that may write it and no modified copy in the chip-level cache.  Other
    blocks keep their state in every first-level cache. *)
Theorem dma_cleans_block {width} (bs : Z) (l1d l1i : FastCacheCfg) (l2 : CMP.Cfg)
    (w0 w : Sys width) (msg : MemoryMessage) :
  let a := block_of (mask bs) msg in
  configured bs l1d l1i l2 w0 -> reachable w0 w ->
  theType msg = WriteReq \/ theType msg = ReadReq ->
  exists m w', serve (DMARequest msg) w = Done (m, w') /\
    (theType msg = WriteReq -> peek (l2_cache (theL2 w')) a = kInvalid /\
       forall j, 0 <= j < 2 * Z.of_nat width -> hold (l1_of w' j) a = kInvalid) /\
    (theType msg = ReadReq -> peek (l2_cache (theL2 w')) a <> kModified /\
       forall j, 0 <= j < 2 * Z.of_nat width -> writable (hold (l1_of w' j) a) = false) /\
    (forall j b, 0 <= j < 2 * Z.of_nat width -> b <> a -> hold (l1_of w' j) b = hold (l1_of w j) b).
Proof.
  intros a C R T. destruct (reachable_serve _ _ _ _ _ C w (DMARequest msg) R) as (m & w' & E & _ & P).
  { by destruct T as [T|T]; cbn; rewrite T. }
  exists m, w'. split; [done|]. destruct P as (F & _ & I & D). fold a in F, I, D.
  split_and!.
  - intros T'. rewrite T' in I. exact (I eq_refl).
  - intros T'. rewrite T' in D. exact (D eq_refl).
  - intros j b Hj N. destruct (F b N) as (F1 & _). exact (F1 j Hj).
Qed.

Lemma dma_cleans_block_witness :
  exists m w', serve (DMARequest (newMessage WriteReq 64)) stored_system = Done (m, w') /\
    hold (l1_of w' 0) 64 = kInvalid.
Proof.
  destruct (dma_cleans_block 64 small_l1 small_l1 small_l2 small_system stored_system
              (newMessage WriteReq 64) small_configured stored_reachable) as (m & w' & E & I & _);
    [by left|].
  exists m, w'. split; [exact E|]. apply (proj2 (I eq_refl) 0). done.
Defined.

(** C7 (non-allocating stores): in every reachable state such a store is served
    without bringing the block into the core's data cache; when that cache does
    not hold the block no first-level cache holds it afterwards, and when it
    does the copy becomes modified. *)
Theorem nonallocating_store {width} (bs : Z) (l1d l1i : FastCacheCfg) (l2 : CMP.Cfg)
    (w0 w : Sys width) (c : fin width) (msg : MemoryMessage) :
  let k := data_index c in
  let a := block_of (mask bs) msg in
  configured bs l1d l1i l2 w0 -> reachable w0 w -> theType msg = NonAllocatingStoreReq ->
  exists m w', serve (DataRequest c msg) w = Done (m, w') /\
    (hold (l1_of w k) a = kInvalid ->
     forall j, 0 <= j < 2 * Z.of_nat width -> hold (l1_of w' j) a = kInvalid) /\
    (hold (l1_of w k) a <> kInvalid -> hold (l1_of w' k) a = kModified).
Proof.
  intros k a C R T. destruct (reachable_serve _ _ _ _ _ C w (DataRequest c msg) R) as (m & w' & E & _ & P).
  { cbn. by rewrite T. }
  exists m, w'. split; [done|]. destruct P as (_ & Sv & _ & Na). fold k a in Sv, Na.
  rewrite T in Sv, Na. split.
  - intros I. exact (Na eq_refl I).
  - intros V. cbn in Sv. by rewrite decide_False in Sv.
Qed.

Lemma nonallocating_store_witness :
  exists m w', serve (DataRequest 1%fin (newMessage NonAllocatingStoreReq 64)) stored_system = Done (m, w') /\
    hold (l1_of w' 0) 64 = kInvalid.
Proof.
  destruct (nonallocating_store 64 small_l1 small_l1 small_l2 small_system stored_system 1%fin
              (newMessage NonAllocatingStoreReq 64) small_configured stored_reachable eq_refl) as (m & w' & E & I & _).
  exists m, w'. split; [exact E|]. apply I; [by vm_compute|done].
Defined.

Definition wide_l2 : CMP.Cfg := CMP.mkCfg 257 512 2 64 true false 64.

(** A chip of 257 cores passes the assertions
    of [initialize], which compare the number of cores with the 512 places of a
    sharing vector; with instruction and data caches tracked separately the
    last core's index is 512, and its first load fails an assertion. *)
Theorem wide_chip_asserts :
  match boot 257 small_l1 small_l1 wide_l2 with
  | Done w => serve (DataRequest 256%fin (newMessage LoadReq 0)) w = Assert "Invalid index"
  | Assert _ => False
  end.
Proof. vm_compute. reflexivity. Qed.

(** A chip whose port arrays are narrower than the system: a request that a
    first-level cache of a core beyond them sends down fails the assertion of
    the component array, in every state and for either cache. *)
Theorem narrow_chip_asserts {width} (w : Sys width) (c : fin width) (msg : MemoryMessage) :
  0 < l2_ports w -> l2_ports w <= Z.of_nat (fin_to_nat c) ->
  L1D_RequestOut c msg w = Assert "Component Index" /\ L1I_RequestOut c msg w = Assert "Component Index".
Proof.
  intros P N. unfold L1D_RequestOut, L1I_RequestOut, push_array, theL2_width.
  assert (D : 1 <= Z.of_nat (fin_to_nat c) / l2_ports w) by (apply Z.div_le_lower_bound; lia).
  unfold mbind, M_bind. cbn [gets]. unfold dbg_assert.
  rewrite (proj2 (Z.ltb_ge _ _)) by lia. done.
Qed.

Definition narrow_system : Sys 2 :=
  mkSys (theL1D small_system) (theL1I small_system) (theL2 small_system) ∅
    (CMP.mkCfg 1 512 2 64 true false 64).

Lemma narrow_chip_asserts_witness :
  L1D_RequestOut 1%fin (newMessage LoadReq 0) narrow_system = Assert "Component Index".
Proof.
  assert (P : l2_ports narrow_system = 1) by reflexivity.
  exact (proj1 (narrow_chip_asserts narrow_system 1%fin (newMessage LoadReq 0)
    ltac:(rewrite P; lia) ltac:(rewrite P; cbn; lia))).
Defined.
