(* ===== verification/BranchPredictor.v ===== *)
(** * The combining branch predictor

    components/CommonQEMU/BranchPredictor.cpp with the types of
    components/uFetch/uFetchTypes.hpp: two-bit counters, the bimodal and gshare
    tables, the branch target buffer, and the two predictors built from them,
    [FastCombiningImpl] for the trace simulator (Module [Fast]) and
    [CombiningImpl] for the timing simulator (Module [Comb]).

    Virtual addresses are 64-bit numbers and registers 32-bit numbers, as [Z].  A
    table access outside its vector ends the run, so the theorems that a run ends
    show that every index is in range.  Debug output is left out. *)

From S2P Require Import Prelude.
From stdpp Require Import base gmap list strings fin_maps.
From Stdlib Require Import ZArith Lia.

Local Open Scope Z_scope.

Definition u32 (x : Z) : Z := x mod 2 ^ 32.

(** ** Branch types and directions *)

Inductive eBranchType : Set :=
  | kNonBranch | kConditional | kUnconditional | kCall | kReturn | kLastBranchType.

Inductive eDirection : Set :=
  | kStronglyTaken | kTaken | kNotTaken | kStronglyNotTaken.

#[export] Instance eBranchType_eq_dec : EqDecision eBranchType.
Proof. solve_decision. Defined.
#[export] Instance eDirection_eq_dec : EqDecision eDirection.
Proof. solve_decision. Defined.

(** The numbers of the enumerators, for the comparisons of the code. *)
Definition dir_num (d : eDirection) : Z :=
  match d with kStronglyTaken => 0 | kTaken => 1 | kNotTaken => 2 | kStronglyNotTaken => 3 end.

Definition ge_NotTaken (d : eDirection) : bool := dir_num kNotTaken <=? dir_num d.
Definition le_Taken (d : eDirection) : bool := dir_num d <=? dir_num kTaken.

(** [BPredState]: what a prediction records for the feedback. *)
Record BPredState : Type := mkBPState {
  thePredictedType : eBranchType;
  thePredictedTarget : Z;
  thePrediction : eDirection;
  theBimodalPrediction : eDirection;
  theMetaPrediction : eDirection;
  theGSharePrediction : eDirection;
  theGShareShiftReg : Z;
  bp_serial : Z;
}.

(** ** Two-bit counters *)

Definition moreTaken (aDirection : eDirection) : eDirection :=
  match aDirection with
  | kStronglyTaken => kStronglyTaken
  | kTaken => kStronglyTaken
  | kNotTaken => kTaken
  | kStronglyNotTaken => kNotTaken
  end.

Definition moreNotTaken (aDirection : eDirection) : eDirection :=
  match aDirection with
  | kStronglyNotTaken => kStronglyNotTaken
  | kStronglyTaken => kTaken
  | kTaken => kNotTaken
  | kNotTaken => kStronglyNotTaken
  end.

Definition apply (aDirection aState : eDirection) : eDirection :=
  if le_Taken aDirection then moreTaken aState else moreNotTaken aState.

Definition reverse (direction : eDirection) : eDirection :=
  if ge_NotTaken direction then kTaken else kNotTaken.

(** The loops of [reset]: [n] counters, weakly not taken and weakly taken in turn. *)
Fixpoint alternating (n : nat) (direction : eDirection) : list eDirection :=
  match n with
  | O => []
  | S n => direction :: alternating n (reverse direction)
  end.

(** ** [gShare] *)

Record gShare : Type := mkGShare {
  thePatternTable : list eDirection;
  theShiftReg : Z;
  theShiftRegSize : Z;
  thePatternMask : Z;
}.

Module GShare.
Definition set_reg (r : Z) (g : gShare) : gShare :=
  mkGShare (thePatternTable g) r (theShiftRegSize g) (thePatternMask g).
Definition set_table (t : list eDirection) (g : gShare) : gShare :=
  mkGShare t (theShiftReg g) (theShiftRegSize g) (thePatternMask g).

Definition create (aSize : Z) : gShare :=
  mkGShare (alternating (Z.to_nat (Z.shiftl 1 aSize)) kNotTaken) 0 aSize (Z.shiftl 1 aSize - 1).

Definition index (anAddress aShiftReg : Z) (g : gShare) : Z :=
  Z.land (Z.lxor aShiftReg (Z.shiftr anAddress 2)) (thePatternMask g).

Definition shiftIn (aDirection : eDirection) (g : gShare) : gShare :=
  let r := Z.land (u32 (Z.shiftl (theShiftReg g) 1)) (thePatternMask g) in
  set_reg (if ge_NotTaken aDirection then Z.lor r 1 else r) g.

Definition setShiftReg (aPreviousShiftRegState : Z) (g : gShare) : gShare :=
  set_reg (Z.land aPreviousShiftRegState (thePatternMask g)) g.

Definition direction (anAddress aShiftRegState : Z) (g : gShare) : outcome eDirection :=
  vec_at (thePatternTable g) (index anAddress aShiftRegState g).

Definition update (anAddress aShiftRegState : Z) (aDirection : eDirection) (g : gShare)
    : outcome gShare :=
  t ← vec_put (thePatternTable g) (index anAddress aShiftRegState g) aDirection;
  Done (set_table t g).

(** [serialize] with an output archive: the fields in the order they are written,
    and what the call leaves in the object. *)
Definition save (g : gShare) : (list eDirection * Z * Z * Z) * gShare :=
  ((thePatternTable g, theShiftRegSize g, thePatternMask g, theShiftReg g),
   set_reg (Z.land (theShiftReg g) (theShiftRegSize g)) g).

(** [serialize] with an input archive: the register goes to a local variable. *)
Definition load (ar : list eDirection * Z * Z * Z) (g : gShare) : gShare :=
  let '(table, size, mask, shift_reg) := ar in
  mkGShare table (Z.land (theShiftReg g) size) size mask.
End GShare.

(** ** [Bimodal] *)

Record Bimodal : Type := mkBimodal {
  theTable : list eDirection;
  theSize : Z;
  bim_IndexMask : Z;
}.

Module Bim.
Definition create (aSize : Z) : outcome Bimodal :=
  if Z.land (aSize - 1) aSize =? 0
  then Done (mkBimodal (alternating (Z.to_nat aSize) kNotTaken) aSize (aSize - 1))
  else Assert "((aSize - 1) & (aSize)) == 0".

Definition index (anAddress : Z) (b : Bimodal) : Z :=
  Z.land (Z.lxor (Z.shiftr anAddress 19) (Z.shiftr anAddress 2)) (bim_IndexMask b).

Definition direction (anAddress : Z) (b : Bimodal) : outcome eDirection :=
  vec_at (theTable b) (index anAddress b).

Definition update (anAddress : Z) (aDirection : eDirection) (b : Bimodal) : outcome Bimodal :=
  t ← vec_put (theTable b) (index anAddress b) aDirection;
  Done (mkBimodal t (theSize b) (bim_IndexMask b)).
End Bim.

(** ** The branch target buffer

    A set is a multi-index container: its sequence, oldest entry first, with
    unique addresses. *)

Record BTBEntry : Type := mkBTBEntry {
  thePC : Z;
  theBranchType : eBranchType;
  theTarget : Z;
}.

Abbreviation btb_set_t := (list BTBEntry).

Record BTB : Type := mkBTB {
  btb_vector : list btb_set_t;
  theBTBSets : Z;
  theBTBAssoc : Z;
  btb_IndexMask : Z;
}.

(** [get<by_baddr>().find(pc)], [erase], [relocate(end, it)] after a change, and
    [push_back], which does nothing when the address is there already. *)
Definition find_pc (pc : Z) (s : btb_set_t) : option BTBEntry := find_by thePC pc s.
Definition erase_pc (pc : Z) (s : btb_set_t) : btb_set_t := filter (fun e => thePC e <> pc) s.
Definition push_back_entry (e : BTBEntry) (s : btb_set_t) : btb_set_t :=
  match find_pc (thePC e) s with Some _ => s | None => s ++ [e] end.

(** [save] and [load] of a set: the list of its entries; loading appends. *)
Definition save_set (s : btb_set_t) : list BTBEntry := s.
Definition load_set (btb : list BTBEntry) (s : btb_set_t) : btb_set_t :=
  foldl (fun s e => push_back_entry e s) s btb.

Module Btb.
Definition create (aBTBSets aBTBAssoc : Z) : outcome BTB :=
  if Z.land (aBTBSets - 1) aBTBSets =? 0
  then Done (mkBTB (replicate (Z.to_nat aBTBSets) []) aBTBSets aBTBAssoc (aBTBSets - 1))
  else Assert "((aBTBSets - 1) & (aBTBSets)) == 0".

Definition index (anAddress : Z) (b : BTB) : Z :=
  Z.land (Z.shiftr anAddress 2) (btb_IndexMask b).

Definition contains (anAddress : Z) (b : BTB) : outcome bool :=
  s ← vec_at (btb_vector b) (index anAddress b);
  Done (match find_pc anAddress s with Some _ => true | None => false end).

Definition type (anAddress : Z) (b : BTB) : outcome eBranchType :=
  s ← vec_at (btb_vector b) (index anAddress b);
  Done (match find_pc anAddress s with Some e => theBranchType e | None => kNonBranch end).

Definition target (anAddress : Z) (b : BTB) : outcome (option Z) :=
  s ← vec_at (btb_vector b) (index anAddress b);
  Done (theTarget <$> find_pc anAddress s).

(** One set's part of [update], and whether the entry is new. *)
Definition update_set (aPC : Z) (aType : eBranchType) (aTarget : Z) (assoc : Z) (s : btb_set_t)
    : bool * btb_set_t :=
  match find_pc aPC s with
  | Some e =>
      (false,
       if decide (aType = kNonBranch) then erase_pc aPC s
       else erase_pc aPC s ++
              [mkBTBEntry (thePC e) aType (if aTarget =? 0 then theTarget e else aTarget)])
  | None =>
      if decide (aType = kNonBranch) then (false, s)
      else (true, push_back_entry (mkBTBEntry aPC aType aTarget)
                    (if assoc <=? Z.of_nat (length s) then tail s else s))
  end.

Definition update (aPC : Z) (aType : eBranchType) (aTarget : Z) (b : BTB) : outcome (bool * BTB) :=
  let idx := index aPC b in
  s ← vec_at (btb_vector b) idx;
  let '(is_new, s') := update_set aPC aType aTarget (theBTBAssoc b) s in
  v ← vec_put (btb_vector b) idx s';
  Done (is_new, mkBTB v (theBTBSets b) (theBTBAssoc b) (btb_IndexMask b)).
End Btb.

(** ** The predictors

    Both have the same fields.  The statistics counters are a map from their
    names to numbers. *)

Record Combining : Type := mkCombining {
  theSerial : Z;
  theBTB : BTB;
  theBimodal : Bimodal;
  theMeta : Bimodal;
  theGShare : gShare;
  counters : gmap string Z;
}.

Definition counter (k : string) (c : gmap string Z) : Z := default 0 (c !! k).
Definition incr (k : string) (c : gmap string Z) : gmap string Z := <[k := counter k c + 1]> c.
Definition incrs (ks : list string) (c : gmap string Z) : gmap string Z := foldr incr c ks.

Definition set_counters (c : gmap string Z) (p : Combining) : Combining :=
  mkCombining (theSerial p) (theBTB p) (theBimodal p) (theMeta p) (theGShare p) c.
Definition set_btb (b : BTB) (p : Combining) : Combining :=
  mkCombining (theSerial p) b (theBimodal p) (theMeta p) (theGShare p) (counters p).
Definition set_bimodal (b : Bimodal) (p : Combining) : Combining :=
  mkCombining (theSerial p) (theBTB p) b (theMeta p) (theGShare p) (counters p).
Definition set_meta (b : Bimodal) (p : Combining) : Combining :=
  mkCombining (theSerial p) (theBTB p) (theBimodal p) b (theGShare p) (counters p).
Definition set_gshare (g : gShare) (p : Combining) : Combining :=
  mkCombining (theSerial p) (theBTB p) (theBimodal p) (theMeta p) g (counters p).
Definition next_serial (p : Combining) : Combining :=
  mkCombining (u32 (theSerial p + 1)) (theBTB p) (theBimodal p) (theMeta p) (theGShare p)
    (counters p).

(** The constructors' member initialisers. *)
Definition newCombining (btb_sets btb_assoc bimodal_size meta_size gshare_size : Z) : outcome Combining :=
  btb ← Btb.create btb_sets btb_assoc;
  bimodal ← Bim.create bimodal_size;
  meta ← Bim.create meta_size;
  Done (mkCombining 0 btb bimodal meta (GShare.create gshare_size) ∅).

Definition FastCombiningImpl : outcome Combining := newCombining 1024 16 32768 8192 13.
Definition CombiningImpl : outcome Combining := newCombining 2048 16 16384 16384 13.

(** [if (theBTB.target(a)) ... *theBTB.target(a) else VirtualMemoryAddress(0)] *)
Definition target_or_zero (anAddress : Z) (p : Combining) : outcome Z :=
  t ← Btb.target anAddress (theBTB p); Done (default 0 t).

Module Fast.
Definition predictConditional (anAddress : Z) (aBPState : BPredState) (p : Combining)
    : outcome (Z * BPredState * Combining) :=
  bimodal ← Bim.direction anAddress (theBimodal p);
  gshare ← GShare.direction anAddress (theShiftReg (theGShare p)) (theGShare p);
  meta ← Bim.direction anAddress (theMeta p);
  let prediction := if ge_NotTaken meta then gshare else bimodal in
  let p := set_counters
             (incrs ["predictions"; if ge_NotTaken meta then "predictions:gshare"
                                    else "predictions:bimodal"] (counters p)) p in
  let aBPState := mkBPState (thePredictedType aBPState) (thePredictedTarget aBPState) prediction
                    bimodal meta gshare (theShiftReg (theGShare p)) (bp_serial aBPState) in
  let p := set_gshare (GShare.shiftIn gshare (theGShare p)) p in
  target ← (if le_Taken prediction then target_or_zero anAddress p else Done 0);
  Done (target, aBPState, p).

(** [predict]: every field of the state passed by reference is written. *)
Definition predict (anAddress : Z) (p : Combining) : outcome (BPredState * Combining) :=
  ty ← Btb.type anAddress (theBTB p);
  let st := mkBPState ty 0 kStronglyTaken kStronglyTaken kStronglyTaken kStronglyTaken 0 (theSerial p) in
  let p := next_serial p in
  let set_target t reg :=
    mkBPState ty t (thePrediction st) (theBimodalPrediction st) (theMetaPrediction st)
      (theGSharePrediction st) reg (bp_serial st) in
  match ty with
  | kNonBranch => Done (st, p)
  | kConditional =>
      '(t, st, p) ← predictConditional anAddress st p;
      Done (mkBPState ty t (thePrediction st) (theBimodalPrediction st) (theMetaPrediction st)
              (theGSharePrediction st) (theGShareShiftReg st) (bp_serial st), p)
  | kUnconditional | kCall =>
      let p := set_counters (incrs ["predictions"; "predictions:unconditional"] (counters p)) p in
      t ← target_or_zero anAddress p;
      Done (set_target t (theShiftReg (theGShare p)), p)
  | kReturn => Done (st, p)
  | kLastBranchType => Done (st, p)
  end.

(** The counters that [stats] increments.  Its address and target parameters are
    32 bits wide. *)
Definition resolution (anActualType : eBranchType) (anActualDirection : eDirection)
    (anActualTarget : Z) (aBPState : BPredState) : list string :=
  let target_matches := anActualTarget =? u32 (thePredictedTarget aBPState) in
  let by_meta := if ge_NotTaken (theMetaPrediction aBPState) then "correct:gshare"
                 else "correct:bimodal" in
  if decide (anActualType <> thePredictedType aBPState) then ["mispredict"; "mispredict:new"]
  else if decide (anActualType = kConditional) then
    if ge_NotTaken (thePrediction aBPState) && ge_NotTaken anActualDirection
    then ["correct"; by_meta]
    else if le_Taken (thePrediction aBPState) && le_Taken anActualDirection then
      if target_matches then ["correct"; by_meta] else ["mispredict"; "mispredict:target"]
    else if eqb (ge_NotTaken (theBimodalPrediction aBPState))
                (ge_NotTaken (theGSharePrediction aBPState))
    then ["mispredict"; "mispredict:direction"]
    else ["mispredict"; "mispredict:meta";
          if eqb (ge_NotTaken (thePrediction aBPState))
                 (ge_NotTaken (theGSharePrediction aBPState))
          then "mispredict:meta:chose_gshare" else "mispredict:meta:chose_bimod"]
  else if target_matches then ["correct"; "correct:unconditional"]
  else ["mispredict"; "mispredict:target"].

Definition retired (anActualType : eBranchType) : list string :=
  match anActualType with
  | kConditional => ["branches"; "branches:conditional"]
  | kUnconditional => ["branches"; "branches:unconditional"]
  | kCall => ["branches"; "branches:call"]
  | kReturn => ["branches"; "branches:return"]
  | _ => []
  end.

Definition stats (anActualType : eBranchType) (anActualDirection : eDirection)
    (anActualTarget : Z) (aBPState : BPredState) (p : Combining) : Combining :=
  set_counters (incrs (retired anActualType)
    (incrs (resolution anActualType anActualDirection anActualTarget aBPState) (counters p))) p.

(** The update of a conditional branch that the buffer knew. *)
Definition train (anAddress : Z) (anActualDirection : eDirection) (aBPState : BPredState)
    (p : Combining) : outcome Combining :=
  let p := if negb (eqb (ge_NotTaken (theGSharePrediction aBPState))
                        (ge_NotTaken anActualDirection))
           then set_gshare (GShare.shiftIn anActualDirection
                              (GShare.setShiftReg (theGShareShiftReg aBPState) (theGShare p))) p
           else p in
  bimodal ← Bim.direction anAddress (theBimodal p);
  gshare ← GShare.direction anAddress (theGShareShiftReg aBPState) (theGShare p);
  meta ← Bim.direction anAddress (theMeta p);
  b ← Bim.update anAddress (apply anActualDirection bimodal) (theBimodal p);
  let p := set_bimodal b p in
  g ← GShare.update anAddress (theGShareShiftReg aBPState) (apply anActualDirection gshare)
        (theGShare p);
  let p := set_gshare g p in
  if negb (eqb (ge_NotTaken gshare) (ge_NotTaken bimodal)) then
    m ← Bim.update anAddress
          (if eqb (ge_NotTaken anActualDirection) (ge_NotTaken gshare)
           then moreNotTaken meta else moreTaken meta) (theMeta p);
    Done (set_meta m p)
  else Done p.

Definition feedback (anAddress : Z) (anActualType : eBranchType) (anActualDirection : eDirection)
    (anActualTarget : Z) (aBPState : BPredState) (p : Combining) : outcome Combining :=
  let p := stats anActualType anActualDirection (u32 anActualTarget) aBPState p in
  '(is_new, btb) ← Btb.update anAddress anActualType anActualTarget (theBTB p);
  let p := set_btb btb p in
  if decide (anActualType = kConditional) then
    if (is_new : bool) then
      b ← Bim.update anAddress anActualDirection (theBimodal p);
      Done (set_gshare (GShare.shiftIn anActualDirection (theGShare p)) (set_bimodal b p))
    else if decide (thePredictedType aBPState <> kNonBranch)
    then train anAddress anActualDirection aBPState p
    else Done p
  else if decide (thePredictedType aBPState <> kNonBranch /\
                  thePredictedTarget aBPState <> anActualTarget) then
    if negb is_new
    then Done (set_gshare (GShare.setShiftReg (theGShareShiftReg aBPState) (theGShare p)) p)
    else Done p
  else Done p.
End Fast.

(** [BranchFeedback] of the timing core; its prediction state may be missing. *)
Record BranchFeedback : Type := mkFeedback {
  fb_PC : Z;
  theActualType : eBranchType;
  theActualDirection : eDirection;
  theActualTarget : Z;
  theBPState : option BPredState;
}.

Module Comb.
Definition isBranch (anAddress : Z) (p : Combining) : outcome bool :=
  Btb.contains anAddress (theBTB p).

(** The fetch address with the state that [predict] has allocated for it. *)
Definition predictConditional (theAddress : Z) (st : BPredState) (p : Combining)
    : outcome (Z * BPredState * Combining) :=
  bimodal ← Bim.direction theAddress (theBimodal p);
  gshare ← GShare.direction theAddress (theShiftReg (theGShare p)) (theGShare p);
  meta ← Bim.direction theAddress (theMeta p);
  let '(prediction, chosen) :=
    if ge_NotTaken meta then (gshare, "predictions:gshare")
    else (bimodal, "predictions:bimodal") in
  let p := set_counters (incrs ["predictions"; chosen] (counters p)) p in
  let st := mkBPState (thePredictedType st) (thePredictedTarget st) prediction bimodal meta gshare
              (theShiftReg (theGShare p)) (bp_serial st) in
  let p := set_gshare (GShare.shiftIn gshare (theGShare p)) p in
  target ← (if le_Taken prediction then target_or_zero theAddress p else Done 0);
  Done (target, st, p).

(** The result is the state left in the fetch address; its predicted target is the
    value the function returns. *)
Definition predict (theAddress : Z) (p : Combining) : outcome (BPredState * Combining) :=
  ty ← Btb.type theAddress (theBTB p);
  let fresh t reg := mkBPState ty t kStronglyTaken kStronglyTaken kStronglyTaken kStronglyTaken reg
                       (theSerial p) in
  let p := next_serial p in
  match ty with
  | kConditional =>
      '(t, st, p) ← predictConditional theAddress (fresh 0 0) p;
      Done (mkBPState (thePredictedType st) t (thePrediction st) (theBimodalPrediction st)
              (theMetaPrediction st) (theGSharePrediction st) (theGShareShiftReg st)
              (bp_serial st), p)
  | kUnconditional | kCall =>
      let p := set_counters (incrs ["predictions"; "predictions:unconditional"] (counters p)) p in
      t ← target_or_zero theAddress p;
      Done (fresh t (theShiftReg (theGShare p)), p)
  | kNonBranch | kReturn | kLastBranchType => Done (fresh 0 0, p)
  end.

Definition resolution (f : BranchFeedback) : list string :=
  match theBPState f with
  | None => ["mispredict"; "mispredict:new"]
  | Some st =>
      let by_meta := if ge_NotTaken (theMetaPrediction st) then "correct:gshare"
                     else "correct:bimodal" in
      if decide (theActualType f <> thePredictedType st) then ["mispredict"; "mispredict:new"]
      else if decide (theActualType f = kConditional) then
        if ge_NotTaken (thePrediction st) && ge_NotTaken (theActualDirection f)
        then ["correct"; by_meta]
        else if le_Taken (thePrediction st) && le_Taken (theActualDirection f) then
          if theActualTarget f =? thePredictedTarget st then ["correct"; by_meta]
          else ["mispredict"; "mispredict:target"]
        else if eqb (ge_NotTaken (theBimodalPrediction st)) (ge_NotTaken (theGSharePrediction st))
        then ["mispredict"; "mispredict:direction"]
        else ["mispredict"; "mispredict:meta";
              if eqb (ge_NotTaken (thePrediction st)) (ge_NotTaken (theGSharePrediction st))
              then "mispredict:meta:chose_gshare" else "mispredict:meta:chose_bimod"]
      else if theActualTarget f =? thePredictedTarget st then ["correct"; "correct:unconditional"]
      else ["mispredict"; "mispredict:target"]
  end.

Definition retired (anActualType : eBranchType) : list string :=
  match anActualType with
  | kConditional => ["branches"; "branches:conditional"]
  | kUnconditional => ["branches"; "branches:unconditional"]
  | kCall => ["branches"; "branches:call"]
  | kReturn => ["branches"; "branches:return"]
  | _ => []
  end.

Definition stats (f : BranchFeedback) (p : Combining) : Combining :=
  set_counters (incrs (retired (theActualType f)) (incrs (resolution f) (counters p))) p.

(** The update of a conditional branch that the buffer knew. *)
Definition train (f : BranchFeedback) (st : BPredState) (p : Combining) : outcome Combining :=
  let pc := fb_PC f in
  let actual := theActualDirection f in
  let p := if negb (eqb (ge_NotTaken (theGSharePrediction st)) (ge_NotTaken actual))
           then set_gshare (GShare.shiftIn actual
                              (GShare.setShiftReg (theGShareShiftReg st) (theGShare p))) p
           else p in
  bimodal ← Bim.direction pc (theBimodal p);
  gshare ← GShare.direction pc (theGShareShiftReg st) (theGShare p);
  meta ← Bim.direction pc (theMeta p);
  b ← Bim.update pc (apply actual bimodal) (theBimodal p);
  g ← GShare.update pc (theGShareShiftReg st) (apply actual gshare) (theGShare p);
  let p := set_gshare g (set_bimodal b p) in
  if negb (eqb (ge_NotTaken gshare) (ge_NotTaken bimodal)) then
    m ← Bim.update pc (if eqb (ge_NotTaken actual) (ge_NotTaken gshare)
                       then moreNotTaken meta else moreTaken meta) (theMeta p);
    Done (set_meta m p)
  else Done p.

Definition feedback (f : BranchFeedback) (p : Combining) : outcome Combining :=
  let p := stats f p in
  '(is_new, btb) ← Btb.update (fb_PC f) (theActualType f) (theActualTarget f) (theBTB p);
  let p := set_btb btb p in
  if decide (theActualType f = kConditional) then
    if (is_new : bool) then
      b ← Bim.update (fb_PC f) (theActualDirection f) (theBimodal p);
      Done (set_gshare (GShare.shiftIn (theActualDirection f) (theGShare p)) (set_bimodal b p))
    else match theBPState f with
         | Some st => train f st p
         | None => Done p
         end
  else match theBPState f with
       | Some st =>
           if decide (thePredictedTarget st <> theActualTarget f) then
             if negb is_new
             then Done (set_gshare (GShare.setShiftReg (theGShareShiftReg st) (theGShare p)) p)
             else Done p
           else Done p
       | None => Done p
       end.
End Comb.

(** ** Well-formed predictors *)

Lemma apply_agrees d s : ge_NotTaken s = ge_NotTaken d -> ge_NotTaken (apply d s) = ge_NotTaken d.
Proof. by destruct d, s. Qed.

(** Two outcomes of one direction win over any counter. *)
Lemma apply_twice d s : ge_NotTaken (apply d (apply d s)) = ge_NotTaken d.
Proof. by destruct d, s. Qed.

Lemma le_Taken_ge d : le_Taken d = negb (ge_NotTaken d).
Proof. by destruct d. Qed.

Lemma alternating_length n d : length (alternating n d) = n.
Proof. revert d. induction n; intros; cbn; auto. Qed.

Record wf_bimodal (b : Bimodal) : Prop := {
  bim_size : 0 < theSize b;
  bim_mask : bim_IndexMask b = theSize b - 1;
  bim_length : Z.of_nat (length (theTable b)) = theSize b;
}.

Record wf_gshare (g : gShare) : Prop := {
  gs_size : 1 <= theShiftRegSize g < 32;
  gs_mask : thePatternMask g = 2 ^ theShiftRegSize g - 1;
  gs_length : Z.of_nat (length (thePatternTable g)) = 2 ^ theShiftRegSize g;
  gs_reg : 0 <= theShiftReg g <= thePatternMask g;
}.

(** Every set holds at most [theBTBAssoc] branches, each once, each in the set of
    its own address. *)
Record wf_btb_set (b : BTB) (i : Z) (s : btb_set_t) : Prop := {
  set_nodup : NoDup (thePC <$> s);
  set_size : Z.of_nat (length s) <= theBTBAssoc b;
  set_branches : Forall (fun e => theBranchType e <> kNonBranch /\ Btb.index (thePC e) b = i) s;
}.

Record wf_btb (b : BTB) : Prop := {
  btb_sets : 0 < theBTBSets b;
  btb_mask : btb_IndexMask b = theBTBSets b - 1;
  btb_assoc : 0 < theBTBAssoc b;
  btb_length : Z.of_nat (length (btb_vector b)) = theBTBSets b;
  btb_each : forall i s, btb_vector b !! i = Some s -> wf_btb_set b (Z.of_nat i) s;
}.

Record wf_predictor (p : Combining) : Prop := {
  wf_p_btb : wf_btb (theBTB p);
  wf_p_bimodal : wf_bimodal (theBimodal p);
  wf_p_meta : wf_bimodal (theMeta p);
  wf_p_gshare : wf_gshare (theGShare p);
}.

(** ** Tables: every access is in range *)

Definition bim_get (a : Z) (b : Bimodal) : eDirection :=
  default kNotTaken (theTable b !! Z.to_nat (Bim.index a b)).
Definition bim_put (a : Z) (d : eDirection) (b : Bimodal) : Bimodal :=
  mkBimodal (<[Z.to_nat (Bim.index a b) := d]> (theTable b)) (theSize b) (bim_IndexMask b).

Definition gs_get (a r : Z) (g : gShare) : eDirection :=
  default kNotTaken (thePatternTable g !! Z.to_nat (GShare.index a r g)).
Definition gs_put (a r : Z) (d : eDirection) (g : gShare) : gShare :=
  GShare.set_table (<[Z.to_nat (GShare.index a r g) := d]> (thePatternTable g)) g.

Lemma vec_at_get {A} (x : A) (v : list A) (i : Z) :
  0 <= i < Z.of_nat (length v) -> vec_at v i = Done (default x (v !! Z.to_nat i)).
Proof. intros Hi. by destruct (vec_at_in v i Hi) as (a & -> & ->). Qed.

Section tables.
Context (a r : Z) (d : eDirection) (b : Bimodal) (g : gShare).
Hypothesis (Wb : wf_bimodal b) (Wg : wf_gshare g).

Lemma bim_index_in : 0 <= Bim.index a b < Z.of_nat (length (theTable b)).
Proof using Wb.
  destruct Wb as [Hs Hm Hl]. unfold Bim.index.
  pose proof (land_bound (Z.lxor (Z.shiftr a 19) (Z.shiftr a 2)) (bim_IndexMask b)). lia.
Qed.

Lemma gs_index_in : 0 <= GShare.index a r g < Z.of_nat (length (thePatternTable g)).
Proof using Wg.
  destruct Wg as [Hs Hm Hl Hr]. unfold GShare.index.
  pose proof (land_bound (Z.lxor r (Z.shiftr a 2)) (thePatternMask g)). lia.
Qed.

Lemma bim_direction_ok : Bim.direction a b = Done (bim_get a b).
Proof using Wb. apply vec_at_get, bim_index_in. Qed.

Lemma bim_update_ok : Bim.update a d b = Done (bim_put a d b).
Proof using Wb. unfold Bim.update. by rewrite vec_put_in by apply bim_index_in. Qed.

Lemma bim_put_wf : wf_bimodal (bim_put a d b).
Proof using Wb. destruct Wb. split; cbn; rewrite ?length_insert; done. Qed.

Lemma bim_get_put : bim_get a (bim_put a d b) = d.
Proof using Wb.
  pose proof bim_index_in. unfold bim_get, bim_put, Bim.index in *. cbn.
  rewrite list_lookup_insert_eq by lia. done.
Qed.

Lemma gs_direction_ok : GShare.direction a r g = Done (gs_get a r g).
Proof using Wg. apply vec_at_get, gs_index_in. Qed.

Lemma gs_update_ok : GShare.update a r d g = Done (gs_put a r d g).
Proof using Wg. unfold GShare.update. by rewrite vec_put_in by apply gs_index_in. Qed.

Lemma gs_put_wf : wf_gshare (gs_put a r d g).
Proof using Wg. destruct Wg. split; cbn; rewrite ?length_insert; done. Qed.

Lemma gs_get_put : gs_get a r (gs_put a r d g) = d.
Proof using Wg.
  pose proof gs_index_in. unfold gs_get, gs_put, GShare.index in *. cbn.
  rewrite list_lookup_insert_eq by lia. done.
Qed.

Lemma double_mod_pow2 (x k : Z) (c : bool) :
  1 <= k -> (2 * x + Z.b2z c) mod 2 ^ k = 2 * (x mod 2 ^ (k - 1)) + Z.b2z c.
Proof using.
  intros Hk. assert (E : 2 ^ k = 2 * 2 ^ (k - 1)) by (rewrite <-Z.pow_succ_r by lia; f_equal; lia).
  pose proof (Z.pow_pos_nonneg 2 (k - 1)). pose proof (Z.mod_pos_bound x (2 ^ (k - 1))).
  symmetry. apply (Z.mod_unique_pos _ _ (x / 2 ^ (k - 1))); [destruct c; cbn; lia|].
  rewrite E. pose proof (Z.div_mod x (2 ^ (k - 1))). nia.
Qed.

(** The register is the last [theShiftRegSize] directions, as a number. *)
Lemma shiftIn_reg :
  theShiftReg (GShare.shiftIn d g) =
    (2 * theShiftReg g + Z.b2z (ge_NotTaken d)) mod 2 ^ theShiftRegSize g.
Proof using Wg.
  destruct Wg as [Hs Hm Hl Hr]. unfold GShare.shiftIn, u32. cbn [theShiftReg GShare.set_reg].
  rewrite Hm, Z.sub_1_r, <-Z.ones_equiv, Z.land_ones by lia.
  rewrite Z.shiftl_mul_pow2, Z.pow_1_r, (Z.mul_comm _ 2) by lia.
  rewrite <-Znumtheory.Zmod_div_mod;
    [|lia|lia|exists (2 ^ (32 - theShiftRegSize g)); rewrite <-Z.pow_add_r by lia; f_equal; lia].
  rewrite double_mod_pow2 by lia.
  pose proof (double_mod_pow2 (theShiftReg g) (theShiftRegSize g) false) as E.
  cbn [Z.b2z] in E. rewrite Z.add_0_r in E. rewrite E, Z.add_0_r by lia.
  destruct (ge_NotTaken d); cbn [Z.b2z]; [|lia].
  pose proof (Z.mod_pos_bound (theShiftReg g) (2 ^ (theShiftRegSize g - 1))) as B.
  destruct (theShiftReg g mod 2 ^ (theShiftRegSize g - 1)); cbn; [done..|]. lia.
Qed.

Lemma shiftIn_wf : wf_gshare (GShare.shiftIn d g).
Proof using Wg.
  pose proof shiftIn_reg as E. destruct Wg as [Hs Hm Hl Hr].
  split; [done..|]. rewrite E. cbn. rewrite Hm.
  pose proof (Z.mod_pos_bound (2 * theShiftReg g + Z.b2z (ge_NotTaken d)) (2 ^ theShiftRegSize g)).
  lia.
Qed.

Lemma setShiftReg_wf : wf_gshare (GShare.setShiftReg r g).
Proof using Wg.
  destruct Wg as [Hs Hm Hl Hr]. split; [done..|]. cbn. apply land_bound. lia.
Qed.

(** Putting the recorded register back undoes what was shifted in since. *)
Lemma setShiftReg_own : GShare.setShiftReg (theShiftReg g) g = g.
Proof using Wg.
  destruct Wg as [Hs Hm Hl Hr]. destruct g as [t reg size mask]. unfold GShare.setShiftReg. cbn in *.
  f_equal. unfold GShare.set_reg. cbn. f_equal.
  rewrite Hm, Z.sub_1_r, <-Z.ones_equiv, Z.land_ones by lia. apply Z.mod_small. lia.
Qed.

Lemma shiftIn_same d' : ge_NotTaken d' = ge_NotTaken d -> GShare.shiftIn d' g = GShare.shiftIn d g.
Proof using. unfold GShare.shiftIn. by intros ->. Qed.
End tables.

(** ** The branch target buffer as a bounded map *)

Definition btb_set_of (a : Z) (b : BTB) : btb_set_t :=
  default [] (btb_vector b !! Z.to_nat (Btb.index a b)).
Definition btb_find (a : Z) (b : BTB) : option BTBEntry := find_pc a (btb_set_of a b).
Definition btb_type (a : Z) (b : BTB) : eBranchType :=
  match btb_find a b with Some e => theBranchType e | None => kNonBranch end.

(** The entry that [update] leaves for its address. *)
Definition btb_entry (pc : Z) (ty : eBranchType) (t : Z) (old : option BTBEntry)
    : option BTBEntry :=
  if decide (ty = kNonBranch) then None
  else Some (mkBTBEntry pc ty (match old with
                               | Some e => if t =? 0 then theTarget e else t
                               | None => t
                               end)).

(** The address that a new branch pushes out of its set. *)
Definition btb_victim (pc : Z) (ty : eBranchType) (b : BTB) : option Z :=
  if decide (ty <> kNonBranch /\ btb_find pc b = None /\
             theBTBAssoc b <= Z.of_nat (length (btb_set_of pc b)))
  then thePC <$> head (btb_set_of pc b) else None.

Lemma find_pc_app a s s' :
  find_pc a (s ++ s') = match find_pc a s with Some e => Some e | None => find_pc a s' end.
Proof.
  unfold find_pc, find_by. induction s as [|e s IH]; [done|]. cbn. by case_bool_decide.
Qed.

Lemma find_pc_cons a e s : find_pc a (e :: s) = if decide (thePC e = a) then Some e else find_pc a s.
Proof. unfold find_pc, find_by. cbn. repeat case_decide; case_bool_decide; naive_solver. Qed.

Lemma find_pc_erase a pc s : find_pc a (erase_pc pc s) = if decide (a = pc) then None else find_pc a s.
Proof.
  induction s as [|e s IH]; [by case_decide|]. unfold erase_pc in *. rewrite filter_cons.
  repeat case_decide; rewrite ?find_pc_cons, ?IH; repeat case_decide; naive_solver.
Qed.

Section btb.
Context (b : BTB).
Hypothesis (W : wf_btb b).

Lemma btb_index_in a : 0 <= Btb.index a b < Z.of_nat (length (btb_vector b)).
Proof using W.
  destruct W as [Hs Hm _ Hl _]. unfold Btb.index.
  pose proof (land_bound (Z.shiftr a 2) (btb_IndexMask b)). lia.
Qed.

Lemma btb_set_of_wf a : wf_btb_set b (Btb.index a b) (btb_set_of a b).
Proof using W.
  pose proof (btb_index_in a) as I. destruct (vec_at_in _ _ I) as (s & E & _).
  unfold btb_set_of. rewrite E. rewrite <-(Z2Nat.id (Btb.index a b)) by lia. by apply W.
Qed.

Lemma btb_type_ok a : Btb.type a b = Done (btb_type a b).
Proof using W. unfold Btb.type. by rewrite (vec_at_get []) by apply btb_index_in. Qed.

Lemma btb_target_ok a : Btb.target a b = Done (theTarget <$> btb_find a b).
Proof using W. unfold Btb.target. by rewrite (vec_at_get []) by apply btb_index_in. Qed.

(** A set that [update_set] leaves: what it holds, and that it stays in shape. *)
Lemma update_set_find pc ty t s a :
  wf_btb_set b (Btb.index pc b) s ->
  find_pc a (Btb.update_set pc ty t (theBTBAssoc b) s).2 =
    if decide (a = pc) then btb_entry pc ty t (find_pc pc s)
    else if decide (ty <> kNonBranch /\ find_pc pc s = None /\
                    theBTBAssoc b <= Z.of_nat (length s) /\ thePC <$> head s = Some a)
    then None else find_pc a s.
Proof using.
  clear W. intros Ws. unfold Btb.update_set, btb_entry, push_back_entry. cbn [thePC].
  destruct (find_pc pc s) as [e|] eqn:F.
  - assert (thePC e = pc) by (by apply find_by_Some in F as [_ ?]).
    rewrite (decide_False (P := _ /\ Some e = None /\ _)) by naive_solver.
    destruct (decide (ty = kNonBranch)); cbn [snd]; rewrite ?find_pc_app, find_pc_erase;
      rewrite ?find_pc_cons; cbn [thePC]; repeat case_decide; try naive_solver.
    by destruct (find_pc a s).
  - destruct (decide (ty = kNonBranch)) as [->|N]; cbn [snd].
    { rewrite (decide_False (P := kNonBranch <> kNonBranch /\ _)) by naive_solver.
      case_decide; by subst. }
    assert (Ft : forall s', s' ⊆ s -> find_pc pc s' = None).
    { intros s' S. apply find_by_None. apply find_by_None in F.
      intros I. apply F. apply list_elem_of_fmap in I as (e & -> & I).
      apply list_elem_of_fmap. eauto. }
    destruct (Z.leb_spec (theBTBAssoc b) (Z.of_nat (length s))) as [L|L]; cbn [snd].
    + rewrite Ft by (destruct s; set_solver). rewrite find_pc_app, find_pc_cons. cbn [thePC].
      destruct (decide (a = pc)) as [->|Na].
      { rewrite Ft by (destruct s; set_solver). by rewrite decide_True. }
      rewrite (decide_False (P := pc = a)) by congruence.
      destruct s as [|e s]; [by case_decide|]. cbn [tail head fmap option_fmap option_map].
      rewrite find_pc_cons. destruct (decide (thePC e = a)) as [<-|Ne].
      * rewrite decide_True by done. destruct Ws as [ND _ _]. apply NoDup_cons in ND as [NI _].
        apply find_by_None in NI. unfold find_pc. by rewrite NI.
      * rewrite decide_False by naive_solver. by destruct (find_pc a s).
    + rewrite F, find_pc_app, find_pc_cons. cbn [thePC].
      destruct (decide (a = pc)) as [->|Na]; [by rewrite F, decide_True|].
      rewrite (decide_False (P := pc = a)), decide_False by (try lia; naive_solver lia).
      by destruct (find_pc a s).
Qed.

Lemma filter_length_strict pc s e :
  find_pc pc s = Some e -> (length (erase_pc pc s) < length s)%nat.
Proof using.
  clear W. intros F. apply find_by_Some in F as [I E]. unfold erase_pc.
  apply length_filter_lt with (x := e); [done|]. naive_solver.
Qed.

Lemma erase_pc_fmap pc s : thePC <$> erase_pc pc s = filter (fun a => a <> pc) (thePC <$> s).
Proof using.
  clear W. unfold erase_pc. induction s as [|e s IH]; [done|].
  rewrite fmap_cons, !filter_cons. repeat case_decide; rewrite ?fmap_cons, IH; naive_solver.
Qed.

Lemma update_set_wf pc ty t s :
  wf_btb_set b (Btb.index pc b) s ->
  wf_btb_set b (Btb.index pc b) (Btb.update_set pc ty t (theBTBAssoc b) s).2.
Proof using W.
  intros [ND L Br]. unfold Btb.update_set, push_back_entry. cbn [thePC].
  destruct (find_pc pc s) as [e|] eqn:F.
  - assert (thePC e = pc) as Epc by (by apply find_by_Some in F as [_ ?]).
    pose proof (filter_length_strict _ _ _ F).
    assert (NDe : NoDup (thePC <$> erase_pc pc s)) by (rewrite erase_pc_fmap; by apply NoDup_filter).
    assert (Bre : Forall (fun e => theBranchType e <> kNonBranch /\ Btb.index (thePC e) b = Btb.index pc b)
                    (erase_pc pc s)) by (apply Forall_forall; intros e' [_ I]%list_elem_of_filter; rewrite Forall_forall in Br; auto).
    case_decide as T; cbn [snd]; split; try done; try lia.
    + rewrite fmap_app. apply NoDup_app. split; [done|]. split; [|apply NoDup_singleton].
      intros a I. rewrite erase_pc_fmap in I. apply list_elem_of_filter in I as [? _]. set_solver.
    + rewrite length_app. cbn. lia.
    + apply Forall_app. split; [done|]. repeat constructor; cbn; [done|]. by rewrite Epc.
  - case_decide as T; cbn [snd]; [by split|].
    assert (Hs : exists s', s' = (if theBTBAssoc b <=? Z.of_nat (length s) then tail s else s) /\
              sublist s' s /\ Z.of_nat (length s') < theBTBAssoc b).
    { eexists. split; [done|]. pose proof (btb_assoc b W).
      destruct (Z.leb_spec (theBTBAssoc b) (Z.of_nat (length s))); [|by split].
      destruct s as [|e s]; cbn in *; [lia|]. split; [by apply sublist_cons|lia]. }
    destruct Hs as (s' & <- & Sub & Ls).
    assert (F' : find_pc pc s' = None).
    { apply find_by_None. apply find_by_None in F. intros I. apply F.
      eapply elem_of_sublist; [done|]. by apply fmap_sublist. }
    rewrite F'. split.
    + rewrite fmap_app. apply NoDup_app. split; [|split; [|apply NoDup_singleton]].
      * eapply sublist_NoDup; [exact ND|by apply fmap_sublist].
      * intros a I Ia. apply list_elem_of_singleton in Ia as ->. by apply find_by_None in F'.
    + rewrite length_app. cbn. lia.
    + apply Forall_app. split; [|by repeat constructor].
      rewrite Forall_forall in *. intros e I. apply Br. by eapply elem_of_sublist.
Qed.

Definition btb_put (pc : Z) (s : btb_set_t) : BTB :=
  mkBTB (<[Z.to_nat (Btb.index pc b) := s]> (btb_vector b)) (theBTBSets b) (theBTBAssoc b)
    (btb_IndexMask b).

Definition btb_next (pc : Z) (ty : eBranchType) (t : Z) : BTB :=
  btb_put pc (Btb.update_set pc ty t (theBTBAssoc b) (btb_set_of pc b)).2.

Lemma btb_update_ok pc ty t :
  Btb.update pc ty t b =
    Done (bool_decide (ty <> kNonBranch /\ btb_find pc b = None), btb_next pc ty t).
Proof using W.
  unfold Btb.update, btb_next, btb_put. rewrite (vec_at_get []) by apply btb_index_in.
  cbn [mbind outcome_bind]. fold (btb_set_of pc b).
  destruct (Btb.update_set pc ty t (theBTBAssoc b) (btb_set_of pc b)) as [n s'] eqn:U.
  rewrite vec_put_in by apply btb_index_in. cbn. do 2 f_equal.
  unfold Btb.update_set in U. fold (btb_find pc b) in U.
  destruct (btb_find pc b), (decide (ty = kNonBranch)); simplify_eq;
    case_bool_decide; naive_solver.
Qed.

Lemma btb_next_wf pc ty t : wf_btb (btb_next pc ty t).
Proof using W.
  pose proof (update_set_wf pc ty t _ (btb_set_of_wf pc)) as Ws.
  pose proof (btb_index_in pc) as I. destruct W as [H1 H2 H3 H4 H5].
  split; cbn; rewrite ?length_insert; try done.
  intros i s E. apply list_lookup_insert_Some in E as [(<- & <- & _)|(N & E)].
  - rewrite Z2Nat.id by lia. by destruct Ws; split.
  - by destruct (H5 i s E); split.
Qed.

(** What the buffer holds after an update, for every address. *)
Lemma btb_next_find pc ty t a :
  btb_find a (btb_next pc ty t) =
    if decide (a = pc) then btb_entry pc ty t (btb_find pc b)
    else if decide (btb_victim pc ty b = Some a) then None else btb_find a b.
Proof using W.
  pose proof (btb_index_in pc) as I. pose proof (btb_index_in a) as Ia.
  unfold btb_find at 1, btb_set_of, btb_next, btb_put, Btb.index at 1. cbn [btb_vector btb_IndexMask].
  fold (Btb.index a b). destruct (decide (Btb.index a b = Btb.index pc b)) as [E|N].
  - rewrite E, list_lookup_insert_eq by lia. cbn [default from_option id].
    rewrite update_set_find by apply btb_set_of_wf. case_decide as Ea; [done|].
    unfold btb_victim, btb_find, btb_set_of. rewrite E. fold (btb_set_of pc b).
    repeat case_decide; naive_solver.
  - rewrite list_lookup_insert_ne by (intros E; apply N; lia).
    rewrite decide_False by (by intros ->). rewrite decide_False; [done|].
    unfold btb_victim. case_decide; [|done]. intros E. apply N.
    destruct (btb_set_of pc b) as [|e s] eqn:Es; [done|]. injection E as <-.
    pose proof (btb_set_of_wf pc) as [_ _ Br]. rewrite Es in Br. apply Forall_inv in Br. naive_solver.
Qed.
End btb.

(** ** Predictions and feedback of a well-formed predictor *)

Lemma target_or_zero_ok a p :
  wf_btb (theBTB p) -> target_or_zero a p = Done (default 0 (theTarget <$> btb_find a (theBTB p))).
Proof. intros W. unfold target_or_zero. by rewrite btb_target_ok. Qed.

(** What a prediction for a conditional branch records. *)
Definition conditional_state (a : Z) (p : Combining) : BPredState :=
  let bimodal := bim_get a (theBimodal p) in
  let gshare := gs_get a (theShiftReg (theGShare p)) (theGShare p) in
  let meta := bim_get a (theMeta p) in
  let prediction := if ge_NotTaken meta then gshare else bimodal in
  mkBPState kConditional
    (if le_Taken prediction then default 0 (theTarget <$> btb_find a (theBTB p)) else 0)
    prediction bimodal meta gshare (theShiftReg (theGShare p)) (theSerial p).

(** The counters that a prediction increments. *)
Definition prediction_counters : list (list string) :=
  [[]; ["predictions"; "predictions:gshare"]; ["predictions"; "predictions:bimodal"];
   ["predictions"; "predictions:unconditional"]].

(** A prediction changes the serial number, the counters and, for a conditional
    branch, the shift register; the tables stay. *)
Record predicted (a : Z) (p : Combining) (st : BPredState) (p' : Combining) : Prop := {
  pr_serial : theSerial p' = u32 (theSerial p + 1);
  pr_btb : theBTB p' = theBTB p;
  pr_bimodal : theBimodal p' = theBimodal p;
  pr_meta : theMeta p' = theMeta p;
  pr_type : thePredictedType st = btb_type a (theBTB p);
  pr_conditional : btb_type a (theBTB p) = kConditional ->
    st = conditional_state a p /\
    theGShare p' = GShare.shiftIn (theGSharePrediction st) (theGShare p);
  pr_other : btb_type a (theBTB p) <> kConditional -> theGShare p' = theGShare p;
  pr_return : btb_type a (theBTB p) = kReturn ->
    theGShareShiftReg st = 0 /\ thePredictedTarget st = 0;
  pr_counters : exists ks, In ks prediction_counters /\ counters p' = incrs ks (counters p);
}.

Lemma predict_ok a p :
  wf_predictor p -> exists st p', Fast.predict a p = Done (st, p') /\ predicted a p st p'.
Proof.
  intros [Wb Wi Wm Wg]. unfold Fast.predict. rewrite btb_type_ok by done. cbn [mbind outcome_bind].
  destruct (btb_type a (theBTB p)) eqn:T; cbn [mbind outcome_bind].
  2: { unfold Fast.predictConditional, next_serial. cbn [theBimodal theMeta theGShare theBTB].
       rewrite !bim_direction_ok, gs_direction_ok by done. cbn [mbind outcome_bind].
       destruct (le_Taken _) eqn:L; cbn [mbind outcome_bind];
         [rewrite target_or_zero_ok by done; cbn [mbind outcome_bind]|];
         (do 2 eexists; split; [reflexivity|]; split; cbn; rewrite ?T; try done);
         [intros _; unfold conditional_state; by rewrite L| |
          intros _; unfold conditional_state; by rewrite L|];
         exists ["predictions"; if ge_NotTaken (bim_get a (theMeta p)) then "predictions:gshare"
                                else "predictions:bimodal"];
         (split; [destruct (ge_NotTaken _); cbn; tauto|reflexivity]). }
  2, 3: rewrite target_or_zero_ok by done; cbn [mbind outcome_bind].
  all: do 2 eexists; split; [reflexivity|]; split; cbn; rewrite ?T; try done.
  2, 3: exists ["predictions"; "predictions:unconditional"]; split; [cbn; tauto|reflexivity].
  all: exists []; cbn; tauto.
Qed.

Lemma predicted_wf a p st p' : wf_predictor p -> predicted a p st p' -> wf_predictor p'.
Proof.
  intros [Wb Wi Wm Wg] P. split; [by rewrite (pr_btb _ _ _ _ P)|by rewrite (pr_bimodal _ _ _ _ P)|
    by rewrite (pr_meta _ _ _ _ P)|].
  destruct (decide (btb_type a (theBTB p) = kConditional)) as [C|C].
  - destruct (pr_conditional _ _ _ _ P C) as [_ ->]. by apply shiftIn_wf.
  - by rewrite (pr_other _ _ _ _ P C).
Qed.

(** The update of the counters of a known conditional branch. *)
Definition trained_gshare (a : Z) (d : eDirection) (st : BPredState) (g : gShare) : gShare :=
  gs_put a (theGShareShiftReg st) (apply d (gs_get a (theGShareShiftReg st) g))
    (if eqb (ge_NotTaken (theGSharePrediction st)) (ge_NotTaken d) then g
     else GShare.shiftIn d (GShare.setShiftReg (theGShareShiftReg st) g)).

Lemma train_ok a d st p :
  wf_predictor p ->
  exists m, Fast.train a d st p =
    Done (mkCombining (theSerial p) (theBTB p)
            (bim_put a (apply d (bim_get a (theBimodal p))) (theBimodal p)) m
            (trained_gshare a d st (theGShare p)) (counters p)) /\ wf_bimodal m.
Proof.
  intros [Wb Wi Wm Wg]. unfold Fast.train, trained_gshare.
  set (g1 := if eqb _ _ then theGShare p else _).
  assert (W1 : wf_gshare g1).
  { unfold g1. destruct (eqb _ _); [done|]. by apply shiftIn_wf, setShiftReg_wf. }
  assert (G1 : forall r, gs_get a r g1 = gs_get a r (theGShare p)).
  { intros r. unfold g1. by destruct (eqb _ _). }
  set (p1 := if negb _ then _ else p).
  assert (E1 : p1 = set_gshare g1 p).
  { unfold p1, g1. destruct (eqb _ _); [|done]. by destruct p. }
  clearbody p1 g1. subst p1. cbn [theBimodal theMeta theGShare set_gshare].
  rewrite !bim_direction_ok, gs_direction_ok by done. cbn [mbind outcome_bind].
  rewrite !bim_update_ok by done. cbn [mbind outcome_bind theGShare set_bimodal].
  rewrite gs_update_ok by done. cbn [mbind outcome_bind theMeta set_gshare].
  rewrite G1. destruct (negb _); cbn [mbind outcome_bind].
  - cbn [theMeta set_bimodal set_gshare]. rewrite bim_update_ok by done.
    eexists. split; [reflexivity|]. by apply bim_put_wf.
  - eexists. split; [reflexivity|done].
Qed.

Lemma trained_gshare_wf a d st g : wf_gshare g -> wf_gshare (trained_gshare a d st g).
Proof.
  intros W. apply gs_put_wf. destruct (eqb _ _); [done|]. by apply shiftIn_wf, setShiftReg_wf.
Qed.

Lemma feedback_ok a ty d t st p :
  wf_predictor p ->
  exists p', Fast.feedback a ty d t st p = Done p' /\ wf_predictor p' /\
    theBTB p' = btb_next (theBTB p) a ty t /\
    counters p' = counters (Fast.stats ty d (u32 t) st p) /\
    theShiftRegSize (theGShare p') = theShiftRegSize (theGShare p).
Proof.
  intros [Wb Wi Wm Wg]. unfold Fast.feedback. cbn [theBTB Fast.stats set_counters].
  rewrite btb_update_ok by done. cbn [mbind outcome_bind].
  pose proof (btb_next_wf (theBTB p) Wb a ty t) as Wn.
  assert (W1 : wf_predictor (set_btb (btb_next (theBTB p) a ty t) (Fast.stats ty d (u32 t) st p))).
  { by split. }
  destruct (decide (ty = kConditional)) as [->|N].
  - case_bool_decide as New.
    + cbn [theBimodal set_btb set_counters Fast.stats]. rewrite bim_update_ok by done.
      cbn [mbind outcome_bind]. eexists. split; [reflexivity|]. split; [|done].
      split; cbn; [done|by apply bim_put_wf|done|by apply shiftIn_wf].
    + case_decide as T; [|eexists; split; [reflexivity|]; by split].
      destruct (train_ok a d st _ W1) as (m & E & Hm). rewrite E. eexists. split; [reflexivity|].
      split; [|split_and!; try done; cbn; by destruct (eqb _ _)].
      split; cbn; [done|by apply bim_put_wf|done|by apply trained_gshare_wf].
  - case_decide; [|by eexists; split; [reflexivity|]].
    case_bool_decide; cbn [negb]; (eexists; split; [reflexivity|]; split; [|done]); [done|].
    split; cbn; try done. by apply setShiftReg_wf.
Qed.
