(* ===== verification/BranchLearning.v ===== *)
(** * What the branch predictors achieve

    Theorems about BranchPredictor.v: runs of predictions and feedback never leave
    the tables, the target buffer keeps the branches used last, a branch with one
    direction is learned, the statistics add up, the two implementations agree,
    and what a checkpoint and a return do to the history. *)

From stdpp Require Import base gmap list strings fin_maps.
From Stdlib Require Import ZArith Lia.
From S2P Require Import Prelude BranchPredictor.

Local Open Scope Z_scope.

(** ** Runs *)

(** A call of the predictor.  The state handed to [feedback] is any state. *)
Inductive bp_call : Type :=
  | CallPredict (anAddress : Z)
  | CallFeedback (anAddress : Z) (ty : eBranchType) (d : eDirection) (target : Z) (st : BPredState).

Definition fast_call (p : Combining) (c : bp_call) : outcome Combining :=
  match c with
  | CallPredict a => '(_, p) ← Fast.predict a p; Done p
  | CallFeedback a ty d t st => Fast.feedback a ty d t st p
  end.

Definition comb_call (p : Combining) (c : bp_call) : outcome Combining :=
  match c with
  | CallPredict a => '(_, p) ← Comb.predict a p; Done p
  | CallFeedback a ty d t st => Comb.feedback (mkFeedback a ty d t (Some st)) p
  end.

Fixpoint run_calls {P C} (step : P -> C -> outcome P) (cs : list C) (p : P) : outcome P :=
  match cs with
  | [] => Done p
  | c :: cs => p ← step p c; run_calls step cs p
  end.

Lemma run_calls_app {P C} (step : P -> C -> outcome P) cs cs' p :
  run_calls step (cs ++ cs') p = (p ← run_calls step cs p; run_calls step cs' p).
Proof.
  revert p. induction cs as [|c cs IH]; intros p; [done|]. cbn.
  destruct (step p c) as [p'|]; cbn; [apply IH|done].
Qed.

(** A property that every call keeps is kept by a run, and the run ends. *)
Lemma run_calls_inv {P C} (step : P -> C -> outcome P) (I : P -> Prop) cs p :
  (forall p c, I p -> exists p', step p c = Done p' /\ I p') ->
  I p -> exists p', run_calls step cs p = Done p' /\ I p'.
Proof.
  intros Hs. revert p. induction cs as [|c cs IH]; intros p H; [by exists p|].
  destruct (Hs p c H) as (p1 & E & H1). cbn. rewrite E. by apply IH.
Qed.

Lemma fast_call_wf p c : wf_predictor p -> exists p', fast_call p c = Done p' /\ wf_predictor p'.
Proof.
  intros W. destruct c as [a|a ty d t st]; cbn.
  - destruct (predict_ok a p W) as (st & p' & E & P). rewrite E. exists p'. split; [done|].
    by eapply predicted_wf.
  - destruct (feedback_ok a ty d t st p W) as (p' & E & W' & _). eauto.
Qed.

(** ** The two implementations *)

Lemma comb_predict_eq a p : Comb.predict a p = Fast.predict a p.
Proof.
  unfold Comb.predict, Fast.predict, Comb.predictConditional, Fast.predictConditional.
  destruct (Btb.type a (theBTB p)) as [ty|]; [|done]. cbn [mbind outcome_bind].
  destruct ty; try done. cbn [theBimodal theMeta theGShare next_serial].
  destruct (Bim.direction a (theBimodal p)) as [b|]; [|done].
  destruct (GShare.direction _ _ _) as [g|]; [|done].
  destruct (Bim.direction a (theMeta p)) as [m|]; [|done].
  cbn [mbind outcome_bind]. destruct (ge_NotTaken m); cbn [mbind outcome_bind];
    destruct (le_Taken _); try done; by destruct (target_or_zero _ _).
Qed.

Lemma comb_train_eq f st p : Comb.train f st p = Fast.train (fb_PC f) (theActualDirection f) st p.
Proof.
  unfold Comb.train, Fast.train. set (p1 := if negb _ then _ else p). clearbody p1.
  destruct (Bim.direction _ (theBimodal p1)) as [b|]; [|done].
  destruct (GShare.direction _ _ _) as [g|]; [|done].
  destruct (Bim.direction _ (theMeta p1)) as [m|]; [|done]. cbn [mbind outcome_bind].
  by destruct (Bim.update _ _ (theBimodal p1)).
Qed.

Lemma comb_resolution_eq f st :
  theBPState f = Some st -> 0 <= theActualTarget f < 2 ^ 32 -> 0 <= thePredictedTarget st < 2 ^ 32 ->
  Comb.resolution f =
    Fast.resolution (theActualType f) (theActualDirection f) (u32 (theActualTarget f)) st.
Proof.
  intros E H1 H2. unfold Comb.resolution, Fast.resolution, u32. rewrite E, !Z.mod_small by done. done.
Qed.

(** C31 (equivalence): the predictors of the timing and of the trace simulator
    predict alike, and learn alike from feedback that carries the state of its
    prediction, when a branch of some type was predicted (not kNonBranch) and the
    actual and the predicted target are 32-bit addresses: the same tables, history
    and statistics, and the same assertions.  Without these conditions they differ:
    see [nonbranch_feedback_differs]. *)
Theorem combining_impls_agree (f : BranchFeedback) (st : BPredState) (p : Combining) (a : Z) :
  theBPState f = Some st -> thePredictedType st <> kNonBranch ->
  0 <= theActualTarget f < 2 ^ 32 -> 0 <= thePredictedTarget st < 2 ^ 32 ->
  Comb.predict a p = Fast.predict a p /\
  Comb.feedback f p =
    Fast.feedback (fb_PC f) (theActualType f) (theActualDirection f) (theActualTarget f) st p.
Proof.
  intros E N H1 H2. split; [apply comb_predict_eq|].
  unfold Comb.feedback, Fast.feedback, Comb.stats, Fast.stats.
  rewrite (comb_resolution_eq f st), E by done. cbn [theBTB set_counters].
  change (Comb.retired (theActualType f)) with (Fast.retired (theActualType f)).
  destruct (Btb.update _ _ _ _) as [[n b]|]; [|done]. cbn [mbind outcome_bind].
  destruct (decide (theActualType f = kConditional)).
  - destruct n; [done|]. rewrite comb_train_eq. by rewrite decide_True.
  - repeat case_decide; naive_solver.
Qed.

(** For feedback whose prediction was that there is no branch, at an address that
    the target buffer has come to know in between, the predictor of the timing
    simulator takes the recorded history back and that of the trace simulator does
    not. *)
Theorem nonbranch_feedback_differs (f : BranchFeedback) (st : BPredState) (p : Combining) (b : BTB) :
  theBPState f = Some st -> thePredictedType st = kNonBranch -> theActualType f <> kConditional ->
  thePredictedTarget st <> theActualTarget f ->
  Btb.update (fb_PC f) (theActualType f) (theActualTarget f) (theBTB p) = Done (false, b) ->
  exists q q', Comb.feedback f p = Done q /\
    Fast.feedback (fb_PC f) (theActualType f) (theActualDirection f) (theActualTarget f) st p = Done q' /\
    theGShare q = GShare.setShiftReg (theGShareShiftReg st) (theGShare p) /\ theGShare q' = theGShare p.
Proof.
  intros E N C T U. unfold Comb.feedback, Fast.feedback, Comb.stats, Fast.stats. cbn [theBTB set_counters].
  rewrite U. cbn [mbind outcome_bind]. rewrite !decide_False by done. rewrite E, decide_True by done.
  rewrite decide_False by (by intros [? _]). cbn [negb]. eexists. eexists. by split_and!.
Qed.

Definition sample_state : BPredState :=
  mkBPState kConditional 64 kTaken kTaken kTaken kNotTaken 5 0.
Definition sample_feedback : BranchFeedback :=
  mkFeedback 128 kConditional kNotTaken 0 (Some sample_state).
Definition small_predictor : outcome Combining := newCombining 2 2 4 4 3.

Lemma combining_impls_agree_witness :
  exists p, small_predictor = Done p /\
    Comb.feedback sample_feedback p = Fast.feedback 128 kConditional kNotTaken 0 sample_state p.
Proof.
  eexists. split; [vm_compute; reflexivity|].
  apply (combining_impls_agree sample_feedback sample_state _ 0); cbn; [done|done|lia|lia].
Defined.

(** ** Runs never leave the tables *)

Lemma comb_call_wf p c : wf_predictor p -> exists p', comb_call p c = Done p' /\ wf_predictor p'.
Proof.
  intros W. destruct c as [a|a ty d t st]; cbn.
  - rewrite comb_predict_eq. by apply (fast_call_wf p (CallPredict a)).
  - unfold Comb.feedback. cbn [theBTB Comb.stats set_counters fb_PC theActualType theActualTarget
      theActualDirection theBPState].
    destruct W as [Wb Wi Wm Wg]. rewrite btb_update_ok by done. cbn [mbind outcome_bind].
    pose proof (btb_next_wf (theBTB p) Wb a ty t) as Wn.
    destruct (decide (ty = kConditional)) as [->|N].
    + case_bool_decide.
      * cbn [theBimodal set_btb set_counters Comb.stats]. rewrite bim_update_ok by done.
        eexists. split; [reflexivity|].
        split; cbn; [done|by apply bim_put_wf|done|by apply shiftIn_wf].
      * rewrite comb_train_eq. cbn [fb_PC theActualDirection].
        match goal with |- context [Fast.train a d st ?q] =>
          destruct (train_ok a d st q) as (m & E & Hm); [by split|] end.
        rewrite E. eexists. split; [reflexivity|].
        split; cbn; [done|by apply bim_put_wf|done|by apply trained_gshare_wf].
    + case_decide; [|by eexists].
      case_bool_decide; cbn [negb]; (eexists; split; [reflexivity|]); [done|].
      split; cbn; try done. by apply setShiftReg_wf.
Qed.

Lemma bimodal_create_wf n b : 0 < n -> Bim.create n = Done b -> wf_bimodal b.
Proof.
  unfold Bim.create. intros Hn E. destruct (_ =? _); simplify_eq.
  split; cbn; rewrite ?alternating_length; lia.
Qed.

Lemma gshare_create_wf n : 1 <= n < 32 -> wf_gshare (GShare.create n).
Proof.
  intros Hn. unfold GShare.create. rewrite Z.shiftl_1_l. pose proof (Z.pow_pos_nonneg 2 n).
  split; cbn; rewrite ?alternating_length; lia.
Qed.

Lemma btb_create_wf n k b : 0 < n -> 0 < k -> Btb.create n k = Done b -> wf_btb b.
Proof.
  unfold Btb.create. intros Hn Hk E. destruct (_ =? _); simplify_eq.
  split; cbn; rewrite ?length_replicate; try lia.
  intros i s Hs. apply lookup_replicate in Hs as [-> _]. split; cbn; [constructor|lia|done].
Qed.

Lemma create_wf bs ba ms me gs p :
  0 < bs -> 0 < ba -> 0 < ms -> 0 < me -> 1 <= gs < 32 ->
  newCombining bs ba ms me gs = Done p -> wf_predictor p.
Proof.
  intros H1 H2 H3 H4 H5 E. unfold newCombining in E.
  destruct (Btb.create bs ba) as [b|] eqn:Eb; [|done].
  destruct (Bim.create ms) as [i|] eqn:Ei; [|done].
  destruct (Bim.create me) as [m|] eqn:Em; [|done]. cbn in E. simplify_eq. split; cbn.
  - eapply btb_create_wf; [..|exact Eb]; done.
  - eapply bimodal_create_wf; [|exact Ei]; done.
  - eapply bimodal_create_wf; [|exact Em]; done.
  - by apply gshare_create_wf.
Qed.

(** A predictor whose table sizes are powers of two starts. *)
Lemma predictor_starts bs ba ms me gs :
  Z.land (bs - 1) bs = 0 -> Z.land (ms - 1) ms = 0 -> Z.land (me - 1) me = 0 ->
  exists p, newCombining bs ba ms me gs = Done p.
Proof.
  intros H1 H2 H3. unfold newCombining, Btb.create, Bim.create. rewrite H1, H2, H3. cbn. eauto.
Qed.

Lemma create_counters bs ba ms me gs p : newCombining bs ba ms me gs = Done p -> counters p = ∅.
Proof.
  unfold newCombining. destruct (Btb.create bs ba), (Bim.create ms), (Bim.create me); cbn; naive_solver.
Qed.

(** C32 (safety): both predictors start, and serve every sequence of predictions
    and feedback, whatever states come back with the feedback, with every table
    access in range: the sets of the target buffer stay within their
    associativity, without duplicates and with every branch in its own set, and
    the history register stays within the pattern mask. *)
Theorem predictor_runs_safe (cs : list bp_call) :
  (exists p0 p, FastCombiningImpl = Done p0 /\ run_calls fast_call cs p0 = Done p /\ wf_predictor p) /\
  (exists p0 p, CombiningImpl = Done p0 /\ run_calls comb_call cs p0 = Done p /\ wf_predictor p).
Proof.
  assert (S1 : exists p0, FastCombiningImpl = Done p0) by (by apply predictor_starts).
  assert (S2 : exists p0, CombiningImpl = Done p0) by (by apply predictor_starts).
  split; [destruct S1 as [p0 E]|destruct S2 as [p0 E]];
    (assert (W : wf_predictor p0) by (eapply create_wf; [..|exact E]; lia)).
  - destruct (run_calls_inv fast_call wf_predictor cs p0 fast_call_wf W) as (p & R & Wp). eauto.
  - destruct (run_calls_inv comb_call wf_predictor cs p0 comb_call_wf W) as (p & R & Wp). eauto.
Qed.

(** ** Statistics *)

(** How often a name occurs among the counters to increment. *)
Definition tally (k : string) (ks : list string) : Z :=
  Z.of_nat (length (filter (fun j => j = k) ks)).

Lemma counter_incrs k ks c : counter k (incrs ks c) = counter k c + tally k ks.
Proof.
  unfold tally. induction ks as [|j ks IH]; [cbn; lia|].
  change (incrs (j :: ks) c) with (incr j (incrs ks c)). rewrite filter_cons.
  unfold incr, counter at 1. case_decide as E.
  - subst j. rewrite lookup_insert_eq. cbn -[Z.of_nat]. rewrite IH. lia.
  - rewrite lookup_insert_ne by done. exact IH.
Qed.

(** The total of each kind is the sum of its parts, under any count [f]. *)
Definition balanced (f : string -> Z) : Prop :=
  f "predictions" = f "predictions:bimodal" + f "predictions:gshare" + f "predictions:unconditional" /\
  f "correct" = f "correct:bimodal" + f "correct:gshare" + f "correct:unconditional" /\
  f "mispredict" = f "mispredict:new" + f "mispredict:direction" + f "mispredict:meta"
                   + f "mispredict:target" /\
  f "mispredict:meta" = f "mispredict:meta:chose_gshare" + f "mispredict:meta:chose_bimod" /\
  f "branches" = f "branches:conditional" + f "branches:unconditional" + f "branches:call"
                 + f "branches:return".

Lemma balanced_incrs ks c :
  balanced (fun k => tally k ks) -> balanced (fun k => counter k c) ->
  balanced (fun k => counter k (incrs ks c)).
Proof. unfold balanced. rewrite !counter_incrs. lia. Qed.

(** The eight sets of counters that a resolved branch increments. *)
Definition resolutions : list (list string) :=
  [["mispredict"; "mispredict:new"]; ["mispredict"; "mispredict:target"];
   ["mispredict"; "mispredict:direction"];
   ["mispredict"; "mispredict:meta"; "mispredict:meta:chose_gshare"];
   ["mispredict"; "mispredict:meta"; "mispredict:meta:chose_bimod"];
   ["correct"; "correct:gshare"]; ["correct"; "correct:bimodal"];
   ["correct"; "correct:unconditional"]].

Lemma resolution_in ty d t st : In (Fast.resolution ty d t st) resolutions.
Proof.
  unfold Fast.resolution. repeat case_decide; cbn zeta;
    repeat match goal with |- context [if ?b then _ else _] => destruct b end; cbn; tauto.
Qed.

(** One feedback is one correct or one wrong prediction. *)
Lemma resolution_balanced ty d t st :
  balanced (fun k => tally k (Fast.resolution ty d t st)) /\
  tally "correct" (Fast.resolution ty d t st) + tally "mispredict" (Fast.resolution ty d t st) = 1.
Proof.
  pose proof (resolution_in ty d t st) as I. revert I. generalize (Fast.resolution ty d t st).
  intros ks I. cbn [In resolutions] in I.
  repeat destruct I as [<-|I]; try done; vm_compute; split_and!; reflexivity.
Qed.

Lemma retired_balanced ty :
  balanced (fun k => tally k (Fast.retired ty)) /\
  tally "correct" (Fast.retired ty) + tally "mispredict" (Fast.retired ty) = 0.
Proof. destruct ty; by vm_compute. Qed.

Lemma prediction_balanced ks :
  In ks prediction_counters ->
  balanced (fun k => tally k ks) /\ tally "correct" ks + tally "mispredict" ks = 0.
Proof.
  intros I. cbn [In prediction_counters] in I.
  repeat destruct I as [<-|I]; try done; vm_compute; split_and!; reflexivity.
Qed.

Definition is_feedback (c : bp_call) : bool :=
  match c with CallFeedback _ _ _ _ _ => true | CallPredict _ => false end.
Definition resolved (c : gmap string Z) : Z := counter "correct" c + counter "mispredict" c.

(** What a call adds to the statistics. *)
Lemma fast_call_counts p c p' :
  wf_predictor p -> balanced (fun k => counter k (counters p)) -> fast_call p c = Done p' ->
  balanced (fun k => counter k (counters p')) /\
  resolved (counters p') = resolved (counters p) + Z.b2z (is_feedback c).
Proof.
  intros W B E. unfold resolved. destruct c as [a|a ty d t st]; cbn in *.
  - destruct (predict_ok a p W) as (st & q & Ep & P). rewrite Ep in E. cbn in E. simplify_eq.
    destruct (pr_counters _ _ _ _ P) as (ks & I & ->).
    destruct (prediction_balanced ks I) as [Bk Tk].
    split; [by apply balanced_incrs|]. rewrite !counter_incrs. lia.
  - destruct (feedback_ok a ty d t st p W) as (q & Eq & _ & _ & C & _). rewrite Eq in E. simplify_eq.
    rewrite C. cbn [counters Fast.stats set_counters].
    destruct (resolution_balanced ty d (u32 t) st) as [Br Tr].
    destruct (retired_balanced ty) as [Be Te].
    split; [by repeat apply balanced_incrs|]. rewrite !counter_incrs. lia.
Qed.

(** After any run the predictor's counters add up: predictions
    by chooser, correct and wrong predictions by reason, branches by type; and
    every feedback is counted once, as correct or as mispredicted. *)
Theorem statistics_add_up (cs : list bp_call) (p0 p : Combining) :
  FastCombiningImpl = Done p0 -> run_calls fast_call cs p0 = Done p ->
  balanced (fun k => counter k (counters p)) /\
  resolved (counters p) = Z.of_nat (length (filter (fun c => is_feedback c = true) cs)).
Proof.
  intros E0.
  assert (W : wf_predictor p0) by (eapply create_wf; [..|exact E0]; lia).
  assert (C0 : counters p0 = ∅) by (by eapply create_counters).
  assert (B : balanced (fun k => counter k (counters p0))) by (by rewrite C0).
  enough (H : forall n, resolved (counters p0) = n -> run_calls fast_call cs p0 = Done p ->
    balanced (fun k => counter k (counters p)) /\
    resolved (counters p) = n + Z.of_nat (length (filter (fun c => is_feedback c = true) cs))).
  { intros R. apply (H 0); [by rewrite C0|done]. }
  clear E0 C0. revert p0 W B. induction cs as [|c cs IH]; intros p0 W B n <- R; cbn in R.
  - simplify_eq. split; [done|]. cbn. lia.
  - destruct (fast_call_wf p0 c W) as (q & E & Wq). rewrite E in R. cbn in R.
    destruct (fast_call_counts p0 c q W B E) as [Bq Rq].
    destruct (IH q Wq Bq _ eq_refl R) as [Bp Rp]. split; [done|].
    rewrite Rp, Rq, filter_cons. case_decide as F; rewrite ?F; cbn [length]; [cbn; lia|].
    destruct (is_feedback c); [done|cbn; lia].
Qed.

(** A feedback without a prediction, and the prediction that follows. *)
Definition sample_calls : list bp_call :=
  [CallFeedback 128 kConditional kTaken 64 sample_state; CallPredict 128].

Lemma statistics_add_up_witness :
  exists p0 p, FastCombiningImpl = Done p0 /\ run_calls fast_call sample_calls p0 = Done p /\
    resolved (counters p) = 1.
Proof.
  destruct (predictor_starts 1024 16 32768 8192 13) as [p0 E0]; [reflexivity..|].
  assert (W : wf_predictor p0) by (eapply create_wf; [..|exact E0]; lia).
  destruct (run_calls_inv fast_call wf_predictor sample_calls p0 fast_call_wf W) as (p & R & _).
  exists p0, p. split; [exact E0|]. split; [exact R|].
  exact (proj2 (statistics_add_up sample_calls p0 p E0 R)).
Defined.

(** ** Retention in the target buffer *)

Definition btb_call : Type := Z * eBranchType * Z.
Definition btb_step (b : BTB) (u : btb_call) : outcome BTB :=
  let '(pc, ty, t) := u in '(_, b) ← Btb.update pc ty t b; Done b.

(** The branches of [pc]'s set among the updates [us]. *)
Definition rivals (b : BTB) (pc : Z) (us : list btb_call) : gset Z :=
  list_to_set (filter (fun a => Btb.index a b = Btb.index pc b) ((fun u => fst (fst u)) <$> us)).

(** [e] is in the set, and behind it are only branches of [D]. *)
Definition kept_behind (e : BTBEntry) (D : gset Z) (s : btb_set_t) : Prop :=
  exists l1 l2, s = l1 ++ e :: l2 /\ forall x, x ∈ l2 -> thePC x ∈ D.

Lemma btb_step_ok b u :
  wf_btb b -> btb_step b u = Done (btb_next b (fst (fst u)) (snd (fst u)) (snd u)).
Proof. intros W. destruct u as [[pc ty] t]. cbn. by rewrite btb_update_ok. Qed.

Lemma erase_pc_split pc l1 e l2 :
  thePC e <> pc -> erase_pc pc (l1 ++ e :: l2) = erase_pc pc l1 ++ e :: erase_pc pc l2.
Proof. intros N. unfold erase_pc. by rewrite filter_app, filter_cons, decide_True. Qed.

Lemma erase_pc_subseteq pc l x : x ∈ erase_pc pc l -> x ∈ l.
Proof. intros H. by apply list_elem_of_filter in H as [_ ?]. Qed.

(** Distinct branches of [D], and one more, are at most as many as [D] with it. *)
Lemma rivals_bound (pc : Z) (D : gset Z) (l : btb_set_t) :
  NoDup (thePC <$> l) -> pc ∉ thePC <$> l -> (forall x, x ∈ l -> thePC x ∈ D) ->
  (S (length l) <= size ({[pc]} ∪ D))%nat.
Proof.
  intros ND N H. rewrite <-(length_fmap thePC l).
  change (S (length (thePC <$> l))) with (length (pc :: (thePC <$> l))).
  rewrite <-(size_list_to_set (C := gset Z) (pc :: (thePC <$> l))) by (by constructor).
  apply subseteq_size. intros a. rewrite elem_of_list_to_set, elem_of_cons, list_elem_of_fmap.
  intros [->|(x & -> & Hx%H)]; set_solver.
Qed.

(** An update of another branch keeps [e] in the set as long as the set has room
    for all the rivals. *)
Lemma update_set_keeps e (D : gset Z) pc ty t assoc s :
  kept_behind e D s -> NoDup (thePC <$> s) -> Z.of_nat (length s) <= assoc ->
  thePC e <> pc -> Z.of_nat (size ({[pc]} ∪ D)) < assoc ->
  kept_behind e ({[pc]} ∪ D) (Btb.update_set pc ty t assoc s).2.
Proof.
  intros (l1 & l2 & -> & H) ND L N B. unfold Btb.update_set, push_back_entry. cbn [thePC].
  destruct (find_pc pc (l1 ++ e :: l2)) as [e'|] eqn:F.
  - apply find_by_Some in F as [_ F]. destruct (decide (ty = kNonBranch)); cbn [snd]; rewrite erase_pc_split by done.
    + exists (erase_pc pc l1), (erase_pc pc l2). split; [done|].
      intros x Hx%erase_pc_subseteq. apply H in Hx. set_solver.
    + exists (erase_pc pc l1), (erase_pc pc l2 ++ [mkBTBEntry (thePC e') ty (if t =? 0 then theTarget e' else t)]).
      split; [by rewrite <-app_assoc|]. intros x [Hx%erase_pc_subseteq|Hx]%elem_of_app.
      * apply H in Hx. set_solver.
      * apply list_elem_of_singleton in Hx as ->. cbn. rewrite F. set_solver.
  - destruct (decide (ty = kNonBranch)); cbn [snd].
    { exists l1, l2. split; [done|]. intros x Hx%H. set_solver. }
    assert (Hn : forall l, sublist l (l1 ++ e :: l2) -> find_pc pc l = None).
    { intros l Hl. apply find_by_None. apply find_by_None in F. intros I. apply F.
      eapply elem_of_sublist; [done|]. by apply fmap_sublist. }
    assert (Hd : forall x, x ∈ l2 ++ [mkBTBEntry pc ty t] -> thePC x ∈ ({[pc]} ∪ D : gset Z)).
    { intros x [Hx%H|Hx]%elem_of_app; [set_solver|]. apply list_elem_of_singleton in Hx as ->. set_solver. }
    destruct (Z.leb_spec assoc (Z.of_nat (length (l1 ++ e :: l2)))) as [Full|_].
    + destruct l1 as [|e1 l1].
      * (* the set is full of [e] and rivals: too many of them *)
        exfalso. cbn [app fmap list_fmap] in *. apply NoDup_cons in ND as [_ ND].
        apply find_by_None in F. pose proof (rivals_bound pc D l2 ND) as R.
        cbn [length] in Full. enough (S (length l2) <= size ({[pc]} ∪ D))%nat by lia.
        apply R; [set_solver|done].
      * cbn [tail app]. rewrite Hn by (cbn; by apply sublist_cons).
        exists l1, (l2 ++ [mkBTBEntry pc ty t]). split; [by rewrite <-app_assoc|done].
    + rewrite Hn by done. exists l1, (l2 ++ [mkBTBEntry pc ty t]). split; [by rewrite <-app_assoc|done].
Qed.

Lemma rivals_cons b pc u us : rivals b pc (u :: us) = rivals b pc [u] ∪ rivals b pc us.
Proof.
  unfold rivals. rewrite !fmap_cons, (fmap_nil _), !filter_cons, (filter_nil _). case_decide; cbn;
    by rewrite ?(right_id_L ∅ (∪)), ?(left_id_L ∅ (∪)).
Qed.

(** The rest of the run, from a buffer where [e] has only [D] behind it. *)
Lemma run_keeps e us : forall (D : gset Z) b,
  wf_btb b -> kept_behind e D (btb_set_of (thePC e) b) ->
  Forall (fun u => fst (fst u) <> thePC e) us ->
  Z.of_nat (size (rivals b (thePC e) us ∪ D)) < theBTBAssoc b ->
  exists b', run_calls btb_step us b = Done b' /\ wf_btb b' /\ btb_find (thePC e) b' = Some e.
Proof.
  induction us as [|[[pc ty] t] us IH]; intros D b W K N B.
  - exists b. split; [done|]. split; [done|]. destruct K as (l1 & l2 & E & _).
    apply find_by_elem; [apply btb_set_of_wf, W| |done]. rewrite E. set_solver.
  - apply Forall_cons in N as [Ne N]. cbn [fst snd] in Ne. cbn [run_calls].
    rewrite btb_step_ok by done. cbn [mbind outcome_bind fst snd].
    pose proof (btb_index_in b W pc) as I.
    set (D' := rivals b (thePC e) [(pc, ty, t)] ∪ D).
    assert (Bs : Z.of_nat (size (rivals b (thePC e) us ∪ D')) < theBTBAssoc b).
    { eapply Z.le_lt_trans; [|exact B]. apply inj_le, subseteq_size.
      rewrite (rivals_cons _ _ _ us). unfold D'. set_solver. }
    apply (IH D'); [by apply btb_next_wf| |done|done].
    unfold btb_set_of, btb_next, btb_put, Btb.index at 1. cbn [btb_vector btb_IndexMask].
    fold (Btb.index (thePC e) b). destruct (decide (Btb.index pc b = Btb.index (thePC e) b)) as [Ei|Ei].
    + rewrite <-Ei, list_lookup_insert_eq by lia. cbn [default from_option id].
      assert (Eset : btb_set_of pc b = btb_set_of (thePC e) b) by (unfold btb_set_of; by rewrite Ei).
      assert (ED : D' = {[pc]} ∪ D).
      { unfold D', rivals. rewrite fmap_cons, filter_cons, decide_True by done. cbn.
        by rewrite (right_id_L ∅ (∪)). }
      rewrite ED in *. rewrite Eset. destruct (btb_set_of_wf b W (thePC e)).
      apply update_set_keeps; try done.
      eapply Z.le_lt_trans; [|exact Bs]. apply inj_le, subseteq_size. set_solver.
    + rewrite list_lookup_insert_ne by (pose proof (btb_index_in b W (thePC e)); lia).
      destruct K as (l1 & l2 & E & H). exists l1, l2. split; [exact E|].
      intros x Hx%H. set_solver.
Qed.

(** A branch that is updated is the last of its set. *)
Lemma update_set_last pc ty t assoc s :
  ty <> kNonBranch ->
  exists l1, (Btb.update_set pc ty t assoc s).2 =
    l1 ++ [mkBTBEntry pc ty (match find_pc pc s with
                             | Some e => if t =? 0 then theTarget e else t
                             | None => t
                             end)].
Proof.
  intros T. unfold Btb.update_set, push_back_entry. cbn [thePC].
  destruct (find_pc pc s) as [e|] eqn:F; rewrite decide_False by done; cbn [snd].
  - apply find_by_Some in F as [_ ->]. eauto.
  - apply find_by_None in F. destruct (find_pc pc _) as [e|] eqn:F'; [|eauto].
    apply find_by_Some in F' as [I E]. exfalso. apply F. apply list_elem_of_fmap. exists e.
    split; [done|]. destruct (assoc <=? _); [|done]. destruct s; [done|]. by apply list_elem_of_further.
Qed.

(** Once updated, a branch stays in the target buffer with its
    type and target for as long as the updates of other branches that follow name
    fewer different branches of its set than the set has ways. *)
Theorem btb_retains (b : BTB) (pc : Z) (ty : eBranchType) (t : Z) (us : list btb_call) :
  wf_btb b -> ty <> kNonBranch ->
  Forall (fun u => fst (fst u) <> pc) us ->
  Z.of_nat (size (rivals b pc us)) < theBTBAssoc b ->
  exists b', run_calls btb_step ((pc, ty, t) :: us) b = Done b' /\ wf_btb b' /\
    btb_find pc b' = btb_entry pc ty t (btb_find pc b).
Proof.
  intros W T N B. cbn [run_calls]. rewrite btb_step_ok by done. cbn [mbind outcome_bind fst snd].
  pose proof (btb_next_wf b W pc ty t) as W1. pose proof (btb_next_find b W pc ty t pc) as F.
  rewrite decide_True in F by done. unfold btb_entry in *. rewrite decide_False in * by done.
  set (e := mkBTBEntry pc ty _) in *. change pc with (thePC e).
  apply (run_keeps e us ∅); [done| |done|by rewrite (right_id_L ∅ (∪))].
  pose proof (btb_index_in b W pc) as I.
  unfold btb_set_of, btb_next, btb_put, Btb.index at 1. cbn [btb_vector btb_IndexMask thePC e].
  fold (Btb.index pc b). rewrite list_lookup_insert_eq by lia. cbn [default from_option id].
  destruct (update_set_last pc ty t (theBTBAssoc b) (btb_set_of pc b)) as [l1 ->]; [done|].
  exists l1, []. split; [done|]. intros x Hx. by apply not_elem_of_nil in Hx.
Qed.

Definition sample_btb : BTB := mkBTB [[]; []] 2 2 1.

Lemma btb_retains_witness :
  exists b', run_calls btb_step [(8, kCall, 64); (16, kReturn, 32)] sample_btb = Done b' /\
    btb_find 8 b' = Some (mkBTBEntry 8 kCall 64).
Proof.
  destruct (btb_retains sample_btb 8 kCall 64 [(16, kReturn, 32)]) as (b' & R & _ & F).
  - apply (btb_create_wf 2 2); [lia|lia|reflexivity].
  - discriminate.
  - repeat constructor; discriminate.
  - reflexivity.
  - exists b'. split; [exact R|exact F].
Defined.

(** ** A branch with one direction is learned *)

Section steady.
Context (a t : Z) (taken : bool).
Hypothesis (Ht : t <> 0).

Definition the_direction : eDirection := if taken then kTaken else kNotTaken.

(** The branch is fetched and resolved, as the warming component does it: the
    target of a branch that is not taken is 0. *)
Definition round (p : Combining) : outcome Combining :=
  '(st, p) ← Fast.predict a p;
  Fast.feedback a kConditional the_direction (if taken then t else 0) st p.

Fixpoint rounds (n : nat) (p : Combining) : outcome Combining :=
  match n with
  | O => Done p
  | S n => p ← rounds n p; round p
  end.

(** The buffer knows the branch. *)
Record known (p : Combining) : Prop := {
  kn_wf : wf_predictor p;
  kn_entry : exists e, btb_find a (theBTB p) = Some e /\ theBranchType e = kConditional /\
    (taken = true -> theTarget e = t);
}.

Lemma known_type p : known p -> btb_type a (theBTB p) = kConditional.
Proof using. intros [_ (e & F & T & _)]. unfold btb_type. by rewrite F. Qed.

(** What one round does to the counters and the history of a known branch. *)
Record learned (p p' : Combining) : Prop := {
  le_bimodal : bim_get a (theBimodal p') = apply the_direction (bim_get a (theBimodal p));
  le_size : theShiftRegSize (theGShare p') = theShiftRegSize (theGShare p);
  le_reg : theShiftReg (theGShare p') =
    (2 * theShiftReg (theGShare p) + Z.b2z (ge_NotTaken the_direction))
      mod 2 ^ theShiftRegSize (theGShare p);
  le_gshare : gs_get a (theShiftReg (theGShare p)) (theGShare p') =
    apply the_direction (gs_get a (theShiftReg (theGShare p)) (theGShare p));
}.

Lemma round_wf p :
  wf_predictor p -> exists p', round p = Done p' /\ known p' /\
    theShiftRegSize (theGShare p') = theShiftRegSize (theGShare p).
Proof using Ht.
  intros W. unfold round. destruct (predict_ok a p W) as (st & p1 & E & P). rewrite E.
  cbn [mbind outcome_bind]. pose proof (predicted_wf _ _ _ _ W P) as W1.
  destruct (feedback_ok a kConditional the_direction (if taken then t else 0) st p1 W1)
    as (p' & E' & W' & B & _ & Sz).
  exists p'. split; [exact E'|]. split.
  2: { rewrite Sz. destruct (decide (btb_type a (theBTB p) = kConditional)) as [C|C].
       - by destruct (pr_conditional _ _ _ _ P C) as [_ ->].
       - by rewrite (pr_other _ _ _ _ P C). }
  split; [done|]. rewrite B, btb_next_find by apply W1.
  rewrite decide_True by done. unfold btb_entry. rewrite decide_False by done.
  eexists. split; [reflexivity|]. split; [done|]. cbn. intros ->.
  destruct (btb_find a _); [|done]. by rewrite (proj2 (Z.eqb_neq t 0)).
Qed.

(** After the feedback the history holds the actual direction, whether the
    prediction that was shifted in was right or wrong. *)
Lemma trained_history st g :
  wf_gshare g -> theGShareShiftReg st = theShiftReg g ->
  let g' := trained_gshare a the_direction st (GShare.shiftIn (theGSharePrediction st) g) in
  theShiftReg g' = theShiftReg (GShare.shiftIn the_direction g) /\
  theShiftRegSize g' = theShiftRegSize g /\
  gs_get a (theShiftReg g) g' = apply the_direction (gs_get a (theShiftReg g) g).
Proof using.
  intros W R. unfold trained_gshare. rewrite R.
  set (g1 := GShare.shiftIn (theGSharePrediction st) g).
  assert (W1 : wf_gshare g1) by (by apply shiftIn_wf).
  set (g2 := if eqb _ _ then g1 else _).
  assert (W2 : wf_gshare g2).
  { unfold g2. destruct (eqb _ _); [done|]. by apply shiftIn_wf, setShiftReg_wf. }
  assert (E2 : g2 = GShare.shiftIn the_direction g).
  { unfold g2, g1. destruct (eqb _ _) eqn:Eq.
    - apply shiftIn_same. by apply eqb_prop.
    - transitivity (GShare.shiftIn the_direction (GShare.setShiftReg (theShiftReg g) g)).
      + by destruct g.
      + by rewrite setShiftReg_own. }
  cbn zeta. split; [by rewrite <-E2|]. split; [by rewrite E2|].
  rewrite gs_get_put by done. f_equal.
Qed.

Lemma round_known p : known p -> exists p', round p = Done p' /\ known p' /\ learned p p'.
Proof using Ht.
  intros K. destruct (round_wf p (kn_wf _ K)) as (p' & E & K' & _). exists p'. split; [done|].
  split; [done|]. unfold round in E. pose proof (kn_wf _ K) as W. pose proof (known_type _ K) as T.
  destruct (predict_ok a p W) as (st & p1 & E1 & P). rewrite E1 in E. cbn [mbind outcome_bind] in E.
  destruct (pr_conditional _ _ _ _ P T) as [Est Eg]. pose proof (predicted_wf _ _ _ _ W P) as W1.
  unfold Fast.feedback in E. cbn [theBTB Fast.stats set_counters] in E.
  rewrite btb_update_ok in E by apply W1. cbn [mbind outcome_bind] in E.
  rewrite decide_True in E by done. rewrite bool_decide_false in E.
  2: { rewrite (pr_btb _ _ _ _ P). destruct (kn_entry _ K) as (e & F & _). rewrite F. by intros [_ ?]. }
  rewrite decide_True in E by (rewrite (pr_type _ _ _ _ P), T; done).
  match type of E with Fast.train _ _ _ ?q = _ =>
    destruct (train_ok a the_direction st q) as (m & Em & _) end.
  { split; cbn; try apply W1. by apply btb_next_wf, W1. }
  rewrite Em in E. cbn in E. injection E as <-. cbn.
  destruct (trained_history st (theGShare p) (wf_p_gshare _ W)) as (H1 & H2 & H3); [by rewrite Est|].
  rewrite Eg, (pr_bimodal _ _ _ _ P). split; cbn.
  - apply bim_get_put, W.
  - exact H2.
  - etransitivity; [exact H1|]. apply shiftIn_reg, W.
  - exact H3.
Qed.

(** The history after [n] rounds. *)
Lemma history_after n p :
  known p -> exists p', rounds n p = Done p' /\ known p' /\
    theShiftRegSize (theGShare p') = theShiftRegSize (theGShare p) /\
    theShiftReg (theGShare p') =
      (2 ^ Z.of_nat n * theShiftReg (theGShare p)
       + Z.b2z (ge_NotTaken the_direction) * (2 ^ Z.of_nat n - 1))
        mod 2 ^ theShiftRegSize (theGShare p).
Proof using Ht.
  intros K. induction n as [|n (p1 & E & K1 & S1 & R1)].
  - exists p. split; [done|]. split; [done|]. split; [done|].
    pose proof (kn_wf _ K) as [_ _ _ [? Hm _ ?]]. cbn. rewrite Z.mod_small; lia.
  - destruct (round_known p1 K1) as (p2 & E2 & K2 & L2). exists p2.
    cbn [rounds]. rewrite E. split; [exact E2|]. split; [done|].
    split; [by rewrite (le_size _ _ L2)|]. rewrite (le_reg _ _ L2), R1, S1.
    rewrite Nat2Z.inj_succ, Z.pow_succ_r by lia.
    pose proof (kn_wf _ K) as [_ _ _ [Hs _ _ _]].
    pose proof (Z.pow_pos_nonneg 2 (theShiftRegSize (theGShare p))).
    rewrite <-Z.add_mod_idemp_l, Z.mul_mod_idemp_r, Z.add_mod_idemp_l by lia. f_equal. ring.
Qed.

Lemma rounds_add n m p : rounds (n + m) p = (p ← rounds m p; rounds n p).
Proof using.
  clear Ht. induction n as [|n IH]; cbn [rounds Nat.add].
  - by destruct (rounds m p).
  - rewrite IH. by destruct (rounds m p).
Qed.

(** The history that one direction ends in: all zeros or all ones. *)
Definition steady_history (size : Z) : Z := Z.b2z (ge_NotTaken the_direction) * (2 ^ size - 1).

Lemma history_settles size r n :
  0 <= size <= Z.of_nat n ->
  (2 ^ Z.of_nat n * r + Z.b2z (ge_NotTaken the_direction) * (2 ^ Z.of_nat n - 1)) mod 2 ^ size =
    steady_history size.
Proof using.
  clear Ht. intros H. unfold steady_history. pose proof (Z.pow_pos_nonneg 2 size).
  replace (Z.of_nat n) with ((Z.of_nat n - size) + size) by lia. rewrite Z.pow_add_r by lia.
  set (c := 2 ^ (Z.of_nat n - size)). symmetry.
  destruct (ge_NotTaken the_direction); cbn [Z.b2z].
  - apply (Z.mod_unique_pos _ _ (c * r + c - 1)); [lia|]. ring.
  - apply (Z.mod_unique_pos _ _ (c * r)); [lia|]. ring.
Qed.

(** Both counters of the branch agree with its direction. *)
Definition settled (p : Combining) : Prop :=
  known p /\
  theShiftReg (theGShare p) = steady_history (theShiftRegSize (theGShare p)) /\
  ge_NotTaken (bim_get a (theBimodal p)) = ge_NotTaken the_direction /\
  ge_NotTaken (gs_get a (theShiftReg (theGShare p)) (theGShare p)) = ge_NotTaken the_direction.

Lemma history_stays p p' :
  known p -> learned p p' ->
  theShiftReg (theGShare p) = steady_history (theShiftRegSize (theGShare p)) ->
  theShiftReg (theGShare p') = theShiftReg (theGShare p).
Proof using.
  intros K L R. rewrite (le_reg _ _ L). pose proof (kn_wf _ K) as [_ _ _ [? _ _ _]].
  pose proof (Z.pow_pos_nonneg 2 (theShiftRegSize (theGShare p))).
  rewrite R. unfold steady_history. symmetry.
  apply (Z.mod_unique_pos _ _ (Z.b2z (ge_NotTaken the_direction))).
  all: destruct (ge_NotTaken the_direction); cbn [Z.b2z]; lia.
Qed.

Lemma settled_round p : settled p -> exists p', round p = Done p' /\ settled p'.
Proof using Ht.
  intros (K & R & B & G). destruct (round_known p K) as (p' & E & K' & L). exists p'.
  pose proof (history_stays p p' K L R) as R'.
  split; [done|]. split; [done|]. rewrite R', (le_size _ _ L). split; [done|].
  rewrite (le_bimodal _ _ L), (le_gshare _ _ L). split; by apply apply_agrees.
Qed.

(** Two rounds with a settled history turn both counters. *)
Lemma two_rounds p :
  known p -> theShiftReg (theGShare p) = steady_history (theShiftRegSize (theGShare p)) ->
  exists p', rounds 2 p = Done p' /\ settled p'.
Proof using Ht.
  intros K R. destruct (round_known p K) as (p1 & E1 & K1 & L1).
  pose proof (history_stays p p1 K L1 R) as R1.
  assert (S1 : theShiftReg (theGShare p1) = steady_history (theShiftRegSize (theGShare p1)))
    by (by rewrite R1, (le_size _ _ L1)).
  destruct (round_known p1 K1) as (p2 & E2 & K2 & L2).
  pose proof (history_stays p1 p2 K1 L2 S1) as R2.
  exists p2. cbn [rounds mbind outcome_bind]. rewrite E1. split; [exact E2|]. split; [done|].
  rewrite R2, (le_size _ _ L2). split; [done|].
  rewrite (le_bimodal _ _ L2), (le_bimodal _ _ L1), (le_gshare _ _ L2), R1, (le_gshare _ _ L1).
  split; apply apply_twice.
Qed.

Lemma settled_after n p :
  wf_predictor p -> theShiftRegSize (theGShare p) + 3 <= Z.of_nat n ->
  exists p', rounds n p = Done p' /\ settled p'.
Proof using Ht.
  intros W Hn. destruct (round_wf p W) as (p1 & E1 & K1 & S1).
  pose proof (kn_wf _ K1) as [_ _ _ [Hs _ _ _]]. rewrite S1 in Hs.
  set (k := Z.to_nat (theShiftRegSize (theGShare p))).
  destruct (history_after k p1 K1) as (p2 & E2 & K2 & S2 & R2).
  rewrite history_settles, <-S2 in R2 by (unfold k; lia).
  destruct (two_rounds p2 K2 R2) as (p3 & E3 & St).
  assert (E : rounds (2 + (k + 1)) p = Done p3).
  { rewrite rounds_add, rounds_add. cbn [rounds mbind outcome_bind]. rewrite E1.
    cbn [mbind outcome_bind]. rewrite E2. exact E3. }
  assert (Hm : exists m, n = (m + (2 + (k + 1)))%nat) by (exists (n - (2 + (k + 1)))%nat; lia).
  destruct Hm as [m ->]. rewrite rounds_add, E. cbn [mbind outcome_bind]. clear - St Ht.
  induction m as [|m (q & Em & Sm)]; [by exists p3|].
  cbn [rounds]. rewrite Em. cbn [mbind outcome_bind]. by apply settled_round.
Qed.
End steady.

(** C23 (learning): a conditional branch that always goes the same way and runs
    alone: every prediction is followed at once by its feedback, and no other branch
    is predicted or resolved in between.  Whatever a well-formed predictor held
    before, the branch, whose target is not 0, is predicted right after a number of
    such rounds that is three more than the history is long (16 for the shipped
    sizes), and as long as the rounds go on: its type, its direction and, when it is
    taken, its target. *)
Theorem steady_branch_learned (a t : Z) (taken : bool) (p : Combining) (n : nat) :
  wf_predictor p -> t <> 0 -> theShiftRegSize (theGShare p) + 3 <= Z.of_nat n ->
  exists q st q', rounds a t taken n p = Done q /\ Fast.predict a q = Done (st, q') /\
    thePredictedType st = kConditional /\ le_Taken (thePrediction st) = taken /\
    thePredictedTarget st = (if taken then t else 0).
Proof.
  intros W Ht Hn. destruct (settled_after a t taken Ht n p W Hn) as (q & E & K & R & B & G).
  destruct (predict_ok a q (kn_wf _ _ _ _ K)) as (st & q' & Ep & P).
  exists q, st, q'. split; [done|]. split; [done|].
  destruct (pr_conditional _ _ _ _ P (known_type _ _ _ _ K)) as [-> _]. cbn.
  set (d := if ge_NotTaken _ then _ else _).
  assert (Hd : ge_NotTaken d = negb taken).
  { unfold d. destruct (ge_NotTaken (bim_get a (theMeta q))); [rewrite G|rewrite B];
      by destruct taken. }
  rewrite !le_Taken_ge, Hd, negb_involutive. split; [done|]. split; [done|].
  destruct taken; [|done]. destruct (kn_entry _ _ _ _ K) as (e & -> & _ & Te). cbn. by apply Te.
Qed.

Lemma steady_branch_learned_witness :
  exists p q st q', small_predictor = Done p /\ rounds 128 64 true 6 p = Done q /\
    Fast.predict 128 q = Done (st, q') /\ thePredictedTarget st = 64.
Proof.
  destruct (predictor_starts 2 2 4 4 3) as [p E]; [reflexivity..|].
  assert (W : wf_predictor p) by (eapply create_wf; [..|exact E]; lia).
  destruct (steady_branch_learned 128 64 true p 6 W) as (q & st & q' & R & P & _ & _ & T).
  - discriminate.
  - revert E. vm_compute. intros [= <-]. discriminate.
  - exists p, q, st, q'. auto.
Defined.

(** ** What loses the history *)

(** Different histories read different counters, for every address. *)
Lemma history_selects g a r r' :
  wf_gshare g -> 0 <= r <= thePatternMask g -> 0 <= r' <= thePatternMask g -> r <> r' ->
  GShare.index a r g <> GShare.index a r' g.
Proof.
  intros [Hs Hm _ _] Hr Hr' N E. apply N. unfold GShare.index in E.
  rewrite Hm, Z.sub_1_r, <-Z.ones_equiv in E.
  apply Z.bits_inj'. intros i Hi. destruct (Z.lt_ge_cases i (theShiftRegSize g)) as [L|L].
  - apply (f_equal (fun x => Z.testbit x i)) in E.
    rewrite !Z.land_spec, !Z.lxor_spec, Z.ones_spec_low, !andb_true_r in E by lia.
    by destruct (Z.testbit r i), (Z.testbit r' i), (Z.testbit (Z.shiftr a 2) i).
  - rewrite !(Z.bits_above_log2 _ i); try done; try lia.
    all: match goal with |- Z.log2 ?x < _ =>
      destruct (Z.eq_dec x 0) as [->|]; [cbn; lia|apply Z.log2_lt_pow2; [lia|]] end.
    all: eapply Z.lt_le_trans; [|apply Z.pow_le_mono_r with (b := theShiftRegSize g); lia]; lia.
Qed.

(** A checkpoint keeps the counters of a pattern table but not
    its history.  A table restored into a new predictor of the same size reads,
    for every address, another counter than the saved one did, unless the saved
    history was empty; and so does the predictor that goes on running after it was
    saved, unless its history register has no bit outside the register's length
    taken as a number. *)
Theorem gshare_checkpoint_loses_history (g : gShare) :
  wf_gshare g ->
  let ar := (GShare.save g).1 in
  let live := (GShare.save g).2 in
  let restored := GShare.load ar (GShare.create (theShiftRegSize g)) in
  thePatternTable restored = thePatternTable g /\ thePatternTable live = thePatternTable g /\
  forall a,
    (theShiftReg g <> 0 ->
     GShare.index a (theShiftReg restored) restored <> GShare.index a (theShiftReg g) g) /\
    (Z.land (theShiftReg g) (theShiftRegSize g) <> theShiftReg g ->
     GShare.index a (theShiftReg live) live <> GShare.index a (theShiftReg g) g).
Proof.
  intros W. cbn. split; [done|]. split; [done|]. intros a. pose proof W as [Hs Hm Hl Hr].
  split; intros N.
  - apply (history_selects g); [done|rewrite Z.land_0_l; lia|lia|rewrite Z.land_0_l; lia].
  - apply (history_selects g); [done| |lia|done].
    pose proof (land_bound (theShiftRegSize g) (theShiftReg g)). rewrite Z.land_comm. lia.
Qed.

Lemma gshare_checkpoint_loses_history_witness :
  let g := mkGShare (alternating 8192 kNotTaken) 2 13 8191 in
  GShare.index 0 (theShiftReg (GShare.save g).2) (GShare.save g).2 <> GShare.index 0 2 g.
Proof.
  intros g. assert (W : wf_gshare g).
  { split; [cbn; lia|reflexivity|unfold g; cbn [thePatternTable]; by rewrite alternating_length|cbn; lia]. }
  apply (proj2 (proj2 (proj2 (gshare_checkpoint_loses_history g W)) 0)). discriminate.
Defined.

(** A return that the buffer knows and that goes anywhere but to
    address 0 empties the branch history, although the feedback means to put back
    the history of the time of the branch: the prediction of a return records no
    history. *)
Theorem return_clears_history (a t : Z) (d : eDirection) (p : Combining) (e : BTBEntry) :
  wf_predictor p -> btb_find a (theBTB p) = Some e -> theBranchType e = kReturn -> t <> 0 ->
  exists st p1 p', Fast.predict a p = Done (st, p1) /\ theGShare p1 = theGShare p /\
    Fast.feedback a kReturn d t st p1 = Done p' /\ theShiftReg (theGShare p') = 0.
Proof.
  intros W F T Ht. destruct (predict_ok a p W) as (st & p1 & E & P).
  assert (Ty : btb_type a (theBTB p) = kReturn) by (unfold btb_type; by rewrite F).
  destruct (pr_return _ _ _ _ P Ty) as [R0 T0]. pose proof (predicted_wf _ _ _ _ W P) as W1.
  exists st, p1. unfold Fast.feedback. cbn [theBTB Fast.stats set_counters].
  rewrite btb_update_ok by apply W1. cbn [mbind outcome_bind].
  rewrite decide_False, decide_True by (try done; rewrite T0, (pr_type _ _ _ _ P), Ty; done).
  rewrite bool_decide_false by (rewrite (pr_btb _ _ _ _ P), F; by intros [_ ?]).
  eexists. split; [done|]. split; [by rewrite (pr_other _ _ _ _ P) by (by rewrite Ty)|].
  split; [reflexivity|]. cbn. by rewrite R0.
Qed.

Definition return_sample : Combining :=
  mkCombining 0 (mkBTB [[]; [mkBTBEntry 4 kReturn 64]] 2 2 1)
    (mkBimodal [kTaken] 1 0) (mkBimodal [kTaken] 1 0)
    (mkGShare [kTaken; kTaken; kTaken; kTaken] 3 2 3) ∅.

Lemma return_sample_wf : wf_predictor return_sample.
Proof.
  split; split; cbn; try lia.
  intros [|[|i]] s E; cbn in E; simplify_eq; split; cbn; try lia; repeat constructor; try done.
  apply not_elem_of_nil.
Qed.

Lemma return_clears_history_witness :
  exists st p1 p', Fast.predict 4 return_sample = Done (st, p1) /\ theShiftReg (theGShare p1) = 3 /\
    Fast.feedback 4 kReturn kTaken 64 st p1 = Done p' /\ theShiftReg (theGShare p') = 0.
Proof.
  destruct (return_clears_history 4 64 kTaken return_sample (mkBTBEntry 4 kReturn 64))
    as (st & p1 & p' & E & G & E' & R); [exact return_sample_wf|reflexivity|reflexivity|discriminate|].
  exists st, p1, p'. rewrite G. auto.
Defined.

(** The trace simulator's statistics compare 32-bit
    targets, so a known unconditional branch that goes a multiple of 4 GiB away
    from its predicted target counts as correct while the same feedback treats it
    as a miss and puts the recorded history back. *)
Theorem far_target_counts_as_correct (a t k : Z) (d : eDirection) (st : BPredState) (e : BTBEntry)
    (p : Combining) :
  wf_predictor p -> btb_find a (theBTB p) = Some e -> k <> 0 ->
  thePredictedType st = kUnconditional -> thePredictedTarget st = t + k * 2 ^ 32 ->
  exists p', Fast.feedback a kUnconditional d t st p = Done p' /\
    counter "correct" (counters p') = counter "correct" (counters p) + 1 /\
    theShiftReg (theGShare p') = Z.land (theGShareShiftReg st) (thePatternMask (theGShare p)).
Proof.
  intros W F K T E. destruct (feedback_ok a kUnconditional d t st p W) as (p' & Ep & _ & _ & C & _).
  exists p'. split; [done|]. split.
  - rewrite C. cbn [counters Fast.stats set_counters]. rewrite !counter_incrs.
    unfold Fast.resolution. rewrite decide_False by (rewrite T; by intros []).
    rewrite decide_False by done. unfold u32. rewrite E, Z_mod_plus_full, Z.eqb_refl.
    cbn -[Z.add]. by rewrite Z.add_0_r.
  - unfold Fast.feedback in Ep. cbn [theBTB Fast.stats set_counters] in Ep.
    rewrite btb_update_ok in Ep by apply W. cbn [mbind outcome_bind] in Ep.
    rewrite decide_False in Ep by done. rewrite decide_True in Ep by (rewrite T, E; split; [done|lia]).
    rewrite bool_decide_false in Ep by (rewrite F; by intros [_ ?]). cbn in Ep. by injection Ep as <-.
Qed.

Lemma far_target_counts_as_correct_witness :
  exists p', Fast.feedback 4 kUnconditional kTaken 64
      (mkBPState kUnconditional (64 + 2 ^ 32) kTaken kTaken kTaken kTaken 1 0) return_sample = Done p' /\
    counter "correct" (counters p') = 1.
Proof.
  destruct (far_target_counts_as_correct 4 64 1 kTaken
    (mkBPState kUnconditional (64 + 2 ^ 32) kTaken kTaken kTaken kTaken 1 0)
    (mkBTBEntry 4 kReturn 64) return_sample) as (p' & E & C & _);
    [exact return_sample_wf|reflexivity|discriminate|reflexivity|reflexivity|].
  exists p'. split; [exact E|exact C].
Defined.
