(* ===== verification/BPWarm.v ===== *)
(** * Warming the branch predictor

    components/BPWarm/BPWarmImpl.cpp: the component that trains the trace
    simulator's predictor with the instructions each core fetches.  Per core it
    keeps two slots that take turns; the code's vectors of pairs, one per core,
    are the fields of one record per core here.

    An instruction arrives with its address, branch type and annul bit (port
    [ITraceInModern]) or with its opcode (ports [ITraceIn] and [InsnIn]), which is
    decoded for SPARC v9 only.  A branch is resolved by the second instruction
    after it.  The theorems say what the predictor is told for every sequence of
    instructions of all cores. *)

From stdpp Require Import base gmap list strings fin_maps.
From Stdlib Require Import ZArith Lia.
From S2P Require Import Prelude BranchPredictor BranchLearning.

Local Open Scope Z_scope.

(** ** State *)

(** A vector of two elements, indexed with a boolean. *)
Definition at2 {A} (v : A * A) (i : bool) : A := if i then snd v else fst v.
Definition put2 {A} (i : bool) (x : A) (v : A * A) : A * A :=
  if i then (fst v, x) else (x, snd v).
#[global] Arguments at2 : simpl never.
#[global] Arguments put2 : simpl never.

Record WarmCore : Type := mkWarmCore {
  theFetchAddress : Z * Z;
  theFetchState : BPredState * BPredState;
  theFetchType : eBranchType * eBranchType;
  theFetchAnnul : bool * bool;
  theOne : bool;
}.

Record BPWarm : Type := mkBPWarm {
  theBranchPredictor : Combining;
  theCores : list WarmCore;
}.

(** A value-initialised prediction state. *)
Definition zero_state : BPredState :=
  mkBPState kNonBranch 0 kStronglyTaken kStronglyTaken kStronglyTaken kStronglyTaken 0 0.

Definition initialize (cores : nat) : outcome BPWarm :=
  p ← FastCombiningImpl;
  Done (mkBPWarm p (replicate cores
          (mkWarmCore (0, 0) (zero_state, zero_state) (kNonBranch, kNonBranch) (false, false) false))).

(** ** [decode] *)

Definition decode (target_is_v9 : bool) (opcode : Z) : eBranchType * bool :=
  if target_is_v9 then
    let op := Z.land (Z.shiftr opcode 30) 3 in
    if op =? 0 then
      let op2 := Z.land (Z.shiftr opcode 22) 0x7 in
      if (op2 =? 1) || (op2 =? 2) || (op2 =? 3) || (op2 =? 5) || (op2 =? 6)
      then (kConditional, negb (Z.land opcode 0x20000000 =? 0))
      else (kNonBranch, false)
    else if op =? 1 then (kUnconditional, false)
    else if op =? 2 then
      let op3 := Z.land (Z.shiftr opcode 19) 0x3F in
      if (op3 =? 0x38) || (op3 =? 0x39) then (kUnconditional, false) else (kNonBranch, false)
    else (kNonBranch, false)
  else (kNonBranch, false).

(** ** Training *)

Definition plus8 (a : Z) : Z := (a + 8) mod 2 ^ 64.

(** The direction and the target that [doUpdate] reports for the older slot. *)
Definition resolve (theActual : Z) (c : WarmCore) : eDirection * Z :=
  let old := negb (theOne c) in
  match at2 (theFetchType c) old with
  | kConditional =>
      if at2 (theFetchAnnul c) old then
        if at2 (theFetchAddress c) (theOne c) =? plus8 (at2 (theFetchAddress c) old)
        then (kNotTaken, 0) else (kTaken, theActual)
      else if theActual =? plus8 (at2 (theFetchAddress c) old)
      then (kNotTaken, 0) else (kTaken, theActual)
  | kNonBranch => (kNotTaken, 0)
  | _ => (kTaken, theActual)
  end.

Definition doUpdate (theActual : Z) (anIndex : Z) (w : BPWarm) : outcome BPWarm :=
  c ← vec_at (theCores w) anIndex;
  let old := negb (theOne c) in
  let '(dir, target) := resolve theActual c in
  p ← Fast.feedback (at2 (theFetchAddress c) old) (at2 (theFetchType c) old) dir target
        (at2 (theFetchState c) old) (theBranchPredictor w);
  Done (mkBPWarm p (theCores w)).

Definition doPredict (anIndex : Z) (w : BPWarm) : outcome BPWarm :=
  c ← vec_at (theCores w) anIndex;
  '(st, p) ← Fast.predict (at2 (theFetchAddress c) (theOne c)) (theBranchPredictor w);
  v ← vec_put (theCores w) anIndex
        (mkWarmCore (theFetchAddress c) (put2 (theOne c) st (theFetchState c)) (theFetchType c)
           (theFetchAnnul c) (theOne c));
  Done (mkBPWarm p v).

(** The body that the three ports share: the slots take turns, and the new
    instruction overwrites the one that was just resolved.  The store of
    [kNonBranch] into the slot's prediction is overwritten by [predict]. *)
Definition fetched (anIndex : Z) (pc : Z) (aFetchType : eBranchType) (aFetchAnnul : bool)
    (w : BPWarm) : outcome BPWarm :=
  c ← vec_at (theCores w) anIndex;
  w ← (if decide (at2 (theFetchType c) (negb (theOne c)) <> kNonBranch)
       then doUpdate pc anIndex w else Done w);
  let one := negb (theOne c) in
  let is_branch := bool_decide (aFetchType <> kNonBranch) in
  v ← vec_put (theCores w) anIndex
        (mkWarmCore (if is_branch then put2 one pc (theFetchAddress c) else theFetchAddress c)
           (theFetchState c) (put2 one aFetchType (theFetchType c))
           (put2 one aFetchAnnul (theFetchAnnul c)) one);
  let w := mkBPWarm (theBranchPredictor w) v in
  if is_branch then doPredict anIndex w else Done w.

Definition push_ITraceInModern (anIndex pc : Z) (ty : eBranchType) (annul : bool) (w : BPWarm)
    : outcome BPWarm := fetched anIndex pc ty annul w.

Definition push_ITraceIn (v9 : bool) (anIndex pc opcode : Z) (w : BPWarm) : outcome BPWarm :=
  let '(ty, annul) := decode v9 opcode in fetched anIndex pc ty annul w.

(** The instruction goes on through [InsnOut] unchanged. *)
Definition push_InsnIn (v9 : bool) (anIndex : Z) (instruction : Z * Z) (w : BPWarm)
    : outcome ((Z * Z) * BPWarm) :=
  let '(ty, annul) := decode v9 (snd instruction) in
  w ← fetched anIndex (fst instruction) ty annul w;
  Done (instruction, w).

(** ** What the predictor is told

    The specification keeps, for every core, all instructions it fetched, the
    last one first, and the predictions made for them. *)

Record Fetch : Type := mkFetch {
  f_pc : Z;
  f_type : eBranchType;
  f_annul : bool;
  f_state : BPredState;
}.

Definition no_fetch : Fetch := mkFetch 0 kNonBranch false zero_state.

(** The address of the last branch among the last instruction and every second one
    before it; 0 when there is none. *)
Fixpoint last_branch (h : list Fetch) : Z :=
  match h with
  | [] => 0
  | f :: h =>
      if decide (f_type f <> kNonBranch) then f_pc f
      else match h with [] => 0 | _ :: h => last_branch h end
  end.

(** How the second instruction after a branch resolves it, given the history up to
    the instruction after the branch.  When a conditional branch has the annul bit, it
    is not the address of the instruction after it, which the delay slot would have,
    that is compared, but that of a branch: see [annulled_branch_reported_taken]. *)
Definition spec_resolve (h : list Fetch) (actual : Z) : eDirection * Z :=
  let f := default no_fetch (h !! 1%nat) in
  match f_type f with
  | kConditional =>
      if (if f_annul f then last_branch h else actual) =? plus8 (f_pc f)
      then (kNotTaken, 0) else (kTaken, actual)
  | kNonBranch => (kNotTaken, 0)
  | _ => (kTaken, actual)
  end.

Abbreviation history := (list (list Fetch)).

(** The instruction two before is resolved, if it was a branch; the new one is
    predicted, if it is a branch, and enters the history. *)
Definition spec_fetched (s : Combining * history) (i : nat * Z * eBranchType * bool)
    : outcome (Combining * history) :=
  let '(p, hs) := s in
  let '(core, pc, ty, annul) := i in
  let h := default [] (hs !! core) in
  let f := default no_fetch (h !! 1%nat) in
  p ← (if decide (f_type f <> kNonBranch)
       then Fast.feedback (f_pc f) (f_type f) (fst (spec_resolve h pc)) (snd (spec_resolve h pc))
              (f_state f) p
       else Done p);
  '(st, p) ← (if decide (ty <> kNonBranch) then Fast.predict pc p else Done (zero_state, p));
  Done (p, <[core := mkFetch pc ty annul st :: h]> hs).

Definition warm_fetched (w : BPWarm) (i : nat * Z * eBranchType * bool) : outcome BPWarm :=
  let '(core, pc, ty, annul) := i in push_ITraceInModern (Z.of_nat core) pc ty annul w.

(** A slot holds the last instruction of a history; its address is kept until a
    branch overwrites it. *)
Definition slot_holds (c : WarmCore) (slot : bool) (h : list Fetch) : Prop :=
  let f := default no_fetch (head h) in
  at2 (theFetchType c) slot = f_type f /\ at2 (theFetchAnnul c) slot = f_annul f /\
  at2 (theFetchAddress c) slot = last_branch h /\
  (f_type f <> kNonBranch -> at2 (theFetchState c) slot = f_state f).

(** The slots of a core are the last two instructions of its history. *)
Definition core_holds (c : WarmCore) (h : list Fetch) : Prop :=
  slot_holds c (theOne c) h /\ slot_holds c (negb (theOne c)) (tail h).

Definition warm_holds (w : BPWarm) (s : Combining * history) : Prop :=
  theBranchPredictor w = fst s /\ wf_predictor (fst s) /\ Forall2 core_holds (theCores w) (snd s).

Lemma at2_put2 {A} i j (x : A) v : at2 (put2 i x v) j = if eqb i j then x else at2 v j.
Proof. by destruct i, j. Qed.

Lemma vec_at_nat {A} (v : list A) (i : nat) a : v !! i = Some a -> vec_at v (Z.of_nat i) = Done a.
Proof.
  intros E. unfold vec_at. rewrite (proj2 (Z.leb_le 0 _)) by lia. by rewrite Nat2Z.id, E.
Qed.

Lemma vec_put_nat {A} (v : list A) (i : nat) (a : A) :
  (i < length v)%nat -> vec_put v (Z.of_nat i) a = Done (<[i := a]> v).
Proof. intros L. rewrite vec_put_in by lia. by rewrite Nat2Z.id. Qed.

Lemma branch_address (h : list Fetch) :
  let f := default no_fetch (head h) in f_type f <> kNonBranch -> last_branch h = f_pc f.
Proof. destruct h as [|f h]; cbn; [done|]. intros N. by rewrite decide_True. Qed.

Lemma second_head (h : list Fetch) : default no_fetch (h !! 1%nat) = default no_fetch (head (tail h)).
Proof. by destruct h as [|? [|]]. Qed.

(** The older slot, resolved, is the older instruction, resolved. *)
Lemma resolve_spec c h actual : core_holds c h -> resolve actual c = spec_resolve h actual.
Proof.
  intros [(_ & _ & A & _) (T & An & B & _)]. unfold resolve, spec_resolve. rewrite T, An, A, B, second_head.
  pose proof (branch_address (tail h)) as Hb. cbn zeta in Hb. set (f := default no_fetch (head (tail h))) in *.
  destruct (f_type f); try done. rewrite Hb by done. by destruct (f_annul f).
Qed.

(** After the slots have taken turns, the new instruction is in the one in use. *)
Lemma core_turn c h pc ty annul st :
  core_holds c h ->
  let one := negb (theOne c) in
  core_holds
    (mkWarmCore (if bool_decide (ty <> kNonBranch) then put2 one pc (theFetchAddress c)
                 else theFetchAddress c)
       (if bool_decide (ty <> kNonBranch) then put2 one st (theFetchState c) else theFetchState c)
       (put2 one ty (theFetchType c)) (put2 one annul (theFetchAnnul c)) one)
    (mkFetch pc ty annul st :: h).
Proof.
  intros [(T1 & N1 & A1 & S1) (T2 & N2 & A2 & S2)]. cbn zeta. unfold core_holds, slot_holds. cbn.
  rewrite negb_involutive, !at2_put2, eqb_reflx. split.
  - split_and!; [done|done| |].
    + destruct (decide (ty <> kNonBranch)) as [N|N].
      * by rewrite bool_decide_true, at2_put2, eqb_reflx by done.
      * rewrite bool_decide_false, A2 by done. by destruct h.
    + intros N. by rewrite bool_decide_true, at2_put2, eqb_reflx by done.
  - assert (E : eqb (negb (theOne c)) (theOne c) = false) by by destruct (theOne c). rewrite E.
    case_bool_decide; rewrite ?at2_put2, ?E; done.
Qed.

Lemma older_resolved w p c h core pc :
  theBranchPredictor w = p -> wf_predictor p -> theCores w !! core = Some c -> core_holds c h ->
  let f := default no_fetch (h !! 1%nat) in
  exists p1,
    (if decide (f_type f <> kNonBranch)
     then Fast.feedback (f_pc f) (f_type f) (fst (spec_resolve h pc)) (snd (spec_resolve h pc))
            (f_state f) p
     else Done p) = Done p1 /\ wf_predictor p1 /\
    (if decide (f_type f <> kNonBranch) then doUpdate pc (Z.of_nat core) w else Done w) =
      Done (mkBPWarm p1 (theCores w)).
Proof.
  intros Ep Wp Ec H f. pose proof H as [_ (To & _ & Ao & So)]. rewrite <-second_head in To, So. fold f in To, So.
  case_decide as N; [|exists p; split; [done|]; split; [done|]; rewrite <-Ep; by destruct w].
  destruct (feedback_ok (f_pc f) (f_type f) (fst (spec_resolve h pc)) (snd (spec_resolve h pc))
              (f_state f) p Wp) as (p1 & E1 & W1 & _).
  exists p1. split; [done|]. split; [done|].
  assert (Ea : last_branch (tail h) = f_pc f).
  { unfold f. rewrite second_head. apply branch_address. by rewrite <-second_head. }
  unfold doUpdate. rewrite (vec_at_nat _ _ _ Ec). cbn [mbind outcome_bind].
  rewrite (resolve_spec c h pc H), To, Ao, Ea, (So N), Ep.
  destruct (spec_resolve h pc). cbn [fst snd] in E1. by rewrite E1.
Qed.

Lemma warm_step w s core pc ty annul :
  warm_holds w s -> (core < length (theCores w))%nat ->
  exists w' s', warm_fetched w (core, pc, ty, annul) = Done w' /\ spec_fetched s (core, pc, ty, annul) = Done s' /\
    warm_holds w' s' /\ length (theCores w') = length (theCores w).
Proof.
  intros (Ep & Wp & Hc) L. destruct s as [p hs]. cbn [fst snd] in *.
  destruct (lookup_lt_is_Some_2 _ _ L) as [c Ec].
  destruct (Forall2_lookup_l _ _ _ _ _ Hc Ec) as (h & Eh & H).
  cbn [warm_fetched push_ITraceInModern spec_fetched]. rewrite Eh. cbn [default from_option id].
  unfold push_ITraceInModern, fetched. rewrite (vec_at_nat _ _ _ Ec). cbn [mbind outcome_bind].
  pose proof H as [_ (To & _)]. rewrite <-second_head in To. rewrite To. set (f := default no_fetch (h !! 1%nat)) in *.
  destruct (older_resolved w p c h core pc Ep Wp Ec H) as (p1 & U1 & W1 & U2). fold f in U1, U2.
  rewrite U1, U2. cbn [mbind outcome_bind theCores theBranchPredictor].
  rewrite vec_put_nat by done. cbn [mbind outcome_bind].
  case_bool_decide as N.
  - rewrite (decide_True (P := ty <> kNonBranch)) by done. unfold doPredict. cbn [theCores theBranchPredictor].
    rewrite (vec_at_nat _ _ _ (list_lookup_insert_eq _ _ _ L)). cbn [mbind outcome_bind].
    cbn [theFetchAddress theOne].
    rewrite at2_put2, eqb_reflx.
    destruct (predict_ok pc p1 W1) as (st & p2 & E2 & P). rewrite E2. cbn [mbind outcome_bind].
    rewrite vec_put_nat by (by rewrite length_insert). cbn [mbind outcome_bind].
    do 2 eexists. split; [reflexivity|]. split; [reflexivity|]. rewrite list_insert_insert_eq.
    split; [|cbn; by rewrite length_insert]. split; [done|]. split; [by eapply predicted_wf|].
    cbn. apply Forall2_insert; [done|].
    pose proof (core_turn c h pc ty annul st H) as Ht. rewrite bool_decide_true in Ht by done. exact Ht.
  - assert (N' : ~ ty <> kNonBranch) by tauto. rewrite (decide_False (P := ty <> kNonBranch)) by done.
    cbn [mbind outcome_bind].
    do 2 eexists. split; [reflexivity|]. split; [reflexivity|].
    split; [|cbn; by rewrite length_insert]. split; [done|]. split; [done|].
    cbn. apply Forall2_insert; [done|].
    pose proof (core_turn c h pc ty annul zero_state H) as Ht. rewrite bool_decide_false in Ht by done. exact Ht.
Qed.

Lemma initialize_holds cores :
  exists w, initialize cores = Done w /\ length (theCores w) = cores /\
    warm_holds w (theBranchPredictor w, replicate cores []).
Proof.
  destruct (predictor_starts 1024 16 32768 8192 13) as [p E]; [reflexivity..|].
  unfold initialize, FastCombiningImpl. rewrite E. cbn [mbind outcome_bind].
  eexists. split; [reflexivity|]. cbn [theCores theBranchPredictor].
  split; [apply length_replicate|]. split; [done|].
  split; [by eapply create_wf; [..|exact E]; lia|]. cbn.
  apply Forall2_replicate. by repeat split.
Qed.

(** C24 (refinement): whatever instructions the cores of the component fetch in whatever
    order, with whatever types and annul bits, the component, which keeps two slots per
    core, tells the predictor exactly what the specification, which keeps every core's
    whole history, tells it: each branch is predicted when it is fetched and resolved
    by the second instruction its core fetches after it.  A conditional branch without
    the annul bit is taken unless that instruction is the one 8 bytes on; one with the
    bit is taken unless 8 bytes on is [last_branch], the address that the slot of the
    instruction after it happens to keep ([annulled_branch_reported_taken]).  No access
    is out of range. *)
Theorem warming_refines_history (cores : nat) (tr : list (nat * Z * eBranchType * bool)) :
  Forall (fun i => (i.1.1.1 < cores)%nat) tr ->
  exists w0 w s, initialize cores = Done w0 /\ run_calls warm_fetched tr w0 = Done w /\
    run_calls spec_fetched tr (theBranchPredictor w0, replicate cores []) = Done s /\
    theBranchPredictor w = fst s /\ wf_predictor (theBranchPredictor w).
Proof.
  intros Hi. destruct (initialize_holds cores) as (w0 & E0 & L & H).
  enough (exists w s, run_calls warm_fetched tr w0 = Done w /\
    run_calls spec_fetched tr (theBranchPredictor w0, replicate cores []) = Done s /\ warm_holds w s)
    as (w & s & R1 & R2 & Ep & Wp & _).
  { exists w0, w, s. rewrite Ep. done. }
  clear E0. revert H L. generalize w0 (theBranchPredictor w0, replicate cores ([] : list Fetch)).
  induction Hi as [|[[[core pc] ty] annul] tr Hc _ IH]; intros w s H L; [by exists w, s|].
  destruct (warm_step w s core pc ty annul H) as (w' & s' & E1 & E2 & H' & L'); [cbn in Hc; by rewrite L|].
  cbn [run_calls]. rewrite E1, E2. cbn [mbind outcome_bind]. apply IH; [done|by rewrite L'].
Qed.

Lemma warming_refines_history_witness :
  exists w0 w, initialize 2 = Done w0 /\
    run_calls warm_fetched [(0%nat, 64, kConditional, true); (1%nat, 128, kCall, false); (0%nat, 68, kNonBranch, false)] w0
      = Done w.
Proof.
  destruct (warming_refines_history 2
    [(0%nat, 64, kConditional, true); (1%nat, 128, kCall, false); (0%nat, 68, kNonBranch, false)])
    as (w0 & w & s & E & R & _); [repeat constructor|].
  exists w0, w. split; [exact E|exact R].
Defined.

(** ** Delay slots *)

Definition fresh_core : WarmCore :=
  mkWarmCore (0, 0) (zero_state, zero_state) (kNonBranch, kNonBranch) (false, false) false.

(** An instruction of a single core: address, type, annul bit. *)
Definition single_fetched (w : BPWarm) (i : Z * eBranchType * bool) : outcome BPWarm :=
  let '(pc, ty, annul) := i in push_ITraceInModern 0 pc ty annul w.

Lemma vec_at_single {A} (x : A) : vec_at [x] 0 = Done x.
Proof. done. Qed.
Lemma vec_put_single {A} (x y : A) : vec_put [x] 0 y = Done [y].
Proof. done. Qed.

(** The three cases of [fetched] that the scenarios below use. *)
Lemma fetched_branch p c pc ty annul st p1 :
  at2 (theFetchType c) (negb (theOne c)) = kNonBranch -> ty <> kNonBranch ->
  Fast.predict pc p = Done (st, p1) ->
  fetched 0 pc ty annul (mkBPWarm p [c]) =
    Done (mkBPWarm p1 [mkWarmCore (put2 (negb (theOne c)) pc (theFetchAddress c))
                         (put2 (negb (theOne c)) st (theFetchState c))
                         (put2 (negb (theOne c)) ty (theFetchType c))
                         (put2 (negb (theOne c)) annul (theFetchAnnul c)) (negb (theOne c))]).
Proof.
  intros T N E. unfold fetched, doPredict. cbn [theCores].
  rewrite vec_at_single. cbn [mbind outcome_bind].
  rewrite T, decide_False by (intros X; by apply X). cbn [mbind outcome_bind theCores].
  rewrite vec_put_single, bool_decide_true by done.
  cbn [mbind outcome_bind theCores theFetchAddress theOne theBranchPredictor].
  rewrite vec_at_single. cbn [mbind outcome_bind theFetchAddress theOne].
  rewrite at2_put2, eqb_reflx, E. done.
Qed.

Lemma fetched_plain p c pc p1 :
  (if decide (at2 (theFetchType c) (negb (theOne c)) <> kNonBranch)
   then doUpdate pc 0 (mkBPWarm p [c]) else Done (mkBPWarm p [c])) = Done (mkBPWarm p1 [c]) ->
  fetched 0 pc kNonBranch false (mkBPWarm p [c]) =
    Done (mkBPWarm p1 [mkWarmCore (theFetchAddress c) (theFetchState c)
                         (put2 (negb (theOne c)) kNonBranch (theFetchType c))
                         (put2 (negb (theOne c)) false (theFetchAnnul c)) (negb (theOne c))]).
Proof.
  intros E. unfold fetched. cbn [theCores]. rewrite vec_at_single. cbn [mbind outcome_bind].
  rewrite E. cbn [mbind outcome_bind theCores]. rewrite vec_put_single, bool_decide_false by (intros X; by apply X).
  done.
Qed.

(** A branch and the two instructions that follow it on a core that has just
    started: the branch is predicted and then resolved. *)
Lemma branch_and_two p pc ty annul x y :
  wf_predictor p -> ty <> kNonBranch ->
  let dt := resolve y (mkWarmCore (0, pc) (zero_state, zero_state) (kNonBranch, ty) (false, annul) false) in
  exists st p1 p2 c, Fast.predict pc p = Done (st, p1) /\
    Fast.feedback pc ty (fst dt) (snd dt) st p1 = Done p2 /\
    theBTB p2 = btb_next (theBTB p) pc ty (snd dt) /\
    run_calls single_fetched [(pc, ty, annul); (x, kNonBranch, false); (y, kNonBranch, false)]
      (mkBPWarm p [fresh_core]) = Done (mkBPWarm p2 [c]).
Proof.
  intros W N dt. destruct (predict_ok pc p W) as (st & p1 & E & P).
  pose proof (predicted_wf _ _ _ _ W P) as W1.
  destruct (feedback_ok pc ty (fst dt) (snd dt) st p1 W1) as (p2 & E2 & _ & B & _).
  exists st, p1, p2. eexists. split; [done|]. split; [done|].
  split; [by rewrite B, (pr_btb _ _ _ _ P)|].
  cbn [run_calls single_fetched]. unfold push_ITraceInModern.
  rewrite (fetched_branch p fresh_core pc ty annul st p1) by done. cbn [mbind outcome_bind].
  erewrite fetched_plain; [|rewrite decide_False; [reflexivity|intros X; by apply X]].
  cbn [mbind outcome_bind].
  erewrite fetched_plain; [reflexivity|]. rewrite decide_True by done.
  unfold doUpdate. cbn [theCores]. rewrite vec_at_single. cbn [mbind outcome_bind].
  match goal with |- context [resolve y ?q] => replace (resolve y q) with dt by done end.
  destruct dt as [d t]. cbn [fst snd] in E2. cbn. 
  replace (Fast.feedback _ _ _ _ _ _) with (Done p2) by (symmetry; exact E2). done.
Qed.

(** An unconditional branch is resolved with the second
    instruction after it, so the target the buffer learns is the address of the
    second instruction of the path the branch goes to, whatever the first is; this
    is right after a delay slot and one instruction late without one. *)
Theorem target_learned_is_second_instruction (p : Combining) (pc x y : Z) :
  wf_predictor p -> y <> 0 ->
  exists w, run_calls single_fetched
      [(pc, kUnconditional, false); (x, kNonBranch, false); (y, kNonBranch, false)]
      (mkBPWarm p [fresh_core]) = Done w /\
    theTarget <$> btb_find pc (theBTB (theBranchPredictor w)) = Some y.
Proof.
  intros W Hy. destruct (branch_and_two p pc kUnconditional false x y W) as (st & p1 & p2 & c & _ & _ & B & R);
    [done|]. exists (mkBPWarm p2 [c]). split; [exact R|]. cbn [theBranchPredictor].
  rewrite B, btb_next_find, decide_True by (try done; apply W).
  unfold btb_entry. rewrite decide_False by done.
  destruct (btb_find pc (theBTB p)); [|done]. cbn. by destruct y.
Qed.

Lemma target_learned_is_second_instruction_witness :
  exists p w, FastCombiningImpl = Done p /\
    run_calls single_fetched [(64, kUnconditional, false); (1024, kNonBranch, false); (1028, kNonBranch, false)]
      (mkBPWarm p [fresh_core]) = Done w /\
    theTarget <$> btb_find 64 (theBTB (theBranchPredictor w)) = Some 1028.
Proof.
  destruct (predictor_starts 1024 16 32768 8192 13) as [p E]; [reflexivity..|].
  assert (W : wf_predictor p) by (eapply create_wf; [..|exact E]; lia).
  destruct (target_learned_is_second_instruction p 64 1024 1028 W) as (w & R & T); [discriminate|].
  exists p, w. auto.
Defined.

(** A conditional branch with the annul bit that falls
    through, skipping its delay slot, is reported as taken: its direction is
    decided by the address kept in the other slot, which only branches write. *)
Theorem annulled_branch_reported_taken (p : Combining) (pc y : Z) :
  wf_predictor p -> plus8 pc <> 0 ->
  exists st p1 p2 c, Fast.predict pc p = Done (st, p1) /\
    Fast.feedback pc kConditional kTaken y st p1 = Done p2 /\
    run_calls single_fetched
      [(pc, kConditional, true); (plus8 pc, kNonBranch, false); (y, kNonBranch, false)]
      (mkBPWarm p [fresh_core]) = Done (mkBPWarm p2 [c]).
Proof.
  intros W H. destruct (branch_and_two p pc kConditional true (plus8 pc) y W)
    as (st & p1 & p2 & c & E & F & _ & R); [done|].
  exists st, p1, p2, c. split; [done|]. split; [|exact R].
  unfold resolve, at2 in F. cbn -[Z.eqb plus8] in F. by rewrite (proj2 (Z.eqb_neq 0 (plus8 pc))) in F by done.
Qed.

Lemma annulled_branch_reported_taken_witness :
  exists p st p1 p2 c, FastCombiningImpl = Done p /\ Fast.predict 64 p = Done (st, p1) /\
    Fast.feedback 64 kConditional kTaken 76 st p1 = Done p2 /\
    run_calls single_fetched [(64, kConditional, true); (72, kNonBranch, false); (76, kNonBranch, false)]
      (mkBPWarm p [fresh_core]) = Done (mkBPWarm p2 [c]).
Proof.
  destruct (predictor_starts 1024 16 32768 8192 13) as [p E]; [reflexivity..|].
  assert (W : wf_predictor p) by (eapply create_wf; [..|exact E]; lia).
  destruct (annulled_branch_reported_taken p 64 76 W) as (st & p1 & p2 & c & H); [discriminate|].
  exists p, st, p1, p2, c. split; [exact E|exact H].
Defined.
