(* ===== verification/MMU.v ===== *)
(** * Address translation: registers, granules, table walks

    components/MMU: MMUUtil.cpp, ARMTranslationGranules.cpp, TTResolvers.cpp and
    pageWalk.cpp, with core/qemu/bitUtilities.cpp and the translation object of
    components/CommonQEMU/Translation.hpp.

    Addresses, registers and descriptors are 64-bit numbers as [Z].  What QEMU
    provides, its registers and its physical memory, are arguments.  The range
    limits are computed in floating point by the code; they are exact for the
    address sizes that the resolvers support (16 to 39), which the theorems
    assume.  Debug output is left out. *)

From stdpp Require Import base gmap list strings fin_maps.
From Stdlib Require Import ZArith Lia.
From S2P Require Import Prelude.

Local Open Scope Z_scope.

Definition u64 (x : Z) : Z := x mod 2 ^ 64.

(** ** Bit utilities *)

Definition extractBitsWithBounds (input upperBitBound lowerBitBound : Z) : Z :=
  let result := Z.shiftr input lowerBitBound in
  let upperMask := Z.shiftl 1 (upperBitBound - lowerBitBound + 1) - 1 in
  Z.land result upperMask.

Definition extractBitsWithRange (input lbound numBits : Z) : Z :=
  let result := Z.shiftr input lbound in
  let upperMask := Z.shiftl 1 numBits - 1 in
  Z.land result upperMask.

Definition extractSingleBitAsBool (input bitshift : Z) : bool :=
  negb (Z.land (Z.shiftr input bitshift) 0x1 =? 0).

(** ** Registers *)

(** Arrays indexed by exception level. *)
Record mmu_regs_t : Type := mkRegs {
  SCTLR : Z -> Z;
  TCR : Z -> Z;
  TTBR0 : Z -> Z;
  TTBR1 : Z -> Z;
  ID_AA64MMFR0_EL1 : Z;
}.

Definition EL1 : Z := 1.

(** [setupBitConfigs]: where the fields are. *)
Definition M_Bit : Z := 0.
Definition TGran4_Base : Z := 28.
Definition TGran16_Base : Z := 20.
Definition TGran64_Base : Z := 24.
Definition TGran_NumBits : Z := 4.
Definition TG0_Base : Z := 14.
Definition TG0_NumBits : Z := 2.
Definition TG1_Base : Z := 30.
Definition TG1_NumBits : Z := 2.
Definition PARange_Base : Z := 0.
Definition PARange_NumBits : Z := 4.
Definition TG0_SZ_Base : Z := 0.
Definition TG1_SZ_Base : Z := 16.
Definition TGn_SZ_NumBits : Z := 6.

(** [initRegsFromQEMUObject]: the levels that are copied. *)
Definition initRegsFromQEMUObject (qemuRegs mmu_regs : mmu_regs_t) : mmu_regs_t :=
  let copy (lo hi : Z) (q r : Z -> Z) el := if (lo <=? el) && (el <=? hi) then q el else r el in
  mkRegs (copy 1 3 (SCTLR qemuRegs) (SCTLR mmu_regs)) (copy 1 3 (TCR qemuRegs) (TCR mmu_regs))
    (copy 1 3 (TTBR0 qemuRegs) (TTBR0 mmu_regs)) (copy 1 2 (TTBR1 qemuRegs) (TTBR1 mmu_regs))
    (ID_AA64MMFR0_EL1 qemuRegs).

Definition IsExcLevelEnabled (EL : Z) (r : mmu_regs_t) : outcome bool :=
  if (0 <? EL) && (EL <=? 3) then Done (extractSingleBitAsBool (SCTLR r EL) M_Bit)
  else Assert "EL > 0 && EL <= 3".

Definition is4KGranuleSupported (r : mmu_regs_t) : bool :=
  extractBitsWithRange (ID_AA64MMFR0_EL1 r) TGran4_Base TGran_NumBits =? 0.
Definition is16KGranuleSupported (r : mmu_regs_t) : bool :=
  extractBitsWithRange (ID_AA64MMFR0_EL1 r) TGran16_Base TGran_NumBits =? 1.
Definition is64KGranuleSupported (r : mmu_regs_t) : bool :=
  extractBitsWithRange (ID_AA64MMFR0_EL1 r) TGran64_Base TGran_NumBits =? 0.

Definition getGranuleSize (granuleNum : Z) (r : mmu_regs_t) : outcome Z :=
  if granuleNum =? 0 then
    let TG_SZ := extractBitsWithRange (TCR r EL1) TG0_Base TG0_NumBits in
    if TG_SZ =? 0 then Done (2 ^ 12)
    else if TG_SZ =? 1 then Done (2 ^ 16)
    else if TG_SZ =? 3 then Done (2 ^ 14)
    else Assert "Unknown value in getting TG0 Granule Size"
  else
    let TG_SZ := extractBitsWithRange (TCR r EL1) TG1_Base TG1_NumBits in
    if TG_SZ =? 2 then Done (2 ^ 12)
    else if TG_SZ =? 3 then Done (2 ^ 16)
    else if TG_SZ =? 1 then Done (2 ^ 14)
    else Assert "Unknown value in getting TG1 Granule Size".

Definition parsePASizeFromRegs (r : mmu_regs_t) : outcome Z :=
  let pRange_Config := extractBitsWithRange (ID_AA64MMFR0_EL1 r) PARange_Base PARange_NumBits in
  if pRange_Config =? 0 then Done 32
  else if pRange_Config =? 1 then Done 36
  else if pRange_Config =? 2 then Done 40
  else if pRange_Config =? 3 then Done 42
  else if pRange_Config =? 4 then Done 44
  else if pRange_Config =? 5 then Done 48
  else if pRange_Config =? 6 then Done 52
  else Assert "Unknown value in getting PAddr Width".

Definition getIAOffsetValue (isBRO : bool) (r : mmu_regs_t) : Z :=
  if isBRO then extractBitsWithRange (TCR r EL1) TG0_SZ_Base TGn_SZ_NumBits
  else extractBitsWithRange (TCR r EL1) TG1_SZ_Base TGn_SZ_NumBits.

(** ** Translation granules *)

(** The subclass of a granule: the range of [TTBR0] or of [TTBR1]. *)
Inductive granule_class : Set := TG0_Granule | TG1_Granule.

Record TranslationGranule : Type := mkGranule {
  gran_class : granule_class;
  KBSize : Z;
  logKBSize : Z;
  granuleShift : Z;
  granuleEntries : Z;
  PAddrWidth : Z;
  IAddrOffset : Z;
}.

(** The default: 4KB. *)
Definition defaultGranule (c : granule_class) : TranslationGranule := mkGranule c 4096 12 9 512 48 48.

Definition newGranule (c : granule_class) (ksize PASize IASize : Z) : TranslationGranule :=
  let logKBSize := Z.log2 ksize in
  mkGranule c ksize logKBSize (logKBSize - 3) (2 ^ (logKBSize - 3)) PASize IASize.

Definition NumBitsResolvedPerTTAccess (g : TranslationGranule) : Z := logKBSize g - 3.
Definition getIAddrSize (g : TranslationGranule) : Z := 64 - IAddrOffset g.

Definition granule_getInitialLookupLevel (g : TranslationGranule) : Z :=
  let TnSz := IAddrOffset g in
  if KBSize g =? 2 ^ 12 then
    if 34 <=? TnSz then 2 else if 25 <=? TnSz then 1 else 0
  else if KBSize g =? 2 ^ 14 then
    if 39 <=? TnSz then 3 else if 28 <=? TnSz then 2 else if 17 <=? TnSz then 1 else 0
  else if KBSize g =? 2 ^ 16 then
    if 35 <=? TnSz then 3 else if 22 <=? TnSz then 2 else 1
  else 0.

Definition GetLowerAddressRangeLimit (g : TranslationGranule) : Z :=
  match gran_class g with
  | TG0_Granule => 0
  | TG1_Granule => 2 ^ 64 - 2 ^ (64 - IAddrOffset g)
  end.
(** The difference is computed with 53 bits of precision. *)
Definition GetUpperAddressRangeLimit (g : TranslationGranule) : Z :=
  match gran_class g with
  | TG0_Granule => if 11 <=? IAddrOffset g then 2 ^ (64 - IAddrOffset g) - 1 else 2 ^ (64 - IAddrOffset g)
  | TG1_Granule => 0xffffffffffffffff
  end.

(** ** [mmu_t] *)

Record mmu_t : Type := mkMMU {
  mmu_regs : mmu_regs_t;
  Gran0 : TranslationGranule;
  Gran1 : TranslationGranule;
}.

(** The width that the registers give is replaced by 48. *)
Definition setupAddressSpaceSizesAndGranules (r : mmu_regs_t) : outcome mmu_t :=
  TG0_Size ← getGranuleSize 0 r;
  TG1_Size ← getGranuleSize 1 r;
  _ ← parsePASizeFromRegs r;
  let PASize := 48 in
  Done (mkMMU r (newGranule TG0_Granule TG0_Size PASize (getIAOffsetValue true r))
          (newGranule TG1_Granule TG1_Size PASize (getIAOffsetValue false r))).

Definition gran_of (isBR0 : bool) (m : mmu_t) : TranslationGranule := if isBR0 then Gran0 m else Gran1 m.

Definition checkBR0RangeForVAddr (theVaddr : Z) (m : mmu_t) : Z :=
  let upperBR0Bound := GetUpperAddressRangeLimit (Gran0 m) in
  let lowerBR1Bound := GetLowerAddressRangeLimit (Gran1 m) in
  if theVaddr <=? upperBR0Bound then 0
  else if lowerBR1Bound <=? theVaddr then 1
  else -1.

Definition getInitialLookupLevel (isBR0 : bool) (m : mmu_t) : Z :=
  granule_getInitialLookupLevel (gran_of isBR0 m).
Definition getIASize (isBR0 : bool) (m : mmu_t) : Z := getIAddrSize (gran_of isBR0 m).
Definition getPAWidth (isBR0 : bool) (m : mmu_t) : Z := PAddrWidth (gran_of isBR0 m).

(** ** Resolvers of table addresses *)

(** The subclass of a resolver. *)
Inductive resolver_class : Set := L0Resolver | L1Resolver | L2Resolver | L3Resolver.

Record TTResolver : Type := mkResolver {
  res_class : resolver_class;
  RawTTBRReg : Z;
  TTBR_LSB : Z;
  TTBR_MSB : Z;
  offset_LSB : Z;
  offset_MSB : Z;
}.

(** The constructors. *)
Definition newResolver (c : resolver_class) (g : TranslationGranule) (aTTBR aPhysAddrWidth : Z)
    : outcome TTResolver :=
  let TnSz := IAddrOffset g in
  let msb := aPhysAddrWidth - 1 in
  match c with
  | L0Resolver =>
      if (16 <=? TnSz) && (TnSz <=? 24) then
        let x := 28 - TnSz in
        Done (mkResolver c aTTBR x msb 39 (x + 35))
      else Assert "TnSz >= 16 && TnSz <= 24"
  | L1Resolver =>
      let x := if (25 <=? TnSz) && (TnSz <=? 33) then 37 - TnSz else 12 in
      Done (mkResolver c aTTBR x msb 30 (x + 26))
  | L2Resolver =>
      let x := if (34 <=? TnSz) && (TnSz <=? 39) then 46 - TnSz else 12 in
      Done (mkResolver c aTTBR x msb 21 (x + 17))
  | L3Resolver => Done (mkResolver c aTTBR 12 msb 12 20)
  end.

Definition maskAndShiftInputAddress (anAddr : Z) (r : TTResolver) : Z :=
  u64 (Z.shiftl (extractBitsWithBounds anAddr (offset_MSB r) (offset_LSB r)) 3).

Definition resolve (inputAddress : Z) (r : TTResolver) : Z :=
  let output := extractBitsWithBounds (RawTTBRReg r) (TTBR_MSB r) (TTBR_LSB r) in
  Z.lor (u64 (Z.shiftl output (TTBR_LSB r))) (maskAndShiftInputAddress inputAddress r).

Definition updateRawBaseRegister (newTTBR : Z) (r : TTResolver) : TTResolver :=
  mkResolver (res_class r) newTTBR (TTBR_LSB r) (TTBR_MSB r) (offset_LSB r) (offset_MSB r).

Definition getBlockOutputBits (rawTTE : Z) (r : TTResolver) : Z :=
  let bits blockLSB := u64 (Z.shiftl (extractBitsWithBounds rawTTE 47 blockLSB) blockLSB) in
  match res_class r with
  | L0Resolver => 0
  | L1Resolver => bits 30
  | L2Resolver => bits 21
  | L3Resolver => bits 12
  end.

(** ** Translations *)

Inductive eTLBstatus : Set := kTLBunresolved | kTLBmiss | kTLBhit.
Inductive eTLBtype : Set := kINST | kDATA | kNONE.

#[export] Instance eTLBtype_eq_dec : EqDecision eTLBtype.
Proof. solve_decision. Defined.
#[export] Instance eTLBstatus_eq_dec : EqDecision eTLBstatus.
Proof. solve_decision. Defined.

(** [theInstruction] says whether an instruction is attached. *)
Record Translation : Type := mkTranslation {
  theVaddr : Z;
  thePaddr : Z;
  theTLBstatus : eTLBstatus;
  theTLBtype : eTLBtype;
  theReady : bool;
  theWaiting : bool;
  theDone : bool;
  theCurrentTranslationLevel : Z;
  rawTTEValue : Z;
  theAnnul : bool;
  theTimeoutCounter : Z;
  thePageFault : bool;
  trace_addresses : list Z;
  inTraceMode : bool;
  theInstruction : bool;
}.

(** A new translation of an address, as a client fills it in. *)
Definition newTranslation (vaddr paddr : Z) (ty : eTLBtype) (trace instr : bool) : Translation :=
  mkTranslation vaddr paddr kTLBunresolved ty false false false 0 0 false 0 false [] trace instr.

Definition set_paddr (x : Z) (t : Translation) : Translation :=
  mkTranslation (theVaddr t) x (theTLBstatus t) (theTLBtype t) (theReady t) (theWaiting t) (theDone t)
    (theCurrentTranslationLevel t) (rawTTEValue t) (theAnnul t) (theTimeoutCounter t)
    (thePageFault t) (trace_addresses t) (inTraceMode t) (theInstruction t).
Definition set_status (x : eTLBstatus) (t : Translation) : Translation :=
  mkTranslation (theVaddr t) (thePaddr t) x (theTLBtype t) (theReady t) (theWaiting t) (theDone t)
    (theCurrentTranslationLevel t) (rawTTEValue t) (theAnnul t) (theTimeoutCounter t)
    (thePageFault t) (trace_addresses t) (inTraceMode t) (theInstruction t).
Definition toggleReady (t : Translation) : Translation :=
  mkTranslation (theVaddr t) (thePaddr t) (theTLBstatus t) (theTLBtype t) (negb (theReady t))
    (theWaiting t) (theDone t) (theCurrentTranslationLevel t) (rawTTEValue t) (theAnnul t)
    (theTimeoutCounter t) (thePageFault t) (trace_addresses t) (inTraceMode t) (theInstruction t).
Definition toggleWaiting (t : Translation) : Translation :=
  mkTranslation (theVaddr t) (thePaddr t) (theTLBstatus t) (theTLBtype t) (theReady t)
    (negb (theWaiting t)) (theDone t) (theCurrentTranslationLevel t) (rawTTEValue t) (theAnnul t)
    (theTimeoutCounter t) (thePageFault t) (trace_addresses t) (inTraceMode t) (theInstruction t).
Definition set_done (t : Translation) : Translation :=
  mkTranslation (theVaddr t) (thePaddr t) (theTLBstatus t) (theTLBtype t) (theReady t)
    (theWaiting t) true (theCurrentTranslationLevel t) (rawTTEValue t) (theAnnul t)
    (theTimeoutCounter t) (thePageFault t) (trace_addresses t) (inTraceMode t) (theInstruction t).
Definition set_fault (t : Translation) : Translation :=
  mkTranslation (theVaddr t) (thePaddr t) (theTLBstatus t) (theTLBtype t) (theReady t)
    (theWaiting t) (theDone t) (theCurrentTranslationLevel t) (rawTTEValue t) (theAnnul t)
    (theTimeoutCounter t) true (trace_addresses t) (inTraceMode t) (theInstruction t).
Definition next_level (t : Translation) : Translation :=
  mkTranslation (theVaddr t) (thePaddr t) (theTLBstatus t) (theTLBtype t) (theReady t)
    (theWaiting t) (theDone t) (theCurrentTranslationLevel t + 1) (rawTTEValue t) (theAnnul t)
    (theTimeoutCounter t) (thePageFault t) (trace_addresses t) (inTraceMode t) (theInstruction t).
Definition set_raw (x : Z) (t : Translation) : Translation :=
  mkTranslation (theVaddr t) (thePaddr t) (theTLBstatus t) (theTLBtype t) (theReady t)
    (theWaiting t) (theDone t) (theCurrentTranslationLevel t) x (theAnnul t)
    (theTimeoutCounter t) (thePageFault t) (trace_addresses t) (inTraceMode t) (theInstruction t).
Definition push_trace (x : Z) (t : Translation) : Translation :=
  mkTranslation (theVaddr t) (thePaddr t) (theTLBstatus t) (theTLBtype t) (theReady t)
    (theWaiting t) (theDone t) (theCurrentTranslationLevel t) (rawTTEValue t) (theAnnul t)
    (theTimeoutCounter t) (thePageFault t) (trace_addresses t ++ [x]) (inTraceMode t)
    (theInstruction t).
Definition set_timeout (x : Z) (t : Translation) : Translation :=
  mkTranslation (theVaddr t) (thePaddr t) (theTLBstatus t) (theTLBtype t) (theReady t)
    (theWaiting t) (theDone t) (theCurrentTranslationLevel t) (rawTTEValue t) (theAnnul t)
    x (thePageFault t) (trace_addresses t) (inTraceMode t) (theInstruction t).

Definition isInstr (t : Translation) : bool := bool_decide (theTLBtype t = kINST).
Definition isData (t : Translation) : bool := bool_decide (theTLBtype t = kDATA).

Definition setDone (t : Translation) : outcome Translation :=
  if theDone t then Assert "!theDone" else Done (set_done t).
Definition setPagefault (t : Translation) : outcome Translation :=
  if thePageFault t then Assert "!thePageFault" else Done (set_fault t).

(** [operator++]: more than 1000 steps are an error. *)
Definition age (t : Translation) : outcome Translation :=
  let t := set_timeout (theTimeoutCounter t + 1) t in
  if 1000 <? theTimeoutCounter t then Assert "timeout" else Done t.

Record TranslationState : Type := mkTState {
  requiredTableLookups : Z;
  currentLookupLevel : Z;
  ts_isBR0 : bool;
  granuleSize : Z;
  TTAddressResolver : TTResolver;
  BlockSizeFromTTs : Z;
}.

Definition set_level (l : Z) (r : TTResolver) (s : TranslationState) : TranslationState :=
  mkTState (requiredTableLookups s) l (ts_isBR0 s) (granuleSize s) r (BlockSizeFromTTs s).
Definition set_blocksize (b : Z) (s : TranslationState) : TranslationState :=
  mkTState (requiredTableLookups s) (currentLookupLevel s) (ts_isBR0 s) (granuleSize s)
    (TTAddressResolver s) b.

(** ** The table walk *)

(** [setupTTResolver]: the resolver of a level. *)
Definition setupTTResolver (m : mmu_t) (isBR0 : bool) (level TTDescriptor : Z) : outcome TTResolver :=
  let PAWidth := getPAWidth isBR0 m in
  if level =? 0 then newResolver L0Resolver (gran_of isBR0 m) TTDescriptor PAWidth
  else if level =? 1 then newResolver L1Resolver (gran_of isBR0 m) TTDescriptor PAWidth
  else if level =? 2 then newResolver L2Resolver (gran_of isBR0 m) TTDescriptor PAWidth
  else if level =? 3 then newResolver L3Resolver (gran_of isBR0 m) TTDescriptor PAWidth
  else Assert "Random lookup level in InitialTranslationSetup".

(** [InitialTranslationSetup]: [None] when the address is in neither range.  The
    granule size is asked for with the number 1 for the range of [TTBR0] and 0 for
    the range of [TTBR1]. *)
Definition InitialTranslationSetup (m : mmu_t) (t : Translation) : outcome (option TranslationState) :=
  let br := checkBR0RangeForVAddr (theVaddr t) m in
  if br =? -1 then Done None
  else
    let isBR0 := br =? 0 in
    let initialLevel := getInitialLookupLevel isBR0 m in
    gsize ← getGranuleSize (Z.b2z isBR0) (mmu_regs m);
    let initialTTBR := if isBR0 then TTBR0 (mmu_regs m) EL1 else TTBR1 (mmu_regs m) EL1 in
    r ← setupTTResolver m isBR0 initialLevel initialTTBR;
    Done (Some (mkTState (4 - initialLevel) initialLevel isBR0 gsize r 0)).

(** [preWalk]: the address of the next descriptor, which goes into the
    translation and into [trace_address].  In the timing mode the translation is
    also queued as a memory request. *)
Definition preWalk (t : Translation) (s : TranslationState) : Translation * Z :=
  let TTEDescriptor := resolve (theVaddr t) (TTAddressResolver s) in
  (set_paddr TTEDescriptor t, TTEDescriptor).

(** [preTranslate]: [None] when no descriptor is asked for. *)
Definition preTranslate (t : Translation) (s : TranslationState) : Translation * option Z :=
  if theCurrentTranslationLevel t <? requiredTableLookups s
  then let '(t, a) := preWalk (next_level t) s in (t, Some a)
  else (t, None).

(** The output address of a block or page, and the end of the walk. *)
Definition finish_walk (mask : Z) (t : Translation) (s : TranslationState) : outcome Translation :=
  let base := getBlockOutputBits (rawTTEValue t) (TTAddressResolver s) in
  let maskedVAddr := Z.land (theVaddr t) mask in
  setDone (set_paddr (Z.lor base maskedVAddr) t).

(** [walk]: what the descriptor in [rawTTEValue] says.  The flag says whether an
    attached instruction is forced to resynchronise. *)
Definition walk (m : mmu_t) (t : Translation) (s : TranslationState)
    : outcome (Translation * TranslationState * bool) :=
  let validBit := extractSingleBitAsBool (rawTTEValue t) 0 in
  if negb validBit then
    if isData t && theInstruction t then t ← setDone t; Done (t, s, true)
    else t ← setPagefault t; t ← setDone t; Done (t, s, false)
  else
    let isNextLevelTableEntry := extractSingleBitAsBool (rawTTEValue t) 1 in
    if currentLookupLevel s =? 3 then
      let s := set_blocksize (2 ^ 12) s in
      t ← finish_walk (granuleSize s - 1) t s;
      Done (t, s, false)
    else if isNextLevelTableEntry then
      let level := currentLookupLevel s + 1 in
      r ← setupTTResolver m (ts_isBR0 s) level (rawTTEValue t);
      Done (t, set_level level r s, false)
    else
      bsize ← (if currentLookupLevel s =? 1 then Done (2 ^ 30)
               else if currentLookupLevel s =? 2 then Done (2 ^ 21)
               else Assert "Encountered Non-standard BLOCK entry");
      let s := set_blocksize bsize s in
      t ← finish_walk (bsize - 1) t s;
      Done (t, s, false).

(** The loop of [push_back_trace], with fuel; [trace_address] is a field of the
    walker.  [mem] reads 8 bytes of physical memory. *)
Fixpoint trace_loop (fuel : nat) (m : mmu_t) (mem : Z -> Z) (t : Translation) (s : TranslationState)
    (trace_address : Z) : outcome (Translation * Z) :=
  match fuel with
  | O => Assert "out of fuel"
  | S fuel =>
      let '(t, asked) := preTranslate t s in
      let trace_address := default trace_address asked in
      let t := push_trace trace_address (set_raw (mem trace_address) t) in
      '(t, s, _) ← walk m t s;
      if theDone t then Done (t, trace_address)
      else trace_loop fuel m mem t s trace_address
  end.

(** Four levels at most: four rounds of fuel. *)
Definition push_back_trace (m : mmu_t) (mem : Z -> Z) (t : Translation) (trace_address : Z)
    : outcome (bool * Translation * Z) :=
  setup ← InitialTranslationSetup m t;
  match setup with
  | None => Done (false, t, trace_address)
  | Some s => '(t, a) ← trace_loop 4 m mem t s trace_address; Done (true, t, a)
  end.

(** ** The walk of the architecture, in arithmetic

    Tables of 8-byte descriptors, 512 per table except the first; each level takes
    the next 9 bits of the address.  A descriptor is invalid when it is even.  In a
    valid one bit 1 tells, below the last level, a table from a block, of which there
    are none at level 0; at the last level it is set in a page.  The other two
    encodings, a block at level 0 and a page with bit 1 clear, are reserved, and the
    architecture takes them for invalid descriptors. *)

Inductive arm_result : Set :=
  | ArmPage (pa : Z)
  | ArmFault
  | ArmReservedAtLevel0
  | ArmReservedAtLevel3 (descriptor : Z).

Definition field (x lo width : Z) : Z := (x / 2 ^ lo) mod 2 ^ width.

(** [left] levels are below this one; [hi] bits of the address are not resolved
    yet; the result comes with the addresses of the descriptors read. *)
Fixpoint arm_walk (left : nat) (mem : Z -> Z) (va hi table : Z) : arm_result * list Z :=
  let lsb := 12 + 9 * Z.of_nat left in
  let a := table + 8 * ((va mod 2 ^ hi) / 2 ^ lsb) in
  let d := mem a in
  if d mod 2 =? 0 then (ArmFault, [a])
  else
    match left with
    | O =>
        if (d / 2) mod 2 =? 1 then (ArmPage (field d 12 36 * 2 ^ 12 + va mod 2 ^ 12), [a])
        else (ArmReservedAtLevel3 d, [a])
    | S below =>
        if (d / 2) mod 2 =? 1 then
          let '(r, l) := arm_walk below mem va lsb (field d 12 36 * 2 ^ 12) in (r, a :: l)
        else if (left =? 3)%nat then (ArmReservedAtLevel0, [a])
        else (ArmPage (field d lsb (48 - lsb) * 2 ^ lsb + va mod 2 ^ lsb), [a])
    end.

(** The first level that an address space of [64 - tnsz] bits needs. *)
Definition first_left (tnsz : Z) : nat :=
  if tnsz <=? 24 then 3 else if tnsz <=? 33 then 2 else 1.

(** Two address spaces: one from 0 up, one from the top down. *)
Definition arm_translate (r : mmu_regs_t) (mem : Z -> Z) (va : Z) : option (arm_result * list Z) :=
  let go tnsz ttbr :=
    let left := first_left tnsz in
    let x := 64 - tnsz - (12 + 9 * Z.of_nat left) + 3 in
    arm_walk left mem va (64 - tnsz) (field ttbr x (48 - x) * 2 ^ x) in
  let t0sz := getIAOffsetValue true r in
  let t1sz := getIAOffsetValue false r in
  if va <? 2 ^ (64 - t0sz) then Some (go t0sz (TTBR0 r EL1))
  else if 2 ^ 64 - 2 ^ (64 - t1sz) <=? va then Some (go t1sz (TTBR1 r EL1))
  else None.

(** ** Bits as arithmetic *)

Lemma extract_range_field x lo n : 0 <= lo -> 0 <= n -> extractBitsWithRange x lo n = field x lo n.
Proof.
  intros. unfold extractBitsWithRange, field.
  rewrite Z.shiftl_1_l, Z.sub_1_r, <-Z.ones_equiv, Z.land_ones, Z.shiftr_div_pow2 by lia. done.
Qed.

Lemma extract_bounds_field x hi lo :
  0 <= lo <= hi + 1 -> extractBitsWithBounds x hi lo = field x lo (hi - lo + 1).
Proof. intros. by apply (extract_range_field x lo (hi - lo + 1)); lia. Qed.

Lemma field_bound x lo n : 0 <= n -> 0 <= field x lo n < 2 ^ n.
Proof. intros. apply Z.mod_pos_bound. by apply Z.pow_pos_nonneg. Qed.

(** Or is addition when the low part fits below the other one's zeros. *)
Lemma lor_add (a b k : Z) : 0 <= k -> 0 <= b < 2 ^ k -> Z.lor (a * 2 ^ k) b = a * 2 ^ k + b.
Proof.
  intros Hk Hb. rewrite <-Z.add_lor_land. replace (Z.land (a * 2 ^ k) b) with 0; [lia|].
  symmetry. apply Z.bits_inj'. intros n Hn. rewrite Z.land_spec, Z.bits_0.
  rewrite <-Z.shiftl_mul_pow2 by done.
  destruct (Z.lt_ge_cases n k) as [L|L].
  - by rewrite Z.shiftl_spec_low.
  - rewrite andb_comm. destruct (Z.eq_dec b 0) as [->|]; [by rewrite Z.bits_0|].
    rewrite Z.bits_above_log2; [done|lia|]. apply Z.log2_lt_pow2; [lia|].
    eapply Z.lt_le_trans; [apply Hb|]. by apply Z.pow_le_mono_r.
Qed.

Lemma shifted_field x lo n :
  0 <= lo -> 0 <= n -> lo + n <= 64 ->
  u64 (Z.shiftl (field x lo n) lo) = field x lo n * 2 ^ lo.
Proof.
  intros. rewrite Z.shiftl_mul_pow2 by done. apply Z.mod_small.
  pose proof (field_bound x lo n). pose proof (Z.pow_pos_nonneg 2 lo).
  split; [lia|]. apply Z.lt_le_trans with (2 ^ n * 2 ^ lo); [nia|].
  rewrite <-Z.pow_add_r by done. apply Z.pow_le_mono_r; lia.
Qed.

(** [va]'s bits from [lo] up to [hi] are its bits below [hi], divided. *)
Lemma field_mod_div va lo n : 0 <= lo -> 0 <= n -> field va lo n = (va mod 2 ^ (lo + n)) / 2 ^ lo.
Proof.
  intros. unfold field. rewrite Z.pow_add_r by done.
  pose proof (Z.pow_pos_nonneg 2 lo). pose proof (Z.pow_pos_nonneg 2 n).
  rewrite Z.rem_mul_r, Z.mul_comm, Z.div_add by lia.
  rewrite (Z.div_small (va mod 2 ^ lo)) by (apply Z.mod_pos_bound; lia). lia.
Qed.

Lemma single_bit x i : 0 <= i -> extractSingleBitAsBool x i = negb ((x / 2 ^ i) mod 2 =? 0).
Proof.
  intros. unfold extractSingleBitAsBool. rewrite Z.shiftr_div_pow2 by done.
  by rewrite (Z.land_ones _ 1).
Qed.

(** The address of a descriptor. *)
Lemma resolve_address r va :
  0 <= TTBR_LSB r -> TTBR_LSB r <= TTBR_MSB r < 64 -> 0 <= offset_LSB r <= offset_MSB r ->
  offset_MSB r - offset_LSB r + 4 = TTBR_LSB r ->
  resolve va r =
    field (RawTTBRReg r) (TTBR_LSB r) (TTBR_MSB r - TTBR_LSB r + 1) * 2 ^ TTBR_LSB r +
    8 * ((va mod 2 ^ (offset_MSB r + 1)) / 2 ^ offset_LSB r).
Proof.
  intros H1 H2 H3 H4. unfold resolve, maskAndShiftInputAddress.
  rewrite !extract_bounds_field by lia. rewrite shifted_field by lia.
  set (w := offset_MSB r - offset_LSB r + 1).
  assert (Ei : field va (offset_LSB r) w = va mod 2 ^ (offset_MSB r + 1) / 2 ^ offset_LSB r)
    by (rewrite field_mod_div by lia; do 3 f_equal; lia).
  rewrite <-Ei. pose proof (field_bound va (offset_LSB r) w) as Bi.
  set (i := field va (offset_LSB r) w) in *.
  assert (Ew : 2 ^ TTBR_LSB r = 8 * 2 ^ w).
  { change 8 with (2 ^ 3). rewrite <-Z.pow_add_r by lia. f_equal. lia. }
  assert (B64 : 2 ^ TTBR_LSB r <= 2 ^ 63) by (apply Z.pow_le_mono_r; lia).
  assert (Es : u64 (Z.shiftl i 3) = 8 * i).
  { unfold u64. rewrite Z.shiftl_mul_pow2 by lia. change (2 ^ 3) with 8.
    rewrite Z.mod_small; lia. }
  rewrite Es. apply lor_add; lia.
Qed.

(** ** Each level of the walk *)

Definition class_left (left : nat) : resolver_class :=
  match left with O => L3Resolver | 1%nat => L2Resolver | 2%nat => L1Resolver | _ => L0Resolver end.

Lemma block_bits raw r left :
  (left <= 2)%nat -> res_class r = class_left left ->
  getBlockOutputBits raw r =
    let lsb := 12 + 9 * Z.of_nat left in field raw lsb (48 - lsb) * 2 ^ lsb.
Proof.
  intros L E. unfold getBlockOutputBits. rewrite E.
  destruct left as [|[|[|]]]; cbn [class_left]; try lia;
    rewrite extract_bounds_field, shifted_field by lia; done.
Qed.

Lemma land_low_bits va k : 0 <= k -> Z.land va (2 ^ k - 1) = va mod 2 ^ k.
Proof. intros. by rewrite Z.sub_1_r, <-Z.ones_equiv, Z.land_ones. Qed.

(** A resolver that points into the table at [table]. *)
Record points (va hi table : Z) (left : nat) (r : TTResolver) : Prop := {
  pt_class : res_class r = class_left left;
  pt_address : resolve va r = table + 8 * ((va mod 2 ^ hi) / 2 ^ (12 + 9 * Z.of_nat left));
}.

(** The ranges of address sizes that the resolvers support. *)
Definition supported (g : TranslationGranule) : Prop :=
  KBSize g = 2 ^ 12 /\ PAddrWidth g = 48 /\ 16 <= IAddrOffset g <= 39.

Lemma initial_level g :
  supported g -> granule_getInitialLookupLevel g = 3 - Z.of_nat (first_left (IAddrOffset g)).
Proof.
  intros (E & _ & B). unfold granule_getInitialLookupLevel, first_left. rewrite E, Z.eqb_refl.
  repeat match goal with |- context [?a <=? ?b] => destruct (Z.leb_spec a b) end; lia.
Qed.

Lemma points_intro va ttbr left x msb lsb hi :
  lsb = 12 + 9 * Z.of_nat left -> msb = x + lsb - 4 -> hi = msb + 1 -> 4 <= x <= 47 ->
  points va hi (field ttbr x (48 - x) * 2 ^ x) left
    (mkResolver (class_left left) ttbr x (48 - 1) lsb msb).
Proof.
  intros -> -> -> B. split; [done|]. rewrite resolve_address by (cbn [TTBR_LSB TTBR_MSB offset_LSB offset_MSB]; lia).
  cbn [TTBR_LSB TTBR_MSB offset_LSB offset_MSB RawTTBRReg]. do 3 f_equal. lia.
Qed.

(** The resolver of the first level. *)
Lemma first_resolver m br ttbr va :
  supported (gran_of br m) ->
  let tnsz := IAddrOffset (gran_of br m) in
  let left := first_left tnsz in
  let x := 64 - tnsz - (12 + 9 * Z.of_nat left) + 3 in
  exists r, setupTTResolver m br (3 - Z.of_nat left) ttbr = Done r /\
    points va (64 - tnsz) (field ttbr x (48 - x) * 2 ^ x) left r.
Proof.
  intros (_ & Ew & B). cbn zeta. unfold setupTTResolver, getPAWidth. rewrite Ew.
  unfold first_left, newResolver. set (tnsz := IAddrOffset (gran_of br m)) in *.
  destruct (Z.leb_spec tnsz 24); [|destruct (Z.leb_spec tnsz 33)].
  all: cbn [Z.of_nat Pos.of_succ_nat Pos.succ Z.sub Z.add Z.opp Z.pos_sub Pos.pred_double Z.eqb Pos.eqb].
  all: rewrite ?(proj2 (Z.leb_le 16 tnsz)), ?(proj2 (Z.leb_le tnsz 24)), ?(proj2 (Z.leb_le 25 tnsz)),
         ?(proj2 (Z.leb_le tnsz 33)), ?(proj2 (Z.leb_le 34 tnsz)), ?(proj2 (Z.leb_le tnsz 39)) by lia.
  all: cbn [andb]; eexists; split; [reflexivity|].
  - replace (64 - tnsz - _ + 3) with (28 - tnsz) by lia. by apply (points_intro va ttbr 3); lia.
  - replace (64 - tnsz - _ + 3) with (37 - tnsz) by lia. by apply (points_intro va ttbr 2); lia.
  - replace (64 - tnsz - _ + 3) with (46 - tnsz) by lia. by apply (points_intro va ttbr 1); lia.
Qed.

(** The resolver of a level below the first. *)
Lemma next_resolver m br d va left :
  supported (gran_of br m) -> (S left <= first_left (IAddrOffset (gran_of br m)))%nat ->
  exists r, setupTTResolver m br (3 - Z.of_nat left) d = Done r /\
    points va (12 + 9 * Z.of_nat (S left)) (field d 12 36 * 2 ^ 12) left r.
Proof.
  intros (_ & Ew & B) L. unfold setupTTResolver, getPAWidth. rewrite Ew. unfold first_left in L.
  set (tnsz := IAddrOffset (gran_of br m)) in *.
  assert (C1 : (25 <=? tnsz) && (tnsz <=? 33) = true -> (left <= 1)%nat).
  { intros C. destruct (Z.leb_spec tnsz 24), (Z.leb_spec tnsz 33); lia. }
  assert (C2 : (34 <=? tnsz) && (tnsz <=? 39) = true -> (left = 0)%nat).
  { intros C. destruct (Z.leb_spec tnsz 24), (Z.leb_spec tnsz 33); lia. }
  destruct left as [|[|[|left]]]; cbn [Z.of_nat Pos.of_succ_nat Pos.succ Z.sub Z.add Z.opp Z.pos_sub
    Pos.pred_double Z.eqb Pos.eqb]; unfold newResolver; fold tnsz.
  - eexists. split; [reflexivity|]. by apply (points_intro va d 0 12); lia.
  - destruct ((34 <=? tnsz) && (tnsz <=? 39)); [by specialize (C2 eq_refl)|].
    eexists. split; [reflexivity|]. by apply (points_intro va d 1 12); lia.
  - destruct ((25 <=? tnsz) && (tnsz <=? 33)); [specialize (C1 eq_refl); lia|].
    eexists. split; [reflexivity|]. by apply (points_intro va d 2 12); lia.
  - destruct (tnsz <=? 24), (tnsz <=? 33); lia.
Qed.

(** The address that a page descriptor gives. *)
Definition arm_page (d va : Z) : Z := field d 12 36 * 2 ^ 12 + va mod 2 ^ 12.

(** How the loop reports what the architecture finds.  After a page fault the
    physical address is the address of the invalid descriptor.  Of the two reserved
    encodings the one at level 0 stops the simulator, the one at level 3 is taken for
    a page. *)
Definition reports (res : arm_result * list Z) (t : Translation) (o : outcome (Translation * Z)) : Prop :=
  match fst res with
  | ArmPage pa => exists t' a, o = Done (t', a) /\ theDone t' = true /\ thePageFault t' = false /\
      thePaddr t' = pa /\ trace_addresses t' = trace_addresses t ++ snd res
  | ArmFault => exists t' a, o = Done (t', a) /\ theDone t' = true /\ thePageFault t' = true /\
      thePaddr t' = a /\ trace_addresses t' = trace_addresses t ++ snd res
  | ArmReservedAtLevel0 => o = Assert "Encountered Non-standard BLOCK entry"
  | ArmReservedAtLevel3 d => exists t' a, o = Done (t', a) /\ theDone t' = true /\ thePageFault t' = false /\
      thePaddr t' = arm_page d (theVaddr t) /\ trace_addresses t' = trace_addresses t ++ snd res
  end.

(** A translation that a walk can go on with. *)
Record walking (t : Translation) : Prop := {
  wk_done : theDone t = false;
  wk_fault : thePageFault t = false;
  wk_instr : isData t && theInstruction t = false;
}.

Lemma finish_ok left t s :
  (left <= 2)%nat -> theDone t = false -> res_class (TTAddressResolver s) = class_left left ->
  let lsb := 12 + 9 * Z.of_nat left in
  finish_walk (2 ^ lsb - 1) t s =
    Done (set_done (set_paddr (field (rawTTEValue t) lsb (48 - lsb) * 2 ^ lsb
                               + theVaddr t mod 2 ^ lsb) t)).
Proof.
  intros L D C lsb. unfold finish_walk, setDone. rewrite (block_bits _ _ left) by done.
  cbn zeta. fold lsb. rewrite land_low_bits by (unfold lsb; lia).
  rewrite lor_add by (try apply Z.mod_pos_bound; unfold lsb; lia). cbn [theDone set_paddr]. by rewrite D.
Qed.

(** One descriptor, at each kind of level. *)
Definition read_descriptor (a : Z) (mem : Z -> Z) (t : Translation) : Translation :=
  push_trace a (set_raw (mem a) (set_paddr a (next_level t))).

Lemma read_walking a mem t : walking t -> walking (read_descriptor a mem t).
Proof. by intros []. Qed.

Lemma walk_fault m mem a t s :
  walking t -> mem a mod 2 = 0 ->
  walk m (read_descriptor a mem t) s = Done (set_done (set_fault (read_descriptor a mem t)), s, false).
Proof.
  intros [Wd Wf Wi] E. unfold walk. rewrite single_bit by lia.
  cbn [rawTTEValue read_descriptor push_trace set_raw]. rewrite Z.pow_0_r, Z.div_1_r, E. cbn [Z.eqb negb].
  replace (isData _ && theInstruction _) with (isData t && theInstruction t) by done. rewrite Wi.
  unfold setPagefault. cbn [thePageFault read_descriptor push_trace set_raw set_paddr next_level]. rewrite Wf.
  cbn [mbind outcome_bind]. unfold setDone. cbn [theDone set_fault read_descriptor push_trace set_raw set_paddr next_level].
  by rewrite Wd.
Qed.

Lemma walk_leaf m mem a t s left :
  walking t -> mem a mod 2 <> 0 -> (left <= 2)%nat ->
  currentLookupLevel s = 3 - Z.of_nat left -> granuleSize s = 2 ^ 12 ->
  res_class (TTAddressResolver s) = class_left left ->
  (left = 0%nat \/ (mem a / 2) mod 2 = 0) ->
  let lsb := 12 + 9 * Z.of_nat left in
  exists s', walk m (read_descriptor a mem t) s =
    Done (set_done (set_paddr (field (mem a) lsb (48 - lsb) * 2 ^ lsb + theVaddr t mod 2 ^ lsb)
                      (read_descriptor a mem t)), s', false).
Proof.
  intros W N L El Eg C B lsb. unfold walk. rewrite !single_bit by lia.
  cbn [rawTTEValue read_descriptor push_trace set_raw]. rewrite Z.pow_0_r, Z.div_1_r, negb_involutive, Z.pow_1_r.
  rewrite (proj2 (Z.eqb_neq _ _) N), El. fold (read_descriptor a mem t).
  destruct left as [|left].
  - rewrite Z.sub_0_r, Z.eqb_refl. cbn [granuleSize set_blocksize]. rewrite Eg.
    rewrite (finish_ok 0); [|done|apply W|done]. eauto.
  - destruct B as [B|B]; [done|]. rewrite B, (proj2 (Z.eqb_neq (3 - _) 3)) by lia. cbn [Z.eqb negb].
    destruct left as [|[|]]; [| |lia].
    + change (3 - Z.of_nat 1) with 2. cbn [Z.eqb Pos.eqb mbind outcome_bind].
      change (2 ^ 21 - 1) with (2 ^ (12 + 9 * Z.of_nat 1) - 1).
      rewrite (finish_ok 1); [|lia|apply W|done]. eauto.
    + change (3 - Z.of_nat 2) with 1. cbn [Z.eqb Pos.eqb mbind outcome_bind].
      change (2 ^ 30 - 1) with (2 ^ (12 + 9 * Z.of_nat 2) - 1).
      rewrite (finish_ok 2); [|lia|apply W|done]. eauto.
Qed.

Lemma walk_table m mem a t s left va :
  walking t -> mem a mod 2 <> 0 -> (mem a / 2) mod 2 = 1 ->
  currentLookupLevel s = 3 - Z.of_nat (S left) ->
  supported (gran_of (ts_isBR0 s) m) ->
  (S left <= first_left (IAddrOffset (gran_of (ts_isBR0 s) m)))%nat ->
  exists r, walk m (read_descriptor a mem t) s =
      Done (read_descriptor a mem t, set_level (3 - Z.of_nat left) r s, false) /\
    points va (12 + 9 * Z.of_nat (S left)) (field (mem a) 12 36 * 2 ^ 12) left r.
Proof.
  intros W N B El Sup Lf. destruct (next_resolver m (ts_isBR0 s) (mem a) va left Sup Lf) as (r & E & P).
  exists r. split; [|done]. unfold walk. rewrite !single_bit by lia.
  cbn [rawTTEValue read_descriptor push_trace set_raw]. rewrite Z.pow_0_r, Z.div_1_r, negb_involutive, Z.pow_1_r.
  rewrite (proj2 (Z.eqb_neq _ _) N), El, B, (proj2 (Z.eqb_neq (3 - _) 3)) by lia. cbn [Z.eqb negb].
  replace (3 - Z.of_nat (S left) + 1) with (3 - Z.of_nat left) by lia. by rewrite E.
Qed.

Lemma walk_bad_block m mem a t s :
  mem a mod 2 <> 0 -> (mem a / 2) mod 2 = 0 -> currentLookupLevel s = 0 ->
  walk m (read_descriptor a mem t) s = Assert "Encountered Non-standard BLOCK entry".
Proof.
  intros N B El. unfold walk. rewrite !single_bit by lia.
  cbn [rawTTEValue read_descriptor push_trace set_raw]. rewrite Z.pow_0_r, Z.div_1_r, negb_involutive, Z.pow_1_r.
  by rewrite (proj2 (Z.eqb_neq _ _) N), El, B.
Qed.

Lemma trace_loop_spec left : forall fuel m mem t s hi table ta,
  (left < fuel)%nat -> (left <= 3)%nat -> walking t ->
  supported (gran_of (ts_isBR0 s) m) ->
  (left <= first_left (IAddrOffset (gran_of (ts_isBR0 s) m)))%nat ->
  points (theVaddr t) hi table left (TTAddressResolver s) ->
  currentLookupLevel s = 3 - Z.of_nat left -> granuleSize s = 2 ^ 12 ->
  theCurrentTranslationLevel t + Z.of_nat left < requiredTableLookups s ->
  reports (arm_walk left mem (theVaddr t) hi table) t (trace_loop fuel m mem t s ta).
Proof.
  induction left as [|left IH]; intros [|fuel] m mem t s hi table ta F L3 W Sup Lf [Pc Pa] El Eg Lv; try lia.
  all: cbn [trace_loop arm_walk]; unfold preTranslate, preWalk;
       rewrite (proj2 (Z.ltb_lt _ _)) by lia; cbn [default from_option id next_level TTAddressResolver theVaddr];
       rewrite Pa; set (a := table + _); fold (next_level t); fold (read_descriptor a mem t);
       destruct (Z.eqb_spec (mem a mod 2) 0) as [E0|N0].
  1, 3: rewrite walk_fault by done; cbn; eauto 10.
  - destruct (walk_leaf m mem a t s 0 W N0) as (s' & Ew); [lia|done..|by left|]. rewrite Ew. 
    destruct (Z.eqb_spec ((mem a / 2) mod 2) 1) as [_|_]; unfold arm_page;
      cbn -[Z.mul Z.add Z.pow Z.modulo]; eexists _, _; (split; [reflexivity|]);
      (split_and!; try done); apply W.
  - destruct (Z.eqb_spec ((mem a / 2) mod 2) 1) as [E1|N1].
    + destruct (walk_table m mem a t s left (theVaddr t) W N0 E1 El Sup Lf) as (r & Ew & P). rewrite Ew.
      cbn [mbind outcome_bind]. replace (theDone (read_descriptor a mem t)) with false by (symmetry; apply W).
      specialize (IH fuel m mem (read_descriptor a mem t) (set_level (3 - Z.of_nat left) r s)
        (12 + 9 * Z.of_nat (S left)) (field (mem a) 12 36 * 2 ^ 12) a).
      destruct (arm_walk left mem (theVaddr t) _ _) as [res l] eqn:Er.
      cbn -[Z.mul Z.add Z.pow Z.of_nat] in IH. rewrite Er in IH.
      lapply IH; [clear IH; intros IH|lia].
      assert (R : reports (res, l) (read_descriptor a mem t)
                    (trace_loop fuel m mem (read_descriptor a mem t) (set_level (3 - Z.of_nat left) r s) a)).
      { apply IH; try done; try lia. by apply read_walking. }
      clear - R. unfold reports in *. cbn [fst snd] in *.
      destruct res; [| |done|]; destruct R as (t' & a' & -> & D & Fl & Pd & T); exists t', a';
        (split_and!; try done; rewrite T; cbn; by rewrite <-app_assoc).
    + assert (B0 : (mem a / 2) mod 2 = 0) by (pose proof (Z.mod_pos_bound (mem a / 2) 2); lia).
      destruct (Nat.eqb_spec (S left) 3) as [E3|N3].
      * rewrite walk_bad_block by (done || lia). done.
      * destruct (walk_leaf m mem a t s (S left) W N0) as (s' & Ew); [lia|done..|by right|]. rewrite Ew.
        cbn -[Z.mul Z.add Z.pow Z.modulo Z.of_nat]. eexists _, _. split; [reflexivity|].
        split_and!; try done. apply W.
Qed.

(** Registers with 4KB granules in both ranges and supported address sizes. *)
Record regs_4K (r : mmu_regs_t) : Prop := {
  r4_gran0 : getGranuleSize 0 r = Done (2 ^ 12);
  r4_gran1 : getGranuleSize 1 r = Done (2 ^ 12);
  r4_pa : exists w, parsePASizeFromRegs r = Done w;
  r4_size : forall br, 16 <= getIAOffsetValue br r <= 39;
}.

Definition mmu_4K (r : mmu_regs_t) : mmu_t :=
  mkMMU r (newGranule TG0_Granule (2 ^ 12) 48 (getIAOffsetValue true r))
    (newGranule TG1_Granule (2 ^ 12) 48 (getIAOffsetValue false r)).

Lemma setup_4K r : regs_4K r -> setupAddressSpaceSizesAndGranules r = Done (mmu_4K r).
Proof.
  intros [E0 E1 [w Ew] _]. unfold setupAddressSpaceSizesAndGranules. by rewrite E0, E1, Ew.
Qed.

Lemma supported_4K r br : regs_4K r -> supported (gran_of br (mmu_4K r)).
Proof. intros [_ _ _ B]. specialize (B br). by destruct br. Qed.

(** The walk in one range. *)
Lemma range_walk r mem t br ta :
  regs_4K r -> walking t -> theCurrentTranslationLevel t = 0 ->
  let tnsz := getIAOffsetValue br r in
  let left := first_left tnsz in
  let x := 64 - tnsz - (12 + 9 * Z.of_nat left) + 3 in
  let ttbr := if br then TTBR0 r EL1 else TTBR1 r EL1 in
  exists s, setupTTResolver (mmu_4K r) br (getInitialLookupLevel br (mmu_4K r)) ttbr = Done s /\
    reports (arm_walk left mem (theVaddr t) (64 - tnsz) (field ttbr x (48 - x) * 2 ^ x)) t
      (trace_loop 4 (mmu_4K r) mem t
         (mkTState (4 - getInitialLookupLevel br (mmu_4K r)) (getInitialLookupLevel br (mmu_4K r)) br
            (2 ^ 12) s 0) ta).
Proof.
  intros R W L. cbn zeta. pose proof (supported_4K r br R) as Sup.
  unfold getInitialLookupLevel. rewrite (initial_level _ Sup).
  set (ttbr := if br then _ else _).
  destruct (first_resolver (mmu_4K r) br ttbr (theVaddr t) Sup) as (s & E & P).
  assert (Et : IAddrOffset (gran_of br (mmu_4K r)) = getIAOffsetValue br r) by (by destruct br).
  rewrite Et in *. exists s. split; [done|].
  assert (first_left (getIAOffsetValue br r) <= 3)%nat by (unfold first_left; repeat destruct (_ <=? _); lia).
  apply trace_loop_spec; cbn [ts_isBR0 TTAddressResolver currentLookupLevel granuleSize requiredTableLookups];
    try done; try lia. by rewrite Et.
Qed.

(** What the trace walk of a translation answers. *)
Definition answers (res : option (arm_result * list Z)) (t : Translation) (ta : Z)
    (o : outcome (bool * Translation * Z)) : Prop :=
  match res with
  | None => o = Done (false, t, ta)
  | Some (ArmPage pa, l) => exists t' a, o = Done (true, t', a) /\
      thePageFault t' = false /\ thePaddr t' = pa /\ trace_addresses t' = l
  | Some (ArmFault, l) => exists t' a, o = Done (true, t', a) /\
      thePageFault t' = true /\ thePaddr t' = a /\ trace_addresses t' = l
  | Some (ArmReservedAtLevel0, _) => o = Assert "Encountered Non-standard BLOCK entry"
  | Some (ArmReservedAtLevel3 d, l) => exists t' a, o = Done (true, t', a) /\
      thePageFault t' = false /\ thePaddr t' = arm_page d (theVaddr t) /\ trace_addresses t' = l
  end.

Lemma reports_answers res t ta o :
  trace_addresses t = [] -> reports res t o ->
  answers (Some res) t ta ('(t, a) ← o; Done (true, t, a)).
Proof.
  intros T Rp. destruct res as [res l]. unfold reports in Rp. cbn [fst snd] in Rp. rewrite T in Rp.
  destruct res; [| |by rewrite Rp|]; destruct Rp as (t' & a & -> & D & F & P & Tr); exists t', a; done.
Qed.

(** C18 (refinement): with 4KB granules in both ranges and the address sizes the
    resolvers support (16 to 39), the trace simulator's walk for a fresh translation
    (not one of a data access with an attached instruction, which is resynchronised
    instead of faulting) ends after at most four descriptors and finds what the
    architecture's tables say: the physical address of the page or block, or a page
    fault; it reads the descriptors of the walk in order.  An address in neither range
    is refused.  The two encodings that the architecture reserves and treats as faults
    are the exceptions, and the theorem says what becomes of them: a block descriptor
    at level 0 stops the simulator, and a level-3 descriptor whose low bits are 01 is
    taken for a page. *)
Theorem trace_walk_refines_tables (r : mmu_regs_t) (mem : Z -> Z) (t : Translation) (ta : Z) :
  regs_4K r -> walking t -> theCurrentTranslationLevel t = 0 -> trace_addresses t = [] ->
  exists m, setupAddressSpaceSizesAndGranules r = Done m /\
    answers (arm_translate r mem (theVaddr t)) t ta (push_back_trace m mem t ta).
Proof.
  intros R W L T. exists (mmu_4K r). split; [by apply setup_4K|].
  unfold arm_translate, push_back_trace, InitialTranslationSetup, checkBR0RangeForVAddr.
  cbn [GetUpperAddressRangeLimit GetLowerAddressRangeLimit gran_class Gran0 Gran1 mmu_4K newGranule IAddrOffset].
  rewrite (proj2 (Z.leb_le 11 (getIAOffsetValue true r))) by (pose proof (r4_size r R true); lia).
  assert (G : forall b, getGranuleSize (Z.b2z b) (mmu_regs (mmu_4K r)) = Done (2 ^ 12))
    by (intros []; apply R).
  destruct (Z.ltb_spec (theVaddr t) (2 ^ (64 - getIAOffsetValue true r))) as [B0|B0].
  - rewrite (proj2 (Z.leb_le (theVaddr t) (2 ^ _ - 1))) by lia. cbn [Z.eqb]. change 1 with (Z.b2z true).
    rewrite (G true). cbn [mbind outcome_bind].
    destruct (range_walk r mem t true ta R W L) as (s & Es & Rp).
    cbn [mmu_regs mmu_4K]. rewrite Es. cbn [mbind outcome_bind]. by apply reports_answers.
  - rewrite (proj2 (Z.leb_gt (theVaddr t) (2 ^ _ - 1))) by lia.
    destruct (Z.leb_spec (2 ^ 64 - 2 ^ (64 - getIAOffsetValue false r)) (theVaddr t)) as [B1|B1]; [|done].
    cbn [Z.eqb]. change 0 with (Z.b2z false) at 1. rewrite (G false). cbn [mbind outcome_bind].
    destruct (range_walk r mem t false ta R W L) as (s & Es & Rp).
    cbn [mmu_regs mmu_4K]. rewrite Es. cbn [mbind outcome_bind]. by apply reports_answers.
Qed.

(** Registers of a system with 48-bit addresses and granules of size [tg1] in the
    upper range, tables at 0x1000, and tables that map one page. *)
Definition sample_regs (tg1 : Z) : mmu_regs_t :=
  mkRegs (fun _ => 1) (fun _ => 16 + 16 * 2 ^ 16 + tg1 * 2 ^ 30) (fun _ => 0x1000) (fun _ => 0x1000) 0.
Definition sample_tables (a : Z) : Z :=
  if a =? 0x1000 then 0x2003
  else if a =? 0x2000 then 0x3003
  else if a =? 0x3000 then 0x4003
  else if a =? 0x4008 then 0x6003
  else 0.

Lemma trace_walk_refines_tables_witness :
  exists m t' a, setupAddressSpaceSizesAndGranules (sample_regs 2) = Done m /\
    push_back_trace m sample_tables (newTranslation 0x1234 0 kDATA true false) 0 = Done (true, t', a) /\
    thePaddr t' = 0x6234 /\ trace_addresses t' = [0x1000; 0x2000; 0x3000; 0x4008].
Proof.
  destruct (trace_walk_refines_tables (sample_regs 2) sample_tables
    (newTranslation 0x1234 0 kDATA true false) 0) as (m & Em & A).
  - split; [reflexivity|reflexivity|by eexists|]. intros []; vm_compute; split; discriminate.
  - by split.
  - reflexivity.
  - reflexivity.
  - assert (Ea : arm_translate (sample_regs 2) sample_tables 0x1234
                   = Some (ArmPage 0x6234, [0x1000; 0x2000; 0x3000; 0x4008])) by (vm_compute; reflexivity).
    cbn [theVaddr newTranslation] in A. rewrite Ea in A. destruct A as (t' & a & E & _ & P & T).
    exists m, t', a. auto.
Defined.

(** A level-3 descriptor that ends in 01 translates, where the architecture faults. *)
Theorem reserved_descriptor_translates :
  let tables a := if a =? 0x4008 then 0x6001 else sample_tables a in
  arm_translate (sample_regs 2) tables 0x1234
    = Some (ArmReservedAtLevel3 0x6001, [0x1000; 0x2000; 0x3000; 0x4008]) /\
  (m ← setupAddressSpaceSizesAndGranules (sample_regs 2);
   '(_, t, _) ← push_back_trace m tables (newTranslation 0x1234 0 kDATA true false) 0;
   Done (thePageFault t, thePaddr t)) = Done (false, 0x6234).
Proof. split; by vm_compute. Qed.

(** The granule sizes of the two ranges are asked for with each other's numbers:
    with 4KB pages in the lower range and 64KB pages in the upper one, bits 12 to 15
    of an address of the lower range end up in its translation. *)
Theorem granule_sizes_are_swapped :
  getGranuleSize 0 (sample_regs 3) = Done (2 ^ 12) /\
  arm_translate (sample_regs 3) sample_tables 0x1234
    = Some (ArmPage 0x6234, [0x1000; 0x2000; 0x3000; 0x4008]) /\
  (m ← setupAddressSpaceSizesAndGranules (sample_regs 3);
   '(_, t, _) ← push_back_trace m sample_tables (newTranslation 0x1234 0 kDATA true false) 0;
   Done (thePaddr t)) = Done 0x7234.
Proof. split_and!; by vm_compute. Qed.
