(* ===== verification/TLB.v ===== *)
(** * Translation buffers and the trace port of the MMU

    The [TLB] of components/MMU/MMUImpl.cpp, and the component's part that the
    trace simulator uses: the port [TLBReqIn].  A buffer is an [unordered_map];
    the order in which its loops visit the entries is an argument of the model,
    about which the theorems only assume that it visits every entry once.  Ages
    ([theRate]) are 64-bit counters of lookups, which a run does not exhaust; they
    are unbounded here. *)

From stdpp Require Import base gmap list strings fin_maps sorting.
From Stdlib Require Import ZArith Lia.
From S2P Require Import Prelude MMU.

Local Open Scope Z_scope.

Record TLBentry : Type := mkTLBentry {
  theRate : Z;
  tlb_vaddr : Z;
  tlb_paddr : Z;
}.

Record TLB : Type := mkTLB {
  theSize : Z;
  theTLB : gmap Z TLBentry;
}.

Section tlb.
(** The order of iteration of the hash table. *)
Context (order : gmap Z TLBentry -> list (Z * TLBentry)).

(** The loop of [lookUp]: every entry ages, a match is rejuvenated and is the
    answer, the last one if there were several. *)
Definition lookUp_entry (anAddress : Z) (e : TLBentry) : TLBentry :=
  mkTLBentry (if tlb_vaddr e =? anAddress then 0 else theRate e + 1) (tlb_vaddr e) (tlb_paddr e).

Definition lookUp (anAddress : Z) (t : TLB) : (bool * Z) * TLB :=
  (foldl (fun ret x => if tlb_vaddr (snd x) =? anAddress then (true, tlb_paddr (snd x)) else ret)
     (false, 0) (order (theTLB t)),
   mkTLB (theSize t) (lookUp_entry anAddress <$> theTLB t)).

(** [evict]: the oldest entry, the first of them that the loop visits. *)
Definition oldest (x : Z * TLBentry) (l : list (Z * TLBentry)) : Z * TLBentry :=
  foldl (fun res iter => if theRate (snd res) <? theRate (snd iter) then iter else res) x l.

Definition evict (t : TLB) : outcome TLB :=
  match order (theTLB t) with
  | [] => Assert "erase(end())"
  | x :: l => Done (mkTLB (theSize t) (delete (fst (oldest x l)) (theTLB t)))
  end.

(** [operator[]] followed by the assignment of a physical address. *)
Definition tlb_assign (anAddress thePaddr : Z) (t : TLB) : outcome TLB :=
  match theTLB t !! anAddress with
  | Some e => Done (mkTLB (theSize t) (<[anAddress := mkTLBentry (theRate e) (tlb_vaddr e) thePaddr]> (theTLB t)))
  | None =>
      t ← (if Z.of_nat (size (theTLB t)) =? theSize t then evict t else Done t);
      Done (mkTLB (theSize t) (<[anAddress := mkTLBentry 0 anAddress thePaddr]> (theTLB t)))
  end.

Definition tlb_resize (aSize : Z) (t : TLB) : TLB := mkTLB aSize (theTLB t).

(** ** The component's state in the trace simulator *)

Record MMUComponent : Type := mkMMUComponent {
  PerfectTLB : bool;
  theInstrTLB : TLB;
  theDataTLB : TLB;
  theMMU : option mmu_t;
  theMMUInitialized : bool;
  (* the page walker's own pointer, and its [trace_address] *)
  walker_theMMU : option mmu_t;
  walker_trace_address : Z;
}.

Definition tlb_of (instr : bool) (c : MMUComponent) : TLB :=
  if instr then theInstrTLB c else theDataTLB c.
Definition set_tlb (instr : bool) (t : TLB) (c : MMUComponent) : MMUComponent :=
  if instr then mkMMUComponent (PerfectTLB c) t (theDataTLB c) (theMMU c) (theMMUInitialized c)
                  (walker_theMMU c) (walker_trace_address c)
  else mkMMUComponent (PerfectTLB c) (theInstrTLB c) t (theMMU c) (theMMUInitialized c)
         (walker_theMMU c) (walker_trace_address c).

Definition mmu_initialize (perfect : bool) (iTLBSize dTLBSize : Z) : MMUComponent :=
  mkMMUComponent perfect (mkTLB iTLBSize ∅) (mkTLB dTLBSize ∅) None false None 0.

(** A new [mmu_t] whose registers are QEMU's; the registers that are not copied
    are never read. *)
Definition fresh_mmu (qemuRegs : mmu_regs_t) : outcome mmu_t :=
  setupAddressSpaceSizesAndGranules (initRegsFromQEMUObject qemuRegs qemuRegs).

Definition ensure_mmu (qemuRegs : mmu_regs_t) (c : MMUComponent) : outcome MMUComponent :=
  if theMMUInitialized c then Done c
  else
    m ← fresh_mmu qemuRegs;
    Done (mkMMUComponent (PerfectTLB c) (theInstrTLB c) (theDataTLB c) (Some m) true
            (Some m) (walker_trace_address c)).

Definition walker_mmu (c : MMUComponent) : outcome mmu_t :=
  match walker_theMMU c with Some m => Done m | None => Assert "theMMU is null" end.

(** [push(TLBReqIn)]: the translation and what its walk leaves in it. *)
Definition push_TLBReqIn (qemuRegs : mmu_regs_t) (mem : Z -> Z) (aTranslate : Translation)
    (c : MMUComponent) : outcome (Translation * MMUComponent) :=
  if PerfectTLB c then Done (aTranslate, c)
  else
    let instr := isInstr aTranslate in
    let '((hit, _), tlb) := lookUp (theVaddr aTranslate) (tlb_of instr c) in
    let c := set_tlb instr tlb c in
    if (hit : bool) then Done (aTranslate, c)
    else
      c ← ensure_mmu qemuRegs c;
      m ← walker_mmu c;
      '(_, t, a) ← push_back_trace m mem aTranslate (walker_trace_address c);
      let c := mkMMUComponent (PerfectTLB c) (theInstrTLB c) (theDataTLB c) (theMMU c)
                 (theMMUInitialized c) (walker_theMMU c) a in
      tlb ← tlb_assign (theVaddr t) (thePaddr t) (tlb_of instr c);
      Done (t, set_tlb instr tlb c).

(** ** The buffer as a list in order of use *)

Hypothesis (order_perm : forall m, order m ≡ₚ map_to_list m).

(** The specification: addresses with their translations, the last used first. *)
Definition lru_access (size : nat) (a pa : Z) (l : list (Z * Z)) : list (Z * Z) :=
  match find_by fst a l with
  | Some x => x :: filter (fun y => fst y <> a) l
  | None => (a, pa) :: take (size - 1) l
  end.

(** What a request does to a buffer: a lookup, and an assignment after a miss. *)
Definition tlb_access (a pa : Z) (t : TLB) : outcome TLB :=
  let '((hit, _), t) := lookUp a t in
  if (hit : bool) then Done t else tlb_assign a pa t.

(** The entries in order of age, which is strict. *)
Record in_order (t : TLB) (es : list TLBentry) : Prop := {
  io_map : theTLB t = list_to_map ((fun e => (tlb_vaddr e, e)) <$> es);
  io_nodup : NoDup (tlb_vaddr <$> es);
  io_sorted : StronglySorted (fun e e' => theRate e < theRate e') es;
  io_ages : Forall (fun e => 0 <= theRate e) es;
  io_size : Z.of_nat (length es) <= theSize t;
}.

Definition tlb_holds (t : TLB) (l : list (Z * Z)) : Prop :=
  exists es, in_order t es /\ (fun e => (tlb_vaddr e, tlb_paddr e)) <$> es = l.

Definition keyed (e : TLBentry) : Z * TLBentry := (tlb_vaddr e, e).

Lemma keyed_fst es : (keyed <$> es).*1 = tlb_vaddr <$> es.
Proof using. clear. by rewrite <-list_fmap_compose. Qed.

Lemma order_entries t es : in_order t es -> order (theTLB t) ≡ₚ keyed <$> es.
Proof using order_perm.
  intros I. rewrite order_perm, (io_map _ _ I). apply map_to_list_to_map. rewrite keyed_fst. apply I.
Qed.

Lemma lookUp_loop a l acc :
  NoDup ((fun x : Z * TLBentry => tlb_vaddr (snd x)) <$> l) ->
  foldl (fun ret x => if tlb_vaddr (snd x) =? a then (true, tlb_paddr (snd x)) else ret) acc l =
    match find_by (fun x => tlb_vaddr (snd x)) a l with
    | Some x => (true, tlb_paddr (snd x))
    | None => acc
    end.
Proof using.
  clear. revert acc. induction l as [|x l IH]; intros acc ND; [done|]. cbn in ND.
  apply NoDup_cons in ND as [NI ND]. cbn [foldl]. rewrite IH by done.
  unfold find_by. cbn [List.find]. case_bool_decide as E.
  - rewrite (proj2 (Z.eqb_eq _ _) E). subst a. fold (find_by (fun x => tlb_vaddr (snd x)) (tlb_vaddr (snd x)) l).
    by apply find_by_None in NI as ->.
  - by rewrite (proj2 (Z.eqb_neq _ _) E).
Qed.

Lemma lookUp_answer t es a :
  in_order t es ->
  fst (lookUp a t) = match find_by tlb_vaddr a es with
                     | Some e => (true, tlb_paddr e) | None => (false, 0) end.
Proof using order_perm.
  intros I. cbn [fst lookUp]. pose proof (order_entries t es I) as P.
  assert (K : (fun x : Z * TLBentry => tlb_vaddr (snd x)) <$> (keyed <$> es) = tlb_vaddr <$> es)
    by (by rewrite <-list_fmap_compose).
  assert (ND : NoDup ((fun x : Z * TLBentry => tlb_vaddr (snd x)) <$> order (theTLB t))).
  { rewrite P, K. apply I. }
  rewrite lookUp_loop by done. rewrite (find_by_perm _ a _ _ ND P).
  clear. induction es as [|e es IH]; [done|]. unfold find_by in *. cbn.
  case_bool_decide; [done|]. exact IH.
Qed.

(** Entries with another address grow one lookup older. *)
Lemma aged a e : tlb_vaddr e <> a -> theRate (lookUp_entry a e) = theRate e + 1.
Proof using. intros N. cbn. by rewrite (proj2 (Z.eqb_neq _ _)). Qed.

Lemma aged_sorted a l :
  (forall x, x ∈ l -> tlb_vaddr x <> a) ->
  StronglySorted (fun e e' => theRate e < theRate e') l ->
  StronglySorted (fun e e' => theRate e < theRate e') (lookUp_entry a <$> l).
Proof using.
  clear. intros N St. induction St as [|x l St IH Fx]; [constructor|]. cbn [fmap list_fmap]. constructor.
  - apply IH. intros y Hy. apply N. by apply list_elem_of_further.
  - apply Forall_forall. intros y Hy. apply list_elem_of_fmap in Hy as (z & -> & Hz).
    rewrite Forall_forall in Fx. specialize (Fx z Hz).
    rewrite !aged; [lia|apply N; by apply list_elem_of_further|apply N, list_elem_of_here].
Qed.

Lemma aged_rates a l :
  (forall x, x ∈ l -> tlb_vaddr x <> a) -> Forall (fun e => 0 <= theRate e) l ->
  Forall (fun e => 1 <= theRate e) (lookUp_entry a <$> l).
Proof using.
  clear. intros N Ag. apply Forall_forall. intros y Hy. apply list_elem_of_fmap in Hy as (z & -> & Hz).
  rewrite Forall_forall in Ag. specialize (Ag z Hz). rewrite aged by auto. lia.
Qed.

Lemma aged_map a l :
  lookUp_entry a <$> list_to_map (M := gmap Z TLBentry) (keyed <$> l)
  = list_to_map (keyed <$> (lookUp_entry a <$> l)).
Proof using.
  clear. induction l as [|e l IH]; [apply fmap_empty|].
  change (lookUp_entry a <$> <[tlb_vaddr e := e]> (list_to_map (M := gmap Z TLBentry) (keyed <$> l))
          = <[tlb_vaddr e := lookUp_entry a e]> (list_to_map (keyed <$> (lookUp_entry a <$> l)))).
  by rewrite fmap_insert, IH.
Qed.

Lemma find_split a es e :
  NoDup (tlb_vaddr <$> es) -> find_by tlb_vaddr a es = Some e ->
  es ≡ₚ e :: filter (fun x => tlb_vaddr x <> a) es.
Proof using.
  clear. intros ND F. apply find_by_Some in F as [He Ea].
  transitivity (filter (fun x => tlb_vaddr x = a) es ++ filter (fun x => tlb_vaddr x <> a) es).
  { symmetry. apply filter_app_complement. }
  enough (filter (fun x => tlb_vaddr x = a) es = [e]) as -> by done.
  subst a. induction es as [|x es IH]; [by apply not_elem_of_nil in He|].
  cbn in ND. apply NoDup_cons in ND as [NI ND]. rewrite filter_cons.
  apply elem_of_cons in He as [->|He].
  - rewrite decide_True by done. f_equal. apply filter_none.
    intros y Hy E. apply NI. rewrite <-E. by apply list_elem_of_fmap_2.
  - rewrite decide_False; [auto|]. intros E. apply NI. rewrite E. by apply list_elem_of_fmap_2.
Qed.

(** Ageing keeps the order; a hit moves its entry to the front. *)
Lemma aged_order t es a :
  in_order t es -> find_by tlb_vaddr a es = None ->
  in_order (snd (lookUp a t)) (lookUp_entry a <$> es) /\
  Forall (fun e => 1 <= theRate e) (lookUp_entry a <$> es).
Proof using.
  clear order_perm. intros [M ND St Ag Sz] F. apply find_by_None in F.
  assert (N : forall x, x ∈ es -> tlb_vaddr x <> a).
  { intros x Hx <-. apply F. by apply list_elem_of_fmap_2. }
  pose proof (aged_rates a es N Ag) as A1. split; [|done]. split; cbn [snd lookUp theTLB theSize].
  - rewrite M. apply aged_map.
  - by rewrite <-list_fmap_compose.
  - by apply aged_sorted.
  - eapply Forall_impl; [exact A1|]. cbn. lia.
  - by rewrite length_fmap.
Qed.

Lemma rejuvenated_order t es a e :
  in_order t es -> find_by tlb_vaddr a es = Some e ->
  in_order (snd (lookUp a t))
    (lookUp_entry a e :: (lookUp_entry a <$> filter (fun x => tlb_vaddr x <> a) es)).
Proof using.
  clear order_perm. intros [M ND St Ag Sz] F. pose proof (find_split a es e ND F) as P.
  apply find_by_Some in F as [He Ea]. set (rest := filter (fun x => tlb_vaddr x <> a) es) in *.
  assert (N : forall x, x ∈ rest -> tlb_vaddr x <> a) by (by intros x [? _]%list_elem_of_filter).
  assert (Ar : Forall (fun e => 0 <= theRate e) rest).
  { apply Forall_forall. intros x [_ Hx]%list_elem_of_filter. rewrite Forall_forall in Ag. auto. }
  pose proof (aged_rates a rest N Ar) as A1.
  assert (E0 : theRate (lookUp_entry a e) = 0) by (cbn; by rewrite (proj2 (Z.eqb_eq _ _) Ea)).
  split; cbn [snd lookUp theTLB theSize].
  - rewrite M, (list_to_map_proper (M := gmap Z) (keyed <$> es) (keyed <$> (e :: rest)));
      [apply aged_map|by rewrite keyed_fst|by rewrite P].
  - change (NoDup (tlb_vaddr <$> (lookUp_entry a <$> (e :: rest)))).
    rewrite <-list_fmap_compose. change (NoDup (tlb_vaddr <$> (e :: rest))). by rewrite <-P.
  - constructor.
    + apply aged_sorted; [done|]. by apply filter_sorted.
    + eapply Forall_impl; [exact A1|]. cbn beta. intros x Hx. rewrite E0. lia.
  - constructor; [by rewrite E0|]. eapply Forall_impl; [exact A1|]. cbn beta. lia.
  - cbn [length]. rewrite length_fmap. apply Permutation_length in P. cbn in P. lia.
Qed.

(** The loop of [evict] ends on an entry that no other exceeds in age. *)
Lemma oldest_max x l :
  oldest x l ∈ x :: l /\ forall y, y ∈ x :: l -> theRate (snd y) <= theRate (snd (oldest x l)).
Proof using.
  clear. unfold oldest. revert x. induction l as [|y l IH]; intros x; cbn [foldl].
  - split; [apply list_elem_of_here|]. by intros y ->%list_elem_of_singleton.
  - destruct (theRate x.2 <? theRate y.2) eqn:E.
    + destruct (IH y) as [I M]. split; [by apply list_elem_of_further|].
      intros z [->|Hz]%elem_of_cons; [|by apply M]. pose proof (M y (list_elem_of_here _ _)). lia.
    + destruct (IH x) as [I M]. split.
      { apply elem_of_cons in I as [->|I]; [apply list_elem_of_here|by do 2 apply list_elem_of_further]. }
      intros z [->|[->|Hz]%elem_of_cons]%elem_of_cons; [apply M, list_elem_of_here| |].
      * pose proof (M x (list_elem_of_here _ _)). lia.
      * apply M. by apply list_elem_of_further.
Qed.

(** So it removes the last entry of the list, whatever the order of the table. *)
Lemma evict_last t es e :
  in_order t (es ++ [e]) -> evict t = Done (mkTLB (theSize t) (list_to_map (keyed <$> es))).
Proof using order_perm.
  intros I. pose proof (order_entries _ _ I) as P. unfold evict.
  destruct (order (theTLB t)) as [|x l].
  { apply Permutation_nil in P. rewrite fmap_app in P. by destruct (keyed <$> es). }
  destruct (oldest_max x l) as [Ho Mo]. rewrite P in Ho.
  apply list_elem_of_fmap in Ho as (o & Eo & Ho).
  assert (o = e) as ->.
  { apply elem_of_app in Ho as [Ho|Ho]; [exfalso|by apply list_elem_of_singleton in Ho].
    pose proof (StronglySorted_app_1_elem_of _ _ _ _ _ (io_sorted _ _ I) Ho (list_elem_of_here e [])) as L.
    assert (Ie : keyed e ∈ x :: l).
    { rewrite P. apply list_elem_of_fmap_2, elem_of_app. right. apply list_elem_of_here. }
    specialize (Mo _ Ie). rewrite Eo in Mo. cbn in Mo, L. lia. }
  rewrite Eo. cbn [fst keyed]. f_equal. f_equal. rewrite (io_map _ _ I).
  change (delete (tlb_vaddr e) (list_to_map (M := gmap Z TLBentry) (keyed <$> (es ++ [e])))
          = list_to_map (keyed <$> es)).
  rewrite (list_to_map_proper (M := gmap Z) (keyed <$> (es ++ [e])) (keyed <$> (e :: es)));
    [|rewrite keyed_fst; apply I|by rewrite (Permutation_app_comm es [e])].
  apply delete_insert_id, not_elem_of_list_to_map. rewrite keyed_fst. pose proof (io_nodup _ _ I) as ND.
  rewrite fmap_app, NoDup_app in ND. intros C. by eapply (proj1 (proj2 ND)), list_elem_of_here.
Qed.

Lemma absent_entry t es a :
  in_order t es -> find_by tlb_vaddr a es = None -> theTLB t !! a = None.
Proof using.
  clear. intros I F%find_by_None. rewrite (io_map _ _ I). apply not_elem_of_list_to_map.
  by rewrite <-keyed_fst in F.
Qed.

Lemma table_size t es : in_order t es -> size (theTLB t) = length es.
Proof using.
  clear. intros I. rewrite (io_map _ _ I), <-length_map_to_list, map_to_list_to_map.
  - apply length_fmap.
  - change (NoDup (keyed <$> es).*1). rewrite keyed_fst. apply I.
Qed.

(** A prefix of the list, with a new youngest entry. *)
Lemma push_front t es es' a pa n :
  in_order t (es ++ es') -> Forall (fun e => 1 <= theRate e) (es ++ es') ->
  find_by tlb_vaddr a (es ++ es') = None -> Z.of_nat (length es) < n ->
  in_order (mkTLB n (<[a := mkTLBentry 0 a pa]> (list_to_map (keyed <$> es)))) (mkTLBentry 0 a pa :: es).
Proof using.
  clear. intros [M ND St Ag Sz] A1 F%find_by_None L. apply Forall_app in A1 as [A1 _].
  rewrite fmap_app in F, ND. apply NoDup_app in ND as [ND _].
  rewrite elem_of_app in F. split; cbn [theTLB theSize].
  - done.
  - cbn. apply NoDup_cons. auto.
  - constructor; [by eapply StronglySorted_app_1_l|]. eapply Forall_impl; [exact A1|]. cbn. lia.
  - constructor; [done|]. eapply Forall_impl; [exact A1|]. cbn. lia.
  - cbn [length]. lia.
Qed.

Lemma assign_miss t es a pa :
  in_order t es -> Forall (fun e => 1 <= theRate e) es -> find_by tlb_vaddr a es = None ->
  0 < theSize t ->
  exists t', tlb_assign a pa t = Done t' /\ theSize t' = theSize t /\
    in_order t' (mkTLBentry 0 a pa :: take (Z.to_nat (theSize t) - 1) es).
Proof using order_perm.
  intros I A1 F Pos. unfold tlb_assign. rewrite (absent_entry t es a I F), (table_size t es I).
  pose proof (io_size _ _ I) as Sz. destruct (Z.eqb_spec (Z.of_nat (length es)) (theSize t)) as [E|E].
  - destruct es as [|e es _] using rev_ind; [cbn in E; lia|]. rewrite (evict_last t es e I).
    rewrite length_app in E, Sz. cbn [length] in E, Sz.
    eexists. split; [reflexivity|]. split; [done|]. rewrite take_app_length' by lia.
    eapply push_front; [exact I|done|done|cbn; lia].
  - eexists. split; [reflexivity|]. split; [done|]. rewrite take_ge by lia. rewrite (io_map _ _ I).
    rewrite <-(app_nil_r es) in I, A1, F. eapply push_front; [exact I|done|done|cbn; lia].
Qed.

(** One request: the buffer keeps the addresses that were used last. *)
Lemma access_holds t l a pa :
  tlb_holds t l -> 0 < theSize t ->
  exists t', tlb_access a pa t = Done t' /\ theSize t' = theSize t /\
    tlb_holds t' (lru_access (Z.to_nat (theSize t)) a pa l).
Proof using order_perm.
  intros (es & I & <-) Pos. unfold tlb_access.
  pose proof (lookUp_answer t es a I) as A. unfold lru_access.
  set (f := fun e => (tlb_vaddr e, tlb_paddr e)).
  assert (Fl : find_by fst a (f <$> es) = f <$> find_by tlb_vaddr a es).
  { clear. unfold find_by. induction es as [|e es IH]; [done|]. cbn. by case_bool_decide. }
  rewrite Fl. destruct (find_by tlb_vaddr a es) as [e|] eqn:F.
  - pose proof (rejuvenated_order t es a e I F) as R.
    destruct (lookUp a t) as [[h r] t'] eqn:L. cbn in A. injection A as -> ->. cbn [snd] in R.
    exists t'. split; [done|]. split; [by injection L as _ <-|]. eexists. split; [exact R|].
    cbn [fmap list_fmap option_fmap option_map]. f_equal. rewrite <-list_fmap_compose.
    rewrite filter_fmap_keys. done.
  - destruct (aged_order t es a I F) as [R A1].
    destruct (lookUp a t) as [[h r] t'] eqn:L. cbn in A. injection A as -> ->. cbn [snd] in R.
    assert (Sz : theSize t' = theSize t) by (by injection L as _ <-).
    destruct (assign_miss t' _ a pa R A1) as (t2 & E & S2 & I2); [|lia|].
    { by rewrite find_by_map, F. }
    exists t2. split; [done|]. split; [congruence|]. eexists. split; [exact I2|].
    cbn [fmap list_fmap option_fmap option_map]. f_equal. rewrite Sz, <-!fmap_take, <-list_fmap_compose. done.
Qed.
(** ** The component *)

(** The walk keeps the virtual address of its translation. *)
Lemma walk_vaddr m t s t' s' b : walk m t s = Done (t', s', b) -> theVaddr t' = theVaddr t.
Proof using.
  clear. unfold walk, finish_walk, setDone, setPagefault, mbind, outcome_bind.
  intros E. repeat case_match; simplify_eq; done.
Qed.

Lemma trace_loop_vaddr fuel m mem t s ta t' a :
  trace_loop fuel m mem t s ta = Done (t', a) -> theVaddr t' = theVaddr t.
Proof using.
  clear. revert t s ta. induction fuel as [|fuel IH]; intros t s ta; cbn [trace_loop]; [done|].
  destruct (preTranslate t s) as [t1 asked] eqn:Ep.
  assert (V1 : theVaddr t1 = theVaddr t).
  { unfold preTranslate, preWalk in Ep. case_match; by simplify_eq. }
  unfold mbind, outcome_bind. destruct (walk _ _ _) as [[[t2 s2] b]|] eqn:Ew; [|done].
  apply walk_vaddr in Ew. cbn in Ew. destruct (theDone t2); [intros [= <- <-]|intros E%IH]; congruence.
Qed.

Lemma push_back_trace_vaddr m mem t ta b t' a :
  push_back_trace m mem t ta = Done (b, t', a) -> theVaddr t' = theVaddr t.
Proof using.
  clear. unfold push_back_trace, mbind, outcome_bind. intros E.
  destruct (InitialTranslationSetup m t) as [[s|]|]; [|by simplify_eq|done].
  destruct (trace_loop _ _ _ _ _ _) as [[t2 a2]|] eqn:El; [|done]. simplify_eq.
  by eapply trace_loop_vaddr.
Qed.

(** The specification of the port: two lists of translations in order of use. *)
Record TranslationCache : Type := mkTC {
  tc_instr : list (Z * Z);
  tc_data : list (Z * Z);
  tc_mmu : option mmu_t;
  tc_address : Z;
}.

Definition tc_of (instr : bool) (s : TranslationCache) : list (Z * Z) :=
  if instr then tc_instr s else tc_data s.
Definition tc_set (instr : bool) (l : list (Z * Z)) (m : option mmu_t) (a : Z) (s : TranslationCache) :
    TranslationCache :=
  if instr then mkTC l (tc_data s) m a else mkTC (tc_instr s) l m a.

Definition spec_request (isz dsz : Z) (regs : mmu_regs_t) (mem : Z -> Z) (t : Translation)
    (s : TranslationCache) : outcome (Translation * TranslationCache) :=
  let instr := isInstr t in
  let sz := Z.to_nat (if instr then isz else dsz) in
  let l := tc_of instr s in
  match find_by fst (theVaddr t) l with
  | Some _ => Done (t, tc_set instr (lru_access sz (theVaddr t) 0 l) (tc_mmu s) (tc_address s) s)
  | None =>
      m ← (match tc_mmu s with Some m => Done m | None => fresh_mmu regs end);
      '(_, t', a) ← push_back_trace m mem t (tc_address s);
      Done (t', tc_set instr (lru_access sz (theVaddr t) (thePaddr t') l) (Some m) a s)
  end.

(** A sequence of requests, each with the registers and the memory of its time. *)
Fixpoint serve_all {S} (step : mmu_regs_t -> (Z -> Z) -> Translation -> S -> outcome (Translation * S))
    (rs : list (mmu_regs_t * (Z -> Z) * Translation)) (s : S) : outcome (list Translation * S) :=
  match rs with
  | [] => Done ([], s)
  | (regs, mem, t) :: rs =>
      '(t, s) ← step regs mem t s;
      '(ts, s) ← serve_all step rs s;
      Done (t :: ts, s)
  end.

Record caches (isz dsz : Z) (c : MMUComponent) (s : TranslationCache) : Prop := {
  ch_perfect : PerfectTLB c = false;
  ch_isize : theSize (theInstrTLB c) = isz;
  ch_dsize : theSize (theDataTLB c) = dsz;
  ch_instr : tlb_holds (theInstrTLB c) (tc_instr s);
  ch_data : tlb_holds (theDataTLB c) (tc_data s);
  ch_mmu : walker_theMMU c = tc_mmu s;
  ch_init : theMMUInitialized c = match tc_mmu s with Some _ => true | None => false end;
  ch_address : walker_trace_address c = tc_address s;
}.

(** Two runs agree: the same error, or the same answers and related states. *)
Definition agree {A S T} (R : S -> T -> Prop) (x : outcome (A * S)) (y : outcome (A * T)) : Prop :=
  match x, y with
  | Done (a, s), Done (b, t) => a = b /\ R s t
  | Assert e, Assert e' => e = e'
  | _, _ => False
  end.

Lemma lookUp_hit t l a :
  tlb_holds t l ->
  fst (fst (lookUp a t)) = match find_by fst a l with Some _ => true | None => false end.
Proof using order_perm.
  intros (es & I & <-). rewrite (lookUp_answer t es a I). clear. unfold find_by.
  induction es as [|e es IH]; [done|]. cbn. by case_bool_decide.
Qed.

Lemma caches_tlb isz dsz c s (instr : bool) :
  caches isz dsz c s -> 0 < isz -> 0 < dsz ->
  tlb_holds (tlb_of instr c) (tc_of instr s) /\
  theSize (tlb_of instr c) = (if instr then isz else dsz) /\ 0 < theSize (tlb_of instr c).
Proof using. clear. intros H ??. destruct H as [_ <- <- Hi Hd _ _ _]. by destruct instr. Qed.

Lemma caches_set isz dsz c s (instr : bool) t l m m' a :
  caches isz dsz c s -> theSize t = (if instr then isz else dsz) -> tlb_holds t l ->
  caches isz dsz
    (set_tlb instr t (mkMMUComponent (PerfectTLB c) (theInstrTLB c) (theDataTLB c) m' true (Some m) a))
    (tc_set instr l (Some m) a s).
Proof using. clear. intros H Sz Ht. destruct H. by destruct instr; split. Qed.

Lemma caches_hit isz dsz c s (instr : bool) t l :
  caches isz dsz c s -> theSize t = (if instr then isz else dsz) -> tlb_holds t l ->
  caches isz dsz (set_tlb instr t c) (tc_set instr l (tc_mmu s) (tc_address s) s).
Proof using. clear. intros H Sz Ht. destruct H. by destruct instr; split. Qed.

Lemma ensure_spec isz dsz c s (instr : bool) tlb regs :
  caches isz dsz c s ->
  match ensure_mmu regs (set_tlb instr tlb c),
        (match tc_mmu s with Some m => Done m | None => fresh_mmu regs end) with
  | Done c', Done m => exists m', c' = set_tlb instr tlb
      (mkMMUComponent (PerfectTLB c) (theInstrTLB c) (theDataTLB c) m' true (Some m) (tc_address s))
  | Assert e, Assert e' => e = e'
  | _, _ => False
  end.
Proof using.
  clear. intros [Hp _ _ _ _ Hm Hi Ha]. unfold ensure_mmu.
  replace (theMMUInitialized _) with (theMMUInitialized c) by (by destruct instr). rewrite Hi.
  destruct (tc_mmu s) as [m|].
  - exists (theMMU c). rewrite <-Hm, <-Ha. destruct c; cbn in *. subst. by destruct instr.
  - unfold mbind, outcome_bind.
    destruct (fresh_mmu regs) as [m|]; [|done]. exists (Some m). rewrite <-Ha. by destruct instr.
Qed.

Lemma request_agrees isz dsz regs mem t c s :
  0 < isz -> 0 < dsz -> caches isz dsz c s ->
  agree (caches isz dsz) (push_TLBReqIn regs mem t c) (spec_request isz dsz regs mem t s).
Proof using order_perm.
  intros Pi Pd C. set (instr := isInstr t).
  destruct (caches_tlb _ _ _ _ instr C Pi Pd) as (Ht & Sz & Pos).
  pose proof (lookUp_hit _ _ (theVaddr t) Ht) as Hit.
  pose proof (fun pa => access_holds _ _ (theVaddr t) pa Ht Pos) as Acc. unfold tlb_access in Acc.
  unfold push_TLBReqIn, spec_request. rewrite (ch_perfect _ _ _ _ C). fold instr. rewrite Sz in Acc.
  destruct (lookUp (theVaddr t) (tlb_of instr c)) as [[h r] tlb] eqn:L. cbn [fst] in Hit. subst h.
  destruct (find_by fst (theVaddr t) (tc_of instr s)) as [x|].
  - destruct (Acc 0) as (t' & [= <-] & S' & H'). split; [done|]. by apply caches_hit.
  - pose proof (ensure_spec isz dsz c s instr tlb regs C) as En. unfold mbind, outcome_bind.
    destruct (ensure_mmu _ _) as [c1|], (match tc_mmu s with Some m => _ | None => _ end) as [m|]; try done.
    destruct En as [m' ->]. unfold walker_mmu.
    replace (walker_theMMU (set_tlb instr tlb _)) with (Some m) by (by destruct instr).
    replace (walker_trace_address (set_tlb instr tlb _)) with (tc_address s) by (by destruct instr).
    destruct (push_back_trace m mem t (tc_address s)) as [[[b t'] a]|] eqn:Ew; [|done].
    rewrite (push_back_trace_vaddr _ _ _ _ _ _ _ Ew). destruct (Acc (thePaddr t')) as (t2 & E2 & S2 & H2).
    destruct instr; cbn [set_tlb tlb_of PerfectTLB theInstrTLB theDataTLB] in *; rewrite E2.
    + split; [done|]. exact (caches_set isz dsz c s true t2 _ m m' a C S2 H2).
    + split; [done|]. exact (caches_set isz dsz c s false t2 _ m m' a C S2 H2).
Qed.

Lemma serve_agrees isz dsz rs c s :
  0 < isz -> 0 < dsz -> caches isz dsz c s ->
  agree (caches isz dsz) (serve_all push_TLBReqIn rs c) (serve_all (spec_request isz dsz) rs s).
Proof using order_perm.
  intros Pi Pd. revert c s. induction rs as [|[[regs mem] t] rs IH]; intros c s C; [done|].
  cbn [serve_all]. pose proof (request_agrees isz dsz regs mem t c s Pi Pd C) as A.
  unfold mbind, outcome_bind.
  destruct (push_TLBReqIn regs mem t c) as [[t1 c1]|], (spec_request isz dsz regs mem t s) as [[t2 s2]|];
    cbn in A; try done.
  destruct A as [<- C1]. specialize (IH _ _ C1).
  destruct (serve_all push_TLBReqIn rs c1) as [[ts c2]|], (serve_all _ rs s2) as [[us s3]|]; cbn in IH; try done.
  by destruct IH as [<- C2].
Qed.

Lemma initial_caches isz dsz :
  0 <= isz -> 0 <= dsz -> caches isz dsz (mmu_initialize false isz dsz) (mkTC [] [] None 0).
Proof using.
  clear. intros Hi Hd. split; try done; cbn.
  all: exists []; split; [|done]; split; try done; constructor.
Qed.
End tlb.

(** C21 The trace port keeps two caches in order of use.  Whatever the order in which
    the hash tables are visited, and for every sequence of requests to a component
    that starts empty, the answers, the errors and the translations kept are those of
    two lists: an address that is in its list moves to the front and is not
    walked, any other is walked and put in front, and a full list drops its last. *)
Theorem tlb_serves_lru (order : gmap Z TLBentry -> list (Z * TLBentry)) (isz dsz : Z)
    (rs : list (mmu_regs_t * (Z -> Z) * Translation)) :
  (forall m, order m ≡ₚ map_to_list m) -> 0 < isz -> 0 < dsz ->
  agree (caches isz dsz) (serve_all (push_TLBReqIn order) rs (mmu_initialize false isz dsz))
    (serve_all (spec_request isz dsz) rs (mkTC [] [] None 0)).
Proof. intros Hp Hi Hd. apply serve_agrees; [done..|]. apply initial_caches; lia. Qed.

Definition sample_request (va : Z) : mmu_regs_t * (Z -> Z) * Translation :=
  (sample_regs 2, sample_tables, newTranslation va 0 kDATA true false).

(** Three addresses of a page in a buffer of two: the first is forgotten. *)
Lemma tlb_serves_lru_witness :
  exists ts c, serve_all (push_TLBReqIn map_to_list) (sample_request <$> [0x1234; 0x1238; 0x1240])
      (mmu_initialize false 2 2) = Done (ts, c) /\
    tlb_holds (theDataTLB c) [(0x1240, 0x6240); (0x1238, 0x6238)].
Proof.
  pose proof (tlb_serves_lru map_to_list 2 2 (sample_request <$> [0x1234; 0x1238; 0x1240])
    (fun m => reflexivity _) eq_refl eq_refl) as A.
  set (spec := serve_all (spec_request 2 2) _ _) in A. vm_compute in spec. subst spec.
  destruct (serve_all (push_TLBReqIn map_to_list) _ _) as [[ts c]|]; [|done].
  destruct A as [_ C]. exists ts, c. split; [reflexivity|]. apply C.
Defined.
