(* ===== verification/MMUTiming.v ===== *)
(** * The MMU of the timing simulator

    The queues of components/MMU/MMUImpl.cpp and the page walker's state machine
    [PageWalk::cycle] of components/MMU/pageWalk.cpp.  A translation is an object
    that the core, the queues and the walker share; objects live in a store under
    their [theID], and the queues hold identifiers.  What the component sends
    through its ports is recorded in order; the core's answer to a memory request
    is a step of its own.  The physical address that QEMU knows for a virtual one
    is an argument of the model. *)

From stdpp Require Import base gmap list strings fin_maps.
From Stdlib Require Import ZArith Lia.
From S2P Require Import Prelude MMU TLB.

Local Open Scope Z_scope.

Inductive event : Set :=
  | iTranslationReply (id : Z)
  | dTranslationReply (id : Z)
  | MemoryRequestOut (id : Z)
  | ResyncOut (core : Z)
  | ForceResync (id : Z).

Record MMUTiming : Type := mkTiming {
  comp : MMUComponent;
  theLookUpEntries : list Z;
  thePageWalkEntries : list Z;
  alreadyPW : gset Z;
  standingEntries : list Z;
  theTranslationTransports : list (Z * TranslationState);
  TheInitialized : bool;
  theMemoryTranslations : list Z;
  store : gmap Z Translation;
  sent : list event;
}.

Definition set_comp (c : MMUComponent) (w : MMUTiming) : MMUTiming :=
  mkTiming c (theLookUpEntries w) (thePageWalkEntries w) (alreadyPW w) (standingEntries w)
    (theTranslationTransports w) (TheInitialized w) (theMemoryTranslations w) (store w) (sent w).
Definition set_lookups (l : list Z) (w : MMUTiming) : MMUTiming :=
  mkTiming (comp w) l (thePageWalkEntries w) (alreadyPW w) (standingEntries w)
    (theTranslationTransports w) (TheInitialized w) (theMemoryTranslations w) (store w) (sent w).
Definition set_walks (l : list Z) (w : MMUTiming) : MMUTiming :=
  mkTiming (comp w) (theLookUpEntries w) l (alreadyPW w) (standingEntries w)
    (theTranslationTransports w) (TheInitialized w) (theMemoryTranslations w) (store w) (sent w).
Definition set_already (s : gset Z) (w : MMUTiming) : MMUTiming :=
  mkTiming (comp w) (theLookUpEntries w) (thePageWalkEntries w) s (standingEntries w)
    (theTranslationTransports w) (TheInitialized w) (theMemoryTranslations w) (store w) (sent w).
Definition set_standing (l : list Z) (w : MMUTiming) : MMUTiming :=
  mkTiming (comp w) (theLookUpEntries w) (thePageWalkEntries w) (alreadyPW w) l
    (theTranslationTransports w) (TheInitialized w) (theMemoryTranslations w) (store w) (sent w).
Definition set_transports (l : list (Z * TranslationState)) (w : MMUTiming) : MMUTiming :=
  mkTiming (comp w) (theLookUpEntries w) (thePageWalkEntries w) (alreadyPW w) (standingEntries w)
    l (TheInitialized w) (theMemoryTranslations w) (store w) (sent w).
Definition set_walker_initialized (w : MMUTiming) : MMUTiming :=
  mkTiming (comp w) (theLookUpEntries w) (thePageWalkEntries w) (alreadyPW w) (standingEntries w)
    (theTranslationTransports w) true (theMemoryTranslations w) (store w) (sent w).
Definition set_requests (l : list Z) (w : MMUTiming) : MMUTiming :=
  mkTiming (comp w) (theLookUpEntries w) (thePageWalkEntries w) (alreadyPW w) (standingEntries w)
    (theTranslationTransports w) (TheInitialized w) l (store w) (sent w).
Definition set_store (s : gmap Z Translation) (w : MMUTiming) : MMUTiming :=
  mkTiming (comp w) (theLookUpEntries w) (thePageWalkEntries w) (alreadyPW w) (standingEntries w)
    (theTranslationTransports w) (TheInitialized w) (theMemoryTranslations w) s (sent w).
Definition set_sent (l : list event) (w : MMUTiming) : MMUTiming :=
  mkTiming (comp w) (theLookUpEntries w) (thePageWalkEntries w) (alreadyPW w) (standingEntries w)
    (theTranslationTransports w) (TheInitialized w) (theMemoryTranslations w) (store w) l.

Definition timing_initialize (perfect : bool) (iTLBSize dTLBSize : Z) : MMUTiming :=
  mkTiming (mmu_initialize perfect iTLBSize dTLBSize) [] [] ∅ [] [] false [] ∅ [].

(** ** Shared objects and ports *)

Definition deref (id : Z) : M MMUTiming Translation := fun w =>
  match store w !! id with Some t => Done (t, w) | None => Assert "dangling translation" end.
Definition assign (id : Z) (t : Translation) : M MMUTiming () :=
  modify (fun w => set_store (<[id := t]> (store w)) w).
Definition send (e : event) : M MMUTiming () := modify (fun w => set_sent (sent w ++ [e]) w).

Definition send_reply (id : Z) : M MMUTiming () :=
  item ← deref id;
  send (if isInstr item then iTranslationReply id else dTranslationReply id).

Definition PAGEMASK : Z := 2 ^ 64 - 2 ^ 12.
Definition page_of (a : Z) : Z := Z.land a PAGEMASK.

Section timing.
(** The order of the hash tables, and QEMU's translation of an address. *)
Context (order : gmap Z TLBentry -> list (Z * TLBentry)) (QEMU_logical_to_physical : bool -> Z -> Z).

Definition timing_lookUp (instr : bool) (a : Z) : M MMUTiming (bool * Z) := fun w =>
  let '(r, t) := lookUp order a (tlb_of instr (comp w)) in
  Done (r, set_comp (set_tlb instr t (comp w)) w).

Definition timing_assign (instr : bool) (a pa : Z) : M MMUTiming () := fun w =>
  t ← tlb_assign order a pa (tlb_of instr (comp w));
  Done ((), set_comp (set_tlb instr t (comp w)) w).

(** ** The page walker *)

(** [PageWalk::push_back] *)
Definition walker_push_back (id : Z) : M MMUTiming bool :=
  c ← gets comp;
  m ← lift (walker_mmu c);
  t ← deref id;
  setup ← lift (InitialTranslationSetup m t);
  match setup with
  | None => mret false
  | Some s =>
      modify (fun w => set_walker_initialized
                         (set_transports (theTranslationTransports w ++ [(id, s)]) w));;
      mret true
  end.

(** [preTranslate], whose [preWalk] queues a memory request outside trace mode. *)
Definition walker_preTranslate (id : Z) (s : TranslationState) : M MMUTiming () :=
  t ← deref id;
  let '(t, asked) := preTranslate t s in
  assign id t;;
  match asked with
  | None => mret ()
  | Some a =>
      modify (fun w =>
        let c := comp w in
        set_comp (mkMMUComponent (PerfectTLB c) (theInstrTLB c) (theDataTLB c) (theMMU c)
                    (theMMUInitialized c) (walker_theMMU c) a) w);;
      if inTraceMode t then mret ()
      else modify (fun w => set_requests (theMemoryTranslations w ++ [id]) w)
  end.

(** [translate], on the first transport. *)
Definition walker_translate (id : Z) (s : TranslationState) (rest : list (Z * TranslationState))
    : M MMUTiming () :=
  c ← gets comp;
  m ← lift (walker_mmu c);
  t ← deref id;
  '(t, s, resync) ← lift (walk m t s);
  assign id t;;
  modify (set_transports ((id, s) :: rest));;
  if (resync : bool) then send (ForceResync id) else mret ().

(** [PageWalk::cycle]: the first transport advances by one phase. *)
Definition cycle : M MMUTiming () :=
  transports ← gets theTranslationTransports;
  match transports with
  | [] => mret ()
  | (id, s) :: rest =>
      t ← deref id;
      t ← lift (age t);
      assign id t;;
      if theDone t then modify (set_transports rest)
      else if theReady t then
        if negb (theWaiting t) then
          walker_preTranslate id s;;
          t ← deref id;
          assign id (toggleReady t);;
          if theDone t then mret () else assign id (toggleWaiting (toggleReady t))
        else
          walker_translate id s rest;;
          t ← deref id;
          assign id (toggleWaiting t)
      else mret ()
  end.

Definition annulAll : M MMUTiming () :=
  modify (fun w => if TheInitialized w then set_transports [] w else w).

(** ** The component *)

(** One entry of the first loop of [busCycle]. *)
Definition lookup_entry (id : Z) : M MMUTiming () :=
  item ← deref id;
  dbg_assert (xorb (isInstr item) (isData item)) "item->isInstr() != item->isData()";;
  entry ← timing_lookUp (isInstr item) (page_of (theVaddr item));
  c ← gets comp;
  entry ← (if PerfectTLB c then
             let perfectPaddr := QEMU_logical_to_physical (isInstr item) (theVaddr item) in
             (if perfectPaddr =? 2 ^ 64 - 1 then t ← lift (setPagefault item); assign id t
              else mret ());;
             mret (true, perfectPaddr)
           else mret entry);
  item ← deref id;
  if (fst entry : bool) then
    assign id (set_paddr (Z.lor (snd entry) (Z.land (theVaddr item) (2 ^ 12 - 1)))
                 (set_status kTLBhit item));;
    send_reply id
  else
    let pageAddr := page_of (theVaddr item) in
    already ← gets alreadyPW;
    if bool_decide (pageAddr ∉ already) then
      assign id (set_status kTLBmiss item);;
      pushed ← walker_push_back id;
      if (pushed : bool) then
        modify (fun w => set_already ({[pageAddr]} ∪ alreadyPW w) w);;
        modify (fun w => set_walks (thePageWalkEntries w ++ [id]) w)
      else
        assign id (set_paddr (QEMU_logical_to_physical (isInstr item) (theVaddr item))
                     (set_status kTLBhit item));;
        send_reply id
    else modify (fun w => set_standing (standingEntries w ++ [id]) w).

(** The loop over [theLookUpEntries]; its body adds none. *)
Fixpoint lookup_loop (entries : list Z) : M MMUTiming () :=
  match entries with
  | [] => mret ()
  | id :: rest => modify (set_lookups rest);; lookup_entry id;; lookup_loop rest
  end.

(** The loop over [standingEntries]: those whose address has all the bits of the
    page's address, and the same type, are looked up again. *)
Fixpoint release (pageAddr : Z) (instr : bool) (entries : list Z) : M MMUTiming (list Z) :=
  match entries with
  | [] => mret []
  | id :: rest =>
      t ← deref id;
      if (Z.land (theVaddr t) pageAddr =? pageAddr) && eqb instr (isInstr t)
      then modify (fun w => set_lookups (theLookUpEntries w ++ [id]) w);; release pageAddr instr rest
      else l ← release pageAddr instr rest; mret (id :: l)
  end.

(** A finished walk. *)
Definition finish_entry (id : Z) : M MMUTiming () :=
  item ← deref id;
  let pageAddr := page_of (theVaddr item) in
  already ← gets alreadyPW;
  (if bool_decide (pageAddr ∈ already) then
     modify (fun w => set_already (alreadyPW w ∖ {[pageAddr]}) w);;
     entries ← gets standingEntries;
     entries ← release pageAddr (isInstr item) entries;
     modify (set_standing entries)
   else mret ());;
  dbg_assert (xorb (isInstr item) (isData item)) "item->isInstr() != item->isData()";;
  timing_assign (isInstr item) pageAddr (Z.land (thePaddr item) PAGEMASK);;
  send_reply id.

(** The second loop of [busCycle], which stops at the first walk under way. *)
Fixpoint walk_loop (entries : list Z) : M MMUTiming () :=
  match entries with
  | [] => mret ()
  | id :: rest =>
      item ← deref id;
      if theAnnul item then modify (set_walks rest);; walk_loop rest
      else if theDone item then modify (set_walks rest);; finish_entry id;; walk_loop rest
      else mret ()
  end.

Definition busCycle : M MMUTiming () :=
  lookups ← gets theLookUpEntries;
  lookup_loop lookups;;
  walks ← gets thePageWalkEntries;
  walk_loop walks.

Definition processMemoryRequests : M MMUTiming () :=
  modify (fun w => set_requests [] (set_sent (sent w ++ (MemoryRequestOut <$> theMemoryTranslations w)) w)).

Definition drive : M MMUTiming () := busCycle;; cycle;; processMemoryRequests.

(** [push(iRequestIn)] and [push(dRequestIn)]. *)
Definition push_RequestIn (id : Z) : M MMUTiming () :=
  t ← deref id;
  assign id (toggleReady t);;
  modify (fun w => set_lookups (theLookUpEntries w ++ [id]) w).

(** The walker's pointer is not among the things that change. *)
Definition resyncMMU (qemuRegs : mmu_regs_t) (anIndex : Z) : M MMUTiming () :=
  m ← lift (fresh_mmu qemuRegs);
  modify (fun w =>
    let c := comp w in
    set_comp (mkMMUComponent (PerfectTLB c) (theInstrTLB c) (theDataTLB c) (Some m) true
                (walker_theMMU c) (walker_trace_address c)) w);;
  annulAll;;
  modify (fun w => set_lookups [] (set_standing [] (set_already ∅ (set_walks [] w))));;
  send (ResyncOut anIndex).

(** The core's answer to a memory request: the descriptor arrives. *)
Definition memory_reply (id value : Z) : M MMUTiming () :=
  t ← deref id;
  assign id (toggleReady (set_raw value t)).

(** A client makes a translation. *)
Definition make (id : Z) (t : Translation) : M MMUTiming () := assign id t.
End timing.

(** ** The walker, cycle by cycle, and the walk of the trace port *)

Fixpoint cycles (n : nat) : M MMUTiming () :=
  match n with O => mret () | S n => cycle;; cycles n end.

(** A level of a walk: the walker asks for a descriptor, the answer takes [wait]
    cycles, and the walker goes on with what memory holds. *)
Definition walk_round (mem : Z -> Z) (id : Z) (wait : nat) : M MMUTiming () :=
  cycle;; processMemoryRequests;; cycles wait;;
  t ← deref id;
  memory_reply id (mem (thePaddr t));;
  cycle.

Fixpoint walk_rounds (mem : Z -> Z) (id : Z) (waits : list nat) : M MMUTiming () :=
  match waits with
  | [] => mret ()
  | d :: ds => walk_round mem id d;; walk_rounds mem id ds
  end.

(** What a walk works on, apart from the flags of the two modes. *)
Definition walk_view (t : Translation) : Z * Z * eTLBtype * bool * Z * Z * bool * bool :=
  (theVaddr t, thePaddr t, theTLBtype t, theDone t, theCurrentTranslationLevel t, rawTTEValue t,
   thePageFault t, theInstruction t).
Definition mode_view (t : Translation) : bool * bool * Z * bool :=
  (theReady t, theWaiting t, theTimeoutCounter t, inTraceMode t).

(** A walk depends on nothing else and leaves the rest alone. *)
Lemma walk_views m t t' s :
  walk_view t = walk_view t' ->
  match walk m t s, walk m t' s with
  | Done (u, s1, b), Done (u', s1', b') =>
      walk_view u = walk_view u' /\ s1 = s1' /\ b = b' /\ mode_view u = mode_view t
  | Assert e, Assert e' => e = e'
  | _, _ => False
  end.
Proof.
  destruct t, t'. intros [= -> -> -> -> -> -> -> ->].
  unfold walk, finish_walk, setDone, setPagefault, mbind, outcome_bind, isData. cbn.
  repeat case_match; simplify_eq; first [done|cbn in *; congruence].
Qed.

Record at_walk (w : MMUTiming) (id : Z) (t : Translation) (s : TranslationState)
    (rest : list (Z * TranslationState)) (m : mmu_t) : Prop := {
  aw_transports : theTranslationTransports w = (id, s) :: rest;
  aw_store : store w !! id = Some t;
  aw_mmu : walker_theMMU (comp w) = Some m;
}.

Lemma wp_deref id t (Q : Translation -> MMUTiming -> Prop) w :
  store w !! id = Some t -> Q t w -> wp (deref id) Q w.
Proof. unfold wp, deref. by intros ->. Qed.

Lemma wp_assign id t (Q : () -> MMUTiming -> Prop) w :
  Q () (set_store (<[id := t]> (store w)) w) -> wp (assign id t) Q w.
Proof. done. Qed.

Lemma wp_lift {W A} (o : outcome A) a (Q : A -> W -> Prop) w : o = Done a -> Q a w -> wp (lift o) Q w.
Proof. by intros ->. Qed.

Lemma assigned w id t t' s rest m :
  at_walk w id t s rest m -> at_walk (set_store (<[id := t']> (store w)) w) id t' s rest m.
Proof. intros [T St Mm]. split; cbn; [done|apply lookup_insert_eq|done]. Qed.

(** An assignment to the translation that the walker works on. *)
Ltac wp_assign_at A :=
  apply wp_assign;
  lazymatch goal with
  | |- context [set_store (<[?i := ?x]> (store ?v)) ?v] =>
      apply (assigned v i _ x) in A;
      generalize dependent (set_store (<[i := x]> (store v)) v); clear v; intros v A
  end.

Lemma age_ok t : theTimeoutCounter t < 1000 -> age t = Done (set_timeout (theTimeoutCounter t + 1) t).
Proof. intros L. unfold age. cbn. by rewrite (proj2 (Z.ltb_ge 1000 _)) by lia. Qed.

(** The three kinds of cycle: a request, a wait and a step of the walk. *)
Lemma cycle_idle w id t s rest m :
  at_walk w id t s rest m -> theTimeoutCounter t < 1000 -> theDone t = false -> theReady t = false ->
  wp cycle (fun _ w' => at_walk w' id (set_timeout (theTimeoutCounter t + 1) t) s rest m) w.
Proof.
  intros A L D R. unfold cycle. wp_steps. rewrite (aw_transports _ _ _ _ _ _ A).
  apply wp_bind. eapply wp_deref; [apply A|]. apply wp_bind. eapply wp_lift; [by apply age_ok|].
  apply wp_bind. wp_assign_at A. cbn [theDone theReady set_timeout]. rewrite D, R. by apply wp_ret.
Qed.

Definition asked (a : Z) (t : Translation) : Translation :=
  toggleWaiting (toggleReady (set_paddr a (next_level (set_timeout (theTimeoutCounter t + 1) t)))).

Lemma cycle_ask w id t s rest m :
  at_walk w id t s rest m -> theTimeoutCounter t < 1000 -> theDone t = false -> theReady t = true ->
  theWaiting t = false -> inTraceMode t = false ->
  theCurrentTranslationLevel t < requiredTableLookups s ->
  wp cycle (fun _ w' => at_walk w' id (asked (resolve (theVaddr t) (TTAddressResolver s)) t) s rest m) w.
Proof.
  intros A L D R Wt Tr Lv. unfold cycle. wp_steps. rewrite (aw_transports _ _ _ _ _ _ A).
  apply wp_bind. eapply wp_deref; [apply A|]. apply wp_bind. eapply wp_lift; [by apply age_ok|].
  apply wp_bind. wp_assign_at A. cbn [theDone theReady theWaiting set_timeout]. rewrite D, R, Wt. cbn [negb].
  unfold walker_preTranslate. apply wp_bind, wp_bind. eapply wp_deref; [apply A|].
  unfold preTranslate. cbn [theCurrentTranslationLevel set_timeout]. rewrite (proj2 (Z.ltb_lt _ _) Lv).
  cbn [preWalk]. apply wp_bind. wp_assign_at A.
  apply wp_bind, wp_modify. cbn [inTraceMode set_paddr next_level set_timeout]. rewrite Tr. apply wp_modify.
  apply wp_bind. eapply wp_deref; [apply A|]. apply wp_bind, wp_assign.
  cbn [theDone set_paddr next_level set_timeout]. rewrite D. apply wp_assign.
  destruct A as [T St Mm]. split; cbn; [done|apply lookup_insert_eq|done].
Qed.

Lemma cycle_walk w id t s rest m t' s' b :
  at_walk w id t s rest m -> theTimeoutCounter t < 1000 -> theDone t = false -> theReady t = true ->
  theWaiting t = true -> walk m (set_timeout (theTimeoutCounter t + 1) t) s = Done (t', s', b) ->
  wp cycle (fun _ w' => at_walk w' id (toggleWaiting t') s' rest m) w.
Proof.
  intros A L D R Wt Ew. unfold cycle. wp_steps. rewrite (aw_transports _ _ _ _ _ _ A).
  apply wp_bind. eapply wp_deref; [apply A|]. apply wp_bind. eapply wp_lift; [by apply age_ok|].
  apply wp_bind. wp_assign_at A. cbn [theDone theReady theWaiting set_timeout]. rewrite D, R, Wt. cbn [negb].
  unfold walker_translate. apply wp_bind, wp_bind, wp_gets. apply wp_bind.
  eapply wp_lift; [unfold walker_mmu; by rewrite (aw_mmu _ _ _ _ _ _ A)|].
  apply wp_bind. eapply wp_deref; [apply A|]. apply wp_bind. eapply wp_lift; [exact Ew|].
  apply wp_bind. wp_assign_at A. apply wp_bind, wp_modify.
  assert (A' : at_walk (set_transports ((id, s') :: rest) w) id t' s' rest m) by (by destruct A; split).
  assert (A2 : forall w', at_walk w' id t' s' rest m ->
    wp (t ← deref id; assign id (toggleWaiting t)) (fun _ w' => at_walk w' id (toggleWaiting t') s' rest m) w').
  { intros w' B. apply wp_bind. eapply wp_deref; [apply B|]. apply wp_assign. by eapply assigned. }
  destruct b; [apply wp_modify|apply wp_ret]; apply A2; [by destruct A'; split|done].
Qed.

Lemma cycles_idle n : forall w id t s rest m,
  at_walk w id t s rest m -> theTimeoutCounter t + Z.of_nat n <= 1000 -> theDone t = false ->
  theReady t = false ->
  wp (cycles n) (fun _ w' => at_walk w' id (set_timeout (theTimeoutCounter t + Z.of_nat n) t) s rest m) w.
Proof.
  induction n as [|n IH]; intros w id t s rest m A L D R; cbn [cycles].
  - apply wp_ret. replace (theTimeoutCounter t + Z.of_nat 0) with (theTimeoutCounter t) by lia.
    by destruct t.
  - apply wp_bind. eapply wp_mono; [apply cycle_idle; [exact A|lia|done|done]|]. cbn beta. intros _ w1 A1.
    eapply wp_mono; [apply (IH _ _ _ _ _ _ A1); [cbn; lia|done|done]|]. cbn beta. intros _ w2 A2.
    cbn in A2. replace (theTimeoutCounter t + Z.of_nat (S n)) with (theTimeoutCounter t + 1 + Z.of_nat n) by lia.
    done.
Qed.

(** A translation between two levels. *)
Record between_levels (t : Translation) : Prop := {
  bl_ready : theReady t = true;
  bl_waiting : theWaiting t = false;
  bl_trace : inTraceMode t = false;
}.

Lemma round_agrees mem w id t u s rest m wait u2 s2 b :
  at_walk w id t s rest m -> between_levels t -> walk_view t = walk_view u -> theDone t = false ->
  theCurrentTranslationLevel t < requiredTableLookups s ->
  theTimeoutCounter t + Z.of_nat wait + 2 <= 1000 ->
  let a := resolve (theVaddr t) (TTAddressResolver s) in
  walk m (push_trace a (set_raw (mem a) (set_paddr a (next_level u)))) s = Done (u2, s2, b) ->
  wp (walk_round mem id wait) (fun _ w' => exists t2,
    at_walk w' id t2 s2 rest m /\ between_levels t2 /\ walk_view t2 = walk_view u2 /\
    theTimeoutCounter t2 = theTimeoutCounter t + Z.of_nat wait + 2) w.
Proof.
  intros A [R Wt Tr] V D Lv Tm a Ew. unfold walk_round.
  apply wp_bind. eapply wp_mono; [eapply cycle_ask; [exact A|lia|done..]|]. cbn beta. intros _ w1 A1.
  apply wp_bind. apply wp_modify. set (w1' := set_requests _ _).
  assert (A1' : at_walk w1' id (asked a t) s rest m) by (by destruct A1; split). clearbody w1'.
  apply wp_bind. eapply wp_mono; [eapply cycles_idle; [exact A1'|cbn; lia|done|cbn; by rewrite R]|].
  cbn beta. intros _ w2 A2.
  apply wp_bind. eapply wp_deref; [apply A2|]. unfold memory_reply. apply wp_bind, wp_bind.
  eapply wp_deref; [apply A2|]. wp_assign_at A2.
  match type of A2 with at_walk _ _ ?x _ _ _ => set (t3 := x) in A2 end.
  assert (V3 : walk_view (set_timeout (theTimeoutCounter t3 + 1) t3)
               = walk_view (push_trace a (set_raw (mem a) (set_paddr a (next_level u))))).
  { subst t3. destruct t, u. cbn in *. by simplify_eq. }
  pose proof (walk_views m _ _ s V3) as Wv. rewrite Ew in Wv.
  destruct (walk m (set_timeout (theTimeoutCounter t3 + 1) t3) s) as [[[t4 s4] b4]|] eqn:E4; [|done].
  destruct Wv as (V4 & -> & -> & Md).
  eapply wp_mono; [eapply cycle_walk; [exact A2|cbn; lia|done|cbn; by rewrite R|cbn; by rewrite Wt|exact E4]|].
  cbn beta. intros _ w3 A3. exists (toggleWaiting t4). split; [done|].
  injection Md as M1 M2 M3 M4. split; [|split].
  - split; cbn; [rewrite M1; cbn; by rewrite R|rewrite M2; cbn; by rewrite Wt|rewrite M4; by cbn].
  - done.
  - cbn. rewrite M3. cbn. lia.
Qed.

(** The levels of a walk under way. *)
Record on_level (t : Translation) (s : TranslationState) : Prop := {
  ol_count : theCurrentTranslationLevel t = requiredTableLookups s - 4 + currentLookupLevel s;
  ol_level : currentLookupLevel s <= 3;
}.

Lemma walk_next_level m t s t' s' b :
  walk m t s = Done (t', s', b) -> theDone t' = false ->
  theCurrentTranslationLevel t' = theCurrentTranslationLevel t /\ currentLookupLevel s <> 3 /\
  requiredTableLookups s' = requiredTableLookups s /\ currentLookupLevel s' = currentLookupLevel s + 1.
Proof.
  intros E D. unfold walk, finish_walk, setDone, setPagefault, mbind, outcome_bind in E.
  repeat case_match; simplify_eq; cbn in *; try done. split_and!; try done. by apply Z.eqb_neq.
Qed.

Lemma setup_level m t s :
  InitialTranslationSetup m t = Done (Some s) -> theCurrentTranslationLevel t = 0 -> on_level t s.
Proof.
  intros E L. unfold InitialTranslationSetup, mbind, outcome_bind in E. repeat case_match; simplify_eq.
  all: split; cbn; [lia|]; unfold setupTTResolver in *; repeat case_match; simplify_eq; lia.
Qed.

Lemma rounds_agree fuel : forall mem m w id t u s rest ta u' a waits,
  at_walk w id t s rest m -> between_levels t -> walk_view t = walk_view u -> theDone t = false ->
  on_level t s -> trace_loop fuel m mem u s ta = Done (u', a) -> (fuel <= length waits)%nat ->
  theTimeoutCounter t + Z.of_nat (sum_list waits) + 2 * Z.of_nat (length waits) <= 1000 ->
  exists k, (k <= fuel)%nat /\
    wp (walk_rounds mem id (take k waits)) (fun _ w' => exists t' s',
      at_walk w' id t' s' rest m /\ walk_view t' = walk_view u' /\ theDone t' = true) w.
Proof.
  induction fuel as [|fuel IH]; intros mem m w id t u s rest ta u' a waits A B V D Ol E Ln Tm; [done|].
  destruct waits as [|d waits]; [cbn in Ln; lia|]. cbn [length] in Ln, Tm.
  change (sum_list (d :: waits)) with (d + sum_list waits)%nat in Tm.
  cbn [trace_loop] in E. destruct Ol as [Oc Ov].
  assert (Eu : theVaddr u = theVaddr t /\ theCurrentTranslationLevel u = theCurrentTranslationLevel t)
    by (injection V as ????????; done).
  destruct Eu as [Eva Elv]. unfold preTranslate in E.
  rewrite Elv, (proj2 (Z.ltb_lt _ (requiredTableLookups s))) in E by lia.
  cbn [preWalk default] in E. unfold mbind, outcome_bind in E. cbn [theVaddr next_level] in E. rewrite Eva in E.
  set (p := resolve (theVaddr t) (TTAddressResolver s)) in *.
  destruct (walk m _ s) as [[[u2 s2] b]|] eqn:Ew; [|done].
  pose proof (round_agrees mem w id t u s rest m d u2 s2 b A B V D ltac:(lia) ltac:(lia) Ew) as Rd.
  assert (V2 : forall x, walk_view x = walk_view u2 -> theDone x = theDone u2) by (by intros x [=]).
  destruct (theDone u2) eqn:D2.
  - injection E as <- <-. exists 1%nat. split; [lia|]. cbn [take walk_rounds]. apply wp_bind.
    eapply wp_mono; [exact Rd|]. cbn beta. intros _ w2 (t2 & A2 & B2 & V2' & _). apply wp_ret.
    exists t2, s2. auto.
  - destruct (walk_next_level _ _ _ _ _ _ Ew D2) as (N1 & N2 & N3 & N4).
    cbn [theCurrentTranslationLevel push_trace set_raw set_paddr next_level] in N1.
    apply wp_done in Rd as ([] & w2 & Er & t2 & A2 & B2 & V2' & T2).
    assert (L2 : theCurrentTranslationLevel t2 = theCurrentTranslationLevel u2) by (by injection V2').
    destruct (IH mem m w2 id t2 u2 s2 rest p u' a waits) as (k & Hk & K); try done.
    { by rewrite V2. }
    { split; lia. }
    { lia. }
    { lia. }
    exists (S k). split; [lia|]. cbn [take walk_rounds]. apply wp_bind. unfold wp at 1. by rewrite Er.
Qed.

(** C22 The two walks agree.  A translation that the walker of the timing simulator
    starts on is finished after at most four levels, however long memory takes to
    answer within the limit of 1000 cycles, and its result is that of the walk that
    the trace port makes of the same tables: the physical address, or the fault. *)
Theorem timing_walk_agrees (w : MMUTiming) (id : Z) (t : Translation) (m : mmu_t) (mem : Z -> Z)
    (waits : list nat) (ta : Z) (t' : Translation) (a : Z) :
  walker_theMMU (comp w) = Some m -> theTranslationTransports w = [] -> store w !! id = Some t ->
  between_levels t -> theDone t = false -> theCurrentTranslationLevel t = 0 -> theTimeoutCounter t = 0 ->
  length waits = 4%nat -> (sum_list waits <= 992)%nat ->
  push_back_trace m mem t ta = Done (true, t', a) ->
  exists k, (k <= 4)%nat /\
    wp (walker_push_back id;; walk_rounds mem id (take k waits)) (fun _ w' => exists t2,
      store w' !! id = Some t2 /\ theDone t2 = true /\ thePaddr t2 = thePaddr t' /\
      thePageFault t2 = thePageFault t') w.
Proof.
  intros Hm Ht Hs B D L0 T0 Hl Hw E. unfold push_back_trace, mbind, outcome_bind in E.
  destruct (InitialTranslationSetup m t) as [[s|]|] eqn:Es; [|done..].
  destruct (trace_loop 4 m mem t s ta) as [[t1 a1]|] eqn:El; [|done]. injection E as -> ->.
  set (w1 := set_walker_initialized (set_transports (theTranslationTransports w ++ [(id, s)]) w)).
  assert (A1 : at_walk w1 id t s [] m) by (split; cbn; [by rewrite Ht|done|done]).
  destruct (rounds_agree 4 mem m w1 id t t s [] ta t' a waits) as (k & Hk & K); try done.
  { by eapply setup_level. }
  { lia. }
  { lia. }
  exists k. split; [done|]. apply wp_bind. unfold walker_push_back.
  apply wp_bind, wp_gets, wp_bind. eapply wp_lift; [unfold walker_mmu; by rewrite Hm|].
  apply wp_bind. eapply wp_deref; [exact Hs|]. apply wp_bind. eapply wp_lift; [exact Es|].
  apply wp_bind, wp_modify, wp_ret. eapply wp_mono; [exact K|]. cbn beta.
  intros _ w2 (t2 & s2 & A2 & V2 & D2). exists t2. injection V2 as ????????. split_and!; [apply A2|done..].
Qed.

Definition sample_mmu : mmu_t := mmu_4K (sample_regs 2).
Definition sample_component : MMUComponent :=
  mkMMUComponent false (mkTLB 2 ∅) (mkTLB 2 ∅) (Some sample_mmu) true (Some sample_mmu) 0.

(** Memory takes 5, 0, 7 and 90 cycles to answer the four levels. *)
Lemma timing_walk_agrees_witness :
  exists k, (k <= 4)%nat /\
    wp (walker_push_back 1;; walk_rounds sample_tables 1 (take k [5; 0; 7; 90]%nat))
      (fun _ w' => exists t2, store w' !! 1 = Some t2 /\ theDone t2 = true /\ thePaddr t2 = 0x6234 /\
        thePageFault t2 = false)
      (mkTiming sample_component [] [] ∅ [] [] false []
         {[1 := toggleReady (newTranslation 0x1234 0 kDATA false false)]} []).
Proof.
  destruct (push_back_trace sample_mmu sample_tables (toggleReady (newTranslation 0x1234 0 kDATA false false)) 0)
    as [[[b t'] a]|] eqn:E; [|by vm_compute in E].
  assert (B : b = true /\ thePaddr t' = 0x6234 /\ thePageFault t' = false).
  { enough (match push_back_trace sample_mmu sample_tables
                    (toggleReady (newTranslation 0x1234 0 kDATA false false)) 0 with
            | Done (b, t', _) => b && (thePaddr t' =? 0x6234) && negb (thePageFault t')
            | Assert _ => false end = true) as H; [|vm_compute; reflexivity].
    rewrite E in H. rewrite !andb_true_iff, negb_true_iff, Z.eqb_eq in H. tauto. }
  destruct B as (-> & Bp & Bf).
  destruct (timing_walk_agrees (mkTiming sample_component [] [] ∅ [] [] false []
      {[1 := toggleReady (newTranslation 0x1234 0 kDATA false false)]} [])
    1 (toggleReady (newTranslation 0x1234 0 kDATA false false)) sample_mmu sample_tables
    [5; 0; 7; 90]%nat 0 t' a eq_refl eq_refl (lookup_singleton_eq _ _) ltac:(by split) eq_refl eq_refl eq_refl eq_refl
    (proj1 (Nat.leb_le (sum_list [5; 0; 7; 90]%nat) 992) eq_refl) E) as (k & Hk & H).
  exists k. split; [done|]. rewrite Bp, Bf in H. exact H.
Defined.
