(* ===== verification/MMUQueues.v ===== *)
(** * Requests in the queues of the timing MMU

    Invariants of the queues of MMUTiming.v under every sequence of requests,
    cycles, memory replies and resynchronisations: no request is lost, but those in
    the queues when the component is resynchronised, or answered twice, a page is
    walked once at a time, and a request that waits for the walk of its page waits
    for a walk that is under way, as long as the walks and the requests are of one
    kind.  With both kinds, a request can be left behind. *)

From stdpp Require Import base gmap list strings fin_maps.
From Stdlib Require Import ZArith Lia.
From S2P Require Import Prelude MMU TLB MMUTiming.

Local Open Scope Z_scope.

(** What the outside does to the component: the core asks for a translation, time
    passes, memory answers, and the core resynchronises the component with the
    registers that QEMU then has. *)
Inductive command : Type :=
  | Request (id : Z)
  | Drive
  | MemoryReply (id value : Z)
  | Resync (qemuRegs : mmu_regs_t) (anIndex : Z).

Definition requests (cmds : list command) : list Z :=
  omap (fun c => match c with Request id => Some id | _ => None end) cmds.

(** The requests that have been answered. *)
Definition replied (e : event) : option Z :=
  match e with iTranslationReply id | dTranslationReply id => Some id | _ => None end.
Definition answered (w : MMUTiming) : list Z := omap replied (sent w).

(** The requests in the queues. *)
Definition queued (w : MMUTiming) : list Z :=
  theLookUpEntries w ++ thePageWalkEntries w ++ standingEntries w.

Section queues.
Context (order : gmap Z TLBentry -> list (Z * TLBentry)) (QEMU_logical_to_physical : bool -> Z -> Z).
(** The address and the kind of each request. *)
Context (va : Z -> Z) (ins : Z -> bool).

Definition exec (c : command) : M MMUTiming () :=
  match c with
  | Request id =>
      make id (newTranslation (va id) 0 (if ins id then kINST else kDATA) false false);;
      push_RequestIn id
  | Drive => drive order QEMU_logical_to_physical
  | MemoryReply id value => memory_reply id value
  | Resync qemuRegs anIndex => resyncMMU qemuRegs anIndex
  end.

Fixpoint exec_all (cmds : list command) : M MMUTiming () :=
  match cmds with [] => mret () | c :: cmds => exec c;; exec_all cmds end.

(** The requests that the resynchronisations of a run find in the queues. *)
Fixpoint dropped (cmds : list command) (w : MMUTiming) : list Z :=
  match cmds with
  | [] => []
  | c :: cmds =>
      match c with Resync _ _ => queued w | _ => [] end ++
      match exec c w with Done (_, w') => dropped cmds w' | Assert _ => [] end
  end.

Definition page (id : Z) : Z := page_of (va id).

Definition is_request (id : Z) (t : Translation) : Prop :=
  theVaddr t = va id /\ isInstr t = ins id /\ theAnnul t = false.

Definition store_ok (w : MMUTiming) : Prop := forall id t, store w !! id = Some t -> is_request id t.

(** The state of the queues while the entries of [hand] are being moved; [walks] are
    the pages that are being walked. *)
Record queues (rqs hand walks : list Z) (w : MMUTiming) : Prop := {
  q_all : hand ++ theLookUpEntries w ++ thePageWalkEntries w ++ standingEntries w ++ answered w ≡ₚ rqs;
  q_store : store_ok w;
  q_pages : NoDup (page <$> walks);
  q_already : alreadyPW w = list_to_set (page <$> walks);
  q_waiting : (forall i j, i ∈ rqs -> j ∈ rqs -> ins i = ins j) ->
    forall id, id ∈ standingEntries w -> page id ∈ page <$> walks;
}.

Definition same_queues (w w' : MMUTiming) : Prop :=
  theLookUpEntries w' = theLookUpEntries w /\ thePageWalkEntries w' = thePageWalkEntries w /\
  standingEntries w' = standingEntries w /\ alreadyPW w' = alreadyPW w /\ answered w' = answered w.

Lemma queues_same rqs hand walks w w' :
  queues rqs hand walks w -> same_queues w w' -> store_ok w' -> queues rqs hand walks w'.
Proof using.
  intros [Ha _ Hp Hal Hw] (El & Ew & Es & Ea & En) St. split; rewrite ?El, ?Ew, ?Es, ?Ea, ?En; done.
Qed.

Lemma same_trans w1 w2 w3 : same_queues w1 w2 -> same_queues w2 w3 -> same_queues w1 w3.
Proof using. unfold same_queues. intuition congruence. Qed.

(** ** Calls that leave the queues alone *)

Definition quiet {A} (m : M MMUTiming A) : Prop :=
  forall w, store_ok w -> wlp m (fun _ w' => store_ok w' /\ same_queues w w') w.

Lemma store_assign w id t :
  store_ok w -> is_request id t -> store_ok (set_store (<[id := t]> (store w)) w).
Proof using.
  intros St R i u. cbn. destruct (decide (id = i)) as [->|N].
  - rewrite lookup_insert_eq. by intros [= <-].
  - rewrite lookup_insert_ne by done. apply St.
Qed.

Lemma quiet_assign id t : is_request id t -> quiet (assign id t).
Proof using. intros R w St. split; [by apply store_assign|done]. Qed.

Lemma quiet_ret {A} (a : A) : quiet (mret a).
Proof using. by intros w St. Qed.

Lemma quiet_modify f :
  (forall w, store (f w) = store w) -> (forall w, same_queues w (f w)) -> quiet (modify f).
Proof using. intros Hs Hq w St. split; [|done]. intros id t. rewrite Hs. apply St. Qed.

Lemma quiet_lift_bind {A B} (o : outcome A) (f : A -> M MMUTiming B) :
  (forall a, o = Done a -> quiet (f a)) -> quiet (lift o ≫= f).
Proof using. intros H w St. apply wlp_bind, wlp_lift. intros a E. by apply (H a). Qed.

Lemma quiet_bind {A B} (m : M MMUTiming A) (f : A -> M MMUTiming B) :
  quiet m -> (forall a, quiet (f a)) -> quiet (m ≫= f).
Proof using.
  intros Hm Hf w St. apply wlp_bind. eapply wlp_mono; [by apply Hm|]. cbn beta. intros a w1 [St1 S1].
  eapply wlp_mono; [by apply Hf|]. cbn beta. intros b w2 [St2 S2]. split; [done|]. by eapply same_trans.
Qed.

Lemma quiet_gets_bind {A B} (g : MMUTiming -> A) (f : A -> M MMUTiming B) :
  (forall a, quiet (f a)) -> quiet (gets g ≫= f).
Proof using. intros Hf w St. by apply wlp_bind, wlp_gets, Hf. Qed.

Lemma quiet_deref_bind {B} id (f : Translation -> M MMUTiming B) :
  (forall t, is_request id t -> quiet (f t)) -> quiet (deref id ≫= f).
Proof using.
  intros Hf w St. apply wlp_bind. unfold wlp, deref. destruct (store w !! id) as [t|] eqn:E; [|done].
  by apply Hf; [apply St|].
Qed.

Lemma quiet_modify_comp f : quiet (modify (fun w => set_comp (f w) w)).
Proof using. by apply quiet_modify. Qed.

Lemma quiet_send e : replied e = None -> quiet (send e).
Proof using.
  intros E. apply quiet_modify; [done|]. intros w. split_and!; try done. unfold answered. cbn.
  rewrite omap_app. cbn. by rewrite E, app_nil_r.
Qed.

Lemma walk_request m id t s t' s' b :
  walk m t s = Done (t', s', b) -> is_request id t -> is_request id t'.
Proof using.
  clear order QEMU_logical_to_physical.
  unfold walk, finish_walk, setDone, setPagefault, mbind, outcome_bind. intros E R.
  repeat case_match; simplify_eq; done.
Qed.

Ltac quiet_step :=
  lazymatch goal with
  | |- quiet (deref _ ≫= _) => apply quiet_deref_bind; intros ? ?
  | |- quiet (gets _ ≫= _) => apply quiet_gets_bind; intros ?
  | |- quiet (lift _ ≫= _) => apply quiet_lift_bind; intros ? ?
  | |- quiet (_ ≫= _) => apply quiet_bind; [|intros ?]
  | |- quiet (mret _) => apply quiet_ret
  | |- quiet (assign _ _) => apply quiet_assign
  | |- quiet (if _ then _ else _) => case_match
  end.

Lemma quiet_push_back id : quiet (walker_push_back id).
Proof using.
  unfold walker_push_back. repeat quiet_step. case_match; repeat quiet_step. by apply quiet_modify.
Qed.

Lemma quiet_cycle : quiet cycle.
Proof using.
  unfold cycle. apply quiet_gets_bind. intros [|[id s] rest]; [apply quiet_ret|].
  apply quiet_deref_bind. intros t R. apply quiet_lift_bind. intros t1 E1.
  assert (R1 : is_request id t1) by (unfold age in E1; case_match; by simplify_eq).
  repeat quiet_step; try done.
  - unfold walker_preTranslate. apply quiet_deref_bind. intros t2 R2. unfold preTranslate, preWalk.
    destruct (_ <? _); repeat quiet_step; done.
  - unfold walker_translate. do 2 (quiet_step; try done). apply quiet_deref_bind. intros t2 R2.
    apply quiet_lift_bind. intros [[t3 s3] b] E3. pose proof (walk_request _ _ _ _ _ _ _ E3 R2).
    repeat quiet_step; try done; by apply quiet_send.
Qed.

Lemma quiet_requests : quiet processMemoryRequests.
Proof using.
  apply quiet_modify; [done|]. intros w. split_and!; try done. unfold answered. cbn. rewrite omap_app.
  enough (omap replied (MemoryRequestOut <$> theMemoryTranslations w) = []) as -> by apply app_nil_r.
  by induction (theMemoryTranslations w).
Qed.

Lemma quiet_reply id v : quiet (memory_reply id v).
Proof using. unfold memory_reply. by repeat quiet_step. Qed.

Lemma quiet_lookUp instr a : quiet (timing_lookUp order instr a).
Proof using. intros w St. unfold wlp, timing_lookUp. by destruct (lookUp _ _ _). Qed.

Lemma quiet_tlb_assign instr a pa : quiet (timing_assign order instr a pa).
Proof using.
  intros w St. unfold wlp, timing_assign, mbind, outcome_bind. by destruct (tlb_assign _ _ _ _).
Qed.

(** ** Calls that move a request *)

Abbreviation calm rqs hand w := (queues rqs hand (thePageWalkEntries w) w).

Lemma calm_quiet {A} (m : M MMUTiming A) rqs hand (Q : A -> MMUTiming -> Prop) w :
  quiet m -> calm rqs hand w ->
  (forall a w', calm rqs hand w' -> same_queues w w' -> Q a w') -> wlp m Q w.
Proof using.
  clear order QEMU_logical_to_physical.
  intros Hm C H. eapply wlp_mono; [apply Hm, C|]. cbn beta. intros a w' [St S]. apply H; [|done].
  destruct S as (El & Ew & S). rewrite Ew. by eapply queues_same.
Qed.

Lemma wlp_deref id (Q : Translation -> MMUTiming -> Prop) w :
  store_ok w -> (forall t, store w !! id = Some t -> is_request id t -> Q t w) -> wlp (deref id) Q w.
Proof using.
  clear order QEMU_logical_to_physical.
  intros St H. unfold wlp, deref. destruct (store w !! id) as [t|] eqn:E; [|done]. apply H; [done|by apply St].
Qed.

Lemma reply_moves rqs id w :
  calm rqs [id] w ->
  wlp (send_reply id) (fun _ w' => calm rqs [] w' /\ theLookUpEntries w' = theLookUpEntries w /\
                                   thePageWalkEntries w' = thePageWalkEntries w) w.
Proof using.
  clear order QEMU_logical_to_physical.
  intros C. unfold send_reply. apply wlp_bind, wlp_deref; [apply C|]. intros t _ _. apply wlp_modify.
  split; [|done]. destruct C as [Ha St Hp Hal Hw]. split; try done. unfold answered. cbn.
  rewrite omap_app, <-Ha. unfold answered. destruct (isInstr t); cbn; solve_Permutation.
Qed.

Lemma walk_moves rqs id w :
  calm rqs [id] w -> page id ∉ alreadyPW w ->
  calm rqs [] (set_walks (thePageWalkEntries w ++ [id]) (set_already ({[page id]} ∪ alreadyPW w) w)).
Proof using.
  clear order QEMU_logical_to_physical.
  intros [Ha St Hp Hal Hw] N. split; cbn.
  - rewrite <-Ha. change (answered (set_walks _ _)) with (answered w). solve_Permutation.
  - done.
  - rewrite fmap_app. apply NoDup_app. split_and!; [done| |by apply NoDup_singleton].
    intros p Hin ->%list_elem_of_singleton. apply N. rewrite Hal. by apply elem_of_list_to_set.
  - rewrite Hal, fmap_app, list_to_set_app_L. cbn. set_solver.
  - intros K i Hi. rewrite fmap_app. apply elem_of_app. left. by apply Hw.
Qed.

Lemma standing_moves rqs id w :
  calm rqs [id] w -> page id ∈ alreadyPW w ->
  calm rqs [] (set_standing (standingEntries w ++ [id]) w).
Proof using.
  clear order QEMU_logical_to_physical.
  intros [Ha St Hp Hal Hw] N. split; cbn; try done.
  - rewrite <-Ha. change (answered (set_standing _ _)) with (answered w). solve_Permutation.
  - intros K i [Hi| ->%list_elem_of_singleton]%elem_of_app; [by apply Hw|].
    rewrite Hal in N. by apply elem_of_list_to_set in N.
Qed.

Lemma lookup_moves rqs id w :
  calm rqs [id] w ->
  wlp (lookup_entry order QEMU_logical_to_physical id)
    (fun _ w' => calm rqs [] w' /\ theLookUpEntries w' = theLookUpEntries w) w.
Proof using.
  intros C. unfold lookup_entry. apply wlp_bind, wlp_deref; [apply C|]. intros item _ Ri. wlp_steps.
  eapply calm_quiet; [apply quiet_lookUp|exact C|]. intros entry w1 C1 (L1 & _). wlp_steps.
  eapply calm_quiet; [|exact C1|].
  { repeat quiet_step; try done. unfold setPagefault in *. case_match; by simplify_eq. }
  intros entry' w2 C2 (L2 & _). cbn beta. apply wlp_bind, wlp_deref; [apply C2|]. intros item2 _ R2.
  assert (Ep : page_of (theVaddr item2) = page id) by (unfold page; by destruct R2 as [-> _]).
  assert (Reply : forall f w, calm rqs [id] w -> theLookUpEntries w = theLookUpEntries w2 -> is_request id f ->
    wlp (assign id f;; send_reply id)
      (fun _ w' => calm rqs [] w' /\ theLookUpEntries w' = theLookUpEntries w2) w).
  { intros f w3 C3 L3 Rf. apply wlp_bind. eapply calm_quiet; [by apply quiet_assign|exact C3|].
    intros _ w4 C4 (L4 & _). eapply wlp_mono; [by apply reply_moves|]. cbn beta. intros _ w5 (C5 & L5 & _).
    split; [done|]. congruence. }
  rewrite <-L1, <-L2. destruct (fst entry'); [by apply Reply|]. wlp_steps. rewrite Ep. case_bool_decide as Al.
  - apply wlp_bind. eapply calm_quiet; [by apply quiet_assign|exact C2|]. intros _ w3 C3 (L3 & W3 & S3 & A3 & _).
    apply wlp_bind. eapply calm_quiet; [apply quiet_push_back|exact C3|].
    intros [] w4 C4 (L4 & W4 & S4 & A4 & _); [|apply Reply; [done|congruence|done]].
    wlp_steps. split; [|cbn; congruence]. refine (walk_moves rqs id w4 C4 _). by rewrite A4, A3.
  - wlp_steps. split; [|done]. apply standing_moves; [done|]. by destruct (decide (page id ∈ alreadyPW w2)).
Qed.

Lemma lookup_loop_moves rqs entries w :
  calm rqs [] w -> theLookUpEntries w = entries ->
  wlp (lookup_loop order QEMU_logical_to_physical entries) (fun _ w' => calm rqs [] w') w.
Proof using.
  revert w. induction entries as [|id rest IH]; intros w C E; [done|]. cbn [lookup_loop].
  apply wlp_bind, wlp_modify, wlp_bind. eapply wlp_mono; [apply (lookup_moves rqs)|].
  - destruct C as [Ha St Hp Hal Hw]. split; try done. cbn. rewrite E in Ha. rewrite <-Ha.
    change (answered (set_lookups _ _)) with (answered w). solve_Permutation.
  - cbn beta. intros _ w' [C' L']. by apply IH.
Qed.

(** The loop over the waiting requests splits them; it keeps none of the page and
    the kind that it releases. *)
Lemma release_splits p instr entries w :
  store_ok w ->
  wlp (release p instr entries) (fun l w' => exists out,
    w' = set_lookups (theLookUpEntries w ++ out) w /\ out ++ l ≡ₚ entries /\
    forall id, id ∈ l -> ins id = instr -> Z.land (va id) p <> p) w.
Proof using.
  clear order QEMU_logical_to_physical.
  revert w. induction entries as [|id rest IH]; intros w St; cbn [release].
  - apply wlp_ret. exists []. split_and!; [by destruct w; rewrite app_nil_r|done|].
    intros id []%not_elem_of_nil.
  - apply wlp_bind, wlp_deref; [done|]. intros t _ (Ev & Ei & _). rewrite Ev, Ei.
    destruct ((Z.land (va id) p =? p) && eqb instr (ins id)) eqn:E.
    + apply wlp_bind, wlp_modify. eapply wlp_mono; [by apply IH|]. cbn beta. intros l w' (out & -> & P & K).
      exists (id :: out). split_and!; [|by rewrite <-P|done].
      cbn. by rewrite <-app_assoc.
    + apply wlp_bind. eapply wlp_mono; [by apply IH|]. cbn beta. intros l w' (out & -> & P & K). apply wlp_ret.
      exists out. split_and!; [done|rewrite <-P; solve_Permutation|].
      intros i [->|Hi]%elem_of_cons Hins; [|by apply K]. intros Hl.
      rewrite (proj2 (Z.eqb_eq _ _) Hl), Hins, eqb_reflx in E. done.
Qed.

Lemma same_page_released id id' : page id = page id' -> Z.land (va id) (page id') = page id'.
Proof using. intros <-. unfold page, page_of. by rewrite Z.land_assoc, Z.land_diag. Qed.

Lemma finish_moves rqs id w :
  queues rqs [id] (id :: thePageWalkEntries w) w ->
  wlp (finish_entry order id)
    (fun _ w' => calm rqs [] w' /\ thePageWalkEntries w' = thePageWalkEntries w) w.
Proof using.
  clear QEMU_logical_to_physical.
  intros Q. unfold finish_entry. apply wlp_bind, wlp_deref; [apply Q|]. intros item _ (Ev & Ei & _).
  rewrite Ev. change (page_of (va id)) with (page id). apply wlp_bind, wlp_gets.
  destruct Q as [Ha St Hp Hal Hw]. cbn [fmap list_fmap] in *. apply NoDup_cons in Hp as [Np Hp].
  rewrite bool_decide_true by (rewrite Hal; cbn; set_solver). wlp_steps.
  eapply wlp_mono; [by apply release_splits|]. cbn beta. intros l w1 (out & -> & P & K). apply wlp_modify.
  apply wlp_bind, wlp_assert. intros _. set (w2 := set_standing _ _). apply wlp_bind.
  assert (C2 : calm rqs [id] w2).
  { subst w2. split; cbn in *; try done.
    - rewrite <-Ha, <-P. change (answered (set_standing _ _)) with (answered w). solve_Permutation.
    - rewrite Hal. apply set_eq. intros x.
      rewrite elem_of_difference, elem_of_union, !elem_of_list_to_set, elem_of_singleton.
      split; [tauto|]. intros Hx. split; [by right|]. by intros ->.
    - intros Kd i Hi. assert (Hs : i ∈ standingEntries w).
      { rewrite <-P. apply elem_of_app. by right. }
      destruct (proj1 (elem_of_cons _ _ _) (Hw Kd i Hs)) as [E|E]; [exfalso|done].
      apply (K i Hi); [|by apply same_page_released]. rewrite Ei. apply Kd.
      + rewrite <-Ha. apply elem_of_cons. right. rewrite !elem_of_app. tauto.
      + rewrite <-Ha. apply list_elem_of_here. }
  assert (W2 : thePageWalkEntries w2 = thePageWalkEntries w) by done. clearbody w2.
  eapply calm_quiet; [apply quiet_tlb_assign|exact C2|]. intros _ w3 C3 (_ & W3 & _).
  eapply wlp_mono; [by apply reply_moves|]. cbn beta. intros _ w4 (C4 & _ & W4). split; [done|congruence].
Qed.

Lemma walk_loop_moves rqs entries w :
  calm rqs [] w -> thePageWalkEntries w = entries ->
  wlp (walk_loop order entries) (fun _ w' => calm rqs [] w') w.
Proof using.
  clear QEMU_logical_to_physical.
  revert w. induction entries as [|id rest IH]; intros w C E; [done|]. cbn [walk_loop].
  apply wlp_bind, wlp_deref; [apply C|]. intros item _ (_ & _ & ->). destruct (theDone item); [|done].
  apply wlp_bind, wlp_modify, wlp_bind. eapply wlp_mono; [apply (finish_moves rqs)|].
  - rewrite E in C. destruct C as [Ha St Hp Hal Hw]. split; try done. cbn. rewrite E in Ha. rewrite <-Ha.
    change (answered (set_walks _ _)) with (answered w). solve_Permutation.
  - cbn beta. intros _ w' [C' W']. by apply IH.
Qed.

Lemma drive_moves rqs w :
  calm rqs [] w -> wlp (drive order QEMU_logical_to_physical) (fun _ w' => calm rqs [] w') w.
Proof using.
  intros C. unfold drive, busCycle. apply wlp_bind, wlp_bind, wlp_gets, wlp_bind.
  eapply wlp_mono; [by apply lookup_loop_moves|]. cbn beta. intros _ w1 C1. apply wlp_bind, wlp_gets.
  eapply wlp_mono; [by apply walk_loop_moves|]. cbn beta. intros _ w2 C2. apply wlp_bind.
  eapply calm_quiet; [apply quiet_cycle|exact C2|]. intros _ w3 C3 _.
  eapply calm_quiet; [apply quiet_requests|exact C3|]. by intros _ w4 C4 _.
Qed.

(** A new request enters the queue of lookups. *)
Lemma request_moves rqs id w :
  calm rqs [] w -> wlp (exec (Request id)) (fun _ w' => calm (rqs ++ [id]) [] w') w.
Proof using.
  intros [Ha St Hp Hal Hw]. cbn [exec]. unfold make, push_RequestIn.
  assert (R : is_request id (newTranslation (va id) 0 (if ins id then kINST else kDATA) false false))
    by (by unfold is_request; destruct (ins id)).
  apply wlp_bind, wlp_modify. apply wlp_bind, wlp_deref; [by apply store_assign|]. intros t _ Rt.
  apply wlp_bind, wlp_modify, wlp_modify. split; cbn; try done.
  - rewrite <-Ha. change (answered (set_lookups _ _)) with (answered w). solve_Permutation.
  - apply (store_assign (set_store _ w)); [by apply store_assign|done].
  - intros K i Hi. apply Hw; [|done]. intros a b A B. apply K; apply elem_of_app; by left.
Qed.

(** A resynchronisation empties the queues. *)
Lemma resync_moves rqs regs i w :
  calm rqs [] w -> wlp (resyncMMU regs i) (fun _ w' => calm (answered w) [] w') w.
Proof using.
  clear order QEMU_logical_to_physical.
  intros [Ha St Hp Hal Hw]. unfold resyncMMU. apply wlp_bind, wlp_lift. intros m _.
  apply wlp_bind, wlp_modify, wlp_bind. unfold annulAll. apply wlp_modify.
  apply wlp_bind, wlp_modify, wlp_modify.
  set (w1 := if TheInitialized _ then _ else _).
  assert (K : store w1 = store w /\ sent w1 = sent w) by (unfold w1; by case_match).
  clearbody w1. destruct K as [Ks Kn]. split; cbn.
  - unfold answered. cbn. by rewrite Kn, omap_app, app_nil_r.
  - intros id t. cbn. rewrite Ks. apply St.
  - constructor.
  - done.
  - by intros _ id H%not_elem_of_nil.
Qed.

Lemma exec_moves c rqs w :
  calm rqs [] w -> wlp (exec c) (fun _ w' => exists rqs', calm rqs' [] w' /\
    rqs' ++ match c with Resync _ _ => queued w | _ => [] end ≡ₚ rqs ++ requests [c]) w.
Proof using.
  intros C. destruct c as [id| |id v|regs i]; cbn [requests omap list_omap].
  - eapply wlp_mono; [by apply request_moves|]. cbn beta. intros _ w' C'. eexists. split; [exact C'|].
    by rewrite app_nil_r.
  - eapply wlp_mono; [by apply drive_moves|]. cbn beta. intros _ w' C'. by exists rqs.
  - eapply calm_quiet; [apply quiet_reply|exact C|]. intros _ w' C' _. by exists rqs.
  - eapply wlp_mono; [by apply (resync_moves rqs)|]. cbn beta. intros _ w' C'. eexists. split; [exact C'|].
    rewrite app_nil_r, <-(q_all _ _ _ _ C). unfold queued. solve_Permutation.
Qed.

Lemma exec_all_moves cmds : forall rqs w,
  calm rqs [] w -> wlp (exec_all cmds) (fun _ w' => exists rqs', calm rqs' [] w' /\
    rqs' ++ dropped cmds w ≡ₚ rqs ++ requests cmds) w.
Proof using.
  induction cmds as [|c cmds IH]; intros rqs w C; cbn [exec_all].
  - apply wlp_ret. by exists rqs.
  - apply wlp_bind. pose proof (exec_moves c rqs w C) as H. unfold wlp in H |- *. cbn [dropped].
    destruct (exec c w) as [[[] w1]|]; [|done]. destruct H as (rqs1 & C1 & P1).
    pose proof (IH rqs1 w1 C1) as H. unfold wlp in H. destruct (exec_all cmds w1) as [[[] w2]|]; [|done].
    destruct H as (rqs2 & C2 & P2). exists rqs2. split; [exact C2|].
    change (requests (c :: cmds)) with (requests ([c] ++ cmds)). unfold requests. rewrite omap_app.
    fold (requests [c]) (requests cmds). rewrite (app_assoc rqs), <-P1.
    rewrite (Permutation_app_comm (match c with Resync _ _ => _ | _ => _ end)), app_assoc, P2. solve_Permutation.
Qed.

Lemma initial_calm c : calm [] [] (mkTiming c [] [] ∅ [] [] false [] ∅ []).
Proof using.
  split; try done.
  - constructor.
  - by intros _ id H%not_elem_of_nil.
Qed.
End queues.

Lemma resync_empties w regs i w' :
  resyncMMU regs i w = Done ((), w') -> queued w' = [] /\ answered w' = answered w.
Proof.
  unfold resyncMMU, annulAll, mbind, M_bind, lift, modify. destruct (fresh_mmu regs); [|done].
  intros [= <-]. unfold queued, answered. cbn. rewrite omap_app. cbn. rewrite app_nil_r. by case_match.
Qed.

(** C28 Requests with distinct identities: each is in exactly one place, in one of the
    three queues, answered, or dropped, that is, it was in a queue when the component was
    resynchronised; none is lost and none is answered twice or after it was dropped.  A
    resynchronisation leaves the queues empty.  The pages that are marked as being walked
    are those of the walks under way, no page twice.  This holds after every sequence of
    requests, cycles, memory replies and resynchronisations that no assertion ends. *)
Theorem requests_are_conserved (order : gmap Z TLBentry -> list (Z * TLBentry))
    (QEMU_logical_to_physical : bool -> Z -> Z) (va : Z -> Z) (ins : Z -> bool) (c : MMUComponent)
    (cmds : list command) (w : MMUTiming) :
  let w0 := mkTiming c [] [] ∅ [] [] false [] ∅ [] in
  let lost := dropped order QEMU_logical_to_physical va ins cmds w0 in
  NoDup (requests cmds) ->
  exec_all order QEMU_logical_to_physical va ins cmds w0 = Done ((), w) ->
  queued w ++ answered w ++ lost ≡ₚ requests cmds /\
  NoDup (queued w ++ answered w ++ lost) /\
  NoDup (page va <$> thePageWalkEntries w) /\
  alreadyPW w = list_to_set (page va <$> thePageWalkEntries w) /\
  forall regs i w', resyncMMU regs i w = Done ((), w') -> queued w' = [] /\ answered w' = answered w.
Proof.
  cbv zeta. intros ND E.
  pose proof (exec_all_moves order QEMU_logical_to_physical va ins cmds [] _ (initial_calm va ins c)) as H.
  unfold wlp in H. rewrite E in H. destruct H as (rqs & C & P).
  assert (Q : queued w ++ answered w ++ dropped order QEMU_logical_to_physical va ins cmds
                (mkTiming c [] [] ∅ [] [] false [] ∅ []) ≡ₚ requests cmds).
  { cbn in P. rewrite <-P, <-(q_all _ _ _ _ _ _ C). unfold queued. cbn. by rewrite <-!app_assoc. }
  split_and!; [exact Q|by rewrite Q|apply C|apply C|].
  apply resync_empties.
Qed.

(** While all requests are of one kind, a request that stands aside waits for a
    walk of its own page that is under way, and whose end will release it. *)
Theorem waiting_requests_have_walks (order : gmap Z TLBentry -> list (Z * TLBentry))
    (QEMU_logical_to_physical : bool -> Z -> Z) (va : Z -> Z) (ins : Z -> bool) (c : MMUComponent)
    (cmds : list command) (w : MMUTiming) (id : Z) :
  (forall i j, i ∈ requests cmds -> j ∈ requests cmds -> ins i = ins j) ->
  exec_all order QEMU_logical_to_physical va ins cmds (mkTiming c [] [] ∅ [] [] false [] ∅ []) = Done ((), w) ->
  id ∈ standingEntries w ->
  exists walk, walk ∈ thePageWalkEntries w /\ page_of (va walk) = page_of (va id).
Proof.
  intros K E Hid.
  pose proof (exec_all_moves order QEMU_logical_to_physical va ins cmds [] _ (initial_calm va ins c)) as H.
  unfold wlp in H. rewrite E in H. destruct H as (rqs & C & P). cbn in P.
  assert (Sub : forall i, i ∈ rqs -> i ∈ requests cmds) by (intros i Hi; rewrite <-P, elem_of_app; by left).
  apply (q_waiting _ _ _ _ _ _ C) in Hid; [|intros i j Hi Hj; apply K; by apply Sub].
  apply list_elem_of_fmap in Hid as (i & Ei & Hi). by exists i.
Qed.

(** ** A request that is left behind *)

(** The core asks for a word of a page as data and then as an instruction; memory
    answers each request of the walk in the next cycle. *)
Definition two_requests : list command :=
  [Request 1; Request 2; Drive; MemoryReply 1 0x2003; Drive; Drive; MemoryReply 1 0x3003;
   Drive; Drive; MemoryReply 1 0x4003; Drive; Drive; MemoryReply 1 0x6003; Drive; Drive; Drive].

Definition sample_run (ins : Z -> bool) (cmds : list command) : outcome (() * MMUTiming) :=
  exec_all map_to_list (fun _ a => a) (fun id => 0x1230 + 4 * id) ins cmds
    (mkTiming sample_component [] [] ∅ [] [] false [] ∅ []).

Lemma idle_drives order l2p w n :
  theLookUpEntries w = [] -> thePageWalkEntries w = [] -> theTranslationTransports w = [] ->
  theMemoryTranslations w = [] ->
  exec_all order l2p (fun id => 0x1230 + 4 * id) (Z.eqb 2) (repeat Drive n) w = Done ((), w).
Proof.
  intros L W T R. induction n as [|n IH]; [done|]. cbn [repeat exec_all exec].
  unfold mbind at 1, M_bind at 1. enough (drive order l2p w = Done ((), w)) as -> by done.
  unfold drive, busCycle, cycle, processMemoryRequests, mbind, M_bind, gets, modify.
  rewrite L. cbn. rewrite W. cbn. rewrite T. cbn. rewrite R. cbn. rewrite app_nil_r. f_equal. f_equal.
  destruct w; cbn in *; by subst.
Qed.

(** A request can be left behind: the data request of a page is walked and
    answered, the instruction request of the same page, which waited for that walk,
    is not released by its end and stands aside for ever, although nothing is being
    walked any more. *)
Theorem instruction_request_left_behind :
  exists w, sample_run (Z.eqb 2) two_requests = Done ((), w) /\
    answered w = [1] /\ standingEntries w = [2] /\ alreadyPW w = ∅ /\
    forall n, sample_run (Z.eqb 2) (two_requests ++ repeat Drive n) = Done ((), w).
Proof.
  destruct (sample_run (Z.eqb 2) two_requests) as [[[] w]|] eqn:E; [|by vm_compute in E].
  exists w. assert (F : forall A (f : MMUTiming -> A), f w =
    match sample_run (Z.eqb 2) two_requests with Done (_, w) => f w | Assert _ => f w end)
    by (intros; by rewrite E).
  split; [done|]. split; [rewrite F; by vm_compute|]. split; [rewrite F; by vm_compute|].
  split; [rewrite F; by vm_compute|]. intros n. unfold sample_run in *.
  enough (App : forall cmds cmds' w1 w2, exec_all map_to_list (fun _ a => a) (fun id => 0x1230 + 4 * id)
      (Z.eqb 2) cmds w1 = Done ((), w2) ->
    exec_all map_to_list (fun _ a => a) (fun id => 0x1230 + 4 * id) (Z.eqb 2) (cmds ++ cmds') w1 =
    exec_all map_to_list (fun _ a => a) (fun id => 0x1230 + 4 * id) (Z.eqb 2) cmds' w2).
  { rewrite (App _ _ _ _ E). apply idle_drives; rewrite F; by vm_compute. }
  clear. induction cmds as [|c cmds IH]; intros cmds' w1 w2; cbn [app exec_all].
  - by intros [= ->].
  - unfold mbind, M_bind. destruct (exec _ _ _ _ c w1) as [[[] w3]|]; [|done]. apply IH.
Qed.

(** The component is resynchronised while a third request is in a queue. *)
Definition three_requests : list command := two_requests ++ [Request 3; Resync (sample_regs 2) 0].

Lemma requests_are_conserved_witness :
  exists w, sample_run (Z.eqb 2) three_requests = Done ((), w) /\
    queued w ++ answered w ++ dropped map_to_list (fun _ a => a) (fun id => 0x1230 + 4 * id) (Z.eqb 2) three_requests
      (mkTiming sample_component [] [] ∅ [] [] false [] ∅ []) ≡ₚ [1; 2; 3].
Proof.
  destruct (sample_run (Z.eqb 2) three_requests) as [[[] w]|] eqn:E; [|by vm_compute in E].
  exists w. split; [done|].
  apply (requests_are_conserved map_to_list (fun _ a => a) (fun id => 0x1230 + 4 * id) (Z.eqb 2)
    sample_component three_requests w); [|exact E].
  apply (bool_decide_unpack _). by vm_compute.
Defined.

Lemma waiting_requests_have_walks_witness :
  exists w, sample_run (fun _ => false) [Request 1; Request 2; Drive] = Done ((), w) /\
    standingEntries w = [2] /\ exists walk, walk ∈ thePageWalkEntries w /\ page_of (0x1230 + 4 * walk) = 0x1000.
Proof.
  destruct (sample_run (fun _ => false) [Request 1; Request 2; Drive]) as [[[] w]|] eqn:E; [|by vm_compute in E].
  assert (S : standingEntries w = [2]).
  { transitivity (match sample_run (fun _ => false) [Request 1; Request 2; Drive] with
                  | Done (_, w) => standingEntries w | Assert _ => [] end); [by rewrite E|by vm_compute]. }
  exists w. split; [done|]. split; [done|].
  apply (waiting_requests_have_walks map_to_list (fun _ a => a) (fun id => 0x1230 + 4 * id) (fun _ => false)
    sample_component [Request 1; Request 2; Drive] w 2); [done|exact E|].
  rewrite S. apply list_elem_of_here.
Defined.

(** ** The walker's pointer *)

Lemma lookup_without_mmu order l2p id u w :
  order ∅ = [] -> store w !! id = Some u -> xorb (isInstr u) (isData u) = true ->
  theTLB (tlb_of (isInstr u) (comp w)) = ∅ -> PerfectTLB (comp w) = false ->
  walker_theMMU (comp w) = None -> alreadyPW w = ∅ ->
  lookup_entry order l2p id w = Assert "theMMU is null".
Proof.
  intros O St X T P N A. unfold lookup_entry, mbind, M_bind. unfold deref at 1. rewrite St.
  unfold dbg_assert. rewrite X. unfold timing_lookUp, lookUp. rewrite T, O.
  destruct w as [c]. cbn in *. unfold gets, deref, walker_push_back, mbind, M_bind, lift, walker_mmu, gets, assign, modify.
  destruct (isInstr u); cbn -[page_of]; rewrite P; cbn -[page_of]; rewrite St; cbn -[page_of];
    rewrite A, bool_decide_true by set_solver; cbn -[page_of]; by rewrite N.
Qed.

(** A resynchronisation does not reach the walker: after the component has been
    initialised and resynchronised, as the timing simulator does, the first request
    dereferences the walker's null pointer. *)
Theorem first_miss_has_no_mmu (order : gmap Z TLBentry -> list (Z * TLBentry))
    (QEMU_logical_to_physical : bool -> Z -> Z) (isz dsz : Z) (regs : mmu_regs_t) (m : mmu_t) (t : Translation) :
  (forall m, order m ≡ₚ map_to_list m) -> fresh_mmu regs = Done m -> theTLBtype t <> kNONE ->
  (resyncMMU regs 0;; make 1 t;; push_RequestIn 1;; drive order QEMU_logical_to_physical)
    (timing_initialize false isz dsz) = Assert "theMMU is null".
Proof.
  intros Hp Hm Ht. assert (O : order ∅ = []).
  { specialize (Hp ∅). rewrite map_to_list_empty in Hp. by apply Permutation_nil_r in Hp. }
  assert (X : xorb (isInstr (toggleReady t)) (isData (toggleReady t)) = true)
    by (destruct t; unfold isInstr, isData; cbn in *; by destruct theTLBtype).
  set (w0 := set_sent [ResyncOut 0] (set_comp (mkMMUComponent false (mkTLB isz ∅) (mkTLB dsz ∅) (Some m) true None 0)
    (timing_initialize false isz dsz))).
  assert (E0 : resyncMMU regs 0 (timing_initialize false isz dsz) = Done ((), w0))
    by (unfold resyncMMU; by rewrite Hm).
  unfold mbind at 1, M_bind at 1. rewrite E0.
  set (w1 := set_lookups [1] (set_store (<[1 := toggleReady t]> (<[1 := t]> ∅)) w0)).
  assert (E1 : (make 1 t;; push_RequestIn 1) w0 = Done ((), w1)).
  { unfold make, push_RequestIn, mbind, M_bind, assign, modify, deref. cbn -[lookup insert].
    by rewrite lookup_insert_eq. }
  unfold drive, busCycle. unfold mbind, M_bind in *.
  destruct (make 1 t w0) as [[[] w']|]; [|done]. rewrite E1. cbn [gets theLookUpEntries set_lookups w1].
  cbn [lookup_loop]. unfold mbind, M_bind, modify.
  rewrite (lookup_without_mmu order QEMU_logical_to_physical 1 (toggleReady t)); try done.
  by destruct (isInstr _).
Qed.

Lemma first_miss_has_no_mmu_witness :
  (resyncMMU (sample_regs 2) 0;; make 1 (newTranslation 0x1234 0 kDATA false false);; push_RequestIn 1;;
   drive map_to_list (fun _ a => a)) (timing_initialize false 64 64) = Assert "theMMU is null".
Proof.
  apply (first_miss_has_no_mmu map_to_list (fun _ a => a) 64 64 (sample_regs 2)
    (match fresh_mmu (sample_regs 2) with Done m => m | Assert _ => sample_mmu end)
    (newTranslation 0x1234 0 kDATA false false)); [done|reflexivity|done].
Defined.

(** ** Translations warmed by the trace simulator *)

(** The addresses that the trace port keeps are addresses that were asked for. *)
Lemma lru_keys n a pa l x : x ∈ (lru_access n a pa l).*1 -> x = a \/ x ∈ l.*1.
Proof.
  unfold lru_access. destruct (find_by fst a l) as [y|] eqn:F; cbn; intros [->|Hx]%elem_of_cons.
  - apply find_by_Some in F as [_ ->]. by left.
  - apply list_elem_of_fmap in Hx as (z & -> & [_ Hz]%list_elem_of_filter). right. by apply list_elem_of_fmap_2.
  - by left.
  - apply list_elem_of_fmap in Hx as (z & -> & Hz). right. apply list_elem_of_fmap_2.
    eapply elem_of_sublist; [exact Hz|apply sublist_take].
Qed.

Lemma served_keys isz dsz rs s ts s' (P : Z -> Prop) :
  (forall r, r ∈ rs -> P (theVaddr (snd r))) -> (forall x, x ∈ (tc_instr s).*1 ++ (tc_data s).*1 -> P x) ->
  serve_all (spec_request isz dsz) rs s = Done (ts, s') ->
  forall x, x ∈ (tc_instr s').*1 ++ (tc_data s').*1 -> P x.
Proof.
  revert s ts s'. induction rs as [|[[regs mem] t] rs IH]; intros s ts s' Hr Hs E; [by simplify_eq/=|].
  cbn [serve_all] in E. unfold mbind, outcome_bind in E.
  destruct (spec_request isz dsz regs mem t s) as [[t1 s1]|] eqn:E1; [|done].
  destruct (serve_all _ rs s1) as [[ts2 s2]|] eqn:E2; [|done]. injection E as <- <-.
  eapply IH; [|clear E2|exact E2].
  { intros r Hin. apply Hr. by apply list_elem_of_further. }
  assert (Pt : P (theVaddr t)) by (apply (Hr (regs, mem, t)), list_elem_of_here).
  assert (K : exists n pa m a, s1 = tc_set (isInstr t) (lru_access n (theVaddr t) pa (tc_of (isInstr t) s)) m a s).
  { unfold spec_request, mbind, outcome_bind in E1. repeat case_match; simplify_eq; eauto 10. }
  destruct K as (n & pa & m & a & ->). intros x Hx. destruct (isInstr t); cbn in Hx;
    apply elem_of_app in Hx as [Hx|Hx]; try (apply lru_keys in Hx as [->|Hx]; [done|]);
    apply Hs, elem_of_app; auto.
Qed.

Lemma page_of_aligned a : Z.land (page_of a) (2 ^ 12 - 1) = 0.
Proof. unfold page_of. rewrite <-Z.land_assoc. change (Z.land PAGEMASK (2 ^ 12 - 1)) with 0. apply Z.land_0_r. Qed.

(** What the trace simulator warms, the timing simulator does not find: the trace
    port keeps translations under full addresses, and the timing simulator looks for
    pages.  After every sequence of trace requests for addresses that are not the
    first of their page, no lookup of the timing simulator hits. *)
Theorem warmed_translations_are_not_found (order : gmap Z TLBentry -> list (Z * TLBentry)) (isz dsz : Z)
    (rs : list (mmu_regs_t * (Z -> Z) * Translation)) (ts : list Translation) (c : MMUComponent)
    (instr : bool) (a : Z) :
  (forall m, order m ≡ₚ map_to_list m) -> 0 < isz -> 0 < dsz ->
  (forall r, r ∈ rs -> Z.land (theVaddr (snd r)) (2 ^ 12 - 1) <> 0) ->
  serve_all (push_TLBReqIn order) rs (mmu_initialize false isz dsz) = Done (ts, c) ->
  fst (fst (lookUp order (page_of a) (tlb_of instr c))) = false.
Proof.
  intros Hp Hi Hd Hr E.
  pose proof (serve_agrees order Hp isz dsz rs _ _ Hi Hd (initial_caches isz dsz ltac:(lia) ltac:(lia))) as A.
  rewrite E in A. destruct (serve_all (spec_request isz dsz) rs _) as [[us s]|] eqn:Es; [|done].
  destruct A as [_ C]. destruct (caches_tlb _ _ _ _ instr C Hi Hd) as (H & _).
  rewrite (lookUp_hit order Hp _ _ _ H). destruct (find_by fst (page_of a) (tc_of instr s)) as [x|] eqn:F; [|done].
  apply find_by_Some in F as [Hx Ex]. exfalso.
  apply (served_keys isz dsz rs _ us s (fun v => Z.land v (2 ^ 12 - 1) <> 0) Hr) with (x := fst x) in Es.
  - apply Es. rewrite Ex. apply page_of_aligned.
  - intros v []%not_elem_of_nil.
  - apply elem_of_app. destruct instr; [left|right]; by apply list_elem_of_fmap_2.
Qed.

Lemma warmed_translations_are_not_found_witness :
  exists ts c, serve_all (push_TLBReqIn map_to_list) (sample_request <$> [0x1234]) (mmu_initialize false 2 2) = Done (ts, c) /\
    fst (fst (lookUp map_to_list 0x1234 (theDataTLB c))) = true /\
    fst (fst (lookUp map_to_list (page_of 0x1234) (theDataTLB c))) = false.
Proof.
  destruct (serve_all (push_TLBReqIn map_to_list) (sample_request <$> [0x1234]) (mmu_initialize false 2 2))
    as [[ts c]|] eqn:E; [|by vm_compute in E].
  exists ts, c. split; [done|]. split.
  - transitivity (match serve_all (push_TLBReqIn map_to_list) (sample_request <$> [0x1234]) (mmu_initialize false 2 2) with
                  | Done (_, c) => fst (fst (lookUp map_to_list 0x1234 (theDataTLB c))) | Assert _ => false end);
      [by rewrite E|by vm_compute].
  - apply (warmed_translations_are_not_found map_to_list 2 2 (sample_request <$> [0x1234]) ts c false 0x1234);
      [done|done|done| |exact E].
    intros r Hr. cbn in Hr. apply list_elem_of_singleton in Hr as ->. by vm_compute.
Defined.
