(* ===== verification/NetPort.v ===== *)
(** * Ports and channels of the network

    Messages, the buffers at the two ends of a channel and the channel itself: the
    files netcommon.hpp, channel.hpp and channel.cpp of components/NetShim.  The
    arrays indexed by virtual channel are functions; the linked lists are lists.
    The current time is an argument.  What an operation tells another object, a
    channel or a switch that a message waits, is part of its result. *)

From stdpp Require Import base list strings fin_maps.
From Stdlib Require Import ZArith Lia.
From S2P Require Import Prelude.

Local Open Scope Z_scope.

Definition INT_MAX : Z := 2 ^ 31 - 1.
Definition MAX_NET_VC : Z := 2.
Definition NUM_PRIORITIES : Z := 4.
Definition MAX_PROT_VC : Z := 4.
Definition MAX_VC : Z := MAX_PROT_VC * MAX_NET_VC.
Definition NETVC_TO_PROTVC (vc : Z) : Z := vc / MAX_NET_VC.
Definition BUILD_VC (prot net : Z) : Z := prot * MAX_NET_VC + net.

Record MessageState : Type := mkMsg {
  srcNode : Z;
  destNode : Z;
  priority : Z;
  networkVC : Z;
  nextHop : Z;
  nextVC : Z;
  transmitLatency : Z;
  flexusInFastMode : bool;
  serial : Z;
  hopCount : Z;
  bufferTime : Z;
  atHeadTime : Z;
  acceptTime : Z;
  startTS : Z;
}.

(** Statistics. *)
Definition add_times (buffer atHead accept : Z) (m : MessageState) : MessageState :=
  mkMsg (srcNode m) (destNode m) (priority m) (networkVC m) (nextHop m) (nextVC m) (transmitLatency m)
    (flexusInFastMode m) (serial m) (hopCount m) (bufferTime m + buffer) (atHeadTime m + atHead)
    (acceptTime m + accept) (startTS m).
(** The route that a switch chooses, and its use. *)
Definition set_route (hop vc : Z) (m : MessageState) : MessageState :=
  mkMsg (srcNode m) (destNode m) (priority m) (networkVC m) hop vc (transmitLatency m)
    (flexusInFastMode m) (serial m) (hopCount m) (bufferTime m) (atHeadTime m) (acceptTime m) (startTS m).
Definition take_route (m : MessageState) : MessageState :=
  mkMsg (srcNode m) (destNode m) (priority m) (nextVC m) (nextHop m) (-1) (transmitLatency m)
    (flexusInFastMode m) (serial m) (hopCount m + 1) (bufferTime m) (atHeadTime m) (acceptTime m)
    (startTS m).
(** The virtual channel and the latency with which a message enters. *)
Definition set_entry (vc latency : Z) (m : MessageState) : MessageState :=
  mkMsg (srcNode m) (destNode m) (priority m) vc (nextHop m) (nextVC m) latency
    (flexusInFastMode m) (serial m) (hopCount m) (bufferTime m) (atHeadTime m) (acceptTime m) (startTS m).

(** ** Ports *)

Record ChannelPort : Type := mkPort {
  bufferCount : Z -> Z;
  buffersUsed : Z -> Z;
  msl : Z -> list MessageState;
  channel : option Z;
}.

(** Virtual channels 0 and 1 of an unbounded port have one buffer. *)
Definition newPort (bufferCount_ : Z) : outcome ChannelPort :=
  if 0 <? bufferCount_ then
    Done (mkPort (fun i => if ((i =? 0) || (i =? 1)) && (bufferCount_ =? INT_MAX) then 1 else bufferCount_)
            (fun _ => 0) (fun _ => []) None)
  else Assert "bufferCount_ > 0".

Definition valid_vc (vc : Z) : bool := (0 <=? vc) && (vc <? MAX_VC).

Definition set_queue (vc : Z) (l : list MessageState) (used : Z) (p : ChannelPort) : ChannelPort :=
  mkPort (bufferCount p) (fset vc used (buffersUsed p)) (fset vc l (msl p)) (channel p).

Definition insertMessageHelper (now : Z) (msg : MessageState) (p : ChannelPort) : outcome ChannelPort :=
  let vc := networkVC msg in
  if valid_vc vc then
    let l := match msl p vc with
             | [] => [add_times 0 (- now) 0 msg]
             | l => l ++ [msg]
             end in
    Done (set_queue vc l (buffersUsed p vc) p)
  else Assert "msg->networkVC >= 0 && msg->networkVC < MAX_VC".

Definition removeMessage (now vc : Z) (p : ChannelPort) : outcome (MessageState * ChannelPort) :=
  if valid_vc vc then
    match msl p vc with
    | [] => Assert "msl != nullptr"
    | m :: rest =>
        let rest := match rest with [] => [] | n :: rest => add_times 0 (- now) 0 n :: rest end in
        Done (add_times now now 0 m, set_queue vc rest (buffersUsed p vc - 1) p)
    end
  else Assert "vc >= 0 && vc < MAX_VC".

Definition hasMessage (vc : Z) (p : ChannelPort) : outcome bool :=
  if valid_vc vc then Done (match msl p vc with [] => false | _ => true end)
  else Assert "vc >= 0 && vc < MAX_VC".

Definition peekMessage (vc : Z) (p : ChannelPort) : outcome (option MessageState) :=
  if valid_vc vc then Done (hd_error (msl p vc)) else Assert "vc >= 0 && vc < MAX_VC".

Definition hasBufferSpace (vc : Z) (p : ChannelPort) : outcome bool :=
  if valid_vc vc then Done (buffersUsed p vc <? bufferCount p vc)
  else Assert "vc >= 0 && vc < MAX_VC".

Definition getBuffersUsed (p : ChannelPort) : Z :=
  foldl (fun count i => count + buffersUsed p i) 0 (below MAX_VC).

Definition setChannel (c : Z) (p : ChannelPort) : ChannelPort :=
  mkPort (bufferCount p) (buffersUsed p) (msl p) (Some c).
Definition isConnected (p : ChannelPort) : bool := match channel p with Some _ => true | None => false end.

(** *** Input ports *)

Record ChannelInputPort : Type := mkInput {
  in_port : ChannelPort;
  channelLatency : Z;
  delayQueue : list (MessageState * Z);
}.

Definition newInputPort (bufferCount_ channelLatency_ : Z) : outcome ChannelInputPort :=
  p ← newPort bufferCount_; Done (mkInput p channelLatency_ []).

Definition in_insertMessage (now : Z) (msg : MessageState) (p : ChannelInputPort) : outcome ChannelInputPort :=
  let vc := networkVC msg in
  if buffersUsed (in_port p) vc <? bufferCount (in_port p) vc then
    let delay := if flexusInFastMode msg then now + 1 else now + channelLatency p in
    Done (mkInput (set_queue vc (msl (in_port p) vc) (buffersUsed (in_port p) vc + 1) (in_port p))
            (channelLatency p) (delayQueue p ++ [(add_times (- now) 0 0 msg, delay)]))
  else Assert "buffersUsed[msg->networkVC] < bufferCount[msg->networkVC]".

(** The messages whose delay is over; the owner of the port is told the virtual
    channel of each. *)
Fixpoint in_drive_loop (now : Z) (q : list (MessageState * Z)) (p : ChannelPort) (told : list Z)
    : outcome (list (MessageState * Z) * ChannelPort * list Z) :=
  match q with
  | (msg, delay) :: q' =>
      if delay <=? now then
        p ← insertMessageHelper now msg p;
        in_drive_loop now q' p (told ++ [networkVC msg])
      else Done (q, p, told)
  | [] => Done ([], p, told)
  end.

Definition in_drive (now : Z) (p : ChannelInputPort) : outcome (ChannelInputPort * list Z) :=
  '(q, port, told) ← in_drive_loop now (delayQueue p) (in_port p) [];
  Done (mkInput port (channelLatency p) q, told).

Definition in_removeMessage (now vc : Z) (p : ChannelInputPort) : outcome (MessageState * ChannelInputPort) :=
  '(m, port) ← removeMessage now vc (in_port p);
  Done (add_times (- (if channelLatency p <? transmitLatency m then channelLatency p else transmitLatency m)) 0 0 m,
        mkInput port (channelLatency p) (delayQueue p)).

Definition setLocalDelay (p : ChannelInputPort) : ChannelInputPort := mkInput (in_port p) 1 (delayQueue p).

(** *** Output ports *)

(** The result names the channel that is told. *)
Definition out_insertMessage (now : Z) (msg : MessageState) (p : ChannelPort) : outcome (ChannelPort * Z) :=
  space ← hasBufferSpace (networkVC msg) p;
  if (space : bool) then
    let vc := networkVC msg in
    let accept := if buffersUsed p vc =? 0 then - now else 0 in
    let msg := add_times (- now) 0 accept msg in
    let p := set_queue vc (msl p vc) (buffersUsed p vc + 1) p in
    match channel p with
    | None => Assert "channel is null"
    | Some c => p ← insertMessageHelper now msg p; Done (p, c)
    end
  else Assert "hasBufferSpace(msg->networkVC)".

Definition out_removeMessage (now vc : Z) (p : ChannelPort) : outcome (MessageState * ChannelPort) :=
  '(m, p) ← removeMessage now vc p;
  let rest := match msl p vc with [] => [] | n :: rest => add_times 0 0 (- now) n :: rest end in
  Done (add_times 0 0 now m, set_queue vc rest (buffersUsed p vc) p).

(** ** Channels *)

Inductive ChannelState : Set := CS_IDLE | CS_WAIT_FOR_ACCEPT | CS_TRANSFERRING.

(** Where the ends of a channel are: at a node, or at a port of a switch. *)
Inductive end_ref : Set :=
  | AtNode (node : Z)
  | AtSwitch (sw port : Z).

#[export] Instance end_ref_eq_dec : EqDecision end_ref.
Proof. solve_decision. Defined.

Record Channel : Type := mkChannel {
  busy : Z;
  localLatencyDivider : Z;
  state : ChannelState;
  fromPort : option end_ref;
  toPort : option end_ref;
  ch_waiting : Z;
}.

Definition newChannel : Channel := mkChannel 0 1 CS_IDLE None None 0.

Definition ch_set (b : Z) (st : ChannelState) (waiting : Z) (c : Channel) : Channel :=
  mkChannel b (localLatencyDivider c) st (fromPort c) (toPort c) waiting.
Definition notifyWaitingMessage (c : Channel) : Channel := ch_set (busy c) (state c) (ch_waiting c + 1) c.
Definition setLocalLatencyDivider (l : Z) (c : Channel) : Channel :=
  mkChannel (busy c) l (state c) (fromPort c) (toPort c) (ch_waiting c).

(** The first virtual channel with a message and with space at the other end. *)
Fixpoint pick_vc (vcs : list Z) (from : ChannelPort) (to : ChannelInputPort) : outcome (option Z) :=
  match vcs with
  | [] => Done None
  | i :: vcs =>
      has ← hasMessage i from;
      if (has : bool) then
        space ← hasBufferSpace i (in_port to);
        if (space : bool) then Done (Some i) else pick_vc vcs from to
      else pick_vc vcs from to
  end.

(** How long a message occupies the channel. *)
Definition occupancy (latency divider : Z) : Z :=
  let b := Z.quot (latency + divider - 1) divider in if b <=? 0 then 1 else b.

Definition count_down (c : Channel) : Channel :=
  let b := busy c - 1 in ch_set b (if b <=? 0 then CS_IDLE else state c) (ch_waiting c) c.

(** The state [CS_WAIT_FOR_ACCEPT] of [Channel::drive], which falls through to the
    transfer.  The ports at the two ends are given if both are attached. *)
Definition wait_for_accept (now : Z) (c : Channel) (ends : option (ChannelPort * ChannelInputPort))
    : outcome (Channel * option (ChannelPort * ChannelInputPort)) :=
  if negb (busy c <=? 0) then Assert "busy <= 0"
  else if negb (0 <? ch_waiting c) then Assert "messagesWaiting > 0"
  else
    match ends with
    | None => Assert "port is null"
    | Some (from, to) =>
        picked ← pick_vc (below MAX_VC) from to;
        match picked with
        | None => Done (c, ends)
        | Some i =>
            '(msg, from) ← out_removeMessage now i from;
            to ← in_insertMessage now msg to;
            if localLatencyDivider c =? 0 then Assert "division by zero"
            else
              let c := ch_set (occupancy (transmitLatency msg) (localLatencyDivider c)) CS_TRANSFERRING
                         (ch_waiting c - 1) c in
              Done (count_down c, Some (from, to))
        end
    end.

Definition channel_drive (now : Z) (c : Channel) (ends : option (ChannelPort * ChannelInputPort))
    : outcome (Channel * option (ChannelPort * ChannelInputPort)) :=
  match state c with
  | CS_IDLE =>
      if negb (busy c <=? 0) then Assert "busy <= 0"
      else if 0 <? ch_waiting c
      then wait_for_accept now (ch_set (busy c) CS_WAIT_FOR_ACCEPT (ch_waiting c) c) ends
      else Done (c, ends)
  | CS_WAIT_FOR_ACCEPT => wait_for_accept now c ends
  | CS_TRANSFERRING => Done (count_down c, ends)
  end.
