(* ===== verification/NetSwitch.v ===== *)
(** * Switches of the network

    The files netswitch.hpp and netswitch.cpp of components/NetShim: the internal
    buffers, the routing table and the arbitration of [NetSwitch::drive].  The list
    that the code walks with [currMessage] is walked by position: removing an entry
    leaves the next one at the same position. *)

From stdpp Require Import base list strings fin_maps.
From Stdlib Require Import ZArith Lia.
From S2P Require Import Prelude NetPort.

Local Open Scope Z_scope.

Record NetSwitch : Type := mkSwitch {
  numPorts : Z;
  crossbarBandwidth : Z;
  nextStartingPort : Z;
  inputPorts : Z -> ChannelInputPort;
  outputPorts : Z -> ChannelPort;
  (* the internal buffers *)
  ib_count : Z;
  ib_used : Z -> Z;
  ageBuffer : Z -> list MessageState;
  (* for each node the output ports and virtual channels, in order of preference *)
  routingTable : Z -> list (Z * Z);
  messagesWaiting : Z -> Z;
}.

Definition set_start (i : Z) (w : NetSwitch) : NetSwitch :=
  mkSwitch (numPorts w) (crossbarBandwidth w) i (inputPorts w) (outputPorts w) (ib_count w) (ib_used w)
    (ageBuffer w) (routingTable w) (messagesWaiting w).
Definition set_input (i : Z) (p : ChannelInputPort) (w : NetSwitch) : NetSwitch :=
  mkSwitch (numPorts w) (crossbarBandwidth w) (nextStartingPort w) (fset i p (inputPorts w)) (outputPorts w)
    (ib_count w) (ib_used w) (ageBuffer w) (routingTable w) (messagesWaiting w).
Definition set_output (i : Z) (p : ChannelPort) (w : NetSwitch) : NetSwitch :=
  mkSwitch (numPorts w) (crossbarBandwidth w) (nextStartingPort w) (inputPorts w) (fset i p (outputPorts w))
    (ib_count w) (ib_used w) (ageBuffer w) (routingTable w) (messagesWaiting w).
Definition set_internal (vc used : Z) (l : list MessageState) (w : NetSwitch) : NetSwitch :=
  mkSwitch (numPorts w) (crossbarBandwidth w) (nextStartingPort w) (inputPorts w) (outputPorts w)
    (ib_count w) (fset vc used (ib_used w)) (fset vc l (ageBuffer w)) (routingTable w) (messagesWaiting w).
Definition set_routes (node : Z) (l : list (Z * Z)) (w : NetSwitch) : NetSwitch :=
  mkSwitch (numPorts w) (crossbarBandwidth w) (nextStartingPort w) (inputPorts w) (outputPorts w)
    (ib_count w) (ib_used w) (ageBuffer w) (fset node l (routingTable w)) (messagesWaiting w).
(** [notifyWaitingMessage], and its reverse. *)
Definition add_waiting (vc d : Z) (w : NetSwitch) : NetSwitch :=
  mkSwitch (numPorts w) (crossbarBandwidth w) (nextStartingPort w) (inputPorts w) (outputPorts w)
    (ib_count w) (ib_used w) (ageBuffer w) (routingTable w)
    (fset vc (messagesWaiting w vc + d) (messagesWaiting w)).

Definition newSwitch (numNodes numPorts_ inputBufferDepth outputBufferDepth vcBufferDepth crossbarBandwidth_
    channelLatency_ : Z) : outcome NetSwitch :=
  if negb ((0 <? numNodes) && (0 <? numPorts_) && (0 <? inputBufferDepth) && (0 <? outputBufferDepth)
           && (0 <=? vcBufferDepth) && negb (crossbarBandwidth_ =? 0))
  then Assert "switch parameters"
  else
    input ← newInputPort inputBufferDepth channelLatency_;
    output ← newPort outputBufferDepth;
    Done (mkSwitch numPorts_ crossbarBandwidth_ 0 (fun _ => input) (fun _ => output) vcBufferDepth
            (fun _ => 0) (fun _ => []) (fun _ => []) (fun _ => 0)).

(** ** Internal buffers *)

Definition isFull (vc : Z) (w : NetSwitch) : bool := ib_count w <=? ib_used w vc.

Definition ib_insertMessage (now : Z) (msg : MessageState) (w : NetSwitch) : outcome NetSwitch :=
  let vc := networkVC msg in
  if isFull vc w then Assert "!isFull(vc)"
  else Done (set_internal vc (ib_used w vc + 1) (ageBuffer w vc ++ [add_times (- now) (- now) 0 msg]) w).

(** Removes the message at a position of a list. *)
Definition ib_removeMessage (now vc : Z) (i : nat) (w : NetSwitch) : outcome (MessageState * NetSwitch) :=
  match ageBuffer w vc !! i with
  | None => Assert "msl != nullptr"
  | Some m => Done (add_times now now 0 m,
                    set_internal vc (ib_used w vc - 1) (delete i (ageBuffer w vc)) w)
  end.

(** ** Routing *)

(** The first route with buffer space. *)
Fixpoint first_route (routes : list (Z * Z)) (msg : MessageState) (w : NetSwitch) : outcome (option (Z * Z)) :=
  match routes with
  | [] => Done None
  | (routingPort, routingVC) :: routes =>
      let vc := BUILD_VC (priority msg) routingVC in
      space ← hasBufferSpace vc (outputPorts w routingPort);
      if (space : bool) then Done (Some (routingPort, vc)) else first_route routes msg w
  end.

Definition routingPolicy (msg : MessageState) (w : NetSwitch) : outcome (option (Z * Z)) :=
  first_route (routingTable w (destNode msg)) msg w.

(** The result names the channel that is told. *)
Definition sendMessageToOutput (now : Z) (msg : MessageState) (w : NetSwitch) : outcome (NetSwitch * Z) :=
  let hop := nextHop msg in
  '(p, c) ← out_insertMessage now (take_route msg) (outputPorts w hop);
  Done (set_output hop p w, c).

Definition addRoutingEntry (numNodes node port vc : Z) (w : NetSwitch) : outcome NetSwitch :=
  if negb ((node <? numNodes) && (0 <=? node) && (port <? numPorts w) && (0 <=? port)
           && (vc <? MAX_NET_VC) && (0 <=? vc))
  then Assert "routing entry"
  else
    let routes := routingTable w node in
    if bool_decide ((port, vc) ∈ routes) then Done w
    else if Z.of_nat (length routes) <? numPorts w * MAX_NET_VC
    then Done (set_routes node (routes ++ [(port, vc)]) w)
    else Assert "too many routing table entries".

(** ** Arbitration *)

(** A switch that is being driven: the bandwidth that is left, and the channels
    that have been told. *)
Record driving : Type := mkDriving {
  dr_switch : NetSwitch;
  dr_bandwidth : Z;
  dr_told : list Z;
}.

(** A message that has left its buffer goes to the output port of its route. *)
Definition dispatch (now : Z) (route : Z * Z) (msg : MessageState) (w : NetSwitch) (d : driving) : outcome driving :=
  '(w, c) ← sendMessageToOutput now (set_route (fst route) (snd route) msg) w;
  Done (mkDriving w (dr_bandwidth d - 1) (dr_told d ++ [c])).

(** The loop over the internal buffers of a virtual channel, from position [i]:
    [removeMessage] moves on to the next entry, and so does the loop. *)
Fixpoint internal_loop (fuel : nat) (now vc : Z) (i : nat) (d : driving) : outcome driving :=
  match fuel with
  | O => Done d
  | S fuel =>
      match ageBuffer (dr_switch d) vc !! i with
      | None => Done d
      | Some msg =>
          if negb (0 <? dr_bandwidth d) then Done d
          else
            route ← routingPolicy msg (dr_switch d);
            match route with
            | Some r =>
                '(msg, w) ← ib_removeMessage now vc i (dr_switch d);
                d ← dispatch now r msg w d;
                internal_loop fuel now vc (S i) d
            | None => internal_loop fuel now vc (S i) d
            end
      end
  end.

(** One port: its first message is routed, or goes to an internal buffer. *)
Definition try_port (now vc port : Z) (d : driving) : outcome driving :=
  let w := dr_switch d in
  head ← peekMessage vc (in_port (inputPorts w port));
  match head with
  | None => Done d
  | Some msg =>
      route ← routingPolicy msg w;
      match route with
      | Some r =>
          '(msg, p) ← in_removeMessage now vc (inputPorts w port);
          d ← dispatch now r msg (set_input port p w) d;
          Done (mkDriving (add_waiting vc (-1) (dr_switch d)) (dr_bandwidth d) (dr_told d))
      | None =>
          if isFull (networkVC msg) w then Done d
          else
            '(msg, p) ← in_removeMessage now vc (inputPorts w port);
            w ← ib_insertMessage now msg (set_input port p w);
            Done (mkDriving (add_waiting vc (-1) w) (dr_bandwidth d) (dr_told d))
      end
  end.

(** The loop over the ports, which starts at [nextStartingPort] and ends there or
    when the bandwidth is zero. *)
Fixpoint port_loop (fuel : nat) (now vc port : Z) (d : driving) : outcome driving :=
  match fuel with
  | O => Done d
  | S fuel =>
      d ← try_port now vc port d;
      let port := (port + 1) mod numPorts (dr_switch d) in
      if negb (port =? nextStartingPort (dr_switch d)) && negb (dr_bandwidth d =? 0)
      then port_loop fuel now vc port d
      else Done d
  end.

(** One virtual channel. *)
Definition drive_vc (now vc : Z) (d : driving) : outcome driving :=
  d ← internal_loop (length (ageBuffer (dr_switch d) vc)) now vc 0 d;
  if messagesWaiting (dr_switch d) vc =? 0 then Done d
  else port_loop (Z.to_nat (numPorts (dr_switch d))) now vc (nextStartingPort (dr_switch d)) d.

Fixpoint drive_vcs (now : Z) (vcs : list Z) (d : driving) : outcome driving :=
  match vcs with
  | [] => Done d
  | vc :: vcs => d ← drive_vc now vc d; drive_vcs now vcs d
  end.

(** [NetSwitch::drive], with the channels that are told. *)
Definition switch_drive (now : Z) (w : NetSwitch) : outcome (NetSwitch * list Z) :=
  d ← drive_vcs now (below MAX_VC) (mkDriving w (crossbarBandwidth w) []);
  let w := dr_switch d in
  Done (set_start ((nextStartingPort w + 1) mod numPorts w) w, dr_told d).

Fixpoint drive_inputs (now : Z) (ports : list Z) (w : NetSwitch) : outcome NetSwitch :=
  match ports with
  | [] => Done w
  | i :: ports =>
      '(p, told) ← in_drive now (inputPorts w i);
      drive_inputs now ports (foldl (fun w vc => add_waiting vc 1 w) (set_input i p w) told)
  end.

Definition driveInputPorts (now : Z) (w : NetSwitch) : outcome NetSwitch :=
  drive_inputs now (below (numPorts w)) w.

(** [checkRoutingTable]: a route to every node, through connected ports only. *)
Definition checkRoutingTable (numNodes : Z) (w : NetSwitch) : bool :=
  existsb (fun i => match routingTable w i with [] => true | _ => false end
                    || existsb (fun r => negb (isConnected (outputPorts w (fst r)))) (routingTable w i))
    (below numNodes).
