(* ===== verification/NetShim.v ===== *)
(** * The network simulator

    Nodes, the container that owns nodes, switches and channels, and the component
    that the timing simulator wires: the files netnode.cpp, netcontainer.cpp and
    MemoryNetworkImpl.cpp of components/NetShim.  The container is built by the
    handlers of the tokens of a topology file, whose text is not modelled; an error
    that the code returns is an assertion.  Whether a node accepts a message is
    decided by the components at its ports: an argument of the model, a function of
    what has been delivered. *)

From stdpp Require Import base gmap list strings fin_maps.
From Stdlib Require Import ZArith Lia.
From S2P Require Import Prelude NetPort NetSwitch.

Local Open Scope Z_scope.

Record NetNode : Type := mkNode {
  fromNodePort : ChannelPort;
  toNodePort : ChannelInputPort;
  nd_waiting : Z;
}.

Definition newNode : outcome NetNode :=
  from ← newPort INT_MAX;
  to ← newInputPort 1 1;
  Done (mkNode from to 0).

(** The parameters of a topology file. *)
Record NetParams : Type := mkParams {
  np_channelLatency : Z;
  np_channelLatencyData : Z;
  np_channelLatencyControl : Z;
  np_channelBandwidth : Z;
  np_localChannelLatencyDivider : Z;
  np_numNodes : Z;
  np_numSwitches : Z;
  np_switchInputBuffers : Z;
  np_switchOutputBuffers : Z;
  np_switchInternalBuffersPerVC : Z;
  np_switchBandwidth : Z;
  np_switchPorts : Z;
}.

Record NetContainer : Type := mkNet {
  np : NetParams;
  channels : Z -> Channel;
  switches : Z -> NetSwitch;
  nodes : Z -> NetNode;
  numChannels : Z;
  maxChannelIndex : Z;
  (* the serial numbers of the messages in the network, oldest first *)
  activeList : list Z;
  activeMessages : Z;
}.

Definition set_channel (i : Z) (c : Channel) (n : NetContainer) : NetContainer :=
  mkNet (np n) (fset i c (channels n)) (switches n) (nodes n) (numChannels n) (maxChannelIndex n)
    (activeList n) (activeMessages n).
Definition set_switch (i : Z) (w : NetSwitch) (n : NetContainer) : NetContainer :=
  mkNet (np n) (channels n) (fset i w (switches n)) (nodes n) (numChannels n) (maxChannelIndex n)
    (activeList n) (activeMessages n).
Definition set_node (i : Z) (x : NetNode) (n : NetContainer) : NetContainer :=
  mkNet (np n) (channels n) (switches n) (fset i x (nodes n)) (numChannels n) (maxChannelIndex n)
    (activeList n) (activeMessages n).
Definition set_maxChannel (i : Z) (n : NetContainer) : NetContainer :=
  mkNet (np n) (channels n) (switches n) (nodes n) (numChannels n) i (activeList n) (activeMessages n).
Definition set_active (l : list Z) (k : Z) (n : NetContainer) : NetContainer :=
  mkNet (np n) (channels n) (switches n) (nodes n) (numChannels n) (maxChannelIndex n) l k.

(** ** Building the network *)

(** [validateParameters], the errors of which are reported together. *)
Definition validateParameters (p : NetParams) : bool :=
  (0 <? np_channelLatency p) && (0 <? np_channelLatencyData p) && (0 <? np_channelLatencyControl p)
  && (0 <? np_localChannelLatencyDivider p) && (0 <? np_numNodes p) && (0 <? np_numSwitches p)
  && (0 <? np_switchInputBuffers p) && (0 <? np_switchOutputBuffers p)
  && (-1 <? np_switchInternalBuffersPerVC p) && (0 <? np_switchBandwidth p) && (1 <? np_switchPorts p).

(** The first topology or routing token checks the parameters and allocates. *)
Definition allocateNetworkStructures (p : NetParams) : outcome NetContainer :=
  if negb (validateParameters p) then Assert "bad or missing parameters"
  else
    w ← newSwitch (np_numNodes p) (np_switchPorts p) (np_switchInputBuffers p) (np_switchOutputBuffers p)
          (np_switchInternalBuffersPerVC p) (np_switchBandwidth p) (np_channelLatency p);
    x ← newNode;
    Done (mkNet p (fun _ => newChannel) (fun _ => w) (fun _ => x)
            (np_numSwitches p * np_switchPorts p * 2) 0 [] 0).

(** The ports of an end. *)
Definition output_at (e : end_ref) (n : NetContainer) : ChannelPort :=
  match e with
  | AtNode i => fromNodePort (nodes n i)
  | AtSwitch s p => outputPorts (switches n s) p
  end.
Definition input_at (e : end_ref) (n : NetContainer) : ChannelInputPort :=
  match e with
  | AtNode i => toNodePort (nodes n i)
  | AtSwitch s p => inputPorts (switches n s) p
  end.
Definition put_output (e : end_ref) (x : ChannelPort) (n : NetContainer) : NetContainer :=
  match e with
  | AtNode i => set_node i (mkNode x (toNodePort (nodes n i)) (nd_waiting (nodes n i))) n
  | AtSwitch s p => set_switch s (set_output p x (switches n s)) n
  end.
Definition put_input (e : end_ref) (x : ChannelInputPort) (n : NetContainer) : NetContainer :=
  match e with
  | AtNode i => set_node i (mkNode (fromNodePort (nodes n i)) x (nd_waiting (nodes n i))) n
  | AtSwitch s p => set_switch s (set_input p x (switches n s)) n
  end.

(** [Channel::setFromPort] and [setToPort]: an end is attached once. *)
Definition setFromPort (c : Z) (e : end_ref) (n : NetContainer) : outcome NetContainer :=
  let ch := channels n c in
  match fromPort ch with
  | Some _ => Assert "channel attached twice"
  | None =>
      Done (put_output e (setChannel c (output_at e n))
              (set_channel c (mkChannel (busy ch) (localLatencyDivider ch) (state ch) (Some e) (toPort ch)
                                (ch_waiting ch)) n))
  end.
Definition setToPort (c : Z) (e : end_ref) (n : NetContainer) : outcome NetContainer :=
  let ch := channels n c in
  match toPort ch with
  | Some _ => Assert "channel attached twice"
  | None =>
      let p := input_at e n in
      Done (put_input e (mkInput (setChannel c (in_port p)) (channelLatency p) (delayQueue p))
              (set_channel c (mkChannel (busy ch) (localLatencyDivider ch) (state ch) (fromPort ch) (Some e)
                                (ch_waiting ch)) n))
  end.

(** [NetSwitch::attachChannel] *)
Definition attachChannel (c s port : Z) (isInput : bool) (n : NetContainer) : outcome NetContainer :=
  if (0 <=? port) && (port <? numPorts (switches n s)) then
    if isInput then setToPort c (AtSwitch s port) n else setFromPort c (AtSwitch s port) n
  else Assert "port >= 0 && port < numPorts".

Definition attachSwitchChannels (s port : Z) (destination : bool) (n : NetContainer) : outcome NetContainer :=
  n ← attachChannel (maxChannelIndex n) s port destination n;
  attachChannel (maxChannelIndex n + 1) s port (negb destination) n.

Definition attachNodeChannels (node : Z) (n : NetContainer) : outcome NetContainer :=
  let c := maxChannelIndex n in
  let divider := np_localChannelLatencyDivider (np n) in
  n ← setFromPort c (AtNode node) n;
  n ← setToPort (c + 1) (AtNode node) n;
  let n := set_channel c (setLocalLatencyDivider divider (channels n c)) n in
  Done (set_channel (c + 1) (setLocalLatencyDivider divider (channels n (c + 1))) n).

Definition setLocalDelayOnly (s port : Z) (n : NetContainer) : outcome NetContainer :=
  if (0 <=? port) && (port <? numPorts (switches n s))
  then Done (put_input (AtSwitch s port) (setLocalDelay (input_at (AtSwitch s port) n)) n)
  else Assert "port >= 0 && port < numPorts".

(** [readTopSrcDest] refuses nodes that are too large; an index below zero, or of a
    switch that does not exist, is used later as it is, outside the arrays. *)
Definition check_end (e : end_ref) (n : NetContainer) : outcome () :=
  match e with
  | AtNode i => if np_numNodes (np n) <=? i then Assert "topology node is out of range" else Done ()
  | AtSwitch _ _ => Done ()
  end.
Definition in_bounds (e : end_ref) (n : NetContainer) : outcome () :=
  match e with
  | AtNode i => if i <? 0 then Assert "nodes[] out of bounds" else Done ()
  | AtSwitch s _ =>
      if (s <? 0) || (np_numSwitches (np n) <=? s) then Assert "switches[] out of bounds" else Done ()
  end.

(** A node is always the source of the first of the two channels. *)
Definition connect (from to : end_ref) (n : NetContainer) : outcome NetContainer :=
  match from, to with
  | AtSwitch s p, AtNode i | AtNode i, AtSwitch s p =>
      n ← attachNodeChannels i n;
      n ← attachSwitchChannels s p true n;
      setLocalDelayOnly s p n
  | AtSwitch s p, AtSwitch s' p' =>
      n ← attachSwitchChannels s p false n;
      attachSwitchChannels s' p' true n
  | AtNode _, AtNode _ => Assert "topology declaration must have at least one switch endpoint"
  end.

Definition is_node (e : end_ref) : bool := match e with AtNode _ => true | AtSwitch _ _ => false end.

(** [handleTopology] *)
Definition handleTopology (from to : end_ref) (n : NetContainer) : outcome NetContainer :=
  check_end from n;; check_end to n;;
  if is_node from && is_node to then Assert "topology declaration must have at least one switch endpoint"
  else if numChannels n - 1 <=? maxChannelIndex n then Assert "too many channels specified"
  else
    in_bounds from n;; in_bounds to n;;
    n ← connect from to n;
    Done (set_maxChannel (maxChannelIndex n + 2) n).

(** [handleRoute], with the list of output ports and virtual channels. *)
Fixpoint add_routes (s node : Z) (routes : list (Z * Z)) (n : NetContainer) : outcome NetContainer :=
  match routes with
  | [] => Done n
  | (port, vc) :: routes =>
      if negb ((port <? np_switchPorts (np n)) && (0 <=? port)) then Assert "port number in route specification"
      else if negb ((vc <? MAX_NET_VC) && (0 <=? vc)) then Assert "virtual channel number in route specification"
      else
        w ← addRoutingEntry (np_numNodes (np n)) node port vc (switches n s);
        add_routes s node routes (set_switch s w n)
  end.

Definition handleRoute (s node : Z) (routes : list (Z * Z)) (n : NetContainer) : outcome NetContainer :=
  if negb ((s <? np_numSwitches (np n)) && (0 <=? s)) then Assert "switch number in route specification"
  else if negb ((node <? np_numNodes (np n)) && (0 <=? node)) then Assert "node number in route specification"
  else add_routes s node routes n.

(** [NetNode::checkTopology] *)
Definition checkTopology (x : NetNode) : bool :=
  negb (isConnected (fromNodePort x)) || negb (isConnected (in_port (toNodePort x))).

Definition validateNetwork (n : NetContainer) : outcome () :=
  if existsb (fun i => checkTopology (nodes n i)) (below (np_numNodes (np n)))
     || existsb (fun s => checkRoutingTable (np_numNodes (np n)) (switches n s)) (below (np_numSwitches (np n)))
  then Assert "Network validation failed" else Done ().

(** The tokens of a topology file, after its parameters. *)
Inductive top_token : Type :=
  | Top (from to : end_ref)
  | Route (s node : Z) (routes : list (Z * Z)).

Fixpoint handle_tokens (ts : list top_token) (n : NetContainer) : outcome NetContainer :=
  match ts with
  | [] => Done n
  | Top from to :: ts => n ← handleTopology from to n; handle_tokens ts n
  | Route s node routes :: ts => n ← handleRoute s node routes n; handle_tokens ts n
  end.

(** [buildNetwork] *)
Definition buildNetwork (p : NetParams) (ts : list top_token) : outcome NetContainer :=
  n ← allocateNetworkStructures p;
  n ← handle_tokens ts n;
  validateNetwork n;;
  Done n.

(** ** One cycle of the container *)

(** Removes the first occurrence. *)
Fixpoint remove_one (x : Z) (l : list Z) : list Z :=
  match l with
  | [] => []
  | y :: l => if y =? x then l else y :: remove_one x l
  end.

(** The channels that are told that a message waits. *)
Definition tell (told : list Z) (n : NetContainer) : NetContainer :=
  foldl (fun n c => set_channel c (notifyWaitingMessage (channels n c)) n) n told.

Fixpoint drive_switches (now : Z) (l : list Z) (n : NetContainer) : outcome NetContainer :=
  match l with
  | [] => Done n
  | i :: l =>
      '(w, told) ← switch_drive now (switches n i);
      drive_switches now l (tell told (set_switch i w n))
  end.

Fixpoint drive_switch_inputs (now : Z) (l : list Z) (n : NetContainer) : outcome NetContainer :=
  match l with
  | [] => Done n
  | i :: l => w ← driveInputPorts now (switches n i); drive_switch_inputs now l (set_switch i w n)
  end.

(** [NetNode::driveInputPorts] *)
Definition node_driveInputPorts (now : Z) (x : NetNode) : outcome NetNode :=
  '(p, told) ← in_drive now (toNodePort x);
  Done (mkNode (fromNodePort x) p (nd_waiting x + Z.of_nat (length told))).

Fixpoint drive_node_inputs (now : Z) (l : list Z) (n : NetContainer) : outcome NetContainer :=
  match l with
  | [] => Done n
  | i :: l => x ← node_driveInputPorts now (nodes n i); drive_node_inputs now l (set_node i x n)
  end.

Definition ends_of (c : Channel) (n : NetContainer) : option (ChannelPort * ChannelInputPort) :=
  match fromPort c, toPort c with
  | Some f, Some t => Some (output_at f n, input_at t n)
  | _, _ => None
  end.
Definition put_ends (c : Channel) (ends : option (ChannelPort * ChannelInputPort)) (n : NetContainer) : NetContainer :=
  match fromPort c, toPort c, ends with
  | Some f, Some t, Some (from, to) => put_input t to (put_output f from n)
  | _, _, _ => n
  end.

Fixpoint drive_channels (now : Z) (l : list Z) (n : NetContainer) : outcome NetContainer :=
  match l with
  | [] => Done n
  | i :: l =>
      let c := channels n i in
      '(c', ends) ← channel_drive now c (ends_of c n);
      drive_channels now l (set_channel i c' (put_ends c ends n))
  end.

(** ** The component *)

Record NetworkMessage : Type := mkNetworkMessage {
  nm_src : Z;
  nm_dest : Z;
  nm_vc : Z;
  nm_size : Z;
  nm_src_port : Z;
  nm_dst_port : Z;
}.

Record MemoryNetwork : Type := mkMemoryNetwork {
  VChannels : Z;
  nc : NetContainer;
  transports : gmap Z NetworkMessage;
  msSerial : Z;
  (* what has been pushed to the ports [ToNode], with the port *)
  delivered : list (Z * NetworkMessage);
  latency : Z;
  PacketCount : Z;
  net_stats : gmap string Z;
}.

Definition set_nc (n : NetContainer) (w : MemoryNetwork) : MemoryNetwork :=
  mkMemoryNetwork (VChannels w) n (transports w) (msSerial w) (delivered w) (latency w) (PacketCount w)
    (net_stats w).

Definition add_stat (k : string) (d : Z) (s : gmap string Z) : gmap string Z := <[k := default 0 (s !! k) + d]> s.

(** [MemoryNetwork::deliverMessage].  A serial number without transport would make
    an empty one. *)
Definition deliver_transport (now : Z) (msg : MessageState) (w : MemoryNetwork) : outcome MemoryNetwork :=
  match transports w !! serial msg with
  | None => Assert "no transport"
  | Some t =>
      let pdest := nm_dest t * VChannels w + nm_vc t in
      let data := 8 <? nm_size t in
      let flit_hops := hopCount msg * transmitLatency msg in
      let s := add_stat "theTotalMessages" 1 (net_stats w) in
      let s := add_stat (if data then "theTotalMessages_Data" else "theTotalMessages_NoData") 1 s in
      let s := add_stat "theTotalFlits" (transmitLatency msg) s in
      let s := add_stat "theTotalFlitHops" flit_hops s in
      let s := add_stat (if data then "theDataFlitHops" else "theOverheadFlitHops") flit_hops s in
      let s := add_stat "theTotalHops" (hopCount msg) s in
      Done (mkMemoryNetwork (VChannels w) (nc w) (delete (serial msg) (transports w)) (msSerial w)
              (delivered w ++ [(pdest, t)]) (latency w + (now - startTS msg)) (PacketCount w + 1) s)
  end.

(** [NetContainer::deliverMessage]: the message leaves the list of active ones. *)
Definition deliverMessage (now : Z) (msg : MessageState) (w : MemoryNetwork) : outcome MemoryNetwork :=
  if bool_decide (serial msg ∈ activeList (nc w)) then
    w ← deliver_transport now msg w;
    let l := remove_one (serial msg) (activeList (nc w)) in
    let k := activeMessages (nc w) - 1 in
    if (k =? 0) && negb (bool_decide (l = [])) then Assert "mslHead == nullptr && mslTail == nullptr"
    else Done (set_nc (set_active l k (nc w)) w)
  else Assert "msg->myList != nullptr".

(** [isNodeAvailable]: [avail] says whether a port accepts a message, given what has
    been delivered. *)
Definition isNodeAvailable (avail : list (Z * NetworkMessage) -> Z -> bool) (node vc : Z) (w : MemoryNetwork) : bool :=
  avail (delivered w) (node * VChannels w + (MAX_PROT_VC - vc - 1)).

(** [NetNode::drive] *)
Fixpoint node_drive_vcs (now : Z) (avail : list (Z * NetworkMessage) -> Z -> bool) (i : Z) (vcs : list Z)
    (w : MemoryNetwork) : outcome MemoryNetwork :=
  match vcs with
  | [] => Done w
  | vc :: vcs =>
      let x := nodes (nc w) i in
      has ← hasMessage vc (in_port (toNodePort x));
      if has && isNodeAvailable avail i (NETVC_TO_PROTVC vc) w then
        '(msg, p) ← in_removeMessage now vc (toNodePort x);
        if negb (destNode msg =? i) then Assert "delivered to wrong node"
        else
          let w := set_nc (set_node i (mkNode (fromNodePort x) p (nd_waiting x)) (nc w)) w in
          w ← deliverMessage now msg w;
          let x := nodes (nc w) i in
          let w := set_nc (set_node i (mkNode (fromNodePort x) (toNodePort x) (nd_waiting x - 1)) (nc w)) w in
          node_drive_vcs now avail i vcs w
      else node_drive_vcs now avail i vcs w
  end.

Definition node_drive (now : Z) (avail : list (Z * NetworkMessage) -> Z -> bool) (i : Z) (w : MemoryNetwork)
    : outcome MemoryNetwork :=
  if nd_waiting (nodes (nc w) i) =? 0 then Done w
  else node_drive_vcs now avail i (below MAX_VC) w.

Fixpoint drive_nodes (now : Z) (avail : list (Z * NetworkMessage) -> Z -> bool) (l : list Z) (w : MemoryNetwork)
    : outcome MemoryNetwork :=
  match l with
  | [] => Done w
  | i :: l => w ← node_drive now avail i w; drive_nodes now avail l w
  end.

(** [NetContainer::drive] *)
Definition net_drive (now : Z) (avail : list (Z * NetworkMessage) -> Z -> bool) (w : MemoryNetwork)
    : outcome MemoryNetwork :=
  let p := np (nc w) in
  n ← drive_switches now (below (np_numSwitches p)) (nc w);
  n ← drive_switch_inputs now (below (np_numSwitches p)) n;
  n ← drive_node_inputs now (below (np_numNodes p)) n;
  n ← drive_channels now (below (maxChannelIndex n)) n;
  drive_nodes now avail (below (np_numNodes p)) (set_nc n w).

(** [NetContainer::insertMessage] *)
Definition insertMessage (now : Z) (msg : MessageState) (n : NetContainer) : outcome NetContainer :=
  let p := np n in
  if (srcNode msg <? 0) || (np_numNodes p <=? srcNode msg) then Assert "Message has invalid source node"
  else if (destNode msg <? 0) || (np_numNodes p <=? destNode msg) then Assert "Message has invalid destination node"
  else if (priority msg <? 0) || (NUM_PRIORITIES <=? priority msg) then Assert "Message has an invalid priority"
  else
    let lat :=
      if flexusInFastMode msg then 1
      else if 0 <? np_channelBandwidth p
      then Z.quot (transmitLatency msg + np_channelBandwidth p - 1) (np_channelBandwidth p)
      else if 8 <? transmitLatency msg then np_channelLatencyData p else np_channelLatencyControl p in
    let msg := set_entry (BUILD_VC (priority msg) 0) lat msg in
    let n := set_active (activeList n ++ [serial msg]) (activeMessages n + 1) n in
    let x := nodes n (srcNode msg) in
    '(port, c) ← out_insertMessage now msg (fromNodePort x);
    Done (tell [c] (set_node (srcNode msg) (mkNode port (toNodePort x) (nd_waiting x)) n)).

(** [available(FromNode)] asks the port of the node about the protocol's channel
    number, not about the virtual channel that the message will take. *)
Definition available_FromNode (anIndex : Z) (w : MemoryNetwork) : outcome bool :=
  let node := anIndex / VChannels w in
  let vc := MAX_PROT_VC - anIndex mod VChannels w - 1 in
  hasBufferSpace vc (fromNodePort (nodes (nc w) node)).

(** [push(FromNode)] with [newPacket]. *)
Definition push_FromNode (now : Z) (isFastMode : bool) (anIndex : Z) (t : NetworkMessage) (w : MemoryNetwork)
    : outcome MemoryNetwork :=
  if negb ((nm_src t =? anIndex / VChannels w) && (nm_vc t =? anIndex mod VChannels w)) then Assert "tp->src"
  else if existsb (fun x => x =? -1) [nm_src t; nm_dest t; nm_vc t; nm_size t; nm_src_port t; nm_dst_port t]
  then Assert "uninitialized field"
  else
    let msg := mkMsg (nm_src t) (nm_dest t) (MAX_PROT_VC - nm_vc t - 1) 0 (-1) (-1) (nm_size t) isFastMode
                 (msSerial w) (-1) 0 0 0 now in
    n ← insertMessage now msg (nc w);
    Done (mkMemoryNetwork (VChannels w) n (<[msSerial w := t]> (transports w)) (msSerial w + 1) (delivered w)
            (latency w) (PacketCount w) (net_stats w)).

Definition network_initialize (vchannels : Z) (p : NetParams) (ts : list top_token) : outcome MemoryNetwork :=
  n ← buildNetwork p ts;
  Done (mkMemoryNetwork vchannels n ∅ 0 [] 0 0 ∅).

Definition isQuiesced (w : MemoryNetwork) : bool := bool_decide (transports w = ∅).
Definition networkEmpty (n : NetContainer) : bool := match activeList n with [] => true | _ => false end.
