(* ===== verification/NetInvariant.v ===== *)
(** * What ports, channels and switches keep

    The invariant of a port: the buffers in use are the messages that wait and the
    messages that are delayed, never more than there are, and a message waits in the
    queue of its virtual channel, which belongs to its priority.  Every operation
    keeps it, reaches no assertion, and loses or duplicates no message: for any
    weight of messages by serial number, the weight that an operation finds is the
    weight that it leaves.  From these the same is shown of a switch that is driven
    and of a channel. *)

From stdpp Require Import base gmap list strings fin_maps.
From Stdlib Require Import ZArith Lia.
From S2P Require Import Prelude NetPort NetSwitch NetShim.

Local Open Scope Z_scope.

(** The run ends without a failing assertion, in a result that satisfies [Q]. *)
Definition ends {A} (Q : A -> Prop) (o : outcome A) : Prop :=
  match o with Done a => Q a | Assert _ => False end.

Lemma ends_bind {A B} (o : outcome A) (f : A -> outcome B) (P : A -> Prop) (Q : B -> Prop) :
  ends P o -> (forall a, P a -> ends Q (f a)) -> ends Q (o ≫= f).
Proof. destruct o as [a|]; cbn; [auto|done]. Qed.

Lemma ends_mono {A} (P Q : A -> Prop) (o : outcome A) : (forall a, P a -> Q a) -> ends P o -> ends Q o.
Proof. destruct o; cbn; auto. Qed.

(** ** Sums over indices *)

Fixpoint sum (l : list Z) (f : Z -> Z) : Z := match l with [] => 0 | i :: l => f i + sum l f end.

Lemma sum_ext l f g : (forall i, i ∈ l -> f i = g i) -> sum l f = sum l g.
Proof.
  induction l as [|i l IH]; intros E; [done|]. cbn. rewrite E by apply list_elem_of_here.
  rewrite IH; [done|]. intros j Hj. apply E. by apply list_elem_of_further.
Qed.

Lemma sum_zero l f : (forall i, i ∈ l -> f i = 0) -> sum l f = 0.
Proof. intros E. rewrite (sum_ext l f (fun _ => 0) E). clear. induction l as [|i l IH]; cbn; lia. Qed.

Lemma sum_nonneg l f : (forall i, i ∈ l -> 0 <= f i) -> 0 <= sum l f.
Proof.
  induction l as [|i l IH]; intros E; cbn; [done|].
  pose proof (E i (list_elem_of_here i l)). assert (0 <= sum l f); [|lia].
  apply IH. intros j Hj. apply E. by apply list_elem_of_further.
Qed.

Lemma sum_pos l f : 0 < sum l f -> exists i, i ∈ l /\ 0 < f i.
Proof.
  induction l as [|i l IH]; cbn; [lia|]. intros H. destruct (decide (0 < f i)).
  - exists i. split; [apply list_elem_of_here|done].
  - destruct IH as (j & Hj & Hf); [lia|]. exists j. split; [by apply list_elem_of_further|done].
Qed.

Lemma sum_le l f i : (forall j, j ∈ l -> 0 <= f j) -> i ∈ l -> f i <= sum l f.
Proof.
  induction l as [|j l IH]; intros E Hi; [by apply not_elem_of_nil in Hi|]. cbn.
  assert (0 <= sum l f) by (apply sum_nonneg; intros; apply E; by apply list_elem_of_further).
  apply elem_of_cons in Hi as [->|Hi]; [lia|].
  pose proof (E j (list_elem_of_here j l)). assert (f i <= sum l f); [|lia].
  apply IH; [|done]. intros; apply E; by apply list_elem_of_further.
Qed.

Lemma sum_fset_out {A} l i (x : A) F (h : A -> Z) :
  i ∉ l -> sum l (fun j => h (fset i x F j)) = sum l (fun j => h (F j)).
Proof. intros Hi. apply sum_ext. intros j Hj. rewrite fset_other; [done|]. by intros ->. Qed.

Lemma sum_fset {A} l i (x : A) F (h : A -> Z) :
  NoDup l -> i ∈ l -> sum l (fun j => h (fset i x F j)) = sum l (fun j => h (F j)) + h x - h (F i).
Proof.
  induction l as [|j l IH]; intros ND Hi; [by apply not_elem_of_nil in Hi|].
  apply NoDup_cons in ND as [Nj ND]. cbn. apply elem_of_cons in Hi as [->|Hi].
  - rewrite fset_same, sum_fset_out by done. lia.
  - rewrite fset_other by (by intros ->). rewrite IH by done. lia.
Qed.

(** Of an indexed family in which only [i] is changed. *)
Lemma sum_below_fset {A} n i (x : A) F (h : A -> Z) :
  0 <= i < n -> sum (below n) (fun j => h (fset i x F j)) = sum (below n) (fun j => h (F j)) + h x - h (F i).
Proof. intros Hi. apply sum_fset; [apply below_NoDup|by apply below_spec]. Qed.

(** A property of every element of a family, after a change of one element. *)
Lemma fset_all {A} (P : Z -> A -> Prop) (D : Z -> Prop) i (x : A) F :
  (forall j, D j -> P j (F j)) -> P i x -> forall j, D j -> P j (fset i x F j).
Proof.
  intros H Hx j Hj. unfold fset. destruct (Z.eqb_spec j i) as [->|]; auto.
Qed.

(** ** Weights of messages *)

Fixpoint weigh (g : Z -> Z) (l : list MessageState) : Z :=
  match l with [] => 0 | m :: l => g (serial m) + weigh g l end.
Definition one (_ : Z) : Z := 1.
Definition qlen (l : list MessageState) : Z := weigh one l.

Lemma weigh_app g l l' : weigh g (l ++ l') = weigh g l + weigh g l'.
Proof. induction l; cbn; lia. Qed.

Lemma weigh_delete g l i m : l !! i = Some m -> weigh g l = g (serial m) + weigh g (delete i l).
Proof.
  revert i. induction l as [|x l IH]; intros [|i] E; [done|done| |].
  - by injection E as ->.
  - change (delete (S i) (x :: l)) with (x :: delete i l). cbn [weigh]. rewrite (IH i E). lia.
Qed.

Lemma weigh_nonneg g l : (forall s, 0 <= g s) -> 0 <= weigh g l.
Proof. intros H. induction l as [|m l IH]; cbn; [done|]. pose proof (H (serial m)). lia. Qed.

Lemma qlen_nonneg l : 0 <= qlen l.
Proof. by apply weigh_nonneg. Qed.
Lemma qlen_length l : qlen l = Z.of_nat (length l).
Proof. unfold qlen. induction l as [|m l IH]; cbn [weigh length]; [done|]. rewrite IH. unfold one. lia. Qed.

(** How often an index occurs in a list. *)
Fixpoint times (i : Z) (l : list Z) : Z :=
  match l with [] => 0 | j :: l => (if j =? i then 1 else 0) + times i l end.

Lemma times_app i l l' : times i (l ++ l') = times i l + times i l'.
Proof. induction l; cbn; lia. Qed.
Lemma times_notin i l : i ∉ l -> times i l = 0.
Proof.
  induction l as [|j l IH]; cbn; [done|]. intros N. apply not_elem_of_cons in N as [Nj N].
  rewrite IH by done. by rewrite (proj2 (Z.eqb_neq j i)) by (by intros ->).
Qed.
Lemma times_nonneg i l : 0 <= times i l.
Proof. induction l as [|j l IH]; cbn; [done|]. destruct (j =? i); lia. Qed.

(** ** Ports

    [R] says which messages may be here: serial number, destination, priority. *)

Definition rule : Type := Z -> Z -> Z -> Prop.

Definition fits (R : rule) (vc : Z) (m : MessageState) : Prop :=
  networkVC m = vc /\ NETVC_TO_PROTVC vc = priority m /\ R (serial m) (destNode m) (priority m).

(** The delayed messages [d] have their buffers already. *)
Record port_ok (R : rule) (d : list MessageState) (p : ChannelPort) : Prop := {
  port_used : forall vc, valid_vc vc = true -> buffersUsed p vc = qlen (msl p vc) + times vc (networkVC <$> d);
  port_space : forall vc, valid_vc vc = true -> buffersUsed p vc <= bufferCount p vc;
  port_msgs : forall vc, valid_vc vc = true -> Forall (fits R vc) (msl p vc);
}.

Definition delayed (p : ChannelInputPort) : list MessageState := fst <$> delayQueue p.

Definition input_ok (R : rule) (p : ChannelInputPort) : Prop :=
  port_ok R (delayed p) (in_port p) /\
  Forall (fun m => valid_vc (networkVC m) = true /\ fits R (networkVC m) m) (delayed p).

Definition load (g : Z -> Z) (p : ChannelPort) : Z := sum (below MAX_VC) (fun vc => weigh g (msl p vc)).
Definition in_load (g : Z -> Z) (p : ChannelInputPort) : Z := load g (in_port p) + weigh g (delayed p).

(** What stays of a port. *)
Definition same_port (p p' : ChannelPort) : Prop := channel p' = channel p /\ bufferCount p' = bufferCount p.

Lemma valid_vc_spec vc : valid_vc vc = true <-> 0 <= vc < MAX_VC.
Proof. unfold valid_vc. rewrite andb_true_iff, Z.leb_le, Z.ltb_lt. done. Qed.
Lemma below_valid vc : vc ∈ below MAX_VC <-> valid_vc vc = true.
Proof. by rewrite below_spec, valid_vc_spec. Qed.

Lemma load_set_queue g vc l u p :
  valid_vc vc = true -> load g (set_queue vc l u p) = load g p + weigh g l - weigh g (msl p vc).
Proof. intros V%valid_vc_spec. unfold load. cbn [set_queue msl]. by rewrite sum_below_fset. Qed.

Lemma load_nonneg g p : (forall s, 0 <= g s) -> 0 <= load g p.
Proof. intros H. apply sum_nonneg. intros vc _. by apply weigh_nonneg. Qed.

Lemma msl_le_load p vc : valid_vc vc = true -> qlen (msl p vc) <= load one p.
Proof.
  intros V. unfold load, qlen. apply (sum_le _ (fun vc => weigh one (msl p vc))); [|by apply below_valid].
  intros j _. apply qlen_nonneg.
Qed.

Lemma port_ok_queue R d d' p vc l u :
  port_ok R d p -> valid_vc vc = true -> Forall (fits R vc) l ->
  u = qlen l + times vc (networkVC <$> d') -> u <= bufferCount p vc ->
  (forall v, v <> vc -> times v (networkVC <$> d') = times v (networkVC <$> d)) ->
  port_ok R d' (set_queue vc l u p).
Proof.
  intros [U S Fm] V Hl Hu Hb E.
  split; intros v Hv; cbn [set_queue buffersUsed bufferCount msl]; unfold fset;
    destruct (Z.eqb_spec v vc) as [->|N]; auto. rewrite E by done. auto.
Qed.

(** Changing the first message's times changes nothing of this. *)
Lemma restamp_weigh g a b c l :
  weigh g (match l with [] => [] | n :: rest => add_times a b c n :: rest end) = weigh g l.
Proof. by destruct l. Qed.
Lemma restamp_fits R vc a b c l :
  Forall (fits R vc) l -> Forall (fits R vc) (match l with [] => [] | n :: rest => add_times a b c n :: rest end).
Proof. destruct l; [done|]. by intros [? ?]%Forall_cons; constructor. Qed.

Lemma insert_helper_ok now m p :
  valid_vc (networkVC m) = true ->
  exists l, insertMessageHelper now m p = Done (set_queue (networkVC m) l (buffersUsed p (networkVC m)) p) /\
    (forall g, weigh g l = weigh g (msl p (networkVC m)) + g (serial m)) /\
    (forall R, Forall (fits R (networkVC m)) (msl p (networkVC m)) -> fits R (networkVC m) m ->
       Forall (fits R (networkVC m)) l).
Proof.
  intros V. unfold insertMessageHelper. rewrite V. eexists; split; [done|]. split.
  - intros g. destruct (msl p (networkVC m)) as [|x l]; cbn [weigh]; [cbn; lia|].
    rewrite weigh_app. cbn. lia.
  - intros R Hl Hm. destruct (msl p (networkVC m)) as [|x l]; [by apply Forall_singleton|].
    apply Forall_app; split; [done|by apply Forall_singleton].
Qed.

Lemma buffer_remove_ok now vc m l p :
  valid_vc vc = true -> msl p vc = m :: l ->
  exists l', removeMessage now vc p = Done (add_times now now 0 m, set_queue vc l' (buffersUsed p vc - 1) p) /\
    (forall g, weigh g l' = weigh g l) /\
    (forall R, Forall (fits R vc) l -> Forall (fits R vc) l').
Proof.
  intros V E. unfold removeMessage. rewrite V, E. eexists; split; [done|]. split.
  - intros g. apply restamp_weigh.
  - intros R. apply restamp_fits.
Qed.

Lemma hasBufferSpace_valid vc p : valid_vc vc = true -> hasBufferSpace vc p = Done (buffersUsed p vc <? bufferCount p vc).
Proof. unfold hasBufferSpace. by intros ->. Qed.

(** *** Output ports *)

Lemma out_insert_ok R now m p c :
  port_ok R [] p -> valid_vc (networkVC m) = true -> fits R (networkVC m) m ->
  buffersUsed p (networkVC m) < bufferCount p (networkVC m) -> channel p = Some c ->
  ends (fun r => snd r = c /\ port_ok R [] (fst r) /\ same_port p (fst r) /\
                 forall g, load g (fst r) = load g p + g (serial m)) (out_insertMessage now m p).
Proof.
  intros Ok V Fm S C. unfold out_insertMessage. rewrite hasBufferSpace_valid by done.
  rewrite (proj2 (Z.ltb_lt _ _) S). cbn [mbind outcome_bind].
  set (m' := add_times _ _ _ m). set (p1 := set_queue _ _ _ p).
  assert (C1 : channel p1 = Some c) by done. rewrite C1.
  destruct (insert_helper_ok now m' p1) as (l & -> & W & F); [done|].
  change (networkVC m') with (networkVC m) in *.
  assert (Em : msl p1 (networkVC m) = msl p (networkVC m)) by apply fset_same. rewrite Em in W, F.
  assert (Eu : buffersUsed p1 (networkVC m) = buffersUsed p (networkVC m) + 1) by apply fset_same. rewrite Eu.
  pose proof (port_used _ _ _ Ok _ V) as U. cbn in U. cbn [mbind outcome_bind ends fst snd].
  assert (Ok1 : port_ok R [] (set_queue (networkVC m) l (buffersUsed p (networkVC m) + 1) p1)).
  { assert (Fl := F R (port_msgs _ _ _ Ok _ V) Fm).
    assert (Ul : buffersUsed p (networkVC m) + 1 = qlen l).
    { unfold qlen. rewrite W. fold (qlen (msl p (networkVC m))). unfold one. lia. }
    split; intros v Hv; cbn [set_queue buffersUsed bufferCount msl p1]; unfold fset;
      destruct (Z.eqb_spec v (networkVC m)) as [->|N]; try apply Ok; try done.
    - cbn. lia.
    - lia. }
  split; [done|]. split; [done|]. split; [done|].
  intros g. rewrite load_set_queue, W, Em by done. unfold p1. rewrite load_set_queue by done.
  change (serial m') with (serial m). lia.
Qed.

(** What an operation keeps of a message. *)
Definition alike (m m' : MessageState) : Prop :=
  serial m' = serial m /\ destNode m' = destNode m /\ priority m' = priority m /\ networkVC m' = networkVC m.

Lemma alike_fits R vc m m' : alike m m' -> fits R vc m -> fits R vc m'.
Proof. unfold fits. by intros (-> & -> & -> & ->). Qed.

Lemma out_remove_ok R now vc m l p :
  port_ok R [] p -> valid_vc vc = true -> msl p vc = m :: l ->
  ends (fun r => alike m (fst r) /\ port_ok R [] (snd r) /\ same_port p (snd r) /\
                 forall g, load g (snd r) = load g p - g (serial m)) (out_removeMessage now vc p).
Proof.
  intros Ok V E. unfold out_removeMessage.
  destruct (buffer_remove_ok now vc m l p V E) as (l1 & -> & W & F). cbn [mbind outcome_bind ends fst snd].
  set (p1 := set_queue vc l1 _ p). assert (E1 : msl p1 vc = l1) by apply fset_same. rewrite E1.
  set (l2 := match l1 with [] => [] | n :: rest => _ end).
  assert (Eu : buffersUsed p1 vc = buffersUsed p vc - 1) by apply fset_same. rewrite Eu.
  pose proof (port_used _ _ _ Ok _ V) as U. pose proof (port_space _ _ _ Ok _ V) as S.
  pose proof (port_msgs _ _ _ Ok _ V) as Fm. rewrite E in U, Fm. apply Forall_cons in Fm as [_ Fm].
  assert (W2 : forall g, weigh g l2 = weigh g l) by (intros g; unfold l2; by rewrite restamp_weigh).
  split; [done|]. split; [|split; [done|]].
  - assert (F2 : Forall (fits R vc) l2) by (apply restamp_fits, F, Fm).
    assert (Ul : buffersUsed p vc - 1 = qlen l2).
    { unfold qlen. rewrite W2. cbn in U. unfold one in U at 1. lia. }
    split; intros v Hv; cbn [set_queue buffersUsed bufferCount msl p1]; unfold fset;
      destruct (Z.eqb_spec v vc) as [->|N]; try apply Ok; try done.
    + cbn. lia.
    + lia.
  - intros g. rewrite load_set_queue, W2, E1 by done. unfold p1.
    rewrite load_set_queue, W, E by done. cbn. lia.
Qed.

(** *** Input ports *)

Lemma in_insert_ok R now m p :
  input_ok R p -> valid_vc (networkVC m) = true -> fits R (networkVC m) m ->
  buffersUsed (in_port p) (networkVC m) < bufferCount (in_port p) (networkVC m) ->
  ends (fun p' => input_ok R p' /\ same_port (in_port p) (in_port p') /\
                  (forall vc, msl (in_port p') vc = msl (in_port p) vc) /\
                  forall g, in_load g p' = in_load g p + g (serial m)) (in_insertMessage now m p).
Proof.
  intros [Ok D] V Fm S. unfold in_insertMessage. rewrite (proj2 (Z.ltb_lt _ _) S). cbn [ends].
  set (delay := if flexusInFastMode m then _ else _). set (m' := add_times _ _ _ m).
  pose proof (port_used _ _ _ Ok _ V) as U.
  assert (Ed : delayed (mkInput (set_queue (networkVC m) (msl (in_port p) (networkVC m))
                  (buffersUsed (in_port p) (networkVC m) + 1) (in_port p)) (channelLatency p)
                  (delayQueue p ++ [(m', delay)])) = delayed p ++ [m'])
    by (unfold delayed; cbn [delayQueue]; by rewrite fmap_app).
  assert (Et : forall v, times v (networkVC <$> (delayed p ++ [m']))
               = times v (networkVC <$> delayed p) + (if networkVC m =? v then 1 else 0)).
  { intros v. rewrite fmap_app, times_app. cbn. lia. }
  split; [split|split; [done|split]].
  - rewrite Ed. cbn [in_port]. apply (port_ok_queue _ (delayed p)); try done.
    + by apply Ok.
    + rewrite Et, Z.eqb_refl. lia.
    + lia.
    + intros v N. rewrite Et, (proj2 (Z.eqb_neq _ _)) by done. lia.
  - rewrite Ed. apply Forall_app. split; [done|]. by apply Forall_singleton.
  - intros vc. cbn [in_port set_queue msl]. unfold fset. by destruct (Z.eqb_spec vc (networkVC m)) as [->|].
  - intros g. unfold in_load. rewrite Ed. cbn [in_port]. rewrite load_set_queue, weigh_app by done. cbn. lia.
Qed.

Lemma in_drive_loop_ok R now q p told :
  port_ok R (fst <$> q) p ->
  Forall (fun m => valid_vc (networkVC m) = true /\ fits R (networkVC m) m) (fst <$> q) ->
  ends (fun '(q', p', told') =>
    port_ok R (fst <$> q') p' /\
    Forall (fun m => valid_vc (networkVC m) = true /\ fits R (networkVC m) m) (fst <$> q') /\ same_port p p' /\
    (forall g, load g p' + weigh g (fst <$> q') = load g p + weigh g (fst <$> q)) /\
    (forall vc, valid_vc vc = true -> qlen (msl p' vc) = qlen (msl p vc) + times vc told' - times vc told) /\
    load one p' = load one p + Z.of_nat (length told') - Z.of_nat (length told)) (in_drive_loop now q p told).
Proof.
  revert p told. induction q as [|[m delay] q IH]; intros p told Ok D; cbn [in_drive_loop].
  { cbn. split_and!; try done; intros; lia. }
  destruct (delay <=? now); [|cbn; split_and!; try done; intros; lia].
  cbn [fmap list_fmap fst] in Ok, D. apply Forall_cons in D as [[V Fm] D].
  destruct (insert_helper_ok now m p V) as (l & -> & W & F). cbn [mbind outcome_bind].
  pose proof (port_used _ _ _ Ok _ V) as U. cbn [fmap list_fmap times] in U. rewrite Z.eqb_refl in U.
  assert (Wl : qlen l = qlen (msl p (networkVC m)) + 1) by apply (W one).
  eapply ends_mono; [|apply (IH (set_queue (networkVC m) l (buffersUsed p (networkVC m)) p) (told ++ [networkVC m]))].
  - intros [[q' p'] told'] (Ok' & D' & S & L & Q & T). split_and!; try done.
    + intros g. rewrite L, load_set_queue, W by done. cbn. lia.
    + intros vc Hv. rewrite Q by done. cbn [set_queue msl]. rewrite times_app. cbn [times]. unfold fset.
      rewrite (Z.eqb_sym (networkVC m)). destruct (Z.eqb_spec vc (networkVC m)) as [->|N]; [lia|lia].
    + rewrite T, load_set_queue, W, length_app by done. cbn [length]. unfold one at 3. lia.
  - apply (port_ok_queue _ (m :: (fst <$> q))); try done.
    + apply F; [by apply Ok|done].
    + unfold fmap in *. lia.
    + by apply Ok.
    + intros v N. cbn [fmap list_fmap times].
      destruct (Z.eqb_spec (networkVC m) v); [congruence|done].
  - done.
Qed.

Lemma in_drive_ok R now p :
  input_ok R p ->
  ends (fun '(p', told) =>
    input_ok R p' /\ same_port (in_port p) (in_port p') /\ (forall g, in_load g p' = in_load g p) /\
    (forall vc, valid_vc vc = true -> qlen (msl (in_port p') vc) = qlen (msl (in_port p) vc) + times vc told) /\
    load one (in_port p') = load one (in_port p) + Z.of_nat (length told)) (in_drive now p).
Proof.
  intros [Ok D]. unfold in_drive. eapply ends_bind; [by apply (in_drive_loop_ok R)|].
  intros [[q port] told] (Ok' & D' & S & L & Q & T). cbn [ends].
  split_and!; try done.
  - intros vc Hv. cbn [in_port]. rewrite Q by done. cbn. lia.
  - cbn [in_port]. rewrite T. cbn. lia.
Qed.

Lemma in_remove_ok R now vc m l p :
  input_ok R p -> valid_vc vc = true -> msl (in_port p) vc = m :: l ->
  ends (fun '(m', p') => alike m m' /\ input_ok R p' /\ same_port (in_port p) (in_port p') /\
    (forall g, in_load g p' = in_load g p - g (serial m)) /\
    (forall v, valid_vc v = true ->
       qlen (msl (in_port p') v) = qlen (msl (in_port p) v) - (if v =? vc then 1 else 0)) /\
    load one (in_port p') = load one (in_port p) - 1) (in_removeMessage now vc p).
Proof.
  intros [Ok D] V E. unfold in_removeMessage.
  destruct (buffer_remove_ok now vc m l (in_port p) V E) as (l1 & -> & W & F). cbn [mbind outcome_bind ends].
  pose proof (port_used _ _ _ Ok _ V) as U. pose proof (port_space _ _ _ Ok _ V) as S.
  pose proof (port_msgs _ _ _ Ok _ V) as Fm. rewrite E in U, Fm. apply Forall_cons in Fm as [_ Fm].
  assert (Q : qlen (m :: l) = 1 + qlen l1) by (unfold qlen; rewrite W; done). rewrite Q in U.
  split; [done|]. split; [split; [|done]|split; [done|split; [|split]]].
  - cbn [in_port]. apply (port_ok_queue _ (delayed p)); try done.
    + by apply F.
    + change (delayed (mkInput _ _ _)) with (delayed p). lia.
    + lia.
  - intros g. unfold in_load. change (delayed (mkInput _ _ _)) with (delayed p). cbn [in_port].
    rewrite load_set_queue, W, E by done. cbn. lia.
  - intros v Hv. cbn [in_port set_queue msl]. unfold fset. destruct (Z.eqb_spec v vc) as [->|N]; [|lia].
    rewrite E, Q. lia.
  - cbn [in_port]. rewrite load_set_queue, W, E by done. cbn. unfold one at 3. lia.
Qed.

(** ** Channels *)

Record channel_ok (c : Channel) : Prop := {
  channel_idle : state c = CS_IDLE -> busy c <= 0;
  channel_wait : state c = CS_WAIT_FOR_ACCEPT -> busy c <= 0 /\ 0 < ch_waiting c;
  channel_divider : localLatencyDivider c <> 0;
}.

Definition same_ends (c c' : Channel) : Prop := fromPort c' = fromPort c /\ toPort c' = toPort c.

Lemma pick_vc_ok vcs from to :
  Forall (fun vc => valid_vc vc = true) vcs ->
  ends (fun r => match r with
    | None => True
    | Some i => valid_vc i = true /\ (exists m l, msl from i = m :: l) /\
                buffersUsed (in_port to) i < bufferCount (in_port to) i
    end) (pick_vc vcs from to).
Proof.
  induction 1 as [|vc vcs V F IH]; [done|]. cbn [pick_vc]. unfold hasMessage. rewrite V.
  cbn [mbind outcome_bind]. destruct (msl from vc) as [|m l] eqn:E; [done|].
  rewrite hasBufferSpace_valid by done. cbn [mbind outcome_bind].
  destruct (Z.ltb_spec (buffersUsed (in_port to) vc) (bufferCount (in_port to) vc)); [|done].
  cbn. eauto.
Qed.

Lemma count_down_ok c : localLatencyDivider c <> 0 -> state c = CS_TRANSFERRING -> channel_ok (count_down c).
Proof.
  intros D E. unfold count_down. split; cbn; try done.
  - destruct (Z.leb_spec (busy c - 1) 0); [done|congruence].
  - destruct (Z.leb_spec (busy c - 1) 0); congruence.
Qed.

(** A message moves from one end to the other, or nothing happens. *)
Definition transfers (Rf Rt : rule) (c : Channel) (e : option (ChannelPort * ChannelInputPort))
    (r : Channel * option (ChannelPort * ChannelInputPort)) : Prop :=
  channel_ok (fst r) /\ same_ends c (fst r) /\
  ((snd r = e /\ ch_waiting (fst r) = ch_waiting c) \/
   exists f t f' t' s,
     e = Some (f, t) /\ snd r = Some (f', t') /\ 0 < ch_waiting c /\ ch_waiting (fst r) = ch_waiting c - 1 /\
     port_ok Rf [] f' /\ same_port f f' /\ (forall g, load g f' = load g f - g s) /\
     input_ok Rt t' /\ same_port (in_port t) (in_port t') /\ (forall vc, msl (in_port t') vc = msl (in_port t) vc) /\
     (forall g, in_load g t' = in_load g t + g s)).

Lemma wait_for_accept_ok Rf Rt now c f t :
  busy c <= 0 -> 0 < ch_waiting c -> localLatencyDivider c <> 0 -> state c = CS_WAIT_FOR_ACCEPT ->
  port_ok Rf [] f -> input_ok Rt t -> (forall vc m, fits Rf vc m -> fits Rt vc m) ->
  ends (transfers Rf Rt c (Some (f, t))) (wait_for_accept now c (Some (f, t))).
Proof.
  intros B W D St Ok It Imp. unfold wait_for_accept.
  rewrite (proj2 (Z.leb_le _ _) B), (proj2 (Z.ltb_lt _ _) W). cbn [negb].
  eapply ends_bind; [apply pick_vc_ok, Forall_forall; intros x; by rewrite below_valid|].
  intros [i|]; [intros (V & (m & l & E) & S)|intros _].
  - eapply ends_bind; [by apply (out_remove_ok Rf now i m l)|].
    intros [m' f'] (A & Ok' & Sf & Lf). cbn [fst snd] in *.
    pose proof (port_msgs _ _ _ Ok _ V) as Fm. rewrite E in Fm. apply Forall_cons in Fm as [Fm _].
    destruct (alike_fits _ _ _ _ A (Imp _ _ Fm)) as (Em & P & Hr). subst i.
    eapply ends_bind; [apply (in_insert_ok Rt now m' t); try done|].
    intros t' (It' & S' & M' & L').
    rewrite (proj2 (Z.eqb_neq _ _) D). cbn [ends]. split; [|split; [done|]].
    + by apply count_down_ok.
    + right. exists f, t, f', t', (serial m). cbn [fst snd]. destruct A as (Es & _).
      split_and!; try done. intros g. rewrite L', Es. done.
  - cbn. split; [|split; [done|by left]]. by split.
Qed.

Lemma channel_drive_ok Rf Rt now c e :
  channel_ok c ->
  (0 < ch_waiting c -> exists f t, e = Some (f, t) /\ port_ok Rf [] f /\ input_ok Rt t) ->
  (forall vc m, fits Rf vc m -> fits Rt vc m) ->
  ends (transfers Rf Rt c e) (channel_drive now c e).
Proof.
  intros Ok He Imp. unfold channel_drive. destruct (state c) eqn:St.
  - pose proof (channel_idle _ Ok St) as B. rewrite (proj2 (Z.leb_le _ _) B). cbn [negb].
    destruct (Z.ltb_spec 0 (ch_waiting c)) as [W|W].
    + destruct (He W) as (f & t & -> & Of & It).
      apply (wait_for_accept_ok Rf Rt now (ch_set (busy c) CS_WAIT_FOR_ACCEPT (ch_waiting c) c)); try done.
      by apply (channel_divider c).
    + cbn. split; [done|]. split; [done|by left].
  - destruct (channel_wait _ Ok St) as [B W]. destruct (He W) as (f & t & -> & Of & It).
    apply wait_for_accept_ok; try done. by apply channel_divider.
  - cbn. split; [by apply count_down_ok, St; apply channel_divider|]. split; [done|by left].
Qed.
