(* ===== verification/NetSwitching.v ===== *)
(** * What a switch keeps

    The invariant of a switch, and that driving it keeps the invariant and every
    message.  A channel may refuse destinations: [H c d] says that channel [c] may
    carry messages for node [d], and the routes of the switch must respect it. *)

From stdpp Require Import base gmap list strings fin_maps.
From Stdlib Require Import ZArith Lia.
From S2P Require Import Prelude NetPort NetSwitch NetShim NetInvariant.

Local Open Scope Z_scope.

(** The rule at an output port, from the channel behind it. *)
Definition carries (R : rule) (H : Z -> Z -> Prop) (oc : option Z) : rule :=
  fun s d p => R s d p /\ forall c, oc = Some c -> H c d.

Definition route_right (H : Z -> Z -> Prop) (w : NetSwitch) (d : Z) (r : Z * Z) : Prop :=
  0 <= r.1 < numPorts w /\ 0 <= r.2 < MAX_NET_VC /\ exists c, channel (outputPorts w r.1) = Some c /\ H c d.

(** [nn] is the number of nodes. *)
Record switch_ok (nn : Z) (R : rule) (H : Z -> Z -> Prop) (w : NetSwitch) : Prop := {
  sw_ports : 0 < numPorts w;
  sw_start : 0 <= nextStartingPort w < numPorts w;
  sw_inputs : forall p, 0 <= p < numPorts w -> input_ok R (inputPorts w p);
  sw_outputs : forall p, 0 <= p < numPorts w ->
    port_ok (carries R H (channel (outputPorts w p))) [] (outputPorts w p);
  sw_used : forall vc, valid_vc vc = true -> ib_used w vc = qlen (ageBuffer w vc) /\ ib_used w vc <= ib_count w;
  sw_ages : forall vc, valid_vc vc = true -> Forall (fits R vc) (ageBuffer w vc);
  sw_routes : forall d, 0 <= d < nn -> Forall (route_right H w d) (routingTable w d);
}.

(** [messagesWaiting] counts the messages at the input ports. *)
Definition waits_ok (w : NetSwitch) : Prop := forall vc, valid_vc vc = true ->
  messagesWaiting w vc = sum (below (numPorts w)) (fun p => qlen (msl (in_port (inputPorts w p)) vc)).

Definition sw_load (g : Z -> Z) (w : NetSwitch) : Z :=
  sum (below (numPorts w)) (fun p => in_load g (inputPorts w p))
  + sum (below (numPorts w)) (fun p => load g (outputPorts w p))
  + sum (below MAX_VC) (fun vc => weigh g (ageBuffer w vc)).

(** The messages that wait for a channel. *)
Definition waits_for (c : Z) (p : ChannelPort) : Z := if decide (channel p = Some c) then load one p else 0.
Definition toldby (c : Z) (w : NetSwitch) : Z := sum (below (numPorts w)) (fun p => waits_for c (outputPorts w p)).

Record same_switch (w w' : NetSwitch) : Prop := {
  same_ports : numPorts w' = numPorts w;
  same_channels : forall p, same_port (outputPorts w p) (outputPorts w' p);
}.

#[export] Instance same_switch_refl : Reflexive same_switch.
Proof. by split. Qed.
#[export] Instance same_switch_trans : Transitive same_switch.
Proof.
  intros w1 w2 w3 [P1 C1] [P2 C2]. split; [by rewrite P2|]. intros p.
  destruct (C1 p), (C2 p). split; congruence.
Qed.

Section switch.
Context (nn : Z) (R : rule) (H : Z -> Z -> Prop).
Hypothesis R_dest : forall s d p, R s d p -> 0 <= d < nn.

Notation switch_ok := (switch_ok nn R H).

(** ** Changing one part *)

Lemma set_output_ok w p x :
  switch_ok w -> 0 <= p < numPorts w ->
  port_ok (carries R H (channel (outputPorts w p))) [] x -> same_port (outputPorts w p) x ->
  switch_ok (set_output p x w) /\ same_switch w (set_output p x w).
Proof using.
  intros [P St I O U A Rt] Hp Ox Sx.
  assert (SC : forall q, same_port (outputPorts w q) (outputPorts (set_output p x w) q)).
  { intros q. cbn. unfold fset. by destruct (Z.eqb_spec q p) as [->|]. }
  split; [|by split]. split; try done.
  - intros q Hq. destruct (SC q) as [-> _]. cbn. unfold fset.
    destruct (Z.eqb_spec q p) as [->|]; auto.
  - intros d Hd. eapply Forall_impl; [by apply Rt|]. intros r (H1 & H2 & c & E & Hc).
    split; [done|]. split; [done|]. exists c. destruct (SC r.1) as [-> _]. done.
Qed.

Lemma set_output_load g w p x :
  0 <= p < numPorts w -> sw_load g (set_output p x w) = sw_load g w + load g x - load g (outputPorts w p).
Proof using. intros Hp. unfold sw_load. cbn [set_output numPorts inputPorts outputPorts ageBuffer].
  rewrite (sum_below_fset _ _ _ _ (load g)) by done. lia. Qed.

Lemma set_output_told c w p x :
  0 <= p < numPorts w -> same_port (outputPorts w p) x ->
  toldby c (set_output p x w)
  = toldby c w + (if decide (channel (outputPorts w p) = Some c) then load one x - load one (outputPorts w p) else 0).
Proof using.
  intros Hp [E _]. unfold toldby. cbn [set_output numPorts outputPorts].
  rewrite (sum_below_fset _ _ _ _ (waits_for c)) by done. unfold waits_for at 2 3. rewrite E.
  destruct (decide _); lia.
Qed.

Lemma set_input_ok w p x :
  switch_ok w -> input_ok R x -> switch_ok (set_input p x w).
Proof using.
  intros [P St I O U A Rt] Ix. split; try done. intros q Hq. cbn. unfold fset.
  destruct (Z.eqb_spec q p); auto.
Qed.

Lemma set_input_load g w p x :
  0 <= p < numPorts w -> sw_load g (set_input p x w) = sw_load g w + in_load g x - in_load g (inputPorts w p).
Proof using. intros Hp. unfold sw_load. cbn [set_input numPorts inputPorts outputPorts ageBuffer].
  rewrite (sum_below_fset _ _ _ _ (in_load g)) by done. lia. Qed.

(** The sum of [waits_ok], after a change of one port. *)
Lemma set_input_waits w p x vc :
  0 <= p < numPorts w ->
  sum (below (numPorts w)) (fun q => qlen (msl (in_port (inputPorts (set_input p x w) q)) vc))
  = sum (below (numPorts w)) (fun q => qlen (msl (in_port (inputPorts w q)) vc))
    + qlen (msl (in_port x) vc) - qlen (msl (in_port (inputPorts w p)) vc).
Proof using. intros Hp. cbn [set_input inputPorts].
  by rewrite (sum_below_fset _ _ _ _ (fun p => qlen (msl (in_port p) vc))). Qed.

Lemma set_internal_ok w vc u l :
  switch_ok w -> valid_vc vc = true -> u = qlen l -> u <= ib_count w -> Forall (fits R vc) l ->
  switch_ok (set_internal vc u l w).
Proof using.
  intros [P St I O U A Rt] V Eu Hu Hl. split; try done; intros v Hv; cbn; unfold fset;
    destruct (Z.eqb_spec v vc) as [->|]; auto.
Qed.

Lemma set_internal_load g w vc u l :
  valid_vc vc = true -> sw_load g (set_internal vc u l w) = sw_load g w + weigh g l - weigh g (ageBuffer w vc).
Proof using. intros V%valid_vc_spec. unfold sw_load. cbn [set_internal numPorts inputPorts outputPorts ageBuffer].
  rewrite (sum_below_fset _ _ _ _ (weigh g)) by done. lia. Qed.

(** ** Routing *)

(** A route that a switch may choose for a message. *)
Definition route_ok (w : NetSwitch) (m : MessageState) (r : Z * Z) : Prop :=
  0 <= r.1 < numPorts w /\ valid_vc r.2 = true /\ NETVC_TO_PROTVC r.2 = priority m /\
  buffersUsed (outputPorts w r.1) r.2 < bufferCount (outputPorts w r.1) r.2 /\
  exists c, channel (outputPorts w r.1) = Some c /\ H c (destNode m).

Lemma BUILD_VC_valid prot net :
  0 <= net < MAX_NET_VC -> (exists vc, valid_vc vc = true /\ NETVC_TO_PROTVC vc = prot) ->
  valid_vc (BUILD_VC prot net) = true /\ NETVC_TO_PROTVC (BUILD_VC prot net) = prot.
Proof using.
  unfold BUILD_VC, NETVC_TO_PROTVC, MAX_NET_VC. intros Hn (vc & V%valid_vc_spec & E).
  assert (D : (prot * 2 + net) / 2 = prot) by (rewrite Z.div_add_l, Z.div_small by lia; lia).
  split; [|done]. apply valid_vc_spec. change MAX_VC with 8 in *.
  pose proof (Z.div_mod vc 2 ltac:(lia)). pose proof (Z.mod_pos_bound vc 2 ltac:(lia)). lia.
Qed.

Lemma first_route_ok w m vc routes :
  valid_vc vc = true -> NETVC_TO_PROTVC vc = priority m ->
  Forall (route_right H w (destNode m)) routes ->
  ends (fun r => match r with Some r => route_ok w m r | None => True end) (first_route routes m w).
Proof using.
  intros V P. induction 1 as [|[port v] routes (Hp & Hv & c & C & Hc) Fr IH]; [done|].
  cbn [first_route fst snd] in *.
  destruct (BUILD_VC_valid (priority m) v) as [VB NB]; [done|by exists vc|].
  rewrite hasBufferSpace_valid by done. cbn [mbind outcome_bind].
  destruct (Z.ltb_spec (buffersUsed (outputPorts w port) (BUILD_VC (priority m) v))
              (bufferCount (outputPorts w port) (BUILD_VC (priority m) v))); [|done].
  cbn [ends]. unfold route_ok. cbn [fst snd].
  repeat (split; [done|]). by exists c.
Qed.

Lemma routingPolicy_ok w m vc :
  switch_ok w -> valid_vc vc = true -> fits R vc m ->
  ends (fun r => match r with Some r => route_ok w m r | None => True end) (routingPolicy m w).
Proof using R_dest.
  intros Ok V (Em & P & Hr). apply (first_route_ok w m vc); [done|done|].
  apply (sw_routes _ _ _ _ Ok). by eapply R_dest.
Qed.

(** The messages are kept, and every message that comes to wait for a channel is told. *)
Definition balanced (w : NetSwitch) (told : list Z) (w' : NetSwitch) (told' : list Z) : Prop :=
  (forall g, sw_load g w' = sw_load g w) /\
  forall c, toldby c w' - times c told' = toldby c w - times c told.

Lemma dispatch_ok now r vc m w d :
  switch_ok w -> fits R vc m -> route_ok w m r ->
  ends (fun d' => switch_ok (dr_switch d') /\ same_switch w (dr_switch d') /\
    inputPorts (dr_switch d') = inputPorts w /\ messagesWaiting (dr_switch d') = messagesWaiting w /\
    (forall g, sw_load g (dr_switch d') = sw_load g w + g (serial m)) /\
    forall c, toldby c (dr_switch d') - times c (dr_told d') = toldby c w - times c (dr_told d))
    (dispatch now r m w d).
Proof using.
  intros Ok (Em & P & Hr) (Hp & V & Pv & S & c & C & Hc). destruct r as [port v]. cbn [fst snd] in *.
  unfold dispatch, sendMessageToOutput. cbn [fst snd set_route nextHop].
  set (m' := take_route _).
  eapply ends_bind; [eapply ends_bind;
    [apply (out_insert_ok (carries R H (channel (outputPorts w port))) now m' (outputPorts w port) c);
      [by apply Ok|done| |done|done]|]|].
  - split; [done|]. split; [done|]. split; [done|]. intros c' Ec. rewrite C in Ec. injection Ec as <-. done.
  - intros [p' c'] (Ec & Ok' & Sp & L). cbn [fst snd] in *. subst c'.
    instantiate (1 := fun q => exists p', q = (set_output port p' w, c) /\
      port_ok (carries R H (channel (outputPorts w port))) [] p' /\ same_port (outputPorts w port) p' /\
      forall g, load g p' = load g (outputPorts w port) + g (serial m)).
    cbn. exists p'. split_and!; try done.
  - intros [w' c'] (p' & Eq & Ok' & Sp & L). injection Eq as -> ->. cbn [ends dr_switch dr_told].
    destruct (set_output_ok w port p' Ok Hp Ok' Sp) as [Ow Sw].
    split_and!; try done.
    + intros g. rewrite set_output_load, L by done. lia.
    + intros c'. rewrite set_output_told, times_app, L, C by done. cbn [times]. unfold one.
      destruct (decide _) as [E|N]; [injection E as ->; rewrite Z.eqb_refl; lia|].
      destruct (Z.eqb_spec c c') as [->|]; [done|lia].
Qed.

(** ** Arbitration *)

Definition driven (d d' : driving) : Prop :=
  switch_ok (dr_switch d') /\ waits_ok (dr_switch d') /\ same_switch (dr_switch d) (dr_switch d') /\
  balanced (dr_switch d) (dr_told d) (dr_switch d') (dr_told d').

Ltac driven_split := unfold driven, balanced; split_and!.

Lemma driven_refl d : switch_ok (dr_switch d) -> waits_ok (dr_switch d) -> driven d d.
Proof using. intros Ok Wt. by split_and!. Qed.

Lemma driven_trans d1 d2 d3 : driven d1 d2 -> driven d2 d3 -> driven d1 d3.
Proof using.
  intros (_ & _ & S1 & L1 & T1) (Ok & Wt & S2 & L2 & T2). driven_split; try done.
  - by etrans.
  - intros g. by rewrite L2.
  - intros c. by rewrite T2.
Qed.

Lemma driven_bind d (f : outcome driving) (k : driving -> outcome driving) :
  ends (driven d) f ->
  (forall d', switch_ok (dr_switch d') -> waits_ok (dr_switch d') -> ends (driven d') (k d')) ->
  ends (driven d) (f ≫= k).
Proof using.
  intros Hf Hk. eapply ends_bind; [done|]. intros d' D'. destruct (D') as (Ok & Wt & _).
  eapply ends_mono; [|by apply Hk]. intros d3 D3. by eapply driven_trans.
Qed.

(** A message of an internal buffer leaves. *)
Lemma internal_leaves now vc i r m d :
  switch_ok (dr_switch d) -> waits_ok (dr_switch d) -> valid_vc vc = true ->
  ageBuffer (dr_switch d) vc !! i = Some m -> route_ok (dr_switch d) m r ->
  ends (driven d) ('(m, w) ← ib_removeMessage now vc i (dr_switch d); dispatch now r m w d).
Proof using R_dest.
  intros Ok Wt V E Hr. unfold ib_removeMessage. rewrite E. cbn [mbind outcome_bind].
  set (l := delete i (ageBuffer (dr_switch d) vc)).
  assert (W : forall g, weigh g (ageBuffer (dr_switch d) vc) = g (serial m) + weigh g l)
    by (intros g; by apply weigh_delete).
  destruct (sw_used _ _ _ _ Ok vc V) as [Eu Hu].
  pose proof (sw_ages _ _ _ _ Ok vc V) as F.
  assert (Q : qlen (ageBuffer (dr_switch d) vc) = 1 + qlen l) by apply W.
  eapply ends_mono; [|apply (dispatch_ok now r vc)].
  - intros d' (Ok' & S' & Ei & Em & L & T). driven_split; try done.
    + intros v Hv. rewrite (same_ports _ _ S'), Em, Ei. by apply Wt.
    + destruct S' as [P' C']. by split.
    + intros g. rewrite L, set_internal_load, W by done. cbn. lia.
  - apply set_internal_ok; try done; [lia|lia|]. by apply Forall_delete.
  - eapply alike_fits; [|by eapply Forall_lookup_1]. done.
  - exact Hr.
Qed.

Lemma internal_loop_ok fuel now vc i d :
  switch_ok (dr_switch d) -> waits_ok (dr_switch d) -> valid_vc vc = true ->
  ends (driven d) (internal_loop fuel now vc i d).
Proof using R_dest.
  revert i d. induction fuel as [|fuel IH]; intros i d Ok Wt V; cbn [internal_loop]; [by apply driven_refl|].
  destruct (ageBuffer (dr_switch d) vc !! i) as [m|] eqn:E; [|by apply driven_refl].
  destruct (negb _); [by apply driven_refl|].
  eapply ends_bind.
  { apply (routingPolicy_ok _ _ vc); try done. eapply Forall_lookup_1; [|done]. by eapply sw_ages. }
  intros [r|] Hr; [|by apply IH].
  pose proof (internal_leaves now vc i r m d Ok Wt V E Hr) as Lv.
  destruct (ib_removeMessage now vc i (dr_switch d)) as [[m' w]|]; [|done].
  cbn [mbind outcome_bind] in *. apply driven_bind; [done|]. intros d' Ok' Wt'. by apply IH.
Qed.

(** A message leaves an input port: [vc] and its counter. *)
Lemma input_leaves now vc port m l w :
  switch_ok w -> waits_ok w -> valid_vc vc = true -> 0 <= port < numPorts w ->
  msl (in_port (inputPorts w port)) vc = m :: l ->
  ends (fun '(m', p) => alike m m' /\ fits R vc m' /\ switch_ok (set_input port p w) /\
    (forall g, sw_load g (set_input port p w) = sw_load g w - g (serial m)) /\
    forall v, valid_vc v = true ->
      sum (below (numPorts w)) (fun q => qlen (msl (in_port (inputPorts (set_input port p w) q)) v))
      = messagesWaiting w v - (if v =? vc then 1 else 0)) (in_removeMessage now vc (inputPorts w port)).
Proof using.
  intros Ok Wt V Hp E. pose proof (sw_inputs _ _ _ _ Ok port Hp) as I.
  eapply ends_mono; [|by apply (in_remove_ok R now vc m l)].
  intros [m' p] (A & I' & S & L & Q & _). split; [done|]. split.
  { eapply alike_fits; [done|]. destruct I as [Op _]. pose proof (port_msgs _ _ _ Op vc V) as F.
    rewrite E in F. by apply Forall_cons in F as [F _]. }
  split; [by apply set_input_ok|]. split.
  - intros g. rewrite set_input_load, L by done. lia.
  - intros v Hv. rewrite set_input_waits, Q, Wt by done. lia.
Qed.

Lemma add_waiting_ok w vc d : switch_ok w -> switch_ok (add_waiting vc d w).
Proof using. by intros [P St I O U A Rt]. Qed.

(** The counter follows: the ports are those of [w0] with one message of [vc] less. *)
Lemma waits_after w0 w port p vc :
  numPorts w = numPorts w0 -> inputPorts w = inputPorts (set_input port p w0) ->
  messagesWaiting w = messagesWaiting w0 ->
  (forall v, valid_vc v = true ->
     sum (below (numPorts w0)) (fun q => qlen (msl (in_port (inputPorts (set_input port p w0) q)) v))
     = messagesWaiting w0 v - (if v =? vc then 1 else 0)) ->
  waits_ok (add_waiting vc (-1) w).
Proof using.
  intros En Ei Em Q v Hv. cbn [add_waiting numPorts inputPorts messagesWaiting]. rewrite En, Ei, Q, Em by done.
  unfold fset. destruct (Z.eqb_spec v vc) as [->|]; lia.
Qed.

Lemma try_port_ok now vc port d :
  switch_ok (dr_switch d) -> waits_ok (dr_switch d) -> valid_vc vc = true -> 0 <= port < numPorts (dr_switch d) ->
  ends (driven d) (try_port now vc port d).
Proof using R_dest.
  intros Ok Wt V Hp. unfold try_port, peekMessage. rewrite V. cbn [mbind outcome_bind].
  set (w := dr_switch d) in *. destruct (sw_inputs _ _ _ _ Ok port Hp) as [Op _].
  pose proof (port_msgs _ _ _ Op vc V) as F.
  destruct (msl (in_port (inputPorts w port)) vc) as [|m l] eqn:E; cbn [hd_error]; [by apply driven_refl|].
  apply Forall_cons in F as [F _].
  eapply ends_bind; [by apply (routingPolicy_ok _ _ vc)|]. intros [r|] Hr.
  - eapply ends_bind; [by apply (input_leaves now vc port m l)|]. intros [m' p] (A & Fm & Oi & L & Q).
    eapply ends_bind; [apply (dispatch_ok now r vc); [done|done|]|].
    { destruct Hr as (H1 & H2 & H3 & H4 & c & C & Hc). destruct A as (_ & Ed & Ep & _).
      split; [done|]. split; [done|]. split; [by rewrite Ep|]. split; [done|]. exists c. by rewrite Ed. }
    intros d' (Ok' & S' & Ei & Em & L' & T'). destruct A as (Es & _). driven_split; cbn [dr_switch dr_told].
    + by apply add_waiting_ok.
    + apply (waits_after w _ port p); [apply (same_ports _ _ S')|done|done|done].
    + destruct S' as [P' C']. by split.
    + intros g. change (sw_load g (add_waiting _ _ (dr_switch d'))) with (sw_load g (dr_switch d')).
      rewrite L', L, Es. unfold w. lia.
    + intros c. apply (T' c).
  - destruct (isFull (networkVC m) w) eqn:Ef; [by apply driven_refl|].
    eapply ends_bind; [by apply (input_leaves now vc port m l)|]. intros [m' p] (A & Fm & Oi & L & Q).
    destruct F as [Em _]. destruct (A) as (Es & _ & _ & Ev). unfold ib_insertMessage. rewrite Ev, Em in *.
    change (isFull vc (set_input port p w)) with (isFull vc w). rewrite Ef. cbn [mbind outcome_bind ends].
    apply Z.leb_gt in Ef. destruct (sw_used _ _ _ _ Ok vc V) as [Eu _].
    set (a := add_times _ _ _ m').
    assert (W : forall g, weigh g (ageBuffer w vc ++ [a]) = weigh g (ageBuffer w vc) + g (serial m))
      by (intros g; rewrite weigh_app, <-Es; cbn; lia).
    driven_split; cbn [dr_switch dr_told].
    + apply add_waiting_ok, set_internal_ok; try done.
      * cbn. unfold qlen. rewrite W. fold (qlen (ageBuffer w vc)). unfold one. lia.
      * cbn. lia.
      * apply Forall_app. split; [by apply (sw_ages _ _ _ _ Ok)|]. by apply Forall_singleton.
    + by apply (waits_after w _ port p).
    + by split.
    + intros g. change (sw_load g (add_waiting _ _ ?x)) with (sw_load g x).
      rewrite set_internal_load by done. change (ageBuffer (set_input port p w)) with (ageBuffer w).
      rewrite W, L. unfold w. lia.
    + intros c. done.
Qed.

Lemma port_loop_ok fuel now vc port d :
  switch_ok (dr_switch d) -> waits_ok (dr_switch d) -> valid_vc vc = true -> 0 <= port < numPorts (dr_switch d) ->
  ends (driven d) (port_loop fuel now vc port d).
Proof using R_dest.
  revert port d. induction fuel as [|fuel IH]; intros port d Ok Wt V Hp; cbn [port_loop]; [by apply driven_refl|].
  apply driven_bind; [by apply try_port_ok|]. intros d' Ok' Wt'.
  destruct (negb _ && negb _); [|by apply driven_refl]. apply IH; try done.
  apply Z.mod_pos_bound, (sw_ports _ _ _ _ Ok').
Qed.

Lemma drive_vcs_ok now vcs d :
  switch_ok (dr_switch d) -> waits_ok (dr_switch d) -> Forall (fun vc => valid_vc vc = true) vcs ->
  ends (driven d) (drive_vcs now vcs d).
Proof using R_dest.
  intros Ok Wt F. revert d Ok Wt. induction F as [|vc vcs V F IH]; intros d Ok Wt; cbn [drive_vcs].
  { by apply driven_refl. }
  apply driven_bind; [|by intros; apply IH]. unfold drive_vc.
  apply driven_bind; [by apply internal_loop_ok|]. intros d' Ok' Wt'.
  destruct (messagesWaiting _ _ =? 0); [by apply driven_refl|].
  apply port_loop_ok; try done. by eapply sw_start.
Qed.

(** A switch that is driven. *)
Lemma switch_drive_ok now w :
  switch_ok w -> waits_ok w ->
  ends (fun '(w', told) => switch_ok w' /\ waits_ok w' /\ same_switch w w' /\ balanced w [] w' told)
    (switch_drive now w).
Proof using R_dest.
  intros Ok Wt. unfold switch_drive. eapply ends_bind.
  { apply (drive_vcs_ok now (below MAX_VC) (mkDriving w (crossbarBandwidth w) [])); [done|done|].
    apply Forall_forall. intros vc. by rewrite below_valid. }
  intros d (Ok' & Wt' & [P' C'] & L & T). cbn [ends dr_switch dr_told] in *. split_and!; try done.
  destruct Ok' as [P St I O U A Rt]. split; try done. cbn. by apply Z.mod_pos_bound.
Qed.

(** *** The input ports *)

Lemma add_waiting_all told w : foldl (fun w vc => add_waiting vc 1 w) w told
  = mkSwitch (numPorts w) (crossbarBandwidth w) (nextStartingPort w) (inputPorts w) (outputPorts w) (ib_count w)
      (ib_used w) (ageBuffer w) (routingTable w)
      (messagesWaiting (foldl (fun w vc => add_waiting vc 1 w) w told)).
Proof using. revert w. induction told as [|vc told IH]; intros w; cbn [foldl]; [by destruct w|]. by rewrite IH. Qed.

Lemma add_waiting_times told w vc :
  messagesWaiting (foldl (fun w vc => add_waiting vc 1 w) w told) vc = messagesWaiting w vc + times vc told.
Proof using.
  revert w. induction told as [|v told IH]; intros w; cbn [foldl times]; [lia|]. rewrite IH. cbn. unfold fset.
  rewrite (Z.eqb_sym vc). destruct (Z.eqb_spec v vc) as [->|]; lia.
Qed.

Lemma drive_inputs_ok now ports w :
  switch_ok w -> waits_ok w -> Forall (fun p => 0 <= p < numPorts w) ports ->
  ends (fun w' => switch_ok w' /\ waits_ok w' /\ same_switch w w' /\ balanced w [] w' [])
    (drive_inputs now ports w).
Proof using.
  revert w. induction ports as [|i ports IH]; intros w Ok Wt F; cbn [drive_inputs]; [by split_and!|].
  apply Forall_cons in F as [Hi F]. pose proof (sw_inputs _ _ _ _ Ok i Hi) as I.
  eapply ends_bind; [by apply (in_drive_ok R)|]. intros [p told] (I' & S & L & Q & _).
  pose proof (set_input_ok w i p Ok I') as Oi.
  set (w1 := foldl _ (set_input i p w) told).
  pose proof (add_waiting_times told (set_input i p w)) as Tm. fold w1 in Tm.
  assert (E1 := add_waiting_all told (set_input i p w)). fold w1 in E1.
  assert (O1 : switch_ok w1) by (rewrite E1; by destruct Oi).
  assert (W1 : waits_ok w1).
  { intros v Hv. rewrite Tm, E1. cbn [numPorts inputPorts messagesWaiting].
    change (numPorts (set_input i p w)) with (numPorts w).
    change (messagesWaiting (set_input i p w)) with (messagesWaiting w).
    rewrite set_input_waits, Q, Wt by done. lia. }
  assert (S1 : same_switch w w1) by (rewrite E1; by split).
  assert (B1 : balanced w [] w1 []).
  { rewrite E1. split; [|done]. intros g. change (sw_load g (mkSwitch _ _ _ _ _ _ _ _ _ _)) with (sw_load g (set_input i p w)).
    rewrite set_input_load, L by done. lia. }
  eapply ends_mono; [|apply IH; [done|done|by rewrite (same_ports _ _ S1)]].
  intros w' (O' & W' & S' & L' & T'). driven_split; try done; [by etrans| |].
  - intros g. rewrite L'. apply B1.
  - intros c. rewrite T'. apply B1.
Qed.

Lemma driveInputPorts_ok now w :
  switch_ok w -> waits_ok w ->
  ends (fun w' => switch_ok w' /\ waits_ok w' /\ same_switch w w' /\ balanced w [] w' [])
    (driveInputPorts now w).
Proof using.
  intros Ok Wt. apply drive_inputs_ok; try done. apply Forall_forall. intros p. by rewrite below_spec.
Qed.
End switch.
