(* ===== verification/NetRuns.v ===== *)
(** * Runs of the network

    The invariant of the whole network, that every part of a cycle keeps it, that
    building a network establishes it, and what follows for any sequence of messages
    and cycles. *)

From stdpp Require Import base gmap list strings fin_maps.
From Stdlib Require Import ZArith Lia.
From S2P Require Import Prelude NetPort NetSwitch NetShim NetInvariant NetSwitching.

Local Open Scope Z_scope.

(** ** The invariant *)

Definition valid_end (p : NetParams) (e : end_ref) : Prop :=
  match e with
  | AtNode i => 0 <= i < np_numNodes p
  | AtSwitch s q => 0 <= s < np_numSwitches p /\ 0 <= q < np_switchPorts p
  end.

Definition at_home (R : rule) (i : Z) : rule := fun s d p => R s d p /\ d = i.
Definition in_rule (R : rule) (e : end_ref) : rule :=
  match e with AtNode i => at_home R i | AtSwitch _ _ => R end.

(** A node: its own channel leads to a switch, which takes any message. *)
Record node_ok (R : rule) (H : Z -> Z -> Prop) (i : Z) (x : NetNode) : Prop := {
  nd_from : port_ok (carries R H (channel (fromNodePort x))) [] (fromNodePort x);
  nd_to : input_ok (at_home R i) (toNodePort x);
  nd_leaves : exists c, channel (fromNodePort x) = Some c /\ forall d, H c d;
  nd_space : forall vc, bufferCount (fromNodePort x) vc = if (vc =? 0) || (vc =? 1) then 1 else INT_MAX;
}.

Record net_ok (R : rule) (H : Z -> Z -> Prop) (n : NetContainer) : Prop := {
  net_switches : forall s, 0 <= s < np_numSwitches (np n) ->
    switch_ok (np_numNodes (np n)) R H (switches n s) /\ numPorts (switches n s) = np_switchPorts (np n);
  net_nodes : forall i, 0 <= i < np_numNodes (np n) -> node_ok R H i (nodes n i);
  net_channels : forall c, 0 <= c < maxChannelIndex n -> channel_ok (channels n c) /\
    exists f t, fromPort (channels n c) = Some f /\ toPort (channels n c) = Some t /\
                valid_end (np n) f /\ valid_end (np n) t;
  net_wires : forall e c, valid_end (np n) e -> channel (output_at e n) = Some c ->
    0 <= c < maxChannelIndex n /\ fromPort (channels n c) = Some e;
  net_home : forall c d i, H c d -> toPort (channels n c) = Some (AtNode i) -> d = i;
  net_dest : forall s d p, R s d p -> 0 <= d < np_numNodes (np n);
}.

(** The counters: of messages that wait for a channel, at a switch and at a node. *)
Definition waiting_at (c : Z) (n : NetContainer) : Z :=
  sum (below (np_numNodes (np n))) (fun i => waits_for c (fromNodePort (nodes n i)))
  + sum (below (np_numSwitches (np n))) (fun s => toldby c (switches n s)).

Record ports_counted (n : NetContainer) : Prop := {
  count_switches : forall s, 0 <= s < np_numSwitches (np n) -> waits_ok (switches n s);
  count_nodes : forall i, 0 <= i < np_numNodes (np n) ->
    nd_waiting (nodes n i) = load one (in_port (toNodePort (nodes n i)));
}.
Record counts_ok (n : NetContainer) : Prop := {
  count_channels : forall c, ch_waiting (channels n c) = waiting_at c n;
  count_ports :> ports_counted n;
}.

Definition node_load (g : Z -> Z) (x : NetNode) : Z := load g (fromNodePort x) + in_load g (toNodePort x).
Definition net_load (g : Z -> Z) (n : NetContainer) : Z :=
  sum (below (np_numNodes (np n))) (fun i => node_load g (nodes n i))
  + sum (below (np_numSwitches (np n))) (fun s => sw_load g (switches n s)).

(** What building fixes, and the list of active messages. *)
Record same_net (n n' : NetContainer) : Prop := {
  same_np : np n' = np n;
  same_max : maxChannelIndex n' = maxChannelIndex n;
  same_active : activeList n' = activeList n /\ activeMessages n' = activeMessages n;
  same_wires : forall c, same_ends (channels n c) (channels n' c);
}.
#[export] Instance same_net_refl : Reflexive same_net.
Proof. by split. Qed.
#[export] Instance same_net_trans : Transitive same_net.
Proof.
  intros n1 n2 n3 [P1 M1 [A1 B1] W1] [P2 M2 [A2 B2] W2]. split; [congruence..|split; congruence|].
  intros c. destruct (W1 c), (W2 c). split; congruence.
Qed.

Section network.
Context (R : rule) (H : Z -> Z -> Prop).

(** ** Changing one part *)

Lemma set_switch_ok n s w :
  net_ok R H n -> 0 <= s < np_numSwitches (np n) ->
  switch_ok (np_numNodes (np n)) R H w -> same_switch (switches n s) w ->
  net_ok R H (set_switch s w n) /\ same_net n (set_switch s w n).
Proof using.
  intros [Sw Nd Ch Wi Ho De] Hs Ow [Sp Sc]. split; [|by split]. split; try done.
  - intros q Hq. cbn. unfold fset. destruct (Z.eqb_spec q s) as [->|]; [|by apply Sw].
    split; [done|]. rewrite Sp. by apply Sw.
  - intros e c Ve. cbn. intros E. apply Wi; [done|]. destruct e as [i|q p]; [done|]. cbn in *.
    unfold fset in E. destruct (Z.eqb_spec q s) as [->|]; [|done]. by destruct (Sc p) as [<- _].
Qed.

Lemma set_switch_load g n s w :
  0 <= s < np_numSwitches (np n) ->
  net_load g (set_switch s w n) = net_load g n + sw_load g w - sw_load g (switches n s).
Proof using. intros Hs. unfold net_load. cbn [set_switch np nodes switches].
  rewrite (sum_below_fset _ _ _ _ (sw_load g)) by done. lia. Qed.

Lemma set_switch_waiting c n s w :
  0 <= s < np_numSwitches (np n) ->
  waiting_at c (set_switch s w n) = waiting_at c n + toldby c w - toldby c (switches n s).
Proof using. intros Hs. unfold waiting_at. cbn [set_switch np nodes switches].
  rewrite (sum_below_fset _ _ _ _ (toldby c)) by done. lia. Qed.

Lemma set_switch_counted n s w : ports_counted n -> waits_ok w -> ports_counted (set_switch s w n).
Proof using.
  intros [Ws Wn] W. split; [|done]. intros q Hq. cbn. unfold fset. destruct (Z.eqb_spec q s); [done|by apply Ws].
Qed.

Lemma set_node_counted n i x :
  ports_counted n -> nd_waiting x = load one (in_port (toNodePort x)) -> ports_counted (set_node i x n).
Proof using.
  intros [Ws Wn] W. split; [done|]. intros j Hj. cbn. unfold fset. destruct (Z.eqb_spec j i); [done|by apply Wn].
Qed.

Lemma set_node_ok n i x :
  net_ok R H n -> node_ok R H i x -> same_port (fromNodePort (nodes n i)) (fromNodePort x) ->
  net_ok R H (set_node i x n) /\ same_net n (set_node i x n).
Proof using.
  intros [Sw Nd Ch Wi Ho De] Ox [Sc _]. split; [|by split]. split; try done.
  - intros q Hq. cbn. unfold fset. destruct (Z.eqb_spec q i) as [->|]; [done|by apply Nd].
  - intros e c Ve. cbn. intros E. apply Wi; [done|]. destruct e as [q|q p]; [|done]. cbn in *.
    unfold fset in E. destruct (Z.eqb_spec q i) as [->|]; [|done]. by rewrite <-Sc.
Qed.

Lemma set_node_load g n i x :
  0 <= i < np_numNodes (np n) ->
  net_load g (set_node i x n) = net_load g n + node_load g x - node_load g (nodes n i).
Proof using. intros Hi. unfold net_load. cbn [set_node np nodes switches].
  rewrite (sum_below_fset _ _ _ _ (node_load g)) by done. lia. Qed.

Lemma set_node_waiting c n i x :
  0 <= i < np_numNodes (np n) ->
  waiting_at c (set_node i x n)
  = waiting_at c n + waits_for c (fromNodePort x) - waits_for c (fromNodePort (nodes n i)).
Proof using. intros Hi. unfold waiting_at. cbn [set_node np nodes switches].
  rewrite (sum_below_fset _ _ _ _ (fun x => waits_for c (fromNodePort x))) by done. lia. Qed.

Lemma set_channel_ok n i c :
  net_ok R H n -> (0 <= i < maxChannelIndex n -> channel_ok c) -> same_ends (channels n i) c ->
  net_ok R H (set_channel i c n) /\ same_net n (set_channel i c n).
Proof using.
  intros [Sw Nd Ch Wi Ho De] Oc [Ef Et].
  assert (SW : forall j, same_ends (channels n j) (channels (set_channel i c n) j)).
  { intros j. cbn. unfold fset. by destruct (Z.eqb_spec j i) as [->|]. }
  split; [|by split]. split; try done.
  - intros j Hj. destruct (SW j) as [-> ->]. split; [|by apply Ch]. cbn. unfold fset.
    destruct (Z.eqb_spec j i) as [->|]; [auto|by apply Ch].
  - intros e j Ve E. destruct (SW j) as [-> _]. by apply Wi.
  - intros j d k Hj. destruct (SW j) as [_ ->]. by apply Ho.
Qed.

(** Telling the channels. *)
Lemma tell_ok told n :
  net_ok R H n ->
  net_ok R H (tell told n) /\ same_net n (tell told n) /\
  switches (tell told n) = switches n /\ nodes (tell told n) = nodes n /\
  forall c, ch_waiting (channels (tell told n) c) = ch_waiting (channels n c) + times c told.
Proof using.
  revert n. induction told as [|i told IH]; intros n Ok; cbn [tell foldl].
  { split_and!; try done. intros c. cbn. lia. }
  assert (E : same_ends (channels n i) (notifyWaitingMessage (channels n i))) by done.
  destruct (set_channel_ok n i (notifyWaitingMessage (channels n i)) Ok) as [Ok' S']; [|done|].
  { intros Hi. destruct (net_channels _ _ _ Ok i Hi) as [[A B C] _]. split; cbn; auto.
    intros W. destruct (B W). lia. }
  destruct (IH _ Ok') as (Ok2 & S2 & W2 & N2 & C2). fold (tell told (set_channel i (notifyWaitingMessage (channels n i)) n)).
  split_and!; try done; [by etrans|]. intros c. rewrite C2. cbn. unfold fset. rewrite (Z.eqb_sym c).
  destruct (Z.eqb_spec i c) as [->|]; cbn; lia.
Qed.

Lemma tell_counts told n :
  net_ok R H n ->
  (forall c, ch_waiting (channels n c) + times c told = waiting_at c n) -> ports_counted n ->
  counts_ok (tell told n) /\ forall g, net_load g (tell told n) = net_load g n.
Proof using.
  intros Ok C [W N]. destruct (tell_ok told n Ok) as (Ok' & S' & Es & En & Ec).
  pose proof (same_np _ _ S') as Ep. split; [split; [|split]|].
  - intros c. rewrite Ec, C. unfold waiting_at. by rewrite Ep, Es, En.
  - by rewrite Ep, Es.
  - by rewrite Ep, En.
  - intros g. unfold net_load. by rewrite Ep, Es, En.
Qed.

(** ** The parts of a cycle *)

Definition moved (n n' : NetContainer) : Prop :=
  net_ok R H n' /\ counts_ok n' /\ same_net n n' /\ forall g, net_load g n' = net_load g n.

Lemma moved_refl n : net_ok R H n -> counts_ok n -> moved n n.
Proof using. intros Ok C. by split_and!. Qed.

Lemma moved_step n n' (o : outcome NetContainer) : moved n n' -> ends (moved n') o -> ends (moved n) o.
Proof using.
  intros (Ok & C & S & L). apply ends_mono. intros n3 (Ok3 & C3 & S3 & L3). split_and!; try done.
  - by etrans.
  - intros g. by rewrite L3.
Qed.

Lemma moved_bind n (f : outcome NetContainer) (k : NetContainer -> outcome NetContainer) :
  ends (moved n) f ->
  (forall n', net_ok R H n' -> counts_ok n' -> same_net n n' -> ends (moved n') (k n')) ->
  ends (moved n) (f ≫= k).
Proof using.
  intros Hf Hk. eapply ends_bind; [done|]. intros n' M. apply (moved_step n n'); [done|].
  destruct M as (Ok & C & S & L). by apply Hk.
Qed.

Lemma drive_switches_ok now l n :
  net_ok R H n -> counts_ok n -> Forall (fun s => 0 <= s < np_numSwitches (np n)) l ->
  ends (moved n) (drive_switches now l n).
Proof using.
  revert n. induction l as [|s l IH]; intros n Ok C F; cbn [drive_switches]; [by apply moved_refl|].
  apply Forall_cons in F as [Hs F]. destruct (net_switches _ _ _ Ok s Hs) as [Os Ps].
  eapply ends_bind; [apply (switch_drive_ok _ R H (net_dest _ _ _ Ok)); [done|by apply C]|].
  intros [w told] (Ow & Ww & Sw & L & T).
  destruct (set_switch_ok n s w Ok Hs Ow Sw) as [Ok1 S1].
  destruct (tell_counts told (set_switch s w n) Ok1) as [C2 L2].
  - intros c. rewrite set_switch_waiting by done. cbn [set_switch channels]. rewrite (count_channels _ C).
    specialize (T c). cbn in T. lia.
  - by apply set_switch_counted; [apply C|].
  - destruct (tell_ok told _ Ok1) as (Ok2 & S2 & _).
    assert (M : moved n (tell told (set_switch s w n))).
    { split_and!; try done; [by etrans|]. intros g. rewrite L2, set_switch_load, L by done. lia. }
    apply (moved_step _ _ _ M). apply IH; [done|apply M|]. by rewrite (same_np _ _ S2).
Qed.

Lemma drive_switch_inputs_ok now l n :
  net_ok R H n -> counts_ok n -> Forall (fun s => 0 <= s < np_numSwitches (np n)) l ->
  ends (moved n) (drive_switch_inputs now l n).
Proof using.
  revert n. induction l as [|s l IH]; intros n Ok C F; cbn [drive_switch_inputs]; [by apply moved_refl|].
  apply Forall_cons in F as [Hs F]. destruct (net_switches _ _ _ Ok s Hs) as [Os Ps].
  eapply ends_bind; [apply (driveInputPorts_ok (np_numNodes (np n)) R H); [done|by apply C]|].
  intros w (Ow & Ww & Sw & L & T).
  destruct (set_switch_ok n s w Ok Hs Ow Sw) as [Ok1 S1].
  assert (M : moved n (set_switch s w n)).
  { split_and!; try done; [split|].
    - intros c. rewrite set_switch_waiting by done. cbn [set_switch channels]. rewrite (count_channels _ C).
      specialize (T c). cbn in T. lia.
    - by apply set_switch_counted; [apply C|].
    - intros g. rewrite set_switch_load, L by done. lia. }
  apply (moved_step _ _ _ M). apply IH; [done|apply M|]. by rewrite (same_np _ _ S1).
Qed.

(** A change of a node that leaves its own channel's messages. *)
Lemma set_node_moved n i x :
  net_ok R H n -> counts_ok n -> 0 <= i < np_numNodes (np n) ->
  node_ok R H i x -> fromNodePort x = fromNodePort (nodes n i) ->
  nd_waiting x = load one (in_port (toNodePort x)) ->
  (forall g, in_load g (toNodePort x) = in_load g (toNodePort (nodes n i))) ->
  moved n (set_node i x n).
Proof using.
  intros Ok C Hi Ox Ef W L.
  destruct (set_node_ok n i x Ok Ox) as [Ok1 S1]; [by rewrite Ef|].
  split_and!; try done; [split|].
  - intros c. rewrite set_node_waiting, Ef by done. cbn [set_node channels]. rewrite (count_channels _ C). lia.
  - by apply set_node_counted; [apply C|].
  - intros g. rewrite set_node_load by done. unfold node_load. rewrite Ef, L. lia.
Qed.

Lemma drive_node_inputs_ok now l n :
  net_ok R H n -> counts_ok n -> Forall (fun i => 0 <= i < np_numNodes (np n)) l ->
  ends (moved n) (drive_node_inputs now l n).
Proof using.
  revert n. induction l as [|i l IH]; intros n Ok C F; cbn [drive_node_inputs]; [by apply moved_refl|].
  apply Forall_cons in F as [Hi F]. destruct (net_nodes _ _ _ Ok i Hi) as [Fr To Lv Sp].
  unfold node_driveInputPorts.
  eapply ends_bind; [eapply ends_bind; [by apply (in_drive_ok (at_home R i))|]|].
  { intros [p told] (I' & S' & L & Q & T).
    instantiate (1 := fun x => moved n (set_node i x n)). cbn [ends].
    apply set_node_moved; try done. cbn. rewrite T, (count_nodes _ C) by done. done. }
  intros x M. apply (moved_step _ _ _ M). apply IH; [apply M|apply M|].
  destruct M as (_ & _ & S1 & _). by rewrite (same_np _ _ S1).
Qed.

(** *** Channels *)

Lemma output_rule n e :
  net_ok R H n -> valid_end (np n) e -> port_ok (carries R H (channel (output_at e n))) [] (output_at e n).
Proof using.
  intros Ok Ve. destruct e as [i|s p]; cbn in *.
  - by apply (net_nodes _ _ _ Ok).
  - destruct Ve as [Hs Hp]. destruct (net_switches _ _ _ Ok s Hs) as [Os Ps].
    apply (sw_outputs _ _ _ _ Os). by rewrite Ps.
Qed.

Lemma input_rule n e : net_ok R H n -> valid_end (np n) e -> input_ok (in_rule R e) (input_at e n).
Proof using.
  intros Ok Ve. destruct e as [i|s p]; cbn in *.
  - by apply (net_nodes _ _ _ Ok).
  - destruct Ve as [Hs Hp]. destruct (net_switches _ _ _ Ok s Hs) as [Os Ps].
    apply (sw_inputs _ _ _ _ Os). by rewrite Ps.
Qed.

Lemma put_output_ok n e x :
  net_ok R H n -> valid_end (np n) e ->
  port_ok (carries R H (channel (output_at e n))) [] x -> same_port (output_at e n) x ->
  net_ok R H (put_output e x n) /\ same_net n (put_output e x n) /\
  (forall g, net_load g (put_output e x n) = net_load g n + load g x - load g (output_at e n)) /\
  (forall c, waiting_at c (put_output e x n)
     = waiting_at c n + (if decide (channel (output_at e n) = Some c) then load one x - load one (output_at e n) else 0)) /\
  (ports_counted n -> ports_counted (put_output e x n)) /\ channels (put_output e x n) = channels n.
Proof using.
  intros Ok Ve Px Sx. destruct e as [i|s p]; cbn [valid_end put_output output_at] in *.
  - destruct (net_nodes _ _ _ Ok i Ve) as [Fr To Lv Sp]. destruct Sx as [Ec Eb].
    destruct (set_node_ok n i (mkNode x (toNodePort (nodes n i)) (nd_waiting (nodes n i))) Ok) as [Ok1 S1]; [|done|].
    { split; cbn; [by rewrite Ec|done|by rewrite Ec|]. intros vc. by rewrite Eb. }
    split_and!; try done.
    + intros g. rewrite set_node_load by done. unfold node_load. cbn. lia.
    + intros c. rewrite set_node_waiting by done. cbn [fromNodePort]. unfold waits_for. rewrite Ec.
      destruct (decide _); lia.
    + intros P. apply set_node_counted; [done|]. cbn. by apply P.
  - destruct Ve as [Hs Hp]. destruct (net_switches _ _ _ Ok s Hs) as [Os Ps]. rewrite <-Ps in Hp.
    destruct (set_output_ok (np_numNodes (np n)) R H (switches n s) p x Os Hp Px Sx) as [Ow Sw].
    destruct (set_switch_ok n s _ Ok Hs Ow Sw) as [Ok1 S1]. split_and!; try done.
    + intros g. rewrite set_switch_load, set_output_load by done. lia.
    + intros c. rewrite set_switch_waiting, set_output_told by done. lia.
    + intros P. apply set_switch_counted; [done|]. by apply (count_switches _ P s).
Qed.

Lemma put_input_ok n e x :
  net_ok R H n -> ports_counted n -> valid_end (np n) e -> input_ok (in_rule R e) x ->
  (forall vc, msl (in_port x) vc = msl (in_port (input_at e n)) vc) ->
  net_ok R H (put_input e x n) /\ ports_counted (put_input e x n) /\ same_net n (put_input e x n) /\
  channels (put_input e x n) = channels n /\
  (forall g, net_load g (put_input e x n) = net_load g n + in_load g x - in_load g (input_at e n)) /\
  forall c, waiting_at c (put_input e x n) = waiting_at c n.
Proof using.
  intros Ok C Ve Ix Em. destruct e as [i|s p]; cbn [valid_end put_input input_at in_rule] in *.
  - destruct (net_nodes _ _ _ Ok i Ve) as [Fr To Lv Sp].
    destruct (set_node_ok n i (mkNode (fromNodePort (nodes n i)) x (nd_waiting (nodes n i))) Ok) as [Ok1 S1]; [by split|done|].
    split_and!; try done.
    + apply set_node_counted; [done|]. cbn. rewrite (count_nodes _ C) by done.
      apply sum_ext. intros vc _. by rewrite Em.
    + intros g. rewrite set_node_load by done. unfold node_load. cbn. lia.
    + intros c. rewrite set_node_waiting by done. cbn. lia.
  - destruct Ve as [Hs Hp]. destruct (net_switches _ _ _ Ok s Hs) as [Os Ps]. rewrite <-Ps in Hp.
    pose proof (set_input_ok (np_numNodes (np n)) R H (switches n s) p x Os Ix) as Ow.
    destruct (set_switch_ok n s _ Ok Hs Ow) as [Ok1 S1]; [by split|]. split_and!; try done.
    + apply set_switch_counted; [done|]. intros vc Hv.
      change (numPorts (set_input p x (switches n s))) with (numPorts (switches n s)).
      rewrite set_input_waits, Em by done.
      change (messagesWaiting (set_input p x (switches n s))) with (messagesWaiting (switches n s)).
      rewrite (count_switches _ C s Hs vc Hv). lia.
    + intros g. rewrite set_switch_load, set_input_load by done. lia.
    + intros c. rewrite set_switch_waiting by done.
      change (toldby c (set_input p x (switches n s))) with (toldby c (switches n s)). lia.
Qed.

Lemma input_at_put_output e e' x n : input_at e (put_output e' x n) = input_at e n.
Proof using.
  destruct e' as [i|s p], e as [j|q r]; cbn; unfold fset; try done.
  - by destruct (Z.eqb_spec j i) as [->|].
  - by destruct (Z.eqb_spec q s) as [->|].
Qed.

(** A message that waits for a channel waits at the channel's end. *)
Lemma waits_for_one c p : 0 < waits_for c p -> channel p = Some c.
Proof using. unfold waits_for. destruct (decide _); [done|lia]. Qed.

Lemma waiting_end n c :
  net_ok R H n -> 0 < waiting_at c n ->
  exists e, valid_end (np n) e /\ fromPort (channels n c) = Some e /\ channel (output_at e n) = Some c.
Proof using.
  intros Ok W. unfold waiting_at in W.
  assert (E : exists e, valid_end (np n) e /\ channel (output_at e n) = Some c).
  { destruct (decide (0 < sum (below (np_numNodes (np n))) (fun i => waits_for c (fromNodePort (nodes n i))))) as [S|S].
    - destruct (sum_pos _ _ S) as (i & Hi%below_spec & P%waits_for_one). by exists (AtNode i).
    - destruct (sum_pos (below (np_numSwitches (np n))) (fun s => toldby c (switches n s))) as (s & Hs%below_spec & T); [lia|].
      destruct (sum_pos _ _ T) as (p & Hp%below_spec & P%waits_for_one).
      exists (AtSwitch s p). cbn. destruct (net_switches _ _ _ Ok s Hs) as [_ Ps]. by rewrite <-Ps. }
  destruct E as (e & Ve & E). exists e. split; [done|]. split; [|done].
  by apply (net_wires _ _ _ Ok).
Qed.

(** What a channel may carry, the port at its other end accepts. *)
Lemma carried_home n c t vc m :
  net_ok R H n -> toPort (channels n c) = Some t -> fits (carries R H (Some c)) vc m -> fits (in_rule R t) vc m.
Proof using.
  intros Ok Et (E & P & Hr & Hc). split; [done|]. split; [done|]. destruct t as [i|s p]; [|done].
  split; [done|]. eapply (net_home _ _ _ Ok); [|done]. by apply Hc.
Qed.

Lemma drive_channel_ok now c n :
  net_ok R H n -> counts_ok n -> 0 <= c < maxChannelIndex n ->
  ends (fun r => moved n (set_channel c (fst r) (put_ends (channels n c) (snd r) n)))
    (channel_drive now (channels n c) (ends_of (channels n c) n)).
Proof using.
  intros Ok C Hc. destruct (net_channels _ _ _ Ok c Hc) as [Oc (f & t & Ef & Et & Vf & Vt)].
  unfold ends_of. rewrite Ef, Et.
  pose proof (output_rule n f Ok Vf) as Of. pose proof (input_rule n t Ok Vt) as It.
  assert (Wt : 0 < ch_waiting (channels n c) -> channel (output_at f n) = Some c).
  { rewrite (count_channels _ C). intros W. destruct (waiting_end n c Ok W) as (e & _ & E & Ce). congruence. }
  eapply ends_mono; [|apply (channel_drive_ok (carries R H (Some c)) (in_rule R t)); [done| |]].
  - intros [c' e'] (Oc' & Se & M). cbn [fst snd] in *.
    assert (U : exists f' t' d,
      e' = Some (f', t') /\ ch_waiting c' = ch_waiting (channels n c) - d one /\
      port_ok (carries R H (channel (output_at f n))) [] f' /\ same_port (output_at f n) f' /\
      (forall g, load g f' = load g (output_at f n) - d g) /\
      (d one <> 0 -> channel (output_at f n) = Some c) /\
      input_ok (in_rule R t) t' /\ (forall vc, msl (in_port t') vc = msl (in_port (input_at t n)) vc) /\
      forall g, in_load g t' = in_load g (input_at t n) + d g).
    { destruct M as [[-> W]|(f0 & t0 & f' & t' & s & E0 & -> & W0 & W & Pf & Sf & Lf & It' & St & Mt & Lt)].
      - exists (output_at f n), (input_at t n), (fun _ => 0). split_and!; try done; intros; lia.
      - injection E0 as <- <-. exists f', t', (fun g => g s). rewrite (Wt W0). by split_and!. }
    clear M. destruct U as (f' & t' & d & -> & W & Pf & Sf & Lf & Dc & It' & Mt & Lt).
    unfold put_ends. rewrite Ef, Et.
    destruct (put_output_ok n f f' Ok Vf Pf Sf) as (Ok1 & S1 & L1 & W1 & P1 & C1).
    rewrite <-(input_at_put_output t f f' n) in Mt, Lt.
    set (n1 := put_output f f' n) in *.
    destruct (put_input_ok n1 t t' Ok1) as (Ok2 & P2 & S2 & C2 & L2 & W2); [by apply P1, C| |done|done|].
    { by rewrite (same_np _ _ S1). }
    set (n2 := put_input t t' n1) in *.
    assert (E2 : channels n2 = channels n) by congruence.
    destruct (set_channel_ok n2 c c' Ok2) as [Ok3 S3]; [done|by rewrite E2|].
    split_and!; try done; [|by do 2 (etrans; [done|])|].
    + split; [|by destruct P2]. intros c0. change (waiting_at c0 (set_channel c c' n2)) with (waiting_at c0 n2).
      rewrite W2, W1, Lf. cbn [set_channel channels]. unfold fset. rewrite E2.
      destruct (Z.eqb_spec c0 c) as [->|N]; rewrite ?W, (count_channels _ C).
      * destruct (decide _) as [|Nc]; [lia|]. destruct (decide (d one = 0)); [lia|tauto].
      * destruct (decide _) as [Ec|]; [|lia]. destruct (decide (d one = 0)) as [->|D]; [lia|].
        specialize (Dc D). congruence.
    + intros g. change (net_load g (set_channel c c' n2)) with (net_load g n2). rewrite L2, L1, Lf, Lt. lia.
  - intros W. exists (output_at f n), (input_at t n). split; [done|]. split; [|done]. by rewrite <-(Wt W).
  - intros vc m. by apply (carried_home n c).
Qed.

Lemma drive_channels_ok now l n :
  net_ok R H n -> counts_ok n -> Forall (fun c => 0 <= c < maxChannelIndex n) l ->
  ends (moved n) (drive_channels now l n).
Proof using.
  revert n. induction l as [|c l IH]; intros n Ok C F; cbn [drive_channels]; [by apply moved_refl|].
  apply Forall_cons in F as [Hc F]. eapply ends_bind; [by apply drive_channel_ok|].
  intros [c' e'] M. cbn [fst snd] in M. apply (moved_step _ _ _ M). apply IH; [apply M|apply M|].
  destruct M as (_ & _ & S1 & _). by rewrite (same_max _ _ S1).
Qed.

(** The cycle up to the nodes. *)
Lemma drive_parts_ok now n :
  net_ok R H n -> counts_ok n ->
  ends (moved n)
    (n1 ← drive_switches now (below (np_numSwitches (np n))) n;
     n2 ← drive_switch_inputs now (below (np_numSwitches (np n))) n1;
     n3 ← drive_node_inputs now (below (np_numNodes (np n))) n2;
     drive_channels now (below (maxChannelIndex n3)) n3).
Proof using.
  assert (B : forall k, Forall (fun i => 0 <= i < k) (below k)).
  { intros k. apply Forall_forall. intros i. by rewrite below_spec. }
  intros Ok C. apply moved_bind; [by apply drive_switches_ok|]. intros n1 Ok1 C1 S1.
  rewrite <-(same_np _ _ S1). apply moved_bind; [by apply drive_switch_inputs_ok|]. intros n2 Ok2 C2 S2.
  rewrite <-(same_np _ _ S2). apply moved_bind; [by apply drive_node_inputs_ok|]. intros n3 Ok3 C3 S3.
  by apply drive_channels_ok.
Qed.
End network.
