(* ===== verification/NetDelivery.v ===== *)
(** * What the network delivers

    The component [MemoryNetwork] with the messages that the network carries for it.
    The history lists the packets that were pushed, in order; a packet's place in it is
    its serial number.  A packet is in the network once, with its transport, or it has
    been delivered, and then never again. *)

From stdpp Require Import base gmap list strings fin_maps.
From Stdlib Require Import ZArith Lia.
From S2P Require Import Prelude NetPort NetSwitch NetShim NetInvariant NetSwitching NetRuns.

Local Open Scope Z_scope.

(** ** Weaker rules *)

Section weaker.
Context (R R' : rule) (Sub : forall s d p, R s d p -> R' s d p).

Lemma fits_mono vc m : fits R vc m -> fits R' vc m.
Proof using Sub. intros (E & P & Hr). split_and!; auto. Qed.

Lemma port_ok_mono d p : port_ok R d p -> port_ok R' d p.
Proof using Sub.
  intros [U S F]. split; try done. intros vc V. eapply Forall_impl; [by apply F|]. apply fits_mono.
Qed.

Lemma input_ok_mono p : input_ok R p -> input_ok R' p.
Proof using Sub.
  intros [P F]. split; [by apply port_ok_mono|]. eapply Forall_impl; [done|]. intros m [V Fm].
  split; [done|]. by apply fits_mono.
Qed.
End weaker.

Lemma net_ok_mono (R R' : rule) H n :
  (forall s d p, R s d p -> R' s d p) -> (forall s d p, R' s d p -> 0 <= d < np_numNodes (np n)) ->
  net_ok R H n -> net_ok R' H n.
Proof.
  intros Sub De [Sw Nd Ch Wi Ho _].
  assert (SubC : forall oc s d p, carries R H oc s d p -> carries R' H oc s d p).
  { intros oc s d p [Hr Hc]. split; auto. }
  split; try done.
  - intros s Hs. destruct (Sw s Hs) as [[P St I O U A Rt] E]. split; [|done]. split; try done.
    + intros p Hp. eapply input_ok_mono; [done|by apply I].
    + intros p Hp. eapply port_ok_mono; [apply SubC|by apply O].
    + intros vc V. eapply Forall_impl; [by apply A|]. by apply fits_mono.
  - intros i Hi. destruct (Nd i Hi) as [Fr To Lv Sp]. split; try done.
    + eapply port_ok_mono; [apply SubC|done].
    + eapply input_ok_mono; [|done]. intros s d p [Hr E]. split; auto.
Qed.

(** ** A message enters *)

Lemma insertMessage_ok R H now m n :
  net_ok R H n -> counts_ok n -> 0 <= srcNode m < np_numNodes (np n) ->
  0 <= priority m < NUM_PRIORITIES -> R (serial m) (destNode m) (priority m) ->
  buffersUsed (fromNodePort (nodes n (srcNode m))) (BUILD_VC (priority m) 0)
    < bufferCount (fromNodePort (nodes n (srcNode m))) (BUILD_VC (priority m) 0) ->
  ends (fun n' => net_ok R H n' /\ counts_ok n' /\ np n' = np n /\ maxChannelIndex n' = maxChannelIndex n /\
    activeList n' = activeList n ++ [serial m] /\ activeMessages n' = activeMessages n + 1 /\
    forall g, net_load g n' = net_load g n + g (serial m)) (insertMessage now m n).
Proof.
  intros Ok C Hs Hp Hr Sp. pose proof (net_dest _ _ _ Ok _ _ _ Hr) as Hd. unfold insertMessage.
  rewrite (proj2 (Z.ltb_ge (srcNode m) 0)), (proj2 (Z.leb_gt (np_numNodes (np n)) (srcNode m))) by lia.
  rewrite (proj2 (Z.ltb_ge (destNode m) 0)), (proj2 (Z.leb_gt (np_numNodes (np n)) (destNode m))) by lia.
  rewrite (proj2 (Z.ltb_ge (priority m) 0)), (proj2 (Z.leb_gt NUM_PRIORITIES (priority m))) by lia.
  cbn [orb]. set (lat := if flexusInFastMode m then 1 else _). set (m' := set_entry _ lat m).
  set (n1 := set_active _ _ n). change (nodes n1) with (nodes n).
  destruct (net_nodes _ _ _ Ok (srcNode m) Hs) as [Fr To (c & Ec & Hc) Spc].
  destruct (BUILD_VC_valid (priority m) 0) as [Vb Nb]; [done| |].
  { exists (priority m * 2). unfold NETVC_TO_PROTVC, MAX_NET_VC. rewrite Z.div_mul by done.
    split; [|done]. apply valid_vc_spec. unfold MAX_VC, MAX_PROT_VC, MAX_NET_VC, NUM_PRIORITIES in *. lia. }
  change (srcNode m') with (srcNode m).
  assert (Fm : fits (carries R H (channel (fromNodePort (nodes n (srcNode m))))) (networkVC m') m').
  { split; [done|]. split; [done|]. split; [done|]. intros c' E. rewrite Ec in E. by injection E as <-. }
  eapply ends_bind; [apply (out_insert_ok (carries R H (channel (fromNodePort (nodes n (srcNode m))))) now m' _ c); try done|].
  intros [p c'] (Eq' & Pk & Sm & L). cbn [fst snd ends] in *. subst c'.
  assert (Ok1 : net_ok R H n1) by (by destruct Ok).
  set (x := mkNode p _ _).
  destruct (set_node_ok R H n1 (srcNode m) x Ok1) as [Ok2 S2]; [|done|].
  { destruct (Sm) as [Eq Eb]. split; cbn; [by rewrite Eq|done|rewrite Eq; by exists c|]. intros vc. by rewrite Eb. }
  set (n2 := set_node (srcNode m) x n1) in *.
  destruct (tell_ok R H [c] n2 Ok2) as (Ok3 & S3 & _).
  destruct (tell_counts R H [c] n2 Ok2) as [C3 L3].
  { intros c'. unfold n2. rewrite set_node_waiting by done. cbn [set_node channels n1 set_active].
    change (waiting_at c' n1) with (waiting_at c' n). change (nodes n1) with (nodes n).
    rewrite (count_channels _ C). destruct (Sm) as [Eq _]. unfold waits_for. cbn [fromNodePort x]. rewrite Eq, Ec, L.
    cbn [times]. unfold one. destruct (decide _) as [E|N]; [assert (c = c') as <- by congruence; rewrite Z.eqb_refl; lia|].
    destruct (Z.eqb_spec c c') as [->|]; [done|lia]. }
  { apply set_node_counted; [by destruct C as [_ [? ?]]|]. by apply (count_nodes _ C). }
  split; [done|]. split; [done|]. split; [apply (same_np _ _ S3)|]. split; [apply (same_max _ _ S3)|].
  destruct (same_active _ _ S3) as [Ea Ek]. split; [exact Ea|]. split; [exact Ek|].
  intros g. rewrite L3. unfold n2. rewrite set_node_load by done. unfold node_load. cbn [x fromNodePort toNodePort].
  change (net_load g n1) with (net_load g n). rewrite L. change (nodes n1) with (nodes n).
  change (serial m') with (serial m). lia.
Qed.

(** ** The component *)

(** A serial number is an index of the history; the message goes where its packet goes. *)
Definition packets (nn : Z) (hist : list NetworkMessage) : rule := fun s d p =>
  0 <= s /\ 0 <= d < nn /\
  exists t, hist !! Z.to_nat s = Some t /\ nm_dest t = d /\ MAX_PROT_VC - nm_vc t - 1 = p.

Definition numbered (s x : Z) : Z := if x =? s then 1 else 0.

(** The port and packet of one delivery. *)
Definition delivers (V : Z) (hist : list NetworkMessage) (i : nat) (pt : Z * NetworkMessage) : Prop :=
  hist !! i = Some pt.2 /\ pt.1 = nm_dest pt.2 * V + nm_vc pt.2.

(** [D]: the serial numbers of what has been delivered, in order. *)
Record comp_ok (H : Z -> Z -> Prop) (hist : list NetworkMessage) (D : list nat) (w : MemoryNetwork) : Prop := {
  co_net : net_ok (packets (np_numNodes (np (nc w))) hist) H (nc w);
  co_counts : counts_ok (nc w);
  co_once : forall s, net_load (numbered s) (nc w) = if decide (is_Some (transports w !! s)) then 1 else 0;
  co_total : net_load one (nc w) = activeMessages (nc w);
  co_transports : forall s t, transports w !! s = Some t -> 0 <= s /\ hist !! Z.to_nat s = Some t;
  co_serial : msSerial w = Z.of_nat (length hist);
  co_fate : forall i, (i < length hist)%nat -> i ∈ D \/ is_Some (transports w !! Z.of_nat i);
  co_gone : forall i, i ∈ D -> transports w !! Z.of_nat i = None;
  co_nodup : NoDup D;
  co_delivered : Forall2 (delivers (VChannels w) hist) D (delivered w);
  co_active : NoDup (activeList (nc w)) /\ forall s, s ∈ activeList (nc w) <-> is_Some (transports w !! s);
  co_number : activeMessages (nc w) = Z.of_nat (length (activeList (nc w)));
  co_bound : activeMessages (nc w) <= Z.of_nat (length hist);
}.

Lemma numbered_self s : numbered s s = 1.
Proof. unfold numbered. by rewrite Z.eqb_refl. Qed.
Lemma numbered_other s x : x <> s -> numbered s x = 0.
Proof. unfold numbered. intros N. by rewrite (proj2 (Z.eqb_neq _ _) N). Qed.
Lemma numbered_nonneg s x : 0 <= numbered s x.
Proof. unfold numbered. by destruct (x =? s). Qed.

Lemma in_load_nonneg g p : (forall s, 0 <= g s) -> 0 <= in_load g p.
Proof. intros Hg. unfold in_load. pose proof (load_nonneg g (in_port p) Hg). pose proof (weigh_nonneg g (delayed p) Hg). lia. Qed.
Lemma node_load_nonneg g x : (forall s, 0 <= g s) -> 0 <= node_load g x.
Proof. intros Hg. unfold node_load. pose proof (load_nonneg g (fromNodePort x) Hg). pose proof (in_load_nonneg g (toNodePort x) Hg). lia. Qed.
Lemma sw_load_nonneg g w : (forall s, 0 <= g s) -> 0 <= sw_load g w.
Proof.
  intros Hg. unfold sw_load.
  assert (0 <= sum (below (numPorts w)) (fun p => in_load g (inputPorts w p)))
    by (apply sum_nonneg; intros; by apply in_load_nonneg).
  assert (0 <= sum (below (numPorts w)) (fun p => load g (outputPorts w p)))
    by (apply sum_nonneg; intros; by apply load_nonneg).
  assert (0 <= sum (below MAX_VC) (fun vc => weigh g (ageBuffer w vc)))
    by (apply sum_nonneg; intros; by apply weigh_nonneg). lia.
Qed.
Lemma net_load_nonneg g n : (forall s, 0 <= g s) -> 0 <= net_load g n.
Proof.
  intros Hg. unfold net_load.
  assert (0 <= sum (below (np_numNodes (np n))) (fun i => node_load g (nodes n i)))
    by (apply sum_nonneg; intros; by apply node_load_nonneg).
  assert (0 <= sum (below (np_numSwitches (np n))) (fun s => sw_load g (switches n s)))
    by (apply sum_nonneg; intros; by apply sw_load_nonneg). lia.
Qed.

(** What waits in a node's own port is in the network. *)
Lemma node_from_le n i vc :
  0 <= i < np_numNodes (np n) -> valid_vc vc = true -> qlen (msl (fromNodePort (nodes n i)) vc) <= net_load one n.
Proof.
  intros Hi V. pose proof (msl_le_load (fromNodePort (nodes n i)) vc V).
  assert (0 <= in_load one (toNodePort (nodes n i))) by by apply in_load_nonneg.
  assert (node_load one (nodes n i) <= sum (below (np_numNodes (np n))) (fun i => node_load one (nodes n i))).
  { apply (sum_le _ (fun i => node_load one (nodes n i))); [|by apply below_spec]. intros; by apply node_load_nonneg. }
  assert (0 <= sum (below (np_numSwitches (np n))) (fun s => sw_load one (switches n s)))
    by (apply sum_nonneg; intros; by apply sw_load_nonneg).
  unfold net_load. unfold node_load in *. lia.
Qed.

(** *** Pushing *)

(** What the component at a port [FromNode] guarantees of the packets it pushes. *)
Definition packet_ok (V nn idx : Z) (t : NetworkMessage) : Prop :=
  nm_src t = idx / V /\ nm_vc t = idx mod V /\ 0 <= nm_src t < nn /\ 0 <= nm_dest t < nn /\
  nm_size t <> -1 /\ nm_src_port t <> -1 /\ nm_dst_port t <> -1.

Lemma packets_mono nn hist t s d p : packets nn hist s d p -> packets nn (hist ++ [t]) s d p.
Proof.
  intros (Hs & Hd & t' & E & Ht). split; [done|]. split; [done|]. exists t'. split; [|done].
  by apply lookup_app_l_Some.
Qed.

Lemma delivers_mono V hist t i pt : delivers V hist i pt -> delivers V (hist ++ [t]) i pt.
Proof. intros [E P]. split; [|done]. by apply lookup_app_l_Some. Qed.

(** There is room for what [available(FromNode)] lets in: the first virtual channel has
    one buffer, which is the one it asks about, the others have practically no bound. *)
Lemma available_room H hist D w idx t :
  comp_ok H hist D w -> 0 < VChannels w <= MAX_PROT_VC -> packet_ok (VChannels w) (np_numNodes (np (nc w))) idx t ->
  Z.of_nat (length hist) < INT_MAX ->
  available_FromNode idx w = Done true ->
  let vc := BUILD_VC (MAX_PROT_VC - nm_vc t - 1) 0 in
  let p := fromNodePort (nodes (nc w) (nm_src t)) in
  buffersUsed p vc < bufferCount p vc.
Proof.
  intros Ok HV (Es & Ev & Hs & _) B. unfold available_FromNode. rewrite <-Es, <-Ev. cbn zeta.
  pose proof (Z.mod_pos_bound idx (VChannels w) ltac:(lia)) as M. rewrite <-Ev in M.
  unfold MAX_PROT_VC in HV. change MAX_PROT_VC with 4.
  set (prio := 4 - nm_vc t - 1) in *. assert (Hp : 0 <= prio < 4) by lia.
  rewrite hasBufferSpace_valid by (apply valid_vc_spec; change MAX_VC with 8; lia).
  intros [= A%Z.ltb_lt]. set (p := fromNodePort (nodes (nc w) (nm_src t))) in *.
  destruct (net_nodes _ _ _ (co_net _ _ _ _ Ok) (nm_src t) Hs) as [Fr _ _ Sp]. fold p in Fr, Sp.
  unfold BUILD_VC. change MAX_NET_VC with 2. destruct (decide (prio = 0)) as [->|N]; [exact A|].
  assert (V : valid_vc (prio * 2 + 0) = true) by (apply valid_vc_spec; change MAX_VC with 8; lia).
  rewrite Sp. rewrite (proj2 (Z.eqb_neq (prio * 2 + 0) 0)), (proj2 (Z.eqb_neq (prio * 2 + 0) 1)) by lia. cbn [orb].
  rewrite (port_used _ _ _ Fr _ V). cbn [fmap list_fmap times].
  pose proof (node_from_le (nc w) (nm_src t) _ Hs V) as L. fold p in L.
  pose proof (co_total _ _ _ _ Ok). pose proof (co_bound _ _ _ _ Ok). lia.
Qed.

(** The component, after its container took the message. *)
Lemma pushed_ok H hist D t w n' :
  comp_ok H hist D w ->
  net_ok (packets (np_numNodes (np (nc w))) (hist ++ [t])) H n' -> counts_ok n' -> np n' = np (nc w) ->
  activeList n' = activeList (nc w) ++ [msSerial w] -> activeMessages n' = activeMessages (nc w) + 1 ->
  (forall g, net_load g n' = net_load g (nc w) + g (msSerial w)) ->
  comp_ok H (hist ++ [t]) D (mkMemoryNetwork (VChannels w) n' (<[msSerial w := t]> (transports w)) (msSerial w + 1)
    (delivered w) (latency w) (PacketCount w) (net_stats w)).
Proof.
  intros [Nt Ct On To Tr Se Fa Go ND De [NA Ac] Nu Bo] Ok' C' Ep Ea Ek L.
  assert (New : transports w !! msSerial w = None).
  { destruct (transports w !! msSerial w) as [t'|] eqn:E; [|done]. destruct (Tr _ _ E) as [_ E'].
    apply lookup_lt_Some in E'. lia. }
  split; cbn [nc transports msSerial VChannels delivered]; try done.
  - by rewrite Ep.
  - intros s. rewrite L, On. destruct (decide (s = msSerial w)) as [->|N].
    + rewrite numbered_self, New, lookup_insert_eq.
      rewrite decide_False, decide_True; [lia|by eexists|by intros []].
    + rewrite numbered_other, lookup_insert_ne by done. lia.
  - rewrite L, To, Ek. done.
  - intros s t' E. apply lookup_insert_Some in E as [[<- <-]|[N E]].
    + split; [lia|]. rewrite Se, Nat2Z.id, lookup_app_r, Nat.sub_diag by lia. done.
    + destruct (Tr _ _ E) as [Hs E']. split; [done|]. by apply lookup_app_l_Some.
  - rewrite length_app. cbn. lia.
  - intros i Hi. rewrite length_app in Hi. cbn in Hi. destruct (decide (i = length hist)) as [->|N].
    + right. rewrite <-Se, lookup_insert_eq. by eexists.
    + destruct (Fa i) as [Hi'|Hi']; [lia|by left|]. right. by rewrite lookup_insert_ne by lia.
  - intros i Hi. rewrite lookup_insert_ne; [by apply Go|]. intros E.
    apply list_elem_of_lookup_1 in Hi as [k Hk]. destruct (Forall2_lookup_l _ _ _ _ _ De Hk) as (pt & _ & Hp & _).
    apply lookup_lt_Some in Hp. lia.
  - eapply Forall2_impl; [done|]. intros i pt. apply delivers_mono.
  - rewrite Ea. split.
    + apply NoDup_app. split; [done|]. split; [|apply NoDup_singleton].
      intros s Hs E%list_elem_of_singleton. subst s. apply Ac in Hs. rewrite New in Hs. by destruct Hs.
    + intros s. rewrite elem_of_app, Ac, list_elem_of_singleton, lookup_insert_is_Some. split.
      * intros [Hs | ->]; [right|by left]. split; [|done]. intros <-. rewrite New in Hs. by destruct Hs.
      * intros [<- | [_ Hs]]; auto.
  - rewrite Ea, Ek, Nu, length_app. cbn. lia.
  - rewrite Ek, length_app. cbn. lia.
Qed.

Lemma push_ok H hist D now fast idx t w :
  comp_ok H hist D w -> 0 < VChannels w <= MAX_PROT_VC -> packet_ok (VChannels w) (np_numNodes (np (nc w))) idx t ->
  Z.of_nat (length hist) < INT_MAX -> available_FromNode idx w = Done true ->
  ends (fun w' => comp_ok H (hist ++ [t]) D w' /\ VChannels w' = VChannels w /\ np (nc w') = np (nc w) /\
    delivered w' = delivered w) (push_FromNode now fast idx t w).
Proof.
  intros Ok HV Pk B Av. pose proof (available_room _ _ _ _ _ _ Ok HV Pk B Av) as Room.
  destruct Pk as (Es & Ev & Hs & Hd & Sz & Sp & Dp). unfold push_FromNode.
  pose proof (Z.mod_pos_bound idx (VChannels w) ltac:(lia)) as M. rewrite <-Ev in M.
  rewrite <-Es, <-Ev, !Z.eqb_refl. cbn [andb negb existsb].
  rewrite (proj2 (Z.eqb_neq (nm_src t) (-1))), (proj2 (Z.eqb_neq (nm_dest t) (-1))), (proj2 (Z.eqb_neq (nm_vc t) (-1))),
    (proj2 (Z.eqb_neq (nm_size t) (-1))), (proj2 (Z.eqb_neq (nm_src_port t) (-1))),
    (proj2 (Z.eqb_neq (nm_dst_port t) (-1))) by lia. cbn [orb].
  set (m := mkMsg _ _ _ _ _ _ _ _ _ _ _ _ _ _). pose proof (co_serial _ _ _ _ Ok) as Se.
  set (R := packets (np_numNodes (np (nc w))) (hist ++ [t])).
  assert (OkR : net_ok R H (nc w)).
  { eapply net_ok_mono; [|by intros ? ? ? (_ & ? & _)|apply Ok]. apply packets_mono. }
  eapply ends_bind; [apply (insertMessage_ok R H now m); try done; [by apply Ok| |]|].
  - cbn [priority m]. unfold MAX_PROT_VC, NUM_PRIORITIES in *. lia.
  - cbn [serial destNode priority m]. rewrite Se. split; [lia|]. split; [done|]. exists t.
    rewrite Nat2Z.id, lookup_app_r, Nat.sub_diag by lia. done.
  - intros n' (Ok' & C' & Ep & Em & Ea & Ek & L). cbn [ends]. split; [|done].
    change (serial m) with (msSerial w) in *. by apply pushed_ok.
Qed.

(** *** Delivering *)

Lemma remove_one_length x l : x ∈ l -> length l = S (length (remove_one x l)).
Proof.
  induction l as [|y l IH]; [by intros ?%not_elem_of_nil|]. intros Hx. cbn [remove_one length].
  destruct (Z.eqb_spec y x) as [->|N]; [done|]. apply elem_of_cons in Hx as [->|Hx]; [done|]. cbn. by rewrite IH.
Qed.

Lemma remove_one_elem x l y : NoDup l -> y ∈ remove_one x l <-> y ∈ l /\ y <> x.
Proof.
  induction l as [|z l IH]; intros ND; [by split; [intros ?%not_elem_of_nil|intros [?%not_elem_of_nil _]]|].
  apply NoDup_cons in ND as [Nz ND]. cbn [remove_one]. rewrite elem_of_cons.
  destruct (Z.eqb_spec z x) as [->|N].
  - split; [|naive_solver]. intros Hy. split; [by right|]. by intros ->.
  - rewrite elem_of_cons, IH by done. naive_solver.
Qed.

Lemma remove_one_NoDup x l : NoDup l -> NoDup (remove_one x l).
Proof.
  induction l as [|z l IH]; intros ND; [done|]. pose proof ND as [Nz ND']%NoDup_cons. cbn [remove_one].
  destruct (z =? x); [done|]. apply NoDup_cons. split; [|by apply IH]. rewrite remove_one_elem by done. tauto.
Qed.

(** The message leaves the node's port; the node, its counter and the active list follow. *)
Definition without (i : Z) (p : ChannelInputPort) (l : list Z) (k : Z) (n : NetContainer) : NetContainer :=
  let x := nodes n i in
  set_node i (mkNode (fromNodePort x) p (nd_waiting x - 1))
    (set_active l k (set_node i (mkNode (fromNodePort x) p (nd_waiting x)) n)).

Lemma without_ok R H now n i vc m l l' k :
  net_ok R H n -> counts_ok n -> 0 <= i < np_numNodes (np n) -> valid_vc vc = true ->
  msl (in_port (toNodePort (nodes n i))) vc = m :: l ->
  ends (fun '(m', p) => alike m m' /\ net_ok R H (without i p l' k n) /\ counts_ok (without i p l' k n) /\
      forall g, net_load g (without i p l' k n) = net_load g n - g (serial m))
    (in_removeMessage now vc (toNodePort (nodes n i))).
Proof.
  intros Ok C Hi V E. destruct (net_nodes _ _ _ Ok i Hi) as [Fr To Lv Sp].
  eapply ends_mono; [|by apply (in_remove_ok (at_home R i) now vc m l)].
  intros [m' p] (A & I' & S & L & _ & Q). split; [done|]. unfold without.
  set (x1 := mkNode _ p (nd_waiting (nodes n i))). set (x2 := mkNode _ p (nd_waiting (nodes n i) - 1)).
  destruct (set_node_ok R H n i x1 Ok) as [Ok1 S1]; [by split|done|].
  set (n1 := set_active l' k (set_node i x1 n)).
  assert (Ok2 : net_ok R H n1) by (by destruct Ok1).
  assert (E1 : nodes n1 i = x1) by apply fset_same.
  destruct (set_node_ok R H n1 i x2 Ok2) as [Ok3 S3]; [by split|by rewrite E1|].
  split; [done|]. split; [split; [|split]|].
  - intros c. rewrite set_node_waiting, E1 by done. change (waiting_at c n1) with (waiting_at c (set_node i x1 n)).
    rewrite set_node_waiting by done. cbn. rewrite (count_channels _ C). lia.
  - apply C.
  - intros j Hj. cbn. unfold fset. destruct (Z.eqb_spec j i) as [->|]; [|by apply C].
    cbn. rewrite Q, (count_nodes _ C) by done. done.
  - intros g. rewrite set_node_load, E1 by done. change (net_load g n1) with (net_load g (set_node i x1 n)).
    rewrite set_node_load by done. unfold node_load. cbn. rewrite L. lia.
Qed.

(** The component, after a delivery. *)
Lemma delivered_ok H hist D s t w n' lat pc st :
  comp_ok H hist D w -> transports w !! s = Some t ->
  net_ok (packets (np_numNodes (np (nc w))) hist) H n' -> counts_ok n' -> np n' = np (nc w) ->
  activeList n' = remove_one s (activeList (nc w)) -> activeMessages n' = activeMessages (nc w) - 1 ->
  (forall g, net_load g n' = net_load g (nc w) - g s) ->
  comp_ok H hist (D ++ [Z.to_nat s]) (mkMemoryNetwork (VChannels w) n' (delete s (transports w)) (msSerial w)
    (delivered w ++ [(nm_dest t * VChannels w + nm_vc t, t)]) lat pc st).
Proof.
  intros [Nt Ct On To Tr Se Fa Go ND De [NA Ac] Nu Bo] Et Ok' C' Ep Ea Ek L.
  destruct (Tr _ _ Et) as [Hs Eh].
  assert (Ha : s ∈ activeList (nc w)) by (apply Ac; by eexists).
  split; cbn [nc transports msSerial VChannels delivered]; try done.
  - by rewrite Ep.
  - intros s'. rewrite L, On. destruct (decide (s' = s)) as [->|N].
    + rewrite numbered_self, Et, lookup_delete_eq. rewrite decide_True, decide_False; [lia|by intros []|by eexists].
    + rewrite numbered_other, lookup_delete_ne by done. lia.
  - rewrite L, To, Ek. done.
  - intros s' t' [_ E]%lookup_delete_Some. by apply Tr.
  - intros i Hi. destruct (decide (i = Z.to_nat s)) as [->|N]; [left; apply elem_of_app; right; by apply list_elem_of_singleton|].
    destruct (Fa i Hi) as [Hi'|Hi']; [left; apply elem_of_app; by left|]. right. by rewrite lookup_delete_ne by lia.
  - intros i [Hi | ->%list_elem_of_singleton]%elem_of_app.
    + apply lookup_delete_None. right. by apply Go.
    + rewrite Z2Nat.id by done. apply lookup_delete_eq.
  - apply NoDup_app. split; [done|]. split; [|apply NoDup_singleton].
    intros i Hi ->%list_elem_of_singleton. apply Go in Hi. rewrite Z2Nat.id in Hi by done. congruence.
  - apply Forall2_app; [done|]. by repeat constructor.
  - rewrite Ea. split; [by apply remove_one_NoDup|]. intros s'. rewrite remove_one_elem, Ac, lookup_delete_is_Some by done.
    naive_solver.
  - rewrite Ea, Ek, Nu. pose proof (remove_one_length _ _ Ha). lia.
  - lia.
Qed.

Lemma deliverMessage_eq now m w t :
  transports w !! serial m = Some t -> serial m ∈ activeList (nc w) ->
  activeMessages (nc w) = Z.of_nat (length (activeList (nc w))) ->
  exists lat pc st, deliverMessage now m w = Done (mkMemoryNetwork (VChannels w)
    (set_active (remove_one (serial m) (activeList (nc w))) (activeMessages (nc w) - 1) (nc w))
    (delete (serial m) (transports w)) (msSerial w) (delivered w ++ [(nm_dest t * VChannels w + nm_vc t, t)]) lat pc st).
Proof.
  intros Et Ha Nu. pose proof (remove_one_length _ _ Ha) as Ln.
  unfold deliverMessage. rewrite bool_decide_true by done. unfold deliver_transport. rewrite Et.
  cbn [mbind outcome_bind]. do 3 eexists. cbn [nc set_nc].
  destruct (_ && _) eqn:B; [|done]. apply andb_true_iff in B as [B1%Z.eqb_eq B2%negb_true_iff].
  apply bool_decide_eq_false in B2. destruct (remove_one (serial m) (activeList (nc w))); [done|].
  cbn in Ln. lia.
Qed.

(** [accepted avail l l']: every packet that [l'] has beyond [l] was pushed to a port
    that was available. *)
Inductive accepted (avail : list (Z * NetworkMessage) -> Z -> bool) (l : list (Z * NetworkMessage))
    : list (Z * NetworkMessage) -> Prop :=
  | accepted_nil : accepted avail l l
  | accepted_snoc l' pt : accepted avail l l' -> avail l' pt.1 = true -> accepted avail l (l' ++ [pt]).

Lemma accepted_trans avail l1 l2 l3 : accepted avail l1 l2 -> accepted avail l2 l3 -> accepted avail l1 l3.
Proof. intros A. induction 1; [done|]. by constructor. Qed.

(** A part of a cycle that delivers. *)
Definition delivering (H : Z -> Z -> Prop) (hist : list NetworkMessage) avail (w w' : MemoryNetwork) : Prop :=
  (exists D, comp_ok H hist D w') /\ VChannels w' = VChannels w /\ np (nc w') = np (nc w) /\
  accepted avail (delivered w) (delivered w').

Lemma delivering_trans H hist avail w1 w2 w3 :
  delivering H hist avail w1 w2 -> delivering H hist avail w2 w3 -> delivering H hist avail w1 w3.
Proof.
  intros (_ & V1 & N1 & A1) (C & V2 & N2 & A2). split; [done|]. split; [congruence|]. split; [congruence|].
  by eapply accepted_trans.
Qed.

Lemma delivering_refl H hist avail w : (exists D, comp_ok H hist D w) -> delivering H hist avail w w.
Proof. intros C. split_and!; try done. constructor. Qed.

Lemma node_drive_vcs_ok H hist now avail i vcs w :
  (exists D, comp_ok H hist D w) -> 0 <= i < np_numNodes (np (nc w)) -> Forall (fun vc => valid_vc vc = true) vcs ->
  ends (delivering H hist avail w) (node_drive_vcs now avail i vcs w).
Proof.
  intros C Hi F. revert w C Hi. induction F as [|vc vcs V F IH]; intros w [D C] Hi; cbn [node_drive_vcs].
  { apply delivering_refl. by exists D. }
  unfold hasMessage. rewrite V. cbn [mbind outcome_bind].
  destruct (msl (in_port (toNodePort (nodes (nc w) i))) vc) as [|m l] eqn:E; cbn [andb]; [by apply IH; [exists D|]|].
  destruct (isNodeAvailable avail i (NETVC_TO_PROTVC vc) w) eqn:Av; [|by apply IH; [exists D|]].
  pose proof (co_net _ _ _ _ C) as Ok. destruct (nd_to _ _ _ _ (net_nodes _ _ _ Ok i Hi)) as [Pt _].
  pose proof (port_msgs _ _ _ Pt vc V) as Fm. rewrite E in Fm. apply Forall_cons in Fm as [Fm _].
  destruct Fm as (Ev & Pv & (Hs & Hd & t & Eh & Ed & Epr) & Hm).
  set (l' := remove_one (serial m) (activeList (nc w))). set (k := activeMessages (nc w) - 1).
  eapply ends_bind; [by apply (without_ok _ H now (nc w) i vc m l l' k Ok (co_counts _ _ _ _ C))|].
  intros [m' p] ((Es & Edm & _ & _) & Ok' & C' & L).
  rewrite Edm, Hm, Z.eqb_refl. cbn [negb].
  assert (Ts : is_Some (transports w !! serial m)).
  { pose proof (co_once _ _ _ _ C (serial m)) as On. destruct (decide _) as [T|]; [done|].
    specialize (L (numbered (serial m))). rewrite numbered_self in L.
    pose proof (net_load_nonneg (numbered (serial m)) (without i p l' k (nc w)) (numbered_nonneg _)). lia. }
  destruct Ts as [t' Et]. destruct (co_transports _ _ _ _ C _ _ Et) as [_ Eh']. rewrite Eh in Eh'. injection Eh' as <-.
  set (w1 := set_nc _ w).
  destruct (deliverMessage_eq now m' w1 t) as (lat & pc & st & ->).
  { by rewrite Es. } { rewrite Es. apply (co_active _ _ _ _ C). by eexists. } { apply (co_number _ _ _ _ C). }
  cbn [mbind outcome_bind nc set_nc VChannels w1 transports msSerial delivered latency PacketCount net_stats].
  rewrite Es. set (x1 := mkNode _ p (nd_waiting (nodes (nc w) i))).
  change (activeList (set_node i x1 (nc w))) with (activeList (nc w)).
  change (activeMessages (set_node i x1 (nc w))) with (activeMessages (nc w)). fold l' k.
  assert (E1 : nodes (set_active l' k (set_node i x1 (nc w))) i = x1) by apply fset_same. rewrite E1.
  match goal with |- ends _ (node_drive_vcs _ _ _ _ ?w') => set (w2 := w') end.
  assert (C2 : comp_ok H hist (D ++ [Z.to_nat (serial m)]) w2)
    by by apply (delivered_ok H hist D (serial m) t w (without i p l' k (nc w))).
  eapply ends_mono; [|apply (IH w2); [by eexists|done]]. intros w' M. eapply delivering_trans; [|done].
  split; [by eexists|]. split; [done|]. split; [done|]. cbn [w2 delivered]. constructor; [constructor|].
  cbn [fst]. unfold isNodeAvailable in Av. rewrite Pv, <-Epr, <-Hm, Ed in *. rewrite <-Av. f_equal. lia.
Qed.

Lemma drive_nodes_ok H hist now avail l w :
  (exists D, comp_ok H hist D w) -> Forall (fun i => 0 <= i < np_numNodes (np (nc w))) l ->
  ends (delivering H hist avail w) (drive_nodes now avail l w).
Proof.
  revert w. induction l as [|i l IH]; intros w C F; cbn [drive_nodes]; [by apply delivering_refl|].
  apply Forall_cons in F as [Hi F]. apply (ends_bind _ _ (delivering H hist avail w)).
  - unfold node_drive. destruct (_ =? 0); [by apply delivering_refl|]. apply node_drive_vcs_ok; try done.
    apply Forall_forall. intros vc. by rewrite below_valid.
  - intros w1 M. destruct (M) as (C1 & _ & N1 & _). eapply ends_mono; [|apply IH; [done|by rewrite N1]].
    intros w2. by apply delivering_trans.
Qed.

(** One cycle. *)
Lemma net_drive_ok H hist now avail w :
  (exists D, comp_ok H hist D w) -> ends (delivering H hist avail w) (net_drive now avail w).
Proof.
  intros [D C]. unfold net_drive. pose proof (drive_parts_ok _ H now (nc w) (co_net _ _ _ _ C) (co_counts _ _ _ _ C)) as M.
  set (f := fun n => drive_nodes now avail (below (np_numNodes (np (nc w)))) (set_nc n w)).
  assert (K : forall n', moved (packets (np_numNodes (np (nc w))) hist) H (nc w) n' -> ends (delivering H hist avail w) (f n')).
  { intros n' (Ok & Ct & S & L). assert (C' : comp_ok H hist D (set_nc n' w)).
    { pose proof (same_np _ _ S) as Ep. destruct (same_active _ _ S) as [Ea Ek].
      destruct C as [_ _ On To Tr Se Fa Go ND De Ac Nu Bo].
      split; cbn [nc set_nc transports msSerial VChannels delivered]; rewrite ?Ep, ?Ea, ?Ek; try done.
      - intros s. by rewrite L.
      - by rewrite L. }
    unfold f. eapply ends_mono; [|apply (drive_nodes_ok H hist); [by eexists|]].
    - intros w' (C2 & V2 & N2 & A2). split_and!; try done. rewrite N2. apply (same_np _ _ S).
    - apply Forall_forall. intros i. cbn [nc set_nc]. rewrite (same_np _ _ S). by rewrite below_spec. }
  destruct (drive_switches _ _ _) as [n1|]; [|done]. cbn [mbind outcome_bind] in *.
  destruct (drive_switch_inputs _ _ _) as [n2|]; [|done]. cbn [mbind outcome_bind] in *.
  destruct (drive_node_inputs _ _ _) as [n3|]; [|done]. cbn [mbind outcome_bind] in *.
  destruct (drive_channels _ _ _) as [n4|]; [|done]. by apply K.
Qed.
