(* ===== verification/NetBuild.v ===== *)
(** * Building the network

    What a topology file leaves behind, if its tokens are accepted and the network is
    valid: every channel has two ends, every port knows the channel that leaves from
    it, and nothing is in the network.  The invariant of the runs then holds, provided
    the routes do not lead to a wrong node, which the code does not check. *)

From stdpp Require Import base gmap list strings fin_maps.
From Stdlib Require Import ZArith Lia.
From S2P Require Import Prelude NetPort NetSwitch NetShim NetInvariant NetSwitching NetRuns NetDelivery.

Local Open Scope Z_scope.

(** ** An empty network *)

Definition empty_port (p : ChannelPort) : Prop :=
  forall vc, msl p vc = [] /\ buffersUsed p vc = 0 /\ 0 <= bufferCount p vc.
Definition empty_input (p : ChannelInputPort) : Prop := empty_port (in_port p) /\ delayQueue p = [].

Record fresh_switch (p : NetParams) (w : NetSwitch) : Prop := {
  fresh_ports : numPorts w = np_switchPorts p;
  fresh_start : nextStartingPort w = 0;
  fresh_inputs : forall q, empty_input (inputPorts w q);
  fresh_outputs : forall q, empty_port (outputPorts w q);
  fresh_internal : forall vc, ib_used w vc = 0 /\ ageBuffer w vc = [] /\ messagesWaiting w vc = 0;
  fresh_depth : 0 <= ib_count w;
  fresh_routes : forall d r, r ∈ routingTable w d -> 0 <= r.1 < np_switchPorts p /\ 0 <= r.2 < MAX_NET_VC;
}.

Record fresh_node (x : NetNode) : Prop := {
  fresh_from : empty_port (fromNodePort x);
  fresh_to : empty_input (toNodePort x);
  fresh_waiting : nd_waiting x = 0;
  fresh_space : forall vc, bufferCount (fromNodePort x) vc = if (vc =? 0) || (vc =? 1) then 1 else INT_MAX;
}.

Record fresh_channel (c : Channel) : Prop := {
  fresh_busy : busy c = 0;
  fresh_state : state c = CS_IDLE;
  fresh_divider : localLatencyDivider c <> 0;
  fresh_untold : ch_waiting c = 0;
}.

(** While channels below [k] are being attached; the channels below [maxChannelIndex]
    are complete. *)
Record building (p : NetParams) (k : Z) (n : NetContainer) : Prop := {
  bd_np : np n = p;
  bd_switches : forall s, fresh_switch p (switches n s);
  bd_nodes : forall i, fresh_node (nodes n i);
  bd_channels : forall c, fresh_channel (channels n c);
  bd_wires : forall e c, channel (output_at e n) = Some c -> 0 <= c < k /\ fromPort (channels n c) = Some e;
  bd_ends : forall c e, fromPort (channels n c) = Some e \/ toPort (channels n c) = Some e -> valid_end p e;
  bd_done : forall c, 0 <= c < maxChannelIndex n ->
    is_Some (fromPort (channels n c)) /\ is_Some (toPort (channels n c));
  bd_leave : forall c i, 0 <= c < maxChannelIndex n -> fromPort (channels n c) = Some (AtNode i) ->
    exists s q, toPort (channels n c) = Some (AtSwitch s q);
  bd_max : 0 <= maxChannelIndex n <= k;
  bd_idle : activeList n = [] /\ activeMessages n = 0;
}.

(** What stays when an end is attached. *)
Definition attached (p : NetParams) (k : Z) (n n' : NetContainer) (from to : Z -> option end_ref) : Prop :=
  building p k n' /\ maxChannelIndex n' = maxChannelIndex n /\
  (forall c, fromPort (channels n' c) = from c) /\ (forall c, toPort (channels n' c) = to c).

Lemma output_at_put_input e e' x n : channel (output_at e (put_input e' x n)) = channel (output_at e n).
Proof.
  destruct e' as [i|s p], e as [j|q r]; cbn; unfold fset; try done.
  - by destruct (Z.eqb_spec j i) as [->|].
  - by destruct (Z.eqb_spec q s) as [->|].
Qed.

Lemma output_at_put_output e e' x n :
  output_at e (put_output e' x n) = if decide (e = e') then x else output_at e n.
Proof.
  destruct e' as [i|s p], e as [j|q r]; cbn; unfold fset; try (by rewrite decide_False by done).
  - destruct (Z.eqb_spec j i) as [->|N]; [by rewrite decide_True|by rewrite decide_False by congruence].
  - destruct (Z.eqb_spec q s) as [->|N]; [|by rewrite decide_False by congruence]. cbn. unfold fset.
    destruct (Z.eqb_spec r p) as [->|N]; [by rewrite decide_True|by rewrite decide_False by congruence].
Qed.

Section attaching.
Context (p : NetParams) (k : Z).

Lemma put_output_fresh e x n :
  (forall s, fresh_switch p (switches n s)) -> (forall i, fresh_node (nodes n i)) ->
  empty_port x -> bufferCount x = bufferCount (output_at e n) ->
  (forall s, fresh_switch p (switches (put_output e x n) s)) /\ forall i, fresh_node (nodes (put_output e x n) i).
Proof using.
  intros Sw Nd Ex Eb. destruct e as [i|s q]; cbn; split; try done; intros j; unfold fset.
  - destruct (Z.eqb_spec j i) as [->|]; [|done]. destruct (Nd i) as [F T W S]. split; cbn; try done.
    intros vc. rewrite Eb. apply S.
  - destruct (Z.eqb_spec j s) as [->|]; [|done]. destruct (Sw s) as [P St I O B D Rt]. split; try done.
    cbn. intros r. unfold fset. by destruct (r =? q).
Qed.

Lemma put_input_fresh e x n :
  (forall s, fresh_switch p (switches n s)) -> (forall i, fresh_node (nodes n i)) -> empty_input x ->
  (forall s, fresh_switch p (switches (put_input e x n) s)) /\ forall i, fresh_node (nodes (put_input e x n) i).
Proof using.
  intros Sw Nd Ex. destruct e as [i|s q]; cbn; split; try done; intros j; unfold fset.
  - destruct (Z.eqb_spec j i) as [->|]; [|done]. destruct (Nd i) as [F T W S]. by split.
  - destruct (Z.eqb_spec j s) as [->|]; [|done]. destruct (Sw s) as [P St I O B D Rt]. split; try done.
    cbn. intros r. unfold fset. by destruct (r =? q).
Qed.

Lemma output_empty e n :
  (forall s, fresh_switch p (switches n s)) -> (forall i, fresh_node (nodes n i)) -> empty_port (output_at e n).
Proof using. intros Sw Nd. destruct e; cbn; [apply Nd|apply Sw]. Qed.
Lemma input_empty e n :
  (forall s, fresh_switch p (switches n s)) -> (forall i, fresh_node (nodes n i)) -> empty_input (input_at e n).
Proof using. intros Sw Nd. destruct e; cbn; [apply Nd|apply Sw]. Qed.

Lemma setFromPort_ok c e n n' :
  building p k n -> maxChannelIndex n <= c < k -> valid_end p e -> setFromPort c e n = Done n' ->
  attached p k n n' (fset c (Some e) (fun c => fromPort (channels n c))) (fun c => toPort (channels n c)).
Proof using.
  intros [Np Sw Nd Ch Wi En Dn Lv Mx Id] Hc Ve. unfold setFromPort.
  destruct (fromPort (channels n c)) eqn:Ef; [done|]. intros [= <-].
  set (ch' := mkChannel _ _ _ (Some e) _ _). set (x := setChannel c (output_at e n)).
  set (n1 := set_channel c ch' n).
  destruct (put_output_fresh e x n1 Sw Nd) as [Sw' Nd']; [by apply (output_empty e n)|done|].
  assert (E1 : channels (put_output e x n1) = fset c ch' (channels n)) by (by destruct e).
  assert (F1 : forall j, fromPort (channels (put_output e x n1) j) = fset c (Some e) (fun c => fromPort (channels n c)) j).
  { intros j. rewrite E1. unfold fset. by destruct (j =? c). }
  assert (T1 : forall j, toPort (channels (put_output e x n1) j) = toPort (channels n j)).
  { intros j. rewrite E1. unfold fset. by destruct (Z.eqb_spec j c) as [->|]. }
  assert (M1 : maxChannelIndex (put_output e x n1) = maxChannelIndex n) by (by destruct e).
  split; [|done]. split; rewrite ?M1; try done.
  - by destruct e.
  - intros j. rewrite E1. apply (fset_all (fun _ => fresh_channel) (fun _ => True)); [auto| |done].
    destruct (Ch c). by split.
  - intros e' j. rewrite output_at_put_output, F1. unfold fset. destruct (decide (e' = e)) as [->|N].
    + intros [= <-]. rewrite Z.eqb_refl. split; [lia|done].
    + assert (E' : output_at e' n1 = output_at e' n) by (by destruct e'). rewrite E'. intros Ej.
      destruct (Wi _ _ Ej) as [Hj Fj]. split; [done|]. destruct (Z.eqb_spec j c) as [->|]; [congruence|done].
  - intros j e'. rewrite F1, T1. unfold fset. destruct (Z.eqb_spec j c) as [->|]; [|apply En].
    intros [[= <-]|Et]; [done|]. apply (En c). by right.
  - intros j Hj. rewrite F1, T1, fset_other by lia. by apply Dn.
  - intros j i Hj. rewrite F1, T1, fset_other by lia. by apply Lv.
  - by destruct e.
Qed.

Lemma setToPort_ok c e n n' :
  building p k n -> maxChannelIndex n <= c < k -> valid_end p e -> setToPort c e n = Done n' ->
  attached p k n n' (fun c => fromPort (channels n c)) (fset c (Some e) (fun c => toPort (channels n c))).
Proof using.
  intros [Np Sw Nd Ch Wi En Dn Lv Mx Id] Hc Ve. unfold setToPort.
  destruct (toPort (channels n c)) eqn:Ef; [done|]. intros [= <-].
  set (ch' := mkChannel _ _ _ _ (Some e) _). set (x := mkInput _ _ _).
  set (n1 := set_channel c ch' n).
  destruct (put_input_fresh e x n1 Sw Nd) as [Sw' Nd'].
  { destruct (input_empty e n Sw Nd) as [Ep Eq]. split; [|done]. apply Ep. }
  assert (E1 : channels (put_input e x n1) = fset c ch' (channels n)) by (by destruct e).
  assert (F1 : forall j, fromPort (channels (put_input e x n1) j) = fromPort (channels n j)).
  { intros j. rewrite E1. unfold fset. by destruct (Z.eqb_spec j c) as [->|]. }
  assert (T1 : forall j, toPort (channels (put_input e x n1) j) = fset c (Some e) (fun c => toPort (channels n c)) j).
  { intros j. rewrite E1. unfold fset. by destruct (j =? c). }
  assert (M1 : maxChannelIndex (put_input e x n1) = maxChannelIndex n) by (by destruct e).
  split; [|done]. split; rewrite ?M1; try done.
  - by destruct e.
  - intros j. rewrite E1. apply (fset_all (fun _ => fresh_channel) (fun _ => True)); [auto| |done].
    destruct (Ch c). by split.
  - intros e' j. rewrite output_at_put_input, F1.
    assert (E' : output_at e' n1 = output_at e' n) by (by destruct e'). rewrite E'. apply Wi.
  - intros j e'. rewrite F1, T1. unfold fset. destruct (Z.eqb_spec j c) as [->|]; [|apply En].
    intros [Et|[= <-]]; [|done]. apply (En c). by left.
  - intros j Hj. rewrite F1, T1, fset_other by lia. by apply Dn.
  - intros j i Hj. rewrite F1, T1, fset_other by lia. by apply Lv.
  - by destruct e.
Qed.

(** Changes that attach nothing: a divider, a delay. *)
Lemma divider_ok c n :
  building p k n -> np_localChannelLatencyDivider p <> 0 ->
  let n' := set_channel c (setLocalLatencyDivider (np_localChannelLatencyDivider p) (channels n c)) n in
  attached p k n n' (fun c => fromPort (channels n c)) (fun c => toPort (channels n c)).
Proof using.
  intros [Np Sw Nd Ch Wi En Dn Lv Mx Id] Hd n'. unfold n'. clear n'.
  set (n' := set_channel _ _ n).
  assert (F1 : forall j, fromPort (channels n' j) = fromPort (channels n j)).
  { intros j. cbn. unfold fset. by destruct (Z.eqb_spec j c) as [->|]. }
  assert (T1 : forall j, toPort (channels n' j) = toPort (channels n j)).
  { intros j. cbn. unfold fset. by destruct (Z.eqb_spec j c) as [->|]. }
  split; [|done]. split; try done.
  - intros j. apply (fset_all (fun _ => fresh_channel) (fun _ => True)); [auto| |done]. destruct (Ch c). by split.
  - intros e j. rewrite F1. apply Wi.
  - intros j e. rewrite F1, T1. apply En.
  - intros j. rewrite F1, T1. apply Dn.
  - intros j i. rewrite F1, T1. apply Lv.
Qed.

Lemma local_delay_ok s q n n' :
  building p k n -> setLocalDelayOnly s q n = Done n' ->
  attached p k n n' (fun c => fromPort (channels n c)) (fun c => toPort (channels n c)).
Proof using.
  intros [Np Sw Nd Ch Wi En Dn Lv Mx Id]. unfold setLocalDelayOnly. destruct (_ && _); [|done]. intros E.
  set (x := setLocalDelay (input_at (AtSwitch s q) n)).
  assert (n' = put_input (AtSwitch s q) x n) as -> by (by injection E as <-). clear E. destruct (put_input_fresh (AtSwitch s q) x n Sw Nd) as [Sw' Nd'].
  { apply (input_empty (AtSwitch s q) n Sw Nd). }
  split; [|done]. split; try done. intros e j. rewrite output_at_put_input. apply Wi.
Qed.

(** A channel of a switch's port. *)
Lemma attachChannel_ok c s q isInput n n' :
  building p k n -> maxChannelIndex n <= c < k -> 0 <= s < np_numSwitches p ->
  attachChannel c s q isInput n = Done n' ->
  valid_end p (AtSwitch s q) /\
  attached p k n n'
    (if isInput then fun c => fromPort (channels n c) else fset c (Some (AtSwitch s q)) (fun c => fromPort (channels n c)))
    (if isInput then fset c (Some (AtSwitch s q)) (fun c => toPort (channels n c)) else fun c => toPort (channels n c)).
Proof using.
  intros B Hc Hs. unfold attachChannel. rewrite (fresh_ports _ _ (bd_switches _ _ _ B s)).
  destruct (_ && _) eqn:E; [|done]. apply andb_true_iff in E as [E1%Z.leb_le E2%Z.ltb_lt].
  assert (V : valid_end p (AtSwitch s q)) by done. intros A. split; [done|].
  destruct isInput; [by apply setToPort_ok|by apply setFromPort_ok].
Qed.

(** The two channels of a connection. *)
Definition linked (c : Z) (e e' : end_ref) (n n' : NetContainer) : Prop :=
  building p k n' /\ maxChannelIndex n' = maxChannelIndex n /\
  fromPort (channels n' c) = Some e /\ toPort (channels n' c) = Some e' /\
  fromPort (channels n' (c + 1)) = Some e' /\ toPort (channels n' (c + 1)) = Some e.

Ltac fset_eval := unfold fset; rewrite !Z.eqb_refl;
  repeat match goal with |- context [?i =? ?j] => rewrite (proj2 (Z.eqb_neq i j)) by lia end; done.

Lemma attach_pair i s q n n1 n2 n' :
  building p k n -> maxChannelIndex n + 2 <= k -> 0 <= i < np_numNodes p -> 0 <= s < np_numSwitches p ->
  np_localChannelLatencyDivider p <> 0 ->
  attachNodeChannels i n = Done n1 -> attachSwitchChannels s q true n1 = Done n2 ->
  setLocalDelayOnly s q n2 = Done n' -> linked (maxChannelIndex n) (AtNode i) (AtSwitch s q) n n'.
Proof using.
  intros B Hk Hi Hs Hd. unfold attachNodeChannels, attachSwitchChannels.
  destruct (setFromPort _ _ n) as [a1|] eqn:E1; [|done]. cbn [mbind outcome_bind].
  destruct (setToPort _ _ a1) as [a2|] eqn:E2; [|done]. cbn [mbind outcome_bind]. intros [= <-].
  rewrite (bd_np _ _ _ B).
  apply setFromPort_ok in E1 as (B1 & M1 & F1 & T1); [|done|lia|done].
  apply setToPort_ok in E2 as (B2 & M2 & F2 & T2); [|done|lia|done].
  destruct (divider_ok (maxChannelIndex n) a2 B2 Hd) as (B3 & M3 & F3 & T3).
  set (a3 := set_channel (maxChannelIndex n) _ a2) in *.
  destruct (divider_ok (maxChannelIndex n + 1) a3 B3 Hd) as (B4 & M4 & F4 & T4).
  set (a4 := set_channel (maxChannelIndex n + 1) _ a3) in *.
  assert (M : maxChannelIndex a4 = maxChannelIndex n) by congruence. rewrite M.
  destruct (attachChannel _ s q true a4) as [a5|] eqn:E5; [|done]. cbn [mbind outcome_bind]. intros E6 E7.
  apply attachChannel_ok in E5 as (V & B5 & M5 & F5 & T5); [|done|lia|done].
  rewrite M5, M in E6. apply attachChannel_ok in E6 as (_ & B6 & M6 & F6 & T6); [|done|lia|done].
  apply local_delay_ok in E7 as (B7 & M7 & F7 & T7); [|done].
  split; [done|]. split; [congruence|]. cbn [negb] in *.
  rewrite !F7, !T7, !F6, !T6. unfold fset. rewrite !F5, !T5. unfold fset.
  rewrite !F4, !T4, !F3, !T3, !F2, !T2. unfold fset. rewrite !F1, !T1.
  fset_eval.
Qed.

Lemma switch_pair s q s' q' n n1 n' :
  building p k n -> maxChannelIndex n + 2 <= k -> 0 <= s < np_numSwitches p -> 0 <= s' < np_numSwitches p ->
  attachSwitchChannels s q false n = Done n1 -> attachSwitchChannels s' q' true n1 = Done n' ->
  linked (maxChannelIndex n) (AtSwitch s q) (AtSwitch s' q') n n'.
Proof using.
  intros B Hk Hs Hs'. unfold attachSwitchChannels.
  destruct (attachChannel _ s q false n) as [a1|] eqn:E1; [|done]. cbn [mbind outcome_bind]. intros E2.
  apply attachChannel_ok in E1 as (V & B1 & M1 & F1 & T1); [|done|lia|done].
  rewrite M1 in E2. apply attachChannel_ok in E2 as (_ & B2 & M2 & F2 & T2); [|done|lia|done].
  rewrite M2, M1. destruct (attachChannel _ s' q' true n1) as [a3|] eqn:E3; [|done]. cbn [mbind outcome_bind]. intros E4.
  apply attachChannel_ok in E3 as (V' & B3 & M3 & F3 & T3); [|done|lia|done].
  rewrite M3, M2, M1 in E4. apply attachChannel_ok in E4 as (_ & B4 & M4 & F4 & T4); [|done|lia|done].
  split; [done|]. split; [congruence|]. cbn [negb] in *.
  rewrite !F4, !T4. unfold fset. rewrite !F3, !T3. unfold fset. rewrite !F2, !T2. unfold fset. rewrite !F1, !T1.
  fset_eval.
Qed.
End attaching.

Lemma building_mono p k k' n : building p k n -> k <= k' -> building p k' n.
Proof.
  intros [Np Sw Nd Ch Wi En Dn Lv Mx Id] Hk. split; try done; [|lia]. intros e c E. destruct (Wi e c E). split; [lia|done].
Qed.

(** A completed pair: the channels count. *)
Lemma linked_done p n n' e e' :
  linked p (maxChannelIndex n + 2) (maxChannelIndex n) e e' n n' ->
  (forall i, e' <> AtNode i) -> building p (maxChannelIndex n + 2) (set_maxChannel (maxChannelIndex n' + 2) n').
Proof.
  intros ([Np Sw Nd Ch Wi En Dn Lv Mx Id] & M & F0 & T0 & F1 & T1) Nn. rewrite M in *.
  split; cbn [set_maxChannel np switches nodes channels maxChannelIndex activeList activeMessages]; try done; [| |lia].
  - intros c Hc. destruct (decide (c = maxChannelIndex n)) as [->|N0]; [by rewrite F0, T0|].
    destruct (decide (c = maxChannelIndex n + 1)) as [->|N1]; [by rewrite F1, T1|]. apply Dn. lia.
  - intros c i Hc. destruct (decide (c = maxChannelIndex n)) as [->|N0].
    { rewrite F0, T0. intros [= ->]. destruct e' as [j|s q]; [by destruct (Nn j)|eauto]. }
    destruct (decide (c = maxChannelIndex n + 1)) as [->|N1]; [|apply Lv; lia].
    rewrite F1, T1. intros [= ->]. by destruct (Nn i).
Qed.

Lemma valid_params p : validateParameters p = true ->
  0 < np_localChannelLatencyDivider p /\ 1 < np_switchPorts p.
Proof. unfold validateParameters. rewrite !andb_true_iff, !Z.ltb_lt. tauto. Qed.

Lemma end_in_range p e n :
  np n = p -> check_end e n = Done tt -> in_bounds e n = Done tt ->
  match e with AtNode i => 0 <= i < np_numNodes p | AtSwitch s _ => 0 <= s < np_numSwitches p end.
Proof.
  intros <-. destruct e as [i|s q]; cbn.
  - destruct (Z.leb_spec (np_numNodes (np n)) i); [done|]. destruct (Z.ltb_spec i 0); [done|lia].
  - intros _. destruct (Z.ltb_spec s 0); [done|]. destruct (Z.leb_spec (np_numSwitches (np n)) s); [done|lia].
Qed.

Lemma handleTopology_ok p from to n n' :
  validateParameters p = true -> building p (maxChannelIndex n) n -> handleTopology from to n = Done n' ->
  building p (maxChannelIndex n') n'.
Proof.
  intros [Hd _]%valid_params B. pose proof (bd_np _ _ _ B) as Np. unfold handleTopology.
  pose proof (building_mono _ _ (maxChannelIndex n + 2) _ B ltac:(lia)) as B2.
  destruct (check_end from n) as [[]|] eqn:C1; [|done]. destruct (check_end to n) as [[]|] eqn:C2; [|done].
  cbn [mbind outcome_bind]. destruct (is_node from && is_node to); [done|].
  destruct (_ <=? maxChannelIndex n); [done|].
  destruct (in_bounds from n) as [[]|] eqn:I1; [|done]. destruct (in_bounds to n) as [[]|] eqn:I2; [|done].
  cbn [mbind outcome_bind]. pose proof (end_in_range p _ _ Np C1 I1) as R1. pose proof (end_in_range p _ _ Np C2 I2) as R2.
  destruct (connect from to n) as [n1|] eqn:Cn; [|done]. cbn [mbind outcome_bind]. intros [= <-].
  cut (exists e e', linked p (maxChannelIndex n + 2) (maxChannelIndex n) e e' n n1 /\ forall i, e' <> AtNode i).
  { intros (e & e' & L & Nn). destruct (L) as (_ & M & _). pose proof (linked_done _ _ _ _ _ L Nn) as D.
    cbn [set_maxChannel maxChannelIndex]. by rewrite M in *. }
  assert (NodeCase : forall i s q, 0 <= i < np_numNodes p -> 0 <= s < np_numSwitches p ->
    (n ← attachNodeChannels i n; n ← attachSwitchChannels s q true n; setLocalDelayOnly s q n) = Done n1 ->
    exists e e', linked p (maxChannelIndex n + 2) (maxChannelIndex n) e e' n n1 /\ forall i, e' <> AtNode i).
  { intros i s q Hi Hs. destruct (attachNodeChannels i n) as [a|] eqn:E1; [|done]. cbn [mbind outcome_bind].
    destruct (attachSwitchChannels s q true a) as [b|] eqn:E2; [|done]. cbn [mbind outcome_bind]. intros E3.
    exists (AtNode i), (AtSwitch s q). split; [|done]. eapply attach_pair; try done; lia. }
  destruct from as [i|s q], to as [j|s' q']; cbn [connect] in Cn; [done|by eapply NodeCase|by eapply NodeCase|].
  destruct (attachSwitchChannels s q false n) as [a|] eqn:E1; [|done]. cbn [mbind outcome_bind] in Cn.
  exists (AtSwitch s q), (AtSwitch s' q'). split; [|done]. eapply switch_pair; try done; lia.
Qed.

(** ** Routes and tokens *)

Lemma set_switch_building p k n s w :
  building p k n -> fresh_switch p w -> (forall q, channel (outputPorts w q) = channel (outputPorts (switches n s) q)) ->
  building p k (set_switch s w n).
Proof.
  intros [Np Sw Nd Ch Wi En Dn Lv Mx Id] Fw C. split; try done.
  - intros j. cbn. unfold fset. by destruct (j =? s).
  - intros e c. intros E. apply Wi. rewrite <-E. destruct e as [i|j q]; [done|]. cbn. unfold fset.
    by destruct (Z.eqb_spec j s) as [->|].
Qed.

Lemma add_routes_ok p s node routes n n' :
  building p (maxChannelIndex n) n -> add_routes s node routes n = Done n' ->
  building p (maxChannelIndex n') n'.
Proof.
  revert n. induction routes as [|[port vc] routes IH]; intros n B; cbn [add_routes]; [by intros [= <-]|].
  destruct (negb _); [done|]. destruct (negb _); [done|]. unfold addRoutingEntry.
  destruct (negb _) eqn:G; [done|]. apply negb_false_iff in G.
  repeat apply andb_true_iff in G as [G ?]. rewrite ?Z.ltb_lt, ?Z.leb_le in *.
  destruct (bd_switches _ _ _ B s) as [P St I O Ib D Rt].
  destruct (bool_decide _); [|destruct (_ <? numPorts _ * _); [|done]]; cbn [mbind outcome_bind]; intros E;
    (eapply IH; [|exact E]); apply set_switch_building; try done; split; try done.
  cbn [set_routes routingTable]. intros d r. unfold fset. destruct (d =? node); [|apply Rt].
  intros [Hr|Hr]%elem_of_app; [by eapply Rt|]. apply list_elem_of_singleton in Hr as ->. cbn.
  rewrite <-P. lia.
Qed.

Lemma handle_tokens_ok p ts n n' :
  validateParameters p = true -> building p (maxChannelIndex n) n -> handle_tokens ts n = Done n' ->
  building p (maxChannelIndex n') n'.
Proof.
  intros Vp. revert n. induction ts as [|[from to|s node routes] ts IH]; intros n B; cbn [handle_tokens].
  - by intros [= <-].
  - destruct (handleTopology from to n) as [n1|] eqn:E; [|done]. apply IH. by eapply handleTopology_ok.
  - unfold handleRoute. destruct (negb _); [done|]. destruct (negb _); [done|].
    destruct (add_routes s node routes n) as [n1|] eqn:E; [|done]. apply IH. by eapply add_routes_ok.
Qed.

Lemma newPort_empty b p : newPort b = Done p -> empty_port p /\ channel p = None /\
  forall vc, bufferCount p vc = if ((vc =? 0) || (vc =? 1)) && (b =? INT_MAX) then 1 else b.
Proof.
  unfold newPort. destruct (Z.ltb_spec 0 b); [|done]. intros [= <-]. split; [|done].
  intros vc. cbn. split; [done|]. split; [done|]. destruct (_ && _); lia.
Qed.

Lemma allocate_ok p n :
  allocateNetworkStructures p = Done n ->
  validateParameters p = true /\ maxChannelIndex n = 0 /\ building p 0 n.
Proof.
  unfold allocateNetworkStructures, newSwitch, newNode, newInputPort.
  destruct (validateParameters p) eqn:Vp; [|done]. cbn [negb].
  destruct (negb _) eqn:G; [done|]. apply negb_false_iff in G. repeat apply andb_true_iff in G as [G ?].
  destruct (newPort (np_switchInputBuffers p)) as [pi|] eqn:E1; [|done]. cbn [mbind outcome_bind].
  destruct (newPort (np_switchOutputBuffers p)) as [po|] eqn:E2; [|done]. cbn [mbind outcome_bind].
  destruct (newPort INT_MAX) as [pf|] eqn:E3; [|done]. cbn [mbind outcome_bind].
  destruct (newPort 1) as [pt|] eqn:E4; [|done]. cbn [mbind outcome_bind]. intros [= <-].
  apply newPort_empty in E1 as (P1 & N1 & _), E2 as (P2 & N2 & _), E3 as (P3 & N3 & B3), E4 as (P4 & N4 & _).
  rewrite ?Z.ltb_lt, ?Z.leb_le in *.
  split; [done|]. split; [done|]. split; cbn; try done.
  - intros s. split; cbn; try done. intros d r Hr. by apply not_elem_of_nil in Hr.
  - intros i. split; cbn; try done. intros vc. rewrite B3. by rewrite Z.eqb_refl, andb_true_r.
  - intros e c. destruct e; cbn; congruence.
  - by intros c e [E|E].
  - intros c Hc. lia.
Qed.

(** ** The network that a topology file builds *)

Definition may_carry (n : NetContainer) (c d : Z) : Prop :=
  forall i, toPort (channels n c) = Some (AtNode i) -> d = i.

(** A route through a channel to a node is a route to that node. *)
Definition routes_home (n : NetContainer) : bool :=
  forallb (fun s => forallb (fun d => forallb (fun r =>
    match channel (outputPorts (switches n s) r.1) with
    | Some c => match toPort (channels n c) with Some (AtNode i) => d =? i | _ => true end
    | None => true
    end) (routingTable (switches n s) d)) (below (np_numNodes (np n)))) (below (np_numSwitches (np n))).

Lemma forallb_below n f : forallb f (below n) = true -> forall i, 0 <= i < n -> f i = true.
Proof. intros F i Hi. rewrite forallb_forall in F. apply F, list_elem_of_In. by apply below_spec. Qed.

Lemma existsb_below n f : existsb f (below n) = false -> forall i, 0 <= i < n -> f i = false.
Proof.
  intros F i Hi. destruct (f i) eqn:E; [|done]. rewrite <-F. symmetry. apply existsb_exists. exists i.
  split; [|done]. by apply list_elem_of_In, below_spec.
Qed.

Lemma existsb_false {A} (f : A -> bool) l x : existsb f l = false -> x ∈ l -> f x = false.
Proof.
  intros F Hx. destruct (f x) eqn:E; [|done]. rewrite <-F. symmetry. apply existsb_exists. exists x.
  split; [|done]. by apply list_elem_of_In.
Qed.

Lemma empty_port_ok R p : empty_port p -> port_ok R [] p.
Proof.
  intros E. split; intros vc _; destruct (E vc) as (M & U & B); rewrite ?M, ?U; [done|done|constructor].
Qed.
Lemma empty_input_ok R p : empty_input p -> input_ok R p.
Proof. intros [E Q]. unfold input_ok, delayed. rewrite Q. split; [by apply empty_port_ok|constructor]. Qed.

Lemma empty_load g p : empty_port p -> load g p = 0.
Proof. intros E. apply sum_zero. intros vc _. destruct (E vc) as (-> & _). done. Qed.
Lemma empty_in_load g p : empty_input p -> in_load g p = 0.
Proof. intros [E Q]. unfold in_load, delayed. rewrite Q, empty_load by done. done. Qed.

Lemma fresh_sw_load p g w : fresh_switch p w -> sw_load g w = 0.
Proof.
  intros [P St I O Ib D Rt]. unfold sw_load. rewrite !sum_zero; [done|..]; intros i _.
  - by destruct (Ib i) as (_ & -> & _).
  - by apply empty_load.
  - by apply empty_in_load.
Qed.

Lemma built_network p k n :
  building p k n -> k = maxChannelIndex n -> validateParameters p = true -> validateNetwork n = Done tt ->
  routes_home n = true ->
  (forall R : rule, (forall s d pr, R s d pr -> 0 <= d < np_numNodes p) -> net_ok R (may_carry n) n) /\
  counts_ok n /\ forall g, net_load g n = 0.
Proof.
  intros [Np Sw Nd Ch Wi En Dn Lv Mx Id] -> [_ Pp]%valid_params Va Ho.
  unfold validateNetwork in Va. destruct (existsb _ _ || existsb _ _) eqn:E; [done|].
  apply orb_false_iff in E as [VN VS]. rewrite Np in *. split; [|split].
  - intros R De. split; rewrite ?Np; try done.
    + intros s Hs. pose proof (existsb_below _ _ VS s Hs) as Vs. destruct (Sw s) as [P St I O Ib D Rt].
      split; [|done]. split; rewrite ?P, ?St; try lia.
      * intros q _. by apply empty_input_ok.
      * intros q _. by apply empty_port_ok.
      * intros vc _. destruct (Ib vc) as (-> & -> & _). done.
      * intros vc _. destruct (Ib vc) as (_ & -> & _). constructor.
      * intros d Hd. apply Forall_forall. intros r Hr. destruct (Rt d r Hr) as [H1 H2].
        split; [by rewrite P|]. split; [done|].
        pose proof (existsb_below _ _ Vs d Hd) as Vd. cbn beta in Vd. apply orb_false_iff in Vd as [_ Vd].
        pose proof (existsb_false _ _ _ Vd Hr) as Vr. apply negb_false_iff in Vr. unfold isConnected in Vr.
        destruct (channel (outputPorts (switches n s) r.1)) as [c|] eqn:Ec; [|done]. exists c. split; [done|].
        unfold routes_home in Ho. rewrite Np in Ho.
        pose proof (forallb_below _ _ (forallb_below _ _ Ho s Hs) d Hd) as Hh. cbn beta in Hh.
        rewrite forallb_forall in Hh. specialize (Hh r). rewrite <-list_elem_of_In, Ec in Hh. specialize (Hh Hr).
        intros i Ei. rewrite Ei in Hh. by apply Z.eqb_eq in Hh.
    + intros i Hi. pose proof (existsb_below _ _ VN i Hi) as Vi. destruct (Nd i) as [F T W S].
      unfold checkTopology in Vi. apply orb_false_iff in Vi as [Vi _]. apply negb_false_iff in Vi.
      split; [by apply empty_port_ok|by apply empty_input_ok| |done].
      unfold isConnected in Vi. destruct (channel (fromNodePort (nodes n i))) as [c|] eqn:Ec; [|done].
      exists c. split; [done|]. intros d j Ej. destruct (Wi (AtNode i) c Ec) as [Hc Fc].
      destruct (Lv c i Hc Fc) as (s & q & Es). congruence.
    + intros c Hc. split; [destruct (Ch c) as [B S D U]; split; rewrite ?B, ?S; try done|].
      destruct (Dn c Hc) as [[f Ef] [t Et]]. exists f, t. split_and!; try done; apply (En c); auto.
    + intros e c _. apply Wi.
    + intros c d i H1. apply H1.
  - split; [|split].
    + intros c. rewrite (fresh_untold _ (Ch c)). unfold waiting_at, toldby. rewrite !sum_zero; [done|..]; intros i _.
      * apply sum_zero. intros q _. unfold waits_for. rewrite empty_load by apply Sw. by destruct (decide _).
      * unfold waits_for. rewrite empty_load by apply Nd. by destruct (decide _).
    + intros s _ vc _. destruct (Sw s) as [P St I O Ib D Rt]. destruct (Ib vc) as (_ & _ & ->).
      rewrite sum_zero; [done|]. intros q _. destruct (I q) as [Eq _]. by destruct (Eq vc) as (-> & _).
    + intros i _. destruct (Nd i) as [F T W S]. rewrite W, empty_load; [done|apply T].
  - intros g. unfold net_load. rewrite !sum_zero; [done|..]; intros i _.
    + by eapply fresh_sw_load.
    + unfold node_load. destruct (Nd i) as [F T W S]. by rewrite empty_load, empty_in_load.
Qed.

(** The component that starts on it. *)
Lemma network_starts V p ts w :
  network_initialize V p ts = Done w -> routes_home (nc w) = true ->
  comp_ok (may_carry (nc w)) [] [] w /\ VChannels w = V /\ np (nc w) = p /\ delivered w = [].
Proof.
  unfold network_initialize, buildNetwork.
  destruct (allocateNetworkStructures p) as [n0|] eqn:E0; [|done]. cbn [mbind outcome_bind].
  destruct (handle_tokens ts n0) as [n|] eqn:E1; [|done]. cbn [mbind outcome_bind].
  destruct (validateNetwork n) as [[]|] eqn:E2; [|done]. intros [= <-]. cbn [nc]. intros Ho.
  apply allocate_ok in E0 as (Vp & M0 & B0). rewrite <-M0 in B0.
  pose proof (handle_tokens_ok p ts n0 n Vp B0 E1) as B.
  destruct (built_network p _ n B eq_refl Vp E2 Ho) as (Nt & Ct & L). pose proof (bd_np _ _ _ B) as Np.
  destruct (bd_idle _ _ _ B) as [Ea Ek].
  split; [|done]. split; cbn [nc transports msSerial VChannels delivered]; rewrite ?Ea, ?Ek; try done.
  - apply Nt. rewrite Np. intros s d pr (_ & Hd & _). done.
  - intros i Hi. cbn in Hi. lia.
  - constructor.
  - split; [constructor|]. intros s. split; [by intros ?%not_elem_of_nil|by intros []].
Qed.
