(* ===== verification/Network.v ===== *)
(** * What the network promises

    Runs of the component [MemoryNetwork]: its neighbours push packets to ports that
    are available, and it is driven.  For every network that a topology file builds
    with routes that lead home, no assertion fails, no buffer overflows, every packet
    is in the network once or has been delivered once, where it was to go; and two
    behaviours of the switches that the comments exclude. *)

From stdpp Require Import base gmap list strings fin_maps.
From Stdlib Require Import ZArith Lia.
From S2P Require Import Prelude NetPort NetSwitch NetShim NetInvariant NetSwitching NetRuns NetDelivery NetBuild.

Local Open Scope Z_scope.

Inductive net_event : Type :=
  | Send (idx : Z) (fast : bool) (t : NetworkMessage)
  | Tick (avail : list (Z * NetworkMessage) -> Z -> bool).

(** A neighbour pushes only to a port that is available.  The result has the packets
    that were pushed. *)
Fixpoint run_events (now : Z) (evs : list net_event) (w : MemoryNetwork) (hist : list NetworkMessage)
    : outcome (MemoryNetwork * list NetworkMessage) :=
  match evs with
  | [] => Done (w, hist)
  | Send idx fast t :: evs =>
      free ← available_FromNode idx w;
      if (free : bool) then
        w ← push_FromNode now fast idx t w;
        run_events now evs w (hist ++ [t])
      else run_events now evs w hist
  | Tick avail :: evs =>
      w ← net_drive now avail w;
      run_events (now + 1) evs w hist
  end.

Definition event_ok (V nn : Z) (e : net_event) : Prop :=
  match e with Send idx _ t => packet_ok V nn idx t | Tick _ => True end.

(** ** Runs keep the invariant *)

Lemma run_events_ok H V p evs now w hist :
  (exists D, comp_ok H hist D w) -> VChannels w = V -> np (nc w) = p -> 0 < V <= MAX_PROT_VC ->
  Forall (event_ok V (np_numNodes p)) evs -> Z.of_nat (length hist) + Z.of_nat (length evs) < INT_MAX ->
  ends (fun r => (exists D, comp_ok H r.2 D r.1) /\ VChannels r.1 = V /\ np (nc r.1) = p) (run_events now evs w hist).
Proof.
  intros C E1 E2 HV F. revert now w hist C E1 E2.
  induction F as [|[idx fast t|avail] evs He F IH]; intros now w hist [D C] E1 E2 B; cbn [run_events length] in *.
  - cbn. split; [by exists D|done].
  - cbn [event_ok] in He. destruct He as (Es & Ev & He).
    assert (Av : exists free, available_FromNode idx w = Done free).
    { unfold available_FromNode. rewrite E1, <-Ev. rewrite hasBufferSpace_valid; [by eexists|].
      apply valid_vc_spec. pose proof (Z.mod_pos_bound idx V ltac:(lia)). rewrite <-Ev in *.
      unfold MAX_VC, MAX_PROT_VC, MAX_NET_VC in *. lia. }
    destruct Av as [free Av]. rewrite Av. cbn [mbind outcome_bind]. destruct free.
    + eapply ends_bind; [apply (push_ok H hist D now fast idx t w C)|].
      * by rewrite E1.
      * rewrite E1, E2. done.
      * lia.
      * done.
      * intros w' (C' & V' & N' & _). apply IH; [by exists D|congruence|congruence|].
        rewrite length_app. cbn. lia.
    + apply IH; [by exists D|done|done|lia].
  - eapply ends_bind; [apply (net_drive_ok H hist now avail w); by exists D|].
    intros w' (C' & V' & N' & _). apply IH; [done|congruence|congruence|lia].
Qed.

(** The buffers of a network, in use and at most in use. *)
Definition buffers_bounded (n : NetContainer) : Prop :=
  (forall e vc, valid_end (np n) e -> valid_vc vc = true ->
     buffersUsed (output_at e n) vc = qlen (msl (output_at e n) vc) /\
     buffersUsed (output_at e n) vc <= bufferCount (output_at e n) vc /\
     buffersUsed (in_port (input_at e n)) vc
       = qlen (msl (in_port (input_at e n)) vc) + times vc (networkVC <$> delayed (input_at e n)) /\
     buffersUsed (in_port (input_at e n)) vc <= bufferCount (in_port (input_at e n)) vc) /\
  (forall s vc, 0 <= s < np_numSwitches (np n) -> valid_vc vc = true ->
     ib_used (switches n s) vc = qlen (ageBuffer (switches n s) vc) /\
     ib_used (switches n s) vc <= ib_count (switches n s)).

Lemma net_ok_bounded R H n : net_ok R H n -> buffers_bounded n.
Proof.
  intros Ok. split.
  - intros e vc Ve V. pose proof (output_rule R H n e Ok Ve) as O. destruct (input_rule R H n e Ok Ve) as [I _].
    split_and!; [|by apply O|by apply I|by apply I]. rewrite (port_used _ _ _ O _ V). cbn. lia.
  - intros s vc Hs V. destruct (net_switches _ _ _ Ok s Hs) as [Os _]. by apply (sw_used _ _ _ _ Os).
Qed.

(** The transports are those of the active messages. *)
Lemma quiescent H hist D w :
  comp_ok H hist D w ->
  isQuiesced w = networkEmpty (nc w) /\
  (isQuiesced w = true <-> length (delivered w) = length hist) /\
  (isQuiesced w = true <-> net_load one (nc w) = 0).
Proof.
  intros C. destruct (co_active _ _ _ _ C) as [_ Ac].
  assert (Em : transports w = ∅ <-> activeList (nc w) = []).
  { split; intros E.
    - destruct (activeList (nc w)) as [|s l]; [done|]. destruct (proj1 (Ac s)) as [t Et]; [apply list_elem_of_here|].
      by rewrite E in Et.
    - apply map_empty. intros s. destruct (transports w !! s) as [t|] eqn:Et; [|done].
      assert (Hs : s ∈ activeList (nc w)) by (apply Ac; by eexists). rewrite E in Hs. by apply not_elem_of_nil in Hs. }
  assert (Len : length (delivered w) = length D) by (symmetry; eapply Forall2_length, C).
  assert (In : forall i, i ∈ D -> (i < length hist)%nat).
  { intros i Hi. apply list_elem_of_lookup_1 in Hi as [k Hk].
    destruct (Forall2_lookup_l _ _ _ _ _ (co_delivered _ _ _ _ C) Hk) as (pt & _ & Hp & _).
    by apply lookup_lt_Some in Hp. }
  unfold isQuiesced, networkEmpty. split; [|split].
  - destruct (activeList (nc w)) eqn:E; [by rewrite bool_decide_true by tauto|].
    rewrite bool_decide_false; [done|]. intros T. by apply Em in T.
  - rewrite bool_decide_eq_true, Len. split; intros E.
    + apply Nat.le_antisymm.
      * rewrite <-(length_seq (length hist) 0). apply NoDup_incl_length; [apply NoDup_ListNoDup, C|].
        intros i Hi. apply in_seq. apply list_elem_of_In, In in Hi. lia.
      * rewrite <-(length_seq (length hist) 0) at 1. apply NoDup_incl_length; [apply NoDup_ListNoDup, NoDup_seq|].
        intros i Hi%in_seq. apply list_elem_of_In. destruct (co_fate _ _ _ _ C i) as [|[t Ht]]; [lia|done|].
        by rewrite E in Ht.
    + apply map_empty. intros s. destruct (transports w !! s) as [t|] eqn:Et; [|done]. exfalso.
      destruct (co_transports _ _ _ _ C _ _ Et) as [Hs Eh]. apply lookup_lt_Some in Eh.
      assert (Sub : incl (seq 0 (length hist)) D).
      { apply NoDup_length_incl; [apply NoDup_ListNoDup, C|rewrite length_seq; lia|].
        intros i Hi. apply in_seq. apply list_elem_of_In, In in Hi. lia. }
      assert (Hi : Z.to_nat s ∈ D) by (apply list_elem_of_In, Sub, in_seq; lia).
      pose proof (co_gone _ _ _ _ C _ Hi) as G. rewrite Z2Nat.id in G by done. congruence.
  - rewrite bool_decide_eq_true, Em, (co_total _ _ _ _ C), (co_number _ _ _ _ C).
    destruct (activeList (nc w)); cbn; split; intros; try done; lia.
Qed.

Section built.
Context (V : Z) (p : NetParams) (ts : list top_token) (w : MemoryNetwork).
Context (Start : network_initialize V p ts = Done w) (Home : routes_home (nc w) = true).
Context (evs : list net_event).
Context (Few : 0 < V <= MAX_PROT_VC) (Good : Forall (event_ok V (np_numNodes p)) evs).
Context (Short : Z.of_nat (length evs) < INT_MAX).

Lemma built_run :
  ends (fun r => (exists D, comp_ok (may_carry (nc w)) r.2 D r.1) /\ VChannels r.1 = V /\ np (nc r.1) = p)
    (run_events 0 evs w []).
Proof using All.
  destruct (network_starts V p ts w Start Home) as (C & E1 & E2 & _).
  apply run_events_ok; try done. by exists [].
Qed.

(** C8 Whatever is pushed to available ports of a network that a topology file built with
    routes that lead home, and whenever the nodes accept what arrives, the network
    never stops with a failing assertion, a buffer in use is one message, waiting or
    under way, and no more buffers are in use than there are. *)
Theorem network_never_asserts :
  exists w' hist, run_events 0 evs w [] = Done (w', hist) /\ buffers_bounded (nc w').
Proof using All.
  pose proof built_run as E. destruct (run_events 0 evs w []) as [[w' hist]|]; [|done].
  destruct E as ([D C] & _ & _). exists w', hist. split; [done|]. by eapply net_ok_bounded, co_net.
Qed.

(** C9 After any run, a packet that was pushed is in the network exactly once and has
    not been delivered, or it is nowhere in the network and has been delivered exactly
    once, to the port of its virtual channel at its destination. *)
Theorem packets_are_conserved :
  exists w' hist D, run_events 0 evs w [] = Done (w', hist) /\
    NoDup D /\ Forall2 (delivers V hist) D (delivered w') /\
    forall i, (i < length hist)%nat ->
      (i ∈ D /\ net_load (numbered (Z.of_nat i)) (nc w') = 0) \/
      (i ∉ D /\ net_load (numbered (Z.of_nat i)) (nc w') = 1).
Proof using All.
  pose proof built_run as E. destruct (run_events 0 evs w []) as [[w' hist]|]; [|done].
  destruct E as ([D C] & <- & _). cbn [fst snd] in *. exists w', hist, D. split; [done|].
  split; [apply C|]. split; [apply C|]. intros i Hi. rewrite (co_once _ _ _ _ C).
  destruct (co_fate _ _ _ _ C i Hi) as [Di|Ti].
  - left. split; [done|]. rewrite decide_False; [done|]. rewrite (co_gone _ _ _ _ C i Di). by intros [].
  - right. rewrite decide_True by done. split; [|done]. intros Di. rewrite (co_gone _ _ _ _ C i Di) in Ti. by destruct Ti.
Qed.

(** C29 A cycle pushes a packet only to a port that was available when the packet was
    pushed: the virtual channel whose availability a node asks about is the one of the
    packet that it then delivers. *)
Theorem delivers_when_available (now : Z) (avail : list (Z * NetworkMessage) -> Z -> bool) :
  exists w' hist w'', run_events 0 evs w [] = Done (w', hist) /\ net_drive now avail w' = Done w'' /\
    accepted avail (delivered w') (delivered w'').
Proof using All.
  pose proof built_run as E. destruct (run_events 0 evs w []) as [[w' hist]|]; [|done].
  destruct E as (C & _ & _). exists w', hist. pose proof (net_drive_ok _ _ now avail w' C) as K.
  destruct (net_drive now avail w') as [w''|]; [|done]. exists w''. split; [done|]. split; [done|]. apply K.
Qed.

(** C30 The component says that it is quiescent exactly when the container is empty,
    and then every packet has been delivered and no buffer anywhere holds a message. *)
Theorem quiescent_is_empty :
  exists w' hist, run_events 0 evs w [] = Done (w', hist) /\
    isQuiesced w' = networkEmpty (nc w') /\
    (isQuiesced w' = true <-> length (delivered w') = length hist) /\
    (isQuiesced w' = true <-> net_load one (nc w') = 0).
Proof using All.
  pose proof built_run as E. destruct (run_events 0 evs w []) as [[w' hist]|]; [|done].
  destruct E as ([D C] & _ & _). cbn [fst snd] in C. exists w', hist. split; [done|]. by eapply quiescent.
Qed.
End built.

(** ** A concrete network *)

(** Three nodes at the three ports of one switch. *)
Definition star_params : NetParams := mkParams 2 3 1 0 1 3 1 2 2 4 1 3.
Definition star_tokens : list top_token :=
  [Top (AtNode 0) (AtSwitch 0 0); Top (AtNode 1) (AtSwitch 0 1); Top (AtSwitch 0 2) (AtNode 2);
   Route 0 0 [(0, 0); (0, 1)]; Route 0 1 [(1, 0)]; Route 0 2 [(2, 0)]].

Definition packet (src dest vc : Z) : NetworkMessage := mkNetworkMessage src dest vc 8 0 0.
Definition send (src dest vc : Z) : net_event := Send (src * 3 + vc) false (packet src dest vc).
Definition tick : net_event := Tick (fun _ _ => true).
Definition star_events : list net_event :=
  [send 0 1 0; send 1 0 1; tick; tick; send 2 1 0; tick; tick; tick; tick; tick; tick; tick].

Definition done_and {A} (f : A -> bool) (o : outcome A) : bool := match o with Done a => f a | Assert _ => false end.

Lemma done_and_true {A} (f : A -> bool) o : done_and f o = true -> exists a, o = Done a /\ f a = true.
Proof. destruct o as [a|]; [|done]. by exists a. Qed.

Definition star_check (w : MemoryNetwork) : bool :=
  routes_home (nc w) && done_and (fun r => Z.of_nat (length (delivered r.1)) =? 3) (run_events 0 star_events w []).
Example star_delivers : done_and star_check (network_initialize 3 star_params star_tokens) = true.
Proof. vm_compute. reflexivity. Qed.

Lemma star_starts : exists w w' hist,
  network_initialize 3 star_params star_tokens = Done w /\ routes_home (nc w) = true /\
  run_events 0 star_events w [] = Done (w', hist) /\ Z.of_nat (length (delivered w')) = 3.
Proof.
  destruct (done_and_true star_check (network_initialize 3 star_params star_tokens) star_delivers)
    as (w & E & C). unfold star_check in C. apply andb_true_iff in C as [Ho R].
  destruct (done_and_true _ _ R) as ([w' hist] & E' & L). apply Z.eqb_eq in L. exists w, w', hist.
  split; [exact E|]. split; [exact Ho|]. split; [exact E'|exact L].
Qed.

Lemma star_events_ok : Forall (event_ok 3 3) star_events.
Proof.
  assert (S : forall src dest vc, 0 <= src < 3 -> 0 <= dest < 3 -> 0 <= vc < 3 -> event_ok 3 3 (send src dest vc)).
  { intros src dest vc Hs Hd Hv. cbn. unfold packet_ok. cbn [nm_src nm_vc nm_dest nm_size nm_src_port nm_dst_port packet].
    rewrite Z.div_add_l, Z.div_small, (Z.add_comm (src * 3)), Z.mod_add, Z.mod_small by lia. lia. }
  repeat (constructor; [first [apply S; lia | done]|]). constructor.
Qed.

Lemma star_few : 0 < 3 <= MAX_PROT_VC.
Proof. done. Qed.
Lemma star_short : Z.of_nat (length star_events) < INT_MAX.
Proof. vm_compute. reflexivity. Qed.

Lemma network_never_asserts_witness : exists w w' hist,
  network_initialize 3 star_params star_tokens = Done w /\
  run_events 0 star_events w [] = Done (w', hist) /\ buffers_bounded (nc w').
Proof.
  destruct star_starts as (w & _ & _ & E & Ho & _). exists w.
  destruct (network_never_asserts 3 star_params star_tokens w E Ho star_events star_few star_events_ok star_short)
    as (w' & hist & R & B).
  exists w', hist. split; [exact E|]. split; [exact R|exact B].
Defined.

Lemma packets_are_conserved_witness : exists w w' hist D,
  network_initialize 3 star_params star_tokens = Done w /\
  run_events 0 star_events w [] = Done (w', hist) /\ NoDup D /\ length D = 3%nat /\
  Forall2 (delivers 3 hist) D (delivered w').
Proof.
  destruct star_starts as (w & w1 & hist1 & E & Ho & R & L). exists w.
  destruct (packets_are_conserved 3 star_params star_tokens w E Ho star_events star_few star_events_ok star_short)
    as (w' & hist & D & R' & ND & De & _). exists w', hist, D. split; [exact E|]. split; [exact R'|]. split; [exact ND|].
  split; [|exact De]. rewrite R in R'. injection R' as <- <-. rewrite (Forall2_length _ _ _ De). lia.
Defined.

Lemma delivers_when_available_witness : exists w w' hist w'',
  network_initialize 3 star_params star_tokens = Done w /\
  run_events 0 star_events w [] = Done (w', hist) /\ net_drive 9 (fun _ _ => false) w' = Done w'' /\
  accepted (fun _ _ => false) (delivered w') (delivered w'').
Proof.
  destruct star_starts as (w & _ & _ & E & Ho & _). exists w.
  destruct (delivers_when_available 3 star_params star_tokens w E Ho star_events star_few star_events_ok star_short
    9 (fun _ _ => false)) as (w' & hist & w'' & R & N & A).
  exists w', hist, w''. split; [exact E|]. split; [exact R|]. split; [exact N|exact A].
Defined.

Lemma quiescent_is_empty_witness : exists w w' hist,
  network_initialize 3 star_params star_tokens = Done w /\
  run_events 0 star_events w [] = Done (w', hist) /\
  (isQuiesced w' = true <-> length (delivered w') = length hist).
Proof.
  destruct star_starts as (w & _ & _ & E & Ho & _). exists w.
  destruct (quiescent_is_empty 3 star_params star_tokens w E Ho star_events star_few star_events_ok star_short)
    as (w' & hist & R & _ & Q & _).
  exists w', hist. split; [exact E|]. split; [exact R|exact Q].
Defined.

(** ** Two behaviours of the switches *)

(** The bandwidth of a star's switch, and how many messages cross it in a cycle. *)
Definition crossed (evs : list net_event) : outcome (Z * Z) :=
  w ← network_initialize 3 star_params star_tokens;
  '(w, _) ← run_events 0 evs w [];
  '(_, told) ← switch_drive 2 (switches (nc w) 0);
  Done (crossbarBandwidth (switches (nc w) 0), Z.of_nat (length told)).

(** The crossbar of a switch passes more messages in a cycle than its bandwidth:
    when the bandwidth is used up by one virtual channel, the loop over the ports of the
    next one runs at least once, takes it below zero, and then has no bound. *)
Theorem crossbar_bandwidth_exceeded :
  crossed [send 0 1 2; send 1 0 0; send 2 0 0; tick; tick] = Done (1, 3).
Proof. vm_compute. reflexivity. Qed.

(** A switch with three messages of one virtual channel in its internal buffer, oldest
    first, for a node whose output port is free. *)
Definition message (n : Z) : MessageState := mkMsg 0 1 0 0 (-1) (-1) 1 false n 0 0 0 0 0.
Definition backlog : outcome NetSwitch :=
  w ← newSwitch 2 2 2 4 3 8 1;
  let w := set_output 1 (setChannel 0 (outputPorts w 1)) w in
  w ← addRoutingEntry 2 1 1 0 w;
  w ← ib_insertMessage 0 (message 0) w;
  w ← ib_insertMessage 0 (message 1) w;
  ib_insertMessage 0 (message 2) w.

(** Of the messages of an internal buffer that could all be sent, a switch sends
    every second one: the loop moves on after the removal has moved on already.  The
    third message leaves before the second, although the arbitration is said to be fair
    and free of inversion. *)
Theorem internal_buffer_overtakes :
  (w ← backlog;
   '(w1, _) ← switch_drive 1 w;
   '(w2, _) ← switch_drive 2 w1;
   Done (serial <$> msl (outputPorts w1 1) 0, serial <$> ageBuffer w1 0, serial <$> msl (outputPorts w2 1) 0))
  = Done ([0; 2], [1], [0; 2; 1]).
Proof. vm_compute. reflexivity. Qed.
