(* ===== verification/TimingQueues.v ===== *)
(** * Queues of the timing caches

    components/CommonQEMU/MessageQueues.hpp: message queues, whose slots can be
    reserved before the message is there (Module [MQ]), and pipelines, which accept an
    item when one of their servers is free and deliver it after their latency (Module
    [Fifo]).  The counters of a message queue are 32 bits wide and wrap.  The cycle
    count of the simulator is an argument; times are 64-bit in the code and do not
    overflow.  Reading the front of an empty list is undefined in the code and ends
    the run like a failing assertion. *)

From stdpp Require Import base list strings.
From Stdlib Require Import ZArith Lia.
From S2P Require Import Prelude.

Local Open Scope Z_scope.

Definition uint32 (x : Z) : Z := x mod 2 ^ 32.

Lemma uint32_small x : 0 <= x < 2 ^ 32 -> uint32 x = x.
Proof. apply Z.mod_small. Qed.

Lemma uint32_range x : 0 <= uint32 x < 2 ^ 32.
Proof. by apply Z.mod_pos_bound. Qed.

Module MQ.

Record MessageQueue (T : Type) : Type := mkQueue {
  theQueue : list (T * Z);
  theSize : Z;
  theCurrentUsage : Z;
  theCurrentReserve : Z;
}.
Arguments mkQueue {T} _ _ _ _.
Arguments theQueue {T} _.
Arguments theSize {T} _.
Arguments theCurrentUsage {T} _.
Arguments theCurrentReserve {T} _.

Section queue.
Context {T : Type}.
Implicit Types q : MessageQueue T.

Definition newQueue (aSize : Z) : MessageQueue T := mkQueue [] aSize 0 0.

(** The two assertions on the counters; the message to be sent is in neither. *)
Definition check_usage q : outcome () :=
  if theCurrentUsage q <=? theCurrentReserve q then Done ()
  else Assert "theCurrentReserve >= theCurrentUsage".
Definition check_size q : outcome () :=
  if theCurrentReserve q <=? theSize q then Done () else Assert "theCurrentReserve <= theSize".

Definition enqueue (now : Z) (aMessage : T) q : outcome (MessageQueue T) :=
  let q := mkQueue (theQueue q ++ [(aMessage, now)]) (theSize q) (uint32 (theCurrentUsage q + 1))
             (uint32 (theCurrentReserve q + 1)) in
  check_usage q;; check_size q;; Done q.

Definition dequeue q : outcome (T * MessageQueue T) :=
  match theQueue q with
  | [] => Assert "!theQueue.empty()"
  | (m, _) :: rest =>
      let q := mkQueue rest (theSize q) (uint32 (theCurrentUsage q - 1))
                 (uint32 (theCurrentReserve q - 1)) in
      check_usage q;; Done (m, q)
  end.

Definition peek q : outcome T :=
  match theQueue q with [] => Assert "front of an empty queue" | (m, _) :: _ => Done m end.

Definition hasSpace (msgs : Z) q : bool := uint32 (theCurrentReserve q + msgs) <=? theSize q.

Definition headTimestamp q : outcome Z :=
  match theQueue q with [] => Assert "!theQueue.empty()" | (_, t) :: _ => Done t end.

Definition empty q : bool := match theQueue q with [] => true | _ => false end.

Definition full (anAdditionalReserve : Z) q : bool :=
  theSize q <=? uint32 (theCurrentReserve q + anAdditionalReserve).

Definition reserve_n (n : Z) q : outcome (MessageQueue T) :=
  let q := mkQueue (theQueue q) (theSize q) (theCurrentUsage q) (uint32 (theCurrentReserve q + n)) in
  check_usage q;; check_size q;; Done q.
Definition reserve q : outcome (MessageQueue T) := reserve_n 1 q.

(** The code asserts also that the counter, which is unsigned, is not negative. *)
Definition unreserve_n (n : Z) q : outcome (MessageQueue T) :=
  let q := mkQueue (theQueue q) (theSize q) (theCurrentUsage q) (uint32 (theCurrentReserve q - n)) in
  check_usage q;; Done q.
Definition unreserve q : outcome (MessageQueue T) := unreserve_n 1 q.

Definition getReserve q : Z := theCurrentReserve q - theCurrentUsage q.
Definition getFreeSpace q : Z := theSize q - theCurrentReserve q.

(** ** The counters count

    [queue_ok n q]: the queue's counters are its messages and [n] reservations, and
    there is room for both. *)
Record queue_ok (n : Z) q : Prop := {
  q_usage : theCurrentUsage q = Z.of_nat (length (theQueue q));
  q_reserve : theCurrentReserve q = theCurrentUsage q + n;
  q_room : theCurrentReserve q <= theSize q;
  q_width : theSize q < 2 ^ 32;
  q_nonneg : 0 <= n;
}.

Lemma queue_new_ok aSize : 0 <= aSize < 2 ^ 32 -> queue_ok 0 (newQueue aSize).
Proof using. intros H. split; cbn; lia. Qed.

Lemma full_ok n k q :
  queue_ok n q -> 0 <= k -> Z.of_nat (length (theQueue q)) + n + k <= theSize q ->
  full k q = (theSize q <=? Z.of_nat (length (theQueue q)) + n + k).
Proof using. intros [U R H W N] Hk L. unfold full. rewrite uint32_small by lia. by rewrite R, U. Qed.

Lemma reserve_ok n q :
  queue_ok n q -> full 0 q = false ->
  exists q', reserve q = Done q' /\ queue_ok (n + 1) q' /\ theQueue q' = theQueue q /\ theSize q' = theSize q.
Proof using.
  intros K F. pose proof K as [U R H W N]. rewrite (full_ok n) in F by (done || lia).
  apply Z.leb_gt in F. unfold reserve, reserve_n. rewrite uint32_small by lia.
  unfold check_usage, check_size. cbn. rewrite (proj2 (Z.leb_le _ _)) by lia. cbn.
  rewrite (proj2 (Z.leb_le _ _)) by lia. cbn. eexists. split; [done|]. split; [|done].
  split; cbn; lia.
Qed.

Lemma unreserve_ok n q :
  queue_ok n q -> 0 < n ->
  exists q', unreserve q = Done q' /\ queue_ok (n - 1) q' /\ theQueue q' = theQueue q /\ theSize q' = theSize q.
Proof using.
  intros K Hn. pose proof K as [U R H W N]. unfold unreserve, unreserve_n. rewrite uint32_small by lia.
  unfold check_usage. cbn. rewrite (proj2 (Z.leb_le _ _)) by lia. cbn. eexists. split; [done|].
  split; [|done]. split; cbn; lia.
Qed.

Lemma enqueue_ok n now m q :
  queue_ok n q -> Z.of_nat (length (theQueue q)) + n < theSize q ->
  exists q', enqueue now m q = Done q' /\ queue_ok n q' /\
    theQueue q' = theQueue q ++ [(m, now)] /\ theSize q' = theSize q.
Proof using.
  intros K L. pose proof K as [U R H W N]. unfold enqueue. rewrite !uint32_small by lia.
  unfold check_usage, check_size. cbn. rewrite (proj2 (Z.leb_le _ _)) by lia. cbn.
  rewrite (proj2 (Z.leb_le _ _)) by lia. cbn. eexists. split; [done|]. split; [|done].
  split; cbn; rewrite ?length_app; cbn; lia.
Qed.

Lemma dequeue_ok n q m t rest :
  queue_ok n q -> theQueue q = (m, t) :: rest ->
  exists q', dequeue q = Done (m, q') /\ queue_ok n q' /\ theQueue q' = rest /\ theSize q' = theSize q.
Proof using.
  intros K E. pose proof K as [U R H W N]. unfold dequeue. rewrite E. rewrite E in U. cbn in U.
  rewrite !uint32_small by lia. unfold check_usage. cbn. rewrite (proj2 (Z.leb_le _ _)) by lia. cbn.
  eexists. split; [done|]. split; [|done]. split; cbn; lia.
Qed.

Lemma empty_spec q : empty q = true <-> theQueue q = [].
Proof using. unfold empty. by destruct (theQueue q). Qed.

End queue.
End MQ.

Module Fifo.

Record PipelineFifo (Item : Type) : Type := mkFifo {
  theQueue : list (Item * Z);
  theServerReadyTimes : list Z;
  theCurrentSize : Z;
  theIssueLatency : Z;
  theLatency : Z;
  theLastArrival : Z;
}.
Arguments mkFifo {Item} _ _ _ _ _ _.
Arguments theQueue {Item} _.
Arguments theServerReadyTimes {Item} _.
Arguments theCurrentSize {Item} _.
Arguments theIssueLatency {Item} _.
Arguments theLatency {Item} _.
Arguments theLastArrival {Item} _.

Section fifo.
Context {Item : Type}.
Implicit Types p : PipelineFifo Item.

Definition newFifo (aNumPipelines anIssueLatency aLatency : Z) : outcome (PipelineFifo Item) :=
  if negb (0 <? aNumPipelines) then Assert "aNumPipelines > 0"
  else if negb (1 <=? anIssueLatency) then Assert "theIssueLatency >= 1"
  else Done (mkFifo [] (repeat 0 (Z.to_nat aNumPipelines)) 0 anIssueLatency aLatency 0).

(** One server after another is taken for the repeated accesses. *)
Fixpoint take_servers (curr issue : Z) (i : Z) (n : nat) (times : list Z) : outcome (list Z) :=
  match n with
  | O => Done times
  | S n =>
      match times with
      | [] => Assert "pop_front of an empty list"
      | _ :: times => take_servers curr issue (i + 1) n (times ++ [curr + issue * (i + 1)])
      end
  end.

Definition enqueue (curr : Z) (anItem : Item) (aRepeatCount : Z) p : outcome (PipelineFifo Item) :=
  match theServerReadyTimes p with
  | [] => Assert "front of an empty list"
  | front :: _ =>
      if negb (front <=? curr) then Assert "theServerReadyTimes.front() <= curr"
      else
        times ← take_servers curr (theIssueLatency p) 0 (Z.to_nat aRepeatCount) (theServerReadyTimes p);
        Done (mkFifo (theQueue p ++ [(anItem, curr + theLatency p * aRepeatCount)]) times
                (theCurrentSize p + 1) (theIssueLatency p) (theLatency p) curr)
  end.

Definition ready (curr : Z) p : outcome bool :=
  if theCurrentSize p =? 0 then Done false
  else match theQueue p with
       | [] => Assert "front of an empty list"
       | (_, complete) :: _ => Done (complete <=? curr)
       end.

Definition dequeue p : outcome (Item * PipelineFifo Item) :=
  match theQueue p with
  | [] => Assert "front of an empty list"
  | (x, _) :: rest =>
      Done (x, mkFifo rest (theServerReadyTimes p) (theCurrentSize p - 1) (theIssueLatency p)
                 (theLatency p) (theLastArrival p))
  end.

Definition peek p : outcome Item :=
  match theQueue p with [] => Assert "front of an empty list" | (x, _) :: _ => Done x end.

Definition stall p : PipelineFifo Item :=
  mkFifo (theQueue p) ((fun t => t + 1) <$> theServerReadyTimes p) (theCurrentSize p)
    (theIssueLatency p) (theLatency p) (theLastArrival p).

Definition serverAvail (curr : Z) p : outcome bool :=
  match theServerReadyTimes p with
  | [] => Assert "front of an empty list"
  | front :: _ => Done (front <=? curr)
  end.

Definition empty p : bool := theCurrentSize p =? 0.
Definition size p : Z := theCurrentSize p.

(** ** Well-formed pipelines

    There is a server, and the size is the number of items. *)
Record fifo_ok p : Prop := {
  f_servers : theServerReadyTimes p <> [];
  f_issue : 1 <= theIssueLatency p;
  f_size : theCurrentSize p = Z.of_nat (length (theQueue p));
}.

(** The servers that are free at a time. *)
Definition free_servers (now : Z) p : nat := length (filter (fun t => t <= now) (theServerReadyTimes p)).

Lemma fifo_new_ok n issue lat p : newFifo n issue lat = Done p -> fifo_ok p /\ theQueue p = [].
Proof using.
  unfold newFifo. destruct (Z.ltb_spec 0 n); [|done]. destruct (Z.leb_spec 1 issue); [|done].
  intros [= <-]. split; [|done]. split; [|done..]. cbn. intros E. apply (f_equal length) in E.
  rewrite repeat_length in E. cbn in E. lia.
Qed.

Lemma take_servers_total curr issue n i times :
  times <> [] -> exists times', take_servers curr issue i n times = Done times' /\ times' <> [].
Proof using.
  revert i times. induction n as [|n IH]; intros i times N; [by exists times|]. cbn.
  destruct times as [|t times]; [done|]. apply IH. by destruct times.
Qed.

Lemma fifo_enqueue_ok now x r p :
  fifo_ok p -> serverAvail now p = Done true ->
  exists p', enqueue now x r p = Done p' /\ fifo_ok p' /\ fst <$> theQueue p' = (fst <$> theQueue p) ++ [x].
Proof using.
  intros [S I L] A. unfold enqueue, serverAvail in *. destruct (theServerReadyTimes p) as [|t ts] eqn:E; [done|].
  injection A as ->. cbn [negb].
  destruct (take_servers_total now (theIssueLatency p) (Z.to_nat r) 0 (t :: ts)) as (ts' & -> & N); [done|].
  eexists. split; [done|]. split; [|cbn [theQueue]; by rewrite fmap_app]. split; cbn; [done..|].
  rewrite length_app. cbn. lia.
Qed.

(** With one access an item takes one server. *)
Lemma enqueue_takes now x p p' :
  fifo_ok p -> enqueue now x 1 p = Done p' -> S (free_servers now p') = free_servers now p.
Proof using.
  intros [S I L]. unfold enqueue, free_servers. destruct (theServerReadyTimes p) as [|t ts] eqn:E; [done|].
  destruct (Z.leb_spec t now); [|done]. intros [= <-]. cbn [theServerReadyTimes app].
  rewrite filter_cons_True by done. rewrite filter_app, filter_cons_False by lia. by rewrite app_nil_r.
Qed.

Lemma fifo_dequeue_ok p x t rest :
  fifo_ok p -> theQueue p = (x, t) :: rest ->
  exists p', dequeue p = Done (x, p') /\ fifo_ok p' /\ theQueue p' = rest /\
    theServerReadyTimes p' = theServerReadyTimes p.
Proof using.
  intros [S I L] E. unfold dequeue. rewrite E. eexists. split; [done|]. split; [|done].
  split; cbn; [done..|]. rewrite E in L. cbn in L. lia.
Qed.

Lemma stall_ok p : fifo_ok p -> fifo_ok (stall p) /\ theQueue (stall p) = theQueue p.
Proof using.
  intros [S I L]. split; [|done]. split; [|done..]. cbn. by destruct (theServerReadyTimes p).
Qed.

Lemma ready_total now p : fifo_ok p -> exists b, ready now p = Done b /\ (b = true -> theQueue p <> []).
Proof using.
  intros [S I L]. unfold ready. destruct (Z.eqb_spec (theCurrentSize p) 0); [by exists false|].
  destruct (theQueue p) as [|[x t] rest]; [cbn in L; lia|]. by eexists.
Qed.

Lemma serverAvail_total now p : fifo_ok p -> exists b, serverAvail now p = Done b.
Proof using.
  intros [S I L]. unfold serverAvail. destruct (theServerReadyTimes p); [done|]. by eexists.
Qed.

End fifo.
End Fifo.
