(* ===== verification/CacheBuffers.v ===== *)
(** * Buffers of the timing caches

    components/Cache/CacheBuffers.hpp: the buffer of evicted blocks (Module [EB]), the
    buffer of snoops in progress (Module [SB]) and the count of active requests per
    set ([RequestTracker]).  A transport carries references to a message and to a
    transaction tracker; both live elsewhere and are named by identifiers.  An
    iterator of a container is the identifier of the entry it points to.  Entries
    with equal keys are found in the order in which the container arranges them,
    which is an argument ([IndexOrder]). *)

From stdpp Require Import base gmap list strings fin_maps.
From Stdlib Require Import ZArith Lia.
From S2P Require Import Prelude Messages TimingQueues.

Local Open Scope Z_scope.

(** The order that an ordered index gives to entries that its key does not tell
    apart. *)
Class IndexOrder : Type := {
  arrange : forall {A : Type}, list A -> list A;
  arrange_perm : forall (A : Type) (l : list A), arrange l ≡ₚ l;
}.

(** Entries in the order of their arrival. *)
Definition arrival_order : IndexOrder := {| arrange A l := l; arrange_perm A l := reflexivity l |}.

Record Transport : Type := mkTransport {
  tMessage : option Z;
  tTracker : option Z;
}.

Definition noTransport : Transport := mkTransport None None.

#[export] Instance transport_eq_dec : EqDecision Transport.
Proof. solve_decision. Defined.

(** ** The evict buffer *)

Module EB.

Record EvictEntry (S : Type) : Type := mkEvict {
  theBlockAddress : Z;
  theType : MemoryMessageType;
  theEvictable : bool;
  thePending : bool;
  theState : S;
  theSnoopRequired : bool;
  theSnoopScheduled : bool;
}.
Arguments mkEvict {S} _ _ _ _ _ _ _.
Arguments theBlockAddress {S} _.
Arguments theType {S} _.
Arguments theEvictable {S} _.
Arguments thePending {S} _.
Arguments theState {S} _.
Arguments theSnoopRequired {S} _.
Arguments theSnoopScheduled {S} _.

Record EvictBuffer (S : Type) : Type := mkBuffer {
  theSize : Z;
  theReserve : Z;
  theCurSize : Z;
  theEvictions : list (EvictEntry S);
}.
Arguments mkBuffer {S} _ _ _ _.
Arguments theSize {S} _.
Arguments theReserve {S} _.
Arguments theCurSize {S} _.
Arguments theEvictions {S} _.

Section evict_buffer.
Context {S : Type}.
Implicit Types (e : EvictEntry S) (b : EvictBuffer S).

Definition newEvictEntry (anAddress : Z) (aType : MemoryMessageType) (aState : S)
    (anEvictable : bool) : EvictEntry S :=
  mkEvict anAddress aType anEvictable false aState (negb anEvictable) false.

Definition entry_setEvictable (val : bool) e : EvictEntry S :=
  mkEvict (theBlockAddress e) (theType e) val (thePending e) (theState e) (theSnoopRequired e)
    (negb val).
Definition setPending (val : bool) e : EvictEntry S :=
  mkEvict (theBlockAddress e) (theType e) (theEvictable e) val (theState e) (theSnoopRequired e)
    (theSnoopScheduled e).
Definition set_evict_type (t : MemoryMessageType) e : EvictEntry S :=
  mkEvict (theBlockAddress e) t (theEvictable e) (thePending e) (theState e) (theSnoopRequired e)
    (theSnoopScheduled e).
Definition set_evict_state (s : S) e : EvictEntry S :=
  mkEvict (theBlockAddress e) (theType e) (theEvictable e) (thePending e) s (theSnoopRequired e)
    (theSnoopScheduled e).

Definition set_snoopRequired (val : bool) e : EvictEntry S :=
  mkEvict (theBlockAddress e) (theType e) (theEvictable e) (thePending e) (theState e) val (theSnoopScheduled e).
Definition set_snoopScheduled (val : bool) e : EvictEntry S :=
  mkEvict (theBlockAddress e) (theType e) (theEvictable e) (thePending e) (theState e) (theSnoopRequired e) val.

Definition newEvictBuffer (aSize : Z) : EvictBuffer S := mkBuffer aSize 0 0 [].
Definition set_evictions (l : list (EvictEntry S)) b : EvictBuffer S :=
  mkBuffer (theSize b) (theReserve b) (theCurSize b) l.

Definition empty b : bool := theCurSize b =? 0.
Definition full b : bool := theSize b <=? uint32 (theCurSize b + theReserve b).
Definition reserve b : outcome (EvictBuffer S) :=
  let b := mkBuffer (theSize b) (uint32 (theReserve b + 1)) (theCurSize b) (theEvictions b) in
  if uint32 (theCurSize b + theReserve b) <=? theSize b then Done b
  else Assert "theCurSize + theReserve <= theSize".
(** The assertion that the unsigned counter is not negative holds always. *)
Definition unreserve b : EvictBuffer S :=
  mkBuffer (theSize b) (uint32 (theReserve b - 1)) (theCurSize b) (theEvictions b).
Definition freeEntries b : Z := uint32 (theSize b - theCurSize b - theReserve b).
Definition usedEntries b : Z := theCurSize b.
Definition realSize b : Z := Z.of_nat (length (theEvictions b)).

Definition headEvictable (anOffset : Z) b : bool :=
  if empty b then false
  else match theEvictions b !! Z.to_nat anOffset with Some e => theEvictable e | None => false end.

Definition find (anAddress : Z) b : option (EvictEntry S) :=
  find_by theBlockAddress anAddress (theEvictions b).

Definition getOldestRequiringSnoops b : option (EvictEntry S) :=
  List.find theSnoopRequired (theEvictions b).

(** A change of the fields of the entry of an address. *)
Definition alter (anAddress : Z) (f : EvictEntry S -> EvictEntry S) b : EvictBuffer S :=
  set_evictions ((fun e => if theBlockAddress e =? anAddress then f e else e) <$> theEvictions b) b.

Definition setEvictable (anAddress : Z) (val : bool) b : EvictBuffer S :=
  alter anAddress (entry_setEvictable val) b.
Definition getEvictType (anAddress : Z) b : MemoryMessageType :=
  match find anAddress b with Some e => theType e | None => EvictClean end.
Definition setEvictType (anAddress : Z) (val : MemoryMessageType) b : EvictBuffer S :=
  alter anAddress (set_evict_type val) b.

Definition allocEntry (anAddress : Z) (aType : MemoryMessageType) (aState : S) (evictable : bool) b
    : EvictBuffer S :=
  match find anAddress b with
  | Some _ => alter anAddress (fun e => set_evict_state aState (set_evict_type aType e)) b
  | None =>
      mkBuffer (theSize b) (theReserve b) (uint32 (theCurSize b + 1))
        (theEvictions b ++ [newEvictEntry anAddress aType aState evictable])
  end.

(** [pop()]: the type and the address of the message, and what is left. *)
Definition pop b : outcome (MemoryMessageType * Z * EvictBuffer S) :=
  match theEvictions b with
  | [] => Assert "!theEvictions.empty()"
  | e :: rest =>
      if theEvictable e then
        Done (theType e, theBlockAddress e,
              mkBuffer (theSize b) (theReserve b) (uint32 (theCurSize b - 1)) rest)
      else Assert "theEvictions.front().evictable()"
  end.

(** [pop(index)]: the entry stays and is pending. *)
Definition pop_at (index : Z) b : outcome (MemoryMessageType * Z * EvictBuffer S) :=
  if negb (index <? theCurSize b) then Assert "theCurSize > index"
  else match theEvictions b !! Z.to_nat index with
       | None => Assert "iterator past the end"
       | Some e =>
           if theEvictable e then
             Done (theType e, theBlockAddress e,
                   set_evictions (<[Z.to_nat index := setPending true e]> (theEvictions b)) b)
           else Assert "iter->evictable()"
       end.

(** [remove(iter)] *)
Definition remove (anAddress : Z) b : EvictBuffer S :=
  match find anAddress b with
  | None => b
  | Some _ =>
      mkBuffer (theSize b) (theReserve b) (uint32 (theCurSize b - 1))
        (filter (fun e => theBlockAddress e <> anAddress) (theEvictions b))
  end.

(** Every block is in the buffer once, and the size is the number of entries. *)
Record evict_ok b : Prop := {
  e_unique : NoDup (theBlockAddress <$> theEvictions b);
  e_size : theCurSize b = realSize b;
  e_width : realSize b < 2 ^ 32;
}.

End evict_buffer.
End EB.

(** ** The snoop buffer *)

Module SB.

Inductive SnoopStates : Set := kSnoopOutstanding | kSnoopWaking | kSnoopWaiting.

#[export] Instance snoop_state_eq_dec : EqDecision SnoopStates.
Proof. solve_decision. Defined.

Record SnoopEntry : Type := mkSnoop {
  snoop_iter : Z;
  transport : Transport;
  state : SnoopStates;
  theBlockAddress : Z;
  snoop_state : MemoryMessageType;
  i_snoop_outstanding : bool;
  d_snoop_outstanding : bool;
}.

(** The constructor; the address is that of the transport's message. *)
Definition newSnoop (iter : Z) (t : Transport) (s : SnoopStates) (anAddress : Z) : SnoopEntry :=
  mkSnoop iter t s anAddress ProbedNotPresent false true.

Definition set_d_outstanding (val : bool) (e : SnoopEntry) : SnoopEntry :=
  mkSnoop (snoop_iter e) (transport e) (state e) (theBlockAddress e) (snoop_state e) (i_snoop_outstanding e) val.
Definition set_i_outstanding (val : bool) (e : SnoopEntry) : SnoopEntry :=
  mkSnoop (snoop_iter e) (transport e) (state e) (theBlockAddress e) (snoop_state e) val (d_snoop_outstanding e).

Record SnoopBuffer : Type := mkSnoops {
  theSnoops : list SnoopEntry;
  theWakeList : list SnoopEntry;
  theSize : Z;
  theReserve : Z;
  theCurSize : Z;
  next_iter : Z;
}.

Definition newSnoopBuffer (aSize : Z) : SnoopBuffer := mkSnoops [] [] aSize 0 0 0.

Definition empty (b : SnoopBuffer) : bool := theCurSize b =? 0.
Definition full (b : SnoopBuffer) : bool := theSize b <=? theCurSize b + theReserve b.
Definition reserve (b : SnoopBuffer) : outcome SnoopBuffer :=
  if theCurSize b + theReserve b <? theSize b then
    Done (mkSnoops (theSnoops b) (theWakeList b) (theSize b) (theReserve b + 1) (theCurSize b)
            (next_iter b))
  else Assert "(theCurSize + theReserve) < theSize".
Definition unreserve (b : SnoopBuffer) : outcome SnoopBuffer :=
  if 0 <? theReserve b then
    Done (mkSnoops (theSnoops b) (theWakeList b) (theSize b) (theReserve b - 1) (theCurSize b)
            (next_iter b))
  else Assert "theReserve > 0".
Definition freeEntries (b : SnoopBuffer) : Z := theSize b - theCurSize b.

Section snoop_buffer.
Context `{IndexOrder}.

(** The entries of a key, in the order of the index. *)
Definition entries (anAddress : Z) (s : SnoopStates) (b : SnoopBuffer) : list SnoopEntry :=
  arrange (filter (fun e => theBlockAddress e = anAddress /\ state e = s) (theSnoops b)).

Definition getActiveEntry (anAddress : Z) (b : SnoopBuffer) : option SnoopEntry :=
  head (entries anAddress kSnoopOutstanding b).
Definition getWaitingEntries (anAddress : Z) (b : SnoopBuffer) : list SnoopEntry :=
  entries anAddress kSnoopWaiting b.
Definition findEntry (anAddress : Z) (b : SnoopBuffer) : option SnoopEntry :=
  head (entries anAddress kSnoopOutstanding b).
Definition hasSnoopsOutstanding (anAddress : Z) (b : SnoopBuffer) : bool :=
  match findEntry anAddress b with Some _ => true | None => false end.
Definition hasEntry (anAddress : Z) (b : SnoopBuffer) : bool :=
  hasSnoopsOutstanding anAddress b ||
  match head (getWaitingEntries anAddress b) with Some _ => true | None => false end ||
  existsb (fun e => theBlockAddress e =? anAddress) (theWakeList b).

(** [allocEntry] and [addWaitingEntry] *)
Definition insert (t : Transport) (s : SnoopStates) (anAddress : Z) (b : SnoopBuffer)
    : outcome (Z * SnoopBuffer) :=
  if theCurSize b <? theSize b then
    Done (next_iter b,
          mkSnoops (theSnoops b ++ [newSnoop (next_iter b) t s anAddress]) (theWakeList b) (theSize b)
            (theReserve b) (theCurSize b + 1) (next_iter b + 1))
  else Assert "theCurSize < theSize".
Definition allocEntry (t : Transport) (anAddress : Z) (b : SnoopBuffer) : outcome (Z * SnoopBuffer) :=
  insert t kSnoopOutstanding anAddress b.
Definition addWaitingEntry (t : Transport) (anAddress : Z) (b : SnoopBuffer)
    : outcome (Z * SnoopBuffer) :=
  insert t kSnoopWaiting anAddress b.

Definition wakeWaitingEntries (anAddress : Z) (b : SnoopBuffer) : bool * SnoopBuffer :=
  match getWaitingEntries anAddress b with
  | [] => (false, b)
  | es =>
      (true,
       mkSnoops (filter (fun e => ~ (theBlockAddress e = anAddress /\ state e = kSnoopWaiting)) (theSnoops b))
         (theWakeList b ++ es) (theSize b) (theReserve b) (theCurSize b) (next_iter b))
  end.

Definition remove (iter : Z) (b : SnoopBuffer) : SnoopBuffer :=
  mkSnoops (filter (fun e => snoop_iter e <> iter) (theSnoops b)) (theWakeList b) (theSize b)
    (theReserve b) (theCurSize b - 1) (next_iter b).

(** A change of the mutable fields of the entry that an iterator points to. *)
Definition alter (iter : Z) (f : SnoopEntry -> SnoopEntry) (b : SnoopBuffer) : SnoopBuffer :=
  mkSnoops ((fun e => if snoop_iter e =? iter then f e else e) <$> theSnoops b) (theWakeList b) (theSize b)
    (theReserve b) (theCurSize b) (next_iter b).

Definition wakeListEmpty (b : SnoopBuffer) : bool :=
  match theWakeList b with [] => true | _ => false end.

Definition wakeSnoop (b : SnoopBuffer) : outcome (Transport * SnoopBuffer) :=
  match theWakeList b with
  | [] => Assert "front of an empty list"
  | e :: rest =>
      Done (transport e,
            mkSnoops (theSnoops b) rest (theSize b) (theReserve b) (theCurSize b - 1) (next_iter b))
  end.

(** Entries have identities, and the size counts those in the index and those that
    wake. *)
Record snoops_ok (b : SnoopBuffer) : Prop := {
  s_unique : NoDup (snoop_iter <$> theSnoops b);
  s_fresh : Forall (fun e => snoop_iter e < next_iter b) (theSnoops b);
  s_size : theCurSize b = Z.of_nat (length (theSnoops b) + length (theWakeList b));
}.

Lemma length_partition {A} (P : A -> Prop) `{!forall x, Decision (P x)} (l : list A) :
  (length (filter P l) + length (filter (fun x => ~ P x) l) = length l)%nat.
Proof using.
  induction l as [|x l IH]; [done|]. rewrite !filter_cons. repeat case_decide; cbn; lia || tauto.
Qed.

Lemma snoops_new_ok aSize : snoops_ok (newSnoopBuffer aSize).
Proof using. by split; [constructor| |]. Qed.

Lemma insert_ok t s a b iter b' :
  snoops_ok b -> insert t s a b = Done (iter, b') -> snoops_ok b' /\ iter ∉ snoop_iter <$> theSnoops b.
Proof using.
  intros [U F C]. unfold insert. destruct (theCurSize b <? theSize b); [|done]. intros [= <- <-].
  assert (N : next_iter b ∉ snoop_iter <$> theSnoops b).
  { intros (e & E & I)%list_elem_of_fmap. rewrite Forall_forall in F. specialize (F e I). lia. }
  split; [|done]. split; cbn.
  - rewrite fmap_app. apply NoDup_app. split_and!; [done| |apply NoDup_singleton].
    intros x Hx ->%list_elem_of_singleton. done.
  - apply Forall_app. split; [|by repeat constructor; cbn; lia].
    eapply Forall_impl; [done|]. cbn. intros; lia.
  - rewrite length_app. cbn. lia.
Qed.

Lemma filter_keeps (P : SnoopEntry -> Prop) `{!forall x, Decision (P x)} (l : list SnoopEntry) :
  NoDup (snoop_iter <$> l) -> NoDup (snoop_iter <$> filter P l).
Proof using.
  intros U. eapply sublist_NoDup; [exact U|]. apply fmap_sublist. clear.
  induction l as [|x l IH]; [done|]. rewrite filter_cons. case_decide; by constructor.
Qed.

Lemma wakeWaitingEntries_ok a b : snoops_ok b -> snoops_ok (wakeWaitingEntries a b).2.
Proof using.
  intros [U F C]. unfold wakeWaitingEntries. destruct (getWaitingEntries a b) as [|e es] eqn:E; [done|].
  rewrite <-E. split; cbn.
  - by apply filter_keeps.
  - rewrite !Forall_forall in *. intros x [_ Hx]%list_elem_of_filter. auto.
  - unfold getWaitingEntries, entries. rewrite length_app, arrange_perm, C.
    rewrite <-(length_partition (fun e => theBlockAddress e = a /\ state e = kSnoopWaiting) (theSnoops b)).
    lia.
Qed.

Lemma snoops_remove_ok e b : snoops_ok b -> e ∈ theSnoops b -> snoops_ok (remove (snoop_iter e) b).
Proof using.
  intros [U F C] I. split; cbn.
  - by apply filter_keeps.
  - rewrite !Forall_forall in *. intros x [_ Hx]%list_elem_of_filter. auto.
  - rewrite C. clear F C. assert (K : length (theSnoops b) = S (length (filter (fun x => snoop_iter x <> snoop_iter e) (theSnoops b)))); [|lia].
    induction (theSnoops b) as [|x l IH]; [by apply not_elem_of_nil in I|].
    cbn in U. apply NoDup_cons in U as [Nx U]. rewrite filter_cons.
    apply elem_of_cons in I as [->|I].
    + rewrite decide_False by tauto. cbn. f_equal.
      rewrite filter_every; [done|]. intros y Hy E. apply Nx. rewrite <-E.
      by apply list_elem_of_fmap_2.
    + rewrite decide_True; [cbn; by rewrite IH|]. intros E. apply Nx. rewrite E.
      by apply list_elem_of_fmap_2.
Qed.

Lemma wakeSnoop_ok b t b' : snoops_ok b -> wakeSnoop b = Done (t, b') -> snoops_ok b'.
Proof using.
  intros [U F C]. unfold wakeSnoop. destruct (theWakeList b) as [|e rest] eqn:E; [done|].
  intros [= _ <-]. cbn in C. by split; cbn; [..|lia].
Qed.

End snoop_buffer.
End SB.

(** ** Active requests per set *)

Definition RequestTracker : Type := gmap Z Z.

Definition getActiveRequests (aSet : Z) (r : RequestTracker) : Z := default 0 (r !! aSet).
Definition startRequest (aSet : Z) (r : RequestTracker) : RequestTracker :=
  match r !! aSet with
  | None => <[aSet := 1]> r
  | Some c => <[aSet := c + 1]> r
  end.
Definition endRequest (aSet : Z) (r : RequestTracker) : outcome RequestTracker :=
  match r !! aSet with
  | None => Assert "iter != theRequestHash.end()"
  | Some c => Done (if c - 1 =? 0 then delete aSet r else <[aSet := c - 1]> r)
  end.
