(* ===== verification/MissAddressFile.v ===== *)
(** * The miss address file

    [MissAddressFile] of components/Cache/CacheController.hpp: the requests of a
    timing cache that wait, for a response or for one another, indexed by block
    address and state.  The file is bounded, slots are reserved before the entry is
    there, and its counters per kind of request are checked against its contents at
    every change.  An iterator is the identity of an entry; one whose entry is gone
    is undefined in the code and ends the run like a failing assertion. *)

From stdpp Require Import base gmap list strings fin_maps.
From Stdlib Require Import ZArith Lia.
From S2P Require Import Prelude Messages TimingQueues CacheBuffers.

Local Open Scope Z_scope.

Inductive MafStates : Set :=
  | kWaitResponse | kWaitAddress | kWaking | kWaitProbe | kProbeHit | kProbeMiss | kCompleted
  | kWaitSnoop | kWaitEvict | kWaitRegion.

#[export] Instance maf_state_eq_dec : EqDecision MafStates.
Proof. solve_decision. Defined.

Inductive eEntryType : Set := kRead | kWrite | kAtomic | kFetch | kReadPrefetch | kWritePrefetch.

#[export] Instance entry_type_eq_dec : EqDecision eEntryType.
Proof. solve_decision. Defined.

Module MAF.

(** The position of a kind in the array of counters; [kTotal] is the last one. *)
Definition entry_index (t : eEntryType) : nat :=
  match t with
  | kRead => 0 | kWrite => 1 | kAtomic => 2 | kFetch => 3 | kReadPrefetch => 4 | kWritePrefetch => 5
  end.
Definition kTotal : nat := 6.

Record MafEntry : Type := mkMaf {
  maf_iter : Z;
  theBlockAddress : Z;
  state : MafStates;
  transport : Transport;
  type : eEntryType;
  outstanding_msgs : Z;
  data_received : bool;
}.

Definition newMafEntry (iter aBlockAddress : Z) (aTransport : Transport) (aState : MafStates)
    (aType : eEntryType) : MafEntry :=
  mkMaf iter aBlockAddress aState aTransport aType 0 false.

Definition set_maf_state (s : MafStates) (e : MafEntry) : MafEntry :=
  mkMaf (maf_iter e) (theBlockAddress e) s (transport e) (type e) (outstanding_msgs e) (data_received e).

Definition set_outstanding (n : Z) (e : MafEntry) : MafEntry :=
  mkMaf (maf_iter e) (theBlockAddress e) (state e) (transport e) (type e) n (data_received e).
Definition set_data_received (b : bool) (e : MafEntry) : MafEntry :=
  mkMaf (maf_iter e) (theBlockAddress e) (state e) (transport e) (type e) (outstanding_msgs e) b.

Record MissAddressFile : Type := mkFile {
  theMshrs : list MafEntry;
  theSize : Z;
  theMaxTargetsPerRequest : Z;
  theWaitResponseEntries : Z;
  theEntries : list Z;
  theReserve : Z;
  next_iter : Z;
}.

Definition set_mshrs (l : list MafEntry) (f : MissAddressFile) : MissAddressFile :=
  mkFile l (theSize f) (theMaxTargetsPerRequest f) (theWaitResponseEntries f) (theEntries f)
    (theReserve f) (next_iter f).
Definition set_waiting (n : Z) (f : MissAddressFile) : MissAddressFile :=
  mkFile (theMshrs f) (theSize f) (theMaxTargetsPerRequest f) n (theEntries f) (theReserve f) (next_iter f).
Definition set_entries (l : list Z) (f : MissAddressFile) : MissAddressFile :=
  mkFile (theMshrs f) (theSize f) (theMaxTargetsPerRequest f) (theWaitResponseEntries f) l
    (theReserve f) (next_iter f).
Definition set_reserve (n : Z) (f : MissAddressFile) : MissAddressFile :=
  mkFile (theMshrs f) (theSize f) (theMaxTargetsPerRequest f) (theWaitResponseEntries f) (theEntries f)
    n (next_iter f).

Definition newFile (aSize aMaxTargetsPerRequest : Z) : outcome MissAddressFile :=
  if aMaxTargetsPerRequest =? 0 then
    Done (mkFile [] aSize aMaxTargetsPerRequest 0 (repeat 0 7) 0 0)
  else Assert "theMaxTargetsPerRequest == 0".

Definition getType (aMessageType : MemoryMessageType) : outcome eEntryType :=
  match aMessageType with
  | AtomicPreloadReq | LoadReq | ReadReq | StreamFetch => Done kRead
  | StoreReq | WriteReq | WriteAllocate | UpgradeReq | UpgradeAllocate | NonAllocatingStoreReq =>
      Done kWrite
  | RMWReq | CmpxReq => Done kAtomic
  | FetchReq => Done kFetch
  | PrefetchReadNoAllocReq | PrefetchReadAllocReq => Done kReadPrefetch
  | StorePrefetchReq => Done kWritePrefetch
  | _ => Assert "Illegal message type entered into MAF"
  end.

Definition zsum (l : list Z) : Z := foldr Z.add 0 l.

(** [account], without the statistics. *)
Definition account (anEntry : eEntryType) (aDelta : Z) (f : MissAddressFile) : outcome MissAddressFile :=
  let add i l := match l !! i with Some n => <[i := uint32 (n + aDelta)]> l | None => l end in
  let es := if aDelta =? 0 then theEntries f
            else add kTotal (add (entry_index anEntry) (theEntries f)) in
  let sum := zsum (take kTotal es) in
  if negb (bool_decide (es !! kTotal = Some sum)) then Assert "sum == theEntries[kTotal]"
  else if negb (sum =? Z.of_nat (length (theMshrs f))) then Assert "sum == theMshrs.size()"
  else Done (set_entries es f).

Definition full (f : MissAddressFile) : bool :=
  if theMaxTargetsPerRequest f =? 0 then
    theSize f <=? Z.of_nat (length (theMshrs f)) + theReserve f
  else (theSize f <=? theWaitResponseEntries f) ||
       (theSize f * theMaxTargetsPerRequest f <? Z.of_nat (length (theMshrs f))).

Definition empty (f : MissAddressFile) : bool := match theMshrs f with [] => true | _ => false end.

Definition reserve (f : MissAddressFile) : outcome MissAddressFile :=
  let f := set_reserve (theReserve f + 1) f in
  if theReserve f + Z.of_nat (length (theMshrs f)) <=? theSize f then Done f
  else Assert "theReserve + theMshrs.size() <= theSize".
Definition unreserve (f : MissAddressFile) : outcome MissAddressFile :=
  let f := set_reserve (theReserve f - 1) f in
  if 0 <=? theReserve f then Done f else Assert "theReserve >= 0".

Definition count_response (s : MafStates) (d : Z) (f : MissAddressFile) : MissAddressFile :=
  if decide (s = kWaitResponse) then set_waiting (uint32 (theWaitResponseEntries f + d)) f else f.

(** [theMshrs.insert] *)
Definition insert (e : MafEntry) (f : MissAddressFile) : MissAddressFile :=
  mkFile (theMshrs f ++ [e]) (theSize f) (theMaxTargetsPerRequest f) (theWaitResponseEntries f)
    (theEntries f) (theReserve f) (next_iter f + 1).

Definition allocEntry (aBlockAddress : Z) (aTransport : Transport) (aMessageType : MemoryMessageType)
    (aState : MafStates) (f : MissAddressFile) : outcome MissAddressFile :=
  if full f then Assert "!full()"
  else
    t ← getType aMessageType;
    account t 1
      (count_response aState 1 (insert (newMafEntry (next_iter f) aBlockAddress aTransport aState t) f)).

(** The entry that an iterator points to. *)
Definition deref (iter : Z) (f : MissAddressFile) : outcome MafEntry :=
  match find_by maf_iter iter (theMshrs f) with
  | Some e => Done e
  | None => Assert "stale MAF iterator"
  end.

(** A change of the mutable fields of the entry that an iterator points to. *)
Definition alter (iter : Z) (g : MafEntry -> MafEntry) (f : MissAddressFile) : MissAddressFile :=
  set_mshrs ((fun e => if maf_iter e =? iter then g e else e) <$> theMshrs f) f.

Definition erase (iter : Z) (f : MissAddressFile) : MissAddressFile :=
  set_mshrs (filter (fun e => maf_iter e <> iter) (theMshrs f)) f.

Definition remove (iter : Z) (f : MissAddressFile) : outcome MissAddressFile :=
  e ← deref iter f;
  account (type e) (-1) (erase iter (count_response (state e) (-1) f)).

Definition modifyState (iter : Z) (aState : MafStates) (f : MissAddressFile) : outcome MissAddressFile :=
  e ← deref iter f;
  Done (count_response aState 1
          (set_mshrs ((fun e => if maf_iter e =? iter then set_maf_state aState e else e) <$> theMshrs f)
             (count_response (state e) (-1) f))).

Section find.
Context `{IndexOrder}.

(** [theMshrs.find(std::make_tuple(anAddress, aState))] *)
Definition find_entry (anAddress : Z) (aState : MafStates) (f : MissAddressFile) : option MafEntry :=
  head (arrange (filter (fun e => theBlockAddress e = anAddress /\ state e = aState) (theMshrs f))).
Definition find (anAddress : Z) (aState : MafStates) (f : MissAddressFile) : option Z :=
  maf_iter <$> find_entry anAddress aState f.

Definition contains (aBlockAddress : Z) (f : MissAddressFile) : bool :=
  existsb (fun e => theBlockAddress e =? aBlockAddress) (theMshrs f).
Definition contains_state (aBlockAddress : Z) (aState : MafStates) (f : MissAddressFile) : bool :=
  existsb (fun e => (theBlockAddress e =? aBlockAddress) && bool_decide (state e = aState)) (theMshrs f).

(** The message and the tracker of the entry. *)
Definition getWaitingMAFEntry (aBlockAddress : Z) (f : MissAddressFile) : Transport :=
  match find_entry aBlockAddress kWaitResponse f with Some e => transport e | None => noTransport end.
Definition getWaitingMAFEntryIter (aBlockAddress : Z) (f : MissAddressFile) : option Z :=
  find aBlockAddress kWaitResponse f.
Definition getProbingMAFEntry (aBlockAddress : Z) (f : MissAddressFile) : option Z :=
  find aBlockAddress kWaitProbe f.

(** Entries that wait for a snoop or an eviction are marked as waking, entries that
    wait for their region or their address are not. *)
Definition getBlockedMafEntry (aBlockAddress : Z) (f : MissAddressFile)
    : outcome (option Z * MissAddressFile) :=
  match find aBlockAddress kWaitRegion f with
  | Some iter => Done (Some iter, f)
  | None =>
      match find aBlockAddress kWaitSnoop f with
      | Some iter => f ← modifyState iter kWaking f; Done (Some iter, f)
      | None =>
          match find aBlockAddress kWaitEvict f with
          | Some iter => f ← modifyState iter kWaking f; Done (Some iter, f)
          | None => Done (find aBlockAddress kWaitAddress f, f)
          end
      end
  end.

(** ** The counters agree with the contents *)

Definition of_type (t : eEntryType) (l : list MafEntry) : Z :=
  Z.of_nat (length (filter (fun e => type e = t) l)).
Definition counts (l : list MafEntry) : list Z :=
  [of_type kRead l; of_type kWrite l; of_type kAtomic l; of_type kFetch l; of_type kReadPrefetch l;
   of_type kWritePrefetch l; Z.of_nat (length l)].
Definition in_state (s : MafStates) (l : list MafEntry) : Z :=
  Z.of_nat (length (filter (fun e => state e = s) l)).

(** [maf_ok n f]: [n] slots are reserved, and there is room for them. *)
Record maf_ok (n : Z) (f : MissAddressFile) : Prop := {
  m_unique : NoDup (maf_iter <$> theMshrs f);
  m_fresh : Forall (fun e => maf_iter e < next_iter f) (theMshrs f);
  m_counts : theEntries f = counts (theMshrs f);
  m_waiting : theWaitResponseEntries f = in_state kWaitResponse (theMshrs f);
  m_reserve : theReserve f = n;
  m_room : Z.of_nat (length (theMshrs f)) + n <= theSize f;
  m_width : theSize f < 2 ^ 31;
  m_targets : theMaxTargetsPerRequest f = 0;
  m_nonneg : 0 <= n;
}.

Lemma of_type_app t l l' : of_type t (l ++ l') = of_type t l + of_type t l'.
Proof using. unfold of_type. rewrite filter_app, length_app. lia. Qed.
Lemma in_state_app s l l' : in_state s (l ++ l') = in_state s l + in_state s l'.
Proof using. unfold in_state. rewrite filter_app, length_app. lia. Qed.
Lemma of_type_one t e : of_type t [e] = if decide (type e = t) then 1 else 0.
Proof using. unfold of_type. rewrite filter_cons, filter_nil. by case_decide. Qed.
Lemma in_state_one s e : in_state s [e] = if decide (state e = s) then 1 else 0.
Proof using. unfold in_state. rewrite filter_cons, filter_nil. by case_decide. Qed.

Lemma of_type_bound t l : 0 <= of_type t l <= Z.of_nat (length l).
Proof using. unfold of_type. pose proof (length_filter (fun e => type e = t) l). lia. Qed.
Lemma in_state_bound s l : 0 <= in_state s l <= Z.of_nat (length l).
Proof using. unfold in_state. pose proof (length_filter (fun e => state e = s) l). lia. Qed.

(** Compares concrete kinds or states. *)
Ltac decide_kinds := repeat ((rewrite decide_True in * by done) || (rewrite decide_False in * by done)).

Lemma counts_sum l : zsum (take kTotal (counts l)) = Z.of_nat (length l).
Proof using.
  cbn. induction l as [|e l IH]; [done|]. change (e :: l) with ([e] ++ l). rewrite !of_type_app, !of_type_one.
  cbn [length app]. destruct (type e); decide_kinds; lia.
Qed.

Lemma fmap_others iter g (l : list MafEntry) :
  (forall x, x ∈ l -> maf_iter x <> iter) -> (fun x => if maf_iter x =? iter then g x else x) <$> l = l.
Proof using.
  induction l as [|x l IH]; intros N; [done|]. rewrite fmap_cons.
  rewrite (proj2 (Z.eqb_neq _ _)) by (apply N, list_elem_of_here). f_equal. apply IH.
  intros y Hy. apply N. by apply list_elem_of_further.
Qed.

(** An entry and what is left without it. *)
Lemma split_entry iter f e :
  NoDup (maf_iter <$> theMshrs f) -> find_by maf_iter iter (theMshrs f) = Some e ->
  exists l1 l2, theMshrs f = l1 ++ e :: l2 /\ maf_iter e = iter /\
    filter (fun x => maf_iter x <> iter) (theMshrs f) = l1 ++ l2 /\
    forall g, (fun x => if maf_iter x =? iter then g x else x) <$> theMshrs f = l1 ++ g e :: l2.
Proof using.
  intros U [I <-]%find_by_Some. apply list_elem_of_split in I as (l1 & l2 & E). exists l1, l2.
  rewrite E in *. rewrite fmap_app, fmap_cons in U. apply NoDup_app in U as (_ & U1 & U2).
  apply NoDup_cons in U2 as [N2 _].
  assert (K1 : forall x, x ∈ l1 -> maf_iter x <> maf_iter e).
  { intros x Hx Ex. eapply U1; [by apply list_elem_of_fmap_2|]. rewrite Ex. apply list_elem_of_here. }
  assert (K2 : forall x, x ∈ l2 -> maf_iter x <> maf_iter e).
  { intros x Hx Ex. apply N2. rewrite <-Ex. by apply list_elem_of_fmap_2. }
  split_and!; [done..| |].
  - rewrite filter_app, filter_cons_False by tauto. by rewrite !filter_every.
  - intros g. rewrite fmap_app, fmap_cons, Z.eqb_refl. f_equal; [|f_equal].
    + by apply fmap_others.
    + by apply fmap_others.
Qed.

(** A change of one entry passes the assertions of [account]. *)
Lemma account_ok t d f l :
  theEntries f = counts l -> d <> 0 -> Z.of_nat (length (theMshrs f)) < 2 ^ 31 ->
  Z.of_nat (length (theMshrs f)) = Z.of_nat (length l) + d ->
  (forall t', of_type t' (theMshrs f) = of_type t' l + if decide (t' = t) then d else 0) ->
  account t d f = Done (set_entries (counts (theMshrs f)) f).
Proof using.
  intros E D W L C. unfold account. rewrite (proj2 (Z.eqb_neq d 0) D), E.
  assert (A : (let add i l := match l !! i with Some n => <[i := uint32 (n + d)]> l | None => l end in
               add kTotal (add (entry_index t) (counts l))) = counts (theMshrs f)).
  { unfold counts. rewrite !C, L. pose proof (of_type_bound t (theMshrs f)) as B. rewrite C in B.
    destruct t; decide_kinds; cbn -[Z.add of_type] in B |- *; rewrite !uint32_small by lia; repeat f_equal; lia. }
  cbn zeta in A |- *. rewrite A, counts_sum. cbn [counts lookup list_lookup kTotal].
  rewrite bool_decide_eq_true_2 by done. cbn [negb]. by rewrite Z.eqb_refl.
Qed.

Lemma count_response_fields s d f :
  theMshrs (count_response s d f) = theMshrs f /\ theSize (count_response s d f) = theSize f /\
  theMaxTargetsPerRequest (count_response s d f) = theMaxTargetsPerRequest f /\
  theEntries (count_response s d f) = theEntries f /\ theReserve (count_response s d f) = theReserve f /\
  next_iter (count_response s d f) = next_iter f /\
  theWaitResponseEntries (count_response s d f) =
    if decide (s = kWaitResponse) then uint32 (theWaitResponseEntries f + d) else theWaitResponseEntries f.
Proof using. unfold count_response. by case_decide. Qed.

Lemma maf_new_ok aSize : 0 <= aSize < 2 ^ 31 -> exists f, newFile aSize 0 = Done f /\ maf_ok 0 f /\ theMshrs f = [].
Proof using.
  intros Hs. eexists. split; [done|]. split; [|done]. split; cbn; try done; try constructor; lia.
Qed.

Lemma maf_full_ok n f : maf_ok n f -> full f = (theSize f <=? Z.of_nat (length (theMshrs f)) + n).
Proof using. intros K. unfold full. rewrite (m_targets _ _ K), (m_reserve _ _ K). done. Qed.

Lemma maf_reserve_ok n f :
  maf_ok n f -> full f = false ->
  exists f', reserve f = Done f' /\ maf_ok (n + 1) f' /\ theMshrs f' = theMshrs f /\ theSize f' = theSize f.
Proof using.
  intros K F. rewrite (maf_full_ok n) in F by done. apply Z.leb_gt in F. destruct K as [U Fr C Wt R Ro Wd T N].
  unfold reserve. cbn [set_reserve theReserve theMshrs theSize]. rewrite (proj2 (Z.leb_le _ _)) by lia.
  eexists. split; [done|]. split; [|done]. split; cbn; try done; lia.
Qed.

Lemma maf_unreserve_ok n f :
  maf_ok n f -> 0 < n ->
  exists f', unreserve f = Done f' /\ maf_ok (n - 1) f' /\ theMshrs f' = theMshrs f /\ theSize f' = theSize f.
Proof using.
  intros [U Fr C Wt R Ro Wd T N] Hn. unfold unreserve. cbn [set_reserve theReserve].
  rewrite (proj2 (Z.leb_le _ _)) by lia. eexists. split; [done|]. split; [|done].
  split; cbn; try done; lia.
Qed.

(** An allocation into a file with room appends one entry. *)
Lemma allocEntry_ok n f a t mt s ty :
  maf_ok n f -> getType mt = Done ty -> Z.of_nat (length (theMshrs f)) + n < theSize f ->
  exists f', allocEntry a t mt s f = Done f' /\ maf_ok n f' /\
    theMshrs f' = theMshrs f ++ [newMafEntry (next_iter f) a t s ty] /\ theSize f' = theSize f.
Proof using.
  intros K G L. unfold allocEntry. rewrite (maf_full_ok n) by done. rewrite (proj2 (Z.leb_gt _ _)) by lia.
  rewrite G. cbn [mbind outcome_bind]. destruct K as [U Fr C Wt R Ro Wd T N].
  set (e := newMafEntry _ _ _ _ _). set (f1 := count_response _ _ _).
  destruct (count_response_fields s 1 (insert e f)) as (E1 & E2 & E3 & E4 & E5 & E6 & E7). fold f1 in E1, E2, E3, E4, E5, E6, E7.
  cbn in E1, E2, E3, E4, E5, E6, E7.
  rewrite (account_ok ty 1 f1 (theMshrs f)).
  2: by rewrite E4, C. 2: done. 2, 3: rewrite E1, length_app; cbn; lia.
  2: { intros t'. rewrite E1, of_type_app, of_type_one. cbn. repeat case_decide; congruence || lia. }
  eexists. split; [done|]. cbn. rewrite E1, E2. split; [|done]. split; cbn; rewrite ?E1, ?E2, ?E3, ?E5, ?E6, ?E7.
  - rewrite fmap_app. apply NoDup_app. split_and!; [done| |apply NoDup_singleton].
    intros x (y & -> & Hy)%list_elem_of_fmap Hn%list_elem_of_singleton. rewrite Forall_forall in Fr.
    specialize (Fr y Hy). cbn in Hn. lia.
  - apply Forall_app. split; [|by repeat constructor; cbn; lia]. eapply Forall_impl; [done|]. cbn. intros; lia.
  - done.
  - rewrite in_state_app, in_state_one, <-Wt. cbn. pose proof (in_state_bound kWaitResponse (theMshrs f)).
    case_decide; [rewrite uint32_small|]; lia.
  - done.
  - rewrite length_app. cbn. lia.
  - done.
  - done.
  - done.
Qed.

Lemma deref_Done iter f e : deref iter f = Done e -> find_by maf_iter iter (theMshrs f) = Some e.
Proof using. unfold deref. destruct (find_by _ _ _); [by intros [= ->]|done]. Qed.

(** The state of an entry changes and nothing else. *)
Lemma modifyState_ok n f iter s e :
  maf_ok n f -> deref iter f = Done e ->
  exists f' l1 l2, modifyState iter s f = Done f' /\ maf_ok n f' /\ theSize f' = theSize f /\
    theMshrs f = l1 ++ e :: l2 /\ theMshrs f' = l1 ++ set_maf_state s e :: l2.
Proof using.
  intros [U Fr C Wt R Ro Wd T N] D. pose proof (deref_Done _ _ _ D) as F.
  destruct (split_entry iter f e U F) as (l1 & l2 & E & I & _ & Al).
  unfold modifyState. rewrite D. cbn [mbind outcome_bind].
  set (f1 := count_response (state e) (-1) f).
  destruct (count_response_fields (state e) (-1) f) as (A1 & A2 & A3 & A4 & A5 & A6 & A7). fold f1 in A1, A2, A3, A4, A5, A6, A7.
  rewrite Al. set (f2 := set_mshrs _ f1).
  destruct (count_response_fields s 1 f2) as (B1 & B2 & B3 & B4 & B5 & B6 & B7). cbn in B1, B2, B3, B4, B5, B6, B7.
  exists (count_response s 1 f2), l1, l2. split; [done|]. rewrite B1, B2. split; [|done].
  split; rewrite ?B1, ?B2, ?B3, ?B4, ?B5, ?B6, ?B7, ?A2, ?A3, ?A4, ?A5, ?A6; try done.
  - rewrite E in U. by rewrite fmap_app, fmap_cons in *.
  - rewrite E in Fr. apply Forall_app in Fr as [? Fr]. apply Forall_cons in Fr as [? ?].
    apply Forall_app; split; [done|]. by apply Forall_cons.
  - rewrite C, E. unfold counts. rewrite !(length_app l1 (_ :: l2)). cbn [length].
    assert (O : forall t, of_type t (l1 ++ e :: l2) = of_type t (l1 ++ set_maf_state s e :: l2)).
    { intros t. change (e :: l2) with ([e] ++ l2). change (set_maf_state s e :: l2) with ([set_maf_state s e] ++ l2).
      by rewrite !of_type_app, !of_type_one. }
    by rewrite !O.
  - rewrite A7, Wt, E. change (e :: l2) with ([e] ++ l2).
    change (set_maf_state s e :: l2) with ([set_maf_state s e] ++ l2).
    rewrite !in_state_app, !in_state_one. cbn [state set_maf_state].
    pose proof (in_state_bound kWaitResponse l1) as Bl1. pose proof (in_state_bound kWaitResponse l2) as Bl2.
    rewrite E in Ro. rewrite length_app in Ro. cbn in Ro.
    repeat case_decide; rewrite ?uint32_small; rewrite ?uint32_small; lia.
  - rewrite E in Ro. rewrite length_app in *. cbn in *. lia.
Qed.

(** An entry is removed and nothing else. *)
Lemma maf_remove_ok n f iter e :
  maf_ok n f -> deref iter f = Done e ->
  exists f' l1 l2, remove iter f = Done f' /\ maf_ok n f' /\ theSize f' = theSize f /\
    theMshrs f = l1 ++ e :: l2 /\ theMshrs f' = l1 ++ l2.
Proof using.
  intros [U Fr C Wt R Ro Wd T N] D. pose proof (deref_Done _ _ _ D) as F.
  destruct (split_entry iter f e U F) as (l1 & l2 & E & I & Fi & _).
  unfold remove. rewrite D. cbn [mbind outcome_bind].
  set (f1 := count_response (state e) (-1) f).
  destruct (count_response_fields (state e) (-1) f) as (A1 & A2 & A3 & A4 & A5 & A6 & A7). fold f1 in A1, A2, A3, A4, A5, A6, A7.
  assert (Em : theMshrs (erase iter f1) = l1 ++ l2) by (cbn; by rewrite A1).
  assert (Ln : Z.of_nat (length (theMshrs f)) = Z.of_nat (length (l1 ++ l2)) + 1).
  { rewrite E, !length_app. cbn. lia. }
  rewrite (account_ok (type e) (-1) (erase iter f1) (theMshrs f)); rewrite ?Em.
  2: { cbn. by rewrite A4, C. }
  2: done. 2, 3: lia.
  2: { intros t. rewrite E. change (e :: l2) with ([e] ++ l2). rewrite !of_type_app, of_type_one.
       repeat case_decide; congruence || lia. }
  eexists _, l1, l2. split; [done|]. cbn. rewrite A1, A2, Fi. split; [|done].
  split; cbn; rewrite ?A1, ?A2, ?A3, ?A5, ?A6, ?A7, ?Fi; try done.
  - rewrite E in U. rewrite fmap_app, fmap_cons in *. apply NoDup_app in U as (U1 & U2 & U3).
    apply NoDup_cons in U3 as [_ U3]. apply NoDup_app. split_and!; try done. intros x Hx Hy.
    apply (U2 x Hx). by apply list_elem_of_further.
  - rewrite E in Fr. apply Forall_app in Fr as [? Fr]. apply Forall_cons in Fr as [? ?]. by apply Forall_app.
  - rewrite Wt, E. change (e :: l2) with ([e] ++ l2). rewrite !in_state_app, !in_state_one.
    pose proof (in_state_bound kWaitResponse l1) as Bl1. pose proof (in_state_bound kWaitResponse l2) as Bl2.
    rewrite E in Ro. rewrite length_app in Ro. cbn in Ro.
    case_decide; rewrite ?uint32_small; lia.
  - lia.
Qed.

(** What a search finds is there, in that state and of that block. *)
Lemma find_entry_in a s f e :
  find_entry a s f = Some e -> e ∈ theMshrs f /\ theBlockAddress e = a /\ state e = s.
Proof using.
  unfold find_entry. intros Hd%head_Some_elem_of. rewrite arrange_perm in Hd.
  apply list_elem_of_filter in Hd. tauto.
Qed.

Lemma find_deref n a s f iter :
  maf_ok n f -> find a s f = Some iter ->
  exists e, deref iter f = Done e /\ theBlockAddress e = a /\ state e = s.
Proof using.
  intros K. unfold find. destruct (find_entry a s f) as [e|] eqn:E; [|done]. intros [= <-].
  apply find_entry_in in E as (I & A & S). exists e. split; [|done]. unfold deref.
  by rewrite (find_by_elem maf_iter _ _ e (m_unique _ _ K) I).
Qed.

Lemma find_None a s f :
  find a s f = None <-> contains_state a s f = false.
Proof using.
  unfold find, find_entry, contains_state. rewrite <-not_true_iff_false, existsb_exists.
  set (l := filter _ (theMshrs f)). pose proof (arrange_perm _ l) as P. split.
  - intros E%fmap_None (x & Hx & [Ha Hs]%andb_true_iff). apply Z.eqb_eq in Ha. apply bool_decide_eq_true in Hs.
    destruct (arrange l) as [|y ys]; [|done]. apply Permutation_nil_l in P.
    apply (not_elem_of_nil x). rewrite P. apply list_elem_of_filter. split; [done|]. by apply list_elem_of_In.
  - intros N. destruct (arrange l) as [|y ys]; [done|]. exfalso. apply N.
    assert (Hy : y ∈ l) by (rewrite <-P; apply list_elem_of_here).
    apply list_elem_of_filter in Hy as [[Ha Hs] Hy]. exists y. rewrite <-list_elem_of_In. split; [done|].
    apply andb_true_iff. split; [by apply Z.eqb_eq|by apply bool_decide_eq_true].
Qed.
End find.

End MAF.
