(* ===== verification/TagArray.v ===== *)
(** * The standard tag array of the timing caches

    components/Cache/StdArray.hpp, with the block states of BasicCacheState.hpp and
    .cpp and the part of AbstractArray.hpp that StdArray inherits.  A block of a set is
    its number, so a pointer to it is that number.  A result of a lookup is an object
    that [allocate] changes: here the changed result is returned.  Using the null
    pointer of a result without a block is undefined in the code and ends the run like
    a failing assertion. *)

From stdpp Require Import base gmap list strings.
From Stdlib Require Import ZArith Lia Ascii.
From S2P Require Import Prelude StdCache.

Local Open Scope Z_scope.

(** ** Block states

    A byte: the state in the lower four bits, by the order in which the constants are
    constructed, and two flags. *)
Module BlockState.

Definition State : Type := Z.

Definition STATE_MASK : Z := 0xF.
Definition PREFETCH_MASK : Z := 0x10.
Definition PROTECT_MASK : Z := 0x20.

Definition Modified : State := 0.
Definition Owned : State := 1.
Definition Exclusive : State := 2.
Definition Shared : State := 3.
Definition Invalid : State := 4.

Definition name (s : State) : option string :=
  ["Modified"; "Owned"; "Exclusive"; "Shared"; "Invalid"]%string !! Z.to_nat (Z.land s STATE_MASK).

(** [operator==] *)
Definition eqb (a b : State) : bool := Z.land (Z.lxor a b) STATE_MASK =? 0.
(** [operator=]: the flags stay. *)
Definition assign (old new : State) : State :=
  Z.lor (Z.land old (Z.lnot STATE_MASK)) (Z.land new STATE_MASK).
Definition prefetched (s : State) : bool := negb (Z.land s PREFETCH_MASK =? 0).
Definition isProtected (s : State) : bool := negb (Z.land s PROTECT_MASK =? 0).
Definition isValid (s : State) : bool := negb (eqb s Invalid).
Definition setPrefetched (p : bool) (s : State) : State :=
  if p then Z.lor s PREFETCH_MASK else Z.land s (Z.lnot PREFETCH_MASK).
Definition setProtected (p : bool) (s : State) : State :=
  if p then Z.lor s PROTECT_MASK else Z.land s (Z.lnot PROTECT_MASK).

Definition char2State (c : ascii) : outcome State :=
  if Ascii.eqb c "M" then Done Modified
  else if Ascii.eqb c "O" then Done Owned
  else if Ascii.eqb c "E" then Done Exclusive
  else if Ascii.eqb c "S" then Done Shared
  else if Ascii.eqb c "I" then Done Invalid
  else Assert "Unknown state".
Definition int2State (c : Z) : outcome State :=
  if c =? 7 then Done Modified
  else if c =? 3 then Done Owned
  else if c =? 5 then Done Exclusive
  else if c =? 1 then Done Shared
  else if c =? 0 then Done Invalid
  else Assert "Unknown state".
End BlockState.

Import BlockState.

Module Arr.

(** ** Sets *)

Record Block : Type := mkBlock {
  tag : Z;
  state : State;
}.

Definition set_tag (t : Z) (b : Block) : Block := mkBlock t (state b).
Definition set_state (s : State) (b : Block) : Block := mkBlock (tag b) s.
Definition valid (b : Block) : bool := isValid (state b).

(** [SetLRU] and [SetPseudoLRU], by what they add to [Set].  The bits of the second
    start as ones for associativities below 64, the width of the constant they are made
    from. *)
Inductive Replacement : Type :=
  | LRU (theMRUOrder : list nat)
  | PLRU (theMRUBits : list bool).

Record CacheSet : Type := mkSet {
  theBlocks : list Block;
  replacement : Replacement;
}.

Definition set_blocks (l : list Block) (s : CacheSet) : CacheSet := mkSet l (replacement s).
Definition set_replacement (r : Replacement) (s : CacheSet) : CacheSet := mkSet (theBlocks s) r.
Definition alter_block (k : nat) (f : Block -> Block) (s : CacheSet) : CacheSet :=
  set_blocks (alter f k (theBlocks s)) s.

Inductive ReplacementPolicy : Set := REPLACEMENT_LRU | REPLACEMENT_PLRU.

Definition newSet (aPolicy : ReplacementPolicy) (aAssociativity : Z) : CacheSet :=
  let n := Z.to_nat aAssociativity in
  mkSet (repeat (mkBlock 0 Invalid) n)
    (match aPolicy with
     | REPLACEMENT_LRU => LRU (seq 0 n)
     | REPLACEMENT_PLRU => PLRU (repeat true n)
     end).

(** [StdLookupResult]; [theSet] is the index of the set. *)
Record LookupResult : Type := mkLookup {
  theSet : Z;
  theBlock : option nat;
  theBlockAddress : Z;
  isHit : bool;
  theOrigState : State;
}.

(** The scan of [lookupBlock] from block [i] on; [t] is the last invalid block with
    the address. *)
Fixpoint lookup_from (anAddress : Z) (i : nat) (t : option nat) (l : list Block) : option nat * bool :=
  match l with
  | [] => (t, false)
  | b :: l =>
      if tag b =? anAddress then
        if valid b then (Some i, true) else lookup_from anAddress (Datatypes.S i) (Some i) l
      else lookup_from anAddress (Datatypes.S i) t l
  end.

(** A new result takes the state of the block on a hit. *)
Definition newLookup (i : Z) (aBlock : option nat) (anAddress : Z) (aIsHit : bool) (s : CacheSet) : LookupResult :=
  mkLookup i aBlock anAddress aIsHit
    (match aBlock with
     | Some k => if aIsHit then match theBlocks s !! k with Some b => state b | None => Invalid end else Invalid
     | None => Invalid
     end).

Definition lookupBlock (i : Z) (anAddress : Z) (s : CacheSet) : LookupResult :=
  let '(k, hit) := lookup_from anAddress 0 None (theBlocks s) in newLookup i k anAddress hit s.

(** Whether a block can be replaced. *)
Definition replaceable (b : Block) : bool := negb (isProtected (state b)) || negb (valid b).

Definition replaceable_at (s : CacheSet) (k : nat) : bool :=
  match theBlocks s !! k with Some b => replaceable b | None => false end.

(** The scans of [pickVictim] and [victimAvailable], from the least recently used block. *)
Definition victim_of (order : list nat) (s : CacheSet) : option nat :=
  List.find (replaceable_at s) (reverse order).

Definition victimAvailable (s : CacheSet) : outcome bool :=
  match replacement s with
  | LRU order => Done (match victim_of order s with Some _ => true | None => false end)
  | PLRU _ => Assert "false"
  end.

(** A protected victim is invalid, and loses its protection. *)
Definition unprotect (b : Block) : Block :=
  if isProtected (state b) then set_state (setProtected false (state b)) b else b.
Definition pickVictim (s : CacheSet) : outcome (nat * CacheSet) :=
  match replacement s with
  | LRU order =>
      match victim_of order s with
      | Some k => Done (k, alter_block k unprotect s)
      | None => Assert "All blocks in the set are protected and valid."
      end
  | PLRU _ => Assert "false"
  end.

(** [moveToHead] and [moveToTail]; the loop runs past the end without the block. *)
Definition without (k : nat) (order : list nat) : outcome (list nat) :=
  match list_find (fun x => x = k) order with
  | Some (i, _) => Done (take i order ++ drop (Datatypes.S i) order)
  | None => Assert "read past the end"
  end.
Definition moveToHead (k : nat) (order : list nat) : outcome (list nat) := l ← without k order; Done (k :: l).
Definition moveToTail (k : nat) (order : list nat) : outcome (list nat) := l ← without k order; Done (l ++ [k]).

Definition set_recordAccess (k : nat) (s : CacheSet) : outcome CacheSet :=
  match replacement s with
  | LRU order => l ← moveToHead k order; Done (set_replacement (LRU l) s)
  | PLRU bits =>
      let bits := <[k := false]> bits in
      Done (set_replacement (PLRU (if existsb id bits then bits else <[k := false]> (negb <$> bits))) s)
  end.
Definition set_invalidateBlock (k : nat) (s : CacheSet) : outcome CacheSet :=
  match replacement s with
  | LRU order => l ← moveToTail k order; Done (set_replacement (LRU l) s)
  | PLRU bits => Done (set_replacement (PLRU (<[k := true]> bits)) s)
  end.

Definition set_canAllocate (lookup : LookupResult) (s : CacheSet) : outcome bool :=
  match theBlock lookup with Some _ => Done true | None => victimAvailable s end.

(** [Set::allocate]: the result for the victim, the changed lookup, the set. *)
Definition set_allocate (lookup : LookupResult) (anAddress : Z) (s : CacheSet)
    : outcome (LookupResult * LookupResult * CacheSet) :=
  match theBlock lookup with
  | Some k =>
      b ← match theBlocks s !! k with Some b => Done b | None => Assert "null block" end;
      if tag b =? anAddress then
        s ← set_recordAccess k s;
        Done (newLookup (theSet lookup) None anAddress false s,
              mkLookup (theSet lookup) (Some k) (theBlockAddress lookup) true (theOrigState lookup), s)
      else Assert "Lookup Tag"
  | None =>
      '(k, s) ← pickVictim s;
      b ← match theBlocks s !! k with Some b => Done b | None => Assert "null block" end;
      let victim := mkLookup (theSet lookup) (Some k) (tag b) false (state b) in
      let s := alter_block k (fun b => set_state (assign (state b) Invalid) (set_tag anAddress b)) s in
      s ← set_recordAccess k s;
      Done (victim,
            mkLookup (theSet lookup) (Some k) (theBlockAddress lookup) true (assign (theOrigState lookup) Invalid), s)
  end.

Definition count (aTag : Z) (s : CacheSet) : Z :=
  Z.of_nat (length (filter (fun b => tag b = aTag) (theBlocks s))).
Definition getTags (s : CacheSet) : list Z := tag <$> filter (fun b => valid b = true) (theBlocks s).

(** ** The array *)

Record StdArray : Type := mkArray {
  theAssociativity : Z;
  setCount : Z;
  setIndexShift : Z;
  setIndexMask : Z;
  theTagShift : Z;
  blockOffsetMask : Z;
  theSets : list CacheSet;
}.

Definition set_sets (l : list CacheSet) (a : StdArray) : StdArray :=
  mkArray (theAssociativity a) (setCount a) (setIndexShift a) (setIndexMask a) (theTagShift a)
    (blockOffsetMask a) l.

(** [init] *)
Definition newArray (theCacheSize anAssociativity aBlockSize : Z) (aPolicy : ReplacementPolicy) : outcome StdArray :=
  if negb (0 <? theCacheSize) then Assert "theCacheSize > 0"
  else if negb (0 <? anAssociativity) then Assert "theAssociativity > 0"
  else if negb (0 <? aBlockSize) then Assert "theBlockSize > 0"
  else
    let count := Z.quot (Z.quot theCacheSize anAssociativity) aBlockSize in
    if negb (Z.land count (count - 1) =? 0) then Assert "(setCount & (setCount - 1)) == 0"
    else
      let indexBits := log_base2 count in
      let blockOffsetBits := log_base2 aBlockSize in
      Done (mkArray anAssociativity count blockOffsetBits (Z.shiftl 1 indexBits - 1)
              (blockOffsetBits + indexBits) (Z.shiftl 1 blockOffsetBits - 1)
              (repeat (newSet aPolicy anAssociativity) (Z.to_nat count))).

Definition blockAddress (a : StdArray) (anAddress : Z) : Z := Z.land anAddress (Z.lnot (blockOffsetMask a)).
Definition blockOffset (a : StdArray) (anAddress : Z) : Z := Z.land anAddress (blockOffsetMask a).
Definition makeSet (a : StdArray) (anAddress : Z) : Z :=
  Z.land (Z.shiftr anAddress (setIndexShift a)) (setIndexMask a).
Definition getSet (a : StdArray) (anAddress : Z) : Z := makeSet a anAddress.
Definition sameSet (a : StdArray) (x y : Z) : bool := makeSet a x =? makeSet a y.
Definition requestsPerSet (a : StdArray) : Z := theAssociativity a.
Definition getSetTags (a : StdArray) (addr : Z) : outcome (list Z) :=
  s ← vec_at (theSets a) (makeSet a addr); Done (getTags s).

(** [operator[]] *)
Definition lookup (a : StdArray) (anAddress : Z) : outcome LookupResult :=
  s ← vec_at (theSets a) (makeSet a anAddress);
  Done (lookupBlock (makeSet a anAddress) (blockAddress a anAddress) s).

(** The members of a result that read or write its block. *)
Definition block_of (lk : LookupResult) (a : StdArray) : outcome Block :=
  match theBlock lk with
  | None => Assert "null block"
  | Some k =>
      s ← vec_at (theSets a) (theSet lk);
      match theBlocks s !! k with Some b => Done b | None => Assert "null block" end
  end.
Definition lk_state (lk : LookupResult) (a : StdArray) : outcome State :=
  if isHit lk then b ← block_of lk a; Done (state b) else Done (theOrigState lk).
Definition change_set (i : Z) (f : CacheSet -> outcome CacheSet) (a : StdArray) : outcome StdArray :=
  s ← vec_at (theSets a) i;
  s ← f s;
  l ← vec_put (theSets a) i s;
  Done (set_sets l a).
Definition change_block (lk : LookupResult) (f : State -> State) (a : StdArray) : outcome StdArray :=
  match theBlock lk with
  | None => Assert "null block"
  | Some k => change_set (theSet lk) (fun s => Done (alter_block k (fun b => set_state (f (state b)) b) s)) a
  end.
Definition setState (lk : LookupResult) (aNewState : State) : StdArray -> outcome StdArray :=
  change_block lk (fun s => assign s aNewState).
Definition lk_setProtected (lk : LookupResult) (val : bool) : StdArray -> outcome StdArray :=
  change_block lk (setProtected val).
Definition lk_setPrefetched (lk : LookupResult) (val : bool) : StdArray -> outcome StdArray :=
  change_block lk (setPrefetched val).

Definition canAllocate (lk : LookupResult) (a : StdArray) : outcome bool :=
  s ← vec_at (theSets a) (theSet lk); set_canAllocate lk s.

(** The result for the victim, the changed lookup, the array. *)
Definition allocate (lk : LookupResult) (anAddress : Z) (a : StdArray)
    : outcome (LookupResult * LookupResult * StdArray) :=
  s ← vec_at (theSets a) (theSet lk);
  '(victim, lk', s) ← set_allocate lk (blockAddress a anAddress) s;
  l ← vec_put (theSets a) (theSet lk) s;
  Done (victim, lk', set_sets l a).

Definition with_block (why : string) (lk : LookupResult) (f : nat -> CacheSet -> outcome CacheSet) (a : StdArray)
    : outcome StdArray :=
  match theBlock lk with None => Assert why | Some k => change_set (theSet lk) (f k) a end.
Definition recordAccess (lk : LookupResult) : StdArray -> outcome StdArray :=
  with_block "std_lookup->valid()" lk set_recordAccess.
Definition invalidateBlock (lk : LookupResult) : StdArray -> outcome StdArray :=
  with_block "std_lookup->valid()" lk set_invalidateBlock.

(** What StdArray inherits, or has in place, for resources that only other arrays need. *)
Definition freeEvictionResources : Z := 2 ^ 32 - 1.
Definition evictionResourcePressure : bool := false.
Definition evictionResourcesAvailable : bool := true.
Definition getPreemptiveEviction : State * Z := (Invalid, 0).

(** ** States and flags *)

(** The state without the flags. *)
Definition st (s : State) : Z := Z.land s STATE_MASK.

Lemma eqb_st a b : eqb a b = (st a =? st b).
Proof.
  unfold eqb, st. apply eq_true_iff_eq. rewrite !Z.eqb_eq. split.
  - intros E. apply Z.bits_inj'. intros n Hn. apply (f_equal (fun x => Z.testbit x n)) in E.
    rewrite Z.land_spec, Z.lxor_spec, Z.bits_0 in E. rewrite !Z.land_spec.
    by destruct (Z.testbit a n), (Z.testbit b n), (Z.testbit STATE_MASK n).
  - intros E. apply Z.bits_inj'. intros n Hn. apply (f_equal (fun x => Z.testbit x n)) in E.
    rewrite !Z.land_spec in E. rewrite Z.land_spec, Z.lxor_spec, Z.bits_0.
    by destruct (Z.testbit a n), (Z.testbit b n), (Z.testbit STATE_MASK n).
Qed.

Lemma st_st s : st (st s) = st s.
Proof. apply land_idem. Qed.

(** Bits 0 to 3 are the state's, 4 and 5 the flags'. *)
Lemma state_mask_bits n : 0 <= n -> Z.testbit STATE_MASK n = (n <? 4).
Proof. intros Hn. change STATE_MASK with (Z.ones 4). apply Z.testbit_ones_nonneg; lia. Qed.

Lemma st_assign old new : st (assign old new) = st new.
Proof.
  apply Z.bits_inj'. intros n Hn. unfold st, assign. rewrite !Z.land_spec, Z.lor_spec, !Z.land_spec, Z.lnot_spec by done.
  by destruct (Z.testbit old n), (Z.testbit new n), (Z.testbit STATE_MASK n).
Qed.

Lemma st_flag k (p : bool) s :
  4 <= k -> st (if p then Z.lor s (2 ^ k) else Z.land s (Z.lnot (2 ^ k))) = st s.
Proof.
  intros Hk. apply Z.bits_inj'. intros n Hn. unfold st. rewrite !Z.land_spec, state_mask_bits by done.
  destruct (Z.ltb_spec n 4) as [Ln|]; [|by rewrite !andb_false_r].
  destruct p; rewrite ?Z.lor_spec, ?Z.land_spec, ?Z.lnot_spec, Z.pow2_bits_eqb, (proj2 (Z.eqb_neq k n)) by lia;
    by rewrite ?orb_false_r, ?andb_true_r.
Qed.
Lemma st_setProtected p s : st (setProtected p s) = st s.
Proof. by apply (st_flag 5). Qed.
Lemma st_setPrefetched p s : st (setPrefetched p s) = st s.
Proof. by apply (st_flag 4). Qed.

Lemma valid_st b : valid b = negb (st (state b) =? Invalid).
Proof. unfold valid, isValid. by rewrite eqb_st. Qed.
Lemma invalid_st b : valid b = false <-> st (state b) = Invalid.
Proof. rewrite valid_st, negb_false_iff. apply Z.eqb_eq. Qed.

(** A new state leaves the flags. *)
Lemma assign_flags old new : prefetched (assign old new) = prefetched old /\ isProtected (assign old new) = isProtected old.
Proof.
  assert (K : forall k, 4 <= k -> Z.land (assign old new) (2 ^ k) = Z.land old (2 ^ k)).
  { intros k Hk. apply Z.bits_inj'. intros n Hn. unfold assign.
    rewrite !Z.land_spec, Z.lor_spec, !Z.land_spec, Z.lnot_spec, state_mask_bits, Z.pow2_bits_eqb by lia.
    destruct (Z.eqb_spec k n) as [->|]; [|by rewrite !andb_false_r].
    rewrite (proj2 (Z.ltb_ge n 4)) by lia. by rewrite andb_false_r, andb_true_r, orb_false_r. }
  unfold prefetched, isProtected. change PREFETCH_MASK with (2 ^ 4). change PROTECT_MASK with (2 ^ 5).
  by rewrite !K.
Qed.

(** ** Sets keep their blocks apart *)

(** A valid block of address [t]. *)
Definition is_at (t : Z) (s : CacheSet) (k : nat) (b : Block) : Prop :=
  theBlocks s !! k = Some b /\ tag b = t /\ valid b = true.

Record set_ok (n : nat) (s : CacheSet) : Prop := {
  so_length : length (theBlocks s) = n;
  so_order : match replacement s with LRU order => order ≡ₚ seq 0 n | PLRU bits => length bits = n end;
  so_unique : forall t j k b c, is_at t s j b -> is_at t s k c -> j = k;
}.

(** The state of an address, [Invalid] when no valid block has it. *)
Definition peek_set (t : Z) (s : CacheSet) : Z :=
  match list_find (fun b => tag b = t /\ valid b = true) (theBlocks s) with
  | Some (_, b) => st (state b)
  | None => Invalid
  end.

Lemma peek_at n t s k b : set_ok n s -> is_at t s k b -> peek_set t s = st (state b).
Proof.
  intros Ok A. unfold peek_set. destruct (list_find _ _) as [[j c]|] eqn:F.
  - apply list_find_Some in F as (Ec & [Ht Hv] & _).
    rewrite (so_unique _ _ Ok t j k c b) in Ec by done. destruct A as [Eb _]. congruence.
  - destruct A as (Eb & Ht & Hv). apply list_find_None in F. rewrite Forall_forall in F.
    destruct (F b); [by eapply list_elem_of_lookup_2|done].
Qed.

Lemma peek_none t s : (forall k b, ~ is_at t s k b) -> peek_set t s = Invalid.
Proof.
  intros N. unfold peek_set. destruct (list_find _ _) as [[j c]|] eqn:F; [|done].
  apply list_find_Some in F as (Ec & [Ht Hv] & _). by destruct (N j c).
Qed.

Lemma peek_valid n t s : set_ok n s -> peek_set t s <> Invalid -> exists k b, is_at t s k b.
Proof.
  intros Ok N. unfold peek_set in N. destruct (list_find _ _) as [[j c]|] eqn:F; [|done].
  apply list_find_Some in F as (Ec & [Ht Hv] & _). by exists j, c.
Qed.

Lemma peek_iff n t s : set_ok n s -> peek_set t s = Invalid <-> forall k b, ~ is_at t s k b.
Proof.
  intros Ok. split; [|apply peek_none]. intros E k b A. rewrite (peek_at n t s k b Ok A) in E.
  destruct A as (_ & _ & V). rewrite valid_st, E in V. done.
Qed.

(** A result that points to the only block that may be valid for [t]. *)
Record points (t : Z) (lk : LookupResult) (s : CacheSet) : Prop := {
  pt_block : forall k, theBlock lk = Some k -> exists b, theBlocks s !! k = Some b /\ tag b = t;
  pt_only : forall j b, is_at t s j b -> theBlock lk = Some j;
  pt_hit : isHit lk = true -> theBlock lk <> None;
  pt_orig : isHit lk = false -> st (theOrigState lk) = Invalid;
}.

Lemma points_peek n t lk s k b :
  set_ok n s -> points t lk s -> theBlock lk = Some k -> theBlocks s !! k = Some b -> peek_set t s = st (state b).
Proof.
  intros Ok Pt Ek Eb. destruct (pt_block _ _ _ Pt k Ek) as (c & Ec & Ht). rewrite Eb in Ec. injection Ec as <-.
  destruct (valid b) eqn:V; [by eapply peek_at|]. apply invalid_st in V. rewrite V. apply peek_none.
  intros j c A. pose proof (pt_only _ _ _ Pt j c A) as Ej. rewrite Ek in Ej. injection Ej as <-.
  destruct A as (Ec & _ & Vc). rewrite Eb in Ec. injection Ec as <-. by rewrite valid_st, V in Vc.
Qed.

Lemma lookup_from_spec t i acc l r hit :
  lookup_from t i acc l = (r, hit) ->
  if hit then exists j b, r = Some (i + j)%nat /\ l !! j = Some b /\ tag b = t /\ valid b = true
  else (forall j b, l !! j = Some b -> tag b = t -> valid b = false) /\
       (r = acc \/ exists j b, r = Some (i + j)%nat /\ l !! j = Some b /\ tag b = t).
Proof.
  revert i acc. induction l as [|b l IH]; intros i acc.
  - cbn. intros [= <- <-]. by split; [|left].
  - cbn [lookup_from]. destruct (Z.eqb_spec (tag b) t) as [Et|Nt]; [destruct (valid b) eqn:V|].
    + intros [= <- <-]. exists 0%nat, b. by rewrite Nat.add_0_r.
    + intros E. apply IH in E. destruct hit.
      * destruct E as (j & c & -> & Ec & ?). exists (Datatypes.S j), c. split; [f_equal; lia|done].
      * destruct E as [N R]. split; [intros [|j] c; [by intros [= <-]|apply N]|]. right.
        destruct R as [-> | (j & c & -> & Ec & ?)]; [exists 0%nat, b; by rewrite Nat.add_0_r|].
        exists (Datatypes.S j), c. split; [f_equal; lia|done].
    + intros E. apply IH in E. destruct hit.
      * destruct E as (j & c & -> & Ec & ?). exists (Datatypes.S j), c. split; [f_equal; lia|done].
      * destruct E as [N R]. split; [intros [|j] c; [intros [= <-]; congruence|apply N]|].
        destruct R as [-> | (j & c & -> & Ec & ?)]; [by left|right].
        exists (Datatypes.S j), c. split; [f_equal; lia|done].
Qed.

Lemma lookupBlock_ok n i t s :
  set_ok n s ->
  let lk := lookupBlock i t s in
  points t lk s /\ theSet lk = i /\ theBlockAddress lk = t /\ (isHit lk = true <-> peek_set t s <> Invalid).
Proof.
  intros Ok. unfold lookupBlock. destruct (lookup_from t 0 None (theBlocks s)) as [r hit] eqn:E.
  apply lookup_from_spec in E. cbn. destruct hit.
  - destruct E as (j & b & -> & Eb & Ht & Hv). cbn. assert (A : is_at t s j b) by done. split; [|split_and!; [done..|]].
    + split; cbn; [intros k [= <-]; by exists b|intros k c C; f_equal; by eapply (so_unique _ _ Ok)|done|done].
    + split; [|done]. intros _. rewrite (peek_at n t s j b Ok A). intros E. by rewrite valid_st, E in Hv.
  - destruct E as [N R]. split; [|split_and!; [done..|]].
    + split; cbn; [|by intros j b (Eb & Ht & Hv); rewrite (N j b Eb Ht) in Hv|done|by destruct r].
      intros k ->. destruct R as [[=]|(j & b & [= ->] & Eb & Ht)]. by exists b.
    + split; [done|]. intros H. destruct H. apply peek_none. intros k b (Eb & Ht & Hv).
      by rewrite (N k b Eb Ht) in Hv.
Qed.

(** One block changes. *)
Lemma alter_at k f s j :
  theBlocks (alter_block k f s) !! j = if decide (j = k) then f <$> theBlocks s !! j else theBlocks s !! j.
Proof.
  cbn. case_decide as D; [subst j; apply list_lookup_alter_eq|by apply list_lookup_alter_ne].
Qed.

(** Nothing but the flags of a block changes. *)
Lemma flags_ok n k f s :
  set_ok n s -> (forall b, tag (f b) = tag b /\ st (state (f b)) = st (state b)) ->
  set_ok n (alter_block k f s) /\ (forall t, peek_set t (alter_block k f s) = peek_set t s) /\
  (forall t lk, points t lk s -> points t lk (alter_block k f s)).
Proof.
  intros Ok Hf.
  assert (V : forall b, valid (f b) = valid b) by (intros b; rewrite !valid_st; by destruct (Hf b) as [_ ->]).
  assert (A : forall t j c, is_at t (alter_block k f s) j c -> exists b, is_at t s j b /\ st (state c) = st (state b)).
  { intros t j c (Ec & Ht & Hv). rewrite alter_at in Ec. case_decide as D; [|by exists c].
    destruct (theBlocks s !! j) as [b|] eqn:Eb; [|done]. injection Ec as <-. exists b.
    rewrite V in Hv. destruct (Hf b) as [Et Es]. rewrite Et in Ht. by rewrite Es. }
  assert (A' : forall t j b, is_at t s j b -> exists c, is_at t (alter_block k f s) j c).
  { intros t j b (Eb & Ht & Hv). unfold is_at. setoid_rewrite alter_at. case_decide; [|by exists b].
    rewrite Eb. exists (f b). rewrite V. destruct (Hf b) as [-> _]. done. }
  assert (Ok' : set_ok n (alter_block k f s)).
  { split; [cbn; rewrite length_alter; apply Ok|apply Ok|]. intros t i j b c Hb Hc.
    apply A in Hb as (b' & Hb & _), Hc as (c' & Hc & _). by eapply (so_unique _ _ Ok). }
  split; [done|]. split.
  - intros t. destruct (decide (peek_set t s = Invalid)) as [E|N].
    + rewrite E. apply peek_none. intros j c (b & Hb & _)%A. rewrite (peek_iff n t s Ok) in E. by destruct (E j b).
    + apply (peek_valid n t s Ok) in N as (j & b & Hb). destruct (A' _ _ _ Hb) as (c & Hc).
      rewrite (peek_at _ _ _ _ _ Ok' Hc), (peek_at _ _ _ _ _ Ok Hb).
      destruct (A _ _ _ Hc) as (b' & (Eb' & _) & ->). destruct Hb as [Eb _]. congruence.
  - intros t lk [B O H I]. split; [|by intros j c (b & Hb & _)%A; eapply O|done|done].
    intros j Ej. destruct (B j Ej) as (b & Eb & Ht). rewrite alter_at. case_decide; [|by exists b].
    rewrite Eb. exists (f b). destruct (Hf b) as [-> _]. done.
Qed.

(** The block that a result points to gets a state. *)
Lemma put_ok n t lk k g s :
  set_ok n s -> points t lk s -> theBlock lk = Some k ->
  let s' := alter_block k (fun b => set_state (g (state b)) b) s in
  exists b, theBlocks s !! k = Some b /\
  set_ok n s' /\ points t lk s' /\ (forall t', peek_set t' s' = if decide (t' = t) then st (g (state b)) else peek_set t' s).
Proof.
  intros Ok Pt Ek. destruct (pt_block _ _ _ Pt k Ek) as (b & Eb & Ht). exists b. split; [done|].
  set (s' := alter_block _ _ s).
  assert (A : forall t' j c, is_at t' s' j c -> (j = k /\ t' = t /\ c = set_state (g (state b)) b) \/ (j <> k /\ is_at t' s j c)).
  { intros t' j c (Ec & Ht' & Hv). unfold s' in Ec. rewrite alter_at in Ec. case_decide as D; [|by right].
    left. subst j. rewrite Eb in Ec. injection Ec as <-. by cbn in Ht'; subst. }
  assert (O : forall j c, is_at t s j c -> j = k).
  { intros j c Hc. pose proof (pt_only _ _ _ Pt j c Hc) as Ej. congruence. }
  assert (Ok' : set_ok n s').
  { split; [cbn; rewrite length_alter; apply Ok|apply Ok|]. intros t' i j x y Hx Hy.
    apply A in Hx as [(-> & -> & _)|[Ni Hx]], Hy as [(-> & Et & _)|[Nj Hy]]; [done|..|by eapply (so_unique _ _ Ok)].
    - by destruct Nj; apply (O j y).
    - subst t'. by destruct Ni; apply (O i x). }
  assert (Pt' : points t lk s').
  { destruct Pt as [B On H I]. split; [|by intros j c [(-> & _)|[_ Hc]]%A; [|eapply On]|done|done].
    intros j Ej. rewrite Ek in Ej. injection Ej as <-. unfold s'. rewrite alter_at, decide_True, Eb by done. by eexists. }
  split_and!; [done..|]. intros t'. case_decide as D.
  - subst t'. assert (Eb' : theBlocks s' !! k = Some (set_state (g (state b)) b)).
    { unfold s'. by rewrite alter_at, decide_True, Eb by done. }
    by rewrite (points_peek n t lk s' k _ Ok' Pt' Ek Eb').
  - destruct (decide (peek_set t' s = Invalid)) as [E|N].
    + rewrite E. apply peek_none. rewrite (peek_iff n t' s Ok) in E.
      intros j c [(_ & ? & _)|[_ Hc]]%A; [done|by destruct (E j c)].
    + apply (peek_valid n t' s Ok) in N as (j & c & Hc).
      assert (Nj : j <> k). { intros ->. destruct Hc as (Ec & Hc & _). rewrite Eb in Ec. injection Ec as <-. congruence. }
      assert (Hc' : is_at t' s' j c). { destruct Hc as (? & ?). unfold is_at, s'. by rewrite alter_at, decide_False by done. }
      by rewrite (peek_at _ _ _ _ _ Ok' Hc'), (peek_at _ _ _ _ _ Ok Hc).
Qed.

(** A block is given the address [t] that no valid block has, and no valid state. *)
Lemma replace_ok n t k f s b :
  set_ok n s -> (forall j c, ~ is_at t s j c) -> theBlocks s !! k = Some b ->
  (forall c, tag (f c) = t /\ st (state (f c)) = Invalid) ->
  let s' := alter_block k f s in
  set_ok n s' /\ theBlocks s' !! k = Some (f b) /\
  (forall t' j c, is_at t' s' j c <-> j <> k /\ is_at t' s j c) /\
  (forall t', peek_set t' s' = if decide (valid b = true /\ tag b = t') then Invalid else peek_set t' s).
Proof.
  intros Ok N Eb Hf s'.
  assert (V : forall c, valid (f c) = false) by (intros c; apply invalid_st, Hf).
  assert (A : forall t' j c, is_at t' s' j c <-> j <> k /\ is_at t' s j c).
  { intros t' j c. unfold is_at, s'. rewrite alter_at. case_decide as D; [|by split; [|tauto]].
    split; [|by intros [? _]]. intros (Ec & _ & Hv). destruct (theBlocks s !! j); [|done].
    injection Ec as <-. by rewrite V in Hv. }
  assert (Ok' : set_ok n s').
  { split; [cbn; rewrite length_alter; apply Ok|apply Ok|].
    intros t' i j x y [_ Hx]%A [_ Hy]%A. by eapply (so_unique _ _ Ok). }
  split_and!; [done|unfold s'; by rewrite alter_at, decide_True, Eb by done|done|].
  intros t'. case_decide as D.
  - apply peek_none. intros j c [Nj Hc]%A. destruct D as [Hv Ht].
    by destruct Nj; eapply (so_unique _ _ Ok t').
  - destruct (decide (peek_set t' s = Invalid)) as [E|Ne].
    + rewrite E. apply peek_none. rewrite (peek_iff n t' s Ok) in E. intros j c [_ Hc]%A. by destruct (E j c).
    + apply (peek_valid n t' s Ok) in Ne as (j & c & Hc).
      assert (Nj : j <> k). { intros ->. destruct D. destruct Hc as (Ec & Hc & Hv). rewrite Eb in Ec. by injection Ec as <-. }
      rewrite (peek_at n t' s j c Ok Hc). eapply peek_at; [done|]. by apply A.
Qed.

(** ** The replacement order *)

Lemma order_without_ok n k order :
  order ≡ₚ seq 0 n -> (k < n)%nat -> exists l, without k order = Done l /\ k :: l ≡ₚ order.
Proof.
  intros Pm Hk. assert (I : k ∈ order) by (rewrite Pm; apply elem_of_seq; lia).
  unfold without. destruct (list_find (fun x => x = k) order) as [[i x]|] eqn:F.
  - apply list_find_Some in F as (Ei & -> & _). eexists. split; [done|].
    rewrite <-(take_drop_middle order i k Ei) at 3. by rewrite Permutation_middle.
  - apply list_find_None in F. rewrite Forall_forall in F. by destruct (F k I).
Qed.

(** A change of the order only. *)
Lemma reordered_ok n r s :
  set_ok n s -> match r with LRU order => order ≡ₚ seq 0 n | PLRU bits => length bits = n end ->
  set_ok n (set_replacement r s) /\ (forall t, peek_set t (set_replacement r s) = peek_set t s) /\
  (forall t lk, points t lk s -> points t lk (set_replacement r s)).
Proof. intros [] Hr. split_and!; [by split|done|]. intros t lk []. by split. Qed.

Lemma recordAccess_order n k s :
  set_ok n s -> (k < n)%nat ->
  exists r, set_recordAccess k s = Done (set_replacement r s) /\
    match r with LRU order => order ≡ₚ seq 0 n | PLRU bits => length bits = n end.
Proof.
  intros Ok Hk. pose proof (so_order _ _ Ok) as O. unfold set_recordAccess. destruct (replacement s) as [order|bits].
  - destruct (order_without_ok n k order O Hk) as (l & El & Pm). unfold moveToHead. rewrite El. cbn.
    exists (LRU (k :: l)). split; [done|]. by rewrite Pm.
  - eexists (PLRU _). split; [done|]. cbn zeta. case_match; rewrite ?length_insert, ?length_fmap, ?length_insert; done.
Qed.

Lemma invalidateBlock_order n k s :
  set_ok n s -> (k < n)%nat ->
  exists r, set_invalidateBlock k s = Done (set_replacement r s) /\
    match r with LRU order => order ≡ₚ seq 0 n | PLRU bits => length bits = n end.
Proof.
  intros Ok Hk. pose proof (so_order _ _ Ok) as O. unfold set_invalidateBlock. destruct (replacement s) as [order|bits].
  - destruct (order_without_ok n k order O Hk) as (l & El & Pm). unfold moveToTail. rewrite El. cbn.
    exists (LRU (l ++ [k])). split; [done|]. by rewrite <-Permutation_cons_append, Pm.
  - eexists (PLRU _). split; [done|]. by rewrite length_insert.
Qed.

Lemma unprotect_flags b : tag (unprotect b) = tag b /\ st (state (unprotect b)) = st (state b).
Proof. unfold unprotect. case_match; split; try done. apply st_setProtected. Qed.

(** What an allocation answers, and where it stops. *)
Lemma set_allocate_ok n t lk s :
  set_ok n s -> points t lk s ->
  match set_allocate lk t s with
  | Assert why => why = "All blocks in the set are protected and valid."%string \/ why = "false"%string
  | Done (v, lk', s') =>
      set_ok n s' /\ points t lk' s' /\ isHit lk' = true /\ isHit v = false /\
      theSet lk' = theSet lk /\ theBlockAddress lk' = theBlockAddress lk /\
      (st (theOrigState v) <> Invalid ->
         theBlock lk = None /\ peek_set (theBlockAddress v) s = st (theOrigState v) /\ theBlockAddress v <> t /\
         exists k b, is_at (theBlockAddress v) s k b) /\
      (forall t', peek_set t' s' =
         if decide (st (theOrigState v) <> Invalid /\ theBlockAddress v = t') then Invalid else peek_set t' s) /\
      (forall t' j b, is_at t' s' j b -> is_at t' s j b)
  end.
Proof.
  intros Ok Pt. unfold set_allocate. destruct (theBlock lk) as [k|] eqn:Ek.
  - destruct (pt_block _ _ _ Pt k Ek) as (b & Eb & Ht). rewrite Eb. cbn [mbind outcome_bind].
    rewrite (proj2 (Z.eqb_eq _ _) Ht). pose proof (lookup_lt_Some _ _ _ Eb) as Hk. rewrite (so_length _ _ Ok) in Hk.
    destruct (recordAccess_order n k s Ok Hk) as (r & Er & Hr). rewrite Er. cbn [mbind outcome_bind].
    destruct (reordered_ok n r s Ok Hr) as (Ok' & Pk & _). split; [done|]. split.
    { destruct Pt as [B O H I]. split; cbn; [|by intros j c Hc; rewrite <-Ek; eapply O|done|done].
      intros j [= <-]. by exists b. }
    split_and!; [done..|by intros Ni; destruct Ni| |done].
    + intros t'. rewrite Pk. cbn. rewrite decide_False; [done|]. by intros [Ni _].
  - destruct (pickVictim s) as [[k s1]|why] eqn:Ev; cbn [mbind outcome_bind].
    2: { unfold pickVictim in Ev. destruct (replacement s); [destruct (victim_of _ s)|]; simplify_eq; auto. }
    assert (N : forall j c, ~ is_at t s j c) by (intros j c Hc; by rewrite (pt_only _ _ _ Pt j c Hc) in Ek).
    unfold pickVictim in Ev. destruct (replacement s) as [order|] eqn:Er; [|done].
    destruct (victim_of order s) as [k'|] eqn:Vo; [|done]. injection Ev as <- <-.
    apply List.find_some in Vo as [Hin Hr]. unfold replaceable_at in Hr.
    destruct (theBlocks s !! k') as [b|] eqn:Eb; [|done].
    destruct (flags_ok n k' unprotect s Ok unprotect_flags) as (Ok1 & Pk1 & _).
    set (s1 := alter_block k' unprotect s) in *.
    assert (Eb1 : theBlocks s1 !! k' = Some (unprotect b)) by (unfold s1; by rewrite alter_at, decide_True, Eb by done).
    rewrite Eb1. cbn [mbind outcome_bind].
    destruct (unprotect_flags b) as [Tu Su].
    assert (Av : forall t' j c, is_at t' s j c -> exists d, is_at t' s1 j d).
    { intros t' j c (Ec & Hc & Hv). unfold is_at, s1. setoid_rewrite alter_at. case_decide as D; [|by exists c].
      rewrite Ec. exists (unprotect c). destruct (unprotect_flags c) as [-> Sc]. split_and!; try done.
      by rewrite valid_st, Sc, <-valid_st. }
    assert (Av' : forall t' j c, is_at t' s1 j c -> exists d, is_at t' s j d).
    { intros t' j c (Ec & Hc & Hv). unfold s1 in Ec. rewrite alter_at in Ec. case_decide as D; [|by exists c].
      destruct (theBlocks s !! j) as [d|] eqn:Ed; [|done]. injection Ec as <-. exists d.
      destruct (unprotect_flags d) as [Td Sd]. rewrite Td in Hc. rewrite valid_st, Sd, <-valid_st in Hv. done. }
    assert (N1 : forall j c, ~ is_at t s1 j c).
    { intros j c (d & Hd)%Av'. by destruct (N j d). }
    destruct (replace_ok n t k' (fun b => set_state (assign (state b) Invalid) (set_tag t b)) s1 _ Ok1 N1 Eb1)
      as (Ok2 & Eb2 & A2 & P2).
    { intros c. cbn. by rewrite st_assign. }
    set (s2 := alter_block k' _ s1) in *.
    assert (Hk : (k' < n)%nat) by (rewrite <-(so_length _ _ Ok); by eapply lookup_lt_Some).
    destruct (recordAccess_order n k' s2 Ok2 Hk) as (r & Err & Hrr). rewrite Err. cbn [mbind outcome_bind].
    destruct (reordered_ok n r s2 Ok2 Hrr) as (Ok3 & Pk3 & _). cbn [theOrigState theBlockAddress isHit theSet].
    assert (Vb : valid (unprotect b) = valid b) by (by rewrite !valid_st, Su).
    split_and!; try done.
    + split; cbn; [|by intros j c [_ Hc]%A2; destruct (N1 j c)|done|done].
      intros j [= <-]. eexists. split; [exact Eb2|done].
    + intros Nv. rewrite Su in Nv. assert (Hv : valid b = true) by (rewrite valid_st; by apply negb_true_iff, Z.eqb_neq).
      assert (Hb : is_at (tag b) s k' b) by done. rewrite Tu. split; [done|]. split_and!.
      * rewrite Su. by eapply peek_at.
      * intros Et. destruct (N k' b). by rewrite <-Et.
      * by exists k', b.
    + intros t'. rewrite Pk3, P2, Pk1, Vb, Su. rewrite valid_st.
      destruct (Z.eqb_spec (st (state b)) Invalid) as [E|Ne]; cbn [negb]; repeat case_decide; naive_solver.
    + intros t' j c [Nj Hc]%A2. destruct Hc as (Ec & Hc). unfold s1 in Ec.
      rewrite alter_at, decide_False in Ec by done. by split.
Qed.

(** ** The array keeps every block in its set *)

Record array_ok (a : StdArray) : Prop := {
  ao_count : 0 < setCount a;
  ao_length : length (theSets a) = Z.to_nat (setCount a);
  ao_mask : setIndexMask a = setCount a - 1;
  ao_shift : 0 <= setIndexShift a;
  ao_offset : blockOffsetMask a = Z.ones (setIndexShift a);
  ao_sets : forall i s, theSets a !! i = Some s ->
    set_ok (Z.to_nat (theAssociativity a)) s /\
    forall t k b, is_at t s k b -> makeSet a t = Z.of_nat i /\ blockAddress a t = t;
}.

Lemma blockAddress_idem a x : blockAddress a (blockAddress a x) = blockAddress a x.
Proof. apply land_idem. Qed.

Lemma makeSet_block a x : array_ok a -> makeSet a (blockAddress a x) = makeSet a x.
Proof.
  intros Ok. unfold makeSet, blockAddress. rewrite (ao_offset _ Ok). f_equal. pose proof (ao_shift _ Ok).
  apply Z.bits_inj'. intros n Hn. rewrite !Z.shiftr_spec, Z.land_spec, Z.lnot_spec by lia.
  rewrite Z.testbit_ones_nonneg by lia. rewrite (proj2 (Z.ltb_ge _ _)) by lia. by rewrite andb_true_r.
Qed.

Lemma makeSet_range a x : array_ok a -> 0 <= makeSet a x < setCount a.
Proof.
  intros Ok. unfold makeSet. pose proof (ao_count _ Ok). rewrite (ao_mask _ Ok).
  pose proof (land_bound (Z.shiftr x (setIndexShift a)) (setCount a - 1)). lia.
Qed.

(** The set of an address, and the state of its block. *)
Lemma set_of a x : array_ok a ->
  exists s, theSets a !! Z.to_nat (makeSet a x) = Some s /\ vec_at (theSets a) (makeSet a x) = Done s.
Proof. intros Ok. pose proof (makeSet_range a x Ok). apply vec_at_in. rewrite (ao_length _ Ok). lia. Qed.

Definition peek (a : StdArray) (x : Z) : Z :=
  match theSets a !! Z.to_nat (makeSet a x) with Some s => peek_set (blockAddress a x) s | None => Invalid end.

(** A result of a lookup of [x] that is still good. *)
Record handle (a : StdArray) (x : Z) (lk : LookupResult) : Prop := {
  hd_points : exists s, theSets a !! Z.to_nat (makeSet a x) = Some s /\ points (blockAddress a x) lk s;
  hd_set : theSet lk = makeSet a x;
  hd_address : theBlockAddress lk = blockAddress a x;
}.

Definition same_geometry (a a' : StdArray) : Prop :=
  theAssociativity a' = theAssociativity a /\ setCount a' = setCount a /\ setIndexShift a' = setIndexShift a /\
  setIndexMask a' = setIndexMask a /\ theTagShift a' = theTagShift a /\ blockOffsetMask a' = blockOffsetMask a.

#[global] Instance same_geometry_refl : Reflexive same_geometry.
Proof. by intros a. Qed.
#[global] Instance same_geometry_trans : Transitive same_geometry.
Proof. intros a b c (A1 & A2 & A3 & A4 & A5 & A6) (B1 & B2 & B3 & B4 & B5 & B6). split_and!; congruence. Qed.

Lemma same_block a a' x : same_geometry a a' -> blockAddress a' x = blockAddress a x.
Proof. intros (_ & _ & _ & _ & _ & E). unfold blockAddress. by rewrite E. Qed.
Lemma same_set a a' x : same_geometry a a' -> makeSet a' x = makeSet a x.
Proof. intros (_ & _ & E1 & E2 & _). unfold makeSet. by rewrite E1, E2. Qed.

(** The state of an address is that of its block. *)
Lemma peek_block a x y : array_ok a -> blockAddress a x = blockAddress a y -> peek a x = peek a y.
Proof. intros Ok E. unfold peek. by rewrite <-(makeSet_block a x Ok), E, (makeSet_block a y Ok). Qed.

(** One set is replaced. *)
Lemma put_set_ok a i s s' :
  array_ok a -> theSets a !! Z.to_nat i = Some s -> 0 <= i -> set_ok (Z.to_nat (theAssociativity a)) s' ->
  (forall t k b, is_at t s' k b -> makeSet a t = i /\ blockAddress a t = t) ->
  let a' := set_sets (<[Z.to_nat i := s']> (theSets a)) a in
  array_ok a' /\ same_geometry a a' /\
  (forall x, peek a' x = if decide (makeSet a x = i) then peek_set (blockAddress a x) s' else peek a x).
Proof.
  intros Ok Es Hi Os Hb a'. pose proof (lookup_lt_Some _ _ _ Es) as Li. split; [|split; [done|]].
  - destruct Ok. split; cbn; try done; [by rewrite length_insert|]. intros j u Eu.
    destruct (decide (j = Z.to_nat i)) as [->|N].
    + rewrite list_lookup_insert_eq in Eu by done. injection Eu as <-. split; [done|]. intros t k b Hk.
      rewrite Z2Nat.id by done. by eapply Hb.
    + rewrite list_lookup_insert_ne in Eu by done. by apply ao_sets0.
  - intros x. unfold peek. cbn. pose proof (makeSet_range a x Ok). case_decide as D.
    + change (makeSet a' x) with (makeSet a x). by rewrite D, list_lookup_insert_eq.
    + rewrite list_lookup_insert_ne; [done|]. intros E. apply D. change (makeSet a' x) with (makeSet a x) in E. lia.
Qed.

(** A set is found, and put back changed. *)
Lemma change_set_run a i s s' f :
  array_ok a -> theSets a !! Z.to_nat i = Some s -> 0 <= i -> f s = Done s' ->
  change_set i f a = Done (set_sets (<[Z.to_nat i := s']> (theSets a)) a).
Proof.
  intros Ok Es Hi Ef. pose proof (lookup_lt_Some _ _ _ Es) as Li. unfold change_set.
  destruct (vec_at_in (theSets a) i) as (u & Eu & ->); [lia|]. rewrite Es in Eu. injection Eu as <-.
  cbn [mbind outcome_bind]. rewrite Ef. cbn [mbind outcome_bind]. by rewrite vec_put_in by lia.
Qed.

Lemma lookup_ok a x : array_ok a ->
  exists lk, lookup a x = Done lk /\ handle a x lk /\ (isHit lk = true <-> peek a x <> Invalid).
Proof.
  intros Ok. destruct (set_of a x Ok) as (s & Es & Ev). destruct (ao_sets _ Ok _ _ Es) as [Os _].
  destruct (lookupBlock_ok _ (makeSet a x) (blockAddress a x) s Os) as (Pt & Hs & Ha & Hh).
  eexists. unfold lookup. rewrite Ev. split; [done|]. split; [split; [by exists s|done|done]|].
  unfold peek. by rewrite Es.
Qed.

Lemma handle_state a x lk : array_ok a -> handle a x lk ->
  exists v, lk_state lk a = Done v /\ st v = if isHit lk then peek a x else Invalid.
Proof.
  intros Ok [(s & Es & Pt) Hs Ha]. unfold lk_state. destruct (isHit lk) eqn:Hh.
  - destruct (theBlock lk) as [k|] eqn:Ek; [|by destruct (pt_hit _ _ _ Pt Hh)].
    destruct (pt_block _ _ _ Pt k Ek) as (b & Eb & _). unfold block_of. rewrite Ek, Hs.
    destruct (set_of a x Ok) as (s' & Es' & ->). rewrite Es in Es'. injection Es' as <-. cbn [mbind outcome_bind].
    rewrite Eb. eexists. split; [done|]. unfold peek. rewrite Es. symmetry.
    by eapply points_peek; [apply (ao_sets _ Ok _ _ Es)|..].
  - eexists. split; [done|]. by apply (pt_orig _ _ _ Pt).
Qed.

(** The block of a result gets a state. *)
Lemma change_block_ok a x lk g : array_ok a -> handle a x lk ->
  match change_block lk g a with
  | Assert why => why = "null block"%string
  | Done a' =>
      array_ok a' /\ same_geometry a a' /\ handle a' x lk /\
      exists v, st v = peek a x /\
      forall y, peek a' y = if decide (blockAddress a y = blockAddress a x) then st (g v) else peek a y
  end.
Proof.
  intros Ok [(s & Es & Pt) Hs Ha]. unfold change_block. destruct (theBlock lk) as [k|] eqn:Ek; [|done].
  destruct (ao_sets _ Ok _ _ Es) as [Os Hm]. pose proof (makeSet_range a x Ok) as Rx.
  destruct (put_ok _ _ _ k g s Os Pt Ek) as (b & Eb & Os' & Pt' & Pk).
  set (s' := alter_block k _ s) in *. rewrite Hs.
  rewrite (change_set_run a (makeSet a x) s s'); [|done|done|lia|done].
  destruct (put_set_ok a (makeSet a x) s s') as (Ok' & G & P); [done|done|lia|done| |].
  { intros t j c Hc. destruct (decide (t = blockAddress a x)) as [->|N].
    - by rewrite (makeSet_block a x Ok), blockAddress_idem.
    - destruct Hc as (Ec & Ht & Hv). unfold s' in Ec. rewrite alter_at in Ec. case_decide as D.
      + subst j. rewrite Eb in Ec. injection Ec as <-. cbn in Ht. destruct (pt_block _ _ _ Pt k Ek) as (b' & Eb' & Tb).
        rewrite Eb in Eb'. injection Eb' as <-. congruence.
      + destruct (Hm t j c) as [Em Et]; [done|]. split; [|done]. rewrite Em. lia. }
  split_and!; [done|done| |].
  - split; [|done|done]. exists s'. split; [|done]. change (makeSet _ x) with (makeSet a x). cbn.
    by rewrite list_lookup_insert_eq by by eapply lookup_lt_Some.
  - exists (state b). split.
    { unfold peek. rewrite Es. symmetry. by eapply points_peek. }
    intros y. rewrite P, Pk. repeat case_decide; try done.
    + unfold peek. by rewrite H, Es.
    + exfalso. apply H. by rewrite <-(makeSet_block a y Ok), H0, (makeSet_block a x Ok).
Qed.

(** The replacement order of the set of a result changes. *)
Lemma order_ok a x lk why (f : nat -> CacheSet -> outcome CacheSet) :
  (forall n k s, set_ok n s -> (k < n)%nat -> exists r, f k s = Done (set_replacement r s) /\
     match r with LRU order => order ≡ₚ seq 0 n | PLRU bits => length bits = n end) ->
  array_ok a -> handle a x lk ->
  match with_block why lk f a with
  | Assert w => w = why
  | Done a' => array_ok a' /\ same_geometry a a' /\ handle a' x lk /\ forall y, peek a' y = peek a y
  end.
Proof.
  intros Hf Ok [(s & Es & Pt) Hs Ha]. unfold with_block. destruct (theBlock lk) as [k|] eqn:Ek; [|done].
  destruct (ao_sets _ Ok _ _ Es) as [Os Hm]. pose proof (makeSet_range a x Ok) as Rx.
  destruct (pt_block _ _ _ Pt k Ek) as (b & Eb & _).
  destruct (Hf _ k s Os) as (r & Er & Hr); [rewrite <-(so_length _ _ Os); by eapply lookup_lt_Some|].
  destruct (reordered_ok _ r s Os Hr) as (Os' & Pk & Pt').
  rewrite Hs, (change_set_run a (makeSet a x) s (set_replacement r s)); [|done|done|lia|done].
  destruct (put_set_ok a (makeSet a x) s (set_replacement r s)) as (Ok' & G & P); [done|done|lia|done| |].
  { intros t j c Hc. destruct (Hm t j c) as [Em Et]; [done|]. split; [|done]. rewrite Em. lia. }
  split_and!; [done|done| |].
  - split; [|done|done]. exists (set_replacement r s). split; [|by apply Pt'].
    change (makeSet _ x) with (makeSet a x). cbn. by rewrite list_lookup_insert_eq by by eapply lookup_lt_Some.
  - intros y. rewrite P, Pk. case_decide as D; [|done]. unfold peek. by rewrite D, Es.
Qed.

(** What an allocation does to the array: the block of [x] is a hit, and the victim,
    when it was valid, is gone. *)
Lemma array_allocate_ok a x lk : array_ok a -> handle a x lk ->
  match allocate lk x a with
  | Assert why => why = "All blocks in the set are protected and valid."%string \/ why = "false"%string
  | Done (v, lk', a') =>
      array_ok a' /\ same_geometry a a' /\ handle a' x lk' /\ isHit lk' = true /\ isHit v = false /\
      (st (theOrigState v) <> Invalid ->
         peek a (theBlockAddress v) = st (theOrigState v) /\ blockAddress a (theBlockAddress v) = theBlockAddress v /\
         theBlockAddress v <> blockAddress a x /\ peek a' (theBlockAddress v) = Invalid) /\
      forall y, peek a' y =
        if decide (st (theOrigState v) <> Invalid /\ theBlockAddress v = blockAddress a y) then Invalid else peek a y
  end.
Proof.
  intros Ok [(s & Es & Pt) Hs Ha]. unfold allocate. destruct (ao_sets _ Ok _ _ Es) as [Os Hm].
  pose proof (makeSet_range a x Ok) as Rx. pose proof (lookup_lt_Some _ _ _ Es) as Li.
  rewrite Hs. destruct (vec_at_in (theSets a) (makeSet a x)) as (u & Eu & ->); [lia|]. rewrite Es in Eu. injection Eu as <-.
  cbn [mbind outcome_bind]. pose proof (set_allocate_ok _ _ _ _ Os Pt) as K.
  destruct (set_allocate lk _ s) as [[[v lk'] s']|why]; cbn [mbind outcome_bind]; [|done].
  destruct K as (Os' & Pt' & Hl & Hv & Es' & Ea' & Hold & Pk & Hin).
  rewrite vec_put_in by lia. cbn [mbind outcome_bind].
  destruct (put_set_ok a (makeSet a x) s s') as (Ok' & G & P); [done|done|lia|done| |].
  { intros t j c Hc. destruct (Hm t j c) as [Em Et]; [by apply Hin|]. split; [|done]. rewrite Em. lia. }
  assert (Hd : forall y,
    peek (set_sets (<[Z.to_nat (makeSet a x):=s']> (theSets a)) a) y =
      (if decide (st (theOrigState v) <> Invalid /\ theBlockAddress v = blockAddress a y) then Invalid else peek a y)).
  { intros y. rewrite P. destruct (decide (makeSet a y = makeSet a x)) as [D|D].
    - rewrite Pk. unfold peek. by rewrite D, Es.
    - rewrite decide_False; [done|]. intros [Nv Ev]. destruct (Hold Nv) as (_ & _ & _ & k & b & Hb).
      apply D. destruct (Hm _ _ _ Hb) as [Em _]. rewrite <-(makeSet_block a y Ok), <-Ev, Em. lia. }
  split_and!; try done.
  - split; [|by rewrite Es', Hs|by rewrite Ea']. exists s'. split; [|done]. change (makeSet _ x) with (makeSet a x). cbn.
    by rewrite list_lookup_insert_eq.
  - intros Nv. destruct (Hold Nv) as (_ & Pv & Nx & k & b & Hb). destruct (Hm _ _ _ Hb) as [Em Et].
    split_and!; [|done|done|].
    + unfold peek. rewrite Em, Nat2Z.id, Es, Et. done.
    + rewrite Hd. by rewrite decide_True by by rewrite Et.
Qed.

(** ** A new array *)

Lemma newSet_ok policy n : set_ok (Z.to_nat n) (newSet policy n) /\ forall t k b, ~ is_at t (newSet policy n) k b.
Proof.
  assert (N : forall t k b, ~ is_at t (newSet policy n) k b).
  { intros t k b (Eb & _ & Hv). cbn in Eb. apply list_elem_of_lookup_2, list_elem_of_In, repeat_spec in Eb as ->. done. }
  split; [|done]. split; cbn; [apply repeat_length|destruct policy; [done|apply repeat_length]|].
  intros t j k b c Hb. by destruct (N t j b).
Qed.

Lemma newArray_ok size assoc block policy a :
  newArray size assoc block policy = Done a -> assoc * block <= size -> size < 2 ^ 31 ->
  array_ok a /\ forall x, peek a x = Invalid.
Proof.
  unfold newArray. destruct (Z.ltb_spec 0 size) as [Hs|]; [|done]. destruct (Z.ltb_spec 0 assoc) as [Ha|]; [|done].
  destruct (Z.ltb_spec 0 block) as [Hb|]; [|done]. cbn [negb]. set (count := Z.quot (Z.quot size assoc) block).
  destruct (Z.eqb_spec (Z.land count (count - 1)) 0) as [Ec|]; [|done]. cbn [negb]. intros [= <-] Hle Hw.
  assert (Hc : 0 < count <= size).
  { unfold count. rewrite !Z.quot_div_nonneg by (try apply Z.quot_pos; lia). split.
    - rewrite Z.div_div by lia. apply Z.div_str_pos. lia.
    - rewrite Z.div_div by lia. apply Z.div_le_upper_bound; nia. }
  assert (Lb : 0 <= log_base2 block) by (rewrite log_base2_spec by nia; apply Z.log2_nonneg).
  assert (Ok : array_ok (mkArray assoc count (log_base2 block) (Z.shiftl 1 (log_base2 count) - 1)
    (log_base2 block + log_base2 count) (Z.shiftl 1 (log_base2 block) - 1)
    (repeat (newSet policy assoc) (Z.to_nat count)))).
  { split; cbn; [lia|apply repeat_length| |done| |].
    - rewrite (power_of_two count) at 2 by lia. rewrite log_base2_spec, Z.shiftl_mul_pow2 by (try apply Z.log2_nonneg; lia). lia.
    - rewrite Z.ones_equiv, Z.shiftl_mul_pow2 by done. lia.
    - intros i s Es. apply list_elem_of_lookup_2, list_elem_of_In, repeat_spec in Es as ->.
      destruct (newSet_ok policy assoc) as [Os N]. split; [done|]. intros t k b Hk. by destruct (N t k b). }
  split; [done|]. intros x. unfold peek. destruct (_ !! _) as [s|] eqn:Es; [|done]. cbn in Es.
  apply list_elem_of_lookup_2, list_elem_of_In, repeat_spec in Es as ->. apply peek_none, newSet_ok.
Qed.

End Arr.
