(* ===== verification/TagArrayContract.v ===== *)
(** * What the standard tag array promises

    The array of TagArray.v as the protocols use it: which block an allocation
    replaces, how addresses are taken apart, and what an array with the pseudo-LRU
    policy cannot do. *)

From stdpp Require Import base gmap list strings.
From Stdlib Require Import ZArith Lia.
From S2P Require Import Prelude StdCache TagArray.
Import BlockState.

Local Open Scope Z_scope.

(** ** The order of use *)

Definition lru_set (s : Arr.CacheSet) : Prop :=
  match Arr.replacement s with Arr.LRU _ => True | Arr.PLRU _ => False end.
Definition lru (a : Arr.StdArray) : Prop := Forall lru_set (Arr.theSets a).

Lemma set_allocate_lru lk t s v lk' s' :
  lru_set s -> Arr.set_allocate lk t s = Done (v, lk', s') -> lru_set s'.
Proof.
  assert (R : forall k u u', lru_set u -> Arr.set_recordAccess k u = Done u' -> lru_set u').
  { intros k u u' L E. unfold Arr.set_recordAccess in E. unfold lru_set in L. destruct (Arr.replacement u); [|done].
    destruct (Arr.moveToHead _ _); [|done]. by injection E as <-. }
  intros L E. unfold Arr.set_allocate in E. destruct (Arr.theBlock lk) as [k|].
  - destruct (Arr.theBlocks s !! k) as [b|]; [|done]. cbn [mbind outcome_bind] in E. destruct (Arr.tag b =? t); [|done].
    destruct (Arr.set_recordAccess k s) as [u|] eqn:Eu; [|done]. injection E as <- <- <-. by eapply R.
  - destruct (Arr.pickVictim s) as [[k u]|] eqn:Ev; [|done]. cbn [mbind outcome_bind] in E.
    assert (Lu : lru_set u).
    { unfold Arr.pickVictim in Ev. unfold lru_set in L. destruct (Arr.replacement s) eqn:Er; [|done].
      destruct (Arr.victim_of _ _); [|done]. injection Ev as <- <-. unfold lru_set. cbn. by rewrite Er. }
    destruct (Arr.theBlocks u !! k); [|done]. cbn [mbind outcome_bind] in E.
    destruct (Arr.set_recordAccess k _) as [u'|] eqn:Eu; [|done]. injection E as <- <- <-. eapply R; [|exact Eu].
    exact Lu.
Qed.

(** The least recently used of the blocks of a set that can be replaced. *)
Definition oldest_replaceable (s : Arr.CacheSet) (k : nat) : Prop :=
  match Arr.replacement s with
  | Arr.LRU order => exists l1 l2, order = l1 ++ k :: l2 /\ Arr.replaceable_at s k = true /\
      Forall (fun j => Arr.replaceable_at s j = false) l2
  | Arr.PLRU _ => False
  end.

Lemma find_reverse {A} (f : A -> bool) (l : list A) k :
  List.find f (reverse l) = Some k -> exists l1 l2, l = l1 ++ k :: l2 /\ f k = true /\ Forall (fun j => f j = false) l2.
Proof.
  induction l as [|x l IH] using rev_ind; [done|]. rewrite reverse_snoc. cbn. destruct (f x) eqn:Fx.
  - intros [= <-]. exists l, []. split_and!; [done..|constructor].
  - intros E. destruct (IH E) as (l1 & l2 & -> & Fk & F). exists l1, (l2 ++ [x]). split_and!; [by rewrite <-app_assoc|done|].
    apply Forall_app. split; [done|]. by apply Forall_singleton.
Qed.

Lemma replaceable_spec s k :
  Arr.replaceable_at s k = true ->
  exists b, Arr.theBlocks s !! k = Some b /\ (Arr.valid b = true -> isProtected (Arr.state b) = false).
Proof.
  unfold Arr.replaceable_at. destruct (Arr.theBlocks s !! k) as [b|]; [|done]. intros R. exists b. split; [done|].
  intros V. unfold Arr.replaceable in R. rewrite V in R. by destruct (isProtected _).
Qed.

(** The block [k] of a set, with the address [t], is what an allocation replaces. *)
Definition replaced (s : Arr.CacheSet) (t : Z) (k : nat) : Prop :=
  oldest_replaceable s k /\
  exists b, Arr.theBlocks s !! k = Some b /\ Arr.tag b = t /\ Arr.valid b = true /\ isProtected (Arr.state b) = false.

(** A block of the set has a place in the order. *)
Lemma recordAccess_found n k s u :
  Arr.set_ok n s -> (k < n)%nat -> Arr.replacement u = Arr.replacement s -> exists u', Arr.set_recordAccess k u = Done u'.
Proof.
  intros Ok Hk E. destruct (Arr.recordAccess_order n k s Ok Hk) as (r & Er & _). revert Er.
  unfold Arr.set_recordAccess. rewrite E. destruct (Arr.replacement s) as [order|bits]; [|by eexists].
  destruct (Arr.moveToHead k order); [by eexists|done].
Qed.

(** What an allocation does with the set of its block. *)
Lemma set_allocate_lru_cases n t lk s :
  Arr.set_ok n s -> lru_set s -> Arr.points t lk s ->
  exists can, Arr.set_canAllocate lk s = Done can /\
  match Arr.set_allocate lk t s with
  | Done (v, _, _) => can = true /\
      (Arr.st (Arr.theOrigState v) <> Invalid -> exists k, replaced s (Arr.theBlockAddress v) k)
  | Assert why => can = false /\ why = "All blocks in the set are protected and valid."%string
  end.
Proof.
  intros Ok L Pt. unfold Arr.set_canAllocate, Arr.set_allocate, Arr.victimAvailable, Arr.pickVictim. unfold lru_set in L.
  destruct (Arr.theBlock lk) as [k|] eqn:Ek.
  - exists true. split; [done|]. destruct (Arr.pt_block _ _ _ Pt k Ek) as (b & Eb & Ht). rewrite Eb.
    cbn [mbind outcome_bind]. rewrite (proj2 (Z.eqb_eq _ _) Ht).
    destruct (recordAccess_found n k s s Ok) as [r ->]; [|done|].
    { rewrite <-(Arr.so_length _ _ Ok). by eapply lookup_lt_Some. }
    split; [done|]. by intros N.
  - destruct (Arr.replacement s) as [order|] eqn:Er; [|done]. destruct (Arr.victim_of order s) as [k|] eqn:Ev; [|by exists false].
    exists true. split; [done|]. cbn [mbind outcome_bind].
    pose proof (find_reverse _ _ _ Ev) as Hk. assert (R : Arr.replaceable_at s k = true) by naive_solver.
    destruct (replaceable_spec _ _ R) as (b & Eb & Pb).
    rewrite Arr.alter_at, decide_True, Eb by done. cbn [fmap option_fmap option_map mbind outcome_bind].
    destruct (recordAccess_found n k s (Arr.alter_block k (fun c =>
      Arr.set_state (assign (Arr.state c) Invalid) (Arr.set_tag t c)) (Arr.alter_block k Arr.unprotect s)) Ok) as [u ->]; [|done|].
    { rewrite <-(Arr.so_length _ _ Ok). by eapply lookup_lt_Some. }
    split; [done|]. cbn. intros N. exists k. split; [unfold oldest_replaceable; by rewrite Er|]. exists b.
    assert (V : Arr.valid b = true).
    { destruct (Arr.valid b) eqn:V; [done|]. apply Arr.invalid_st in V. destruct N. unfold Arr.unprotect.
      destruct (isProtected _); [|done]. cbn [Arr.set_state Arr.state]. by rewrite Arr.st_setProtected. }
    split_and!; [done| |done|by apply Pb]. unfold Arr.unprotect. by destruct (isProtected _).
Qed.

(** ** An allocation in an array *)

(** C26 An array whose sets keep the order of use, and a result [lk] of a lookup of [x] in
    it: [canAllocate] tells whether [allocate] succeeds, and without it [allocate] stops
    with the message of [pickVictim].  A successful one leaves a well-formed array with
    the order of use, and a result that is a hit.  Every other block keeps its state, but
    for the victim when the result for it is valid: that is the block of [x]'s set which
    was unprotected and used least recently among those that can be replaced. *)
Theorem array_allocation a x lk :
  Arr.array_ok a -> lru a -> Arr.lookup a x = Done lk ->
  exists can, Arr.canAllocate lk a = Done can /\
  match Arr.allocate lk x a with
  | Assert why => can = false /\ why = "All blocks in the set are protected and valid."%string
  | Done (v, lk', a') =>
      can = true /\ Arr.array_ok a' /\ lru a' /\ Arr.handle a' x lk' /\ Arr.isHit lk' = true /\
      let gone := Arr.st (Arr.theOrigState v) <> Invalid in
      (gone -> exists s k, Arr.theSets a !! Z.to_nat (Arr.makeSet a x) = Some s /\ replaced s (Arr.theBlockAddress v) k /\
         Arr.theBlockAddress v <> Arr.blockAddress a x) /\
      forall y, Arr.peek a' y =
        if decide (gone /\ Arr.theBlockAddress v = Arr.blockAddress a y) then Invalid else Arr.peek a y
  end.
Proof.
  intros Ok L El. destruct (Arr.lookup_ok a x Ok) as (lk0 & E0 & H & _). rewrite El in E0. injection E0 as <-.
  pose proof (Arr.array_allocate_ok a x lk Ok H) as K. destruct H as [(s & Es & Pt) Hs Ha].
  pose proof (Arr.makeSet_range a x Ok) as Rx. pose proof (lookup_lt_Some _ _ _ Es) as Li.
  destruct (Arr.ao_sets _ Ok _ _ Es) as [Os _].
  assert (Ls : lru_set s) by (by eapply (proj1 (Forall_lookup _ _) L)).
  destruct (set_allocate_lru_cases _ _ _ _ Os Ls Pt) as (can & Ec & C). exists can. revert K.
  unfold Arr.canAllocate, Arr.allocate. rewrite Hs.
  destruct (vec_at_in (Arr.theSets a) (Arr.makeSet a x)) as (u & Eu & ->); [lia|]. rewrite Es in Eu. injection Eu as <-.
  cbn [mbind outcome_bind]. rewrite Ec. destruct (Arr.set_allocate lk _ s) as [[[v lk'] s']|why] eqn:Ea.
  2: { cbn [mbind outcome_bind]. by intros _. }
  cbn [mbind outcome_bind]. rewrite vec_put_in by lia. cbn [mbind outcome_bind].
  intros (Ok' & G & Hd & Hh & _ & Hv & Pk). destruct C as [-> C]. split_and!; try done.
  - unfold lru. cbn. apply Forall_insert; [done|]. by eapply set_allocate_lru.
  - intros N. destruct (C N) as (k & R). exists s, k. split_and!; [done|done|]. by apply Hv.
Qed.

(** ** Addresses *)

Lemma newArray_shape size assoc block policy a :
  Arr.newArray size assoc block policy = Done a ->
  0 < size /\ 0 < assoc /\ 0 < block /\ Arr.setCount a = Z.quot (Z.quot size assoc) block /\
  Arr.theSets a = repeat (Arr.newSet policy assoc) (Z.to_nat (Arr.setCount a)) /\
  Arr.setIndexShift a = log_base2 block /\ Z.land (Arr.setCount a) (Arr.setCount a - 1) = 0.
Proof.
  unfold Arr.newArray. destruct (Z.ltb_spec 0 size); [|done]. destruct (Z.ltb_spec 0 assoc); [|done].
  destruct (Z.ltb_spec 0 block); [|done]. cbn [negb]. destruct (Z.eqb_spec (Z.land (size ÷ assoc ÷ block)
    (size ÷ assoc ÷ block - 1)) 0); [|done]. by intros [= <-].
Qed.

(** A cache that is smaller than one set of blocks passes every assertion of [init]. *)
Lemma too_small size assoc block policy :
  0 < size < assoc * block -> 0 < assoc -> 0 < block ->
  exists a, Arr.newArray size assoc block policy = Done a /\ Arr.setCount a = 0 /\ Arr.theSets a = [].
Proof.
  intros [Ps Hs] Pa Pb. unfold Arr.newArray.
  rewrite (proj2 (Z.ltb_lt 0 size)), (proj2 (Z.ltb_lt 0 assoc)), (proj2 (Z.ltb_lt 0 block)) by done. cbn [negb].
  assert (Size : size ÷ assoc ÷ block = 0).
  { rewrite Z.quot_quot, Z.quot_small by nia. done. }
  rewrite Size. by eexists.
Qed.

(** C27 A new array of a cache below 2^31 bytes for blocks of [2 ^ k] bytes.  When the
    cache holds at least one set of blocks, an address is the block's number times the
    block's size and an offset below it, its set is the block's number modulo the number
    of sets and in range, and the sets with their blocks do not exceed the cache.  When
    the cache is smaller than one set, the constructor accepts it all the same: it has no
    set, and every lookup is out of range. *)
Theorem array_geometry size assoc k policy a x :
  Arr.newArray size assoc (2 ^ k) policy = Done a -> 0 <= k -> size < 2 ^ 31 ->
  if decide (assoc * 2 ^ k <= size) then
    0 <= Arr.makeSet a x < Arr.setCount a /\ Arr.makeSet a x = (x / 2 ^ k) mod Arr.setCount a /\
    Arr.blockAddress a x = 2 ^ k * (x / 2 ^ k) /\ Arr.blockOffset a x = x mod 2 ^ k /\
    Arr.blockAddress a x + Arr.blockOffset a x = x /\
    Z.of_nat (length (Arr.theSets a)) = Arr.setCount a /\ Arr.setCount a * assoc * 2 ^ k <= size
  else Arr.setCount a = 0 /\ Arr.lookup a x = Assert "vector index out of range".
Proof.
  intros Ea Hk Hw. case_decide as Hs.
  2: { destruct (newArray_shape _ _ _ _ _ Ea) as (Ps & Pa & Pb & _).
       destruct (too_small size assoc (2 ^ k) policy) as (a' & E & C & L); [lia|done|done|].
       rewrite Ea in E. injection E as <-. split; [exact C|]. unfold Arr.lookup, vec_at. rewrite L.
       by destruct (0 <=? _). }
  destruct (Arr.newArray_ok _ _ _ _ _ Ea Hs Hw) as [Ok _].
  destruct (newArray_shape _ _ _ _ _ Ea) as (Ps & Pa & Pb & Ec & El & Esh & Pow).
  assert (Sh : Arr.setIndexShift a = k).
  { rewrite Esh, log_base2_spec by nia. by apply Z.log2_pow2. }
  pose proof (Arr.makeSet_range a x Ok) as Rx. pose proof (Arr.ao_count _ Ok) as Pc.
  assert (C2 : Arr.setCount a = 2 ^ Z.log2 (Arr.setCount a)) by (apply power_of_two; done).
  assert (Off : Arr.blockOffset a x = x mod 2 ^ k).
  { unfold Arr.blockOffset. by rewrite (Arr.ao_offset _ Ok), Sh, Z.land_ones. }
  assert (Addr : Arr.blockAddress a x = 2 ^ k * (x / 2 ^ k)).
  { unfold Arr.blockAddress. rewrite (Arr.ao_offset _ Ok), Sh, <-Z.ldiff_land, Z.ldiff_ones_r, Z.shiftr_div_pow2,
      Z.shiftl_mul_pow2 by done. lia. }
  split_and!; [lia|lia| |done|done| | |].
  - unfold Arr.makeSet. rewrite (Arr.ao_mask _ Ok), Sh, Z.shiftr_div_pow2 by done.
    rewrite C2 at 1. rewrite Z.sub_1_r, <-Z.ones_equiv, Z.land_ones by apply Z.log2_nonneg. by rewrite <-C2.
  - rewrite Addr, Off. symmetry. by apply Z.div_mod, Z.pow_nonzero.
  - rewrite (Arr.ao_length _ Ok). lia.
  - rewrite Ec, Z.quot_quot, Z.quot_div_nonneg by nia. rewrite <-Z.mul_assoc, Z.mul_comm. apply Z.mul_div_le. nia.
Qed.

(** *** Examples *)

Definition small_array : Arr.StdArray :=
  match Arr.newArray 256 2 64 Arr.REPLACEMENT_LRU with Done a => a | Assert _ => Arr.mkArray 0 0 0 0 0 0 [] end.

Lemma new_lru size assoc block a : Arr.newArray size assoc block Arr.REPLACEMENT_LRU = Done a -> lru a.
Proof.
  intros Ea. destruct (newArray_shape _ _ _ _ _ Ea) as (_ & _ & _ & _ & El & _). unfold lru. rewrite El.
  apply Forall_forall. intros s Hs%list_elem_of_In%repeat_spec. by subst s.
Qed.
Lemma small_array_ok : Arr.array_ok small_array.
Proof. by eapply (Arr.newArray_ok 256 2 64 Arr.REPLACEMENT_LRU). Qed.

(** The third block of a set replaces the first. *)
Definition outcome_is {A} (f : A -> bool) (o : outcome A) : bool := match o with Done a => f a | Assert _ => false end.
Definition third_block : bool :=
  outcome_is (fun '(v, _, _) => (Arr.theBlockAddress v =? 4096) && (Arr.st (Arr.theOrigState v) =? Modified))
    (lk1 ← Arr.lookup small_array 4096;
     '(_, lk1, a) ← Arr.allocate lk1 4096 small_array;
     a ← Arr.setState lk1 Modified a;
     lk2 ← Arr.lookup a 4224;
     '(_, lk2, a) ← Arr.allocate lk2 4224 a;
     a ← Arr.setState lk2 Shared a;
     lk3 ← Arr.lookup a 4352;
     Arr.allocate lk3 4352 a).

(** ** The pseudo-LRU policy *)

(** What the caches do with an array, with any results of lookups, old or new. *)
Inductive array_op : Type :=
  | Allocate (lk : Arr.LookupResult) (x : Z)
  | SetState (lk : Arr.LookupResult) (s : State)
  | SetProtected (lk : Arr.LookupResult) (val : bool)
  | SetPrefetched (lk : Arr.LookupResult) (val : bool)
  | RecordAccess (lk : Arr.LookupResult)
  | InvalidateBlock (lk : Arr.LookupResult).

Definition apply_op (a : Arr.StdArray) (op : array_op) : outcome Arr.StdArray :=
  match op with
  | Allocate lk x => '(_, _, a) ← Arr.allocate lk x a; Done a
  | SetState lk s => Arr.setState lk s a
  | SetProtected lk val => Arr.lk_setProtected lk val a
  | SetPrefetched lk val => Arr.lk_setPrefetched lk val a
  | RecordAccess lk => Arr.recordAccess lk a
  | InvalidateBlock lk => Arr.invalidateBlock lk a
  end.

Fixpoint apply_ops (ops : list array_op) (a : Arr.StdArray) : outcome Arr.StdArray :=
  match ops with [] => Done a | op :: ops => a ← apply_op a op; apply_ops ops a end.

(** A set that has never replaced a block: all its blocks have the tag they were
    made with. *)
Definition plru_set (s : Arr.CacheSet) : Prop :=
  match Arr.replacement s with Arr.LRU _ => False | Arr.PLRU _ => True end /\
  Forall (fun b => Arr.tag b = 0) (Arr.theBlocks s).

Record plru (a a' : Arr.StdArray) : Prop := {
  pl_sets : Forall plru_set (Arr.theSets a');
  pl_length : length (Arr.theSets a') = length (Arr.theSets a);
  pl_offset : Arr.blockOffsetMask a' = Arr.blockOffsetMask a;
  pl_shift : Arr.setIndexShift a' = Arr.setIndexShift a;
  pl_mask : Arr.setIndexMask a' = Arr.setIndexMask a;
}.

Lemma plru_put a a' i s l :
  plru a a' -> plru_set s -> vec_put (Arr.theSets a') i s = Done l -> plru a (Arr.set_sets l a').
Proof.
  intros [P1 P2 P3 P4 P5] S E. unfold vec_put in E. destruct (vec_at _ i); [|done]. injection E as <-.
  split; cbn; try done; [by apply Forall_insert|by rewrite length_insert].
Qed.

Lemma plru_at a a' i s : plru a a' -> vec_at (Arr.theSets a') i = Done s -> plru_set s.
Proof.
  intros P E. unfold vec_at in E. destruct (if 0 <=? i then _ else _) as [u|] eqn:L; [|done]. injection E as <-.
  destruct (0 <=? i); [|done]. by eapply (proj1 (Forall_lookup _ _) (pl_sets _ _ P)).
Qed.

Lemma plru_change a a' a'' i f :
  plru a a' -> (forall s s', plru_set s -> f s = Done s' -> plru_set s') ->
  Arr.change_set i f a' = Done a'' -> plru a a''.
Proof.
  intros P F E. unfold Arr.change_set in E. destruct (vec_at _ i) as [s|] eqn:Es; [|done]. cbn [mbind outcome_bind] in E.
  destruct (f s) as [s'|] eqn:Ef; [|done]. cbn [mbind outcome_bind] in E.
  destruct (vec_put _ i s') as [l|] eqn:El; [|done]. injection E as <-.
  eapply plru_put; [done| |exact El]. eapply F; [by eapply plru_at|exact Ef].
Qed.

Lemma plru_access k s s' : plru_set s -> Arr.set_recordAccess k s = Done s' -> plru_set s'.
Proof.
  intros [R T] E. unfold Arr.set_recordAccess in E. destruct (Arr.replacement s); [done|]. by injection E as <-.
Qed.

Lemma plru_invalidate k s s' : plru_set s -> Arr.set_invalidateBlock k s = Done s' -> plru_set s'.
Proof.
  intros [R T] E. unfold Arr.set_invalidateBlock in E. destruct (Arr.replacement s); [done|]. by injection E as <-.
Qed.

Lemma plru_block a a' a'' lk g : plru a a' -> Arr.change_block lk g a' = Done a'' -> plru a a''.
Proof.
  intros P E. unfold Arr.change_block in E. destruct (Arr.theBlock lk) as [k|]; [|done].
  eapply plru_change; [exact P| |exact E]. cbn beta. intros s s' [R T] [= <-]. split; [done|].
  cbn. by apply Forall_alter.
Qed.

Lemma plru_order a a' a'' why lk f :
  plru a a' -> (forall k s s', plru_set s -> f k s = Done s' -> plru_set s') ->
  Arr.with_block why lk f a' = Done a'' -> plru a a''.
Proof.
  intros P F E. unfold Arr.with_block in E. destruct (Arr.theBlock lk) as [k|]; [|done].
  eapply plru_change; [exact P|by apply F|exact E].
Qed.

Lemma plru_op a a' a'' op : plru a a' -> apply_op a' op = Done a'' -> plru a a''.
Proof.
  intros P E. destruct op as [lk x|lk s|lk v|lk v|lk|lk]; cbn [apply_op] in E.
  - unfold Arr.allocate in E. destruct (vec_at _ _) as [s|] eqn:Es; [|done]. cbn [mbind outcome_bind] in E.
    pose proof (plru_at _ _ _ _ P Es) as S. destruct (Arr.set_allocate _ _ s) as [[[v lk'] s']|] eqn:Ea; [|done].
    cbn [mbind outcome_bind] in E. destruct (vec_put _ _ s') as [l|] eqn:El; [|done]. injection E as <-.
    eapply plru_put; [done| |exact El]. clear El Es. unfold Arr.set_allocate, Arr.pickVictim in Ea.
    destruct (Arr.theBlock lk) as [k|].
    + destruct (Arr.theBlocks s !! k) as [b|]; [|done]. cbn [mbind outcome_bind] in Ea. destruct (_ =? _); [|done].
      destruct (Arr.set_recordAccess k s) as [u|] eqn:Eu; [|done]. injection Ea as <- <- <-. by eapply plru_access.
    + destruct S as [R _]. by destruct (Arr.replacement s).
  - by eapply plru_block.
  - by eapply plru_block.
  - by eapply plru_block.
  - eapply plru_order; [exact P| |exact E]. apply plru_access.
  - eapply plru_order; [exact P| |exact E]. apply plru_invalidate.
Qed.

Lemma plru_ops a ops a' a'' : plru a a' -> apply_ops ops a' = Done a'' -> plru a a''.
Proof.
  revert a'. induction ops as [|op ops IH]; intros a' P E; cbn [apply_ops] in E; [by injection E as <-|].
  destruct (apply_op a' op) as [a1|] eqn:E1; [|done]. eapply IH; [by eapply plru_op|exact E].
Qed.

Lemma new_plru size assoc block a : Arr.newArray size assoc block Arr.REPLACEMENT_PLRU = Done a -> plru a a.
Proof.
  intros Ea. destruct (newArray_shape _ _ _ _ _ Ea) as (_ & _ & _ & _ & El & _). split; [|done..].
  rewrite El. apply Forall_forall. intros s Hs%list_elem_of_In%repeat_spec. subst s. split; [done|]. cbn.
  apply Forall_forall. by intros b ->%list_elem_of_In%repeat_spec.
Qed.

Lemma lookup_from_misses t i o l :
  Forall (fun b => Arr.tag b = 0) l -> t <> 0 -> Arr.lookup_from t i o l = (o, false).
Proof.
  intros F Ht. revert i. induction F as [|b l Hb F IH]; intros i; [done|]. cbn [Arr.lookup_from].
  rewrite (proj2 (Z.eqb_neq _ _)) by congruence. apply IH.
Qed.

(** C39 An array with the pseudo-LRU policy takes in no block but block 0: from a new array of
    a cache below 2^31 bytes that holds at least one set, after whatever allocations, state changes,
    protections and changes of the order of use, with whatever results of lookups, the
    lookup of every address outside block 0 misses, and the question whether a place can
    be made for it, [canAllocate], as well as [allocate] itself, fails the assertion in
    [victimAvailable] or [pickVictim] of [SetPseudoLRU]. *)
Theorem plru_never_allocates size assoc block a ops a' x :
  Arr.newArray size assoc block Arr.REPLACEMENT_PLRU = Done a -> assoc * block <= size < 2 ^ 31 ->
  apply_ops ops a = Done a' -> Arr.blockAddress a x <> 0 ->
  exists lk, Arr.lookup a' x = Done lk /\ Arr.isHit lk = false /\
    Arr.canAllocate lk a' = Assert "false" /\ Arr.allocate lk x a' = Assert "false".
Proof.
  intros Ea [Hs Hw] Eo Hx. destruct (Arr.newArray_ok _ _ _ _ _ Ea Hs Hw) as [Ok _].
  pose proof (plru_ops a ops a a' (new_plru _ _ _ _ Ea) Eo) as P.
  assert (Em : Arr.makeSet a' x = Arr.makeSet a x)
    by (unfold Arr.makeSet; by rewrite (pl_shift _ _ P), (pl_mask _ _ P)).
  assert (Eb : Arr.blockAddress a' x = Arr.blockAddress a x) by (unfold Arr.blockAddress; by rewrite (pl_offset _ _ P)).
  pose proof (Arr.makeSet_range a x Ok) as Rx. pose proof (Arr.ao_length _ Ok) as Le. pose proof (pl_length _ _ P) as Ll.
  destruct (vec_at_in (Arr.theSets a') (Arr.makeSet a x)) as (s & Es & Ev); [lia|].
  destruct (plru_at _ _ _ _ P Ev) as [R T].
  exists (Arr.newLookup (Arr.makeSet a x) None (Arr.blockAddress a x) false s). split.
  { unfold Arr.lookup, Arr.lookupBlock. rewrite Em, Eb, Ev. cbn [mbind outcome_bind]. by rewrite lookup_from_misses. }
  split; [done|]. unfold Arr.canAllocate, Arr.allocate. cbn [Arr.newLookup Arr.theSet]. rewrite Ev.
  cbn [mbind outcome_bind]. unfold Arr.set_canAllocate, Arr.set_allocate, Arr.victimAvailable, Arr.pickVictim.
  cbn [Arr.theBlock]. by destruct (Arr.replacement s).
Qed.

(** *** Witnesses *)

Lemma array_allocation_witness :
  third_block = true /\
  exists lk, Arr.lookup small_array 4096 = Done lk /\ exists can, Arr.canAllocate lk small_array = Done can.
Proof.
  split; [by vm_compute|]. eexists. split; [by vm_compute|].
  edestruct (array_allocation small_array 4096) as (can & Ec & _);
    [apply small_array_ok|by eapply (new_lru 256 2 64)|by vm_compute|]. exists can. exact Ec.
Defined.

Lemma array_geometry_witness : Arr.makeSet small_array 4177 = 1 /\ Arr.blockAddress small_array 4177 = 64 * (4177 / 64).
Proof.
  split; [by vm_compute|]. by eapply (array_geometry 256 2 6 Arr.REPLACEMENT_LRU small_array 4177).
Defined.

(** Block 0 is found by its tag and takes the state of a fill; the next block stops. *)
Definition sample_ops : list array_op :=
  [Allocate (Arr.mkLookup 0 (Some 1%nat) 0 false Invalid) 0; SetState (Arr.mkLookup 0 (Some 1%nat) 0 true Invalid) Shared].

Lemma plru_never_allocates_witness :
  exists a a' lk, Arr.newArray 256 2 64 Arr.REPLACEMENT_PLRU = Done a /\ apply_ops sample_ops a = Done a' /\
    Arr.canAllocate lk a' = Assert "false".
Proof.
  eexists. eexists. edestruct (plru_never_allocates 256 2 64) with (ops := sample_ops) (x := 4096) as (lk & _ & _ & C & _);
    [by vm_compute|done|by vm_compute|done|]. exists lk. split; [by vm_compute|]. split; [by vm_compute|exact C].
Defined.
