(* ===== verification/CacheController.v ===== *)
(** * The controller of a timing cache

    components/Cache/CacheController.cpp and .hpp, and the part of
    BaseCacheControllerImpl that every protocol shares: requests, snoops and replies
    move from the input queues through the queues of the banks into processes, which
    run when their bank's pipelines take them, call the protocol, and send the
    messages that the protocol asks for.  A process holds a mask of reservations, of
    slots in the output queues and in the buffers, taken before it starts.

    The protocol is an instance of the class [Policy]: the virtual functions of
    BaseCacheControllerImpl, with its block states and its own state as parameters.
    Messages are objects that queues, processes and entries share; they live in a
    store under identifiers.  A process is handed on as a value, since one pipeline at
    a time holds it.  Transaction trackers are identifiers; what they record is
    statistics.  Using a null reference, and using an iterator after its entry was
    removed, are undefined in the code and end the run like a failing assertion. *)

From stdpp Require Import base gmap list strings fin_maps.
From Stdlib Require Import ZArith Lia.
From S2P Require Import Prelude Messages TimingQueues CacheBuffers MissAddressFile.

Local Open Scope Z_scope.

(** A message, with the fields that only the timing simulator uses. *)
Record Message : Type := mkMsg {
  body : MemoryMessage;
  thePageWalk : bool;
  theOutstandingMessages : Z;
  theAckRequired : bool;
  theEvictHasData : bool;
}.

(** A new message. *)
Definition fresh_message (b : MemoryMessage) : Message := mkMsg b false 0 true false.
Definition set_body (b : MemoryMessage) (m : Message) : Message :=
  mkMsg b (thePageWalk m) (theOutstandingMessages m) (theAckRequired m) (theEvictHasData m).
Definition setPageWalk (m : Message) : Message :=
  mkMsg (body m) true (theOutstandingMessages m) (theAckRequired m) (theEvictHasData m).
Definition set_evictHasData (b : bool) (m : Message) : Message :=
  mkMsg (body m) (thePageWalk m) (theOutstandingMessages m) (theAckRequired m) b.
(** The copy constructor. *)
Definition copy_message (m : Message) : Message :=
  mkMsg (copyMessage (body m)) (thePageWalk m) 0 (theAckRequired m) (theEvictHasData m).

(** ** Actions and processes *)

Inductive enumAction : Set :=
  | kNoAction | kSend | kInsertMAF_WaitAddress | kInsertMAF_WaitSnoop | kInsertMAF_WaitEvict
  | kInsertMAF_WaitResponse | kInsertMAF_WaitProbe | kReplyAndRemoveMAF | kReplyAndRemoveResponseMAF
  | kInsertMAF_WaitRegion | kRetryRequest | kReplyAndRetryMAF | kReplyAndInsertMAF_WaitResponse.

#[export] Instance action_eq_dec : EqDecision enumAction.
Proof. solve_decision. Defined.

Record Action : Type := mkAction {
  theAction : enumAction;
  theOutputTracker : option Z;
  theFrontTransport : Transport;
  theBackTransport : Transport;
  theFrontMessage : bool;
  theBackMessage : bool;
  theFrontToDCache : bool;
  theFrontToICache : bool;
  theRequiresData : Z;
  theRequiresTag : Z;
  theWakeSnoops : bool;
  theWakeEvicts : bool;
  theWakeRegion : bool;
  theRememberSnoopTransport : bool;
}.

(** The constructors of [Action]. *)
Definition newAction (anAction : enumAction) (aTracker : option Z) (aRequiresData : Z) : Action :=
  mkAction anAction aTracker noTransport noTransport false false true false aRequiresData 1 false false
    false true.

Inductive ProcessType : Set :=
  | eProcRequest | eProcPrefetch | eProcSnoop | eProcBackRequest | eProcBackReply | eProcMAFWakeup
  | eProcIProbe | eProcEviction | eProcNoMoreWork | eProcIdleWork | eProcWakeSnoop.

#[export] Instance process_type_eq_dec : EqDecision ProcessType.
Proof. solve_decision. Defined.

(** [ProcessResourceType] *)
Definition kResFrontSideOut : Z := 0x01.
Definition kResBackSideOut_Request : Z := 0x02.
Definition kResBackSideOut_Snoop : Z := 0x04.
Definition kResBackSideOut_Prefetch : Z := 0x08.
Definition kResEvictBuffer : Z := 0x10.
Definition kResScheduledEvict : Z := 0x20.
Definition kResMaf : Z := 0x40.
Definition kResSnoopBuffer : Z := 0x80.
Definition kResBackSideOut_Reply : Z := 0x100.

Record ProcessEntry : Type := mkProcess {
  theOrig : Transport;
  processFront : Transport;
  processBack : Transport;
  theMafEntry : option Z;
  theType : ProcessType;
  theWakeTransaction : option Z;
  processData : Z;
  theTransmitAfterTag : bool;
  theTagOutstanding : bool;
  theReservations : Z;
  theRemoveMafEntry : bool;
  theSendToD : bool;
  theSendToI : bool;
  theSendToBack : bool;
  processWakeSnoops : bool;
  processWakeEvicts : bool;
  processWakeRegion : bool;
  theWakeMaf : bool;
}.

Definition set_orig (x : Transport) (p : ProcessEntry) : ProcessEntry :=
  mkProcess x (processFront p) (processBack p) (theMafEntry p) (theType p) (theWakeTransaction p)
    (processData p) (theTransmitAfterTag p) (theTagOutstanding p) (theReservations p)
    (theRemoveMafEntry p) (theSendToD p) (theSendToI p) (theSendToBack p) (processWakeSnoops p)
    (processWakeEvicts p) (processWakeRegion p) (theWakeMaf p).
Definition set_front (x : Transport) (p : ProcessEntry) : ProcessEntry :=
  mkProcess (theOrig p) x (processBack p) (theMafEntry p) (theType p) (theWakeTransaction p)
    (processData p) (theTransmitAfterTag p) (theTagOutstanding p) (theReservations p)
    (theRemoveMafEntry p) (theSendToD p) (theSendToI p) (theSendToBack p) (processWakeSnoops p)
    (processWakeEvicts p) (processWakeRegion p) (theWakeMaf p).
Definition set_back (x : Transport) (p : ProcessEntry) : ProcessEntry :=
  mkProcess (theOrig p) (processFront p) x (theMafEntry p) (theType p) (theWakeTransaction p)
    (processData p) (theTransmitAfterTag p) (theTagOutstanding p) (theReservations p)
    (theRemoveMafEntry p) (theSendToD p) (theSendToI p) (theSendToBack p) (processWakeSnoops p)
    (processWakeEvicts p) (processWakeRegion p) (theWakeMaf p).
Definition set_mafEntry (x : option Z) (p : ProcessEntry) : ProcessEntry :=
  mkProcess (theOrig p) (processFront p) (processBack p) x (theType p) (theWakeTransaction p)
    (processData p) (theTransmitAfterTag p) (theTagOutstanding p) (theReservations p)
    (theRemoveMafEntry p) (theSendToD p) (theSendToI p) (theSendToBack p) (processWakeSnoops p)
    (processWakeEvicts p) (processWakeRegion p) (theWakeMaf p).
Definition set_proc_type (x : ProcessType) (p : ProcessEntry) : ProcessEntry :=
  mkProcess (theOrig p) (processFront p) (processBack p) (theMafEntry p) x (theWakeTransaction p)
    (processData p) (theTransmitAfterTag p) (theTagOutstanding p) (theReservations p)
    (theRemoveMafEntry p) (theSendToD p) (theSendToI p) (theSendToBack p) (processWakeSnoops p)
    (processWakeEvicts p) (processWakeRegion p) (theWakeMaf p).
Definition set_reservations (x : Z) (p : ProcessEntry) : ProcessEntry :=
  mkProcess (theOrig p) (processFront p) (processBack p) (theMafEntry p) (theType p)
    (theWakeTransaction p) (processData p) (theTransmitAfterTag p) (theTagOutstanding p) x
    (theRemoveMafEntry p) (theSendToD p) (theSendToI p) (theSendToBack p) (processWakeSnoops p)
    (processWakeEvicts p) (processWakeRegion p) (theWakeMaf p).
Definition set_removeMafEntry (x : bool) (p : ProcessEntry) : ProcessEntry :=
  mkProcess (theOrig p) (processFront p) (processBack p) (theMafEntry p) (theType p)
    (theWakeTransaction p) (processData p) (theTransmitAfterTag p) (theTagOutstanding p)
    (theReservations p) x (theSendToD p) (theSendToI p) (theSendToBack p) (processWakeSnoops p)
    (processWakeEvicts p) (processWakeRegion p) (theWakeMaf p).
Definition set_wakeAfterSnoop (x : bool) (p : ProcessEntry) : ProcessEntry :=
  mkProcess (theOrig p) (processFront p) (processBack p) (theMafEntry p) (theType p)
    (theWakeTransaction p) (processData p) (theTransmitAfterTag p) (theTagOutstanding p)
    (theReservations p) (theRemoveMafEntry p) (theSendToD p) (theSendToI p) (theSendToBack p) x
    (processWakeEvicts p) (processWakeRegion p) (theWakeMaf p).
Definition set_wakeAfterEvict (x : bool) (p : ProcessEntry) : ProcessEntry :=
  mkProcess (theOrig p) (processFront p) (processBack p) (theMafEntry p) (theType p)
    (theWakeTransaction p) (processData p) (theTransmitAfterTag p) (theTagOutstanding p)
    (theReservations p) (theRemoveMafEntry p) (theSendToD p) (theSendToI p) (theSendToBack p)
    (processWakeSnoops p) x (processWakeRegion p) (theWakeMaf p).
Definition set_wakeRegion (x : bool) (p : ProcessEntry) : ProcessEntry :=
  mkProcess (theOrig p) (processFront p) (processBack p) (theMafEntry p) (theType p)
    (theWakeTransaction p) (processData p) (theTransmitAfterTag p) (theTagOutstanding p)
    (theReservations p) (theRemoveMafEntry p) (theSendToD p) (theSendToI p) (theSendToBack p)
    (processWakeSnoops p) (processWakeEvicts p) x (theWakeMaf p).
Definition set_wakeMAF (x : bool) (p : ProcessEntry) : ProcessEntry :=
  mkProcess (theOrig p) (processFront p) (processBack p) (theMafEntry p) (theType p)
    (theWakeTransaction p) (processData p) (theTransmitAfterTag p) (theTagOutstanding p)
    (theReservations p) (theRemoveMafEntry p) (theSendToD p) (theSendToI p) (theSendToBack p)
    (processWakeSnoops p) (processWakeEvicts p) (processWakeRegion p) x.

(** The three constructors: for eviction and idle work, for a transport, and for an
    entry of the miss address file. *)
Definition newProcess (request : Transport) (iter wake : option Z) (aType : ProcessType) : ProcessEntry :=
  mkProcess request request request iter aType wake 0 false false 0 false false false false false false
    false false.

Definition process_reserve (res : Z) (p : ProcessEntry) : ProcessEntry :=
  set_reservations (Z.lor (theReservations p) res) p.
Definition process_unreserve (res : Z) (p : ProcessEntry) : ProcessEntry :=
  set_reservations (Z.land (theReservations p) (Z.lnot res)) p.
Definition hasReserved (res : Z) (p : ProcessEntry) : bool := Z.land (theReservations p) res =? res.

Definition consumeAction (a : Action) (p : ProcessEntry) : ProcessEntry :=
  mkProcess (theOrig p) (processFront p) (processBack p) (theMafEntry p) (theType p) (theWakeTransaction p)
    (theRequiresData a) (theTransmitAfterTag p) (negb (theRequiresTag a =? 0)) (theReservations p)
    (theRemoveMafEntry p) (theSendToD p) (theSendToI p) (theSendToBack p) (processWakeSnoops p)
    (processWakeEvicts p) (processWakeRegion p) (theWakeMaf p).

Definition enqueueFrontTransport (a : Action) (p : ProcessEntry) : ProcessEntry :=
  mkProcess (theOrig p) (theFrontTransport a) (processBack p) (theMafEntry p) (theType p)
    (theWakeTransaction p) (processData p) (theTransmitAfterTag p) (theTagOutstanding p)
    (theReservations p) (theRemoveMafEntry p) (theFrontToDCache a) (theFrontToICache a) (theSendToBack p)
    (processWakeSnoops p) (processWakeEvicts p) (processWakeRegion p) (theWakeMaf p).

(** [enqueueBackTransport], up to the page-walk flag of the message. *)
Definition send_to_back (a : Action) (p : ProcessEntry) : ProcessEntry :=
  mkProcess (theOrig p) (processFront p) (theBackTransport a) (theMafEntry p) (theType p)
    (theWakeTransaction p) (processData p) (theTransmitAfterTag p) (theTagOutstanding p)
    (theReservations p) (theRemoveMafEntry p) (theSendToD p) (theSendToI p) true
    (processWakeSnoops p) (processWakeEvicts p) (processWakeRegion p) (theWakeMaf p).

Definition hasBackMessage (p : ProcessEntry) : bool := theSendToBack p.
Definition hasFrontMessage (p : ProcessEntry) : bool := theSendToD p || theSendToI p.
Definition requiresTag (p : ProcessEntry) : bool := theTagOutstanding p.

(** ** The controller's state

    The input queues per port and per bank, indexed by channel, and the output queues
    of the back side. *)
Inductive InChannel : Set := FrontSnoop | FrontRequest | FrontPrefetch | BackRequest | BackReply.
Inductive BackChannel : Set := BSO_Reply | BSO_Snoop | BSO_Request | BSO_Prefetch.

#[export] Instance in_channel_eq_dec : EqDecision InChannel.
Proof. solve_decision. Defined.
#[export] Instance back_channel_eq_dec : EqDecision BackChannel.
Proof. solve_decision. Defined.

(** One member of a family indexed by channels changed. *)
Definition with_channel {C A} `{EqDecision C} (c : C) (x : A) (f : C -> A) : C -> A :=
  fun d => if decide (d = c) then x else f d.

Definition res_of (c : BackChannel) : Z :=
  match c with
  | BSO_Reply => kResBackSideOut_Reply
  | BSO_Snoop => kResBackSideOut_Snoop
  | BSO_Request => kResBackSideOut_Request
  | BSO_Prefetch => kResBackSideOut_Prefetch
  end.

(** The parameters of the component. *)
Record CacheConfig : Type := mkConfig {
  theCores : Z;
  theBanks : Z;
  thePorts : Z;
  theNodeId : Z;
  theBlockSize : Z;
  TagLatency : Z;
  TagIssueLatency : Z;
  DataLatency : Z;
  DataIssueLatency : Z;
  QueueSizes : Z;
  PreQueueSizes : Z;
  MAFSize : Z;
  MAFTargetsPerRequest : Z;
  EvictBufferSize : Z;
  SnoopBufferSize : Z;
  theEvictOnSnoop : bool;
  theUseReplyChannel : bool;
}.

Abbreviation Queue := (MQ.MessageQueue Transport).
Abbreviation Pipeline := (Fifo.PipelineFifo ProcessEntry).

Section state.
Context {S P : Type}.

Record Cache : Type := mkCache {
  store : gmap Z Message;
  next_message : Z;
  next_tracker : Z;
  cycleCount : Z;
  theMaf : MAF.MissAddressFile;
  theMAFPipeline : list Pipeline;
  theTagPipeline : list Pipeline;
  theDataPipeline : list Pipeline;
  theScheduledEvicts : Z;
  theFrontSideOutReserve : Z;
  theWakeMAFList : list (list (Z * option Z));
  theIProbeList : list (list Z);
  SideIn : InChannel -> list Queue;
  BankSideIn : InChannel -> list Queue;
  FrontSideOut_I : list Queue;
  FrontSideOut_D : list Queue;
  BackSideOut : BackChannel -> Queue;
  lastQueue : InChannel -> Z;
  theLastTagPipeline : Z;
  theLastDataPipeline : Z;
  theLastScheduledBank : Z;
  theSnoopBuffer : SB.SnoopBuffer;
  theEvictBuffer : EB.EvictBuffer S;
  impl : P;
}.

Definition set_store (x : gmap Z Message) (w : Cache) : Cache :=
  mkCache x (next_message w) (next_tracker w) (cycleCount w) (theMaf w) (theMAFPipeline w)
    (theTagPipeline w) (theDataPipeline w) (theScheduledEvicts w) (theFrontSideOutReserve w)
    (theWakeMAFList w) (theIProbeList w) (SideIn w) (BankSideIn w) (FrontSideOut_I w)
    (FrontSideOut_D w) (BackSideOut w) (lastQueue w) (theLastTagPipeline w) (theLastDataPipeline w)
    (theLastScheduledBank w) (theSnoopBuffer w) (theEvictBuffer w) (impl w).
Definition set_next_message (x : Z) (w : Cache) : Cache :=
  mkCache (store w) x (next_tracker w) (cycleCount w) (theMaf w) (theMAFPipeline w)
    (theTagPipeline w) (theDataPipeline w) (theScheduledEvicts w) (theFrontSideOutReserve w)
    (theWakeMAFList w) (theIProbeList w) (SideIn w) (BankSideIn w) (FrontSideOut_I w)
    (FrontSideOut_D w) (BackSideOut w) (lastQueue w) (theLastTagPipeline w) (theLastDataPipeline w)
    (theLastScheduledBank w) (theSnoopBuffer w) (theEvictBuffer w) (impl w).
Definition set_next_tracker (x : Z) (w : Cache) : Cache :=
  mkCache (store w) (next_message w) x (cycleCount w) (theMaf w) (theMAFPipeline w)
    (theTagPipeline w) (theDataPipeline w) (theScheduledEvicts w) (theFrontSideOutReserve w)
    (theWakeMAFList w) (theIProbeList w) (SideIn w) (BankSideIn w) (FrontSideOut_I w)
    (FrontSideOut_D w) (BackSideOut w) (lastQueue w) (theLastTagPipeline w) (theLastDataPipeline w)
    (theLastScheduledBank w) (theSnoopBuffer w) (theEvictBuffer w) (impl w).
Definition set_cycleCount (x : Z) (w : Cache) : Cache :=
  mkCache (store w) (next_message w) (next_tracker w) x (theMaf w) (theMAFPipeline w)
    (theTagPipeline w) (theDataPipeline w) (theScheduledEvicts w) (theFrontSideOutReserve w)
    (theWakeMAFList w) (theIProbeList w) (SideIn w) (BankSideIn w) (FrontSideOut_I w)
    (FrontSideOut_D w) (BackSideOut w) (lastQueue w) (theLastTagPipeline w) (theLastDataPipeline w)
    (theLastScheduledBank w) (theSnoopBuffer w) (theEvictBuffer w) (impl w).
Definition set_theMaf (x : MAF.MissAddressFile) (w : Cache) : Cache :=
  mkCache (store w) (next_message w) (next_tracker w) (cycleCount w) x (theMAFPipeline w)
    (theTagPipeline w) (theDataPipeline w) (theScheduledEvicts w) (theFrontSideOutReserve w)
    (theWakeMAFList w) (theIProbeList w) (SideIn w) (BankSideIn w) (FrontSideOut_I w)
    (FrontSideOut_D w) (BackSideOut w) (lastQueue w) (theLastTagPipeline w) (theLastDataPipeline w)
    (theLastScheduledBank w) (theSnoopBuffer w) (theEvictBuffer w) (impl w).
Definition set_theMAFPipeline (x : list Pipeline) (w : Cache) : Cache :=
  mkCache (store w) (next_message w) (next_tracker w) (cycleCount w) (theMaf w) x (theTagPipeline w)
    (theDataPipeline w) (theScheduledEvicts w) (theFrontSideOutReserve w) (theWakeMAFList w)
    (theIProbeList w) (SideIn w) (BankSideIn w) (FrontSideOut_I w) (FrontSideOut_D w)
    (BackSideOut w) (lastQueue w) (theLastTagPipeline w) (theLastDataPipeline w)
    (theLastScheduledBank w) (theSnoopBuffer w) (theEvictBuffer w) (impl w).
Definition set_theTagPipeline (x : list Pipeline) (w : Cache) : Cache :=
  mkCache (store w) (next_message w) (next_tracker w) (cycleCount w) (theMaf w) (theMAFPipeline w) x
    (theDataPipeline w) (theScheduledEvicts w) (theFrontSideOutReserve w) (theWakeMAFList w)
    (theIProbeList w) (SideIn w) (BankSideIn w) (FrontSideOut_I w) (FrontSideOut_D w)
    (BackSideOut w) (lastQueue w) (theLastTagPipeline w) (theLastDataPipeline w)
    (theLastScheduledBank w) (theSnoopBuffer w) (theEvictBuffer w) (impl w).
Definition set_theDataPipeline (x : list Pipeline) (w : Cache) : Cache :=
  mkCache (store w) (next_message w) (next_tracker w) (cycleCount w) (theMaf w) (theMAFPipeline w)
    (theTagPipeline w) x (theScheduledEvicts w) (theFrontSideOutReserve w) (theWakeMAFList w)
    (theIProbeList w) (SideIn w) (BankSideIn w) (FrontSideOut_I w) (FrontSideOut_D w)
    (BackSideOut w) (lastQueue w) (theLastTagPipeline w) (theLastDataPipeline w)
    (theLastScheduledBank w) (theSnoopBuffer w) (theEvictBuffer w) (impl w).
Definition set_theScheduledEvicts (x : Z) (w : Cache) : Cache :=
  mkCache (store w) (next_message w) (next_tracker w) (cycleCount w) (theMaf w) (theMAFPipeline w)
    (theTagPipeline w) (theDataPipeline w) x (theFrontSideOutReserve w) (theWakeMAFList w)
    (theIProbeList w) (SideIn w) (BankSideIn w) (FrontSideOut_I w) (FrontSideOut_D w)
    (BackSideOut w) (lastQueue w) (theLastTagPipeline w) (theLastDataPipeline w)
    (theLastScheduledBank w) (theSnoopBuffer w) (theEvictBuffer w) (impl w).
Definition set_theFrontSideOutReserve (x : Z) (w : Cache) : Cache :=
  mkCache (store w) (next_message w) (next_tracker w) (cycleCount w) (theMaf w) (theMAFPipeline w)
    (theTagPipeline w) (theDataPipeline w) (theScheduledEvicts w) x (theWakeMAFList w)
    (theIProbeList w) (SideIn w) (BankSideIn w) (FrontSideOut_I w) (FrontSideOut_D w)
    (BackSideOut w) (lastQueue w) (theLastTagPipeline w) (theLastDataPipeline w)
    (theLastScheduledBank w) (theSnoopBuffer w) (theEvictBuffer w) (impl w).
Definition set_theWakeMAFList (x : list (list (Z * option Z))) (w : Cache) : Cache :=
  mkCache (store w) (next_message w) (next_tracker w) (cycleCount w) (theMaf w) (theMAFPipeline w)
    (theTagPipeline w) (theDataPipeline w) (theScheduledEvicts w) (theFrontSideOutReserve w) x
    (theIProbeList w) (SideIn w) (BankSideIn w) (FrontSideOut_I w) (FrontSideOut_D w)
    (BackSideOut w) (lastQueue w) (theLastTagPipeline w) (theLastDataPipeline w)
    (theLastScheduledBank w) (theSnoopBuffer w) (theEvictBuffer w) (impl w).
Definition set_theIProbeList (x : list (list Z)) (w : Cache) : Cache :=
  mkCache (store w) (next_message w) (next_tracker w) (cycleCount w) (theMaf w) (theMAFPipeline w)
    (theTagPipeline w) (theDataPipeline w) (theScheduledEvicts w) (theFrontSideOutReserve w)
    (theWakeMAFList w) x (SideIn w) (BankSideIn w) (FrontSideOut_I w) (FrontSideOut_D w)
    (BackSideOut w) (lastQueue w) (theLastTagPipeline w) (theLastDataPipeline w)
    (theLastScheduledBank w) (theSnoopBuffer w) (theEvictBuffer w) (impl w).
Definition set_SideIn (x : InChannel -> list Queue) (w : Cache) : Cache :=
  mkCache (store w) (next_message w) (next_tracker w) (cycleCount w) (theMaf w) (theMAFPipeline w)
    (theTagPipeline w) (theDataPipeline w) (theScheduledEvicts w) (theFrontSideOutReserve w)
    (theWakeMAFList w) (theIProbeList w) x (BankSideIn w) (FrontSideOut_I w) (FrontSideOut_D w)
    (BackSideOut w) (lastQueue w) (theLastTagPipeline w) (theLastDataPipeline w)
    (theLastScheduledBank w) (theSnoopBuffer w) (theEvictBuffer w) (impl w).
Definition set_BankSideIn (x : InChannel -> list Queue) (w : Cache) : Cache :=
  mkCache (store w) (next_message w) (next_tracker w) (cycleCount w) (theMaf w) (theMAFPipeline w)
    (theTagPipeline w) (theDataPipeline w) (theScheduledEvicts w) (theFrontSideOutReserve w)
    (theWakeMAFList w) (theIProbeList w) (SideIn w) x (FrontSideOut_I w) (FrontSideOut_D w)
    (BackSideOut w) (lastQueue w) (theLastTagPipeline w) (theLastDataPipeline w)
    (theLastScheduledBank w) (theSnoopBuffer w) (theEvictBuffer w) (impl w).
Definition set_FrontSideOut_I (x : list Queue) (w : Cache) : Cache :=
  mkCache (store w) (next_message w) (next_tracker w) (cycleCount w) (theMaf w) (theMAFPipeline w)
    (theTagPipeline w) (theDataPipeline w) (theScheduledEvicts w) (theFrontSideOutReserve w)
    (theWakeMAFList w) (theIProbeList w) (SideIn w) (BankSideIn w) x (FrontSideOut_D w)
    (BackSideOut w) (lastQueue w) (theLastTagPipeline w) (theLastDataPipeline w)
    (theLastScheduledBank w) (theSnoopBuffer w) (theEvictBuffer w) (impl w).
Definition set_FrontSideOut_D (x : list Queue) (w : Cache) : Cache :=
  mkCache (store w) (next_message w) (next_tracker w) (cycleCount w) (theMaf w) (theMAFPipeline w)
    (theTagPipeline w) (theDataPipeline w) (theScheduledEvicts w) (theFrontSideOutReserve w)
    (theWakeMAFList w) (theIProbeList w) (SideIn w) (BankSideIn w) (FrontSideOut_I w) x
    (BackSideOut w) (lastQueue w) (theLastTagPipeline w) (theLastDataPipeline w)
    (theLastScheduledBank w) (theSnoopBuffer w) (theEvictBuffer w) (impl w).
Definition set_BackSideOut (x : BackChannel -> Queue) (w : Cache) : Cache :=
  mkCache (store w) (next_message w) (next_tracker w) (cycleCount w) (theMaf w) (theMAFPipeline w)
    (theTagPipeline w) (theDataPipeline w) (theScheduledEvicts w) (theFrontSideOutReserve w)
    (theWakeMAFList w) (theIProbeList w) (SideIn w) (BankSideIn w) (FrontSideOut_I w)
    (FrontSideOut_D w) x (lastQueue w) (theLastTagPipeline w) (theLastDataPipeline w)
    (theLastScheduledBank w) (theSnoopBuffer w) (theEvictBuffer w) (impl w).
Definition set_lastQueue (x : InChannel -> Z) (w : Cache) : Cache :=
  mkCache (store w) (next_message w) (next_tracker w) (cycleCount w) (theMaf w) (theMAFPipeline w)
    (theTagPipeline w) (theDataPipeline w) (theScheduledEvicts w) (theFrontSideOutReserve w)
    (theWakeMAFList w) (theIProbeList w) (SideIn w) (BankSideIn w) (FrontSideOut_I w)
    (FrontSideOut_D w) (BackSideOut w) x (theLastTagPipeline w) (theLastDataPipeline w)
    (theLastScheduledBank w) (theSnoopBuffer w) (theEvictBuffer w) (impl w).
Definition set_theLastTagPipeline (x : Z) (w : Cache) : Cache :=
  mkCache (store w) (next_message w) (next_tracker w) (cycleCount w) (theMaf w) (theMAFPipeline w)
    (theTagPipeline w) (theDataPipeline w) (theScheduledEvicts w) (theFrontSideOutReserve w)
    (theWakeMAFList w) (theIProbeList w) (SideIn w) (BankSideIn w) (FrontSideOut_I w)
    (FrontSideOut_D w) (BackSideOut w) (lastQueue w) x (theLastDataPipeline w)
    (theLastScheduledBank w) (theSnoopBuffer w) (theEvictBuffer w) (impl w).
Definition set_theLastDataPipeline (x : Z) (w : Cache) : Cache :=
  mkCache (store w) (next_message w) (next_tracker w) (cycleCount w) (theMaf w) (theMAFPipeline w)
    (theTagPipeline w) (theDataPipeline w) (theScheduledEvicts w) (theFrontSideOutReserve w)
    (theWakeMAFList w) (theIProbeList w) (SideIn w) (BankSideIn w) (FrontSideOut_I w)
    (FrontSideOut_D w) (BackSideOut w) (lastQueue w) (theLastTagPipeline w) x
    (theLastScheduledBank w) (theSnoopBuffer w) (theEvictBuffer w) (impl w).
Definition set_theLastScheduledBank (x : Z) (w : Cache) : Cache :=
  mkCache (store w) (next_message w) (next_tracker w) (cycleCount w) (theMaf w) (theMAFPipeline w)
    (theTagPipeline w) (theDataPipeline w) (theScheduledEvicts w) (theFrontSideOutReserve w)
    (theWakeMAFList w) (theIProbeList w) (SideIn w) (BankSideIn w) (FrontSideOut_I w)
    (FrontSideOut_D w) (BackSideOut w) (lastQueue w) (theLastTagPipeline w) (theLastDataPipeline w)
    x (theSnoopBuffer w) (theEvictBuffer w) (impl w).
Definition set_theSnoopBuffer (x : SB.SnoopBuffer) (w : Cache) : Cache :=
  mkCache (store w) (next_message w) (next_tracker w) (cycleCount w) (theMaf w) (theMAFPipeline w)
    (theTagPipeline w) (theDataPipeline w) (theScheduledEvicts w) (theFrontSideOutReserve w)
    (theWakeMAFList w) (theIProbeList w) (SideIn w) (BankSideIn w) (FrontSideOut_I w)
    (FrontSideOut_D w) (BackSideOut w) (lastQueue w) (theLastTagPipeline w) (theLastDataPipeline w)
    (theLastScheduledBank w) x (theEvictBuffer w) (impl w).
Definition set_theEvictBuffer (x : EB.EvictBuffer S) (w : Cache) : Cache :=
  mkCache (store w) (next_message w) (next_tracker w) (cycleCount w) (theMaf w) (theMAFPipeline w)
    (theTagPipeline w) (theDataPipeline w) (theScheduledEvicts w) (theFrontSideOutReserve w)
    (theWakeMAFList w) (theIProbeList w) (SideIn w) (BankSideIn w) (FrontSideOut_I w)
    (FrontSideOut_D w) (BackSideOut w) (lastQueue w) (theLastTagPipeline w) (theLastDataPipeline w)
    (theLastScheduledBank w) (theSnoopBuffer w) x (impl w).
Definition set_impl (x : P) (w : Cache) : Cache :=
  mkCache (store w) (next_message w) (next_tracker w) (cycleCount w) (theMaf w) (theMAFPipeline w)
    (theTagPipeline w) (theDataPipeline w) (theScheduledEvicts w) (theFrontSideOutReserve w)
    (theWakeMAFList w) (theIProbeList w) (SideIn w) (BankSideIn w) (FrontSideOut_I w)
    (FrontSideOut_D w) (BackSideOut w) (lastQueue w) (theLastTagPipeline w) (theLastDataPipeline w)
    (theLastScheduledBank w) (theSnoopBuffer w) (theEvictBuffer w) x.
End state.

Arguments Cache S P : clear implicits.

(** ** The protocol

    The virtual functions of BaseCacheControllerImpl. *)
Class Policy (S P : Type) : Type := {
  getBlockAddress : P -> Z -> Z;
  canStartRequest : P -> Z -> bool;
  addPendingRequest : Z -> P -> outcome P;
  removePendingRequest : Z -> P -> outcome P;
  arrayEvictResourcesAvailable : P -> bool;
  reserveArrayEvictResource : P -> outcome P;
  unreserveArrayEvictResource : P -> outcome P;
  freeEvictBuffer : Cache S P -> Z;
  evictableBlockExists : Z -> Cache S P -> bool;
  doEviction : M (Cache S P) Action;
  (** Whether it was a hit, whether on a prefetched block, and the action. *)
  doRequest : Transport -> bool -> option Z -> M (Cache S P) (bool * bool * Action);
  handleBackMessage : Transport -> M (Cache S P) Action;
  handleSnoopMessage : Transport -> M (Cache S P) Action;
  handleIprobe : bool -> Transport -> M (Cache S P) Action;
  idleWorkAvailable : Cache S P -> bool;
  getIdleWorkMessage : ProcessEntry -> M (Cache S P) (option Z * ProcessEntry);
  removeIdleWorkReservations : ProcessEntry -> Action -> M (Cache S P) ProcessEntry;
  handleIdleWork : Transport -> M (Cache S P) Action;
  completeIdleWork : option Z -> M (Cache S P) ();
  handleWakeSnoop : Transport -> M (Cache S P) Action;
}.

(** ** Shared objects *)

Section heap.
Context {S P : Type}.
Implicit Types w : Cache S P.

Definition message_of (t : Transport) w : option Message := id ← tMessage t; store w !! id.

Definition deref_message (t : Transport) : M (Cache S P) Message := fun w =>
  match message_of t w with Some m => Done (m, w) | None => Assert "null message" end.

Definition write_message (id : Z) (m : Message) : M (Cache S P) () :=
  modify (fun w => set_store (<[id := m]> (store w)) w).

Definition new_message (m : Message) : M (Cache S P) Z :=
  id ← gets next_message;
  modify (set_next_message (id + 1));;
  write_message id m;;
  mret id.

Definition new_tracker : M (Cache S P) Z :=
  id ← gets next_tracker; modify (set_next_tracker (id + 1));; mret id.

(** A change of a message through a transport. *)
Definition update_message (t : Transport) (f : MemoryMessage -> MemoryMessage) : M (Cache S P) () :=
  m ← deref_message t;
  match tMessage t with
  | None => dbg_fail "null message"
  | Some id => write_message id (set_body (f (body m)) m)
  end.

Definition update_maf (f : MAF.MissAddressFile -> outcome MAF.MissAddressFile) : M (Cache S P) () :=
  maf ← gets theMaf; maf ← lift (f maf); modify (set_theMaf maf).

Definition update_back (c : BackChannel) (f : Queue -> outcome Queue) : M (Cache S P) () :=
  q ← gets (fun w => BackSideOut w c);
  q ← lift (f q);
  modify (fun w => set_BackSideOut (with_channel c q (BackSideOut w)) w).

Definition bank_queue (c : InChannel) (i : Z) : M (Cache S P) Queue :=
  qs ← gets (fun w => BankSideIn w c); lift (vec_at qs i).

Definition put_bank_queue (c : InChannel) (i : Z) (q : Queue) : M (Cache S P) () :=
  qs ← gets (fun w => BankSideIn w c);
  qs ← lift (vec_put qs i q);
  modify (fun w => set_BankSideIn (with_channel c qs (BankSideIn w)) w).

Definition port_queue (c : InChannel) (i : Z) : M (Cache S P) Queue :=
  qs ← gets (fun w => SideIn w c); lift (vec_at qs i).

Definition put_port_queue (c : InChannel) (i : Z) (q : Queue) : M (Cache S P) () :=
  qs ← gets (fun w => SideIn w c);
  qs ← lift (vec_put qs i q);
  modify (fun w => set_SideIn (with_channel c qs (SideIn w)) w).

(** One of the three sets of pipelines. *)
Record PipelineSet : Type := mkPipes {
  pipes : Cache S P -> list Pipeline;
  set_pipes : list Pipeline -> Cache S P -> Cache S P;
}.
Definition MAF_pipes : PipelineSet := mkPipes theMAFPipeline set_theMAFPipeline.
Definition Tag_pipes : PipelineSet := mkPipes theTagPipeline set_theTagPipeline.
Definition Data_pipes : PipelineSet := mkPipes theDataPipeline set_theDataPipeline.

Definition pipe_at (s : PipelineSet) (i : Z) : M (Cache S P) Pipeline :=
  ps ← gets (pipes s); lift (vec_at ps i).
Definition put_pipe (s : PipelineSet) (i : Z) (p : Pipeline) : M (Cache S P) () :=
  ps ← gets (pipes s); ps ← lift (vec_put ps i p); modify (set_pipes s ps).

Definition pipe_enqueue (s : PipelineSet) (i : Z) (p : ProcessEntry) (repeats : Z) : M (Cache S P) () :=
  now ← gets cycleCount;
  pipe ← pipe_at s i;
  pipe ← lift (Fifo.enqueue now p repeats pipe);
  put_pipe s i pipe.
Definition pipe_dequeue (s : PipelineSet) (i : Z) : M (Cache S P) ProcessEntry :=
  pipe ← pipe_at s i;
  '(p, pipe) ← lift (Fifo.dequeue pipe);
  put_pipe s i pipe;;
  mret p.
Definition pipe_ready (s : PipelineSet) (i : Z) : M (Cache S P) bool :=
  now ← gets cycleCount; pipe ← pipe_at s i; lift (Fifo.ready now pipe).
Definition pipe_avail (s : PipelineSet) (i : Z) : M (Cache S P) bool :=
  now ← gets cycleCount; pipe ← pipe_at s i; lift (Fifo.serverAvail now pipe).

Definition list_at {A} (f : Cache S P -> list (list A)) (i : Z) : M (Cache S P) (list A) :=
  l ← gets f; lift (vec_at l i).
Definition put_list {A} (f : Cache S P -> list (list A)) (set : list (list A) -> Cache S P -> Cache S P)
    (i : Z) (x : list A) : M (Cache S P) () :=
  l ← gets f; l ← lift (vec_put l i x); modify (set l).

Definition update_snoops (f : SB.SnoopBuffer -> outcome SB.SnoopBuffer) : M (Cache S P) () :=
  b ← gets theSnoopBuffer; b ← lift (f b); modify (set_theSnoopBuffer b).
End heap.

Section controller.
Context {S P : Type} `{IndexOrder} `{Policy S P} (cfg : CacheConfig).
Implicit Types (w : Cache S P) (p aProcess : ProcessEntry) (action : Action).

(** ** Queries *)

Definition isFrontSideOutEmpty_D w : bool := forallb MQ.empty (FrontSideOut_D w).
Definition isFrontSideOutEmpty_I w : bool := forallb MQ.empty (FrontSideOut_I w).
Definition isFrontSideOutFull w : bool :=
  existsb (MQ.full (uint32 (theFrontSideOutReserve w))) (FrontSideOut_I w) ||
  existsb (MQ.full (uint32 (theFrontSideOutReserve w))) (FrontSideOut_D w).
Definition isQueueSetEmpty (queues : list Queue) : bool := forallb MQ.empty queues.
Definition isPipelineSetEmpty (pipelines : list Pipeline) : bool := forallb Fifo.empty pipelines.
Definition isWakeMAFListEmpty w : bool :=
  forallb (fun l => match l with [] => true | _ => false end) (theWakeMAFList w).
Definition isIProbeListEmpty w : bool :=
  forallb (fun l => match l with [] => true | _ => false end) (theIProbeList w).

(** [getBank(MemoryAddress)]; lines of 64 bytes are assumed. *)
Definition getBank (address : Z) : Z := Z.shiftr address 6 mod theBanks cfg.

Definition isQuiesced w : bool :=
  MAF.empty (theMaf w) && isPipelineSetEmpty (theMAFPipeline w) && isPipelineSetEmpty (theTagPipeline w) &&
  isPipelineSetEmpty (theDataPipeline w) && isWakeMAFListEmpty w && isIProbeListEmpty w &&
  isQueueSetEmpty (SideIn w FrontSnoop) && isQueueSetEmpty (SideIn w FrontRequest) &&
  isQueueSetEmpty (SideIn w FrontPrefetch) && isQueueSetEmpty (SideIn w BackReply) &&
  isQueueSetEmpty (SideIn w BackRequest) && isFrontSideOutEmpty_I w && isFrontSideOutEmpty_D w &&
  MQ.empty (BackSideOut w BSO_Reply) && MQ.empty (BackSideOut w BSO_Snoop) &&
  MQ.empty (BackSideOut w BSO_Request) && MQ.empty (BackSideOut w BSO_Prefetch) &&
  SB.empty (theSnoopBuffer w).

(** ** The buffers of BaseCacheControllerImpl *)

Definition fullEvictBuffer w : bool :=
  EB.full (theEvictBuffer w) || negb (arrayEvictResourcesAvailable (impl w)).
Definition evict_reserve : M (Cache S P) () :=
  b ← gets theEvictBuffer;
  b ← lift (EB.reserve b);
  modify (set_theEvictBuffer b);;
  a ← gets impl;
  a ← lift (reserveArrayEvictResource a);
  modify (set_impl a).
Definition evict_unreserve : M (Cache S P) () :=
  modify (fun w => set_theEvictBuffer (EB.unreserve (theEvictBuffer w)) w);;
  a ← gets impl;
  a ← lift (unreserveArrayEvictResource a);
  modify (set_impl a).
Definition fullSnoopBuffer w : bool := SB.full (theSnoopBuffer w).
Definition hasWakingSnoops w : bool := negb (SB.wakeListEmpty (theSnoopBuffer w)).
Definition getWakingSnoopTransport : M (Cache S P) Transport :=
  b ← gets theSnoopBuffer;
  '(t, b) ← lift (SB.wakeSnoop b);
  modify (set_theSnoopBuffer b);;
  mret t.
Definition wakeWaitingSnoops (addr : Z) : M (Cache S P) () :=
  modify (fun w => set_theSnoopBuffer (SB.wakeWaitingEntries addr (theSnoopBuffer w)).2 w).

(** The defaults of [freeEvictBuffer] and [evictableBlockExists], given the free
    eviction resources of the array, and of the three functions on the resources of a
    snoop, which no protocol overrides. *)
Definition base_freeEvictBuffer (arrayEvictResourcesFree : P -> Z) w : Z :=
  let eb_free := EB.freeEntries (theEvictBuffer w) in
  let er_free := arrayEvictResourcesFree (impl w) in
  if eb_free <? er_free then eb_free else er_free.
Definition base_evictableBlockExists (anIndex : Z) w : bool := EB.headEvictable anIndex (theEvictBuffer w).
Definition snoopResourcesAvailable (_ : Transport) : bool := true.
Definition reserveSnoopResources (_ : Transport) p : M (Cache S P) ProcessEntry := mret p.
Definition unreserveSnoopResources (_ : Transport) p : M (Cache S P) ProcessEntry := mret p.

(** [BaseCacheControllerImpl::doEviction] *)
Definition base_doEviction : M (Cache S P) Action :=
  b ← gets theEvictBuffer;
  if EB.headEvictable 0 b then
    '(t, a, b) ← lift (EB.pop b);
    modify (set_theEvictBuffer b);;
    msg ← new_message (fresh_message (mkMessage t a 0 (theBlockSize cfg) 0 true eUnknown false));
    tracker ← new_tracker;
    mret (mkAction kSend (Some tracker) noTransport (mkTransport (Some msg) (Some tracker)) false true
            true false 0 1 false false false true)
  else mret (newAction kNoAction None 0).

(** [examineRequest], up to statistics; a request without a tracker is undefined. *)
Definition examineRequest (t : Transport) (has_maf_entry : bool) (aWakingTracker : option Z)
    : M (Cache S P) Action :=
  m ← deref_message t;
  match isWrite (Messages.theType (body m)) with
  | None => dbg_fail "isWrite not recognized"
  | Some _ =>
      '(_, _, action) ← doRequest t has_maf_entry aWakingTracker;
      mret action
  end.

Definition check_tracker (t : Transport) : M (Cache S P) () :=
  match tTracker t with Some _ => mret () | None => dbg_fail "null tracker" end.

Definition isPrefetchRead (t : MemoryMessageType) : bool :=
  match t with PrefetchReadNoAllocReq | PrefetchReadAllocReq => true | _ => false end.

Definition handleRequestTransport (t : Transport) (has_maf_entry : bool) : M (Cache S P) Action :=
  m ← deref_message t;
  let type := Messages.theType (body m) in
  dbg_assert (bool_decide (isRequest type = Some true)) "is NOT a Request message";;
  dbg_assert (bool_decide (usesSnoopChannel type = Some false)) "!msg->usesSnoopChannel()";;
  check_tracker t;;
  if isPrefetchRead type && has_maf_entry then
    update_message t (Messages.set_type PrefetchReadRedundant);;
    mret (newAction kSend None 0)
  else examineRequest t has_maf_entry None.

Definition wakeMaf (t : Transport) (aWakingTracker : option Z) : M (Cache S P) Action :=
  check_tracker t;;
  examineRequest t false aWakingTracker.

(** ** Reservations *)

Definition reserveFrontSideOut p : M (Cache S P) ProcessEntry :=
  modify (fun w => set_theFrontSideOutReserve (theFrontSideOutReserve w + 1) w);;
  mret (process_reserve kResFrontSideOut p).
Definition reserve_back (c : BackChannel) p : M (Cache S P) ProcessEntry :=
  update_back c MQ.reserve;;
  mret (process_reserve (res_of c) p).

(** The channels of snoop replies and of evictions. *)
Definition snoop_channel : BackChannel := if theUseReplyChannel cfg then BSO_Reply else BSO_Snoop.
Definition evict_channel : BackChannel := if theEvictOnSnoop cfg then BSO_Snoop else BSO_Request.

Definition reserveBackSideOut_Request := reserve_back BSO_Request.
Definition reserveBackSideOut_Evict := reserve_back evict_channel.
Definition reserveBackSideOut_Snoop := reserve_back snoop_channel.
Definition reserveBackSideOut_Prefetch := reserve_back BSO_Prefetch.
Definition reserveEvictBuffer p : M (Cache S P) ProcessEntry :=
  evict_reserve;; mret (process_reserve kResEvictBuffer p).
Definition reserveSnoopBuffer p : M (Cache S P) ProcessEntry :=
  update_snoops SB.reserve;; mret (process_reserve kResSnoopBuffer p).
Definition reserveScheduledEvict p : M (Cache S P) ProcessEntry :=
  modify (fun w => set_theScheduledEvicts (theScheduledEvicts w + 1) w);;
  mret (process_reserve kResScheduledEvict p).
Definition reserveMAF p : M (Cache S P) ProcessEntry :=
  update_maf MAF.reserve;; mret (process_reserve kResMaf p).

Definition unreserveFrontSideOut p : M (Cache S P) ProcessEntry :=
  modify (fun w => set_theFrontSideOutReserve (theFrontSideOutReserve w - 1) w);;
  mret (process_unreserve kResFrontSideOut p).
Definition unreserve_back (c : BackChannel) p : M (Cache S P) ProcessEntry :=
  update_back c MQ.unreserve;;
  mret (process_unreserve (res_of c) p).
Definition unreserveBackSideOut_Request := unreserve_back BSO_Request.
Definition unreserveBackSideOut_Evict := unreserve_back evict_channel.
Definition unreserveBackSideOut_Snoop := unreserve_back snoop_channel.
Definition unreserveBackSideOut_Prefetch := unreserve_back BSO_Prefetch.
Definition unreserveEvictBuffer p : M (Cache S P) ProcessEntry :=
  evict_unreserve;; mret (process_unreserve kResEvictBuffer p).
Definition clearEvictBufferReservation p : ProcessEntry := process_unreserve kResEvictBuffer p.
Definition unreserveSnoopBuffer p : M (Cache S P) ProcessEntry :=
  update_snoops SB.unreserve;; mret (process_unreserve kResSnoopBuffer p).
Definition unreserveScheduledEvict p : M (Cache S P) ProcessEntry :=
  modify (fun w => set_theScheduledEvicts (theScheduledEvicts w - 1) w);;
  mret (process_unreserve kResScheduledEvict p).
Definition unreserveMAF p : M (Cache S P) ProcessEntry :=
  update_maf MAF.unreserve;; mret (process_unreserve kResMaf p).

Definition unreserveBSO p : M (Cache S P) ProcessEntry :=
  match theType p with
  | eProcPrefetch => unreserveBackSideOut_Prefetch p
  | eProcSnoop | eProcBackReply | eProcBackRequest => unreserveBackSideOut_Snoop p
  | eProcEviction => unreserveBackSideOut_Evict p
  | eProcRequest | eProcIProbe | eProcMAFWakeup => unreserveBackSideOut_Request p
  | _ => dbg_fail "Cannot unreserve resources for processes of type"
  end.

(** ** Addresses, wake-ups and messages to the neighbours *)

Definition addressOf p : M (Cache S P) Z :=
  m ← deref_message (theOrig p);
  a ← gets impl;
  mret (getBlockAddress a (theAddress (body m))).
Definition trackerOf p : option Z := tTracker (theOrig p).

Definition enqueueBackTransport action p : M (Cache S P) ProcessEntry :=
  let p := send_to_back action p in
  m ← deref_message (theOrig p);
  (if thePageWalk m then
     b ← deref_message (processBack p);
     match tMessage (processBack p) with
     | Some id => if thePageWalk b then mret () else write_message id (setPageWalk b)
     | None => dbg_fail "null message"
     end
   else mret ());;
  mret p.

Definition enqueueTagPipeline action p : M (Cache S P) () :=
  dbg_assert (0 <? theRequiresTag action) "action.theRequiresTag > 0";;
  a ← addressOf p;
  pipe_enqueue Tag_pipes (getBank a) p (theRequiresTag action).

Definition enqueueWakeMaf (anAddress : Z) (aWakeTransaction : option Z) : M (Cache S P) () :=
  let bank := getBank anAddress in
  l ← list_at theWakeMAFList bank;
  put_list theWakeMAFList set_theWakeMAFList bank (l ++ [(anAddress, aWakeTransaction)]).

(** The region of a block is the block; no protocol overrides [getRegionBlockList]. *)
Definition getRegionBlockList (addr : Z) : list Z := [addr].

Definition enqueueWakeRegionMaf (anAddress : Z) (aWakeTransaction : option Z) : M (Cache S P) () :=
  for_each (getRegionBlockList anAddress) (fun addr =>
    maf ← gets theMaf;
    if MAF.contains_state addr kWaitRegion maf then enqueueWakeMaf addr aWakeTransaction else mret ()).

Definition front_enqueue (f : Cache S P -> list Queue) (set : list Queue -> Cache S P -> Cache S P)
    (i : Z) (t : Transport) : M (Cache S P) () :=
  now ← gets cycleCount;
  qs ← gets f;
  q ← lift (vec_at qs i);
  q ← lift (MQ.enqueue now t q);
  qs ← lift (vec_put qs i q);
  modify (set qs).

(** The copy for the instruction side is made whether it is sent or not. *)
Definition sendFront (t : Transport) (to_D to_I : bool) : M (Cache S P) () :=
  m ← deref_message t;
  let core := theCoreIdx (body m) in
  dbg_assert ((0 <=? core) && (core <? theCores cfg)) "coreIdx() >= 0 && coreIdx() < theCores";;
  i ← new_message (set_body (set_dstream false (copyMessage (body m))) (copy_message m));
  (if to_D then front_enqueue FrontSideOut_D set_FrontSideOut_D core t else mret ());;
  (if to_I then front_enqueue FrontSideOut_I set_FrontSideOut_I core (mkTransport (Some i) (tTracker t))
   else mret ()).

Definition send_back (c : BackChannel) (t : Transport) : M (Cache S P) () :=
  now ← gets cycleCount;
  update_back c (MQ.enqueue now t).
Definition sendBack_Request := send_back BSO_Request.
Definition sendBack_Prefetch := send_back BSO_Prefetch.
Definition sendBack_Snoop := send_back snoop_channel.
Definition sendBack_Evict := send_back evict_channel.

(** ** The end of a process *)

Definition transmit_back p : M (Cache S P) ProcessEntry :=
  if hasBackMessage p then
    match theType p with
    | eProcPrefetch =>
        p ← unreserveBackSideOut_Prefetch p; sendBack_Prefetch (processBack p);; mret p
    | eProcSnoop | eProcWakeSnoop | eProcBackRequest | eProcBackReply =>
        p ← unreserveBackSideOut_Snoop p; sendBack_Snoop (processBack p);; mret p
    | eProcEviction | eProcRequest | eProcIProbe | eProcMAFWakeup =>
        p ← unreserveBackSideOut_Request p; sendBack_Request (processBack p);; mret p
    | _ => dbg_fail "For transmit to back, invalid process type"
    end
  else mret p.

Definition transmit_front p : M (Cache S P) ProcessEntry :=
  if hasFrontMessage p then
    p ← unreserveFrontSideOut p;
    sendFront (processFront p) (theSendToD p) (theSendToI p);;
    mret p
  else mret p.

(** What of [doTransmitProcess] wakes others. *)
Definition wake_others p : M (Cache S P) ProcessEntry :=
  if theRemoveMafEntry p then
    let p := set_removeMafEntry false p in
    match theMafEntry p with
    | None => dbg_fail "mafEntry() != theMaf.end()"
    | Some iter =>
        maf ← gets theMaf;
        e ← lift (MAF.deref iter maf);
        dbg_assert (bool_decide (MAF.state e = kCompleted)) "mafEntry()->state == kCompleted";;
        a ← addressOf p;
        (if MAF.contains_state a kWaitAddress maf then enqueueWakeMaf a (trackerOf p) else mret ());;
        update_maf (MAF.remove iter);;
        mret p
    end
  else if theWakeMaf p then
    a ← addressOf p;
    maf ← gets theMaf;
    (if MAF.contains_state a kWaitAddress maf then enqueueWakeMaf a (trackerOf p) else mret ());;
    mret p
  else if processWakeSnoops p then
    a ← addressOf p;
    wakeWaitingSnoops a;;
    maf ← gets theMaf;
    (if MAF.contains_state a kWaitSnoop maf then enqueueWakeMaf a (trackerOf p)
     else if processWakeEvicts p then
       if MAF.contains_state a kWaitEvict maf then enqueueWakeMaf a (trackerOf p) else mret ()
     else mret ());;
    mret p
  else if processWakeEvicts p then
    a ← addressOf p;
    maf ← gets theMaf;
    (if MAF.contains_state a kWaitEvict maf then enqueueWakeMaf a (trackerOf p) else mret ());;
    mret p
  else mret p.

Definition clears_evict_buffer p : bool :=
  bool_decide (theType p = eProcRequest \/ theType p = eProcMAFWakeup) && hasReserved kResEvictBuffer p.

Definition doTransmitProcess p : M (Cache S P) ProcessEntry :=
  p ← transmit_back p;
  p ← transmit_front p;
  (if bool_decide (theType p = eProcIdleWork) then completeIdleWork (tMessage (theOrig p)) else mret ());;
  let p := if clears_evict_buffer p then clearEvictBufferReservation p else p in
  dbg_assert (theReservations p =? 0) "Process has no more work but still holds reservations!";;
  let p := set_proc_type eProcNoMoreWork p in
  (if processWakeRegion p then a ← addressOf p; enqueueWakeRegionMaf a (trackerOf p) else mret ());;
  wake_others p.

(** ** The processes *)

Definition message_type p : M (Cache S P) MemoryMessageType :=
  m ← deref_message (theOrig p); mret (Messages.theType (body m)).

(** [theMaf.allocEntry(addressOf(aProcess), aProcess->transport(), aState)] *)
Definition alloc_maf (aState : MafStates) p : M (Cache S P) () :=
  a ← addressOf p;
  t ← message_type p;
  update_maf (MAF.allocEntry a (theOrig p) t aState).

Definition modify_maf (aState : MafStates) p : M (Cache S P) () :=
  match theMafEntry p with
  | None => dbg_fail "stale MAF iterator"
  | Some iter => update_maf (MAF.modifyState iter aState)
  end.

Definition maf_entry p : M (Cache S P) MAF.MafEntry :=
  match theMafEntry p with
  | None => dbg_fail "stale MAF iterator"
  | Some iter => maf ← gets theMaf; lift (MAF.deref iter maf)
  end.

(** A request that has to wait gives everything back. *)
Definition insert_waiting (aState : MafStates) p : M (Cache S P) () :=
  p ← unreserveMAF p;
  p ← unreserveFrontSideOut p;
  p ← unreserveBSO p;
  p ← unreserveEvictBuffer p;
  alloc_maf aState p.

Definition runRequestProcess p : M (Cache S P) () :=
  dbg_assert (bool_decide (theType p = eProcRequest \/ theType p = eProcPrefetch)) "aProcess->type()";;
  a ← addressOf p;
  maf ← gets theMaf;
  let has_maf_entry := MAF.contains a maf in
  m ← deref_message (theOrig p);
  i ← gets impl;
  i ← lift (removePendingRequest (theAddress (body m)) i);
  modify (set_impl i);;
  action ← handleRequestTransport (theOrig p) has_maf_entry;
  let p := consumeAction action p in
  match theAction action with
  | kSend =>
      p ← unreserveMAF p;
      p ← unreserveEvictBuffer p;
      dbg_assert (negb (theFrontMessage action)) "action.theFrontMessage == false";;
      dbg_assert (theBackMessage action) "action.theBackMessage";;
      p ← unreserveFrontSideOut p;
      p ← enqueueBackTransport action p;
      enqueueTagPipeline action p
  | kInsertMAF_WaitAddress => insert_waiting kWaitAddress p
  | kInsertMAF_WaitSnoop => insert_waiting kWaitSnoop p
  | kInsertMAF_WaitEvict => insert_waiting kWaitEvict p
  | kInsertMAF_WaitRegion => insert_waiting kWaitRegion p
  | kInsertMAF_WaitResponse =>
      p ← unreserveMAF p;
      dbg_assert (negb (theFrontMessage action)) "action.theFrontMessage == false";;
      dbg_assert (theBackMessage action) "action.theBackMessage";;
      p ← unreserveFrontSideOut p;
      p ← enqueueBackTransport action p;
      alloc_maf kWaitResponse p;;
      enqueueTagPipeline action p
  | kReplyAndInsertMAF_WaitResponse =>
      p ← unreserveMAF p;
      dbg_assert (theBackMessage action) "action.theBackMessage";;
      dbg_assert (theFrontMessage action) "action.theFrontMessage";;
      p ← enqueueBackTransport action p;
      let p := enqueueFrontTransport action p in
      alloc_maf kWaitResponse p;;
      enqueueTagPipeline action p
  | kInsertMAF_WaitProbe =>
      p ← unreserveMAF p;
      p ← unreserveBSO p;
      p ← unreserveEvictBuffer p;
      alloc_maf kWaitProbe p;;
      dbg_assert (theFrontMessage action) "action.theFrontMessage";;
      let p := enqueueFrontTransport action p in
      enqueueTagPipeline action p
  | kReplyAndRemoveMAF =>
      dbg_assert (theFrontMessage action) "action.theFrontMessage";;
      let p := enqueueFrontTransport action p in
      p ← unreserveMAF p;
      p ← unreserveBSO p;
      p ← unreserveEvictBuffer p;
      enqueueTagPipeline action p
  | _ => dbg_fail "Unexpected result from runRequestProcess"
  end.

Definition wait_again (aState : MafStates) p : M (Cache S P) () :=
  p ← unreserveFrontSideOut p;
  p ← unreserveBSO p;
  p ← unreserveEvictBuffer p;
  modify_maf aState p.

Definition runWakeMafProcess p : M (Cache S P) () :=
  dbg_assert (bool_decide (theType p = eProcMAFWakeup)) "aProcess->type() == eProcMAFWakeup";;
  e ← maf_entry p;
  m ← deref_message (MAF.transport e);
  i ← gets impl;
  i ← lift (removePendingRequest (theAddress (body m)) i);
  modify (set_impl i);;
  action ← wakeMaf (MAF.transport e) (theWakeTransaction p);
  let p := consumeAction action p in
  match theAction action with
  | kInsertMAF_WaitResponse =>
      dbg_assert (negb (theFrontMessage action)) "action.theFrontMessage == false";;
      dbg_assert (theBackMessage action) "action.theBackMessage";;
      p ← unreserveFrontSideOut p;
      p ← enqueueBackTransport action p;
      modify_maf kWaitResponse p;;
      enqueueTagPipeline action p
  | kReplyAndInsertMAF_WaitResponse =>
      dbg_assert (theBackMessage action) "action.theBackMessage";;
      dbg_assert (theFrontMessage action) "action.theFrontMessage";;
      p ← enqueueBackTransport action p;
      let p := enqueueFrontTransport action p in
      modify_maf kWaitResponse p;;
      enqueueTagPipeline action p
  | kInsertMAF_WaitProbe =>
      p ← unreserveBSO p;
      p ← unreserveEvictBuffer p;
      modify_maf kWaitProbe p;;
      dbg_assert (theFrontMessage action) "action.theFrontMessage";;
      let p := enqueueFrontTransport action p in
      enqueueTagPipeline action p
  | kReplyAndRemoveMAF =>
      let p := set_removeMafEntry true p in
      modify_maf kCompleted p;;
      dbg_assert (theFrontMessage action) "action.theFrontMessage";;
      let p := enqueueFrontTransport action p in
      p ← unreserveBSO p;
      p ← unreserveEvictBuffer p;
      enqueueTagPipeline action p
  | kInsertMAF_WaitAddress => wait_again kWaitAddress p
  | kInsertMAF_WaitSnoop => wait_again kWaitSnoop p
  | kInsertMAF_WaitEvict => wait_again kWaitEvict p
  | kInsertMAF_WaitRegion => wait_again kWaitRegion p
  | kSend =>
      dbg_assert (negb (theFrontMessage action)) "action.theFrontMessage == false";;
      dbg_assert (theBackMessage action) "action.theBackMessage";;
      p ← unreserveEvictBuffer p;
      p ← unreserveFrontSideOut p;
      p ← enqueueBackTransport action p;
      let p := set_removeMafEntry true p in
      modify_maf kCompleted p;;
      enqueueTagPipeline action p
  | _ => dbg_fail "Unexpected result from runWakeMafProcess"
  end.

(** The reply to a probe of the instruction cache: whether it was a hit. *)
Definition probe_result (t : MemoryMessageType) : outcome MafStates :=
  match t with
  | ProbedNotPresent => Done kProbeMiss
  | ProbedClean | ProbedWritable | ProbedDirty => Done kProbeHit
  | _ => Assert "probe type"
  end.

Definition runSnoopProcess p : M (Cache S P) () :=
  a ← addressOf p;
  maf ← gets theMaf;
  t ← message_type p;
  match (if isProbeType t then MAF.getProbingMAFEntry a maf else None) with
  | Some temp =>
      s ← lift (probe_result t);
      update_maf (MAF.modifyState temp s);;
      p ← unreserveBackSideOut_Snoop p;
      p ← unreserveSnoopResources (theOrig p) p;
      l ← list_at theIProbeList (getBank a);
      put_list theIProbeList set_theIProbeList (getBank a) (l ++ [temp])
  | None =>
      action ← handleSnoopMessage (theOrig p);
      let p := consumeAction action p in
      match theAction action with
      | kNoAction =>
          p ← unreserveBackSideOut_Snoop p;
          enqueueTagPipeline action
            (set_wakeAfterEvict (theWakeEvicts action)
               (set_wakeAfterSnoop (theWakeSnoops action) (set_proc_type eProcNoMoreWork p)))
      | kSend =>
          p ← enqueueBackTransport action p;
          enqueueTagPipeline action
            (set_wakeAfterEvict (theWakeEvicts action) (set_wakeAfterSnoop (theWakeSnoops action) p))
      | _ => dbg_fail "Unexpected result from runSnoopProcess"
      end
  end.

Definition runIProbeProcess p : M (Cache S P) () :=
  e ← maf_entry p;
  action ← handleIprobe (bool_decide (MAF.state e = kProbeHit)) (MAF.transport e);
  let p := consumeAction action p in
  match theAction action with
  | kInsertMAF_WaitResponse =>
      p ← unreserveFrontSideOut p;
      modify_maf kWaitSnoop p
  | kInsertMAF_WaitSnoop =>
      p ← unreserveFrontSideOut p;
      p ← unreserveBackSideOut_Request p;
      modify_maf kWaitSnoop p
  | kReplyAndRemoveMAF =>
      let p := set_removeMafEntry true p in
      modify_maf kCompleted p;;
      dbg_assert (theFrontMessage action) "action.theFrontMessage";;
      let p := enqueueFrontTransport action p in
      p ← unreserveBackSideOut_Request p;
      enqueueTagPipeline action p
  | _ => dbg_fail "Unexpected result from runIProbeProcess"
  end.

(** The entry that waits for the response to a back-side message. *)
Definition waiting_entry p : M (Cache S P) MAF.MafEntry :=
  a ← addressOf p;
  maf ← gets theMaf;
  match MAF.getWaitingMAFEntryIter a maf with
  | None => dbg_fail "aProcess->mafEntry() != theMaf.end()"
  | Some iter => lift (MAF.deref iter maf)
  end.

Definition with_entry (e : MAF.MafEntry) p : ProcessEntry := set_mafEntry (Some (MAF.maf_iter e)) p.

(** What [runBackProcess] does with the action of the handler. *)
Definition back_action action p : M (Cache S P) () :=
  match theAction action with
  | kSend =>
      p ← (if theFrontMessage action then
             let p := enqueueFrontTransport action p in
             if theBackMessage action then enqueueBackTransport action p
             else unreserveBackSideOut_Snoop p
           else
             dbg_assert (theBackMessage action) "action.theBackMessage";;
             p ← enqueueBackTransport action p;
             unreserveFrontSideOut p);
      enqueueTagPipeline action (set_wakeRegion (theWakeRegion action) p)
  | kReplyAndRemoveResponseMAF =>
      e ← waiting_entry p;
      let p := with_entry e (set_removeMafEntry true p) in
      modify_maf kCompleted p;;
      let p := set_front (MAF.transport e) p in
      dbg_assert (theFrontMessage action) "action.theFrontMessage";;
      let p := enqueueFrontTransport action p in
      p ← (if theBackMessage action then enqueueBackTransport action p
           else unreserveBackSideOut_Snoop p);
      let p := set_wakeRegion (theWakeRegion action) (set_orig (MAF.transport e) p) in
      evict_unreserve;;
      enqueueTagPipeline action p
  | kReplyAndRemoveMAF =>
      e ← waiting_entry p;
      let p := with_entry e (set_removeMafEntry true p) in
      modify_maf kCompleted p;;
      let p := set_back (MAF.transport e) (set_orig (MAF.transport e) p) in
      dbg_assert (negb (theFrontMessage action)) "!action.theFrontMessage";;
      p ← unreserveFrontSideOut p;
      dbg_assert (theBackMessage action) "kReplyAndRemoveMAF: action.theBackMessage";;
      p ← enqueueBackTransport action p;
      let p := set_wakeRegion (theWakeRegion action) p in
      evict_unreserve;;
      enqueueTagPipeline action p
  | kReplyAndRetryMAF =>
      e ← waiting_entry p;
      let p := with_entry e p in
      modify_maf kWaitAddress p;;
      let p := set_wakeMAF true p in
      p ← unreserveFrontSideOut p;
      p ← enqueueBackTransport action p;
      let p := set_wakeRegion (theWakeRegion action) (set_orig (MAF.transport e) p) in
      evict_unreserve;;
      enqueueTagPipeline action p
  | kRetryRequest =>
      e ← waiting_entry p;
      let p := with_entry e p in
      p ← unreserveBackSideOut_Snoop p;
      p ← unreserveFrontSideOut p;
      modify_maf kWaitAddress p;;
      evict_unreserve;;
      a ← addressOf p;
      enqueueWakeMaf a (trackerOf p)
  | kNoAction =>
      p ← unreserveBackSideOut_Snoop p;
      p ← unreserveFrontSideOut p;
      let p := set_proc_type eProcNoMoreWork (set_wakeAfterEvict (theWakeEvicts action) p) in
      if processWakeEvicts p then doTransmitProcess p;; mret ()
      else enqueueTagPipeline action p
  | _ => dbg_fail "Unexpected result from runBackProcess"
  end.

Definition runBackProcess p : M (Cache S P) () :=
  action ← handleBackMessage (theOrig p);
  let p := consumeAction action p in
  p ← (if bool_decide (theType p = eProcBackRequest) then unreserveSnoopBuffer p else mret p);
  back_action action p.

Definition runEvictProcess p : M (Cache S P) () :=
  action ← doEviction;
  p ← unreserveBackSideOut_Evict p;
  p ← unreserveScheduledEvict p;
  if bool_decide (theAction action = kNoAction) then mret ()
  else
    dbg_assert (theBackMessage action) "action.theBackMessage";;
    sendBack_Evict (theBackTransport action).

Definition runIdleWorkProcess p : M (Cache S P) () :=
  m ← deref_message (theOrig p);
  tracker ← new_tracker;
  let p := set_orig (mkTransport (tMessage (theOrig p)) (Some tracker)) p in
  action ← handleIdleWork (theOrig p);
  let p := consumeAction action p in
  p ← removeIdleWorkReservations p action;
  match theAction action with
  | kNoAction => if requiresTag p then enqueueTagPipeline action p else mret ()
  | kSend =>
      let p := if theFrontMessage action then enqueueFrontTransport action p else p in
      p ← (if theBackMessage action then enqueueBackTransport action p else mret p);
      if requiresTag p then enqueueTagPipeline action p else doTransmitProcess p;; mret ()
  | _ => dbg_fail "Unsupported Action type for IdleWorkProcess"
  end.

(** Without work the process is queued before it gives its reservations back; the
    queue holds the process itself, which has given them back when it is next
    looked at. *)
Definition runWakeSnoopProcess p : M (Cache S P) () :=
  dbg_assert (match tTracker (theOrig p) with Some _ => true | None => false end) "tracker != nullptr";;
  action ← handleWakeSnoop (theOrig p);
  let p := consumeAction action p in
  p ← unreserveSnoopBuffer p;
  match theAction action with
  | kNoAction =>
      p ← unreserveFrontSideOut p;
      p ← unreserveBackSideOut_Snoop p;
      if requiresTag p then enqueueTagPipeline action p else mret ()
  | kSend =>
      p ← (if theFrontMessage action then mret (enqueueFrontTransport action p)
           else unreserveFrontSideOut p);
      p ← (if theBackMessage action then enqueueBackTransport action p
           else unreserveBackSideOut_Snoop p);
      if requiresTag p then enqueueTagPipeline action p else doTransmitProcess p;; mret ()
  | _ => dbg_fail "Unsupported Action type for IdleWorkProcess"
  end.

Definition run_process p : M (Cache S P) () :=
  match theType p with
  | eProcRequest | eProcPrefetch => runRequestProcess p
  | eProcSnoop => runSnoopProcess p
  | eProcBackRequest | eProcBackReply => runBackProcess p
  | eProcMAFWakeup => runWakeMafProcess p
  | eProcIProbe => runIProbeProcess p
  | eProcEviction => runEvictProcess p
  | eProcIdleWork => runIdleWorkProcess p
  | eProcWakeSnoop => runWakeSnoopProcess p
  | eProcNoMoreWork => dbg_fail "process type"
  end.

(** ** Scheduling

    Each loop of [scheduleNewProcesses] is a step that tests the loop's condition and
    starts one process.  A bank's pipeline takes one process per free server, so no
    more rounds than servers or waiting entries are needed. *)

Definition stepM (cond : M (Cache S P) bool) (start : M (Cache S P) ()) : M (Cache S P) bool :=
  b ← cond; if (b : bool) then start;; mret true else mret false.

Definition andM (a b : M (Cache S P) bool) : M (Cache S P) bool :=
  x ← a; if (x : bool) then b else mret false.

Definition back_full (c : BackChannel) w : bool := MQ.full 0 (BackSideOut w c).

(** [BankFrontSideIn_Snoop[i]] is empty or younger than the head of queue [q]. *)
Definition no_older_snoop (i : Z) (q : Queue) : M (Cache S P) bool :=
  s ← bank_queue FrontSnoop i;
  if MQ.empty s then mret true
  else ts ← lift (MQ.headTimestamp s); tq ← lift (MQ.headTimestamp q); mret (tq <? ts).

Definition schedule_process (i : Z) p : M (Cache S P) () := pipe_enqueue MAF_pipes i p 1.

Definition request_resources w : bool :=
  negb (back_full BSO_Request w) && negb (isFrontSideOutFull w) && negb (fullEvictBuffer w).

(** The entry that is woken, when there is one. *)
Definition wake_maf_step (i : Z) : M (Cache S P) bool :=
  stepM
    (andM (pipe_avail MAF_pipes i)
       (l ← list_at theWakeMAFList i;
        match l with
        | [] => mret false
        | (a, _) :: _ => gets (fun w => request_resources w && canStartRequest (impl w) a)
        end))
    (l ← list_at theWakeMAFList i;
     match l with
     | [] => dbg_fail "front of an empty list"
     | (a, tracker) :: rest =>
         put_list theWakeMAFList set_theWakeMAFList i rest;;
         maf ← gets theMaf;
         '(iter, maf) ← lift (MAF.getBlockedMafEntry a maf);
         modify (set_theMaf maf);;
         match iter with
         | None => mret ()
         | Some iter =>
             e ← lift (MAF.deref iter maf);
             let p := newProcess (MAF.transport e) (Some iter) tracker eProcMAFWakeup in
             p ← reserveFrontSideOut p;
             p ← reserveBackSideOut_Request p;
             p ← reserveEvictBuffer p;
             schedule_process i p;;
             x ← gets impl;
             x ← lift (addPendingRequest a x);
             modify (set_impl x)
         end
     end).

Definition iprobe_step (i : Z) : M (Cache S P) bool :=
  stepM
    (andM (pipe_avail MAF_pipes i)
       (l ← list_at theIProbeList i;
        match l with
        | [] => mret false
        | _ => gets (fun w => negb (back_full BSO_Request w) && negb (isFrontSideOutFull w))
        end))
    (l ← list_at theIProbeList i;
     match l with
     | [] => dbg_fail "front of an empty list"
     | iter :: rest =>
         put_list theIProbeList set_theIProbeList i rest;;
         maf ← gets theMaf;
         e ← lift (MAF.deref iter maf);
         let t := MAF.transport e in
         let p := newProcess t (Some iter) (tTracker t) eProcIProbe in
         p ← reserveFrontSideOut p;
         p ← reserveBackSideOut_Request p;
         schedule_process i p
     end).

Definition wake_snoop_step (i : Z) : M (Cache S P) bool :=
  stepM
    (andM (pipe_avail MAF_pipes i)
       (gets (fun w => hasWakingSnoops w && negb (isFrontSideOutFull w) && negb (back_full snoop_channel w))))
    (t ← getWakingSnoopTransport;
     p ← reserveFrontSideOut (newProcess t None None eProcWakeSnoop);
     p ← reserveBackSideOut_Snoop p;
     p ← reserveSnoopBuffer p;
     schedule_process i p).

Definition evict_step (i : Z) : M (Cache S P) bool :=
  stepM
    (andM (pipe_avail MAF_pipes i)
       (gets (fun w => evictableBlockExists (theScheduledEvicts w) w &&
          (uint32 (freeEvictBuffer w + theScheduledEvicts w) <=? thePorts cfg) &&
          negb (back_full evict_channel w))))
    (p ← reserveBackSideOut_Evict (newProcess noTransport None None eProcEviction);
     p ← reserveScheduledEvict p;
     schedule_process i p).

Definition dequeue_bank (c : InChannel) (i : Z) : M (Cache S P) Transport :=
  q ← bank_queue c i;
  '(t, q) ← lift (MQ.dequeue q);
  put_bank_queue c i q;;
  mret t.

(** A queue of the bank holds something and the resources are there. *)
Definition bank_waits (c : InChannel) (i : Z) (resources : Cache S P -> bool) : M (Cache S P) bool :=
  andM (pipe_avail MAF_pipes i)
    (q ← bank_queue c i;
     if MQ.empty q then mret false else gets resources).

Definition back_resources w : bool := negb (isFrontSideOutFull w) && negb (back_full snoop_channel w).

Definition back_reply_step (i : Z) : M (Cache S P) bool :=
  stepM (bank_waits BackReply i back_resources)
    (t ← dequeue_bank BackReply i;
     p ← reserveFrontSideOut (newProcess t None None eProcBackReply);
     p ← reserveBackSideOut_Snoop p;
     schedule_process i p).

Definition back_request_step (i : Z) : M (Cache S P) bool :=
  stepM (bank_waits BackRequest i (fun w => back_resources w && negb (fullSnoopBuffer w)))
    (t ← dequeue_bank BackRequest i;
     p ← reserveFrontSideOut (newProcess t None None eProcBackRequest);
     p ← reserveSnoopBuffer p;
     p ← reserveBackSideOut_Snoop p;
     schedule_process i p).

Definition request_step (i : Z) : M (Cache S P) bool :=
  stepM
    (andM (bank_waits FrontRequest i (fun w => request_resources w && negb (MAF.full (theMaf w))))
       (q ← bank_queue FrontRequest i;
        t ← lift (MQ.peek q);
        m ← deref_message t;
        andM (gets (fun w => canStartRequest (impl w) (theAddress (body m)))) (no_older_snoop i q)))
    (t ← dequeue_bank FrontRequest i;
     p ← reserveBackSideOut_Request (newProcess t None None eProcRequest);
     p ← reserveFrontSideOut p;
     p ← reserveEvictBuffer p;
     p ← reserveMAF p;
     schedule_process i p;;
     m ← deref_message t;
     x ← gets impl;
     x ← lift (addPendingRequest (theAddress (body m)) x);
     modify (set_impl x)).

Definition prefetch_step (i : Z) : M (Cache S P) bool :=
  stepM
    (andM (bank_waits FrontPrefetch i (fun w => negb (back_full BSO_Prefetch w) &&
             negb (isFrontSideOutFull w) && negb (MAF.full (theMaf w)) && negb (fullEvictBuffer w)))
       (q ← bank_queue FrontPrefetch i; no_older_snoop i q))
    (t ← dequeue_bank FrontPrefetch i;
     p ← reserveBackSideOut_Prefetch (newProcess t None None eProcPrefetch);
     p ← reserveFrontSideOut p;
     p ← reserveEvictBuffer p;
     p ← reserveMAF p;
     schedule_process i p).

Definition snoop_step (i : Z) : M (Cache S P) bool :=
  stepM
    (andM (bank_waits FrontSnoop i (fun w => negb (back_full snoop_channel w)))
       (q ← bank_queue FrontSnoop i;
        t ← lift (MQ.peek q);
        mret (snoopResourcesAvailable t)))
    (t ← dequeue_bank FrontSnoop i;
     p ← reserveBackSideOut_Snoop (newProcess t None None eProcSnoop);
     p ← reserveSnoopResources t p;
     schedule_process i p).

Definition idle_step (i : Z) : M (Cache S P) bool :=
  stepM (andM (pipe_avail MAF_pipes i) (gets idleWorkAvailable))
    ('(msg, p) ← getIdleWorkMessage (newProcess noTransport None None eProcIdleWork);
     schedule_process i (set_orig (mkTransport msg (tTracker (theOrig p))) p)).

(** Rounds that a loop on bank [i] may need: one per entry that waits, one per
    server. *)
Definition rounds (i : Z) : M (Cache S P) nat :=
  pipe ← pipe_at MAF_pipes i;
  l ← list_at theWakeMAFList i;
  mret (Datatypes.S (length l + length (Fifo.theServerReadyTimes pipe))).

Definition bank_loop (step : Z -> M (Cache S P) bool) (i : Z) : M (Cache S P) () :=
  n ← rounds i; repeat_while n (step i).

Definition schedule_bank (i : Z) : M (Cache S P) () :=
  bank_loop wake_maf_step i;;
  bank_loop iprobe_step i;;
  bank_loop wake_snoop_step i;;
  bank_loop evict_step i;;
  bank_loop back_reply_step i;;
  bank_loop back_request_step i;;
  bank_loop request_step i;;
  bank_loop prefetch_step i;;
  bank_loop snoop_step i;;
  bank_loop idle_step i.

(** The indices from [last] on, around. *)
Definition around (last n : Z) : list Z := (fun k => (last + k) mod n) <$> below n.

Definition scheduleNewProcesses : M (Cache S P) () :=
  last ← gets theLastScheduledBank;
  for_each (around last (theBanks cfg)) schedule_bank;;
  modify (set_theLastScheduledBank ((last + theBanks cfg - 1) mod theBanks cfg)).

(** ** New messages

    One round over the ports; whether a message was moved. *)
Fixpoint new_round (c : InChannel) (ports : list Z) (sent : bool) : M (Cache S P) bool :=
  match ports with
  | [] => mret sent
  | i :: ports =>
      q ← port_queue c i;
      if MQ.empty q then new_round c ports sent
      else
        t ← lift (MQ.peek q);
        m ← deref_message t;
        let bank := getBank (theAddress (body m)) in
        b ← bank_queue c bank;
        if MQ.full 0 b then new_round c ports sent
        else
          '(t, q) ← lift (MQ.dequeue q);
          put_port_queue c i q;;
          now ← gets cycleCount;
          b ← lift (MQ.enqueue now t b);
          put_bank_queue c bank b;;
          new_round c ports true
  end.

Definition waiting_messages (c : InChannel) w : nat :=
  sum_list_with (fun q => length (MQ.theQueue q)) (SideIn w c).

Definition doNewRequests (c : InChannel) (numMsgQueues : Z) : M (Cache S P) () :=
  last ← gets (fun w => lastQueue w c);
  n ← gets (waiting_messages c);
  repeat_while (Datatypes.S n) (new_round c (around last numMsgQueues) false);;
  modify (fun w => set_lastQueue (with_channel c ((last + numMsgQueues - 1) mod numMsgQueues) (lastQueue w)) w).

(** ** The pipelines *)

Definition drain_maf_step (i : Z) : M (Cache S P) bool :=
  stepM (andM (pipe_ready MAF_pipes i) (pipe_avail Tag_pipes i))
    (p ← pipe_dequeue MAF_pipes i; run_process p).

Definition drain_tag_step (i : Z) : M (Cache S P) bool :=
  r ← pipe_ready Tag_pipes i;
  if negb r then mret false
  else
    pipe ← pipe_at Tag_pipes i;
    p ← lift (Fifo.peek pipe);
    if negb (processData p =? 0) then
      avail ← pipe_avail Data_pipes i;
      if (avail : bool) then
        p ← (if theTransmitAfterTag p then doTransmitProcess p else mret p);
        pipe_dequeue Tag_pipes i;;
        pipe_enqueue Data_pipes i p 1;;
        mret true
      else
        put_pipe Tag_pipes i (Fifo.stall pipe);;
        mret false
    else
      p ← pipe_dequeue Tag_pipes i;
      doTransmitProcess p;;
      mret true.

Definition drain_data_step (i : Z) : M (Cache S P) bool :=
  stepM (pipe_ready Data_pipes i) (p ← pipe_dequeue Data_pipes i; doTransmitProcess p;; mret ()).

Definition pipe_loop (s : PipelineSet) (step : Z -> M (Cache S P) bool) (i : Z) : M (Cache S P) () :=
  pipe ← pipe_at s i;
  repeat_while (Datatypes.S (length (Fifo.theQueue pipe))) (step i).

Definition advancePipelines : M (Cache S P) () :=
  last ← gets theLastTagPipeline;
  modify (set_theLastTagPipeline ((last + 1) mod theBanks cfg));;
  for_each (around last (theBanks cfg)) (pipe_loop Tag_pipes drain_tag_step);;
  last ← gets theLastDataPipeline;
  modify (set_theLastDataPipeline ((last + 1) mod theBanks cfg));;
  for_each (around last (theBanks cfg)) (pipe_loop Data_pipes drain_data_step).

Definition processMessages : M (Cache S P) () :=
  doNewRequests BackReply 1;;
  doNewRequests BackRequest 1;;
  doNewRequests FrontSnoop (theCores cfg);;
  doNewRequests FrontRequest (theCores cfg);;
  doNewRequests FrontPrefetch (theCores cfg);;
  scheduleNewProcesses;;
  for_each (below (theBanks cfg)) (pipe_loop MAF_pipes drain_maf_step);;
  advancePipelines.

(** ** Construction *)

Definition newPipelines (issue latency : Z) : outcome (list Pipeline) :=
  p ← Fifo.newFifo (thePorts cfg) issue latency;
  Done (repeat p (Z.to_nat (theBanks cfg))).

Definition newController (anImpl : P) : outcome (Cache S P) :=
  maf ← MAF.newFile (MAFSize cfg) (MAFTargetsPerRequest cfg);
  maf_pipes ← newPipelines 1 0;
  tag_pipes ← newPipelines (TagIssueLatency cfg) (TagLatency cfg);
  data_pipes ← newPipelines (DataIssueLatency cfg) (DataLatency cfg);
  let banks := Z.to_nat (theBanks cfg) in
  let cores := Z.to_nat (theCores cfg) in
  let queue := MQ.newQueue (QueueSizes cfg) in
  Done (mkCache ∅ 0 0 0 maf maf_pipes tag_pipes data_pipes 0 0 (repeat [] banks) (repeat [] banks)
    (fun c => match c with
              | BackRequest | BackReply => [queue]
              | _ => repeat (MQ.newQueue (PreQueueSizes cfg)) cores
              end)
    (fun _ => repeat queue banks)
    (repeat queue cores) (repeat queue cores)
    (fun c => match c with
              | BSO_Reply | BSO_Snoop => MQ.newQueue (uint32 (QueueSizes cfg + 1))
              | BSO_Request | BSO_Prefetch => queue
              end)
    (fun _ => 0) 0 0 0
    (SB.newSnoopBuffer (SnoopBufferSize cfg)) (EB.newEvictBuffer (EvictBufferSize cfg)) anImpl).

End controller.
