(* ===== verification/InclusiveMESI.v ===== *)
(** * The protocol InclusiveMESI of the timing caches

    components/Cache/InclusiveMESI.cpp and .hpp, as an instance of [Policy], over the
    standard tag array.  A lookup is a handle into the array, the evict buffer and the
    snoop buffer are those of the controller.  Of a transaction tracker the fill level
    is kept, which an assertion reads; what else the protocol records in it, and the
    counters, are statistics, but a null tracker that the code uses is undefined and
    ends the run like a failing assertion. *)

From stdpp Require Import base gmap list strings fin_maps.
From Stdlib Require Import ZArith Lia.
From S2P Require Import Prelude Messages TimingQueues CacheBuffers MissAddressFile CacheController TagArray.

Import BlockState.

Local Open Scope Z_scope.

(** ** Configuration and state *)

Record MesiConfig : Type := mkMesi {
  theCacheLevel : tFillLevel;
  thePeerLevel : tFillLevel;
  theNAckAlways : bool;
  theSnoopLRU : bool;
  theEvictAcksRequired : bool;
  the2LevelPrivate : bool;
  theWritableEvictsHaveData : bool;
  mesiBlockSize : Z;
}.

(** The constructor, with the one of BaseCacheControllerImpl. *)
Definition newMesi (level : tFillLevel) (aNAckAlways aSnoopLRU anEvictAcksRequired a2LevelPrivate : bool)
    (aWritableEvictsHaveData : bool) (aBlockSize : Z) : outcome MesiConfig :=
  let config peer :=
    mkMesi level peer aNAckAlways aSnoopLRU (anEvictAcksRequired && negb a2LevelPrivate) a2LevelPrivate
      aWritableEvictsHaveData aBlockSize in
  match level with
  | eL1 | eL1I => Done (config ePeerL1Cache)
  | eL2 => Done (config ePeerL2)
  | _ => Assert "No Peer Level available for selected cache level"
  end.

Definition theEvictThreshold : Z := 4.

Record MesiState : Type := mkState {
  theArray : Arr.StdArray;
  thePendingEvicts : Z;
  theRequestTracker : RequestTracker;
  fill_levels : gmap Z tFillLevel;
}.

Definition newMesiState (anArray : Arr.StdArray) : MesiState := mkState anArray 0 ∅ ∅.

Definition set_array (a : Arr.StdArray) (i : MesiState) : MesiState :=
  mkState a (thePendingEvicts i) (theRequestTracker i) (fill_levels i).
Definition set_pendingEvicts (n : Z) (i : MesiState) : MesiState :=
  mkState (theArray i) n (theRequestTracker i) (fill_levels i).
Definition set_requests (r : RequestTracker) (i : MesiState) : MesiState :=
  mkState (theArray i) (thePendingEvicts i) r (fill_levels i).
Definition set_fill_levels (l : gmap Z tFillLevel) (i : MesiState) : MesiState :=
  mkState (theArray i) (thePendingEvicts i) (theRequestTracker i) l.

#[export] Instance fill_level_eq_dec : EqDecision tFillLevel.
Proof. solve_decision. Defined.
Definition fillLevel_eqb (a b : tFillLevel) : bool := bool_decide (a = b).

Definition int32 (z : Z) : Z := (z + 2 ^ 31) mod 2 ^ 32 - 2 ^ 31.

(** ** Actions *)

Definition act_kind (k : enumAction) (a : Action) : Action :=
  mkAction k (theOutputTracker a) (theFrontTransport a) (theBackTransport a) (theFrontMessage a) (theBackMessage a)
    (theFrontToDCache a) (theFrontToICache a) (theRequiresData a) (theRequiresTag a) (theWakeSnoops a)
    (theWakeEvicts a) (theWakeRegion a) (theRememberSnoopTransport a).
Definition act_data (n : Z) (a : Action) : Action :=
  mkAction (theAction a) (theOutputTracker a) (theFrontTransport a) (theBackTransport a) (theFrontMessage a)
    (theBackMessage a) (theFrontToDCache a) (theFrontToICache a) n (theRequiresTag a) (theWakeSnoops a)
    (theWakeEvicts a) (theWakeRegion a) (theRememberSnoopTransport a).
(** [theFrontMessage = true; theFrontTransport = t] *)
Definition act_front (t : Transport) (a : Action) : Action :=
  mkAction (theAction a) (theOutputTracker a) t (theBackTransport a) true (theBackMessage a)
    (theFrontToDCache a) (theFrontToICache a) (theRequiresData a) (theRequiresTag a) (theWakeSnoops a)
    (theWakeEvicts a) (theWakeRegion a) (theRememberSnoopTransport a).
Definition act_no_front (a : Action) : Action :=
  mkAction (theAction a) (theOutputTracker a) (theFrontTransport a) (theBackTransport a) false (theBackMessage a)
    (theFrontToDCache a) (theFrontToICache a) (theRequiresData a) (theRequiresTag a) (theWakeSnoops a)
    (theWakeEvicts a) (theWakeRegion a) (theRememberSnoopTransport a).
(** [theBackMessage = true; theBackTransport = t] *)
Definition act_back (t : Transport) (a : Action) : Action :=
  mkAction (theAction a) (theOutputTracker a) (theFrontTransport a) t (theFrontMessage a) true
    (theFrontToDCache a) (theFrontToICache a) (theRequiresData a) (theRequiresTag a) (theWakeSnoops a)
    (theWakeEvicts a) (theWakeRegion a) (theRememberSnoopTransport a).
Definition act_caches (d i : bool) (a : Action) : Action :=
  mkAction (theAction a) (theOutputTracker a) (theFrontTransport a) (theBackTransport a) (theFrontMessage a)
    (theBackMessage a) d i (theRequiresData a) (theRequiresTag a) (theWakeSnoops a)
    (theWakeEvicts a) (theWakeRegion a) (theRememberSnoopTransport a).
Definition act_wake (snoops evicts : bool) (a : Action) : Action :=
  mkAction (theAction a) (theOutputTracker a) (theFrontTransport a) (theBackTransport a) (theFrontMessage a)
    (theBackMessage a) (theFrontToDCache a) (theFrontToICache a) (theRequiresData a) (theRequiresTag a) snoops
    evicts (theWakeRegion a) (theRememberSnoopTransport a).
Definition act_forget (a : Action) : Action :=
  mkAction (theAction a) (theOutputTracker a) (theFrontTransport a) (theBackTransport a) (theFrontMessage a)
    (theBackMessage a) (theFrontToDCache a) (theFrontToICache a) (theRequiresData a) (theRequiresTag a)
    (theWakeSnoops a) (theWakeEvicts a) (theWakeRegion a) false.
Definition act_tracker (t : option Z) (a : Action) : Action :=
  mkAction (theAction a) t (theFrontTransport a) (theBackTransport a) (theFrontMessage a)
    (theBackMessage a) (theFrontToDCache a) (theFrontToICache a) (theRequiresData a) (theRequiresTag a)
    (theWakeSnoops a) (theWakeEvicts a) (theWakeRegion a) (theRememberSnoopTransport a).

(** [transport.set(MemoryMessageTag, message)] *)
Definition set_message (id : Z) (t : Transport) : Transport := mkTransport (Some id) (tTracker t).

Section mesi.
Context `{IndexOrder} (mc : MesiConfig).
(** What the other components have recorded in a tracker by the time its transport is
    handled here, and the level that created the tracker. *)
Context (others_fill : Transport -> option tFillLevel) (originatorLevel : Z -> option tFillLevel).

Local Abbreviation W := (Cache State MesiState).
Implicit Types (w : W) (t : Transport) (lk : Arr.LookupResult).

Definition is_level (l : tFillLevel) : bool := fillLevel_eqb (theCacheLevel mc) l.

(** ** Steps *)

Definition array_get {A} (f : Arr.StdArray -> outcome A) : M W A :=
  i ← gets impl; lift (f (theArray i)).
Definition array_do (f : Arr.StdArray -> outcome Arr.StdArray) : M W () :=
  i ← gets impl; a ← lift (f (theArray i)); modify (set_impl (set_array a i)).
Definition block_state lk : M W State := array_get (Arr.lk_state lk).
Definition setState lk (s : State) : M W () := array_do (Arr.setState lk s).
Definition setProtected lk (b : bool) : M W () := array_do (Arr.lk_setProtected lk b).
Definition setPrefetched lk (b : bool) : M W () := array_do (Arr.lk_setPrefetched lk b).
Definition recordAccess lk : M W () := array_do (Arr.recordAccess lk).
Definition invalidateBlock lk : M W () := array_do (Arr.invalidateBlock lk).

Definition block_of_address (a : Z) : M W Z := i ← gets impl; mret (Arr.blockAddress (theArray i) a).

Definition startRequest (a : Z) : M W () :=
  modify (fun w => set_impl (set_requests (startRequest (Arr.getSet (theArray (impl w)) a) (theRequestTracker (impl w)))
                               (impl w)) w).
Definition endRequest (a : Z) : M W () :=
  i ← gets impl;
  r ← lift (endRequest (Arr.getSet (theArray i) a) (theRequestTracker i));
  modify (set_impl (set_requests r i)).
Definition add_pending (d : Z) : M W () :=
  modify (fun w => set_impl (set_pendingEvicts (thePendingEvicts (impl w) + d) (impl w)) w).

(** A message field, and what a tracker records. *)
Definition set_msg_type t (x : MemoryMessageType) : M W () := update_message t (Messages.set_type x).
Definition use_tracker (tracker : option Z) : M W () :=
  match tracker with Some _ => mret () | None => dbg_fail "null tracker" end.
Definition fillLevel t : M W (option tFillLevel) :=
  match tTracker t with
  | None => dbg_fail "null tracker"
  | Some k => l ← gets (fun w => fill_levels (impl w) !! k);
              mret (match l with Some l => Some l | None => others_fill t end)
  end.
Definition setFillLevel (tracker : option Z) (l : tFillLevel) : M W () :=
  match tracker with
  | None => dbg_fail "null tracker"
  | Some k => modify (fun w => set_impl (set_fill_levels (<[k := l]> (fill_levels (impl w))) (impl w)) w)
  end.
(** [if (!tracker->fillLevel()) tracker->setFillLevel(l)] *)
Definition default_fill t (l : tFillLevel) : M W () :=
  f ← fillLevel t;
  match f with Some _ => mret () | None => setFillLevel (tTracker t) l end.

Definition evict_do (f : EB.EvictBuffer State -> EB.EvictBuffer State) : M W () :=
  modify (fun w => set_theEvictBuffer (f (theEvictBuffer w)) w).
Definition find_evictee (a : Z) : M W (option (EB.EvictEntry State)) := gets (fun w => EB.find a (theEvictBuffer w)).
(** Use of an iterator into the evict buffer. *)
Definition evictee_at (e : option (EB.EvictEntry State)) : M W (EB.EvictEntry State) :=
  match e with Some e => mret e | None => dbg_fail "iterator past the end" end.
Definition remove_evictee (e : EB.EvictEntry State) : M W () := evict_do (EB.remove (EB.theBlockAddress e)).
(** [evictee->state() = s; evictee->type() = t] *)
Definition set_evictee (e : EB.EvictEntry State) (s : State) (x : MemoryMessageType) : M W () :=
  evict_do (EB.alter (EB.theBlockAddress e) (fun e => EB.set_evict_type x (EB.set_evict_state (assign (EB.theState e) s) e))).

Definition snoops_do (f : SB.SnoopBuffer -> SB.SnoopBuffer) : M W () :=
  modify (fun w => set_theSnoopBuffer (f (theSnoopBuffer w)) w).
(** [theSnoopBuffer.allocEntry(transport)] and [addWaitingEntry(transport)] *)
Definition snoop_alloc (add : Transport -> Z -> SB.SnoopBuffer -> outcome (Z * SB.SnoopBuffer)) t : M W Z :=
  m ← deref_message t;
  b ← gets theSnoopBuffer;
  '(iter, b) ← lift (add t (theAddress (body m)) b);
  modify (set_theSnoopBuffer b);;
  mret iter.
Definition set_outstanding (iter : Z) (d i : bool) : M W () :=
  snoops_do (SB.alter iter (fun e => SB.set_d_outstanding d (SB.set_i_outstanding i e))).

Definition wait_for_snoop t : M W Action :=
  snoop_alloc SB.addWaitingEntry t;; mret (newAction kNoAction (tTracker t) 0).

(** A new request message. *)
Definition new_request (x : MemoryMessageType) (a pc size core : Z) : M W Z :=
  new_message (fresh_message (mkMessage x a pc size core true eUnknown false)).

(** ** Evictions into the evict buffer *)

Definition evict_type_of (s : State) : MemoryMessageType :=
  if eqb s Modified then EvictDirty else if eqb s Exclusive then EvictWritable else EvictClean.

Definition evictBlock (victim : Arr.LookupResult) : M W () :=
  s ← block_state victim;
  if eqb s Invalid then mret ()
  else evict_do (EB.allocEntry (Arr.theBlockAddress victim) (evict_type_of s) s (is_level eL1I)).

(** [theArray->allocate], with the changed lookup and the victim. *)
Definition array_allocate lk (a : Z) : M W (Arr.LookupResult * Arr.LookupResult) :=
  i ← gets impl;
  '(victim, lk, arr) ← lift (Arr.allocate lk a (theArray i));
  modify (set_impl (set_array arr i));;
  mret (victim, lk).

Definition evict_victim (victim : Arr.LookupResult) : M W () :=
  s ← block_state victim;
  if eqb s Invalid then mret () else evictBlock victim.

(** The lookup is changed in place. *)
Definition allocateBlock lk (a : Z) : M W Arr.LookupResult :=
  can ← array_get (Arr.canAllocate lk);
  dbg_assert can "can NOT allocate block";;
  '(victim, lk) ← array_allocate lk a;
  evict_victim victim;;
  mret lk.

(** ** Requests *)

(** What the cases of [doRequest] leave behind. *)
Record Progress : Type := mkProgress {
  pr_action : Action;
  pr_hit : bool;
  pr_miss : bool;
  pr_upgrade : bool;
}.

(** A block that is being evicted comes back; while the eviction is pending the
    request waits. *)
Definition fetch_evictee lk (blk : Z) : M W (option Arr.LookupResult) :=
  e ← find_evictee blk;
  match e with
  | None => mret (Some lk)
  | Some e =>
      if EB.thePending e then mret None
      else
        can ← array_get (Arr.canAllocate lk);
        dbg_assert can "theArray->canAllocate(lookup, getBlockAddress(msg->address()))";;
        '(victim, lk) ← array_allocate lk blk;
        remove_evictee e;;
        setState lk (EB.theState e);;
        evict_victim victim;;
        mret (Some lk)
  end.

(** [action.theBackTransport = transport] with a new message. *)
Definition ask_back t (x : MemoryMessageType) (a pc size core : Z) (act : Action) : M W Action :=
  id ← new_request x a pc size core;
  mret (act_back (set_message id t) act).

Definition request_NonAllocatingStore t (m : MemoryMessage) (blk : Z) lk (act : Action) (hit : bool) : M W Progress :=
  s ← block_state lk;
  if negb (eqb s Modified) && negb (eqb s Exclusive) then
    let act := act_data 0 (act_kind kSend act) in
    if is_level eL1 then
      act ← ask_back t NonAllocatingStoreReq blk (theAssociatedPC m) (mesiBlockSize mc) (theCoreIdx m) act;
      mret (mkProgress (act_kind kInsertMAF_WaitResponse act) hit true false)
    else mret (mkProgress act hit true false)
  else
    recordAccess lk;;
    (if eqb s Modified then mret () else setState lk Modified);;
    set_msg_type t NonAllocatingStoreReply;;
    mret (mkProgress act true false false).

Definition request_Fetch t (m : MemoryMessage) (blk : Z) lk (act : Action) (hit : bool) : M W Progress :=
  s ← block_state lk;
  if eqb s Exclusive then
    id ← new_request Probe blk (theAssociatedPC m) 0 (theCoreIdx m);
    setProtected lk true;;
    mret (mkProgress (act_front (set_message id t) (act_data 0 (act_kind kInsertMAF_WaitProbe act))) false false false)
  else if eqb s Invalid then
    act ← (if is_level eL1I then ask_back t FetchReq blk (theAssociatedPC m) (mesiBlockSize mc) (theCoreIdx m) act
           else mret act);
    mret (mkProgress (act_kind kInsertMAF_WaitResponse act) hit true false)
  else
    recordAccess lk;;
    set_msg_type t FetchReply;;
    mret (mkProgress (act_caches false true act) true false false).

(** A hit on a block that a prefetcher of the second level asks for. *)
Definition prefetcher_hit t lk (hit : bool) : M W () :=
  s ← block_state lk;
  if prefetched s && hit then
    match tTracker t with
    | None => dbg_fail "null tracker"
    | Some k =>
        if bool_decide (originatorLevel k = Some eL2Prefetcher) then
          setFillLevel (Some k) eLocalMem;; setPrefetched lk false
        else mret ()
    end
  else mret ().

Definition request_Load t (m : MemoryMessage) (blk : Z) lk (act : Action) (hit : bool) : M W Progress :=
  s ← block_state lk;
  pr ← (if eqb s Invalid then
          act ← ask_back t ReadReq blk (theAssociatedPC m) (mesiBlockSize mc) (theCoreIdx m) act;
          mret (mkProgress (act_kind kInsertMAF_WaitResponse act) hit true false)
        else
          recordAccess lk;;
          set_msg_type t LoadReply;;
          mret (mkProgress act true false false));
  prefetcher_hit t lk (pr_hit pr);;
  mret pr.

Definition request_Read t lk (act : Action) (hit : bool) : M W Progress :=
  s ← block_state lk;
  pr ← (if eqb s Invalid then mret (mkProgress (act_kind kInsertMAF_WaitResponse act) hit true false)
        else if eqb s Modified then
          setState lk Exclusive;; recordAccess lk;; set_msg_type t MissReplyDirty;;
          mret (mkProgress act true false false)
        else if eqb s Exclusive then
          recordAccess lk;; set_msg_type t MissReplyWritable;; mret (mkProgress act true false false)
        else
          recordAccess lk;; set_msg_type t MissReply;; mret (mkProgress act true false false));
  prefetcher_hit t lk (pr_hit pr);;
  mret pr.

(** The block stays while the upgrade is under way. *)
Definition protect_for_upgrade lk : M W () :=
  setProtected lk true;;
  s ← block_state lk;
  if prefetched s then setPrefetched lk false else mret ().

Definition request_Write t (blk : Z) lk (act : Action) (hit : bool) : M W Progress :=
  s ← block_state lk;
  if eqb s Modified then
    setState lk Exclusive;; set_msg_type t MissReplyDirty;; recordAccess lk;; mret (mkProgress act true false false)
  else if eqb s Exclusive then
    set_msg_type t MissReplyWritable;; recordAccess lk;; mret (mkProgress act true false false)
  else if eqb s Invalid then mret (mkProgress (act_kind kInsertMAF_WaitResponse act) hit true false)
  else
    act ← ask_back t UpgradeReq blk 0 0 0 (act_kind kInsertMAF_WaitResponse act);
    protect_for_upgrade lk;;
    mret (mkProgress act false true true).

Definition request_AtomicPreload t (m : MemoryMessage) (blk : Z) lk (act : Action) (hit : bool) : M W Progress :=
  s ← block_state lk;
  pr ← (if eqb s Modified || eqb s Exclusive then
          set_msg_type t AtomicPreloadReply;; recordAccess lk;;
          mret (mkProgress (act_front t act) true false false)
        else if eqb s Shared then
          recordAccess lk;;
          setProtected lk true;;
          request ← new_request UpgradeReq blk (theAssociatedPC m) (mesiBlockSize mc) (theCoreIdx m);
          reply ← new_request AtomicPreloadReply (theAddress m) (theAssociatedPC m) (theReqSize m) (theCoreIdx m);
          mret (mkProgress (act_back (set_message request t)
                  (act_front (set_message reply t) (act_kind kReplyAndInsertMAF_WaitResponse act))) true false true)
        else
          act ← ask_back t WriteReq blk (theAssociatedPC m) (mesiBlockSize mc) (theCoreIdx m)
                  (act_kind kInsertMAF_WaitResponse act);
          mret (mkProgress act hit true false));
  s ← block_state lk;
  (if pr_hit pr && prefetched s then setPrefetched lk false else mret ());;
  mret pr.

Definition reply_type (x : MemoryMessageType) : outcome MemoryMessageType :=
  match x with
  | RMWReq => Done RMWReply
  | CmpxReq => Done CmpxReply
  | StoreReq => Done StoreReply
  | StorePrefetchReq => Done StorePrefetchReply
  | _ => Assert "?!?!? What happened?"
  end.

Definition request_Store t (m : MemoryMessage) (blk : Z) lk (act : Action) (hit : bool) : M W Progress :=
  x ← lift (reply_type (Messages.theType m));
  s ← block_state lk;
  if eqb s Modified then
    set_msg_type t x;; recordAccess lk;; mret (mkProgress act true false false)
  else if eqb s Exclusive then
    setState lk Modified;; set_msg_type t x;; recordAccess lk;; mret (mkProgress act true false false)
  else if eqb s Invalid then
    act ← ask_back t WriteReq blk (theAssociatedPC m) (mesiBlockSize mc) (theCoreIdx m)
            (act_kind kInsertMAF_WaitResponse act);
    mret (mkProgress act hit true false)
  else
    act ← ask_back t UpgradeReq blk (theAssociatedPC m) 0 (theCoreIdx m) (act_kind kInsertMAF_WaitResponse act);
    protect_for_upgrade lk;;
    mret (mkProgress act false true true).

Definition request_Upgrade t lk (act : Action) (hit : bool) : M W Progress :=
  s ← block_state lk;
  if eqb s Shared then
    protect_for_upgrade lk;;
    mret (mkProgress (act_kind kInsertMAF_WaitResponse act) false true true)
  else if eqb s Exclusive then
    set_msg_type t UpgradeReply;; recordAccess lk;; mret (mkProgress act true false true)
  else dbg_fail "cache received Upgrade request".

Definition request_PrefetchReadNoAlloc t lk (act : Action) (hit : bool) : M W Progress :=
  let act := act_data 0 act in
  s ← block_state lk;
  if eqb s Invalid then mret (mkProgress (act_kind kSend act) hit true false)
  else set_msg_type t PrefetchReadRedundant;; mret (mkProgress act hit false false).

Definition request_switch t (m : MemoryMessage) (blk : Z) lk (act : Action) (hit : bool) : M W Progress :=
  match Messages.theType m with
  | NonAllocatingStoreReq => request_NonAllocatingStore t m blk lk act hit
  | FetchReq => request_Fetch t m blk lk act hit
  | LoadReq => request_Load t m blk lk act hit
  | ReadReq => request_Read t lk act hit
  | WriteReq => request_Write t blk lk act hit
  | AtomicPreloadReq => request_AtomicPreload t m blk lk act hit
  | RMWReq | CmpxReq | StoreReq | StorePrefetchReq => request_Store t m blk lk act hit
  | UpgradeReq => request_Upgrade t lk act hit
  | PrefetchReadNoAllocReq => request_PrefetchReadNoAlloc t lk act hit
  | _ => dbg_fail "Got invalid message"
  end.

(** The part of [doRequest] after the switch. *)
Definition finish_request t lk (pr : Progress) : M W Action :=
  s ← block_state lk;
  (if prefetched s && pr_hit pr then setPrefetched lk false else mret ());;
  (if pr_hit pr then match tTracker t with Some _ => default_fill t (theCacheLevel mc) | None => mret () end
   else mret ());;
  (if pr_upgrade pr then use_tracker (tTracker t) else mret ());;
  m ← deref_message t;
  let a := pr_action pr in
  a ← match theAction a with
      | kReplyAndInsertMAF_WaitResponse => startRequest (theAddress (body m));; mret (act_data 0 a)
      | kInsertMAF_WaitResponse =>
          startRequest (theAddress (body m));;
          mret (if theBackMessage a then act_data 0 a else act_back t (act_data 0 a))
      | kReplyAndRemoveMAF => mret (act_front t a)
      | kSend => mret (act_data 0 (act_back t a))
      | kInsertMAF_WaitProbe => startRequest (theAddress (body m));; mret a
      | _ => mret a
      end;
  (if pr_miss pr then use_tracker (tTracker t) else mret ());;
  mret a.

Definition has_snoops (blk : Z) w : bool :=
  match SB.getActiveEntry blk (theSnoopBuffer w) with Some _ => true | None => SB.hasEntry blk (theSnoopBuffer w) end.

Definition mesi_doRequest t (has_maf_entry : bool) (waking_tracker : option Z) : M W (bool * bool * Action) :=
  m ← deref_message t;
  blk ← block_of_address (theAddress (body m));
  lk ← array_get (fun arr => Arr.lookup arr blk);
  if has_maf_entry then mret (false, false, newAction kInsertMAF_WaitAddress (tTracker t) 0)
  else
    s ← block_state lk;
    r ← (if eqb s Invalid then fetch_evictee lk blk else mret (Some lk));
    match r with
    | None => mret (false, false, newAction kInsertMAF_WaitEvict (tTracker t) 0)
    | Some lk =>
        s ← block_state lk;
        let hit := negb (eqb s Invalid) in
        snooped ← gets (has_snoops blk);
        if (snooped : bool) then mret (false, false, newAction kInsertMAF_WaitSnoop (tTracker t) 0)
        else
          (if bool_decide (Messages.theType (body m) = UpgradeReq) && eqb s Invalid then set_msg_type t WriteReq
           else mret ());;
          m ← deref_message t;
          pr ← request_switch t (body m) blk lk (newAction kReplyAndRemoveMAF (tTracker t) 1) hit;
          a ← finish_request t lk pr;
          mret (negb (pr_miss pr), hit && prefetched s, a)
    end.

(** ** Messages from the back side

    What a message from the back side finds: its lookup, the entry of the evict buffer
    when the array has no valid block, the state of either, and the message that waits
    in the miss address file under the address of this one. *)
Record Found : Type := mkFound {
  fd_result : Arr.LookupResult;
  fd_evictee : option (EB.EvictEntry State);
  fd_state : State;
  fd_miss : Transport;
}.
Definition from_eb (fd : Found) : bool := match fd_evictee fd with Some _ => true | None => false end.
Definition waiting_maf (fd : Found) : bool := match tMessage (fd_miss fd) with Some _ => true | None => false end.

Definition look_up (m : MemoryMessage) : M W Found :=
  lk ← array_get (fun arr => Arr.lookup arr (theAddress m));
  maf ← gets theMaf;
  let miss := MAF.getWaitingMAFEntry (theAddress m) maf in
  s ← block_state lk;
  blk ← block_of_address (theAddress m);
  if eqb s Invalid then
    e ← find_evictee blk;
    mret (mkFound lk e (match e with Some e => EB.theState e | None => s end) miss)
  else mret (mkFound lk None s miss).

(** The type of the message that waits. *)
Definition miss_type (fd : Found) : M W MemoryMessageType :=
  m ← deref_message (fd_miss fd); mret (Messages.theType (body m)).

(** [Action act(kSend, tracker, data)] with the message of the transport to the back
    side, which gets the type [x]. *)
Definition answer t (x : MemoryMessageType) (data : Z) : M W Action :=
  set_msg_type t x;; mret (act_back t (newAction kSend (tTracker t) data)).
Definition no_action t : M W Action := mret (newAction kNoAction (tTracker t) 0).

(** An entry of the snoop buffer, and the message to the front side that it waits for. *)
Definition send_snoop t (m : MemoryMessage) (x : MemoryMessageType) (d i : bool) : M W Action :=
  iter ← snoop_alloc SB.allocEntry t;
  set_outstanding iter d i;;
  id ← new_request x (theAddress m) (theAssociatedPC m) 0 (theCoreIdx m);
  mret (act_front (set_message id t) (newAction kSend (tTracker t) 0)).

Definition back_Fwd t (m : MemoryMessage) (fd : Found) : M W (option Action) :=
  let s := fd_state fd in
  if eqb s Invalid then a ← answer t FwdNAck 0; mret (Some a)
  else if eqb s Shared then
    a ← answer t FwdReply 1;
    setFillLevel (tTracker t) (thePeerLevel mc);;
    mret (Some a)
  else if eqb s Exclusive then
    pending ← gets (fun w => SB.hasEntry (theAddress m) (theSnoopBuffer w));
    a ← (if (pending : bool) then wait_for_snoop t else send_snoop t m Downgrade true false);
    mret (Some a)
  else if eqb s Modified then
    (match fd_evictee fd with
     | Some e => set_evictee e Shared EvictClean
     | None => setState (fd_result fd) Shared
     end);;
    a ← answer t FwdReplyOwned 1;
    setFillLevel (tTracker t) (thePeerLevel mc);;
    mret (Some a)
  else mret None.

(** An upgrade that waits becomes a write, and its block may be evicted. *)
Definition demote_upgrade (fd : Found) : M W () :=
  set_msg_type (fd_miss fd) WriteReq;; setProtected (fd_result fd) false.
Definition demote_waiting_upgrade (fd : Found) : M W () :=
  if waiting_maf fd then
    x ← miss_type fd;
    if bool_decide (x = UpgradeReq) then demote_upgrade fd else mret ()
  else mret ().

(** An instruction cache gives its block up without asking the front side. *)
Definition drop_block (fd : Found) : M W () :=
  match fd_evictee fd with
  | None => setState (fd_result fd) Invalid;; invalidateBlock (fd_result fd)
  | Some e => if EB.thePending e then mret () else remove_evictee e
  end.

Definition is_pending (fd : Found) : bool := match fd_evictee fd with Some e => EB.thePending e | None => false end.

Definition back_WriteFwd t (m : MemoryMessage) (fd : Found) : M W Action :=
  let s := fd_state fd in
  if eqb s Invalid then
    if theNAckAlways mc then answer t FwdNAck 0 else no_action t
  else
    demote_waiting_upgrade fd;;
    if is_level eL1I then
      setFillLevel (tTracker t) (theCacheLevel mc);;
      drop_block fd;;
      answer t FwdReplyWritable 1
    else if is_pending fd then
      setFillLevel (tTracker t) (theCacheLevel mc);;
      answer t (if eqb s Modified then FwdReplyDirty else FwdReplyWritable) 1
    else
      pending ← gets (fun w => SB.hasEntry (theAddress m) (theSnoopBuffer w));
      if (pending : bool) then wait_for_snoop t
      else
        s ← block_state (fd_result fd);
        let above := negb (is_level eL1) in
        let d := negb (eqb s Modified && above) in
        a ← send_snoop t m Invalidate d above;
        mret (act_caches d above a).

(** Snoops wait for each other; the first one asks the caches of the front side. *)
Definition invalidate_front t (m : MemoryMessage) (d : bool) : M W Action :=
  pending ← gets (fun w => SB.hasEntry (theAddress m) (theSnoopBuffer w));
  if (pending : bool) then wait_for_snoop t
  else
    let above := negb (is_level eL1) in
    a ← send_snoop t m Invalidate d above;
    mret (act_caches d above a).

Definition back_Invalidate t (m : MemoryMessage) (fd : Found) : M W Action :=
  let s := fd_state fd in
  if eqb s Invalid then
    if theNAckAlways mc then answer t InvalidateNAck 0 else no_action t
  else if (eqb s Exclusive || eqb s Modified) && negb (the2LevelPrivate mc) then dbg_fail "received in Invalidate"
  else
    demote_waiting_upgrade fd;;
    (if waiting_maf fd then
       x ← miss_type fd;
       match isWrite x with
       | None => dbg_fail "isWrite not recognized"
       | Some b => dbg_assert b "!waiting_maf || original_miss->isWrite()"
       end
     else mret ());;
    if is_level eL1I then
      use_tracker (tTracker t);;
      drop_block fd;;
      answer t InvalidateAck 0
    else if is_pending fd then answer t InvalidateAck 0
    else
      match fd_evictee fd with
      | Some e => if EB.theEvictable e then remove_evictee e;; answer t InvalidateAck 0 else invalidate_front t m true
      | None => invalidate_front t m true
      end.

(** The request that waits is an upgrade or a store of a block that is not modified. *)
Definition check_waiting_store (fd : Found) : M W () :=
  x ← miss_type fd;
  if bool_decide (x = UpgradeReq) then
    dbg_assert (negb (eqb (fd_state fd) Modified)) "Expected MAF to be Upgrade for block NOT in modified state";;
    demote_upgrade fd
  else
    dbg_assert (bool_decide (x ∈ [StoreReq; StorePrefetchReq; CmpxReq; RMWReq]))
      "Expected MAF to be Store/StorePrefetch/Cmpx/RMW";;
    dbg_assert (negb (eqb (fd_state fd) Modified)) "Expected MAF to be Store for block NOT in modified state".

Definition back_BackInvalidate t (m : MemoryMessage) (fd : Found) : M W Action :=
  let s := fd_state fd in
  if eqb s Invalid then
    if theNAckAlways mc then answer t InvalidateNAck 0 else no_action t
  else
    (if waiting_maf fd then check_waiting_store fd else mret ());;
    if is_level eL1I then
      use_tracker (tTracker t);;
      drop_block fd;;
      answer t InvalidateAck 0
    else if is_pending fd then answer t InvalidateAck 0
    else invalidate_front t m (is_level eL1 || negb (eqb s Modified)).

Definition back_EvictAck t (fd : Found) : M W Action :=
  match fd_evictee fd with
  | None => dbg_fail "from_eb"
  | Some e =>
      remove_evictee e;;
      add_pending (-1);;
      mret (act_wake false true (newAction kNoAction (tTracker t) 0))
  end.

(** A message of the same block, to the back side. *)
Definition acknowledge t (x : MemoryMessageType) (f : MemoryMessage -> MemoryMessage) (act : Action) : M W Action :=
  m ← deref_message t;
  id ← new_message (fresh_message (f (mkMessage x (theAddress (body m)) (theAssociatedPC (body m)) 0 0 true eUnknown false)));
  mret (act_back (set_message id t) act).

Definition back_NonAllocatingStoreReply t (m : Message) : M W (option Action) :=
  if is_level eL1 then endRequest (theAddress (body m));; mret None
  else
    let a := act_front t (newAction kSend (tTracker t) 0) in
    a ← (if theAckRequired m then acknowledge t NASAck id a else mret a);
    mret (Some a).

(** [theController->getWaitingMAFEntryIter(msg->address())], and the entry. *)
Definition waiting_entry_at (a : Z) : M W MAF.MafEntry :=
  maf ← gets theMaf;
  match MAF.getWaitingMAFEntryIter a maf with
  | None => dbg_fail "iter != theMaf.end()"
  | Some iter => lift (MAF.deref iter maf)
  end.
Definition alter_entry (e : MAF.MafEntry) (f : MAF.MafEntry -> MAF.MafEntry) : M W () :=
  modify (fun w => set_theMaf (MAF.alter (MAF.maf_iter e) f (theMaf w)) w).

(** The data was here all along: whether it was, or had been received. *)
Definition data_at_hand t lk (e : MAF.MafEntry) (received : bool) : M W (bool * bool) :=
  s ← block_state lk;
  if negb received && negb (eqb s Invalid) then
    default_fill t (theCacheLevel mc);;
    alter_entry e (MAF.set_data_received true);;
    mret (true, true)
  else mret (received, false).

(** The message takes what the core asked for. *)
Definition as_asked (orig : MemoryMessage) (m : MemoryMessage) : MemoryMessage :=
  set_coreIdx (theCoreIdx orig) (set_address (theAddress orig) (set_reqSize (theReqSize orig) m)).
Definition as_asked_pc (orig : MemoryMessage) (m : MemoryMessage) : MemoryMessage :=
  set_pc (theAssociatedPC orig) (as_asked orig m).

(** The reply that a store or an atomic operation gets. *)
Definition store_reply (x : MemoryMessageType) : option MemoryMessageType :=
  match x with
  | StoreReq => Some StoreReply
  | StorePrefetchReq => Some StorePrefetchReply
  | CmpxReq => Some CmpxReply
  | RMWReq => Some RMWReply
  | _ => None
  end.

(** All invalidations have arrived. *)
Definition notify_complete t (fd : Found) (orig : MemoryMessage) (e : MAF.MafEntry) : M W Action :=
  let lk := fd_result fd in
  let x := Messages.theType orig in
  '(received, had) ← data_at_hand t lk e (MAF.data_received e);
  dbg_assert (bool_decide (x = UpgradeReq) || received) "# of outstanding msgs after receiveing miss notify is 0";;
  dbg_assert (negb (from_eb fd)) "received miss notify but data in evict buffer.";;
  a ← acknowledge t (if bool_decide (x = UpgradeReq) || had then UpgradeAck else WriteAck) id
        (newAction kReplyAndRemoveResponseMAF (tTracker t) 1);
  setProtected lk false;;
  (match store_reply x with
   | Some y => set_msg_type t y;; setState lk Modified
   | None =>
       s ← block_state lk;
       (if eqb s Modified then set_msg_type t MissReplyDirty
        else dbg_assert (negb (eqb s Invalid)) "result->state() != State::Invalid";; set_msg_type t MissReplyWritable);;
       (if bool_decide (x = UpgradeReq) then set_msg_type t UpgradeReply else mret ());;
       setState lk Exclusive
   end);;
  update_message t (if is_level eL1 then as_asked orig else set_reqSize (mesiBlockSize mc));;
  m ← deref_message t;
  endRequest (theAddress (body m));;
  mret (act_front t a).

Definition back_MissNotify t (m : Message) (fd : Found) : M W (option Action) :=
  dbg_assert (waiting_maf fd) "received miss notify with no outstanding request";;
  orig ← deref_message (fd_miss fd);
  match isWrite (Messages.theType (body orig)) with
  | None => dbg_fail "isWrite not recognized"
  | Some b => dbg_assert b "received MissNotify while wrong type of message was waiting."
  end;;
  if bool_decide (Messages.theType (body orig) = AtomicPreloadReq) then mret None
  else
    e ← waiting_entry_at (theAddress (body m));
    let n := MAF.outstanding_msgs e + theOutstandingMessages m in
    alter_entry e (MAF.set_outstanding n);;
    a ← (if n =? 0 then notify_complete t fd (body orig) e else no_action t);
    mret (Some a).

(** ** Replies to what waits in the miss address file *)

Record Reply : Type := mkReply {
  rp_action : Action;
  rp_result : Arr.LookupResult;
  rp_fill : bool;
  rp_final : bool;
}.

(** What a reply to a request for writing brings: whether it is dirty, and data. *)
Definition write_data (notify : bool) (x : MemoryMessageType) : outcome (bool * bool) :=
  match x with
  | UpgradeReply | InvalidateAck | InvalidateNAck => Done (false, false)
  | MissNotify => if notify then Done (false, false) else Assert "received unexpected reply"
  | MissNotifyData | FwdReplyOwned | FwdReplyDirty | InvUpdateAck | MissReplyDirty => Done (true, true)
  | FwdReplyWritable | MissReplyWritable => Done (false, true)
  | _ => Assert "received unexpected reply"
  end.

Definition is_miss_reply (x : MemoryMessageType) : bool :=
  match x with MissReplyWritable | MissReplyDirty => true | _ => false end.

(** The messages that are still outstanding after a reply to a request for writing. *)
Definition still_outstanding (adds : bool) (m : Message) (e : MAF.MafEntry) : Z :=
  let x := Messages.theType (body m) in
  let n := if adds then MAF.outstanding_msgs e + theOutstandingMessages m else MAF.outstanding_msgs e - 1 in
  let n := if bool_decide (x = UpgradeReply) then 0 else n in
  let n := if negb (theAckRequired m) && is_miss_reply x then 0 else n in
  if (theOutstandingMessages m =? -1) && is_miss_reply x then 0 else n.

(** Data arrives: the lookup, whether the block was filled, whether the data was
    needed. *)
Definition receive_data lk (m : Message) (e : MAF.MafEntry) (dirty : bool) : M W (Arr.LookupResult * bool * bool) :=
  s ← block_state lk;
  '(lk, fill, used) ← (if eqb s Invalid then
      alter_entry e (MAF.set_data_received true);;
      lk ← allocateBlock lk (theAddress (body m));
      setProtected lk true;;
      mret (lk, true, true)
    else mret (lk, false, dirty));
  setState lk (if dirty then Modified else Exclusive);;
  mret (lk, fill, used).

Definition check_write_reply (m : Message) (fd : Found) : M W () :=
  let x := Messages.theType (body m) in
  dbg_assert (negb (bool_decide (x = MissReply))) "received MissReply in response to outstanding write";;
  dbg_assert (negb (bool_decide (x = FwdReply))) "received FwdReply in response to outstanding write";;
  dbg_assert (negb (from_eb fd)) "!from_eb".

Definition new_reply_action t : Action := newAction kReplyAndRemoveResponseMAF (tTracker t) 1.

(** Not all messages have arrived. *)
Definition keep_waiting t lk (fill used : bool) : Reply :=
  mkReply (let a := act_kind kNoAction (new_reply_action t) in if used then a else act_data 0 a) lk fill false.

Definition reply_AtomicPreload t (m : Message) (orig : MemoryMessage) (fd : Found) : M W Reply :=
  check_write_reply m fd;;
  let x := Messages.theType (body m) in
  e ← waiting_entry_at (theAddress (body m));
  '(dirty, data) ← lift (write_data true x);
  let n := still_outstanding (bool_decide (x ∈ [MissNotifyData; MissNotify])) m e in
  alter_entry e (MAF.set_outstanding n);;
  s ← block_state (fd_result fd);
  dbg_assert (negb (eqb s Shared && dirty)) "Shared should not recieve dirty reply";;
  '(lk, fill, used) ← (if (data : bool) then receive_data (fd_result fd) m e dirty else mret (fd_result fd, false, false));
  if n =? 0 then
    s ← block_state lk;
    dbg_assert (negb (eqb s Invalid)) "Should not have reached no outstanding msgs while still Invalid";;
    (if eqb s Shared then setState lk Exclusive else mret ());;
    '(_, had) ← data_at_hand t lk e (MAF.data_received e || fill);
    let a := new_reply_action t in
    a ← (if theAckRequired m then acknowledge t (if (had : bool) then UpgradeAck else WriteAck) id a else mret a);
    a ← (if (had : bool) then mret (act_no_front (act_kind kReplyAndRemoveMAF a))
         else update_message t (fun b => as_asked_pc orig (Messages.set_type AtomicPreloadReply b));; mret a);
    setProtected lk false;;
    recordAccess lk;;
    mret (mkReply a lk fill true)
  else mret (keep_waiting t lk fill used).

Definition reply_Fetch t (m : Message) (orig : MemoryMessage) (fd : Found) : M W Reply :=
  dbg_assert (eqb (fd_state fd) Invalid) "Received reply to fetch req but block not invalid";;
  lk ← allocateBlock (fd_result fd) (theAddress (body m));
  let x := Messages.theType (body m) in
  (if bool_decide (x ∈ [FetchReply; FwdReply; MissReply; FwdReplyOwned]) then setState lk Shared
   else dbg_fail "Received invalid reply to a fetch request");;
  let a := new_reply_action t in
  a ← (if theAckRequired m then
         acknowledge t (if bool_decide (x = FwdReplyOwned) then FetchAckDirty else FetchAck)
           (fun b => set_ackRequiresData (theAckRequiresData (body m))
                       (set_coreIdx (theCoreIdx (body m)) (set_reqSize (mesiBlockSize mc) b))) a
       else mret a);
  update_message t (fun b => (if is_level eL1I then as_asked_pc orig else id) (Messages.set_type FetchReply b));;
  mret (mkReply (act_caches false true a) lk true true).

(** An acknowledgement of a read, which carries the data. *)
Definition acknowledge_read t (m : Message) (dirty : bool) (a : Action) : M W Action :=
  if theAckRequired m then
    acknowledge t (if dirty then ReadAckDirty else ReadAck)
      (fun b => set_ackRequiresData (theAckRequiresData (body m)) (set_reqSize (mesiBlockSize mc) b)) a
  else mret a.

Definition reply_Load t (m : Message) (orig : MemoryMessage) (fd : Found) : M W Reply :=
  dbg_assert (eqb (fd_state fd) Invalid) "Received reply to read req but block not invalid";;
  lk ← allocateBlock (fd_result fd) (theAddress (body m));
  let x := Messages.theType (body m) in
  s ← lift (match x with
            | FwdReplyOwned | MissReply | FwdReply => Done Shared
            | MissReplyWritable => Done Exclusive
            | MissReplyDirty => Done Modified
            | _ => Assert "Received invalid reply to a read request"
            end);
  setState lk s;;
  set_msg_type t LoadReply;;
  a ← acknowledge_read t m (bool_decide (x = FwdReplyOwned)) (new_reply_action t);
  dbg_assert (is_level eL1) "theCacheLevel == eL1";;
  update_message t (as_asked_pc orig);;
  mret (mkReply a lk true true).

Definition reply_Read t (m : Message) (fd : Found) : M W Reply :=
  dbg_assert (eqb (fd_state fd) Invalid) "Received reply to read req but block not invalid";;
  lk ← allocateBlock (fd_result fd) (theAddress (body m));
  let x := Messages.theType (body m) in
  (match x with
   | MissReplyDirty => setState lk Exclusive;; set_msg_type t MissReply;; setState lk Shared
   | MissReply | FwdReply => set_msg_type t MissReply;; setState lk Shared
   | MissReplyWritable => setState lk Exclusive
   | _ => dbg_fail "Received invalid reply to a read request"
   end);;
  a ← acknowledge_read t m (bool_decide (x = MissReplyDirty)) (new_reply_action t);
  mret (mkReply a lk true true).

(** The answer to the request for writing, and the state of its block. *)
Definition grant_write t (orig : MemoryMessage) lk : M W () :=
  update_message t (set_reqSize (mesiBlockSize mc));;
  if bool_decide (Messages.theType orig = WriteReq) then
    s ← block_state lk;
    if eqb s Modified then set_msg_type t MissReplyDirty;; setState lk Exclusive
    else setState lk Exclusive;; set_msg_type t MissReplyWritable
  else
    match store_reply (Messages.theType orig) with
    | None => dbg_fail "What??"
    | Some y =>
        set_msg_type t y;;
        dbg_assert (is_level eL1) "theCacheLevel == eL1";;
        setState lk Modified;;
        update_message t (as_asked_pc orig)
    end.

Definition reply_Write t (m : Message) (orig : MemoryMessage) (fd : Found) : M W Reply :=
  check_write_reply m fd;;
  let x := Messages.theType (body m) in
  e ← waiting_entry_at (theAddress (body m));
  '(dirty, data) ← lift (write_data false x);
  let n := still_outstanding (bool_decide (x = MissNotifyData)) m e in
  alter_entry e (MAF.set_outstanding n);;
  '(lk, fill, used) ← (if (data : bool) then receive_data (fd_result fd) m e dirty else mret (fd_result fd, false, false));
  if n =? 0 then
    '(received, had) ← data_at_hand t lk e (MAF.data_received e || fill);
    dbg_assert received "# of outstanding msgs after receiveing miss notify is 0, but we don't have data yet.";;
    let a := new_reply_action t in
    a ← (if theAckRequired m then acknowledge t (if (had : bool) then UpgradeAck else WriteAck) id a else mret a);
    grant_write t orig lk;;
    setProtected lk false;;
    recordAccess lk;;
    mret (mkReply a lk fill true)
  else mret (keep_waiting t lk fill used).

Definition reply_Upgrade t (m : Message) (fd : Found) : M W Reply :=
  check_write_reply m fd;;
  let lk := fd_result fd in
  let x := Messages.theType (body m) in
  e ← waiting_entry_at (theAddress (body m));
  s ← block_state lk;
  dbg_assert (negb (eqb s Invalid)) "received reply to upgrade with block in invalid state";;
  let n := if bool_decide (x = UpgradeReply) then 0 else MAF.outstanding_msgs e - 1 in
  alter_entry e (MAF.set_outstanding n);;
  (match x with
   | UpgradeReply | InvalidateAck | InvalidateNAck => mret ()
   | FwdReplyOwned => setState lk Modified
   | _ => dbg_fail "UpgradeReq received unexpected reply"
   end);;
  let a := act_data 0 (new_reply_action t) in
  if n =? 0 then
    setState lk Exclusive;;
    setProtected lk false;;
    recordAccess lk;;
    a ← (if theAckRequired m then acknowledge t UpgradeAck id a else mret a);
    update_message t (fun b => set_reqSize (mesiBlockSize mc) (Messages.set_type UpgradeReply b));;
    default_fill t (theCacheLevel mc);;
    mret (mkReply a lk false true)
  else mret (mkReply (act_kind kNoAction a) lk false false).

Definition reply_NonAllocatingStore t (m : Message) (orig : MemoryMessage) (fd : Found) : M W Reply :=
  dbg_assert (bool_decide (Messages.theType (body m) = NonAllocatingStoreReply)) "msg->type() == NonAllocatingStoreReply";;
  update_message t (as_asked_pc orig);;
  let a := act_front t (new_reply_action t) in
  a ← (if theAckRequired m then acknowledge t NASAck id a else mret a);
  mret (mkReply a (fd_result fd) false false).

Definition reply_switch t (m : Message) (orig : MemoryMessage) (fd : Found) : M W Reply :=
  match Messages.theType orig with
  | AtomicPreloadReq => reply_AtomicPreload t m orig fd
  | FetchReq => reply_Fetch t m orig fd
  | LoadReq => reply_Load t m orig fd
  | ReadReq => reply_Read t m fd
  | StoreReq | StorePrefetchReq | CmpxReq | RMWReq | WriteReq => reply_Write t m orig fd
  | UpgradeReq => reply_Upgrade t m fd
  | NonAllocatingStoreReq => reply_NonAllocatingStore t m orig fd
  | _ => dbg_fail "MAF entry has un-expected type."
  end.

(** The end of [handleBackMessage]. *)
Definition finish_reply t (fd : Found) (rp : Reply) : M W Action :=
  prefetch ← (match tTracker (fd_miss fd) with
              | None => dbg_fail "null tracker"
              | Some k => mret (bool_decide (originatorLevel k = Some eL2Prefetcher))
              end);
  (if (prefetch : bool) then
     l ← fillLevel t;
     dbg_assert (match l with Some _ => true | None => false end) "tracker->fillLevel()"
   else mret ());;
  m ← deref_message t;
  (if rp_final rp then endRequest (theAddress (body m)) else mret ());;
  (if rp_fill rp && negb prefetch then
     l ← fillLevel t;
     dbg_assert (match l with Some _ => true | None => false end) "Fill Level NOT set in reply"
   else mret ());;
  s ← block_state (rp_result rp);
  (if eqb s Invalid then mret () else setPrefetched (rp_result rp) prefetch);;
  let a := rp_action rp in
  mret (if bool_decide (theAction a = kReplyAndRemoveResponseMAF) then act_front t a else a).

Definition handle_reply t (m : Message) (fd : Found) : M W Action :=
  match tMessage (fd_miss fd) with
  | None => dbg_fail "received reply with no corresponding miss"
  | Some _ =>
      orig ← deref_message (fd_miss fd);
      rp ← reply_switch t m (body orig) fd;
      finish_reply t fd rp
  end.

(** What is decided before the request that waits is looked at; [None] for replies. *)
Definition back_switch t (m : Message) (fd : Found) : M W (option Action) :=
  match Messages.theType (body m) with
  | ReadFwd | FetchFwd => back_Fwd t (body m) fd
  | WriteFwd => a ← back_WriteFwd t (body m) fd; mret (Some a)
  | Invalidate => a ← back_Invalidate t (body m) fd; mret (Some a)
  | BackInvalidate => a ← back_BackInvalidate t (body m) fd; mret (Some a)
  | EvictAck => a ← back_EvictAck t fd; mret (Some a)
  | FwdReply | FwdReplyOwned | FwdReplyWritable | FwdReplyDirty | InvalidateAck | InvalidateNAck | InvUpdateAck
  | MissNotifyData | FetchReply | UpgradeReply | MissReply | MissReplyWritable | MissReplyDirty => mret None
  | PrefetchReadReply | PrefetchWritableReply | PrefetchReadRedundant =>
      mret (Some (act_front t (newAction kSend (tTracker t) 0)))
  | NonAllocatingStoreReply => back_NonAllocatingStoreReply t m
  | MissNotify => back_MissNotify t m fd
  | _ => dbg_fail "Received unexpected message type on back side"
  end.

Definition mesi_handleBackMessage t : M W Action :=
  m ← deref_message t;
  if bool_decide (Messages.theType (body m) = ProtocolMessage) then
    mret (act_back t (newAction kSend (tTracker t) 0))
  else
    fd ← look_up (body m);
    r ← back_switch t m fd;
    match r with Some a => mret a | None => handle_reply t m fd end.

(** ** Snoop replies and evictions of the front side *)

Definition snoop_entry_at (e : option SB.SnoopEntry) (why : string) : M W SB.SnoopEntry :=
  match e with Some e => mret e | None => dbg_fail why end.

(** The entry of the evict buffer at this moment. *)
Definition evictee_now (a : Z) : M W (EB.EvictEntry State) := e ← find_evictee a; evictee_at e.

(** Data from the front side makes the block modified, wherever it is. *)
Definition write_back (m : MemoryMessage) lk : M W () :=
  s ← block_state lk;
  if eqb s Invalid then
    e ← find_evictee (theAddress m);
    match e with
    | None => dbg_fail "evEntry != theEvictBuffer.end()"
    | Some e => set_evictee e Modified EvictDirty
    end
  else setState lk Modified.

(** An eviction that waits for the snoops of a block that is gone. *)
Fixpoint forget_waiting_evict (l : list SB.SnoopEntry) : M W () :=
  match l with
  | [] => mret ()
  | e :: l =>
      m ← deref_message (SB.transport e);
      if isEvictType (Messages.theType (body m)) then snoops_do (SB.remove (SB.snoop_iter e)) else forget_waiting_evict l
  end.

Definition lose_block (m : MemoryMessage) lk : M W () :=
  s ← block_state lk;
  if eqb s Invalid then
    e ← find_evictee (theAddress m);
    match e with
    | None => dbg_fail "evEntry != theEvictBuffer.end()"
    | Some e =>
        if EB.thePending e then mret ()
        else
          remove_evictee e;;
          l ← gets (fun w => SB.getWaitingEntries (theAddress m) (theSnoopBuffer w));
          forget_waiting_evict l
    end
  else setState lk Invalid;; invalidateBlock lk.

Definition finalize_Fwd t (m : MemoryMessage) (orig : Transport) lk (block : State) : M W bool :=
  (if eqb block Modified then
     set_msg_type orig FwdReplyOwned;;
     s ← block_state lk;
     if theSnoopLRU mc && negb (eqb s Invalid) then invalidateBlock lk else mret ()
   else set_msg_type orig FwdReply);;
  default_fill t (thePeerLevel mc);;
  s ← block_state lk;
  (if eqb s Invalid then e ← evictee_now (theAddress m); set_evictee e Shared EvictClean else setState lk Shared);;
  mret true.

(** The answer to a request for the block, and whether it takes data. *)
Definition finalize_Invalidate t (m : MemoryMessage) (orig : Transport) (x : MemoryMessageType) lk (block : State)
    (requires_data : bool) : M W bool :=
  let requires_data := if bool_decide (x = WriteFwd) then negb requires_data else requires_data in
  data ← (if eqb block Modified then
            match x with
            | BackInvalidate => set_msg_type orig InvUpdateAck;; mret true
            | Invalidate => set_msg_type orig InvalidateAck;; default_fill t (thePeerLevel mc);; mret false
            | _ => set_msg_type orig FwdReplyOwned;; default_fill t (thePeerLevel mc);; mret true
            end
          else if eqb block Exclusive then
            match x with
            | BackInvalidate => set_msg_type orig InvUpdateAck;; mret true
            | WriteFwd => set_msg_type orig FwdReplyWritable;; default_fill t (thePeerLevel mc);; mret true
            | _ => set_msg_type orig InvalidateAck;; default_fill t (thePeerLevel mc);; mret requires_data
            end
          else if bool_decide (x = WriteFwd) then
            set_msg_type orig FwdReplyWritable;; setFillLevel (tTracker t) (theCacheLevel mc);; mret true
          else set_msg_type orig InvalidateAck;; mret requires_data);
  lose_block m lk;;
  mret data.

Definition finalize_Evict (m : MemoryMessage) (orig : Transport) (block : State) (requires_data : bool) : M W bool :=
  (if eqb block Modified then set_msg_type orig EvictDirty else mret ());;
  e ← evictee_now (theAddress m);
  evict_do (EB.setEvictable (EB.theBlockAddress e) true);;
  mret requires_data.

Definition finalize_switch t (m : MemoryMessage) (orig : Transport) (x : MemoryMessageType) lk (block : State)
    (requires_data : bool) : M W bool :=
  match x with
  | ReadFwd | FetchFwd => finalize_Fwd t m orig lk block
  | WriteFwd | Invalidate | BackInvalidate => finalize_Invalidate t m orig x lk block requires_data
  | EvictClean | EvictWritable | EvictDirty => finalize_Evict m orig block requires_data
  | _ => dbg_fail "Unknown message type in snoop buffer"
  end.

Definition finalizeSnoop t lk : M W Action :=
  m ← deref_message t;
  let m := body m in
  use_tracker (tTracker t);;
  blk ← block_of_address (theAddress m);
  e ← gets (fun w => SB.findEntry blk (theSnoopBuffer w));
  snp ← snoop_entry_at e "received snoop reply but no waiting snoops";
  let requires_data := bool_decide (Messages.theType m ∈ [InvUpdateAck; DownUpdateAck]) in
  (if requires_data then write_back m lk else mret ());;
  let d := if theDstream m then false else SB.d_snoop_outstanding snp in
  let i := if theDstream m then SB.i_snoop_outstanding snp else false in
  set_outstanding (SB.snoop_iter snp) d i;;
  if d || i then mret (newAction kNoAction (tTracker t) (if requires_data then 1 else 0))
  else
    let orig := SB.transport snp in
    o ← deref_message orig;
    use_tracker (tTracker orig);;
    s ← block_state lk;
    block ← (if eqb s Invalid then e ← evictee_now (theAddress m); mret (EB.theState e) else mret s);
    data ← finalize_switch t m orig (Messages.theType (body o)) lk block requires_data;
    snoops_do (fun b => (SB.wakeWaitingEntries (theAddress m) b).2);;
    o ← deref_message orig;
    let kind := if isEvictType (Messages.theType (body o)) then kNoAction else kSend in
    snoops_do (SB.remove (SB.snoop_iter snp));;
    mret (act_back orig (act_wake true false (newAction kind (tTracker t) (if (data : bool) then 1 else 0)))).

(** A dirty eviction of a cache above. *)
Definition snoop_EvictDirty t (m : MemoryMessage) lk : M W Action :=
  s ← block_state lk;
  (if eqb s Invalid then
     e ← find_evictee (theAddress m);
     match e with
     | None => mret ()
     | Some e =>
         dbg_assert (negb (bool_decide (EB.theType e = EvictDirty))) "evEntry->type() != MemoryMessage::EvictDirty";;
         set_evictee e Modified EvictDirty
     end
   else
     dbg_assert (eqb s Exclusive) "received dirty evict for block";;
     setState lk Modified;;
     recordAccess lk);;
  mret (newAction kNoAction (tTracker t) 1).

Definition mesi_handleSnoopMessage t : M W Action :=
  m ← deref_message t;
  let m := body m in
  dbg_assert (bool_decide (usesSnoopChannel (Messages.theType m) = Some true)) "msg->usesSnoopChannel()";;
  lk ← array_get (fun arr => Arr.lookup arr (theAddress m));
  match Messages.theType m with
  | InvalidateAck | InvUpdateAck | DowngradeAck | DownUpdateAck => finalizeSnoop t lk
  | EvictDirty => snoop_EvictDirty t m lk
  | EvictWritable | EvictClean => no_action t
  | _ => dbg_fail "Invalid message processed in handleSnoopMessage"
  end.

Definition mesi_handleIprobe (aHit : bool) t : M W Action :=
  m ← deref_message t;
  let a := theAddress (body m) in
  lk ← array_get (fun arr => Arr.lookup arr a);
  s ← block_state lk;
  dbg_assert (negb (eqb s Invalid)) "lookup->state() != State::Invalid";;
  setProtected lk false;;
  endRequest a;;
  snooped ← gets (fun w => SB.hasSnoopsOutstanding a (theSnoopBuffer w));
  if (snooped : bool) then mret (newAction kInsertMAF_WaitSnoop (tTracker t) 0)
  else
    set_msg_type t FetchReply;;
    (match tTracker t with Some _ => default_fill t (theCacheLevel mc) | None => mret () end);;
    use_tracker (tTracker t);;
    mret (act_caches false true (act_front t (newAction kReplyAndRemoveMAF (tTracker t) 1))).

(** ** Evictions from the evict buffer *)

Definition mesi_idleWorkAvailable w : bool :=
  if isFrontSideOutFull w then false
  else if SB.full (theSnoopBuffer w) then false
  else
    (negb (EB.empty (theEvictBuffer w)) &&
     match last (EB.theEvictions (theEvictBuffer w)) with Some e => EB.theSnoopRequired e | None => false end) ||
    (negb (EB.full (theEvictBuffer w)) && Arr.evictionResourcePressure).

Definition mesi_getIdleWorkMessage (p : ProcessEntry) : M W (option Z * ProcessEntry) :=
  p ← reserveSnoopBuffer p;
  p ← reserveFrontSideOut p;
  e ← gets (fun w => EB.getOldestRequiringSnoops (theEvictBuffer w));
  match e with
  | None =>
      id ← new_message (fresh_message (newMessage NumMemoryMessageTypes 0));
      mret (Some id, p)
  | Some e =>
      evict_do (EB.alter (EB.theBlockAddress e) (EB.set_snoopRequired false));;
      id ← new_message (fresh_message (newMessage (EB.theType e) (EB.theBlockAddress e)));
      mret (Some id, p)
  end.

Definition mesi_removeIdleWorkReservations (p : ProcessEntry) (a : Action) : M W ProcessEntry :=
  p ← unreserveSnoopBuffer p;
  if bool_decide (theAction a = kNoAction) then unreserveFrontSideOut p else mret p.

(** A block of the array that has to go, when the array asks for it. *)
Definition preempt t (m : MemoryMessage) : M W () :=
  let '(s, a) := Arr.getPreemptiveEviction in
  if eqb s Invalid then mret ()
  else
    evict_do (EB.allocEntry a (evict_type_of s) s false);;
    if bool_decide (Messages.theType m = NumMemoryMessageTypes) then
      update_message t (fun b => set_address a (Messages.set_type (evict_type_of s) b));;
      evict_do (EB.alter a (EB.set_snoopRequired false))
    else mret ().

(** What the front side is asked when the block [e] is to leave the evict buffer. *)
Definition evict_snoop t (m : MemoryMessage) (d : bool) : M W Action :=
  let above := negb (is_level eL1) in
  a ← send_snoop t m Invalidate d above;
  mret (act_caches d above a).

Definition mesi_handleIdleWork t : M W Action :=
  m ← deref_message t;
  full ← gets (fun w => EB.full (theEvictBuffer w));
  (if negb full && Arr.evictionResourcePressure then preempt t (body m) else mret ());;
  m ← deref_message t;
  let m := body m in
  if bool_decide (Messages.theType m = NumMemoryMessageTypes) then
    mret (act_forget (newAction kNoAction (tTracker t) 0))
  else
    e ← find_evictee (theAddress m);
    match e with
    | None => mret (act_forget (newAction kNoAction (tTracker t) 0))
    | Some e =>
        evict_do (EB.alter (EB.theBlockAddress e) (EB.set_snoopScheduled true));;
        pending ← gets (fun w => SB.hasEntry (theAddress m) (theSnoopBuffer w));
        if (pending : bool) then wait_for_snoop t
        else
          evict_snoop t (newMessage Invalidate (theAddress m))
            (negb (negb (is_level eL1) && eqb (EB.theState e) Modified))
    end.

Definition mesi_handleWakeSnoop t : M W Action :=
  m ← deref_message t;
  let m := body m in
  if isEvictType (Messages.theType m) then
    e ← gets (fun w => SB.findEntry (theAddress m) (theSnoopBuffer w));
    dbg_assert (match e with None => true | Some _ => false end) "snp == theSnoopBuffer.end()";;
    d ← (if is_level eL1 then mret true
         else e ← evictee_now (theAddress m); mret (negb (eqb (EB.theState e) Modified)));
    evict_snoop t m d
  else mesi_handleBackMessage t.

Definition mesi_freeEvictBuffer w : Z :=
  let ret := int32 (EB.freeEntries (theEvictBuffer w) + thePendingEvicts (impl w) - theEvictThreshold) in
  if ret <? 0 then 0 else ret.

Definition mesi_evictableBlockExists (anIndex : Z) w : bool :=
  if theEvictThreshold <=? thePendingEvicts (impl w) + anIndex then false
  else EB.headEvictable (anIndex + thePendingEvicts (impl w)) (theEvictBuffer w).

Definition mesi_doEviction : M W Action :=
  b ← gets theEvictBuffer;
  n ← gets (fun w => thePendingEvicts (impl w));
  if EB.headEvictable n b then
    '(x, a, b) ← lift (EB.pop_at (uint32 n) b);
    modify (set_theEvictBuffer b);;
    let has_data := bool_decide (x = EvictDirty) || (bool_decide (x = EvictWritable) && theWritableEvictsHaveData mc) in
    id ← new_message (set_evictHasData has_data (fresh_message (mkMessage x a 0 (mesiBlockSize mc) 0 true eUnknown false)));
    tracker ← new_tracker;
    add_pending 1;;
    (if theEvictAcksRequired mc then mret () else evict_do (EB.remove a);; add_pending (-1));;
    mret (act_data 0 (act_tracker (Some tracker)
            (act_back (mkTransport (Some id) (Some tracker)) (newAction kSend None 0))))
  else mret (newAction kNoAction None 0).

#[local] Instance InclusiveMESI : Policy State MesiState := {|
  getBlockAddress := fun i a => Arr.blockAddress (theArray i) a;
  canStartRequest := fun i a =>
    getActiveRequests (Arr.getSet (theArray i) a) (theRequestTracker i) <? Arr.requestsPerSet (theArray i);
  addPendingRequest := fun a i =>
    Done (set_requests (CacheBuffers.startRequest (Arr.getSet (theArray i) a) (theRequestTracker i)) i);
  removePendingRequest := fun a i =>
    r ← CacheBuffers.endRequest (Arr.getSet (theArray i) a) (theRequestTracker i); Done (set_requests r i);
  arrayEvictResourcesAvailable := fun _ => Arr.evictionResourcesAvailable;
  reserveArrayEvictResource := Done;
  unreserveArrayEvictResource := Done;
  freeEvictBuffer := mesi_freeEvictBuffer;
  evictableBlockExists := mesi_evictableBlockExists;
  doEviction := mesi_doEviction;
  doRequest := mesi_doRequest;
  handleBackMessage := mesi_handleBackMessage;
  handleSnoopMessage := mesi_handleSnoopMessage;
  handleIprobe := mesi_handleIprobe;
  idleWorkAvailable := mesi_idleWorkAvailable;
  getIdleWorkMessage := mesi_getIdleWorkMessage;
  removeIdleWorkReservations := mesi_removeIdleWorkReservations;
  handleIdleWork := mesi_handleIdleWork;
  completeIdleWork := fun _ => mret ();
  handleWakeSnoop := mesi_handleWakeSnoop;
|}.
End mesi.
