(* ===== verification/CacheBus.v ===== *)
(** * The timing cache as a component

    components/Cache/CacheImpl.cpp: the ports of a timing cache and the bus on its back
    side, around the controller of CacheController.v.  A port's index becomes the core
    index of the message that is pushed through it.  Messages that leave the component
    are recorded in order with their ports; whether a neighbour accepts a message is a
    function of what has been sent, an argument of [drive]. *)

From stdpp Require Import base gmap list strings fin_maps.
From Stdlib Require Import ZArith Lia.
From S2P Require Import Prelude Messages TimingQueues CacheBuffers MissAddressFile CacheController.

Local Open Scope Z_scope.

Inductive eDirection : Set :=
  | kIdle | kToBackSideIn_Request | kToBackSideIn_Reply | kToBackSideOut_Request
  | kToBackSideOut_Prefetch | kToBackSideOut_Snoop | kToBackSideOut_Reply.

#[export] Instance direction_eq_dec : EqDecision eDirection.
Proof. solve_decision. Defined.

Inductive OutPort : Set :=
  | FrontSideOut_D_port (i : Z)
  | FrontSideOut_I_port (i : Z)
  | BackSideOut_port (c : BackChannel).

#[export] Instance out_port_eq_dec : EqDecision OutPort.
Proof. solve_decision. Defined.

(** The parameters that only the component reads. *)
Record BusConfig : Type := mkBusConfig {
  NoBus : bool;
  FastEvictClean : bool;
  BusTime_Data : Z;
  BusTime_NoData : Z;
  flexusIndex : Z;
  isFastMode : bool;
}.

Section component.
Context {S P : Type}.

Record CacheComponent : Type := mkComponent {
  theController : Cache S P;
  theBusTxCountdown : Z;
  theBusDirection : eDirection;
  theBusContents : Transport;
  theBackSideIn_RequestBuffer : option Transport;
  theBackSideIn_ReplyBuffer : option Transport;
  theBackSideIn_RequestInfiniteQueue : list Transport;
  theBackSideIn_ReplyInfiniteQueue : list Transport;
  theBusDeadlocks : Z;
  sent : list (OutPort * Transport);
}.

Definition set_controller (x : Cache S P) (k : CacheComponent) : CacheComponent :=
  mkComponent x (theBusTxCountdown k) (theBusDirection k) (theBusContents k)
    (theBackSideIn_RequestBuffer k) (theBackSideIn_ReplyBuffer k)
    (theBackSideIn_RequestInfiniteQueue k) (theBackSideIn_ReplyInfiniteQueue k) (theBusDeadlocks k) (sent k).
Definition set_bus (d : eDirection) (n : Z) (t : Transport) (k : CacheComponent) : CacheComponent :=
  mkComponent (theController k) n d t (theBackSideIn_RequestBuffer k) (theBackSideIn_ReplyBuffer k)
    (theBackSideIn_RequestInfiniteQueue k) (theBackSideIn_ReplyInfiniteQueue k) (theBusDeadlocks k) (sent k).
Definition set_request_buffer (x : option Transport) (k : CacheComponent) : CacheComponent :=
  mkComponent (theController k) (theBusTxCountdown k) (theBusDirection k) (theBusContents k) x
    (theBackSideIn_ReplyBuffer k) (theBackSideIn_RequestInfiniteQueue k)
    (theBackSideIn_ReplyInfiniteQueue k) (theBusDeadlocks k) (sent k).
Definition set_reply_buffer (x : option Transport) (k : CacheComponent) : CacheComponent :=
  mkComponent (theController k) (theBusTxCountdown k) (theBusDirection k) (theBusContents k)
    (theBackSideIn_RequestBuffer k) x (theBackSideIn_RequestInfiniteQueue k)
    (theBackSideIn_ReplyInfiniteQueue k) (theBusDeadlocks k) (sent k).
Definition set_request_infinite (x : list Transport) (k : CacheComponent) : CacheComponent :=
  mkComponent (theController k) (theBusTxCountdown k) (theBusDirection k) (theBusContents k)
    (theBackSideIn_RequestBuffer k) (theBackSideIn_ReplyBuffer k) x
    (theBackSideIn_ReplyInfiniteQueue k) (theBusDeadlocks k) (sent k).
Definition set_reply_infinite (x : list Transport) (k : CacheComponent) : CacheComponent :=
  mkComponent (theController k) (theBusTxCountdown k) (theBusDirection k) (theBusContents k)
    (theBackSideIn_RequestBuffer k) (theBackSideIn_ReplyBuffer k) (theBackSideIn_RequestInfiniteQueue k)
    x (theBusDeadlocks k) (sent k).
Definition add_deadlock (k : CacheComponent) : CacheComponent :=
  mkComponent (theController k) (theBusTxCountdown k) (theBusDirection k) (theBusContents k)
    (theBackSideIn_RequestBuffer k) (theBackSideIn_ReplyBuffer k) (theBackSideIn_RequestInfiniteQueue k)
    (theBackSideIn_ReplyInfiniteQueue k) (theBusDeadlocks k + 1) (sent k).
Definition add_sent (port : OutPort) (t : Transport) (k : CacheComponent) : CacheComponent :=
  mkComponent (theController k) (theBusTxCountdown k) (theBusDirection k) (theBusContents k)
    (theBackSideIn_RequestBuffer k) (theBackSideIn_ReplyBuffer k) (theBackSideIn_RequestInfiniteQueue k)
    (theBackSideIn_ReplyInfiniteQueue k) (theBusDeadlocks k) (sent k ++ [(port, t)]).

(** A call of the controller. *)
Definition call {A} (m : M (Cache S P) A) : M CacheComponent A := fun k =>
  match m (theController k) with
  | Done (a, w) => Done (a, set_controller w k)
  | Assert why => Assert why
  end.

Definition component_isQuiesced (k : CacheComponent) : bool :=
  bool_decide (theBusDirection k = kIdle) &&
  match theBackSideIn_ReplyBuffer k with None => true | _ => false end &&
  match theBackSideIn_RequestBuffer k with None => true | _ => false end &&
  isQuiesced (theController k).

(** ** Ports *)

(** [available] and [push] of the three ports on the front side; all indices share
    the first queue. *)
Definition front_available (c : InChannel) (k : CacheComponent) : bool :=
  match SideIn (theController k) c !! 0%nat with Some q => negb (MQ.full 0 q) | None => false end.

Definition push_front (c : InChannel) (anIndex : Z) (t : Transport) : M CacheComponent () :=
  q ← call (port_queue c 0);
  dbg_assert (negb (MQ.full 0 q)) "!theController->FrontSideIn[0].full()";;
  call (update_message t (set_coreIdx anIndex));;
  now ← call (gets cycleCount);
  q ← lift (MQ.enqueue now t q);
  call (put_port_queue c 0 q).

Section bus.
Context `{IndexOrder} `{Policy S P} (cfg : CacheConfig) (bus : BusConfig).

Definition back_reply_available (k : CacheComponent) : bool :=
  match theBackSideIn_ReplyBuffer k with None => true | Some _ => false end.
Definition push_BackSideIn_Reply (t : Transport) : M CacheComponent () :=
  if NoBus bus then
    call (update_message t (set_coreIdx 0));;
    modify (fun k => set_reply_infinite (theBackSideIn_ReplyInfiniteQueue k ++ [t]) k)
  else
    b ← gets back_reply_available;
    dbg_assert b "!theBackSideIn_ReplyBuffer";;
    call (update_message t (set_coreIdx 0));;
    modify (set_reply_buffer (Some t)).

Definition back_request_available (k : CacheComponent) : bool :=
  match theBackSideIn_RequestBuffer k with None => true | Some _ => false end.
Definition push_BackSideIn_Request (t : Transport) : M CacheComponent () :=
  if NoBus bus then
    call (update_message t (set_coreIdx 0));;
    modify (fun k => set_request_infinite (theBackSideIn_RequestInfiniteQueue k ++ [t]) k)
  else
    b ← gets back_request_available;
    dbg_assert b "!theBackSideIn_RequestBuffer";;
    call (update_message t (set_coreIdx 0));;
    modify (set_request_buffer (Some t)).

(** ** The bus *)

Definition transferTime (t : Transport) : M CacheComponent Z :=
  if isFastMode bus then mret 0
  else
    m ← call (deref_message t);
    mret (uint32 ((if 0 <? theReqSize (body m) then BusTime_Data bus else BusTime_NoData bus) - 1)).

(** What the neighbours accept. *)
Context (available : list (OutPort * Transport) -> OutPort -> bool).

Definition accepts (port : OutPort) : M CacheComponent bool := gets (fun k => available (sent k) port).

Definition out_queue (c : BackChannel) : M CacheComponent Queue :=
  call (gets (fun w => BackSideOut w c)).

Definition take_back (c : BackChannel) : M CacheComponent Transport :=
  q ← out_queue c;
  '(t, q) ← lift (MQ.dequeue q);
  call (modify (fun w => set_BackSideOut (with_channel c q (BackSideOut w)) w));;
  mret t.

(** The message of the front of a queue leaves through a port; the core index of what
    leaves on the back side, except prefetches, is the index of the component. *)
Definition send_from (c : BackChannel) (port : OutPort) : M CacheComponent Transport :=
  t ← take_back c;
  (if bool_decide (c = BSO_Prefetch) then mret ()
   else call (update_message t (set_coreIdx (flexusIndex bus))));;
  modify (add_sent port t);;
  mret t.

(** The head of [c] is younger than the head of [than], or [c] is empty. *)
Definition younger (c than : BackChannel) : M CacheComponent bool :=
  q ← out_queue c;
  if MQ.empty q then mret true
  else
    r ← out_queue than;
    tc ← lift (MQ.headTimestamp q);
    tr ← lift (MQ.headTimestamp r);
    mret (tr <? tc).

Definition andC (a b : M CacheComponent bool) : M CacheComponent bool :=
  x ← a; if (x : bool) then b else mret false.

Definition nonempty (c : BackChannel) : M CacheComponent bool :=
  q ← out_queue c; mret (negb (MQ.empty q)).

(** A queue of one channel may use the bus, given the channels whose heads must not be
    older. *)
Definition may_send (c : BackChannel) (others : list BackChannel) : M CacheComponent bool :=
  andC (nonempty c)
    (andC (accepts (BackSideOut_port c))
       (foldr (fun o rest => andC (younger o c) rest) (mret true) others)).

Definition front_send (f : Cache S P -> list Queue) (set : list Queue -> Cache S P -> Cache S P)
    (port : Z -> OutPort) (i : Z) : M CacheComponent bool :=
  qs ← call (gets f);
  q ← lift (vec_at qs i);
  if MQ.empty q then mret false
  else
    a ← accepts (port i);
    if negb a then mret false
    else
      '(t, q) ← lift (MQ.dequeue q);
      qs ← lift (vec_put qs i q);
      call (modify (set qs));;
      modify (add_sent (port i) t);;
      mret true.

(** One round per message of the queue is enough. *)
Definition front_loop (f : Cache S P -> list Queue) (set : list Queue -> Cache S P -> Cache S P)
    (port : Z -> OutPort) (i : Z) : M CacheComponent () :=
  qs ← call (gets f);
  q ← lift (vec_at qs i);
  repeat_while (Datatypes.S (length (MQ.theQueue q))) (front_send f set port i).

Definition front_cycle (i : Z) : M CacheComponent () :=
  front_loop FrontSideOut_D set_FrontSideOut_D FrontSideOut_D_port i;;
  front_loop FrontSideOut_I set_FrontSideOut_I FrontSideOut_I_port i.

Definition enqueue_in (c : InChannel) (t : Transport) : M CacheComponent () :=
  now ← call (gets cycleCount);
  q ← call (port_queue c 0);
  q ← lift (MQ.enqueue now t q);
  call (put_port_queue c 0 q).

Definition in_full (c : InChannel) : M CacheComponent bool :=
  q ← call (port_queue c 0); mret (MQ.full 0 q).

Definition infinite_step (c : InChannel) (f : CacheComponent -> list Transport)
    (set : list Transport -> CacheComponent -> CacheComponent) : M CacheComponent bool :=
  full ← in_full c;
  l ← gets f;
  match l with
  | t :: rest => if (full : bool) then mret false else enqueue_in c t;; modify (set rest);; mret true
  | [] => mret false
  end.

Definition infinite_loop (c : InChannel) (f : CacheComponent -> list Transport)
    (set : list Transport -> CacheComponent -> CacheComponent) : M CacheComponent () :=
  l ← gets f; repeat_while (Datatypes.S (length l)) (infinite_step c f set).

(** A loop that sends from queue [from] while channel [c] may send. *)
Definition back_loop (c : BackChannel) (others : list BackChannel) (from : BackChannel) (port : OutPort)
    : M CacheComponent () :=
  q ← out_queue from;
  repeat_while (Datatypes.S (length (MQ.theQueue q)))
    (b ← may_send c others; if (b : bool) then send_from from port;; mret true else mret false).

(** Without a bus.  The last loop tests the reply queue and sends from the snoop
    queue, on the snoop channel. *)
Definition nobus_cycle : M CacheComponent () :=
  infinite_loop BackReply theBackSideIn_ReplyInfiniteQueue set_reply_infinite;;
  infinite_loop BackRequest theBackSideIn_RequestInfiniteQueue set_request_infinite;;
  back_loop BSO_Request [BSO_Snoop; BSO_Reply] BSO_Request (BackSideOut_port BSO_Request);;
  back_loop BSO_Prefetch [BSO_Snoop; BSO_Reply] BSO_Prefetch (BackSideOut_port BSO_Prefetch);;
  back_loop BSO_Snoop [BSO_Reply] BSO_Snoop (BackSideOut_port BSO_Snoop);;
  back_loop BSO_Reply [] BSO_Snoop (BackSideOut_port BSO_Snoop).

Definition fast_evict : M CacheComponent () :=
  dir ← gets theBusDirection;
  if negb (bool_decide (dir = kIdle)) then mret ()
  else
    b ← andC (nonempty BSO_Snoop) (accepts (BackSideOut_port BSO_Snoop));
    if negb b then mret ()
    else
      q ← out_queue BSO_Snoop;
      t ← lift (MQ.peek q);
      m ← call (deref_message t);
      if bool_decide (Messages.theType (body m) = EvictClean \/ Messages.theType (body m) = EvictWritable)
      then send_from BSO_Snoop (BackSideOut_port BSO_Snoop);; mret ()
      else mret ().

Definition start_in (d : eDirection) (t : Transport) : M CacheComponent () :=
  modify (set_bus d 0 t);;
  n ← transferTime t;
  modify (set_bus d n t).

Definition start_out (d : eDirection) (c : BackChannel) : M CacheComponent () :=
  q ← out_queue c;
  t ← lift (MQ.peek q);
  n ← transferTime t;
  modify (fun k => set_bus d n (theBusContents k) k).

(** [if (c) m else n], when [c] looks at the state. *)
Definition ifM (c : M CacheComponent bool) (m n : M CacheComponent ()) : M CacheComponent () :=
  b ← c; if (b : bool) then m else n.

Definition buffer_ready (f : CacheComponent -> option Transport) (c : InChannel) : M CacheComponent bool :=
  b ← gets f;
  match b with None => mret false | Some _ => full ← in_full c; mret (negb full) end.

Definition from_buffer (f : CacheComponent -> option Transport)
    (set : option Transport -> CacheComponent -> CacheComponent) (d : eDirection) : M CacheComponent () :=
  b ← gets f;
  match b with
  | None => dbg_fail "empty optional"
  | Some t => modify (set None);; start_in d t
  end.

(** The bus is idle: who is next. *)
Definition start_transfer : M CacheComponent () :=
  ifM (buffer_ready theBackSideIn_ReplyBuffer BackReply)
    (from_buffer theBackSideIn_ReplyBuffer set_reply_buffer kToBackSideIn_Reply)
  (ifM (buffer_ready theBackSideIn_RequestBuffer BackRequest)
    (from_buffer theBackSideIn_RequestBuffer set_request_buffer kToBackSideIn_Request)
  (ifM (may_send BSO_Request [BSO_Snoop; BSO_Reply]) (start_out kToBackSideOut_Request BSO_Request)
  (ifM (andC (b ← nonempty BSO_Request; mret (negb b)) (may_send BSO_Prefetch [BSO_Snoop; BSO_Reply]))
    (start_out kToBackSideOut_Prefetch BSO_Prefetch)
  (ifM (may_send BSO_Snoop [BSO_Reply]) (start_out kToBackSideOut_Snoop BSO_Snoop)
  (ifM (may_send BSO_Reply []) (start_out kToBackSideOut_Reply BSO_Reply)
    (mret ())))))).

Definition arrive (c : InChannel) : M CacheComponent () :=
  full ← in_full c;
  if (full : bool) then mret ()
  else
    t ← gets theBusContents;
    enqueue_in c t;;
    modify (fun k => set_bus kIdle (theBusTxCountdown k) (theBusContents k) k).

(** The message leaves, or the transfer is given up. *)
Definition leave (c : BackChannel) : M CacheComponent () :=
  a ← accepts (BackSideOut_port c);
  if (a : bool) then
    b ← nonempty c;
    dbg_assert b "!theController->BackSideOut.empty()";;
    t ← send_from c (BackSideOut_port c);
    modify (fun k => set_bus kIdle (theBusTxCountdown k) t k)
  else
    modify add_deadlock;;
    modify (fun k => set_bus kIdle (theBusTxCountdown k) (theBusContents k) k).

Definition finish_transfer : M CacheComponent () :=
  d ← gets theBusDirection;
  match d with
  | kIdle => mret ()
  | kToBackSideIn_Reply => arrive BackReply
  | kToBackSideIn_Request => arrive BackRequest
  | kToBackSideOut_Snoop => leave BSO_Snoop
  | kToBackSideOut_Reply => leave BSO_Reply
  | kToBackSideOut_Request => leave BSO_Request
  | kToBackSideOut_Prefetch => leave BSO_Prefetch
  end.

Definition busCycle : M CacheComponent () :=
  for_each (below (theCores cfg)) front_cycle;;
  if NoBus bus then nobus_cycle
  else
    (if FastEvictClean bus then fast_evict else mret ());;
    n ← gets theBusTxCountdown;
    d ← gets theBusDirection;
    (if 0 <? n then
       dbg_assert (negb (bool_decide (d = kIdle))) "theBusDirection != kIdle";;
       modify (fun k => set_bus (theBusDirection k) (theBusTxCountdown k - 1) (theBusContents k) k)
     else if bool_decide (d = kIdle) then start_transfer
     else mret ());;
    n ← gets theBusTxCountdown;
    if n =? 0 then finish_transfer else mret ().

Definition drive : M CacheComponent () :=
  call (processMessages cfg);;
  busCycle.

End bus.

(** [initialize] *)
Definition initialize `{Policy S P} (cfg : CacheConfig) (bus : BusConfig) (anImpl : P) : outcome CacheComponent :=
  c ← newController cfg anImpl;
  if (0 <? BusTime_Data bus) && (0 <? BusTime_NoData bus) then
    Done (mkComponent c 0 kIdle noTransport None None [] [] 0 [])
  else Assert "cfg.BusTime > 0".

End component.
