(* ===== verification/CacheReservations.v ===== *)
(** * What a timing cache's processes hold

    The laws of a protocol ([PolicyLaws]) and the invariant of the controller of
    CacheController.v: every counter of a queue or a buffer is its contents and the
    reservations of the processes in the pipelines, and every process holds exactly
    what its kind takes before it starts, or what the messages that it will send
    need.  [res m e w] is the invariant while one process, which holds the mask [m] and
    [e] slots of the evict buffer, is in hand.  Each reservation and its return moves
    a bit between the counters and the mask. *)

From stdpp Require Import base gmap list strings fin_maps.
From Stdlib Require Import ZArith Lia.
From S2P Require Import Prelude Messages TimingQueues CacheBuffers MissAddressFile CacheController.

Local Open Scope Z_scope.

(** ** Masks *)

Definition bit (r m : Z) : Z := if Z.land m r =? 0 then 0 else 1.

Definition is_res (r : Z) : Prop := exists k, 0 <= k /\ r = 2 ^ k.

Lemma bit_testbit k m : 0 <= k -> bit (2 ^ k) m = Z.b2z (Z.testbit m k).
Proof.
  intros Hk. unfold bit. destruct (Z.eqb_spec (Z.land m (2 ^ k)) 0) as [E|N].
  - apply (f_equal (fun x => Z.testbit x k)) in E. rewrite Z.land_spec, Z.pow2_bits_true, Z.bits_0 in E by done.
    by destruct (Z.testbit m k).
  - destruct (Z.testbit m k) eqn:T; [done|]. destruct N. apply Z.bits_inj'. intros n Hn.
    rewrite Z.land_spec, Z.pow2_bits_eqb, Z.bits_0 by done.
    destruct (Z.eqb_spec k n) as [<-|]; [by rewrite T|by rewrite andb_false_r].
Qed.

Lemma bit_drop r r' m :
  is_res r -> is_res r' -> bit r (Z.land m (Z.lnot r')) = if r =? r' then 0 else bit r m.
Proof.
  intros (k & Hk & ->) (k' & Hk' & ->). rewrite !bit_testbit by done.
  rewrite Z.land_spec, Z.lnot_spec, Z.pow2_bits_eqb by done.
  destruct (Z.eqb_spec (2 ^ k) (2 ^ k')) as [E|N].
  - apply Z.pow_inj_r in E; [|lia..]. subst. rewrite Z.eqb_refl. by rewrite andb_false_r.
  - rewrite (proj2 (Z.eqb_neq k' k)) by (intros ->; done). by rewrite andb_true_r.
Qed.

Lemma bit_take r r' m :
  is_res r -> is_res r' -> bit r (Z.lor m r') = if r =? r' then 1 else bit r m.
Proof.
  intros (k & Hk & ->) (k' & Hk' & ->). rewrite !bit_testbit by done.
  rewrite Z.lor_spec, Z.pow2_bits_eqb by done.
  destruct (Z.eqb_spec (2 ^ k) (2 ^ k')) as [E|N].
  - apply Z.pow_inj_r in E; [|lia..]. subst. rewrite Z.eqb_refl. by rewrite orb_true_r.
  - rewrite (proj2 (Z.eqb_neq k' k)) by (intros ->; done). by rewrite orb_false_r.
Qed.

Lemma bit_range r m : 0 <= bit r m <= 1.
Proof. unfold bit. case_match; lia. Qed.

Lemma bit_zero r : bit r 0 = 0.
Proof. done. Qed.

Ltac resource := solve [ (exists 0; done) | (exists 1; done) | (exists 2; done) | (exists 3; done)
  | (exists 4; done) | (exists 5; done) | (exists 6; done) | (exists 7; done) | (exists 8; done) ].

Lemma res_of_is_res c : is_res (res_of c).
Proof. destruct c; resource. Qed.

(** ** Processes in pipelines *)

Fixpoint holds (r : Z) (l : list ProcessEntry) : Z :=
  match l with [] => 0 | p :: l => bit r (theReservations p) + holds r l end.

Definition items (p : Pipeline) : list ProcessEntry := fst <$> Fifo.theQueue p.

Fixpoint in_pipes (r : Z) (l : list Pipeline) : Z :=
  match l with [] => 0 | p :: l => holds r (items p) + in_pipes r l end.

Lemma holds_app r l l' : holds r (l ++ l') = holds r l + holds r l'.
Proof. induction l; cbn; lia. Qed.
Lemma holds_nonneg r l : 0 <= holds r l.
Proof. induction l as [|p l IH]; cbn; [done|]. pose proof (bit_range r (theReservations p)). lia. Qed.
Lemma in_pipes_nonneg r l : 0 <= in_pipes r l.
Proof. induction l as [|p l IH]; cbn; [done|]. pose proof (holds_nonneg r (items p)). lia. Qed.

Lemma in_pipes_insert r l i p p' :
  l !! i = Some p -> in_pipes r (<[i := p']> l) = in_pipes r l - holds r (items p) + holds r (items p').
Proof.
  revert i. induction l as [|x l IH]; intros [|i] E; [done|done| |].
  - injection E as ->. cbn. lia.
  - change (<[Datatypes.S i := p']> (x :: l)) with (x :: <[i := p']> l). cbn [in_pipes]. rewrite (IH i E). lia.
Qed.

Definition pipes_ok (K : ProcessEntry -> Prop) (l : list Pipeline) : Prop :=
  Forall (fun p => Fifo.fifo_ok p /\ Forall K (items p)) l.

Lemma pipes_ok_at K l i p : pipes_ok K l -> l !! i = Some p -> Fifo.fifo_ok p /\ Forall K (items p).
Proof. intros H E. by apply (Forall_lookup_1 _ _ _ _ H E). Qed.
Lemma pipes_ok_put K l i p :
  pipes_ok K l -> Fifo.fifo_ok p -> Forall K (items p) -> pipes_ok K (<[i := p]> l).
Proof. intros H F A. by apply Forall_insert. Qed.

(** What a protocol keeps between its own state and the blocks being evicted. *)
Class PolicyInvariant (S P : Type) : Type := policy_inv : P -> list (EB.EvictEntry S) -> Prop.

Section laws.
Context {S P : Type} `{IndexOrder} `{Policy S P} `{PolicyInvariant S P} (cfg : CacheConfig) (floor : BackChannel -> nat).
Implicit Types (w : Cache S P) (p : ProcessEntry) (a : Action).

Definition held (r : Z) w : Z :=
  in_pipes r (theMAFPipeline w) + in_pipes r (theTagPipeline w) + in_pipes r (theDataPipeline w).

Lemma held_nonneg r w : 0 <= held r w.
Proof using.
  unfold held. pose proof (in_pipes_nonneg r (theMAFPipeline w)).
  pose proof (in_pipes_nonneg r (theTagPipeline w)). pose proof (in_pipes_nonneg r (theDataPipeline w)). lia.
Qed.

(** What a kind of process reserves before it starts. *)
Definition start_mask (t : ProcessType) : Z :=
  let fso := kResFrontSideOut in
  let snoop := res_of (snoop_channel cfg) in
  match t with
  | eProcRequest => Z.lor (Z.lor (Z.lor kResBackSideOut_Request fso) kResEvictBuffer) kResMaf
  | eProcMAFWakeup => Z.lor (Z.lor fso kResBackSideOut_Request) kResEvictBuffer
  | eProcIProbe => Z.lor fso kResBackSideOut_Request
  | eProcSnoop => snoop
  | eProcBackReply => Z.lor fso snoop
  | eProcBackRequest => Z.lor (Z.lor fso kResSnoopBuffer) snoop
  | eProcWakeSnoop => Z.lor (Z.lor fso snoop) kResSnoopBuffer
  | eProcEviction => Z.lor (res_of (evict_channel cfg)) kResScheduledEvict
  | eProcIdleWork => Z.lor kResSnoopBuffer fso
  | eProcPrefetch | eProcNoMoreWork => 0
  end.

Definition started p : Prop :=
  theReservations p = start_mask (theType p) /\ theType p <> eProcPrefetch /\ theType p <> eProcNoMoreWork /\
  hasFrontMessage p = false /\ hasBackMessage p = false /\ theTransmitAfterTag p = false /\
  theRemoveMafEntry p = false.

(** What the messages of a process need, by the channel on which its kind sends. *)
Definition back_of (t : ProcessType) : option BackChannel :=
  match t with
  | eProcSnoop | eProcWakeSnoop | eProcBackRequest | eProcBackReply => Some (snoop_channel cfg)
  | eProcRequest | eProcIProbe | eProcMAFWakeup => Some BSO_Request
  | _ => None
  end.
Definition back_mask p : Z :=
  if hasBackMessage p then match back_of (theType p) with Some c => res_of c | None => 0 end else 0.
Definition front_mask p : Z := if hasFrontMessage p then kResFrontSideOut else 0.
Definition waits_for_reply (t : ProcessType) : Prop := t = eProcRequest \/ t = eProcMAFWakeup.

Definition ending p : Prop :=
  theTransmitAfterTag p = false /\ (hasBackMessage p = true -> back_of (theType p) <> None) /\
  (theRemoveMafEntry p = true -> theMafEntry p <> None) /\
  (theReservations p = Z.lor (front_mask p) (back_mask p) \/
   waits_for_reply (theType p) /\ theReservations p = Z.lor (Z.lor (front_mask p) (back_mask p)) kResEvictBuffer).

(** ** The laws of a protocol *)

(** Everything of the controller that a protocol does not touch. *)
Definition control w :=
  (theMAFPipeline w, theTagPipeline w, theDataPipeline w, theScheduledEvicts w, theFrontSideOutReserve w,
   theWakeMAFList w, theIProbeList w, SideIn w, BankSideIn w, FrontSideOut_I w, FrontSideOut_D w,
   BackSideOut w, lastQueue w, theLastTagPipeline w, theLastDataPipeline w, theLastScheduledBank w,
   cycleCount w).

Definition same_entry (e e' : MAF.MafEntry) : Prop :=
  MAF.maf_iter e = MAF.maf_iter e' /\ MAF.theBlockAddress e = MAF.theBlockAddress e' /\
  MAF.state e = MAF.state e' /\ MAF.type e = MAF.type e'.

Definition no_prefetch_reads w : Prop :=
  forall id m, store w !! id = Some m -> isPrefetchRead (Messages.theType (body m)) = false.

Definition body_of (t : Transport) w : option MemoryMessage := body <$> message_of t w.

(** An entry of the miss address file is kept under the block of its message. *)
Definition listed w (e : MAF.MafEntry) : Prop :=
  exists m, body_of (MAF.transport e) w = Some m /\ getBlockAddress (impl w) (theAddress m) = MAF.theBlockAddress e.

(** What holds of the messages, and of the protocol's own state. *)
Definition sound w : Prop :=
  no_prefetch_reads w /\ (forall id m, store w !! id = Some m -> id < next_message w) /\
  Forall (listed w) (MAF.theMshrs (theMaf w)) /\ policy_inv (impl w) (EB.theEvictions (theEvictBuffer w)).

(** A handler changes messages, its own state, the contents of the buffers, and of
    entries of the miss address file what the indices do not see. *)
Record handled w w' : Prop := {
  h_control : control w' = control w;
  h_maf : exists l, theMaf w' = MAF.set_mshrs l (theMaf w) /\ Forall2 same_entry (MAF.theMshrs (theMaf w)) l;
  h_evict : EB.theReserve (theEvictBuffer w') = EB.theReserve (theEvictBuffer w) /\
            EB.theSize (theEvictBuffer w') = EB.theSize (theEvictBuffer w);
  h_snoops : SB.theReserve (theSnoopBuffer w') = SB.theReserve (theSnoopBuffer w) /\
             SB.theSize (theSnoopBuffer w') = SB.theSize (theSnoopBuffer w);
  h_sound : sound w -> sound w';
}.

#[export] Instance same_entry_refl : Reflexive same_entry.
Proof using. by intros e. Qed.
#[export] Instance same_entry_trans : Transitive same_entry.
Proof using. intros x y z (A1 & A2 & A3 & A4) (B1 & B2 & B3 & B4). unfold same_entry. split_and!; congruence. Qed.

#[export] Instance handled_refl : Reflexive handled.
Proof using. intros w. split; try done. exists (MAF.theMshrs (theMaf w)). split; [|done]. by destruct w as [? ? ? ? []]. Qed.
#[export] Instance handled_trans : Transitive handled.
Proof using.
  intros w1 w2 w3 [C1 (l1 & M1 & F1) [E1 E2] [S1 S2] N1] [C2 (l2 & M2 & F2) [E3 E4] [S3 S4] N2]. split; try (split; congruence).
  - congruence.
  - exists l2. rewrite M1 in M2, F2. split; [exact M2|]. by etrans.
  - auto.
Qed.

Definition goes_front a : Prop :=
  theFrontMessage a = true -> theFrontToDCache a || theFrontToICache a = true.

Definition waiting (t : Transport) w : Prop :=
  forall m, body_of t w = Some m ->
    exists iter, MAF.getWaitingMAFEntryIter (getBlockAddress (impl w) (theAddress m)) (theMaf w) = Some iter.

Definition legal_request a : Prop :=
  match theAction a with
  | kSend | kInsertMAF_WaitResponse => theFrontMessage a = false /\ theBackMessage a = true
  | kInsertMAF_WaitAddress | kInsertMAF_WaitSnoop | kInsertMAF_WaitEvict | kInsertMAF_WaitRegion => True
  | kReplyAndInsertMAF_WaitResponse => theFrontMessage a = true /\ theBackMessage a = true
  | kInsertMAF_WaitProbe | kReplyAndRemoveMAF => theFrontMessage a = true
  | _ => False
  end.
Definition legal_back (t : Transport) w a : Prop :=
  match theAction a with
  | kSend => theFrontMessage a = true \/ theBackMessage a = true
  | kReplyAndRemoveResponseMAF => theFrontMessage a = true /\ waiting t w
  | kReplyAndRemoveMAF => theFrontMessage a = false /\ waiting t w
  | kReplyAndRetryMAF | kRetryRequest => waiting t w
  | kNoAction => True
  | _ => False
  end.
Definition legal_snoop a : Prop := theAction a = kNoAction \/ theAction a = kSend.
Definition legal_iprobe a : Prop :=
  theAction a = kInsertMAF_WaitSnoop \/ theAction a = kReplyAndRemoveMAF /\ theFrontMessage a = true.
Definition legal_idle a : Prop :=
  theAction a = kNoAction \/ theAction a = kSend /\ theFrontMessage a = true /\ theBackMessage a = false.

Definition usable a : Prop := 0 < theRequiresTag a /\ goes_front a.

(** A state of the protocol with the same blocks. *)
Definition similar (i i' : P) : Prop :=
  (forall x, getBlockAddress i' x = getBlockAddress i x) /\ forall l, policy_inv i l -> policy_inv i' l.
Definition keeps_blocks (policy_assert : string -> Prop) (f : P -> outcome P) (i : P) : Prop :=
  match f i with Done i' => similar i i' | Assert why => policy_assert why end.

(** The assertions that a protocol's own code may fail are [policy_assert]. *)
Class PolicyLaws (policy_assert : string -> Prop) : Prop := {
  law_request t b tracker w :
    sound w -> safe policy_assert (doRequest t b tracker)
      (fun r w' => handled w w' /\ usable r.2 /\ legal_request r.2) w;
  law_back t w :
    sound w -> safe policy_assert (handleBackMessage t)
      (fun a w' => handled w w' /\ usable a /\ legal_back t w' a) w;
  law_snoop t w :
    sound w -> safe policy_assert (handleSnoopMessage t) (fun a w' => handled w w' /\ usable a /\ legal_snoop a) w;
  law_iprobe b t w :
    sound w -> safe policy_assert (handleIprobe b t) (fun a w' => handled w w' /\ usable a /\ legal_iprobe a) w;
  law_wake_snoop t w :
    sound w -> safe policy_assert (handleWakeSnoop t) (fun a w' => handled w w' /\ usable a) w;
  law_idle t w :
    sound w -> safe policy_assert (handleIdleWork t) (fun a w' => handled w w' /\ usable a /\ legal_idle a) w;
  law_evict w :
    sound w -> safe policy_assert doEviction
      (fun a w' => handled w w' /\ (theAction a <> kNoAction -> theBackMessage a = true)) w;
  law_complete msg w : safe policy_assert (completeIdleWork msg) (fun _ w' => handled w w') w;
  (** Idle work holds a slot of the snoop buffer and one of the front side. *)
  law_idle_available w :
    idleWorkAvailable w = true -> isFrontSideOutFull w = false /\ fullSnoopBuffer w = false;
  law_idle_start p w :
    idleWorkAvailable w = true -> safe policy_assert (getIdleWorkMessage p)
      (fun r w' => exists w1, (p ← reserveSnoopBuffer p; reserveFrontSideOut p) w = Done (r.2, w1) /\ handled w1 w') w;
  law_idle_stop p a w :
    0 < SB.theReserve (theSnoopBuffer w) ->
    safe policy_assert (removeIdleWorkReservations p a)
      (fun p' w' => exists w1,
         (p ← unreserveSnoopBuffer p;
          if bool_decide (theAction a = kNoAction) then unreserveFrontSideOut p else mret p) w = Done (p', w1) /\
         handled w1 w') w;
  law_pending x i : keeps_blocks policy_assert (addPendingRequest x) i /\ keeps_blocks policy_assert (removePendingRequest x) i;
  law_array i :
    keeps_blocks policy_assert reserveArrayEvictResource i /\ keeps_blocks policy_assert unreserveArrayEvictResource i;
}.
(** ** The invariant *)

(** The queues of a vector have their counters right and nothing reserved. *)
Definition plain (q : Queue) : Prop := MQ.queue_ok 0 q.

Record shape w : Prop := {
  sh_banks : 0 < theBanks cfg;
  sh_cores : 0 < theCores cfg;
  sh_pipes : length (theMAFPipeline w) = Z.to_nat (theBanks cfg) /\
             length (theTagPipeline w) = Z.to_nat (theBanks cfg) /\
             length (theDataPipeline w) = Z.to_nat (theBanks cfg);
  sh_lists : length (theWakeMAFList w) = Z.to_nat (theBanks cfg) /\
             length (theIProbeList w) = Z.to_nat (theBanks cfg);
  sh_in : forall c, length (BankSideIn w c) = Z.to_nat (theBanks cfg) /\
                    length (SideIn w c) = match c with BackRequest | BackReply => 1%nat
                                          | _ => Z.to_nat (theCores cfg) end;
  sh_front : length (FrontSideOut_I w) = Z.to_nat (theCores cfg) /\
             length (FrontSideOut_D w) = Z.to_nat (theCores cfg);
  sh_evict : EB.theSize (theEvictBuffer w) < 2 ^ 32;
}.

Record res (m e : Z) w : Prop := {
  r_fso : theFrontSideOutReserve w = bit kResFrontSideOut m + held kResFrontSideOut w;
  r_room : forall q, q ∈ FrontSideOut_I w \/ q ∈ FrontSideOut_D w ->
    plain q /\ Z.of_nat (length (MQ.theQueue q)) + theFrontSideOutReserve w <= MQ.theSize q;
  r_back : forall c, MQ.queue_ok (bit (res_of c) m + held (res_of c) w) (BackSideOut w c);
  r_floor : forall c, (floor c <= length (MQ.theQueue (BackSideOut w c)))%nat;
  r_maf : MAF.maf_ok (bit kResMaf m + held kResMaf w) (theMaf w);
  r_sched : theScheduledEvicts w = bit kResScheduledEvict m + held kResScheduledEvict w;
  r_snoops : SB.theReserve (theSnoopBuffer w) = bit kResSnoopBuffer m + held kResSnoopBuffer w;
  r_evict : exists leaked, 0 <= leaked /\
    EB.theReserve (theEvictBuffer w) =
      uint32 (e + in_pipes kResEvictBuffer (theMAFPipeline w) +
              MAF.in_state kWaitResponse (MAF.theMshrs (theMaf w)) + leaked);
  r_in : forall c q, q ∈ SideIn w c \/ q ∈ BankSideIn w c -> plain q;
  r_prefetch : forall q, q ∈ SideIn w FrontPrefetch \/ q ∈ BankSideIn w FrontPrefetch -> MQ.theQueue q = [];
  r_started : pipes_ok started (theMAFPipeline w);
  r_tag : pipes_ok ending (theTagPipeline w);
  r_data : pipes_ok ending (theDataPipeline w);
  r_shape : shape w;
  r_sound : sound w;
}.

(** The assertions that the controller's own bookkeeping does not exclude: those of
    the protocol, misuse of the ports, references to what is gone, two processes on
    one entry, a woken snoop that finds the snoop buffer full, and, with several
    banks, a process that is not of the bank it was scheduled on. *)
Inductive outside (policy_assert : string -> Prop) : string -> Prop :=
  | out_policy why : policy_assert why -> outside policy_assert why
  | out_null : outside policy_assert "null message"
  | out_tracker : outside policy_assert "null tracker"
  | out_snoop_tracker : outside policy_assert "tracker != nullptr"
  | out_request : outside policy_assert "is NOT a Request message"
  | out_snoop_channel : outside policy_assert "!msg->usesSnoopChannel()"
  | out_write : outside policy_assert "isWrite not recognized"
  | out_probe : outside policy_assert "probe type"
  | out_core : outside policy_assert "coreIdx() >= 0 && coreIdx() < theCores"
  | out_stale : outside policy_assert "stale MAF iterator"
  | out_completed : outside policy_assert "mafEntry()->state == kCompleted"
  | out_kind : outside policy_assert "Illegal message type entered into MAF"
  | out_reply : outside policy_assert "kReplyAndRemoveMAF: action.theBackMessage"
  | out_wake : outside policy_assert "Unsupported Action type for IdleWorkProcess"
  | out_wake_full : outside policy_assert "(theCurSize + theReserve) < theSize"
  | out_bank : theBanks cfg <> 1 -> outside policy_assert "theServerReadyTimes.front() <= curr".

(** The pipelines and the time stay. *)
Definition same_pipes w w' : Prop :=
  theMAFPipeline w' = theMAFPipeline w /\ theTagPipeline w' = theTagPipeline w /\
  theDataPipeline w' = theDataPipeline w /\ cycleCount w' = cycleCount w.

#[export] Instance same_pipes_refl : Reflexive same_pipes.
Proof using. by intros w. Qed.
#[export] Instance same_pipes_trans : Transitive same_pipes.
Proof using. intros w1 w2 w3 (A1 & A2 & A3 & A4) (B1 & B2 & B3 & B4). unfold same_pipes. split_and!; congruence. Qed.

Lemma held_same r w w' : same_pipes w w' -> held r w' = held r w.
Proof using. unfold held. by intros (-> & -> & -> & _). Qed.

Lemma handled_same w w' : handled w w' -> same_pipes w w'.
Proof using. intros [C _ _ _ _]. unfold control in C. unfold same_pipes. by injection C as -> -> -> _ _ _ _ _ _ _ _ _ _ _ _ _ ->. Qed.

(** ** Taking and giving back *)

Section rules.
Context (pa : string -> Prop).

(** [m'] differs from [m] in the bit of [r] only, which is [b]. *)
Definition moved (r b m m' : Z) : Prop :=
  bit r m' = b /\ forall r', is_res r' -> r' <> r -> bit r' m' = bit r' m.

Lemma moved_drop r m : is_res r -> moved r 0 m (Z.land m (Z.lnot r)).
Proof using.
  intros Hr. split; [by rewrite bit_drop, Z.eqb_refl|]. intros r' Hr' N.
  rewrite bit_drop by done. by rewrite (proj2 (Z.eqb_neq _ _) N).
Qed.
Lemma moved_take r m : is_res r -> moved r 1 m (Z.lor m r).
Proof using.
  intros Hr. split; [by rewrite bit_take, Z.eqb_refl|]. intros r' Hr' N.
  rewrite bit_take by done. by rewrite (proj2 (Z.eqb_neq _ _) N).
Qed.

(** The bits of the other resources stay. *)
Ltac others Mv :=
  try (intros c; rewrite (proj2 Mv (res_of c)); [|apply res_of_is_res|by destruct c]; revert c);
  rewrite ?(proj2 Mv kResFrontSideOut) by first [resource|discriminate];
  rewrite ?(proj2 Mv kResMaf) by first [resource|discriminate];
  rewrite ?(proj2 Mv kResScheduledEvict) by first [resource|discriminate];
  rewrite ?(proj2 Mv kResSnoopBuffer) by first [resource|discriminate].

Lemma res_fso m m' b e w n :
  res m e w -> moved kResFrontSideOut b m m' ->
  n = theFrontSideOutReserve w + b - bit kResFrontSideOut m ->
  (forall q, q ∈ FrontSideOut_I w \/ q ∈ FrontSideOut_D w -> Z.of_nat (length (MQ.theQueue q)) + n <= MQ.theSize q) ->
  res m' e (set_theFrontSideOutReserve n w).
Proof using.
  intros R Mv -> F. destruct R as [Rf Rr Rb Rg Rm Rs Rn Re Ri Rp St Tg Dt Sh Rd]. split; others Mv; try done.
  - rewrite (proj1 Mv). cbn. change (held kResFrontSideOut (set_theFrontSideOutReserve _ w)) with (held kResFrontSideOut w). lia.
  - cbn. intros q Hq. split; [by apply Rr|]. by apply F.
  - by destruct Sh.
Qed.

Lemma res_back m m' b e w c q n :
  res m e w -> moved (res_of c) b m m' ->
  MQ.queue_ok n q -> (floor c <= length (MQ.theQueue q))%nat -> n = b + held (res_of c) w ->
  res m' e (set_BackSideOut (with_channel c q (BackSideOut w)) w).
Proof using.
  intros R Mv K Fl ->. destruct R as [Rf Rr Rb Rg Rm Rs Rn Re Ri Rp St Tg Dt Sh Rd].
  assert (N : forall r', is_res r' -> r' <> res_of c -> bit r' m' = bit r' m) by apply Mv.
  split; rewrite ?(N kResFrontSideOut), ?(N kResMaf), ?(N kResScheduledEvict), ?(N kResSnoopBuffer)
    by (resource || by destruct c); try done.
  - intros d. cbn. unfold with_channel. case_decide as D.
    + subst d. by rewrite (proj1 Mv).
    + rewrite N; [apply Rb|apply res_of_is_res|]. destruct c, d; done.
  - intros d. cbn. unfold with_channel. case_decide as D; [by subst d|apply Rg].
  - by destruct Sh.
Qed.

(** The slots of the evict buffer that entries give up may leak. *)
Lemma res_file m m' b e e' w f n :
  res m e w -> moved kResMaf b m m' ->
  MAF.maf_ok n f -> n = b + held kResMaf w ->
  e' + MAF.in_state kWaitResponse (MAF.theMshrs f) <= e + MAF.in_state kWaitResponse (MAF.theMshrs (theMaf w)) ->
  Forall (listed w) (MAF.theMshrs f) ->
  res m' e' (set_theMaf f w).
Proof using.
  intros R Mv K -> Ew Lf. destruct R as [Rf Rr Rb Rg Rm Rs Rn Re Ri Rp St Tg Dt Sh Rd]. split; others Mv; try done.
  - by rewrite (proj1 Mv).
  - destruct Re as (k & Hk & Ek).
    exists (k + (e + MAF.in_state kWaitResponse (MAF.theMshrs (theMaf w)) -
                 (e' + MAF.in_state kWaitResponse (MAF.theMshrs f)))).
    split; [lia|]. cbn. rewrite Ek. f_equal. lia.
  - by destruct Sh.
  - destruct Rd as (N & Fr & _ & Pi). by split_and!.
Qed.

Lemma r_listed m e w : res m e w -> Forall (listed w) (MAF.theMshrs (theMaf w)).
Proof using. intros R. apply (r_sound _ _ _ R). Qed.

Lemma res_maf m m' b e w f n :
  res m e w -> moved kResMaf b m m' ->
  MAF.maf_ok n f -> n = b + held kResMaf w ->
  MAF.in_state kWaitResponse (MAF.theMshrs f) = MAF.in_state kWaitResponse (MAF.theMshrs (theMaf w)) ->
  Forall (listed w) (MAF.theMshrs f) ->
  res m' e (set_theMaf f w).
Proof using. intros R Mv K En Ew Lf. by eapply res_file; [..|rewrite Ew|]. Qed.

Lemma res_sched m m' b e w n :
  res m e w -> moved kResScheduledEvict b m m' ->
  n = b + held kResScheduledEvict w -> res m' e (set_theScheduledEvicts n w).
Proof using.
  intros R Mv ->. destruct R as [Rf Rr Rb Rg Rm Rs Rn Re Ri Rp St Tg Dt Sh Rd]. split; others Mv; try done.
  - by rewrite (proj1 Mv).
  - by destruct Sh.
Qed.

Lemma res_snoops m m' b e w s :
  res m e w -> moved kResSnoopBuffer b m m' ->
  SB.theReserve s = b + held kResSnoopBuffer w -> res m' e (set_theSnoopBuffer s w).
Proof using.
  intros R Mv Es. destruct R as [Rf Rr Rb Rg Rm Rs Rn Re Ri Rp St Tg Dt Sh Rd]. split; others Mv; try done.
  - by rewrite (proj1 Mv).
  - by destruct Sh.
Qed.

(** The evict buffer's bit is accounted for apart from the mask. *)
Lemma res_evict m m' b e e' w s :
  res m e w -> moved kResEvictBuffer b m m' ->
  EB.theSize s < 2 ^ 32 -> EB.theEvictions s = EB.theEvictions (theEvictBuffer w) ->
  (exists leaked, 0 <= leaked /\
     EB.theReserve s = uint32 (e' + in_pipes kResEvictBuffer (theMAFPipeline w) +
                               MAF.in_state kWaitResponse (MAF.theMshrs (theMaf w)) + leaked)) ->
  res m' e' (set_theEvictBuffer s w).
Proof using.
  intros R Mv Ws Ev Es. destruct R as [Rf Rr Rb Rg Rm Rs Rn Re Ri Rp St Tg Dt Sh Rd]. split; others Mv; try done.
  - by destruct Sh.
  - destruct Rd as (N & Fr & L & Pi). split_and!; [done..|]. cbn. by rewrite Ev.
Qed.

Lemma res_impl m e w i :
  res m e w -> similar (impl w) i -> res m e (set_impl i w).
Proof using.
  intros [] [Hi Hp]. split; try done; [by destruct r_shape0|]. destruct r_sound0 as (N & Fr & L & Pi).
  split_and!; [done..| |by apply Hp]. eapply Forall_impl; [exact L|]. intros en (b & Eb & Ea). exists b. split; [done|]. cbn. by rewrite Hi.
Qed.

(** A state that agrees in everything the invariant mentions. *)
Lemma res_handled m e w w' : res m e w -> handled w w' -> res m e w'.
Proof using.
  intros R [C (l & Em & Fl) (Er & Es) (Sr & Ss) Hr]. unfold control in C. injection C as C1 C2 C3 C4 C5 C6 C7 C8 C9 C10 C11 C12 C13 C14 C15 C16 C17.
  assert (Hh : forall r, held r w' = held r w) by (intros r; apply held_same; done).
  assert (Ei : MAF.maf_iter <$> l = MAF.maf_iter <$> MAF.theMshrs (theMaf w)).
  { clear -Fl. induction Fl as [|x y l l' E _ IH]; [done|]. cbn. rewrite IH. by destruct E as (-> & _). }
  assert (El : length l = length (MAF.theMshrs (theMaf w))) by (symmetry; by eapply Forall2_length).
  assert (Et : forall t, MAF.of_type t l = MAF.of_type t (MAF.theMshrs (theMaf w))).
  { intros t. unfold MAF.of_type. f_equal. clear -Fl. induction Fl as [|x y l l' E _ IH]; [done|].
    rewrite !filter_cons. destruct E as (_ & _ & _ & ->). case_decide; cbn; by rewrite IH. }
  assert (Ew : forall s, MAF.in_state s l = MAF.in_state s (MAF.theMshrs (theMaf w))).
  { intros s. unfold MAF.in_state. f_equal. clear -Fl. induction Fl as [|x y l l' E _ IH]; [done|].
    rewrite !filter_cons. destruct E as (_ & _ & -> & _). case_decide; cbn; by rewrite IH. }
  destruct R as [Rf Rr Rb Rg Rm Rs Rn Re Ri Rp St Tg Dt Sh Rd].
  split; rewrite ?C1, ?C2, ?C3, ?C4, ?C5, ?C8, ?C9, ?C10, ?C11, ?Hh, ?Er, ?Sr, ?Em; auto.
  - intros c. rewrite C12, Hh. apply Rb.
  - intros c. rewrite C12. apply Rg.
  - destruct Rm as [U Fr Ct Wt R Ro Wd T N]. split; cbn; try done.
    + by rewrite Ei.
    + clear -Fl Fr. revert Fr. induction Fl as [|x y l l' E _ IH]; [done|]. intros [Hx Hl]%Forall_cons.
      apply Forall_cons. split; [|by apply IH]. by destruct E as (<- & _).
    + rewrite Ct. unfold MAF.counts. by rewrite !Et, El.
    + by rewrite Wt, Ew.
    + by rewrite El.
  - cbn. by rewrite Ew.
  - destruct Sh. split; rewrite ?C1, ?C2, ?C3, ?C6, ?C7, ?C8, ?C9, ?C10, ?C11, ?Es; done.
Qed.

(** *** The calls *)

(** There is room for one message at the front side, on every queue of a vector. *)
Definition free_in (qs : list Queue) w : Prop :=
  forall q, q ∈ qs -> Z.of_nat (length (MQ.theQueue q)) + theFrontSideOutReserve w < MQ.theSize q.

Local Abbreviation E := (outside pa).

Lemma front_bound m e w q :
  res m e w -> q ∈ FrontSideOut_I w \/ q ∈ FrontSideOut_D w ->
  0 <= theFrontSideOutReserve w /\ uint32 (theFrontSideOutReserve w) = theFrontSideOutReserve w /\
  MQ.full (uint32 (theFrontSideOutReserve w)) q =
    (MQ.theSize q <=? Z.of_nat (length (MQ.theQueue q)) + theFrontSideOutReserve w).
Proof using.
  intros R Hq. destruct (r_room _ _ _ R q Hq) as [K L]. pose proof (MQ.q_width _ _ K).
  assert (0 <= theFrontSideOutReserve w).
  { rewrite (r_fso _ _ _ R). pose proof (held_nonneg kResFrontSideOut w).
    pose proof (bit_range kResFrontSideOut m). lia. }
  assert (U : uint32 (theFrontSideOutReserve w) = theFrontSideOutReserve w) by (apply uint32_small; lia).
  split_and!; [done..|]. rewrite U, (MQ.full_ok 0) by (done || lia). f_equal. lia.
Qed.

Lemma safe_reserve_fso m e p (Q : ProcessEntry -> Cache S P -> Prop) w :
  res m e w -> bit kResFrontSideOut m = 0 -> isFrontSideOutFull w = false ->
  (let w1 := set_theFrontSideOutReserve (theFrontSideOutReserve w + 1) w in
   res (Z.lor m kResFrontSideOut) e w1 -> Q (process_reserve kResFrontSideOut p) w1) ->
  safe E (reserveFrontSideOut p) Q w.
Proof using.
  intros R B F K. apply K. eapply (res_fso m _ 1); [done|apply moved_take; resource|lia|].
  intros q Hq. destruct (front_bound m e w q R Hq) as (N & _ & Fq).
  assert (MQ.full (uint32 (theFrontSideOutReserve w)) q = false) as Fl.
  { unfold isFrontSideOutFull in F. apply orb_false_iff in F as [F1 F2].
    rewrite <-not_true_iff_false, existsb_exists in F1, F2. apply not_true_iff_false. intros T.
    destruct Hq as [Hq|Hq]; [apply F1|apply F2]; exists q; by rewrite <-list_elem_of_In. }
  rewrite Fq in Fl. apply Z.leb_gt in Fl. lia.
Qed.

Lemma safe_unreserve_fso m e p (Q : ProcessEntry -> Cache S P -> Prop) w :
  res m e w -> bit kResFrontSideOut m = 1 ->
  (let w1 := set_theFrontSideOutReserve (theFrontSideOutReserve w - 1) w in
   free_in (FrontSideOut_D w1) w1 -> free_in (FrontSideOut_I w1) w1 ->
   res (Z.land m (Z.lnot kResFrontSideOut)) e w1 -> Q (process_unreserve kResFrontSideOut p) w1) ->
  safe E (unreserveFrontSideOut p) Q w.
Proof using.
  intros R B K. apply K.
  1, 2: intros q Hq; cbn in Hq |- *; destruct (r_room _ _ _ R q) as [_ L]; [by auto|lia].
  eapply (res_fso m _ 0); [done|apply moved_drop; resource|lia|].
  intros q Hq. destruct (r_room _ _ _ R q Hq) as [_ L]. lia.
Qed.

Lemma safe_reserve_back c m e p (Q : ProcessEntry -> Cache S P -> Prop) w :
  res m e w -> bit (res_of c) m = 0 -> back_full c w = false ->
  (forall q, let w1 := set_BackSideOut (with_channel c q (BackSideOut w)) w in
   res (Z.lor m (res_of c)) e w1 -> Q (process_reserve (res_of c) p) w1) ->
  safe E (reserve_back c p) Q w.
Proof using.
  intros R B F K. destruct (MQ.reserve_ok _ _ (r_back _ _ _ R c) F) as (q & Eq & Ok & Em & _).
  unfold reserve_back, update_back. cbn. unfold safe, mbind, M_bind, gets, lift, modify. rewrite Eq.
  apply K. eapply (res_back m _ 1); [done|apply moved_take, res_of_is_res|exact Ok|rewrite Em; apply (r_floor _ _ _ R)|]. rewrite B. lia.
Qed.

Lemma safe_unreserve_back c m e p (Q : ProcessEntry -> Cache S P -> Prop) w :
  res m e w -> bit (res_of c) m = 1 ->
  (forall q, Z.of_nat (length (MQ.theQueue q)) + held (res_of c) w < MQ.theSize q ->
   let w1 := set_BackSideOut (with_channel c q (BackSideOut w)) w in
   res (Z.land m (Z.lnot (res_of c))) e w1 -> Q (process_unreserve (res_of c) p) w1) ->
  safe E (unreserve_back c p) Q w.
Proof using.
  intros R B K. pose proof (r_back _ _ _ R c) as Ok0. pose proof (held_nonneg (res_of c) w).
  destruct (MQ.unreserve_ok _ _ Ok0) as (q & Eq & Ok & Eqq & Es); [lia|].
  unfold unreserve_back, update_back. cbn. unfold safe, mbind, M_bind, gets, lift, modify. rewrite Eq.
  apply K.
  - rewrite Eqq, Es. destruct Ok0. lia.
  - eapply (res_back m _ 0); [done|apply moved_drop, res_of_is_res|exact Ok|rewrite Eqq; apply (r_floor _ _ _ R)|].
    rewrite B. lia.
Qed.

Lemma safe_reserve_maf m e p (Q : ProcessEntry -> Cache S P -> Prop) w :
  res m e w -> bit kResMaf m = 0 -> MAF.full (theMaf w) = false ->
  (forall f, let w1 := set_theMaf f w in
   res (Z.lor m kResMaf) e w1 -> Q (process_reserve kResMaf p) w1) ->
  safe E (reserveMAF p) Q w.
Proof using.
  intros R B F K. destruct (MAF.maf_reserve_ok _ _ (r_maf _ _ _ R) F) as (f & Eq & Ok & Em & _).
  unfold reserveMAF, update_maf. cbn. unfold safe, mbind, M_bind, gets, lift, modify. rewrite Eq.
  apply K. eapply (res_maf m _ 1); [done|apply moved_take; resource|exact Ok| |by rewrite Em|rewrite Em; by eapply r_listed]. rewrite B. lia.
Qed.

Lemma safe_unreserve_maf m e p (Q : ProcessEntry -> Cache S P -> Prop) w :
  res m e w -> bit kResMaf m = 1 ->
  (forall f, Z.of_nat (length (MAF.theMshrs f)) + held kResMaf w < MAF.theSize f ->
   let w1 := set_theMaf f w in
   res (Z.land m (Z.lnot kResMaf)) e w1 -> Q (process_unreserve kResMaf p) w1) ->
  safe E (unreserveMAF p) Q w.
Proof using.
  intros R B K. pose proof (r_maf _ _ _ R) as Ok0. pose proof (held_nonneg kResMaf w).
  destruct (MAF.maf_unreserve_ok _ _ Ok0) as (f & Eq & Ok & Em & Es); [lia|].
  unfold unreserveMAF, update_maf. cbn. unfold safe, mbind, M_bind, gets, lift, modify. rewrite Eq.
  apply K.
  - rewrite Em, Es. destruct Ok0. lia.
  - eapply (res_maf m _ 0); [done|apply moved_drop; resource|exact Ok| |by rewrite Em|rewrite Em; by eapply r_listed]. rewrite B. lia.
Qed.

Lemma safe_reserve_sched m e p (Q : ProcessEntry -> Cache S P -> Prop) w :
  res m e w -> bit kResScheduledEvict m = 0 ->
  (let w1 := set_theScheduledEvicts (theScheduledEvicts w + 1) w in
   res (Z.lor m kResScheduledEvict) e w1 -> Q (process_reserve kResScheduledEvict p) w1) ->
  safe E (reserveScheduledEvict p) Q w.
Proof using.
  intros R B K. apply K. eapply (res_sched m _ 1); [done|apply moved_take; resource|].
  rewrite (r_sched _ _ _ R), B. lia.
Qed.

Lemma safe_unreserve_sched m e p (Q : ProcessEntry -> Cache S P -> Prop) w :
  res m e w -> bit kResScheduledEvict m = 1 ->
  (let w1 := set_theScheduledEvicts (theScheduledEvicts w - 1) w in
   res (Z.land m (Z.lnot kResScheduledEvict)) e w1 -> Q (process_unreserve kResScheduledEvict p) w1) ->
  safe E (unreserveScheduledEvict p) Q w.
Proof using.
  intros R B K. apply K. eapply (res_sched m _ 0); [done|apply moved_drop; resource|].
  rewrite (r_sched _ _ _ R), B. lia.
Qed.

(** The snoop buffer is full only for the processes of woken snoops. *)
Lemma safe_reserve_snoop m e p (Q : ProcessEntry -> Cache S P -> Prop) w :
  res m e w -> bit kResSnoopBuffer m = 0 ->
  (forall s, let w1 := set_theSnoopBuffer s w in
   res (Z.lor m kResSnoopBuffer) e w1 -> Q (process_reserve kResSnoopBuffer p) w1) ->
  safe E (reserveSnoopBuffer p) Q w.
Proof using.
  intros R B K. unfold reserveSnoopBuffer, update_snoops. cbn.
  unfold safe, mbind, M_bind, gets, lift, modify, SB.reserve.
  destruct (_ <? _); [|apply out_wake_full].
  apply K. eapply (res_snoops m _ 1); [done|apply moved_take; resource|]. cbn.
  rewrite (r_snoops _ _ _ R), B. lia.
Qed.

Lemma safe_unreserve_snoop m e p (Q : ProcessEntry -> Cache S P -> Prop) w :
  res m e w -> bit kResSnoopBuffer m = 1 ->
  (forall s, let w1 := set_theSnoopBuffer s w in
   res (Z.land m (Z.lnot kResSnoopBuffer)) e w1 -> Q (process_unreserve kResSnoopBuffer p) w1) ->
  safe E (unreserveSnoopBuffer p) Q w.
Proof using.
  intros R B K. pose proof (held_nonneg kResSnoopBuffer w).
  unfold unreserveSnoopBuffer, update_snoops. cbn.
  unfold safe, mbind, M_bind, gets, lift, modify, SB.unreserve.
  rewrite (proj2 (Z.ltb_lt _ _)) by (rewrite (r_snoops _ _ _ R); lia).
  apply K. eapply (res_snoops m _ 0); [done|apply moved_drop; resource|]. cbn.
  rewrite (r_snoops _ _ _ R), B. lia.
Qed.

Lemma uint32_add x y : uint32 (uint32 x + y) = uint32 (x + y).
Proof using. apply Zplus_mod_idemp_l. Qed.
Lemma uint32_sub x y : uint32 (uint32 x - y) = uint32 (x - y).
Proof using. apply Zminus_mod_idemp_l. Qed.

Section array.
Context `{!PolicyLaws pa}.

Lemma safe_reserve_evict m e p (Q : ProcessEntry -> Cache S P -> Prop) w :
  res m e w -> fullEvictBuffer w = false ->
  (forall s i, let w1 := set_impl i (set_theEvictBuffer s w) in
   res (Z.lor m kResEvictBuffer) (e + 1) w1 -> Q (process_reserve kResEvictBuffer p) w1) ->
  safe E (reserveEvictBuffer p) Q w.
Proof using PolicyLaws0.
  intros R F K. unfold fullEvictBuffer in F. apply orb_false_iff in F as [F _].
  unfold EB.full in F. apply Z.leb_gt in F. pose proof (sh_evict _ (r_shape _ _ _ R)) as Wd.
  unfold reserveEvictBuffer, evict_reserve. cbn. unfold safe, mbind, M_bind, gets, lift, modify, EB.reserve.
  cbn [EB.theCurSize EB.theReserve].
  assert (Eq : uint32 (EB.theCurSize (theEvictBuffer w) + uint32 (EB.theReserve (theEvictBuffer w) + 1)) =
               uint32 (EB.theCurSize (theEvictBuffer w) + EB.theReserve (theEvictBuffer w)) + 1).
  { rewrite Z.add_comm, uint32_add.
    replace (EB.theReserve (theEvictBuffer w) + 1 + EB.theCurSize (theEvictBuffer w))
      with (EB.theCurSize (theEvictBuffer w) + EB.theReserve (theEvictBuffer w) + 1) by lia.
    rewrite <-uint32_add. apply uint32_small.
    pose proof (uint32_range (EB.theCurSize (theEvictBuffer w) + EB.theReserve (theEvictBuffer w))). lia. }
  rewrite Eq. rewrite (proj2 (Z.leb_le _ _)) by (cbn; lia). cbn.
  destruct (law_array (impl w)) as [La _]. unfold keeps_blocks in La.
  destruct (reserveArrayEvictResource (impl w)) as [i|why]; [|by apply out_policy].
  apply K. apply res_impl; [|exact La]. eapply (res_evict m _ 1 e); [done|apply moved_take; resource|done..|].
  destruct (r_evict _ _ _ R) as (k & Hk & Ek). exists k. split; [done|]. cbn. rewrite Ek, uint32_add.
  f_equal. lia.
Qed.

Lemma safe_evict_unreserve m e (Q : () -> Cache S P -> Prop) w :
  res m e w ->
  (forall s i, let w1 := set_impl i (set_theEvictBuffer s w) in
   (forall m', moved kResEvictBuffer (bit kResEvictBuffer m') m m' -> res m' (e - 1) w1) -> Q () w1) ->
  safe E evict_unreserve Q w.
Proof using PolicyLaws0.
  intros R K. unfold evict_unreserve. cbn. unfold safe, mbind, M_bind, gets, lift, modify.
  destruct (law_array (impl w)) as [_ La]. unfold keeps_blocks in La. cbn [impl set_theEvictBuffer].
  destruct (unreserveArrayEvictResource (impl w)) as [i|why]; [|by apply out_policy].
  apply K. intros m' Mv. apply res_impl; [|exact La]. eapply (res_evict m _ _ e); [done|done|apply (sh_evict _ (r_shape _ _ _ R))|done|].
  destruct (r_evict _ _ _ R) as (k & Hk & Ek). exists k. split; [done|]. cbn. rewrite Ek, uint32_sub.
  f_equal. lia.
Qed.

Lemma safe_unreserve_evict m e p (Q : ProcessEntry -> Cache S P -> Prop) w :
  res m e w ->
  (forall s i, let w1 := set_impl i (set_theEvictBuffer s w) in
   res (Z.land m (Z.lnot kResEvictBuffer)) (e - 1) w1 -> Q (process_unreserve kResEvictBuffer p) w1) ->
  safe E (unreserveEvictBuffer p) Q w.
Proof using PolicyLaws0.
  intros R K. apply safe_bind. eapply safe_evict_unreserve; [done|]. intros s i w1 R1. apply K, R1.
  destruct (moved_drop kResEvictBuffer m) as [_ Mv]; [resource|]. by split.
Qed.
End array.

(** Changes of what the invariant does not mention. *)
Lemma res_store m e w st : res m e w -> (sound w -> sound (set_store st w)) ->
  res m e (set_store st w).
Proof using. intros [] N. split; try done; [by destruct r_shape0|by apply N]. Qed.

Lemma safe_null {A} t (Q : A -> Cache S P -> Prop) (f : Message -> M (Cache S P) A) w :
  (forall msg, message_of t w = Some msg -> safe E (f msg) Q w) ->
  safe E (deref_message t ≫= f) Q w.
Proof using.
  intros K. apply safe_bind. unfold safe at 1, deref_message. destruct (message_of t w) as [msg|]; [by apply K|].
  apply out_null.
Qed.

(** A message is written over with one that differs in neither its block nor in
    whether it is a prefetch. *)
Lemma body_of_written id x w t :
  body_of t (set_store (<[id := x]> (store w)) w) =
  if decide (tMessage t = Some id) then Some (body x) else body_of t w.
Proof using.
  unfold body_of, message_of. cbn. destruct (tMessage t) as [i|]; cbn; [|done].
  destruct (decide (i = id)) as [->|N]; [by rewrite lookup_insert_eq, decide_True|].
  rewrite lookup_insert_ne, decide_False by congruence. done.
Qed.

Lemma listed_kept w w' e :
  impl w' = impl w ->
  (forall b, body_of (MAF.transport e) w = Some b -> exists b', body_of (MAF.transport e) w' = Some b' /\
     getBlockAddress (impl w) (theAddress b') = getBlockAddress (impl w) (theAddress b)) ->
  listed w e -> listed w' e.
Proof using.
  intros Ei K (b & Eb & Ea). destruct (K b Eb) as (b' & Eb' & Ea'). exists b'. split; [done|]. rewrite Ei, Ea'. done.
Qed.

Lemma sound_written id b x w :
  store w !! id = Some b ->
  getBlockAddress (impl w) (theAddress (body x)) = getBlockAddress (impl w) (theAddress (body b)) ->
  (isPrefetchRead (Messages.theType (body b)) = false -> isPrefetchRead (Messages.theType (body x)) = false) ->
  sound w -> sound (set_store (<[id := x]> (store w)) w).
Proof using.
  intros Eb Ea Et (N & Fr & L & Pi). split_and!; [..|done].
  - intros i y. cbn. destruct (decide (i = id)) as [->|Ni].
    + rewrite lookup_insert_eq. intros [= <-]. by apply Et, (N id).
    + rewrite lookup_insert_ne by done. apply N.
  - intros i y. cbn. destruct (decide (i = id)) as [->|Ni]; [intros _; by apply (Fr id b)|].
    rewrite lookup_insert_ne by done. apply Fr.
  - eapply Forall_impl; [exact L|]. intros e. apply listed_kept; [done|]. intros c Ec.
    rewrite body_of_written. case_decide as D; [|by exists c]. exists (body x). split; [done|].
    unfold body_of, message_of in Ec. rewrite D in Ec. cbn in Ec. rewrite Eb in Ec. cbn in Ec. congruence.
Qed.

(** A new message is written where there was none. *)
Lemma sound_new x w :
  isPrefetchRead (Messages.theType (body x)) = false -> sound w ->
  sound (set_store (<[next_message w := x]> (store w)) (set_next_message (next_message w + 1) w)).
Proof using.
  intros Et (N & Fr & L & Pi). split_and!; [..|done].
  - intros i y. cbn. destruct (decide (i = next_message w)) as [->|Ni].
    + rewrite lookup_insert_eq. by intros [= <-].
    + rewrite lookup_insert_ne by done. apply N.
  - intros i y. cbn. destruct (decide (i = next_message w)) as [->|Ni]; [lia|].
    rewrite lookup_insert_ne by done. intros Hy. specialize (Fr i y Hy). lia.
  - eapply Forall_impl; [exact L|]. intros e. apply listed_kept; [done|]. intros c Ec.
    exists c. split; [|done].
    change (body_of (MAF.transport e) (set_store (<[next_message w := x]> (store w)) w) = Some c).
    rewrite body_of_written. case_decide as D; [|done].
    unfold body_of, message_of in Ec. rewrite D in Ec. cbn in Ec.
    destruct (store w !! next_message w) as [m|] eqn:Em; [|done]. specialize (Fr _ _ Em). lia.
Qed.

Lemma safe_enqueue_back m e a p (Q : ProcessEntry -> Cache S P -> Prop) w :
  res m e w ->
  (forall st, let w1 := set_store st w in
   (forall t, body_of t w1 = body_of t w) -> res m e w1 -> Q (send_to_back a p) w1) ->
  safe E (enqueueBackTransport a p) Q w.
Proof using.
  intros R K. assert (K0 : Q (send_to_back a p) w).
  { specialize (K (store w)). cbn zeta in K. assert (Es : set_store (store w) w = w) by (by destruct w).
    rewrite Es in K. by apply K. }
  unfold enqueueBackTransport. apply safe_null. intros msg _. destruct (thePageWalk msg); [|done].
  apply safe_bind, safe_null. intros b Eb. destruct (tMessage (processBack (send_to_back a p))) as [id|] eqn:Ei; [|apply out_null].
  destruct (thePageWalk b); [done|]. unfold message_of in Eb. rewrite Ei in Eb. cbn in Eb.
  apply K.
  - intros t. rewrite body_of_written. case_decide as D; [|done]. unfold body_of, message_of. by rewrite D; cbn; rewrite Eb.
  - apply res_store; [done|]. by eapply sound_written.
Qed.

Lemma safe_pending (f : P -> outcome P) (Q : P -> Cache S P -> Prop) w :
  keeps_blocks pa f (impl w) ->
  (forall i, similar (impl w) i -> Q i w) -> safe E (lift (f (impl w))) Q w.
Proof using.
  intros F K. apply safe_lift_any. unfold keeps_blocks in F. destruct (f (impl w)); [by apply K|by apply out_policy].
Qed.

Lemma with_channel_same {C A} `{EqDecision C} (c : C) (x : A) f : with_channel c x f c = x.
Proof using. unfold with_channel. by rewrite decide_True. Qed.
Lemma with_channel_other {C A} `{EqDecision C} (c d : C) (x : A) f : d <> c -> with_channel c x f d = f d.
Proof using. intros N. unfold with_channel. by rewrite decide_False. Qed.

Lemma safe_send_back c t m e (Q : () -> Cache S P -> Prop) w :
  res m e w -> bit (res_of c) m = 0 ->
  Z.of_nat (length (MQ.theQueue (BackSideOut w c))) + held (res_of c) w < MQ.theSize (BackSideOut w c) ->
  (forall q, let w1 := set_BackSideOut (with_channel c q (BackSideOut w)) w in res m e w1 -> Q () w1) ->
  safe E (send_back c t) Q w.
Proof using.
  intros R B L K. pose proof (r_back _ _ _ R c) as Ok0. rewrite B, Z.add_0_l in Ok0.
  destruct (MQ.enqueue_ok _ (cycleCount w) t _ Ok0 L) as (q & Eq & Ok & Em & _).
  unfold send_back, update_back. cbn. unfold safe, mbind, M_bind, gets, lift, modify. rewrite Eq.
  apply K. eapply (res_back m m 0); [done|by split|exact Ok| |lia].
  pose proof (r_floor _ _ _ R c). rewrite Em, length_app. cbn. lia.
Qed.

Lemma in_insert (qs : list Queue) i q x : x ∈ <[i := q]> qs -> x = q \/ x ∈ qs.
Proof using.
  intros (j & Hj)%list_elem_of_lookup. destruct (decide (j = i)) as [->|N].
  - apply list_lookup_insert_Some in Hj as [(_ & <- & _)|(? & _)]; [by left|done].
  - rewrite list_lookup_insert_ne in Hj by done. right. by eapply list_elem_of_lookup_2.
Qed.

(** A vector of plain queues with one more message in one of them. *)
Lemma enqueue_at qs i now t :
  (forall q, q ∈ qs -> plain q /\ Z.of_nat (length (MQ.theQueue q)) < MQ.theSize q) ->
  0 <= i < Z.of_nat (length qs) ->
  exists q q', vec_at qs i = Done q /\ q ∈ qs /\ MQ.enqueue now t q = Done q' /\ plain q' /\
    MQ.theQueue q' = MQ.theQueue q ++ [(t, now)] /\ MQ.theSize q' = MQ.theSize q /\
    vec_put qs i q' = Done (<[Z.to_nat i := q']> qs).
Proof using.
  intros A Hi. destruct (vec_at_in qs i Hi) as (q & Eq & Ev). assert (Hq : q ∈ qs) by by eapply list_elem_of_lookup_2.
  destruct (A q Hq) as (Pq & Lq). destruct (MQ.enqueue_ok 0 now t q Pq) as (q' & Ee & Ok & Em & Es); [lia|].
  exists q, q'. split_and!; try done. by apply vec_put_in.
Qed.

Lemma res_front m e w (set : list Queue -> Cache S P -> Cache S P) qs :
  set = set_FrontSideOut_D \/ set = set_FrontSideOut_I ->
  res m e w -> length qs = Z.to_nat (theCores cfg) ->
  (forall q, q ∈ qs -> plain q /\ Z.of_nat (length (MQ.theQueue q)) + theFrontSideOutReserve w <= MQ.theSize q) ->
  res m e (set qs w).
Proof using.
  intros Hs [Rf Rr Rb Rg Rm Rs Rn Re Ri Rp St Tg Dt Sh Rd] L A.
  destruct Hs as [-> | ->]; split; try done; try (by destruct Sh as [? ? ? ? ? []]; split).
  - cbn. intros q [Hq|Hq]; [by apply Rr; left|by apply A].
  - cbn. intros q [Hq|Hq]; [by apply A|by apply Rr; right].
Qed.

Lemma safe_front_enqueue m e w (f : Cache S P -> list Queue) (set : list Queue -> Cache S P -> Cache S P) i t
    (Q : () -> Cache S P -> Prop) :
  f = FrontSideOut_D /\ set = set_FrontSideOut_D \/ f = FrontSideOut_I /\ set = set_FrontSideOut_I ->
  res m e w -> free_in (f w) w -> 0 <= i < theCores cfg ->
  (forall qs, res m e (set qs w) -> Q () (set qs w)) ->
  safe E (front_enqueue f set i t) Q w.
Proof using.
  intros Hf R F Hi K.
  assert (L : length (f w) = Z.to_nat (theCores cfg)).
  { destruct (sh_front _ (r_shape _ _ _ R)) as [? ?]. by destruct Hf as [[-> _]|[-> _]]. }
  assert (In : forall q, q ∈ f w -> q ∈ FrontSideOut_I w \/ q ∈ FrontSideOut_D w).
  { destruct Hf as [[-> _]|[-> _]]; auto. }
  assert (N : 0 <= theFrontSideOutReserve w).
  { rewrite (r_fso _ _ _ R). pose proof (held_nonneg kResFrontSideOut w).
    pose proof (bit_range kResFrontSideOut m). lia. }
  destruct (enqueue_at (f w) i (cycleCount w) t) as (q & q' & Ev & Hq & Ee & Pq & Em & Es & Ep).
  { intros q Hq. split; [by apply (r_room _ _ _ R), In|]. specialize (F q Hq). lia. }
  { rewrite L. lia. }
  unfold front_enqueue. cbn. unfold safe, mbind, M_bind, gets, lift, modify. rewrite Ev, Ee, Ep.
  apply K. apply res_front; [destruct Hf as [[_ ->]|[_ ->]]; auto|done|by rewrite length_insert|].
  intros x [->|Hx]%in_insert; [|by apply (r_room _ _ _ R), In]. split; [done|].
  rewrite Em, Es, length_app. cbn. specialize (F q Hq). lia.
Qed.

(** A copy of a message is of its kind. *)
Lemma safe_new_copy m e w msg x (Q : Z -> Cache S P -> Prop) t :
  res m e w -> message_of t w = Some msg -> Messages.theType (body x) = Messages.theType (body msg) ->
  (forall id st n, let w1 := set_store st (set_next_message n w) in res m e w1 -> Q id w1) ->
  safe E (new_message x) Q w.
Proof using.
  intros R Em Ex K. unfold new_message. cbn. unfold safe, mbind, M_bind, gets, modify.
  apply K. assert (Np : isPrefetchRead (Messages.theType (body x)) = false).
  { rewrite Ex. unfold message_of in Em. destruct (tMessage t) as [j|]; [|done].
    destruct (r_sound _ _ _ R) as (N & _). by apply (N j). }
  destruct R. split; try done; [by destruct r_shape0|]. exact (sound_new x w Np r_sound0).
Qed.

Lemma safe_sendFront m e w t to_D to_I (Q : () -> Cache S P -> Prop) :
  res m e w -> free_in (FrontSideOut_D w) w -> free_in (FrontSideOut_I w) w ->
  (forall w1, same_pipes w w1 -> res m e w1 -> Q () w1) ->
  safe E (sendFront cfg t to_D to_I) Q w.
Proof using.
  intros R FD FI K. unfold sendFront. apply safe_null. intros msg Em. cbn zeta.
  apply safe_bind, safe_assert; [intros _; apply out_core|]. intros [C1%Z.leb_le C2%Z.ltb_lt]%andb_true_iff.
  apply safe_bind. eapply safe_new_copy; [done|exact Em|done|]. intros id st n w1 R1. apply safe_bind.
  assert (K1 : forall qs, res m e (set_FrontSideOut_D qs w1) ->
    safe E (if to_I then front_enqueue FrontSideOut_I set_FrontSideOut_I (theCoreIdx (body msg))
              (mkTransport (Some id) (tTracker t)) else mret ()) Q (set_FrontSideOut_D qs w1)).
  { intros qs R2. destruct to_I; [|apply safe_ret, K; done].
    apply (safe_front_enqueue m e); [by right|done|exact FI|lia|]. intros qs' R3. by apply K. }
  destruct to_D.
  - apply (safe_front_enqueue m e); [by left|done|exact FD|lia|]. exact K1.
  - apply safe_ret. specialize (K1 (FrontSideOut_D w1)).
    assert (Es : set_FrontSideOut_D (FrontSideOut_D w1) w1 = w1) by done. rewrite Es in K1. by apply K1.
Qed.

(** *** The miss address file *)

Lemma moved_none r m : moved r (bit r m) m m.
Proof using. by split. Qed.

Lemma res_leak m e e' w : res m e w -> e' <= e -> res m e' w.
Proof using.
  intros R Le. assert (Es : set_theMaf (theMaf w) w = w) by by destruct w. rewrite <-Es.
  eapply res_file; [done|apply moved_none|exact (r_maf _ _ _ R)|done|lia|by eapply r_listed].
Qed.

(** The bit of the evict buffer is not accounted for in the mask. *)
Lemma res_evict_bit m m' e w :
  res m e w -> moved kResEvictBuffer (bit kResEvictBuffer m') m m' -> res m' e w.
Proof using.
  intros R Mv. assert (Es : set_theEvictBuffer (theEvictBuffer w) w = w) by by destruct w. rewrite <-Es.
  eapply res_evict; [done|done|apply (sh_evict _ (r_shape _ _ _ R))|done|exact (r_evict _ _ _ R)].
Qed.

Lemma safe_addressOf p (Q : Z -> Cache S P -> Prop) w :
  (forall msg, message_of (theOrig p) w = Some msg -> Q (getBlockAddress (impl w) (theAddress (body msg))) w) ->
  safe E (addressOf p) Q w.
Proof using. intros K. unfold addressOf. apply safe_null. intros msg Em. by apply K. Qed.

Lemma safe_alloc_maf s m e p (Q : () -> Cache S P -> Prop) w :
  res m e w -> bit kResMaf m = 0 ->
  Z.of_nat (length (MAF.theMshrs (theMaf w))) + held kResMaf w < MAF.theSize (theMaf w) ->
  (forall f, let w1 := set_theMaf f w in
     res m (if decide (s = kWaitResponse) then e - 1 else e) w1 -> Q () w1) ->
  safe E (alloc_maf s p) Q w.
Proof using.
  intros R B L K. unfold alloc_maf. apply safe_bind, safe_addressOf. intros msg Em. apply safe_bind.
  unfold message_type. apply safe_null. intros msg' Em'. rewrite Em in Em'. injection Em' as <-. apply safe_ret.
  pose proof (r_maf _ _ _ R) as Ok0. rewrite B, Z.add_0_l in Ok0.
  unfold update_maf. cbn. unfold safe, mbind, M_bind, gets, lift, modify.
  destruct (MAF.getType (Messages.theType (body msg))) as [k|why] eqn:Ek.
  2: { unfold MAF.allocEntry. rewrite (MAF.maf_full_ok _ _ Ok0), (proj2 (Z.leb_gt _ _)), Ek by lia.
       assert (why = "Illegal message type entered into MAF") as -> 
         by (clear -Ek; destruct (Messages.theType (body msg)); cbn in Ek; congruence).
       apply out_kind. }
  destruct (MAF.allocEntry_ok _ _ (getBlockAddress (impl w) (theAddress (body msg))) (theOrig p) _ s _ Ok0 Ek L)
    as (f & Eq & Ok & Em' & _).
  rewrite Eq. apply K.
  eapply res_file; [done|apply moved_none|exact Ok|lia| |].
  2: { rewrite Em'. apply Forall_app. split; [by eapply r_listed|]. apply Forall_singleton.
       exists (body msg). split; [|done]. cbn. unfold body_of. by rewrite Em. }
  rewrite Em', MAF.in_state_app, MAF.in_state_one. cbn [MAF.state MAF.newMafEntry]. case_decide; lia.
Qed.

Lemma in_state_change (l1 l2 : list MAF.MafEntry) x s :
  MAF.in_state kWaitResponse (l1 ++ MAF.set_maf_state s x :: l2) =
  MAF.in_state kWaitResponse (l1 ++ x :: l2) + (if decide (s = kWaitResponse) then 1 else 0) -
  (if decide (MAF.state x = kWaitResponse) then 1 else 0).
Proof using.
  change (x :: l2) with ([x] ++ l2). change (MAF.set_maf_state s x :: l2) with ([MAF.set_maf_state s x] ++ l2).
  rewrite !MAF.in_state_app, !MAF.in_state_one. cbn [MAF.state MAF.set_maf_state]. lia.
Qed.

Lemma listed_state w s x l1 l2 :
  Forall (listed w) (l1 ++ x :: l2) -> Forall (listed w) (l1 ++ MAF.set_maf_state s x :: l2).
Proof using. rewrite !Forall_app, !Forall_cons. tauto. Qed.

(** The entry whose state changes gives up its slot of the evict buffer, or takes
    one. *)
Lemma safe_modifyState iter s x m e (Q : () -> Cache S P -> Prop) w :
  res m e w -> MAF.deref iter (theMaf w) = Done x ->
  (forall f, let w1 := set_theMaf f w in
     res m (e + (if decide (MAF.state x = kWaitResponse) then 1 else 0) -
            (if decide (s = kWaitResponse) then 1 else 0)) w1 -> Q () w1) ->
  safe E (update_maf (MAF.modifyState iter s)) Q w.
Proof using.
  intros R D K. destruct (MAF.modifyState_ok _ _ iter s x (r_maf _ _ _ R) D) as (f & l1 & l2 & Eq & Ok & _ & El & El').
  unfold update_maf. cbn. unfold safe, mbind, M_bind, gets, lift, modify. rewrite Eq. apply K.
  eapply res_file; [done|apply moved_none|exact Ok|done| |]; [rewrite El', El, in_state_change; lia|].
  rewrite El'. eapply listed_state. rewrite <-El. by eapply r_listed.
Qed.

(** A process changes its entry, whatever state the entry is in. *)
Lemma safe_modify_maf s m e p (Q : () -> Cache S P -> Prop) w :
  res m e w ->
  (forall f, let w1 := set_theMaf f w in
     res m (if decide (s = kWaitResponse) then e - 1 else e) w1 -> Q () w1) ->
  safe E (modify_maf s p) Q w.
Proof using.
  intros R K. unfold modify_maf. destruct (theMafEntry p) as [iter|]; [|apply safe_fail, out_stale].
  destruct (MAF.deref iter (theMaf w)) as [x|why] eqn:D.
  - eapply safe_modifyState; [done|done|]. intros f w1 R1. apply K. eapply res_leak; [exact R1|].
    repeat case_decide; lia.
  - assert (why = "stale MAF iterator") as -> by (unfold MAF.deref in D; case_match; congruence).
    unfold update_maf. cbn. unfold safe, mbind, M_bind, gets, lift, MAF.modifyState. rewrite D. apply out_stale.
Qed.

Lemma safe_deref iter (Q : MAF.MafEntry -> Cache S P -> Prop) w :
  (forall x, MAF.deref iter (theMaf w) = Done x -> Q x w) -> safe E (lift (MAF.deref iter (theMaf w))) Q w.
Proof using.
  intros K. apply safe_lift_any. unfold MAF.deref in *. destruct (find_by _ _ _); [by apply K|apply out_stale].
Qed.

(** *** Lists and pipelines *)

Lemma getBank_range x : 0 < theBanks cfg -> 0 <= getBank cfg x < theBanks cfg.
Proof using. intros Hb. unfold getBank. by apply Z.mod_pos_bound. Qed.

Lemma res_wakes m e w l :
  res m e w -> length l = Z.to_nat (theBanks cfg) -> res m e (set_theWakeMAFList l w).
Proof using. intros [] L. split; try done. destruct r_shape0 as [? ? ? [? ?]]. by split. Qed.
Lemma res_iprobes m e w l :
  res m e w -> length l = Z.to_nat (theBanks cfg) -> res m e (set_theIProbeList l w).
Proof using. intros [] L. split; try done. destruct r_shape0 as [? ? ? [? ?]]. by split. Qed.

Lemma safe_list_at {A} (f : Cache S P -> list (list A)) i (Q : list A -> Cache S P -> Prop) w :
  length (f w) = Z.to_nat (theBanks cfg) -> 0 <= i < theBanks cfg ->
  (forall l, f w !! Z.to_nat i = Some l -> Q l w) -> safe E (list_at f i) Q w.
Proof using.
  intros L Hi K. destruct (vec_at_in (f w) i) as (l & El & Ev); [lia|].
  unfold list_at. cbn. unfold safe, mbind, M_bind, gets, lift. rewrite Ev. by apply K.
Qed.

Lemma safe_put_list {A} (f : Cache S P -> list (list A)) (set : list (list A) -> Cache S P -> Cache S P) i x
    (Q : () -> Cache S P -> Prop) w :
  length (f w) = Z.to_nat (theBanks cfg) -> 0 <= i < theBanks cfg ->
  Q () (set (<[Z.to_nat i := x]> (f w)) w) -> safe E (put_list f set i x) Q w.
Proof using.
  intros L Hi K. unfold put_list. cbn. unfold safe, mbind, M_bind, gets, lift, modify.
  rewrite vec_put_in; [done|lia].
Qed.

Lemma safe_enqueueWakeMaf x t m e (Q : () -> Cache S P -> Prop) w :
  res m e w -> (forall l, let w1 := set_theWakeMAFList l w in res m e w1 -> Q () w1) ->
  safe E (enqueueWakeMaf cfg x t) Q w.
Proof using.
  intros R K. destruct (sh_lists _ (r_shape _ _ _ R)) as [L _].
  pose proof (getBank_range x (sh_banks _ (r_shape _ _ _ R))) as B.
  unfold enqueueWakeMaf. cbn zeta. apply safe_bind, safe_list_at; [done..|]. intros l _.
  apply safe_put_list; [done..|]. apply K. apply res_wakes; [done|]. by rewrite length_insert.
Qed.

(** A pipeline of the bank has a server. *)
Definition avail_at (s : PipelineSet) i w : Prop :=
  exists pipe, pipes s w !! Z.to_nat i = Some pipe /\ Fifo.serverAvail (cycleCount w) pipe = Done true.
Definition free_at (s : PipelineSet) i w : nat :=
  match pipes s w !! Z.to_nat i with Some pipe => Fifo.free_servers (cycleCount w) pipe | None => 0%nat end.

(** What moves between the mask and the pipelines. *)
Definition shifted m m' w w' : Prop := forall r, is_res r -> held r w' + bit r m' = held r w + bit r m.

Lemma res_pipes m m' e e' w l1 l2 l3 :
  let w' := set_theMAFPipeline l1 (set_theTagPipeline l2 (set_theDataPipeline l3 w)) in
  res m e w -> shifted m m' w w' ->
  pipes_ok started l1 -> pipes_ok ending l2 -> pipes_ok ending l3 ->
  length l1 = Z.to_nat (theBanks cfg) /\ length l2 = Z.to_nat (theBanks cfg) /\
  length l3 = Z.to_nat (theBanks cfg) ->
  e' + in_pipes kResEvictBuffer l1 <= e + in_pipes kResEvictBuffer (theMAFPipeline w) ->
  res m' e' w'.
Proof using.
  intros w' [Rf Rr Rb Rg Rm Rs Rn Re Ri Rp St Tg Dt Sh Rd] Sf P1 P2 P3 L Le.
  assert (Sb : forall r, is_res r -> bit r m' + held r w' = bit r m + held r w).
  { intros r Hr. specialize (Sf r Hr). lia. }
  clear Sf. split; try done.
  - rewrite Sb by resource. done.
  - intros c. rewrite Sb by apply res_of_is_res. apply Rb.
  - rewrite Sb by resource. done.
  - rewrite Sb by resource. done.
  - rewrite Sb by resource. done.
  - destruct Re as (k & Hk & Ek).
    exists (k + (e + in_pipes kResEvictBuffer (theMAFPipeline w) - (e' + in_pipes kResEvictBuffer l1))).
    split; [lia|]. cbn. rewrite Ek. f_equal. lia.
  - destruct Sh. by split.
Qed.

(** What the processes of a set of pipelines satisfy, and whether the slots of the
    evict buffer that they hold are still theirs. *)
Inductive set_rule : @PipelineSet S P -> (ProcessEntry -> Prop) -> bool -> Prop :=
  | rule_MAF : set_rule MAF_pipes started true
  | rule_Tag : set_rule Tag_pipes ending false
  | rule_Data : set_rule Data_pipes ending false.

Lemma set_at s K c m e w i :
  set_rule s K c -> res m e w -> 0 <= i < theBanks cfg ->
  exists pipe, pipes s w !! Z.to_nat i = Some pipe /\ vec_at (pipes s w) i = Done pipe /\
    Fifo.fifo_ok pipe /\ Forall K (items pipe).
Proof using.
  intros Hs R Hi. destruct (sh_pipes _ (r_shape _ _ _ R)) as (L1 & L2 & L3).
  assert (pipes_ok K (pipes s w) /\ length (pipes s w) = Z.to_nat (theBanks cfg)) as [Ok L].
  { destruct Hs; cbn; (split; [apply R|done]). }
  destruct (vec_at_in (pipes s w) i) as (pipe & El & Ev); [lia|]. exists pipe. split_and!; [done..| |];
    by eapply pipes_ok_at.
Qed.

(** A pipeline is replaced by one with other processes. *)
Lemma res_set s K (c : bool) m m' e e' w i pipe pipe' :
  set_rule s K c -> res m e w -> pipes s w !! Z.to_nat i = Some pipe ->
  Fifo.fifo_ok pipe' -> Forall K (items pipe') ->
  (forall r, is_res r -> holds r (items pipe') + bit r m' = holds r (items pipe) + bit r m) ->
  e' = (if c then e + holds kResEvictBuffer (items pipe) - holds kResEvictBuffer (items pipe') else e) ->
  res m' e' (set_pipes s (<[Z.to_nat i := pipe']> (pipes s w)) w).
Proof using.
  intros Hs R El F A Sf ->. destruct (sh_pipes _ (r_shape _ _ _ R)) as (L1 & L2 & L3).
  pose proof (r_started _ _ _ R) as K1. pose proof (r_tag _ _ _ R) as K2. pose proof (r_data _ _ _ R) as K3.
  destruct Hs; cbn [pipes set_pipes MAF_pipes Tag_pipes Data_pipes] in El |- *;
    set (l := <[_ := pipe']> _); assert (Ll : length l = Z.to_nat (theBanks cfg)) by (unfold l; by rewrite length_insert);
    assert (Hl : forall r, in_pipes r l = _) by (intros r; apply in_pipes_insert, El).
  - apply (res_pipes m m' e _ w l (theTagPipeline w) (theDataPipeline w)); try done.
    + intros r Hr. unfold held. cbn. rewrite Hl. specialize (Sf r Hr). lia.
    + by apply pipes_ok_put.
    + rewrite Hl. lia.
  - apply (res_pipes m m' e _ w (theMAFPipeline w) l (theDataPipeline w)); try done.
    + intros r Hr. unfold held. cbn. rewrite Hl. specialize (Sf r Hr). lia.
    + by apply pipes_ok_put.
  - apply (res_pipes m m' e _ w (theMAFPipeline w) (theTagPipeline w) l); try done.
    + intros r Hr. unfold held. cbn. rewrite Hl. specialize (Sf r Hr). lia.
    + by apply pipes_ok_put.
Qed.

Lemma holds_one r p : holds r [p] = bit r (theReservations p).
Proof using. cbn. lia. Qed.

Lemma safe_pipe_enqueue s K (c : bool) i p n e (Q : () -> Cache S P -> Prop) w :
  set_rule s K c -> res (theReservations p) e w -> K p -> 0 <= i < theBanks cfg -> avail_at s i w ->
  (forall l, let w1 := set_pipes s l w in
     res 0 (if c then e - bit kResEvictBuffer (theReservations p) else e) w1 ->
     (n = 1 -> free_at s i w = Datatypes.S (free_at s i w1)) -> Q () w1) ->
  safe E (pipe_enqueue s i p n) Q w.
Proof using.
  intros Hs R Kp Hi (pipe & El & Av) Ok. destruct (set_at s K c _ _ _ i Hs R Hi) as (pipe0 & El0 & Ev & F & A).
  rewrite El in El0. injection El0 as <-.
  destruct (Fifo.fifo_enqueue_ok (cycleCount w) p n pipe F Av) as (pipe' & Eq & F' & Em).
  fold (items pipe) (items pipe') in Em.
  unfold pipe_enqueue, pipe_at, put_pipe. cbn. unfold safe, mbind, M_bind, gets, lift, modify.
  rewrite Ev, Eq, vec_put_in by (apply lookup_lt_Some in El; lia).
  apply Ok.
  - eapply res_set; [done|done|done|done| | |].
    + rewrite Em. apply Forall_app. split; [done|]. by apply Forall_singleton.
    + intros r _. rewrite Em, holds_app, holds_one, bit_zero. lia.
    + rewrite Em, holds_app, holds_one. destruct c; lia.
  - intros ->. unfold free_at. destruct Hs; cbn in El |- *; rewrite El, list_lookup_insert_eq
      by (by apply lookup_lt_Some in El); symmetry; by apply (Fifo.enqueue_takes _ p).
Qed.

(** The processes that wait in a pipeline. *)
Definition queued_at (s : PipelineSet) i w : nat :=
  match pipes s w !! Z.to_nat i with Some pipe => length (Fifo.theQueue pipe) | None => 0%nat end.

Definition head_at (s : PipelineSet) i w : option ProcessEntry :=
  pipe ← pipes s w !! Z.to_nat i; head (items pipe).

Lemma safe_pipe_dequeue s K (c : bool) i e (Q : ProcessEntry -> Cache S P -> Prop) w :
  set_rule s K c -> res 0 e w -> 0 <= i < theBanks cfg -> (0 < queued_at s i w)%nat ->
  (forall p l, let w1 := set_pipes s l w in K p -> head_at s i w = Some p ->
     res (theReservations p) (if c then e + bit kResEvictBuffer (theReservations p) else e) w1 ->
     (queued_at s i w1 < queued_at s i w)%nat -> Q p w1) ->
  safe E (pipe_dequeue s i) Q w.
Proof using.
  intros Hs R Hi Hq Ok. destruct (set_at s K c _ _ _ i Hs R Hi) as (pipe & El & Ev & F & A).
  unfold queued_at in Hq. rewrite El in Hq. destruct (Fifo.theQueue pipe) as [|[p t] rest] eqn:Eq; [cbn in Hq; lia|].
  destruct (Fifo.fifo_dequeue_ok pipe p t rest F Eq) as (pipe' & Ed & F' & Er & _).
  assert (Em : items pipe = p :: items pipe') by (unfold items; by rewrite Eq, Er).
  rewrite Em in A. apply Forall_cons in A as [Kp A'].
  unfold pipe_dequeue, pipe_at, put_pipe. cbn. unfold safe, mbind, M_bind, gets, lift, modify, mret, M_ret.
  rewrite Ev, Ed, vec_put_in by (apply lookup_lt_Some in El; lia).
  apply Ok; [done|unfold head_at; by rewrite El; cbn; rewrite Em| |].
  - eapply res_set; [done|done|done|done|done| |].
    + intros r _. rewrite Em. cbn. rewrite bit_zero. lia.
    + rewrite Em. cbn. destruct c; lia.
  - unfold queued_at. destruct Hs; cbn in El |- *; rewrite El, list_lookup_insert_eq
      by (by apply lookup_lt_Some in El); rewrite Eq, Er; cbn; lia.
Qed.

Lemma safe_pipe_avail s K c i m e (Q : bool -> Cache S P -> Prop) w :
  set_rule s K c -> res m e w -> 0 <= i < theBanks cfg ->
  (forall b, (b = true -> avail_at s i w) -> Q b w) -> safe E (pipe_avail s i) Q w.
Proof using.
  intros Hs R Hi Ok. destruct (set_at s K c _ _ _ i Hs R Hi) as (pipe & El & Ev & F & _).
  destruct (Fifo.serverAvail_total (cycleCount w) pipe F) as [b Eb].
  unfold pipe_avail, pipe_at. cbn. unfold safe, mbind, M_bind, gets, lift. rewrite Ev, Eb. apply Ok.
  intros ->. by exists pipe.
Qed.

Lemma safe_pipe_ready s K c i m e (Q : bool -> Cache S P -> Prop) w :
  set_rule s K c -> res m e w -> 0 <= i < theBanks cfg ->
  (forall b, (b = true -> 0 < queued_at s i w)%nat -> Q b w) -> safe E (pipe_ready s i) Q w.
Proof using.
  intros Hs R Hi Ok. destruct (set_at s K c _ _ _ i Hs R Hi) as (pipe & El & Ev & F & _).
  destruct (Fifo.ready_total (cycleCount w) pipe F) as (b & Eb & Nb).
  unfold pipe_ready, pipe_at. cbn. unfold safe, mbind, M_bind, gets, lift. rewrite Ev, Eb. apply Ok.
  intros ->. unfold queued_at. rewrite El. specialize (Nb eq_refl). destruct (Fifo.theQueue pipe); [done|cbn; lia].
Qed.
End rules.
End laws.

(** A mask of reservations, whichever channels snoop replies and evictions use. *)
Ltac mask :=
  first [reflexivity
    |unfold start_mask, snoop_channel;
     match goal with |- context [theUseReplyChannel ?c] => destruct (theUseReplyChannel c) end; reflexivity
    |unfold start_mask, evict_channel;
     match goal with |- context [theEvictOnSnoop ?c] => destruct (theEvictOnSnoop c) end; reflexivity].
