(* ===== verification/MesiInvariant.v ===== *)
(** * What the protocol InclusiveMESI keeps

    A block is valid in the tag array or waits in the evict buffer, never both; the
    states of both are modified, exclusive or shared, and every block of the evict
    buffer is there once.  [keeps c lk m R]: from a state in which the lookup [lk] is
    good, and with [c] the block is not in the evict buffer, [m] keeps this and leaves
    everything of the controller that the laws of CacheReservations.v name; [R] is what
    its result satisfies, with the lookup that is good afterwards. *)

From stdpp Require Import base gmap list strings fin_maps.
From Stdlib Require Import ZArith Lia.
From S2P Require Import Prelude Messages TimingQueues CacheBuffers MissAddressFile TagArray.
Import BlockState.
From S2P Require Import CacheController InclusiveMESI CacheReservations.

Local Open Scope Z_scope.

(** ** Blocks *)

(** The states of the protocol; no block is owned. *)
Definition mesi_state (s : State) : Prop :=
  Arr.st s = Modified \/ Arr.st s = Exclusive \/ Arr.st s = Shared \/ Arr.st s = Invalid.

(** An entry of the evict buffer: a valid block that is not in the array. *)
Definition evicted (a : Arr.StdArray) (e : EB.EvictEntry State) : Prop :=
  mesi_state (EB.theState e) /\ Arr.st (EB.theState e) <> Invalid /\
  Arr.peek a (EB.theBlockAddress e) = Invalid /\
  Arr.blockAddress a (EB.theBlockAddress e) = EB.theBlockAddress e /\ isEvictType (EB.theType e) = true.

Record blocks_ok (a : Arr.StdArray) (l : list (EB.EvictEntry State)) : Prop := {
  bo_array : Arr.array_ok a;
  bo_states : forall x, mesi_state (Arr.peek a x);
  bo_unique : NoDup (EB.theBlockAddress <$> l);
  bo_evicted : Forall (evicted a) l;
}.

#[export] Instance mesi_invariant : PolicyInvariant State MesiState := fun i l => blocks_ok (theArray i) l.

(** The block of [x] is not being evicted. *)
Definition not_evicted (a : Arr.StdArray) (x : Z) (l : list (EB.EvictEntry State)) : Prop :=
  forall e, e ∈ l -> EB.theBlockAddress e <> Arr.blockAddress a x.

Lemma eqb_spec (a b : State) : eqb a b = true <-> Arr.st a = Arr.st b.
Proof. rewrite Arr.eqb_st. apply Z.eqb_eq. Qed.

Lemma valid_not_evicted a l x :
  blocks_ok a l -> Arr.peek a x <> Invalid -> not_evicted a x l.
Proof.
  intros Ok N e He Ea. pose proof (bo_evicted _ _ Ok) as F. rewrite Forall_forall in F.
  destruct (F e He) as (_ & _ & Pe & Be & Te). apply N. rewrite <-Pe. apply Arr.peek_block; [apply Ok|].
  by rewrite Be.
Qed.

Lemma find_none a l x : find_by EB.theBlockAddress (Arr.blockAddress a x) l = None -> not_evicted a x l.
Proof. intros F%find_by_None e He Ea. apply F. rewrite <-Ea. by apply list_elem_of_fmap_2. Qed.

(** The block of [x] gets a state that it may have. *)
Lemma put_blocks_ok a a' l x v :
  blocks_ok a l -> Arr.array_ok a' -> Arr.same_geometry a a' -> mesi_state v ->
  (Arr.st v <> Invalid -> not_evicted a x l) ->
  (forall y, Arr.peek a' y = if decide (Arr.blockAddress a y = Arr.blockAddress a x) then Arr.st v else Arr.peek a y) ->
  blocks_ok a' l.
Proof.
  intros [Oa Os U F] Oa' G Mv Ne P. split; [done| |done|].
  - intros y. rewrite P. case_decide; [|done]. unfold mesi_state in *. by rewrite Arr.st_st.
  - rewrite Forall_forall in *. intros e He. destruct (F e He) as (Ms & Ns & Pe & Be & Te).
    split_and!; [done..| |by rewrite (Arr.same_block _ _ _ G)|done].
    rewrite P. case_decide as D; [|done]. destruct (decide (Arr.st v = Invalid)) as [|N]; [done|].
    destruct (Ne N e He). by rewrite <-D.
Qed.

(** Blocks leave the array. *)
Lemma fewer_blocks_ok a a' l :
  blocks_ok a l -> Arr.array_ok a' -> Arr.same_geometry a a' ->
  (forall y, Arr.peek a' y = Arr.peek a y \/ Arr.peek a' y = Invalid) -> blocks_ok a' l.
Proof.
  intros [Oa Os U F] Oa' G P. split; [done| |done|].
  - intros y. destruct (P y) as [-> | ->]; [done|]. by right; right; right.
  - eapply Forall_impl; [exact F|]. intros e (Ms & Ns & Pe & Be & Te). split_and!; [done..| |by rewrite (Arr.same_block _ _ _ G)|done].
    by destruct (P (EB.theBlockAddress e)) as [-> | ->].
Qed.

(** Entries leave the buffer. *)
Lemma evictions_removed a l (P : EB.EvictEntry State -> Prop) `{!forall e, Decision (P e)} :
  blocks_ok a l -> blocks_ok a (filter P l).
Proof.
  intros [Oa Os U F]. split; [done..| |].
  - eapply sublist_NoDup; [exact U|]. apply fmap_sublist. clear.
    induction l as [|e l IH]; [done|]. rewrite filter_cons. case_decide; by constructor.
  - rewrite Forall_forall in *. intros e [_ He]%list_elem_of_filter. by apply F.
Qed.

(** The entry of an address leaves. *)
Lemma removed_fields a (b : EB.EvictBuffer State) :
  EB.theReserve (EB.remove a b) = EB.theReserve b /\ EB.theSize (EB.remove a b) = EB.theSize b.
Proof. unfold EB.remove. by case_match. Qed.
Lemma removed_entries a (b : EB.EvictBuffer State) e :
  e ∈ EB.theEvictions (EB.remove a b) <-> e ∈ EB.theEvictions b /\ EB.theBlockAddress e <> a.
Proof.
  unfold EB.remove, EB.find. destruct (find_by _ _ _) as [e'|] eqn:Ef; cbn; [rewrite list_elem_of_filter; tauto|].
  split; [|tauto]. intros He. split; [done|]. intros Ea. apply find_by_None in Ef. apply Ef. rewrite <-Ea.
  by apply list_elem_of_fmap_2.
Qed.
Lemma removed_blocks_ok a x' b : blocks_ok a (EB.theEvictions b) -> blocks_ok a (EB.theEvictions (EB.remove x' b)).
Proof. intros Ok. unfold EB.remove. case_match; [|done]. by apply evictions_removed. Qed.

(** Entries change. *)
Lemma evictions_changed a l f :
  blocks_ok a l ->
  (forall e, e ∈ l -> EB.theBlockAddress (f e) = EB.theBlockAddress e /\
     (mesi_state (EB.theState e) -> Arr.st (EB.theState e) <> Invalid ->
      mesi_state (EB.theState (f e)) /\ Arr.st (EB.theState (f e)) <> Invalid) /\
     (isEvictType (EB.theType e) = true -> isEvictType (EB.theType (f e)) = true)) ->
  blocks_ok a (f <$> l).
Proof.
  intros [Oa Os U F] Hf. split; [done..| |].
  - replace (EB.theBlockAddress <$> (f <$> l)) with (EB.theBlockAddress <$> l); [done|].
    rewrite <-list_fmap_compose. apply list_fmap_ext. intros i e He. cbn.
    symmetry. by apply Hf; eapply list_elem_of_lookup_2.
  - rewrite Forall_forall in *. intros e' (e & -> & He)%list_elem_of_fmap. destruct (F e He) as (Ms & Ns & Pe & Be & Te).
    destruct (Hf e He) as (Ea & Es & Et). unfold evicted. rewrite Ea. destruct (Es Ms Ns). split_and!; auto.
Qed.

(** A block that has left the array enters the buffer. *)
Lemma evictions_added a b x t s ev :
  blocks_ok a (EB.theEvictions b) -> mesi_state s -> Arr.st s <> Invalid ->
  Arr.peek a x = Invalid -> Arr.blockAddress a x = x -> isEvictType t = true ->
  blocks_ok a (EB.theEvictions (EB.allocEntry x t s ev b)).
Proof.
  intros Ok Ms Ns Px Bx Tx. unfold EB.allocEntry, EB.find. destruct (find_by _ _ _) as [e|] eqn:Ef.
  - apply evictions_changed; [done|]. intros e' He. by destruct (EB.theBlockAddress e' =? x).
  - destruct Ok as [Oa Os U F]. split; [done..| |].
    + cbn. rewrite fmap_app. apply NoDup_app. split_and!; [done| |apply NoDup_singleton].
      apply find_by_None in Ef. by intros y Hy ->%list_elem_of_singleton.
    + cbn. apply Forall_app. split; [done|]. by apply Forall_singleton.
Qed.

Lemma added_entries x t s ev (b : EB.EvictBuffer State) e :
  e ∈ EB.theEvictions (EB.allocEntry x t s ev b) ->
  EB.theBlockAddress e = x \/ exists e', e' ∈ EB.theEvictions b /\ EB.theBlockAddress e = EB.theBlockAddress e'.
Proof.
  unfold EB.allocEntry. destruct (EB.find x b); cbn.
  - intros (e' & -> & He)%list_elem_of_fmap. right. exists e'. split; [done|]. by case_match.
  - rewrite elem_of_app, list_elem_of_singleton. intros [He | ->]; [right; by exists e|by left].
Qed.
Lemma added_fields x t s ev (b : EB.EvictBuffer State) :
  EB.theReserve (EB.allocEntry x t s ev b) = EB.theReserve b /\ EB.theSize (EB.allocEntry x t s ev b) = EB.theSize b.
Proof. unfold EB.allocEntry. by case_match. Qed.

(** ** Work on one block *)

(** The assertions of the protocol's code that nothing here excludes: messages of types
    or in states that the handlers do not expect, references to nothing, and an array
    whose set is all protected. *)
Definition mesi_assertions : list string :=
  ["null message"; "null tracker"; "null block"; "std_lookup->valid()"; "stale MAF iterator";
   "All blocks in the set are protected and valid."; "false"; "can NOT allocate block";
   "theArray->canAllocate(lookup, getBlockAddress(msg->address()))"; "iterator past the end";
   "iter != theRequestHash.end()"; "theCurSize < theSize"; "?!?!? What happened?"; "cache received Upgrade request";
   "Got invalid message"; "received in Invalidate"; "isWrite not recognized";
   "!waiting_maf || original_miss->isWrite()";
   "Expected MAF to be Upgrade for block NOT in modified state"; "Expected MAF to be Store/StorePrefetch/Cmpx/RMW";
   "Expected MAF to be Store for block NOT in modified state"; "from_eb"; "iter != theMaf.end()";
   "# of outstanding msgs after receiveing miss notify is 0"; "received miss notify but data in evict buffer.";
   "result->state() != State::Invalid"; "received miss notify with no outstanding request";
   "received MissNotify while wrong type of message was waiting."; "received unexpected reply";
   "received MissReply in response to outstanding write"; "received FwdReply in response to outstanding write";
   "!from_eb"; "Shared should not recieve dirty reply";
   "Should not have reached no outstanding msgs while still Invalid";
   "Received reply to fetch req but block not invalid"; "Received invalid reply to a fetch request";
   "Received reply to read req but block not invalid"; "Received invalid reply to a read request";
   "theCacheLevel == eL1"; "What??";
   "# of outstanding msgs after receiveing miss notify is 0, but we don't have data yet.";
   "received reply to upgrade with block in invalid state"; "UpgradeReq received unexpected reply";
   "msg->type() == NonAllocatingStoreReply"; "MAF entry has un-expected type."; "tracker->fillLevel()";
   "Fill Level NOT set in reply"; "received reply with no corresponding miss";
   "Received unexpected message type on back side"; "evEntry != theEvictBuffer.end()";
   "Unknown message type in snoop buffer"; "received snoop reply but no waiting snoops";
   "evEntry->type() != MemoryMessage::EvictDirty"; "received dirty evict for block"; "msg->usesSnoopChannel()";
   "Invalid message processed in handleSnoopMessage"; "lookup->state() != State::Invalid";
   "snp == theSnoopBuffer.end()"; "theCurSize > index"; "iter->evictable()"]%string.
Definition mesi_assert (why : string) : Prop := bool_decide (why ∈ mesi_assertions) = true.

Section work.
Context `{IndexOrder} (mc : MesiConfig).
Context (others_fill : Transport -> option tFillLevel) (originatorLevel : Z -> option tFillLevel).

#[local] Instance mesi_policy : Policy State MesiState := InclusiveMESI mc others_fill originatorLevel.

Local Abbreviation W := (Cache State MesiState).
Local Abbreviation array w := (theArray (impl w)).
Local Abbreviation evictions w := (EB.theEvictions (theEvictBuffer w)).

(** From [w0] on, the message of [t] is about the block of [x]. *)
Context (w0 : W) (t : Transport) (x : Z).
Implicit Types (w : W) (lk : Arr.LookupResult) (c : bool).

Record work lk c w : Prop := {
  wk_handled : handled w0 w;
  wk_sound : sound w;
  wk_geometry : Arr.same_geometry (array w0) (array w);
  wk_message : forall b, body_of t w = Some b -> Arr.blockAddress (array w) (theAddress b) = Arr.blockAddress (array w) x;
  wk_old : forall id, tMessage t = Some id -> id < next_message w;
  wk_handle : Arr.handle (array w) x lk;
  wk_clear : c = true -> not_evicted (array w) x (evictions w);
}.

Lemma wk_blocks lk c w : work lk c w -> blocks_ok (array w) (evictions w).
Proof using. intros K. apply (wk_sound _ _ _ K). Qed.

Lemma wk_array lk c w : work lk c w -> Arr.array_ok (array w).
Proof using. intros K. eapply bo_array, wk_blocks, K. Qed.

Lemma work_weaken lk c w : work lk true w -> work lk c w.
Proof using. intros []. split; auto. Qed.

(** The lookup of a valid block has nothing to do with the evict buffer. *)
Lemma work_valid lk c w : Arr.peek (array w) x <> Invalid -> work lk c w -> work lk true w.
Proof using. intros N K. pose proof (wk_blocks _ _ _ K) as Ok. destruct K. split; try done. intros _. by eapply valid_not_evicted. Qed.

(** *** What a step changes *)

Lemma handled_impl w i : (sound w -> sound (set_impl i w)) -> handled w (set_impl i w).
Proof using.
  intros N. destruct (reflexivity (R:=handled) w) as [C M E S _]. by split.
Qed.

Lemma sound_impl w i :
  Arr.same_geometry (array w) (theArray i) -> blocks_ok (theArray i) (evictions w) -> sound w -> sound (set_impl i w).
Proof using.
  intros G Ok (N & Fr & L & _). split_and!; [done..| |done]. eapply Forall_impl; [exact L|].
  intros e (b & Eb & Ea). exists b. split; [done|]. rewrite <-Ea. by apply Arr.same_block.
Qed.

(** The protocol's own state changes. *)
Lemma work_impl lk lk' c w i :
  work lk c w -> Arr.same_geometry (array w) (theArray i) -> blocks_ok (theArray i) (evictions w) ->
  Arr.handle (theArray i) x lk' -> work lk' c (set_impl i w).
Proof using.
  intros [Hh So G M O Hd C] G' Ok Hd'. assert (N : sound w -> sound (set_impl i w)) by by apply sound_impl.
  assert (B : forall y, Arr.blockAddress (theArray i) y = Arr.blockAddress (array w) y) by (intros y; by apply Arr.same_block).
  split; [|by apply N|by etrans| |done|done|].
  - etrans; [exact Hh|]. by apply handled_impl.
  - intros b Eb. change (Arr.blockAddress (theArray i) (theAddress b) = Arr.blockAddress (theArray i) x).
    rewrite !B. by apply M.
  - intros Hc e He. change (EB.theBlockAddress e <> Arr.blockAddress (theArray i) x). rewrite B. by apply C.
Qed.

(** The evict buffer changes. *)
Lemma work_evict lk c c' w b :
  work lk c w -> EB.theReserve b = EB.theReserve (theEvictBuffer w) -> EB.theSize b = EB.theSize (theEvictBuffer w) ->
  blocks_ok (array w) (EB.theEvictions b) -> (c' = true -> not_evicted (array w) x (EB.theEvictions b)) ->
  work lk c' (set_theEvictBuffer b w).
Proof using.
  intros [Hh So G M O Hd C] Er Es Ok Ne.
  assert (N : sound w -> sound (set_theEvictBuffer b w)) by by intros (? & ? & ? & _).
  split; try done; [|by apply N]. etrans; [exact Hh|].
  destruct (reflexivity (R:=handled) w) as [? Hm He Hs _]. by split.
Qed.

(** The snoop buffer changes. *)
Lemma work_snoops lk c w b :
  work lk c w -> SB.theReserve b = SB.theReserve (theSnoopBuffer w) -> SB.theSize b = SB.theSize (theSnoopBuffer w) ->
  work lk c (set_theSnoopBuffer b w).
Proof using.
  intros [Hh So G M O Hd C] Er Es. split; try done. etrans; [exact Hh|].
  destruct (reflexivity (R:=handled) w) as [? Hm He Hs _]. by split.
Qed.

(** Fields of an entry of the miss address file that are not in an index change. *)
Lemma work_maf lk c w iter f :
  (forall e, same_entry e (f e) /\ MAF.transport (f e) = MAF.transport e) ->
  work lk c w -> work lk c (set_theMaf (MAF.alter iter f (theMaf w)) w).
Proof using.
  intros Hf [Hh So G M Hd C]. set (g := fun e => if MAF.maf_iter e =? iter then f e else e).
  assert (Hg : forall e, same_entry e (g e) /\ MAF.transport (g e) = MAF.transport e).
  { intros e. unfold g. case_match; [apply Hf|by split]. }
  assert (N : sound w -> sound (set_theMaf (MAF.alter iter f (theMaf w)) w)).
  { intros (N & Fr & L & Pi). split_and!; [done..| |done]. cbn. fold g. rewrite Forall_fmap.
    eapply Forall_impl; [exact L|]. intros e (b & Eb & Ea). destruct (Hg e) as [(_ & Ba & _) Et]. exists b. cbn.
    by rewrite Et, <-Ba. }
  split; try done; [|by apply N]. etrans; [exact Hh|].
  destruct (reflexivity (R:=handled) w) as [? _ He Hs _]. split; try done.
  exists (g <$> MAF.theMshrs (theMaf w)). split; [done|]. clear -Hg. clearbody g.
  generalize (MAF.theMshrs (theMaf w)). intros l. induction l as [|e l IH]; constructor; [apply Hg|done].
Qed.

(** A message changes, not its block. *)
Lemma work_store lk c w id b b' :
  work lk c w -> store w !! id = Some b ->
  Arr.blockAddress (array w) (theAddress (body b')) = Arr.blockAddress (array w) (theAddress (body b)) ->
  (isPrefetchRead (Messages.theType (body b)) = false -> isPrefetchRead (Messages.theType (body b')) = false) ->
  work lk c (set_store (<[id := b']> (store w)) w).
Proof using.
  intros [Hh So G M O Hd C] Eb Ea Et.
  assert (N : sound w -> sound (set_store (<[id := b']> (store w)) w)) by by eapply sound_written.
  split; try done; [| by apply N |].
  - etrans; [exact Hh|]. destruct (reflexivity (R:=handled) w) as [? Hm He Hs _]. by split.
  - intros m Em. rewrite body_of_written in Em. case_decide as D; [|by apply M]. injection Em as <-.
    transitivity (Arr.blockAddress (array w) (theAddress (body b))); [exact Ea|]. apply M. unfold body_of, message_of. rewrite D. cbn. by rewrite Eb.
Qed.

(** A message is new. *)
Lemma work_new lk c w b :
  isPrefetchRead (Messages.theType (body b)) = false -> work lk c w ->
  work lk c (set_store (<[next_message w := b]> (store w)) (set_next_message (next_message w + 1) w)).
Proof using.
  intros Np [Hh So G M O Hd C].
  assert (N := sound_new b w Np). split; try done; [| by apply N | |].
  - etrans; [exact Hh|]. destruct (reflexivity (R:=handled) w) as [? Hm He Hs _]. by split.
  - intros m Em. apply M. change (body_of t (set_store (<[next_message w := b]> (store w)) w) = Some m) in Em.
    rewrite body_of_written, decide_False in Em; [done|]. intros Et. specialize (O _ Et). lia.
  - intros i Ei. specialize (O i Ei). cbn. lia.
Qed.

(** *** Steps *)

Local Abbreviation E := mesi_assert.

Definition keeps c lk {A} (m : M W A) (R : A -> Arr.LookupResult -> Prop) : Prop :=
  forall w, work lk c w -> safe E m (fun a w' => exists lk', R a lk' /\ work lk' c w') w.
Definition stays c lk {A} (m : M W A) : Prop := keeps c lk m (fun _ lk' => lk' = lk).

Lemma keeps_ret {A} c lk (a : A) (R : A -> Arr.LookupResult -> Prop) : R a lk -> keeps c lk (mret a) R.
Proof using. intros Ra w K. apply safe_ret. by exists lk. Qed.

Lemma keeps_mono {A} c lk (m : M W A) (R R' : A -> Arr.LookupResult -> Prop) :
  keeps c lk m R -> (forall a lk', R a lk' -> R' a lk') -> keeps c lk m R'.
Proof using. intros Hm HR w K. eapply safe_mono; [by apply Hm|]. intros a w' (lk' & Ra & K'). exists lk'. auto. Qed.

Lemma keeps_bind {A B} c lk (m : M W A) (f : A -> M W B) R R' :
  keeps c lk m R -> (forall a lk', R a lk' -> keeps c lk' (f a) R') -> keeps c lk (m ≫= f) R'.
Proof using.
  intros Hm Hf w K. apply safe_bind. eapply safe_mono; [by apply Hm|]. intros a w' (lk' & Ra & K'). by apply (Hf a lk').
Qed.

Lemma keeps_then {A B} c lk (m : M W A) (f : A -> M W B) R :
  stays c lk m -> (forall a, keeps c lk (f a) R) -> keeps c lk (m ≫= f) R.
Proof using. intros Hm Hf. eapply keeps_bind; [exact Hm|]. intros a lk' ->. apply Hf. Qed.

Lemma keeps_ret_bind {A B} c lk (a : A) (f : A -> M W B) R : keeps c lk (f a) R -> keeps c lk (mret a ≫= f) R.
Proof using. intros Hf w K. by apply Hf. Qed.

Lemma keeps_assoc {A B C} c lk (m : M W A) (g : A -> M W B) (f : B -> M W C) R :
  keeps c lk (a ← m; b ← g a; f b) R -> keeps c lk ((m ≫= g) ≫= f) R.
Proof using.
  intros Hm w K. specialize (Hm w K). unfold safe, mbind, M_bind in *. by destruct (m w) as [[a w1]|].
Qed.

Lemma keeps_fail {A} c lk why (R : A -> Arr.LookupResult -> Prop) : E why -> keeps c lk (dbg_fail why) R.
Proof using. intros Hw w _. by apply safe_fail. Qed.

Lemma keeps_assert {B} c lk b why (f : () -> M W B) R :
  E why -> (b = true -> keeps c lk (f ()) R) -> keeps c lk (dbg_assert b why ≫= f) R.
Proof using. intros Hw Hf w K. apply safe_bind, safe_assert; [done|]. intros Hb. by apply Hf. Qed.

Lemma stays_assert c lk b why : E why -> stays c lk (dbg_assert b why).
Proof using. intros Hw w K. apply safe_assert; [done|]. intros _. by exists lk. Qed.

Lemma keeps_lift {A B} c lk (o : outcome A) (f : A -> M W B) R :
  (forall why, o = Assert why -> E why) -> (forall a, o = Done a -> keeps c lk (f a) R) -> keeps c lk (lift o ≫= f) R.
Proof using. intros Hw Hf w K. apply safe_bind, safe_lift_any. destruct o as [a|why]; [by apply Hf|by apply Hw]. Qed.

Lemma keeps_gets {A} c lk (g : W -> A) : stays c lk (gets g).
Proof using. intros w K. apply safe_gets. by exists lk. Qed.

(** What is read decides whether the block may be in the evict buffer. *)
Lemma keeps_state {B} c lk (f : State -> M W B) R :
  (forall v, eqb v Invalid = true -> keeps c lk (f v) R) ->
  (forall v, eqb v Invalid = false -> keeps true lk (f v) R) -> keeps c lk (block_state lk ≫= f) R.
Proof using.
  intros Hi Hv w K. apply safe_bind. unfold block_state, array_get. apply safe_bind, safe_gets, safe_lift_any.
  destruct (Arr.handle_state _ _ _ (wk_array _ _ _ K) (wk_handle _ _ _ K)) as (v & -> & Ev).
  destruct (eqb v Invalid) eqn:Eq; [by apply Hi|]. eapply safe_mono; [apply Hv; [done|]|].
  - eapply work_valid; [|exact K]. intros Pe. rewrite Pe in Ev.
    assert (eqb v Invalid = true); [|congruence]. apply eqb_spec. rewrite Ev. by destruct (Arr.isHit lk).
  - intros a w' (lk' & Ra & K'). exists lk'. split; [done|]. by apply work_weaken.
Qed.

Lemma stays_state c lk : stays c lk (block_state lk).
Proof using.
  intros w K. unfold block_state, array_get. apply safe_bind, safe_gets, safe_lift_any.
  destruct (Arr.handle_state _ _ _ (wk_array _ _ _ K) (wk_handle _ _ _ K)) as (v & -> & Ev). by exists lk.
Qed.

(** *** Steps on the array *)

Lemma stays_array_do c lk f :
  (forall w, work lk c w -> match f (array w) with
     | Assert why => E why
     | Done a => Arr.same_geometry (array w) a /\ blocks_ok a (evictions w) /\ Arr.handle a x lk
     end) ->
  stays c lk (array_do f).
Proof using.
  intros Hf w K. specialize (Hf w K). unfold array_do. apply safe_bind, safe_gets, safe_bind, safe_lift_any.
  destruct (f (array w)) as [a|why]; [|done]. destruct Hf as (G & Ok & Hd). apply safe_modify. exists lk.
  split; [done|]. by eapply work_impl.
Qed.

Lemma stays_change c lk g :
  (forall v, mesi_state v -> mesi_state (g v)) -> (forall v, Arr.st (g v) <> Invalid -> Arr.st v <> Invalid \/ c = true) ->
  stays c lk (array_do (Arr.change_block lk g)).
Proof using.
  intros Hg Hc. apply stays_array_do. intros w K. pose proof (wk_blocks _ _ _ K) as Ok.
  pose proof (Arr.change_block_ok _ _ _ g (wk_array _ _ _ K) (wk_handle _ _ _ K)) as C.
  destruct (Arr.change_block lk g (array w)) as [a|why]; [|by rewrite C].
  destruct C as (Oa & G & Hd & v & Ev & P). split_and!; [done| |done]. eapply put_blocks_ok; [done..| | |exact P].
  - apply Hg. pose proof (bo_states _ _ Ok x) as Ms. rewrite <-Ev in Ms. unfold mesi_state in *. by rewrite Arr.st_st in Ms.
  - intros N. destruct (Hc v N) as [Nv|Ec]; [|by apply K]. eapply valid_not_evicted; [done|]. by rewrite <-Ev.
Qed.

Lemma stays_setState c lk s : mesi_state s -> c = true -> stays c lk (setState lk s).
Proof using.
  intros Ms Hc. apply stays_change; [|by right]. intros v _. unfold mesi_state. by rewrite Arr.st_assign.
Qed.
Lemma stays_setProtected c lk b : stays c lk (setProtected lk b).
Proof using. apply stays_change; intros v; unfold mesi_state; rewrite Arr.st_setProtected; auto. Qed.
Lemma stays_setPrefetched c lk b : stays c lk (setPrefetched lk b).
Proof using. apply stays_change; intros v; unfold mesi_state; rewrite Arr.st_setPrefetched; auto. Qed.

Lemma stays_order c lk f :
  (forall n k s, Arr.set_ok n s -> (k < n)%nat -> exists r, f k s = Done (Arr.set_replacement r s) /\
     match r with Arr.LRU order => order ≡ₚ seq 0 n | Arr.PLRU bits => length bits = n end) ->
  stays c lk (array_do (Arr.with_block "std_lookup->valid()" lk f)).
Proof using.
  intros Hf. apply stays_array_do. intros w K.
  pose proof (Arr.order_ok _ x lk "std_lookup->valid()" f Hf (wk_array _ _ _ K) (wk_handle _ _ _ K)) as C.
  destruct (Arr.with_block _ lk f (array w)) as [a|why]; [|by rewrite C].
  destruct C as (Oa & G & Hd & P). split_and!; [done| |done].
  eapply fewer_blocks_ok; [by eapply wk_blocks|done..|]. intros y. left. apply P.
Qed.
Lemma stays_recordAccess c lk : stays c lk (recordAccess lk).
Proof using. apply stays_order, Arr.recordAccess_order. Qed.
Lemma stays_invalidateBlock c lk : stays c lk (invalidateBlock lk).
Proof using. apply stays_order, Arr.invalidateBlock_order. Qed.

Lemma stays_block_of_address c lk a : stays c lk (block_of_address a).
Proof using. intros w K. by exists lk. Qed.

(** *** Steps on the rest of the state *)

Lemma stays_same_array c lk (g : MesiState -> MesiState) :
  (forall i, theArray (g i) = theArray i) -> stays c lk (modify (fun w : W => set_impl (g (impl w)) w)).
Proof using.
  intros Hg w K. apply safe_modify. exists lk. split; [done|]. eapply work_impl; [exact K|..]; rewrite Hg; try done; [|apply K].
  by eapply wk_blocks.
Qed.
Lemma stays_startRequest c lk a : stays c lk (startRequest a).
Proof using.
  apply (stays_same_array c lk
    (fun i => set_requests (CacheBuffers.startRequest (Arr.getSet (theArray i) a) (theRequestTracker i)) i)). done.
Qed.
Lemma stays_endRequest c lk a : stays c lk (endRequest a).
Proof using.
  intros w K. unfold endRequest. apply safe_bind, safe_gets, safe_bind, safe_lift_any.
  destruct (CacheBuffers.endRequest _ _) as [r|why] eqn:Er.
  - apply (stays_same_array c lk (set_requests r)); done.
  - unfold CacheBuffers.endRequest in Er. case_match; simplify_eq. done.
Qed.
Lemma stays_add_pending c lk d : stays c lk (add_pending d).
Proof using. by apply (stays_same_array c lk (fun i => set_pendingEvicts (thePendingEvicts i + d) i)). Qed.
Lemma stays_setFillLevel c lk k l : stays c lk (setFillLevel k l).
Proof using.
  destruct k as [k|]; [|by apply keeps_fail].
  by apply (stays_same_array c lk (fun i => set_fill_levels (<[k := l]> (fill_levels i)) i)).
Qed.
Lemma stays_use_tracker c lk k : stays c lk (use_tracker k).
Proof using. destruct k; [by apply keeps_ret|by apply keeps_fail]. Qed.
Lemma stays_fillLevel c lk t' : stays c lk (fillLevel others_fill t').
Proof using.
  unfold fillLevel. destruct (tTracker t'); [|by apply keeps_fail]. apply keeps_then; [apply keeps_gets|].
  intros. by apply keeps_ret.
Qed.
Lemma stays_default_fill c lk t' l : stays c lk (default_fill others_fill t' l).
Proof using.
  apply keeps_then; [apply stays_fillLevel|]. intros [l'|]; [by apply keeps_ret|apply stays_setFillLevel].
Qed.

Lemma stays_deref c lk t' : stays c lk (deref_message t').
Proof using.
  intros w K. unfold safe, deref_message. destruct (message_of t' w); [by exists lk|done].
Qed.

Lemma stays_update c lk t' f :
  (forall b, theAddress (f b) = theAddress b \/
     t' = t /\ Arr.blockAddress (array w0) (theAddress (f b)) = Arr.blockAddress (array w0) x) ->
  (forall b, isPrefetchRead (Messages.theType b) = false -> isPrefetchRead (Messages.theType (f b)) = false) ->
  stays c lk (update_message t' f).
Proof using.
  intros Hf Np w K. unfold update_message. apply safe_bind. unfold safe at 1, deref_message.
  destruct (message_of t' w) as [m|] eqn:Em; [|done]. unfold message_of in Em.
  destruct (tMessage t') as [id|] eqn:Et; [|by apply safe_fail]. cbn in Em. apply safe_modify. exists lk. split; [done|].
  eapply work_store; [exact K|exact Em| |apply Np]. cbn. destruct (Hf (body m)) as [-> | [-> Ea]]; [done|].
  rewrite (wk_message _ _ _ K (body m)) by (unfold body_of, message_of; rewrite Et; cbn; by rewrite Em).
  rewrite !(Arr.same_block _ _ _ (wk_geometry _ _ _ K)). exact Ea.
Qed.
Lemma stays_set_type c lk t' y : isPrefetchRead y = false -> stays c lk (set_msg_type t' y).
Proof using. intros Np. apply stays_update; [by left|done]. Qed.
Lemma stays_set_size c lk t' n : stays c lk (update_message t' (set_reqSize n)).
Proof using. by apply stays_update; [left|]. Qed.

Lemma stays_new_message c lk b : isPrefetchRead (Messages.theType (body b)) = false -> stays c lk (new_message b).
Proof using.
  intros Np w K. unfold new_message. apply safe_bind, safe_gets, safe_bind, safe_modify, safe_bind, safe_modify, safe_ret.
  exists lk. split; [done|]. by apply (work_new lk c w b).
Qed.
Lemma stays_new_request c lk y a pc size core : isPrefetchRead y = false -> stays c lk (new_request y a pc size core).
Proof using. intros Np. by apply stays_new_message. Qed.
Lemma stays_new_tracker c lk : stays c lk new_tracker.
Proof using.
  intros w K. unfold new_tracker. apply safe_bind, safe_gets, safe_bind, safe_modify, safe_ret. exists lk. split; [done|].
  destruct K as [Hh So G M O Hd C]. split; try done. etrans; [exact Hh|].
  destruct (reflexivity (R:=handled) w) as [? Hm He Hs _]. by split.
Qed.

Lemma stays_evict_do c lk f :
  (forall b, EB.theReserve (f b) = EB.theReserve b /\ EB.theSize (f b) = EB.theSize b) ->
  (forall a b, blocks_ok a (EB.theEvictions b) -> blocks_ok a (EB.theEvictions (f b))) ->
  (forall b e, e ∈ EB.theEvictions (f b) -> exists e', e' ∈ EB.theEvictions b /\ EB.theBlockAddress e = EB.theBlockAddress e') ->
  stays c lk (evict_do f).
Proof using.
  intros Hf Hb Hs w K. apply safe_modify. exists lk. split; [done|]. eapply work_evict; [exact K|apply Hf..| |].
  - by apply Hb, (wk_blocks lk c).
  - intros Hc e (e' & He & ->)%Hs. by apply (wk_clear _ _ _ K).
Qed.
Lemma stays_evict_alter c lk a f :
  (forall e, EB.theBlockAddress (f e) = EB.theBlockAddress e /\
     (mesi_state (EB.theState e) -> Arr.st (EB.theState e) <> Invalid ->
      mesi_state (EB.theState (f e)) /\ Arr.st (EB.theState (f e)) <> Invalid) /\
     (isEvictType (EB.theType e) = true -> isEvictType (EB.theType (f e)) = true)) ->
  stays c lk (evict_do (EB.alter a f)).
Proof using.
  intros Hf. apply stays_evict_do; [done| |].
  - intros ar b Ok. apply evictions_changed; [done|]. intros e _. case_match; [apply Hf|done].
  - intros b e (e' & -> & He)%list_elem_of_fmap. exists e'. split; [done|]. case_match; [apply Hf|done].
Qed.
Lemma stays_set_evictee c lk e s y : mesi_state s -> Arr.st s <> Invalid -> isEvictType y = true -> stays c lk (set_evictee e s y).
Proof using.
  intros Ms Ns Ty. apply stays_evict_alter. intros e'. split_and!; [done| |by intros _]. intros _ _. cbn. unfold mesi_state.
  by rewrite Arr.st_assign.
Qed.
Lemma stays_setEvictable c lk a b : stays c lk (evict_do (EB.setEvictable a b)).
Proof using. by apply stays_evict_alter. Qed.
Lemma stays_snoopScheduled c lk a b : stays c lk (evict_do (EB.alter a (EB.set_snoopScheduled b))).
Proof using. by apply stays_evict_alter. Qed.

Lemma stays_evict_remove c lk a : stays c lk (evict_do (EB.remove a)).
Proof using.
  apply stays_evict_do; [apply removed_fields|intros; by apply removed_blocks_ok|].
  intros b e [He _]%removed_entries. by exists e.
Qed.
Lemma stays_find_evictee c lk a : stays c lk (find_evictee a).
Proof using. apply keeps_gets. Qed.
Lemma stays_evictee_at c lk e : stays c lk (evictee_at e).
Proof using. destruct e; [by apply keeps_ret|by apply keeps_fail]. Qed.
Lemma stays_evictee_now c lk a : stays c lk (evictee_now a).
Proof using. apply keeps_then; [apply keeps_gets|]. apply stays_evictee_at. Qed.

Lemma stays_snoops_do c lk f :
  (forall b, SB.theReserve (f b) = SB.theReserve b /\ SB.theSize (f b) = SB.theSize b) -> stays c lk (snoops_do f).
Proof using. intros Hf w K. apply safe_modify. exists lk. split; [done|]. by apply work_snoops; [|apply Hf..]. Qed.
Lemma stays_wake_snoops c lk a : stays c lk (snoops_do (fun b => (SB.wakeWaitingEntries a b).2)).
Proof using. apply stays_snoops_do. intros b. unfold SB.wakeWaitingEntries. by case_match. Qed.
Lemma stays_snoop_remove c lk a : stays c lk (snoops_do (SB.remove a)).
Proof using. by apply stays_snoops_do. Qed.
Lemma stays_set_outstanding c lk iter d i : stays c lk (set_outstanding iter d i).
Proof using. by apply stays_snoops_do. Qed.
Lemma stays_snoop_alloc c lk s t' : stays c lk (snoop_alloc (fun t => SB.insert t s) t').
Proof using.
  apply keeps_then; [apply stays_deref|]. intros m w K. apply safe_bind, safe_gets, safe_bind, safe_lift_any.
  unfold SB.insert. destruct (_ <? _); [|done]. apply safe_bind, safe_modify, safe_ret. exists lk. split; [done|].
  by apply work_snoops.
Qed.

Lemma stays_alter_entry c lk e f :
  (forall e, same_entry e (f e) /\ MAF.transport (f e) = MAF.transport e) -> stays c lk (alter_entry e f).
Proof using. intros Hf w K. apply safe_modify. exists lk. split; [done|]. by apply work_maf. Qed.
Lemma stays_set_msgs c lk e n : stays c lk (alter_entry e (MAF.set_outstanding n)).
Proof using. by apply stays_alter_entry. Qed.
Lemma stays_set_received c lk e b : stays c lk (alter_entry e (MAF.set_data_received b)).
Proof using. by apply stays_alter_entry. Qed.
Lemma stays_waiting_entry_at c lk a : stays c lk (waiting_entry_at a).
Proof using.
  intros w K. unfold waiting_entry_at. apply safe_bind, safe_gets. case_match; [|by apply safe_fail].
  apply safe_lift_any. unfold MAF.deref. destruct (find_by _ _ _); [by exists lk|done].
Qed.

(** *** Allocation *)

Lemma stays_canAllocate c lk : stays c lk (array_get (Arr.canAllocate lk)).
Proof using.
  intros w K. unfold array_get. apply safe_bind, safe_gets, safe_lift_any. unfold Arr.canAllocate.
  destruct (Arr.set_of _ x (wk_array _ _ _ K)) as (s & _ & Ev). rewrite (Arr.hd_set _ _ _ (wk_handle _ _ _ K)), Ev.
  cbn [mbind outcome_bind]. unfold Arr.set_canAllocate, Arr.victimAvailable.
  destruct (Arr.theBlock lk); [by exists lk|]. destruct (Arr.replacement s); [by exists lk|done].
Qed.

(** The result of an allocation for the block that has left the array. *)
Definition victim (v : Arr.LookupResult) w : Prop :=
  Arr.isHit v = false /\
  (Arr.st (Arr.theOrigState v) <> Invalid ->
     mesi_state (Arr.theOrigState v) /\ Arr.peek (array w) (Arr.theBlockAddress v) = Invalid /\
     Arr.blockAddress (array w) (Arr.theBlockAddress v) = Arr.theBlockAddress v /\
     Arr.theBlockAddress v <> Arr.blockAddress (array w) x).

Lemma safe_array_allocate c lk (Q : Arr.LookupResult * Arr.LookupResult -> W -> Prop) w :
  work lk c w ->
  (forall v lk' w', work lk' c w' -> victim v w' -> Arr.isHit lk' = true -> store w' = store w -> Q (v, lk') w') ->
  safe E (array_allocate lk x) Q w.
Proof using.
  intros K Ok. unfold array_allocate. apply safe_bind, safe_gets, safe_bind, safe_lift_any.
  pose proof (Arr.array_allocate_ok _ _ _ (wk_array _ _ _ K) (wk_handle _ _ _ K)) as A.
  destruct (Arr.allocate lk x (array w)) as [[[v lk'] a]|why]; [|by destruct A as [-> | ->]].
  destruct A as (Oa & G & Hd & Hl & Hv & Old & P). pose proof (wk_blocks _ _ _ K) as Ob.
  apply safe_bind, safe_modify, safe_ret. apply Ok; [|split; [done|]|done..].
  - eapply work_impl; [exact K|done| |done]. eapply fewer_blocks_ok; [done..|]. intros y. rewrite P. cbn.
    destruct (decide _); [by right|by left].
  - intros N. destruct (Old N) as (Pv & Bv & Nx & Pv'). change (array (set_impl _ w)) with a.
    rewrite !(Arr.same_block _ _ _ G). split_and!; [|done..].
    pose proof (bo_states _ _ Ob (Arr.theBlockAddress v)) as Ms. rewrite Pv in Ms. unfold mesi_state in *. by rewrite Arr.st_st in Ms.
Qed.

Lemma safe_evict_victim c lk v (Q : () -> W -> Prop) w :
  work lk c w -> victim v w ->
  (forall w', work lk c w' -> impl w' = impl w -> store w' = store w -> Q () w') -> safe E (evict_victim mc v) Q w.
Proof using.
  intros K [Hv Hn] Ok. assert (S : forall A (f : State -> M W A) Q w, safe E (f (Arr.theOrigState v)) Q w -> safe E (block_state v ≫= f) Q w).
  { intros A f Q' w' S. apply safe_bind. unfold block_state, array_get. apply safe_bind, safe_gets, safe_lift_any.
    unfold Arr.lk_state. by rewrite Hv. }
  unfold evict_victim. apply S. destruct (eqb _ Invalid) eqn:Eq; [by apply safe_ret, Ok|].
  assert (N : Arr.st (Arr.theOrigState v) <> Invalid).
  { intros Es. assert (eqb (Arr.theOrigState v) Invalid = true); [|congruence]. apply eqb_spec. by rewrite Es. }
  destruct (Hn N) as (Ms & Pe & Be & Nx). unfold evictBlock. apply S. rewrite Eq. apply safe_modify, Ok; [|done..].
  pose proof (wk_blocks _ _ _ K) as Ob. eapply work_evict; [exact K|apply added_fields..|apply evictions_added; [done..|]|].
  { unfold evict_type_of. by repeat case_match. }
  intros Hc e [-> | (e' & He & ->)]%added_entries; [done|]. by apply (wk_clear _ _ _ K).
Qed.

Lemma keeps_allocateBlock c lk : keeps c lk (allocateBlock mc lk x) (fun lk' lk'' => lk'' = lk').
Proof using.
  apply keeps_then; [apply stays_canAllocate|]. intros can. apply keeps_assert; [done|]. intros _ w K.
  apply safe_bind. eapply safe_array_allocate; [exact K|]. intros v lk' w' K' V _ _. cbn beta iota.
  apply safe_bind. eapply safe_evict_victim; [exact K'|exact V|]. intros w2 K2 _ _. apply safe_ret. by exists lk'.
Qed.

(** A block that is fetched back from the evict buffer is not in it any more; the
    request waits while its eviction is pending. *)
Definition fetched w (r : option Arr.LookupResult) w' : Prop :=
  match r with
  | Some lk' =>
      work lk' true w' /\ store w' = store w /\ (Arr.isHit lk' = false -> EB.find x (theEvictBuffer w) = None) /\
      Arr.peek (array w') x =
        match EB.find x (theEvictBuffer w) with Some e => Arr.st (EB.theState e) | None => Arr.peek (array w) x end
  | None => w' = w /\ exists e, EB.find x (theEvictBuffer w) = Some e /\ EB.thePending e = true
  end.

Lemma safe_fetch_evictee lk w :
  Arr.blockAddress (array w0) x = x -> work lk false w -> safe E (fetch_evictee mc lk x) (fetched w) w.
Proof using.
  intros Hx K. assert (Hw : forall w c lk, work lk c w -> Arr.blockAddress (array w) x = x).
  { intros w' c lk' [_ _ G _ _ _ _]. by rewrite (Arr.same_block _ _ _ G). }
  unfold fetch_evictee, find_evictee. apply safe_bind, safe_gets. unfold fetched.
  destruct (EB.find x (theEvictBuffer w)) as [e|] eqn:Ef.
  2: { apply safe_ret. split_and!; try done. destruct K. split; try done. intros _. apply find_none. by rewrite (Hw w false lk). }
  destruct (EB.thePending e) eqn:Ep; [apply safe_ret; split; [done|by exists e]|].
  apply find_by_Some in Ef as [He Ea]. pose proof (bo_evicted _ _ (wk_blocks _ _ _ K)) as F. rewrite Forall_forall in F.
  destruct (F e He) as (Ms & Ns & _). clear F.
  apply safe_bind. unfold array_get. apply safe_bind, safe_gets.
  assert (Hc : match Arr.canAllocate lk (array w) with Done _ => True | Assert why => E why end).
  { pose proof (stays_canAllocate false lk w K) as S. unfold array_get, safe, gets, lift, mbind, M_bind in S. cbn in S.
    by destruct (Arr.canAllocate lk (array w)). }
  apply safe_lift_any. destruct (Arr.canAllocate lk (array w)) as [can|]; [|done]. clear Hc.
  apply safe_bind, safe_assert; [done|intros _]. apply safe_bind. eapply safe_array_allocate; [exact K|].
  intros v lk' w2 K2 V Hh S2. cbn beta iota.
  unfold remove_evictee, evict_do. apply safe_bind, safe_modify. set (w3 := set_theEvictBuffer _ w2).
  assert (K3 : work lk' true w3).
  { eapply work_evict; [exact K2|apply removed_fields..|apply removed_blocks_ok; by eapply wk_blocks|].
    intros _ e' [_ Ne]%removed_entries. rewrite (Hw w2 false lk'), <-Ea by done. exact Ne. }
  change (victim v w3) in V. change (store w3 = store w) in S2. clearbody w3. clear dependent w2.
  apply safe_bind. unfold setState, array_do. apply safe_bind, safe_gets, safe_bind, safe_lift_any.
  pose proof (stays_setState true lk' (EB.theState e) Ms eq_refl w3 K3) as S.
  unfold setState, array_do, safe, gets, lift, modify, mbind, M_bind in S. cbn in S.
  pose proof (Arr.change_block_ok _ _ _ (fun s => assign s (EB.theState e)) (wk_array _ _ _ K3) (wk_handle _ _ _ K3)) as C.
  change (Arr.change_block lk' (fun s => assign s (EB.theState e)) (array w3)) with (Arr.setState lk' (EB.theState e) (array w3)) in C.
  destruct (Arr.setState lk' (EB.theState e) (array w3)) as [a|why]; [|by rewrite C].
  destruct C as (_ & G & _ & s & _ & P). destruct S as (? & -> & K4). apply safe_modify.
  apply safe_bind. eapply safe_evict_victim; [exact K4| |].
  - destruct V as [Hv Vn]. split; [done|]. intros N. destruct (Vn N) as (Mv & Pv & Bv & Nx).
    change (array (set_impl _ w3)) with a. rewrite !(Arr.same_block _ _ _ G), P. split_and!; [done| |done..].
    rewrite decide_False; [done|]. by rewrite Bv.
  - intros w5 K5 I5 S5. apply safe_ret. split_and!; [done|by rewrite S5|by intros; congruence|]. rewrite I5.
    change (array (set_impl _ w3)) with a. by rewrite P, decide_True, Arr.st_assign.
Qed.
End work.

(** The steps that keep the invariant and the lookup. *)
Create HintDb mesi.
#[export] Hint Resolve keeps_gets stays_assert stays_state stays_setState stays_setProtected stays_setPrefetched stays_recordAccess
  stays_invalidateBlock stays_block_of_address stays_startRequest stays_endRequest stays_add_pending
  stays_setFillLevel stays_use_tracker stays_fillLevel stays_default_fill stays_deref stays_set_type stays_set_size
  stays_new_message stays_new_request stays_new_tracker stays_set_evictee stays_setEvictable stays_snoopScheduled
  stays_evict_remove stays_find_evictee stays_evictee_at stays_evictee_now stays_wake_snoops stays_snoop_remove stays_set_outstanding
  stays_snoop_alloc stays_set_msgs stays_set_received stays_waiting_entry_at stays_canAllocate : mesi.

Lemma mesi_Modified : mesi_state Modified /\ Arr.st Modified <> Invalid.
Proof. split; [by left|done]. Qed.
Lemma mesi_Exclusive : mesi_state Exclusive /\ Arr.st Exclusive <> Invalid.
Proof. split; [by right; left|done]. Qed.
Lemma mesi_Shared : mesi_state Shared /\ Arr.st Shared <> Invalid.
Proof. split; [by right; right; left|done]. Qed.
Lemma mesi_Invalid : mesi_state Invalid.
Proof. by right; right; right. Qed.
#[export] Hint Resolve mesi_Invalid : mesi.
#[export] Hint Extern 1 (mesi_state Modified) => apply mesi_Modified : mesi.
#[export] Hint Extern 1 (mesi_state Exclusive) => apply mesi_Exclusive : mesi.
#[export] Hint Extern 1 (mesi_state Shared) => apply mesi_Shared : mesi.
#[export] Hint Extern 1 (Arr.st _ <> Invalid) => discriminate : mesi.
#[export] Hint Extern 1 (isPrefetchRead _ = false) => reflexivity : mesi.
#[export] Hint Extern 1 (mesi_assert _) => reflexivity : mesi.
#[export] Hint Extern 1 (isEvictType _ = true) => reflexivity : mesi.
