(* ===== verification/MesiLaws.v ===== *)
(** * InclusiveMESI keeps the laws of a protocol

    Every handler of InclusiveMESI.v, called for a block that is not both in the array
    and in the evict buffer, leaves it so, and answers with an action that the
    controller accepts: the instance of [PolicyLaws]. *)

From stdpp Require Import base gmap list strings fin_maps.
From Stdlib Require Import ZArith Lia.
From S2P Require Import Prelude Messages TimingQueues CacheBuffers MissAddressFile TagArray.
Import BlockState.
From S2P Require Import CacheController InclusiveMESI CacheReservations MesiInvariant.

Local Open Scope Z_scope.

(** ** Actions *)

(** The front message of the action would reach a cache. *)
Definition proper (a : Action) : Prop :=
  0 < theRequiresTag a /\ theFrontToDCache a || theFrontToICache a = true.

Lemma proper_usable a : proper a -> usable a.
Proof. intros [T F]. split; [done|by intros _]. Qed.

(** What the cases of [doRequest] leave to its end. *)
Definition request_fits (pr : Progress) : Prop :=
  let a := pr_action pr in
  proper a /\
  match theAction a with
  | kSend | kInsertMAF_WaitResponse => theFrontMessage a = false
  | kReplyAndInsertMAF_WaitResponse => theFrontMessage a = true /\ theBackMessage a = true
  | kInsertMAF_WaitProbe => theFrontMessage a = true
  | kReplyAndRemoveMAF => True
  | _ => False
  end.

(** What is answered at once, and what a reply to a waiting request answers. *)
Definition answers (a : Action) : Prop :=
  proper a /\ (theAction a = kNoAction \/ theAction a = kSend /\ (theFrontMessage a = true \/ theBackMessage a = true)).
Definition replies (a : Action) : Prop :=
  proper a /\
  match theAction a with
  | kNoAction | kReplyAndRemoveResponseMAF => True
  | kReplyAndRemoveMAF => theFrontMessage a = false
  | _ => False
  end.

Section handlers.
Context `{IndexOrder} (mc : MesiConfig).
Context (others_fill : Transport -> option tFillLevel) (originatorLevel : Z -> option tFillLevel).

Local Abbreviation W := (Cache State MesiState).
Context (w0 : W) (t : Transport) (x : Z).
Implicit Types (w : W) (lk : Arr.LookupResult) (c : bool).

Local Abbreviation keeps := (keeps mc others_fill originatorLevel w0 t x).
Local Abbreviation stays := (stays mc others_fill originatorLevel w0 t x).
Local Abbreviation with_result := (fun (R : _ -> Prop) lk a lk' => lk' = lk /\ R a).

(** *** Actions with messages *)

Lemma keeps_ask_back c lk y a pc size core act :
  isPrefetchRead y = false ->
  keeps c lk (ask_back t y a pc size core act) (fun r lk' => lk' = lk /\ exists id, r = act_back (set_message id t) act).
Proof using.
  intros Np. apply keeps_then; [auto with mesi|]. intros id. apply keeps_ret. split; [done|]. by exists id.
Qed.

Lemma keeps_answer c lk t' y d :
  isPrefetchRead y = false ->
  keeps c lk (answer t' y d) (fun r lk' => lk' = lk /\ r = act_back t' (newAction kSend (tTracker t') d)).
Proof using. intros Np. apply keeps_then; [auto with mesi|]. intros []. by apply keeps_ret. Qed.

Lemma keeps_send_snoop c lk m y d i :
  isPrefetchRead y = false ->
  keeps c lk (send_snoop t m y d i)
    (fun r lk' => lk' = lk /\ exists id, r = act_front (set_message id t) (newAction kSend (tTracker t) 0)).
Proof using.
  intros Np. apply keeps_then; [apply stays_snoop_alloc|]. intros iter. apply keeps_then; [auto with mesi|]. intros [].
  apply keeps_then; [auto with mesi|]. intros id. apply keeps_ret. split; [done|]. by exists id.
Qed.

Lemma keeps_wait_for_snoop c lk : keeps c lk (wait_for_snoop t) (fun r lk' => lk' = lk /\ r = newAction kNoAction (tTracker t) 0).
Proof using. apply keeps_then; [apply stays_snoop_alloc|]. intros iter. by apply keeps_ret. Qed.

Lemma keeps_acknowledge c lk y f act :
  isPrefetchRead y = false -> (forall b, Messages.theType (f b) = Messages.theType b) ->
  keeps c lk (acknowledge t y f act) (fun r lk' => lk' = lk /\ exists id, r = act_back (set_message id t) act).
Proof using.
  intros Np Hf. apply keeps_then; [auto with mesi|]. intros m. apply keeps_then; [apply stays_new_message; cbn; by rewrite Hf|].
  intros id. apply keeps_ret. split; [done|]. by exists id.
Qed.
End handlers.

(** ** A walk through a handler *)

Ltac stay := solve [auto with mesi | try unfold stays; repeat keep_step; done]
with keep_step :=
  lazymatch goal with
  | |- keeps _ _ _ _ _ _ _ _ (mret _) _ => apply keeps_ret
  | |- keeps _ _ _ _ _ _ _ _ (dbg_fail _) _ => apply keeps_fail; reflexivity
  | |- keeps _ _ _ _ _ _ _ _ (mbind _ (dbg_assert _ _)) _ => apply keeps_assert; [reflexivity|intros ?]
  | |- keeps _ _ _ _ _ _ _ _ (mbind _ (block_state _)) _ => apply keeps_then; [auto with mesi|intros ?]
  | |- keeps _ _ _ _ _ _ _ _ (mbind _ (ask_back _ _ _ _ _ _ _)) _ =>
      eapply keeps_bind; [by apply keeps_ask_back|intros ? ? [-> [? ->]]]
  | |- keeps _ _ _ _ _ _ _ _ (mbind _ (answer _ _ _)) _ =>
      eapply keeps_bind; [apply keeps_answer; by repeat case_match|intros ? ? [-> ->]]
  | |- keeps _ _ _ _ _ _ _ _ (answer _ _ _) _ =>
      eapply keeps_mono; [apply keeps_answer; by repeat case_match|intros ? ? [-> ->]]
  | |- keeps _ _ _ _ _ _ _ _ (mbind _ (send_snoop _ _ _ _ _)) _ =>
      eapply keeps_bind; [by apply keeps_send_snoop|intros ? ? [-> [? ->]]]
  | |- keeps _ _ _ _ _ _ _ _ (send_snoop _ _ _ _ _) _ =>
      eapply keeps_mono; [by apply keeps_send_snoop|intros ? ? [-> [? ->]]]
  | |- keeps _ _ _ _ _ _ _ _ (mbind _ (wait_for_snoop _)) _ =>
      eapply keeps_bind; [by apply keeps_wait_for_snoop|intros ? ? [-> ->]]
  | |- keeps _ _ _ _ _ _ _ _ (wait_for_snoop _) _ =>
      eapply keeps_mono; [by apply keeps_wait_for_snoop|intros ? ? [-> ->]]
  | |- keeps _ _ _ _ _ _ _ _ (mbind _ (acknowledge _ _ _ _)) _ =>
      eapply keeps_bind; [apply keeps_acknowledge; [by repeat case_match|done]|intros ? ? [-> [? ->]]]
  | |- keeps _ _ _ _ _ _ _ _ (acknowledge _ _ _ _) _ =>
      eapply keeps_mono; [apply keeps_acknowledge; [by repeat case_match|done]|intros ? ? [-> [? ->]]]
  | |- keeps _ _ _ _ _ _ _ _ (mbind _ (mret _)) _ => apply keeps_ret_bind
  | |- keeps _ _ _ _ _ _ _ _ (@mbind _ _ unit _ _ _) _ => apply keeps_then; [stay|intros ?]
  | |- keeps _ _ _ _ _ _ _ _ (mbind _ (if ?b then _ else _)) _ => destruct b eqn:?
  | |- keeps _ _ _ _ _ _ _ _ (mbind _ (mbind _ _)) _ => apply keeps_assoc
  | |- keeps _ _ _ _ _ _ _ _ (mbind _ _) _ => apply keeps_then; [stay|intros ?]
  | |- keeps _ _ _ _ _ _ _ _ (let _ := _ in _) _ => cbn zeta
  | |- keeps ?mc ?f ?l ?w0 ?t ?x ?c ?lk ?m _ =>
      first [(change (stays mc f l w0 t x c lk m); solve [auto with mesi])
            |lazymatch m with
             | if ?b then _ else _ => destruct b eqn:?
             | match ?e with _ => _ end => destruct e eqn:?
             end]
  end.

Ltac walk := repeat keep_step.
Ltac fits := (split; [reflexivity|]); cbn; repeat split; cbn; auto.

(** A snoop goes to one of the caches of the front side. *)
Lemma caches_some a b : negb (a && b) || b = true.
Proof. by destruct a, b. Qed.

(** ** Requests *)

Section requests.
Context `{IndexOrder} (mc : MesiConfig).
Context (others_fill : Transport -> option tFillLevel) (originatorLevel : Z -> option tFillLevel).

Local Abbreviation W := (Cache State MesiState).
Context (w0 : W) (t : Transport) (x : Z).
Implicit Types (w : W) (lk : Arr.LookupResult) (m : MemoryMessage).

Local Abbreviation keeps := (keeps mc others_fill originatorLevel w0 t x).
Local Abbreviation stays := (stays mc others_fill originatorLevel w0 t x).
Local Abbreviation start := (newAction kReplyAndRemoveMAF (tTracker t) 1).
Local Abbreviation progress lk := (fun pr lk' => lk' = lk /\ request_fits pr).

Lemma keeps_NonAllocatingStore m blk lk hit :
  keeps true lk (request_NonAllocatingStore mc t m blk lk start hit) (progress lk).
Proof using. unfold request_NonAllocatingStore. walk; fits. Qed.

Lemma keeps_FetchReq m blk lk hit : keeps true lk (request_Fetch mc t m blk lk start hit) (progress lk).
Proof using. unfold request_Fetch. walk; fits. Qed.

Lemma stays_prefetcher_hit c lk hit : stays c lk (prefetcher_hit originatorLevel t lk hit).
Proof using. unfold prefetcher_hit. stay. Qed.

Lemma keeps_Load m blk lk hit : keeps true lk (request_Load mc originatorLevel t m blk lk start hit) (progress lk).
Proof using.
  unfold request_Load. apply keeps_then; [auto with mesi|]. intros s. eapply keeps_bind with (R := progress lk).
  - walk; fits.
  - intros pr ? [-> F]. apply keeps_then; [apply stays_prefetcher_hit|]. intros []. by apply keeps_ret.
Qed.

Lemma keeps_Read lk hit : keeps true lk (request_Read originatorLevel t lk start hit) (progress lk).
Proof using.
  unfold request_Read. apply keeps_then; [auto with mesi|]. intros s. eapply keeps_bind with (R := progress lk).
  - walk; fits.
  - intros pr ? [-> F]. apply keeps_then; [apply stays_prefetcher_hit|]. intros []. by apply keeps_ret.
Qed.

Lemma stays_protect_for_upgrade c lk : stays c lk (protect_for_upgrade lk).
Proof using. unfold protect_for_upgrade. stay. Qed.
Hint Resolve stays_protect_for_upgrade : mesi.

Lemma keeps_WriteReq blk lk hit : keeps true lk (request_Write t blk lk start hit) (progress lk).
Proof using. unfold request_Write. walk; fits. Qed.

Lemma keeps_AtomicPreloadReq m blk lk hit : keeps true lk (request_AtomicPreload mc t m blk lk start hit) (progress lk).
Proof using.
  unfold request_AtomicPreload. apply keeps_then; [auto with mesi|]. intros s. eapply keeps_bind with (R := progress lk).
  - walk; fits.
  - intros pr ? [-> F]. walk; done.
Qed.

Lemma keeps_Store m blk lk hit : keeps true lk (request_Store mc t m blk lk start hit) (progress lk).
Proof using.
  unfold request_Store. apply keeps_lift; [by intros why; destruct (Messages.theType m); intros [= <-]|].
  intros y Ey. assert (Np : isPrefetchRead y = false) by by destruct (Messages.theType m); simplify_eq/=.
  walk; fits.
Qed.

Lemma keeps_UpgradeReq lk hit : keeps true lk (request_Upgrade t lk start hit) (progress lk).
Proof using. unfold request_Upgrade. walk; fits. Qed.

Lemma keeps_PrefetchReadNoAlloc lk hit : keeps true lk (request_PrefetchReadNoAlloc t lk start hit) (progress lk).
Proof using. unfold request_PrefetchReadNoAlloc. walk; fits. Qed.

Lemma keeps_request_switch m blk lk hit :
  keeps true lk (request_switch mc originatorLevel t m blk lk start hit) (progress lk).
Proof using.
  unfold request_switch. destruct (Messages.theType m); try (by apply keeps_fail);
    first [apply keeps_NonAllocatingStore|apply keeps_FetchReq|apply keeps_Load|apply keeps_Read|apply keeps_WriteReq
          |apply keeps_AtomicPreloadReq|apply keeps_Store|apply keeps_UpgradeReq|apply keeps_PrefetchReadNoAlloc].
Qed.

Lemma keeps_finish_request lk pr :
  request_fits pr ->
  keeps true lk (finish_request mc others_fill t lk pr) (fun a lk' => lk' = lk /\ proper a /\ legal_request a).
Proof using.
  intros [P F]. unfold finish_request. do 5 keep_step. eapply keeps_bind with (R := fun a lk' => lk' = lk /\ proper a /\ legal_request a).
  - destruct (theAction (pr_action pr)) eqn:Ea; try done; destruct (theBackMessage (pr_action pr)) eqn:Eb; walk;
      (split; [done|]); unfold proper, legal_request; cbn; rewrite ?Ea, ?Eb; naive_solver.
  - intros act ? [-> L]. walk. done.
Qed.
End requests.

(** ** Messages from the back side *)

(** What they answer; that a request waits is known where the action says so. *)
Definition back_fits (fd : Found) (a : Action) : Prop :=
  proper a /\
  match theAction a with
  | kNoAction => True
  | kSend => theFrontMessage a = true \/ theBackMessage a = true
  | kReplyAndRemoveResponseMAF => theFrontMessage a = true /\ waiting_maf fd = true
  | kReplyAndRemoveMAF => theFrontMessage a = false /\ waiting_maf fd = true
  | _ => False
  end.

Ltac open fd :=
  destruct fd as [?lk [?e|] ?s ?miss];
  cbn [fd_evictee fd_result fd_state fd_miss from_eb negb waiting_maf is_pending] in *.

Section back.
Context `{IndexOrder} (mc : MesiConfig).
Context (others_fill : Transport -> option tFillLevel) (originatorLevel : Z -> option tFillLevel).

Local Abbreviation W := (Cache State MesiState).
Context (w0 : W) (t : Transport) (x : Z).
Implicit Types (w : W) (lk : Arr.LookupResult) (m : MemoryMessage) (fd : Found).

Local Abbreviation keeps := (keeps mc others_fill originatorLevel w0 t x).
Local Abbreviation stays := (stays mc others_fill originatorLevel w0 t x).
Local Abbreviation c fd := (negb (from_eb fd)).
Local Abbreviation decided fd := (fun a lk' => lk' = fd_result fd /\ back_fits fd a).

(** No block is owned, so a request for a copy is always answered. *)
Lemma keeps_Fwd m fd :
  mesi_state (fd_state fd) ->
  keeps (c fd) (fd_result fd) (back_Fwd mc t m fd) (fun r lk' => lk' = fd_result fd /\ exists a, r = Some a /\ back_fits fd a).
Proof using.
  intros Ms. assert (Hm : eqb (fd_state fd) Invalid = true \/ eqb (fd_state fd) Shared = true \/
    eqb (fd_state fd) Exclusive = true \/ eqb (fd_state fd) Modified = true).
  { rewrite !eqb_spec. unfold mesi_state in Ms. destruct Ms as [-> |[-> |[-> | ->]]]; auto. }
  unfold back_Fwd. open fd; walk; (split; [reflexivity|]); first [eexists; split; [reflexivity|]; repeat split; cbn; by auto|naive_solver].
Qed.

Lemma stays_demote_upgrade c' lk fd : lk = fd_result fd -> stays c' lk (demote_upgrade fd).
Proof using. intros ->. unfold demote_upgrade. stay. Qed.
Hint Resolve stays_demote_upgrade : mesi.

Lemma stays_miss_type c' lk fd : stays c' lk (miss_type fd).
Proof using. unfold miss_type. stay. Qed.
Hint Resolve stays_miss_type : mesi.

Lemma stays_demote_waiting c' lk fd : lk = fd_result fd -> stays c' lk (demote_waiting_upgrade fd).
Proof using. intros ->. unfold demote_waiting_upgrade. stay. Qed.
Hint Resolve stays_demote_waiting : mesi.

Lemma stays_drop_block fd : stays (c fd) (fd_result fd) (drop_block fd).
Proof using. unfold drop_block, remove_evictee. open fd; stay. Qed.

Lemma keeps_WriteFwd m fd : keeps (c fd) (fd_result fd) (back_WriteFwd mc t m fd) (decided fd).
Proof using.
  pose proof (stays_drop_block fd) as Sd. unfold back_WriteFwd, no_action. walk; fits; apply caches_some.
Qed.

Lemma keeps_invalidate_front m fd d :
  d || negb (is_level mc eL1) = true -> keeps (c fd) (fd_result fd) (invalidate_front mc t m d) (decided fd).
Proof using. intros Hd. unfold invalidate_front. walk; fits. Qed.

Lemma keeps_Invalidate m fd : keeps (c fd) (fd_result fd) (back_Invalidate mc t m fd) (decided fd).
Proof using.
  pose proof (stays_drop_block fd) as Sd. unfold back_Invalidate, no_action.
  assert (Si : keeps (c fd) (fd_result fd) (invalidate_front mc t m true) (decided fd)) by by apply keeps_invalidate_front.
  unfold remove_evictee. walk; try exact Si; fits.
Qed.

Lemma keeps_BackInvalidate m fd : keeps (c fd) (fd_result fd) (back_BackInvalidate mc t m fd) (decided fd).
Proof using.
  pose proof (stays_drop_block fd) as Sd. unfold back_BackInvalidate, no_action, check_waiting_store.
  assert (Si : keeps (c fd) (fd_result fd)
    (invalidate_front mc t m (is_level mc eL1 || negb (eqb (fd_state fd) Modified))) (decided fd)).
  { apply keeps_invalidate_front. by destruct (is_level mc eL1); rewrite ?orb_true_r. }
  walk; try exact Si; fits.
Qed.

Lemma keeps_EvictAck fd : keeps (c fd) (fd_result fd) (back_EvictAck t fd) (decided fd).
Proof using. unfold back_EvictAck, remove_evictee. walk; fits. Qed.

(** The data that was here all along does not change the lookup. *)
Lemma stays_data_at_hand c' lk e b : stays c' lk (data_at_hand mc others_fill t lk e b).
Proof using. unfold data_at_hand. stay. Qed.
Hint Resolve stays_data_at_hand : mesi.

Lemma stays_as_asked c' lk orig f :
  Arr.blockAddress (theArray (impl w0)) (theAddress orig) = Arr.blockAddress (theArray (impl w0)) x ->
  (forall b, theAddress (f b) = theAddress orig) ->
  (forall b, isPrefetchRead (Messages.theType b) = false -> isPrefetchRead (Messages.theType (f b)) = false) ->
  stays c' lk (update_message t f).
Proof using. intros Eo Hf Np. apply stays_update; [|done]. intros b. right. split; [done|]. by rewrite Hf. Qed.
(** *** Replies *)

Local Abbreviation same_block orig :=
  (Arr.blockAddress (theArray (impl w0)) (theAddress orig) = Arr.blockAddress (theArray (impl w0)) x).
(** The reply goes with the lookup that is good. *)
Local Abbreviation reply_fits := (fun rp lk' => lk' = rp_result rp /\ replies (rp_action rp)).

Lemma keeps_notify_complete fd (orig : MemoryMessage) e :
  same_block orig -> waiting_maf fd = true ->
  keeps (c fd) (fd_result fd) (notify_complete mc others_fill t fd orig e) (decided fd).
Proof using.
  intros So Wt. unfold notify_complete.
  assert (Sa : forall c' lk, stays c' lk (update_message t (if is_level mc eL1 then as_asked orig else set_reqSize (mesiBlockSize mc)))).
  { intros c' lk. destruct (is_level mc eL1); [by apply stays_as_asked with (orig := orig)|apply stays_set_size]. }
  apply keeps_then; [auto with mesi|]. intros [received had]. do 2 keep_step.
  assert (Ec : c fd = true) by assumption. rewrite Ec. clear Ec.
  eapply keeps_bind; [apply keeps_acknowledge; [by repeat case_match|done]|]. intros a ? [-> [id ->]].
  keep_step. apply keeps_then.
  { destruct (store_reply (Messages.theType orig)) eqn:Es; [|stay].
    assert (Np : isPrefetchRead m = false) by by destruct (Messages.theType orig); simplify_eq/=. stay. }
  intros []. apply keeps_then; [apply Sa|intros []]. walk; fits.
Qed.

Lemma keeps_receive_data lk (m : Message) e dirty :
  theAddress (body m) = x ->
  keeps true lk (receive_data mc lk m e dirty) (fun r lk' => lk' = r.1.1).
Proof using.
  intros Ex. unfold receive_data. apply keeps_then; [auto with mesi|]. intros s. rewrite Ex.
  eapply keeps_bind with (R := fun r lk' => lk' = r.1.1).
  - destruct (eqb s Invalid); [|by apply keeps_ret]. keep_step. eapply keeps_bind; [apply keeps_allocateBlock|].
    intros lk1 ? ->. keep_step. by apply keeps_ret.
  - intros [[lk1 fill] used] ? ->. cbn [fst]. apply keeps_then; [destruct dirty; stay|]. intros []. by apply keeps_ret.
Qed.

Lemma keeps_fetched lk (m : Message) :
  theAddress (body m) = x -> keeps true lk (allocateBlock mc lk (theAddress (body m))) (fun lk' lk'' => lk'' = lk').
Proof using. intros ->. apply keeps_allocateBlock. Qed.

Lemma keeps_reply_Fetch (m : Message) orig fd :
  same_block orig -> theAddress (body m) = x ->
  (from_eb fd = true -> eqb (fd_state fd) Invalid = false) ->
  keeps (c fd) (fd_result fd) (reply_Fetch mc t m orig fd) reply_fits.
Proof using.
  intros So Ex He. unfold reply_Fetch. keep_step.
  assert (Ec : c fd = true) by (destruct (from_eb fd); [by rewrite He in *|done]). rewrite Ec. clear Ec He.
  eapply keeps_bind; [by apply keeps_fetched|]. intros lk ? ->. keep_step.
  assert (Su : forall c' lk, stays c' lk
    (update_message t (fun b => (if is_level mc eL1I then as_asked_pc orig else id) (Messages.set_type FetchReply b)))).
  { intros c' lk'. destruct (is_level mc eL1I); [by apply stays_as_asked with (orig := orig)|by apply stays_set_type]. }
  walk; fits.
Qed.

(** A reply that fills a block that was invalid. *)
Lemma fills_clear fd : (from_eb fd = true -> eqb (fd_state fd) Invalid = false) -> eqb (fd_state fd) Invalid = true -> c fd = true.
Proof using. intros He E. destruct (from_eb fd); [by rewrite He in E|done]. Qed.

Lemma stays_as_asked_pc c' lk orig : same_block orig -> stays c' lk (update_message t (as_asked_pc orig)).
Proof using. intros So. by apply stays_as_asked with (orig := orig). Qed.
Hint Resolve stays_as_asked_pc : mesi.

Lemma keeps_acknowledge_read c' lk (m : Message) dirty a :
  replies a -> keeps c' lk (acknowledge_read mc t m dirty a) (fun r lk' => lk' = lk /\ replies r).
Proof using. intros [[P1 P2] F]. unfold acknowledge_read. walk; by fits. Qed.

Lemma keeps_reply_Load (m : Message) orig fd :
  same_block orig -> theAddress (body m) = x ->
  (from_eb fd = true -> eqb (fd_state fd) Invalid = false) ->
  keeps (c fd) (fd_result fd) (reply_Load mc t m orig fd) reply_fits.
Proof using.
  intros So Ex He. unfold reply_Load. keep_step. rewrite (fills_clear fd) by done.
  eapply keeps_bind; [by apply keeps_fetched|]. intros lk ? ->.
  apply keeps_lift; [by intros why; destruct (Messages.theType (body m)); intros [= <-]|].
  intros s Es. assert (Ms : mesi_state s) by (destruct (Messages.theType (body m)); simplify_eq/=; auto with mesi).
  walk. eapply keeps_bind; [by apply keeps_acknowledge_read|]. intros a1 ? [-> R]. walk. by split.
Qed.

Lemma keeps_reply_Read (m : Message) fd :
  theAddress (body m) = x -> (from_eb fd = true -> eqb (fd_state fd) Invalid = false) ->
  keeps (c fd) (fd_result fd) (reply_Read mc t m fd) reply_fits.
Proof using.
  intros Ex He. unfold reply_Read. keep_step. rewrite (fills_clear fd) by done.
  eapply keeps_bind; [by apply keeps_fetched|]. intros lk ? ->. keep_step.
  eapply keeps_bind; [by apply keeps_acknowledge_read|]. intros a1 ? [-> R]. walk. by split.
Qed.

Lemma stays_grant_write lk (orig : MemoryMessage) : same_block orig -> stays true lk (grant_write mc t orig lk).
Proof using.
  intros So. unfold grant_write. unfold stays. do 2 keep_step; [stay|].
  destruct (store_reply (Messages.theType orig)) eqn:Es; [|stay].
  assert (Np : isPrefetchRead m = false) by by destruct (Messages.theType orig); simplify_eq/=. stay.
Qed.

Lemma stays_check_write_reply c' lk (m : Message) fd : stays c' lk (check_write_reply m fd).
Proof using. unfold check_write_reply. stay. Qed.

(** What a reply to a request for writing is checked for. *)
Lemma keeps_checked {B} (m : Message) fd (f : () -> M W B) R :
  (c fd = true -> keeps true (fd_result fd) (f ()) R) -> keeps (c fd) (fd_result fd) (check_write_reply m fd ≫= f) R.
Proof using.
  intros Hf. intros w K. unfold check_write_reply. apply safe_bind, safe_bind, safe_assert; [done|intros _].
  apply safe_bind, safe_assert; [done|intros _]. apply safe_assert; [done|]. intros Ec. rewrite Ec in K. rewrite Ec.
  by apply Hf.
Qed.

(** The data of a reply, when it brings some. *)
Lemma keeps_data lk (m : Message) e (dirty data : bool) :
  theAddress (body m) = x ->
  keeps true lk (if data then receive_data mc lk m e dirty else mret (lk, false, false)) (fun r lk' => lk' = r.1.1).
Proof using. intros Ex. destruct data; [by apply keeps_receive_data|by apply keeps_ret]. Qed.

Lemma write_data_stops b y why : write_data b y = Assert why -> mesi_assert why.
Proof using. destruct y; cbn; intros; simplify_eq; try done. by destruct b; simplify_eq. Qed.

Lemma replies_keep_waiting lk fill used : replies (rp_action (keep_waiting t lk fill used)).
Proof using. by destruct used. Qed.

Lemma keeps_reply_Write (m : Message) orig fd :
  same_block orig -> theAddress (body m) = x ->
  keeps (c fd) (fd_result fd) (reply_Write mc others_fill t m orig fd) reply_fits.
Proof using.
  intros So Ex. unfold reply_Write. apply keeps_checked. intros _. keep_step. rename a into e.
  apply keeps_lift; [by apply write_data_stops|]. intros [dirty data] _. cbn zeta. keep_step.
  eapply keeps_bind; [by apply keeps_data|]. intros [[lk fill] used] ? ->. cbn [fst].
  destruct (_ =? 0); [|apply keeps_ret; split; [done|apply replies_keep_waiting]].
  apply keeps_then; [auto with mesi|]. intros [received had].
  pose proof (stays_grant_write lk orig So) as Sg. walk; fits.
Qed.

Lemma keeps_reply_AtomicPreload (m : Message) orig fd :
  same_block orig -> theAddress (body m) = x ->
  keeps (c fd) (fd_result fd) (reply_AtomicPreload mc others_fill t m orig fd) reply_fits.
Proof using.
  intros So Ex. unfold reply_AtomicPreload. apply keeps_checked. intros _. keep_step. rename a into e.
  apply keeps_lift; [by apply write_data_stops|]. intros [dirty data] _. cbn zeta. do 3 keep_step.
  eapply keeps_bind; [by apply keeps_data|]. intros [[lk fill] used] ? ->. cbn [fst].
  destruct (_ =? 0); [|apply keeps_ret; split; [done|apply replies_keep_waiting]].
  do 3 keep_step. apply keeps_then; [auto with mesi|]. intros [received had].
  assert (Su : stays true lk (update_message t (fun b => as_asked_pc orig (Messages.set_type AtomicPreloadReply b))))
    by by apply stays_as_asked with (orig := orig).
  walk; fits.
Qed.

Lemma keeps_reply_Upgrade (m : Message) fd :
  keeps (c fd) (fd_result fd) (reply_Upgrade mc others_fill t m fd) reply_fits.
Proof using.
  unfold reply_Upgrade. apply keeps_checked. intros _.
  assert (Su : forall lk, stays true lk (update_message t
    (fun b => set_reqSize (mesiBlockSize mc) (Messages.set_type UpgradeReply b)))) by (intros lk; by apply stays_update; [left|]).
  walk; fits.
Qed.

Lemma keeps_reply_NonAllocatingStore (m : Message) orig fd :
  same_block orig -> keeps (c fd) (fd_result fd) (reply_NonAllocatingStore t m orig fd) reply_fits.
Proof using. intros So. unfold reply_NonAllocatingStore. walk; fits. Qed.

Lemma keeps_reply_switch (m : Message) orig fd :
  same_block orig -> theAddress (body m) = x ->
  (from_eb fd = true -> eqb (fd_state fd) Invalid = false) ->
  keeps (c fd) (fd_result fd) (reply_switch mc others_fill t m orig fd) reply_fits.
Proof using.
  intros So Ex He. unfold reply_switch. destruct (Messages.theType orig); try (by apply keeps_fail);
    first [by apply keeps_reply_AtomicPreload|by apply keeps_reply_Fetch|by apply keeps_reply_Load|by apply keeps_reply_Read
          |by apply keeps_reply_Write|by apply keeps_reply_Upgrade|by apply keeps_reply_NonAllocatingStore].
Qed.

Lemma keeps_finish_reply c' lk fd rp :
  lk = rp_result rp -> replies (rp_action rp) -> waiting_maf fd = true ->
  keeps c' lk (finish_reply others_fill originatorLevel t fd rp) (fun a lk' => lk' = lk /\ back_fits fd a).
Proof using.
  intros -> [P F] Wt. unfold finish_reply.
  walk; (split; [done|]); unfold back_fits, proper in *; destruct (theAction (rp_action rp)) eqn:Ea;
    rewrite ?bool_decide_eq_true_2, ?bool_decide_eq_false_2 by congruence; cbn; rewrite ?Ea; naive_solver.
Qed.
End back.

(** The state of the block decides. *)
Ltac by_state := apply keeps_state; intros ?v ?Ev; cbn beta; rewrite Ev; cbn iota.

(** ** Snoop replies and evictions *)

Section snoops.
Context `{IndexOrder} (mc : MesiConfig).
Context (others_fill : Transport -> option tFillLevel) (originatorLevel : Z -> option tFillLevel).

Local Abbreviation W := (Cache State MesiState).
Context (w0 : W) (t : Transport) (x : Z).
Implicit Types (w : W) (lk : Arr.LookupResult) (m : MemoryMessage).

Local Abbreviation keeps := (keeps mc others_fill originatorLevel w0 t x).
Local Abbreviation stays := (stays mc others_fill originatorLevel w0 t x).

Lemma stays_write_back c lk m : stays c lk (write_back m lk).
Proof using. unfold write_back. by_state; stay. Qed.

Lemma stays_forget_waiting_evict c lk l : stays c lk (forget_waiting_evict l).
Proof using. induction l as [|e l IH]; cbn [forget_waiting_evict]; stay. Qed.
Hint Resolve stays_forget_waiting_evict : mesi.

Lemma stays_lose_block c lk m : stays c lk (lose_block m lk).
Proof using. unfold lose_block, remove_evictee. by_state; stay. Qed.
Hint Resolve stays_write_back stays_lose_block : mesi.

Lemma stays_finalize_Fwd c lk m orig block : stays c lk (finalize_Fwd mc others_fill t m orig lk block).
Proof using.
  unfold finalize_Fwd, stays. do 2 keep_step. by_state; stay.
Qed.
Lemma stays_finalize_Invalidate c lk m orig y block d : stays c lk (finalize_Invalidate mc others_fill t m orig y lk block d).
Proof using. unfold finalize_Invalidate. destruct y; stay. Qed.
Lemma stays_finalize_Evict c lk m orig block d : stays c lk (finalize_Evict m orig block d).
Proof using. unfold finalize_Evict. stay. Qed.
Lemma stays_finalize_switch c lk m orig y block d : stays c lk (finalize_switch mc others_fill t m orig y lk block d).
Proof using.
  destruct y; try (by apply keeps_fail);
    first [apply stays_finalize_Fwd|apply stays_finalize_Invalidate|apply stays_finalize_Evict].
Qed.
Hint Resolve stays_finalize_switch : mesi.

Local Abbreviation answered := (fun a (_ : Arr.LookupResult) => proper a /\ legal_snoop a).

Lemma keeps_finalizeSnoop c lk : keeps c lk (finalizeSnoop mc others_fill t lk) answered.
Proof using.
  unfold finalizeSnoop, snoop_entry_at. walk; repeat split; unfold legal_snoop; cbn; auto;
    destruct (isEvictType _); auto.
Qed.

Lemma keeps_EvictDirty c lk m : keeps c lk (snoop_EvictDirty t m lk) answered.
Proof using.
  unfold snoop_EvictDirty. by_state; walk; repeat split; unfold legal_snoop; cbn; auto.
Qed.

(** The array never asks for an eviction. *)
Lemma stays_preempt c lk m : stays c lk (preempt t m).
Proof using. by apply keeps_ret. Qed.

Lemma keeps_evict_snoop c lk m d :
  d || negb (is_level mc eL1) = true ->
  keeps c lk (evict_snoop mc t m d) (fun a _ => proper a /\ theAction a = kSend /\ theFrontMessage a = true /\ theBackMessage a = false).
Proof using. intros Hd. unfold evict_snoop. walk. repeat split; done. Qed.
End snoops.

(** ** The handlers from their start *)

Section laws.
Context `{IndexOrder} (mc : MesiConfig).
Context (others_fill : Transport -> option tFillLevel) (originatorLevel : Z -> option tFillLevel).
#[local] Instance mesi : Policy State MesiState := mesi_policy mc others_fill originatorLevel.

Local Abbreviation W := (Cache State MesiState).
Implicit Types (w : W) (lk : Arr.LookupResult) (t : Transport).
Local Abbreviation work := (work mc others_fill originatorLevel).
Local Abbreviation keeps := (keeps mc others_fill originatorLevel).
Local Abbreviation array w := (theArray (impl w)).

Lemma sound_array w : sound w -> Arr.array_ok (array w).
Proof using. intros So. eapply bo_array, So. Qed.

Lemma start_work t x lk w m :
  sound w -> message_of t w = Some m -> Arr.blockAddress (array w) (theAddress (body m)) = Arr.blockAddress (array w) x ->
  Arr.handle (array w) x lk -> work w t x lk false w.
Proof using.
  intros So Em Ea Hd. split; try done.
  - intros b Eb. unfold body_of in Eb. rewrite Em in Eb. by injection Eb as <-.
  - intros id Et. unfold message_of in Em. rewrite Et in Em. by apply So in Em.
Qed.

Lemma safe_lookup x (Q : Arr.LookupResult -> W -> Prop) w :
  sound w -> (forall lk, Arr.handle (array w) x lk -> Q lk w) -> safe mesi_assert (array_get (fun arr => Arr.lookup arr x)) Q w.
Proof using.
  intros So Ok. unfold array_get. apply safe_bind, safe_gets, safe_lift_any.
  destruct (Arr.lookup_ok _ x (sound_array _ So)) as (lk & -> & Hd & _). by apply Ok.
Qed.

Lemma safe_deref_message {A} t (f : Message -> M W A) (Q : A -> W -> Prop) w :
  (forall m, message_of t w = Some m -> safe mesi_assert (f m) Q w) -> safe mesi_assert (deref_message t ≫= f) Q w.
Proof using.
  intros Ok. apply safe_bind. unfold safe at 1, deref_message. destruct (message_of t w); [by apply Ok|done].
Qed.

Lemma safe_assoc {A B C} (m : M W A) (g : A -> M W B) (f : B -> M W C) Q w :
  safe mesi_assert (m ≫= g) (fun b w' => safe mesi_assert (f b) Q w') w -> safe mesi_assert (a ← m; b ← g a; f b) Q w.
Proof using. unfold safe, mbind, M_bind. destruct (m w) as [[a w1]|]; [|done]. by destruct (g a w1) as [[b w2]|]. Qed.

Lemma safe_computed {A} (m : M W A) (Q : A -> W -> Prop) w a w' :
  m w = Done (a, w') -> Q a w' -> safe mesi_assert m Q w.
Proof using. unfold safe. by intros ->. Qed.

(** What steps that keep the invariant leave is what a law asks for. *)
Lemma safe_kept {A} t x c lk (m : M W A) R (Q : A -> W -> Prop) w0 w :
  work w0 t x lk c w -> keeps w0 t x c lk m R ->
  (forall a lk' w', R a lk' -> work w0 t x lk' c w' -> Q a w') -> safe mesi_assert m Q w.
Proof using.
  intros K Km HQ. eapply safe_mono; [by apply Km|]. intros a w' (lk' & Ra & K'). by eapply HQ.
Qed.

Lemma mesi_request_ok t b tracker w :
  sound w ->
  safe mesi_assert (mesi_doRequest mc others_fill originatorLevel t b tracker)
    (fun r w' => handled w w' /\ usable r.2 /\ legal_request r.2) w.
Proof using.
  intros So. unfold mesi_doRequest. apply safe_deref_message. intros m Em.
  apply safe_bind. unfold block_of_address. apply safe_bind, safe_gets, safe_ret.
  set (blk := Arr.blockAddress (array w) (theAddress (body m))).
  apply safe_bind, safe_lookup; [done|]. intros lk Hd.
  destruct b; [apply safe_ret; split_and!; [reflexivity|by apply proper_usable|done]|].
  assert (Hx : Arr.blockAddress (array w) blk = blk) by apply Arr.blockAddress_idem.
  assert (K : work w t blk lk false w) by (eapply start_work; [done|exact Em|by rewrite Hx|done]). clear Hd.
  assert (Hr : safe mesi_assert (s ← block_state lk; if eqb s Invalid then fetch_evictee mc lk blk else mret (Some lk))
      (fun r w' => match r with Some lk' => work w t blk lk' true w' | None => w' = w end) w).
  { apply safe_bind. unfold block_state, array_get. apply safe_bind, safe_gets, safe_lift_any.
    destruct (Arr.handle_state _ _ _ (sound_array _ So) (wk_handle _ _ _ _ _ _ _ _ _ K)) as (v & -> & Ev).
    destruct (eqb v Invalid) eqn:Eq; [eapply safe_mono; [by apply safe_fetch_evictee|]; by intros [lk'|] w' [? _]|]. apply safe_ret. eapply work_valid; [|exact K].
    intros Pe. rewrite Pe in Ev. assert (eqb v Invalid = true); [|congruence]. apply eqb_spec. rewrite Ev. by destruct (Arr.isHit lk). }
  apply safe_assoc. eapply safe_mono; [exact Hr|]. clear K Hr. intros [lk'|] w1 K; cbn beta iota.
  2: { apply safe_ret. rewrite K. split_and!; [reflexivity|by apply proper_usable|done]. }
  apply (safe_kept t blk true lk' _ (fun r lk'' => usable r.2 /\ legal_request r.2) _ w w1 K).
  - do 2 keep_step. destruct a0; [by apply keeps_ret|]. do 2 keep_step.
    eapply keeps_bind; [apply keeps_request_switch|]. intros pr ? [-> F].
    eapply keeps_bind; [by apply keeps_finish_request|]. intros act ? (-> & P & L). apply keeps_ret.
    split; [by apply proper_usable|done].
  - intros r lk2 w' [U L] K'. split_and!; [apply K'|done..].
Qed.

(** *** From the back side *)

(** An entry that waits for its response goes on waiting for it. *)
Lemma waiting_kept w w' a :
  handled w w' -> is_Some (MAF.getWaitingMAFEntryIter a (theMaf w)) -> is_Some (MAF.getWaitingMAFEntryIter a (theMaf w')).
Proof using.
  intros Hh. destruct (h_maf _ _ Hh) as (l & -> & F). unfold MAF.getWaitingMAFEntryIter, MAF.find, MAF.find_entry. cbn.
  rewrite !fmap_is_Some. intros [e He]. set (P := fun e => MAF.theBlockAddress e = a /\ MAF.state e = kWaitResponse) in *.
  assert (K : forall l, is_Some (head (arrange (filter P l))) <-> exists e, e ∈ l /\ P e).
  { clear. intros l. split.
    - intros [e He]. exists e. assert (Hin : e ∈ arrange (filter P l)).
      { destruct (arrange _); [done|]. injection He as ->. apply list_elem_of_here. }
      rewrite arrange_perm in Hin. by apply list_elem_of_filter in Hin as [? ?].
    - intros (e & Hin & Pe). assert (Hf : e ∈ arrange (filter P l)) by (rewrite arrange_perm; by apply list_elem_of_filter).
      destruct (arrange _); [by apply not_elem_of_nil in Hf|]. by eexists. }
  apply K. assert (Hs : is_Some (head (arrange (filter P (MAF.theMshrs (theMaf w)))))) by by exists e.
  apply K in Hs as (e1 & Hin & P1 & P2). apply list_elem_of_lookup in Hin as [i Hi].
  destruct (Forall2_lookup_l _ _ _ _ _ F Hi) as (e2 & Hi2 & (_ & E1 & E2 & _)).
  exists e2. split; [by eapply list_elem_of_lookup_2|]. unfold P. by rewrite <-E1, <-E2.
Qed.

(** What a lookup for a message from the back side finds. *)
Record found t x fd w : Prop := {
  fo_work : work w t x (fd_result fd) (negb (from_eb fd)) w;
  fo_mesi : mesi_state (fd_state fd);
  fo_state : from_eb fd = true -> eqb (fd_state fd) Invalid = false;
  fo_waiting : waiting_maf fd = true -> is_Some (MAF.getWaitingMAFEntryIter (Arr.blockAddress (array w) x) (theMaf w));
  fo_same : forall m, message_of (fd_miss fd) w = Some m ->
    Arr.blockAddress (array w) (theAddress (body m)) = Arr.blockAddress (array w) x;
}.

Lemma find_waiting a (f : MAF.MissAddressFile) e :
  MAF.find_entry a kWaitResponse f = Some e -> e ∈ MAF.theMshrs f /\ MAF.theBlockAddress e = a.
Proof using.
  unfold MAF.find_entry. intros E. assert (Hin : e ∈ arrange (filter (fun e => MAF.theBlockAddress e = a /\ MAF.state e = kWaitResponse) (MAF.theMshrs f))).
  { destruct (arrange _); [done|]. injection E as ->. apply list_elem_of_here. }
  rewrite arrange_perm in Hin. by apply list_elem_of_filter in Hin as [[? _] ?].
Qed.

Lemma safe_look_up t (m : Message) w (Q : Found -> W -> Prop) :
  sound w -> message_of t w = Some m ->
  (forall fd, found t (theAddress (body m)) fd w -> Q fd w) -> safe mesi_assert (look_up (body m)) Q w.
Proof using.
  intros So Em HQ. set (x := theAddress (body m)) in *. unfold look_up. fold x.
  apply safe_bind, safe_lookup; [done|]. intros lk Hd. apply safe_bind, safe_gets.
  assert (K : work w t x lk false w) by by eapply start_work.
  assert (Hm : forall ev s, let fd := mkFound lk ev s (MAF.getWaitingMAFEntry x (theMaf w)) in
    work w t x lk (negb (from_eb fd)) w -> mesi_state s -> (from_eb fd = true -> eqb s Invalid = false) -> found t x fd w).
  { intros ev s fd Kw Ms Hs. unfold MAF.getWaitingMAFEntry in fd. split; [done..| |].
    - subst fd. unfold waiting_maf. cbn. destruct (MAF.find_entry _ _ _) as [e|] eqn:Ef; [|done]. intros _.
      destruct (find_waiting _ _ _ Ef) as [Hin Ea]. pose proof (proj1 (proj2 (proj2 So))) as L.
      rewrite Forall_forall in L. destruct (L e Hin) as (b & _ & Eb). cbn in Eb. rewrite Ea in Eb.
      rewrite <-Eb at 1. rewrite Arr.blockAddress_idem, Eb. unfold MAF.getWaitingMAFEntryIter, MAF.find. by rewrite Ef.
    - subst fd. cbn. destruct (MAF.find_entry _ _ _) as [e|] eqn:Ef; [|done]. intros mm Emm.
      destruct (find_waiting _ _ _ Ef) as [Hin Ea]. pose proof (proj1 (proj2 (proj2 So))) as L.
      rewrite Forall_forall in L. destruct (L e Hin) as (b & Eb & Ebl). unfold body_of in Eb. rewrite Emm in Eb.
      injection Eb as <-. cbn in Ebl. rewrite Ea in Ebl. rewrite Ebl, <-Ebl. by rewrite Arr.blockAddress_idem. }
  apply safe_bind. unfold block_state, array_get. apply safe_bind, safe_gets, safe_lift_any.
  destruct (Arr.handle_state _ _ _ (sound_array _ So) Hd) as (v & -> & Ev).
  apply safe_bind. unfold block_of_address. apply safe_bind, safe_gets, safe_ret.
  assert (Mv : mesi_state v).
  { pose proof (bo_states _ _ (wk_blocks _ _ _ _ _ _ _ _ _ K) x) as Ms. unfold mesi_state in *. rewrite Ev.
    destruct (Arr.isHit lk); [|auto]. rewrite <-Ev, Arr.st_st, Ev in Ms || idtac. exact Ms. }
  pose proof (bo_evicted _ _ (wk_blocks _ _ _ _ _ _ _ _ _ K)) as Fe. rewrite Forall_forall in Fe.
  destruct (eqb v Invalid) eqn:Eq.
  - unfold find_evictee. apply safe_bind, safe_gets, safe_ret, HQ.
    destruct (EB.find _ _) as [e|] eqn:Ef; apply Hm; cbn; try done.
    + apply find_by_Some in Ef as [He _]. by apply Fe.
    + intros _. apply find_by_Some in Ef as [He _]. destruct (Fe e He) as (_ & Ns & _). apply not_true_iff_false. by intros Es%eqb_spec.
    + destruct K. split; try done. intros _. by apply find_none.
  - apply safe_ret, HQ, Hm; cbn; [|done..]. eapply work_valid; [|exact K].
    intros Pe. rewrite Pe in Ev. assert (eqb v Invalid = true); [|congruence]. apply eqb_spec. rewrite Ev.
    by destruct (Arr.isHit lk).
Qed.

Lemma found_waiting t x fd w lk c w' :
  found t x fd w -> waiting_maf fd = true -> work w t x lk c w' -> waiting t w'.
Proof using.
  intros Fd Wt K b Eb. change (getBlockAddress (impl w') (theAddress b)) with (Arr.blockAddress (array w') (theAddress b)).
  rewrite (wk_message _ _ _ _ _ _ _ _ _ K b Eb).
  rewrite (Arr.same_block _ _ _ (wk_geometry _ _ _ _ _ _ _ _ _ K)).
  destruct (waiting_kept w w' _ (wk_handled _ _ _ _ _ _ _ _ _ K) (fo_waiting _ _ _ _ Fd Wt)) as [iter Hi]. by exists iter.
Qed.

Lemma back_fits_legal t x fd w lk c a w' :
  found t x fd w -> back_fits fd a -> work w t x lk c w' -> usable a /\ legal_back t w' a.
Proof using.
  intros Fd [P F] K. split; [by apply proper_usable|]. unfold legal_back.
  destruct (theAction a); try done; destruct F as [? Wt]; (split; [done|]); by eapply found_waiting.
Qed.

(** What is decided before the request that waits is looked at. *)
Definition decided_so_far t x fd w (r : option Action) w' : Prop :=
  work w t x (fd_result fd) (negb (from_eb fd)) w' /\
  match r with Some a => back_fits fd a | None => store w' = store w end.

Lemma safe_decided t x fd w (n : M W (option Action)) :
  found t x fd w ->
  keeps w t x (negb (from_eb fd)) (fd_result fd) n (fun r lk' => lk' = fd_result fd /\ exists a, r = Some a /\ back_fits fd a) ->
  safe mesi_assert n (decided_so_far t x fd w) w.
Proof using.
  intros Fd Kn. eapply safe_kept; [apply Fd|exact Kn|]. intros r ? w' (-> & a & -> & F) K. by split.
Qed.

Lemma safe_decided_action t x fd w (n : M W Action) :
  found t x fd w ->
  keeps w t x (negb (from_eb fd)) (fd_result fd) n (fun a lk' => lk' = fd_result fd /\ back_fits fd a) ->
  safe mesi_assert (a ← n; mret (Some a)) (decided_so_far t x fd w) w.
Proof using.
  intros Fd Kn. apply safe_decided; [done|]. eapply keeps_bind; [exact Kn|]. intros a ? [-> F]. apply keeps_ret.
  split; [done|]. by exists a.
Qed.

Lemma safe_MissNotify t x (m : Message) fd w :
  found t x fd w -> safe mesi_assert (back_MissNotify mc others_fill t m fd) (decided_so_far t x fd w) w.
Proof using.
  intros Fd. unfold back_MissNotify. apply safe_bind, safe_assert; [done|]. intros Wt.
  apply safe_deref_message. intros orig Eo. pose proof (fo_same _ _ _ _ Fd orig Eo) as So.
  apply safe_bind. destruct (isWrite _) as [b|]; [|by apply safe_fail]. apply safe_assert; [done|]. intros _.
  case_bool_decide; [apply safe_ret; split; [apply Fd|done]|]. apply safe_decided; [done|].
  unfold no_action. keep_step. keep_step. destruct (_ =? 0).
  - eapply keeps_bind; [by apply keeps_notify_complete|]. intros a1 ? [-> F]. apply keeps_ret. split; [done|]. by exists a1.
  - walk. split; [done|]. by eexists.
Qed.

Lemma safe_NonAllocatingStoreReply t x (m : Message) fd w :
  found t x fd w -> safe mesi_assert (back_NonAllocatingStoreReply mc t m) (decided_so_far t x fd w) w.
Proof using.
  intros Fd. unfold back_NonAllocatingStoreReply. destruct (is_level mc eL1).
  - apply safe_bind. unfold endRequest. apply safe_bind, safe_gets, safe_bind, safe_lift_any.
    destruct (CacheBuffers.endRequest _ _) as [r|why] eqn:Er.
    + apply safe_modify, safe_ret. split; [|done]. eapply work_impl; [apply Fd|done|eapply wk_blocks, Fd|apply Fd].
    + unfold CacheBuffers.endRequest in Er. case_match; simplify_eq. done.
  - apply safe_decided; [done|]. walk; (split; [done|]); eexists; fits.
Qed.

Lemma safe_back_switch t (m : Message) fd w :
  found t (theAddress (body m)) fd w ->
  safe mesi_assert (back_switch mc others_fill t m fd) (decided_so_far t (theAddress (body m)) fd w) w.
Proof using.
  intros Fd. unfold back_switch. destruct (Messages.theType (body m));
    first [by apply safe_fail
      |apply safe_ret; split; [apply Fd|reflexivity || (repeat split; cbn; by auto)]
      |apply safe_decided; [done|apply keeps_Fwd; apply Fd]
      |apply safe_decided_action; [done|first [apply keeps_WriteFwd|apply keeps_Invalidate|apply keeps_BackInvalidate|apply keeps_EvictAck]]
      |by apply safe_NonAllocatingStoreReply|by apply safe_MissNotify].
Qed.

Lemma mesi_back_ok t w :
  sound w -> safe mesi_assert (mesi_handleBackMessage mc others_fill originatorLevel t)
    (fun a w' => handled w w' /\ usable a /\ legal_back t w' a) w.
Proof using.
  intros So. unfold mesi_handleBackMessage. apply safe_deref_message. intros m Em.
  case_bool_decide; [apply safe_ret; split_and!; [reflexivity|by apply proper_usable|by right]|].
  apply safe_bind, safe_look_up with (t := t); [done..|]. intros fd Fd. set (x := theAddress (body m)) in *.
  apply safe_bind. eapply safe_mono; [by apply safe_back_switch|]. intros [a|] w' [K F].
  { apply safe_ret. split; [apply K|]. by eapply back_fits_legal. }
  unfold handle_reply. destruct (tMessage (fd_miss fd)) as [id|] eqn:Ei; [|by apply safe_fail].
  assert (Wt : waiting_maf fd = true) by (unfold waiting_maf; by rewrite Ei).
  apply safe_deref_message. intros orig Eo.
  assert (Sb : Arr.blockAddress (array w) (theAddress (body orig)) = Arr.blockAddress (array w) x).
  { apply (fo_same _ _ _ _ Fd). unfold message_of in *. by rewrite <-F. }
  eapply safe_kept with (R := fun a _ => back_fits fd a); [exact K| |].
  - eapply keeps_bind; [apply keeps_reply_switch; [exact Sb|done|apply Fd]|]. intros rp ? [-> R].
    eapply keeps_mono; [by apply keeps_finish_reply|]. by intros a ? [_ B].
  - intros a lk w2 B K2. split; [apply K2|]. by eapply back_fits_legal.
Qed.

(** *** Snoops, probes and evictions *)

(** Some lookup is good for every message. *)
Lemma any_work t w m :
  sound w -> message_of t w = Some m -> exists lk, work w t (theAddress (body m)) lk false w.
Proof using.
  intros So Em. destruct (Arr.lookup_ok _ (theAddress (body m)) (sound_array _ So)) as (lk & _ & Hd & _).
  exists lk. by eapply start_work.
Qed.

Lemma mesi_snoop_ok t w :
  sound w -> safe mesi_assert (mesi_handleSnoopMessage mc others_fill t)
    (fun a w' => handled w w' /\ usable a /\ legal_snoop a) w.
Proof using.
  intros So. unfold mesi_handleSnoopMessage. apply safe_deref_message. intros m Em. cbn zeta.
  apply safe_bind, safe_assert; [done|intros _]. apply safe_bind, safe_lookup; [done|]. intros lk Hd.
  assert (K : work w t (theAddress (body m)) lk false w) by by eapply start_work.
  eapply safe_kept with (R := fun a _ => proper a /\ legal_snoop a); [exact K| |].
  - unfold no_action. destruct (Messages.theType (body m));
      first [by apply keeps_fail|apply keeps_finalizeSnoop|apply keeps_EvictDirty
        |apply keeps_ret; split; [done|by left]].
  - intros a ? w' [P L] K'. split_and!; [apply K'|by apply proper_usable|done].
Qed.

Lemma mesi_iprobe_ok b t w :
  sound w -> safe mesi_assert (mesi_handleIprobe mc others_fill b t)
    (fun a w' => handled w w' /\ usable a /\ legal_iprobe a) w.
Proof using.
  intros So. unfold mesi_handleIprobe. apply safe_deref_message. intros m Em. cbn zeta.
  apply safe_bind, safe_lookup; [done|]. intros lk Hd.
  assert (K : work w t (theAddress (body m)) lk false w) by by eapply start_work.
  eapply safe_kept with (R := fun a _ => proper a /\ legal_iprobe a); [exact K| |].
  - walk; repeat split; unfold legal_iprobe; cbn; auto.
  - intros a ? w' [P L] K'. split_and!; [apply K'|by apply proper_usable|done].
Qed.

Lemma mesi_wake_ok t w :
  sound w -> safe mesi_assert (mesi_handleWakeSnoop mc others_fill originatorLevel t)
    (fun a w' => handled w w' /\ usable a) w.
Proof using.
  intros So. unfold mesi_handleWakeSnoop. apply safe_deref_message. intros m Em. cbn zeta.
  destruct (isEvictType _).
  - destruct (any_work t w m So Em) as (lk & K).
    eapply safe_kept with (R := fun a _ => proper a); [exact K| |].
    + walk; (eapply keeps_mono; [apply keeps_evict_snoop|by intros a3 ? [? _]]);
        [done|rewrite Heqb; by rewrite orb_true_r].
    + intros a ? w' P K'. split_and!; [apply K'|by apply proper_usable].
  - eapply safe_mono; [by apply mesi_back_ok|]. intros a w' (Hh & U & _). by split.
Qed.

Lemma mesi_idle_ok t w :
  sound w -> safe mesi_assert (mesi_handleIdleWork mc t) (fun a w' => handled w w' /\ usable a /\ legal_idle a) w.
Proof using.
  intros So. unfold mesi_handleIdleWork. apply safe_deref_message. intros m Em. cbn zeta.
  destruct (any_work t w m So Em) as (lk & K).
  eapply safe_kept with (R := fun a _ => proper a /\ legal_idle a); [exact K| |].
  - assert (Sp : forall m, MesiInvariant.stays mc others_fill originatorLevel w t (theAddress (body m)) false lk (preempt t (body m)))
      by (intros; apply stays_preempt).
    walk; try (repeat split; unfold legal_idle; cbn; by auto).
    eapply keeps_mono; [apply keeps_evict_snoop|].
    + by destruct (is_level mc eL1), (eqb _ _).
    + intros act ? (P & Ea & Ef & Eb). split; [done|]. by right.
  - intros a ? w' [P L] K'. split_and!; [apply K'|by apply proper_usable|done].
Qed.

(** An entry of the evict buffer is pending. *)
Lemma pending_blocks_ok a l n e :
  blocks_ok a l -> l !! n = Some e -> blocks_ok a (<[n := EB.setPending true e]> l).
Proof using.
  intros [Oa Os U F] Ee. split; [done..| |].
  - rewrite list_fmap_insert. cbn. rewrite list_insert_id; [done|]. by rewrite list_lookup_fmap, Ee.
  - apply Forall_insert; [done|]. exact (Forall_lookup_1 _ _ _ _ F Ee).
Qed.

Lemma mesi_evict_ok w :
  sound w -> safe mesi_assert (mesi_doEviction mc)
    (fun a w' => handled w w' /\ (theAction a <> kNoAction -> theBackMessage a = true)) w.
Proof using.
  intros So. destruct (Arr.lookup_ok _ 0 (sound_array _ So)) as (lk & _ & Hd & _).
  assert (K : work w noTransport 0 lk false w) by by split.
  unfold mesi_doEviction. apply safe_bind, safe_gets, safe_bind, safe_gets.
  destruct (EB.headEvictable _ _); [|by apply safe_ret]. apply safe_bind, safe_lift_any.
  unfold EB.pop_at. destruct (negb _); [done|]. destruct (EB.theEvictions (theEvictBuffer w) !! _) as [e|] eqn:Ee; [|done].
  destruct (EB.theEvictable e); [|done]. apply safe_bind, safe_modify. set (w1 := set_theEvictBuffer _ w).
  assert (He : isPrefetchRead (EB.theType e) = false).
  { pose proof (bo_evicted _ _ (wk_blocks _ _ _ _ _ _ _ _ _ K)) as F.
    pose proof (Forall_lookup_1 _ _ _ _ F Ee) as (_ & _ & _ & _ & Te). by destruct (EB.theType e). }
  assert (K1 : work w noTransport 0 lk false w1).
  { eapply work_evict; [exact K|done..| |done]. apply pending_blocks_ok; [by eapply wk_blocks|done]. }
  eapply safe_kept with (R := fun a _ => theBackMessage a = true); [exact K1| |].
  - walk. done.
  - intros a ? w' B K'. split; [apply K'|done].
Qed.

(** *** Idle work *)

Lemma handled_evict_alter w a f :
  (sound w -> blocks_ok (array w) (EB.theEvictions (EB.alter a f (theEvictBuffer w)))) ->
  handled w (set_theEvictBuffer (EB.alter a f (theEvictBuffer w)) w).
Proof using.
  intros Ok. destruct (reflexivity (R:=handled) w) as [? Hm He Hs _]. split; try done.
  intros So. pose proof So as (N & Fr & L & _). split_and!; [done..|]. by apply Ok.
Qed.

Lemma handled_new w b :
  (sound w -> isPrefetchRead (Messages.theType (body b)) = false) ->
  handled w (set_store (<[next_message w := b]> (store w)) (set_next_message (next_message w + 1) w)).
Proof using.
  intros Np. destruct (reflexivity (R:=handled) w) as [? Hm He Hs _]. split; try done.
  intros So. apply sound_new; auto.
Qed.

Lemma mesi_idle_available w :
  mesi_idleWorkAvailable w = true -> isFrontSideOutFull w = false /\ fullSnoopBuffer w = false.
Proof using.
  unfold mesi_idleWorkAvailable, fullSnoopBuffer. destruct (isFrontSideOutFull w); [done|].
  by destruct (SB.full (theSnoopBuffer w)).
Qed.

Lemma mesi_idle_start p w :
  mesi_idleWorkAvailable w = true -> safe mesi_assert (mesi_getIdleWorkMessage p)
    (fun r w' => exists w1, (p ← reserveSnoopBuffer p; reserveFrontSideOut p) w = Done (r.2, w1) /\ handled w1 w') w.
Proof using.
  intros [_ Hs]%mesi_idle_available. unfold fullSnoopBuffer, SB.full in Hs. apply Z.leb_gt in Hs.
  assert (Hd : exists p1 w1, (p ← reserveSnoopBuffer p; reserveFrontSideOut p) w = Done (p1, w1)).
  { unfold reserveSnoopBuffer, update_snoops, SB.reserve. cbn. unfold mbind, M_bind, gets, lift.
    rewrite (proj2 (Z.ltb_lt _ _)) by done. by eexists _, _. }
  destruct Hd as (p1 & w1 & Eq). unfold mesi_getIdleWorkMessage. apply safe_assoc, (safe_computed _ _ _ p1 w1 Eq).
  rewrite Eq. clear Hs. apply safe_bind, safe_gets.
  destruct (EB.getOldestRequiringSnoops (theEvictBuffer w1)) as [e|] eqn:Ee.
  - apply List.find_some in Ee as [Hin%list_elem_of_In _]. apply safe_bind, safe_modify.
    set (w2 := set_theEvictBuffer _ w1). assert (Hh : handled w1 w2).
    { apply handled_evict_alter. intros So. apply evictions_changed; [apply So|]. intros e' _. by case_match. }
    unfold new_message. apply safe_bind, safe_bind, safe_gets, safe_bind, safe_modify, safe_bind, safe_modify, safe_ret, safe_ret.
    exists w1. split; [done|]. etrans; [exact Hh|].
    apply (handled_new w2 (fresh_message (newMessage (EB.theType e) (EB.theBlockAddress e)))). cbn. intros So.
    pose proof (bo_evicted _ _ (proj2 (proj2 (proj2 So)))) as F. cbn in F. rewrite Forall_fmap, Forall_forall in F.
    destruct (F e Hin) as (_ & _ & _ & _ & Te). cbn in Te.
    assert (isEvictType (EB.theType e) = true) as Ty by (revert Te; by case_match). by destruct (EB.theType e).
  - unfold new_message. apply safe_bind, safe_bind, safe_gets, safe_bind, safe_modify, safe_bind, safe_modify, safe_ret, safe_ret.
    exists w1. split; [done|]. by apply (handled_new w1 (fresh_message (newMessage NumMemoryMessageTypes 0))).
Qed.

Lemma mesi_idle_stop p a w :
  0 < SB.theReserve (theSnoopBuffer w) ->
  safe mesi_assert (mesi_removeIdleWorkReservations p a)
    (fun p' w' => exists w1,
       (p ← unreserveSnoopBuffer p;
        if bool_decide (theAction a = kNoAction) then unreserveFrontSideOut p else mret p) w = Done (p', w1) /\
       handled w1 w') w.
Proof using.
  intros Hr. assert (Hd : exists x w', mesi_removeIdleWorkReservations p a w = Done (x, w')).
  { unfold mesi_removeIdleWorkReservations, unreserveSnoopBuffer, update_snoops, SB.unreserve. cbn.
    unfold mbind, M_bind, gets, lift. rewrite (proj2 (Z.ltb_lt _ _)) by done. cbn. case_bool_decide; by eexists _, _. }
  destruct Hd as (p1 & w1 & Eq). apply (safe_computed _ _ _ p1 w1 Eq). exists w1. by split.
Qed.

Lemma mesi_pending_ok y i :
  keeps_blocks mesi_assert (addPendingRequest y) i /\ keeps_blocks mesi_assert (removePendingRequest y) i.
Proof using.
  unfold keeps_blocks. cbn. split; [by split|]. unfold CacheBuffers.endRequest. by destruct (_ !! _).
Qed.

#[export] Instance mesi_laws : PolicyLaws mesi_assert.
Proof using.
  split.
  - apply mesi_request_ok.
  - apply mesi_back_ok.
  - apply mesi_snoop_ok.
  - apply mesi_iprobe_ok.
  - apply mesi_wake_ok.
  - apply mesi_idle_ok.
  - apply mesi_evict_ok.
  - intros msg w. by apply safe_ret.
  - apply mesi_idle_available.
  - apply mesi_idle_start.
  - apply mesi_idle_stop.
  - apply mesi_pending_ok.
  - intros i. by split; split.
Qed.
End laws.
