(* ===== verification/CacheProcesses.v ===== *)
(** * The processes of a timing cache keep its reservations

    Every process of CacheController.v that runs, and every process that ends, keeps
    the invariant of CacheReservations.v: it gives back what it does not need, hands
    to the entry of the miss address file what that waits for, and enters the tag
    pipeline with what its messages need, which it gives back when it sends them. *)

From stdpp Require Import base gmap list strings fin_maps.
From Stdlib Require Import ZArith Lia.
From S2P Require Import Prelude Messages TimingQueues CacheBuffers MissAddressFile CacheController.
From S2P Require Import CacheReservations.

Local Open Scope Z_scope.

Section processes.
Context {S P : Type} `{IndexOrder} `{Policy S P} `{PolicyInvariant S P} (cfg : CacheConfig) (floor : BackChannel -> nat)
  (pa : string -> Prop)
  `{!PolicyLaws pa}.
Implicit Types (w : Cache S P) (p : ProcessEntry) (a : Action).

Local Abbreviation E := (outside cfg pa).
Local Abbreviation res := (res cfg floor).

(** ** The end of a process *)

Definition ending_mask p (v : bool) : Z :=
  Z.lor (Z.lor (front_mask p) (back_mask cfg p)) (if v then kResEvictBuffer else 0).

Lemma ending_masks p : ending cfg p ->
  exists v, theReservations p = ending_mask p v /\ (v = true -> waits_for_reply (theType p)).
Proof using.
  intros (_ & _ & _ & [Ep|[W Ep]]); [exists false|exists true]; (split; [|done]); rewrite Ep; [|done].
  unfold ending_mask. by rewrite Z.lor_0_r.
Qed.

Lemma transmit_back_on p c :
  hasBackMessage p = true -> back_of cfg (theType p) = Some c ->
  (transmit_back cfg p : M (Cache S P) ProcessEntry) = (p ← unreserve_back c p; send_back c (processBack p);; mret p).
Proof using.
  intros Hb Hc. unfold transmit_back. rewrite Hb. destruct (theType p); cbn in Hc; try done; by injection Hc as <-.
Qed.

Lemma safe_transmit_back p v w :
  ending cfg p -> theReservations p = ending_mask p v -> res (theReservations p) 0 w ->
  safe E (transmit_back cfg p)
    (fun p' w' => same_pipes w w' /\ res (theReservations p') 0 w' /\
       p' = set_reservations (Z.lor (front_mask p) (if v then kResEvictBuffer else 0)) p) w.
Proof using.
  intros (_ & Nb & _) Ep R. destruct (hasBackMessage p) eqn:Hb.
  - destruct (back_of cfg (theType p)) as [c|] eqn:Hc; [|by destruct Nb].
    rewrite (transmit_back_on p c Hb Hc).
    assert (Eb : back_mask cfg p = res_of c) by (unfold back_mask; by rewrite Hb, Hc).
    assert (B1 : bit (res_of c) (theReservations p) = 1).
    { rewrite Ep. unfold ending_mask, front_mask. rewrite Eb. by destruct c, (hasFrontMessage p), v. }
    assert (Er : theReservations (process_unreserve (res_of c) p) =
                 Z.lor (front_mask p) (if v then kResEvictBuffer else 0)).
    { cbn. rewrite Ep. unfold ending_mask, front_mask. rewrite Eb. by destruct c, (hasFrontMessage p), v. }
    apply safe_bind. eapply safe_unreserve_back; [done|done|]. intros q L w1 R1. apply safe_bind.
    change (theReservations (process_unreserve (res_of c) p)) with (Z.land (theReservations p) (Z.lnot (res_of c))) in Er.
    rewrite Er in R1. eapply safe_send_back; [exact R1| | |].
    + unfold front_mask. by destruct c, (hasFrontMessage p), v.
    + cbn. by rewrite with_channel_same.
    + intros q' w2 R2. apply safe_ret. split; [done|]. unfold process_unreserve. rewrite Er. by split.
  - unfold transmit_back. rewrite Hb. apply safe_ret. split; [done|]. split; [done|].
    unfold ending_mask, back_mask in Ep. rewrite Hb, Z.lor_0_r in Ep. destruct p; cbn in *. by rewrite <-Ep.
Qed.

Lemma safe_transmit_front p (v : bool) w :
  theReservations p = Z.lor (front_mask p) (if v then kResEvictBuffer else 0) -> res (theReservations p) 0 w ->
  safe E (transmit_front cfg p)
    (fun p' w' => same_pipes w w' /\ res (theReservations p') 0 w' /\
       p' = set_reservations (if v then kResEvictBuffer else 0) p) w.
Proof using.
  intros Ep R. unfold transmit_front. unfold front_mask in Ep. destruct (hasFrontMessage p) eqn:Hf.
  - apply safe_bind. eapply safe_unreserve_fso; [done|by rewrite Ep; destruct v|]. cbn zeta.
    intros FD FI R1. apply safe_bind. eapply safe_sendFront; [exact R1|done|done|]. intros w2 S2 R2.
    assert (Er : Z.land (theReservations p) (Z.lnot kResFrontSideOut) = if v then kResEvictBuffer else 0)
      by (rewrite Ep; by destruct v).
    rewrite Er in R2. apply safe_ret. split; [by destruct S2|]. unfold process_unreserve. rewrite Er. by split.
  - apply safe_ret. split; [done|]. split; [done|]. rewrite Z.lor_0_l in Ep. destruct p; cbn in *. by rewrite <-Ep.
Qed.

Lemma safe_wake_if x s p m w (Q : ProcessEntry -> Cache S P -> Prop) (t : option Z) :
  res m 0 w -> (forall w', same_pipes w w' -> res m 0 w' -> Q p w') ->
  safe E ((if MAF.contains_state x s (theMaf w) then enqueueWakeMaf cfg x t else mret ());; mret p) Q w.
Proof using.
  intros R K. apply safe_bind. case_match.
  - eapply safe_enqueueWakeMaf; [done|]. intros l w1 R1. by apply safe_ret, K.
  - by apply safe_ret, safe_ret, K.
Qed.

Lemma safe_wake_others p w :
  (theRemoveMafEntry p = true -> theMafEntry p <> None) -> res 0 0 w ->
  safe E (wake_others cfg p)
    (fun p' w' => same_pipes w w' /\ res 0 0 w' /\ theReservations p' = theReservations p) w.
Proof using.
  intros Rm R. unfold wake_others. destruct (theRemoveMafEntry p).
  - cbn [theMafEntry set_removeMafEntry]. destruct (theMafEntry p) as [iter|]; [|by destruct Rm].
    apply safe_bind, safe_gets, safe_bind, safe_deref. intros x D. apply safe_bind, safe_assert; [intros _; apply out_completed|].
    intros Hc%bool_decide_eq_true. apply safe_bind, safe_addressOf. intros msg _. apply safe_bind.
    assert (K : forall w1, same_pipes w w1 -> theMaf w1 = theMaf w -> res 0 0 w1 ->
      safe E (update_maf (MAF.remove iter);; mret (set_removeMafEntry false p))
        (fun p' w' => same_pipes w w' /\ res 0 0 w' /\ theReservations p' = theReservations p) w1).
    { intros w1 S1 E1 R1. apply safe_bind. pose proof (r_maf _ _ _ _ _ R1) as Ok1. rewrite E1 in Ok1.
      destruct (MAF.maf_remove_ok _ _ iter x Ok1 D) as (f & l1 & l2 & Eq & Ok & _ & El & El').
      unfold update_maf. cbn. unfold safe, mbind, M_bind, gets, lift, modify. rewrite E1, Eq. split; [done|].
      split; [|done]. eapply res_file; [done|apply moved_none|exact Ok|done| |].
      2: { pose proof (r_listed _ _ _ _ _ R1) as Ls. rewrite E1, El in Ls. rewrite El'.
           apply Forall_app in Ls as [? Ls]. apply Forall_cons in Ls as [_ ?]. by apply Forall_app. }
      rewrite E1, El, El', !MAF.in_state_app. change (x :: l2) with ([x] ++ l2).
      rewrite MAF.in_state_app, MAF.in_state_one. case_decide; lia. }
    case_match; [|by apply safe_ret, K]. eapply safe_enqueueWakeMaf; [done|]. intros l w1 R1. by apply K.
  - destruct (theWakeMaf p).
    { apply safe_bind, safe_addressOf. intros msg _. apply safe_bind, safe_gets. by eapply safe_wake_if. }
    destruct (processWakeSnoops p).
    { apply safe_bind, safe_addressOf. intros msg _. apply safe_bind, safe_modify.
      set (w1 := set_theSnoopBuffer _ w).
      assert (R1 : res 0 0 w1).
      { eapply res_snoops; [done|apply moved_none|]. rewrite <-(r_snoops _ _ _ _ _ R).
        unfold SB.wakeWaitingEntries. by case_match. }
      apply safe_bind, safe_gets. case_match; [|destruct (processWakeEvicts p)].
      - apply safe_bind. eapply safe_enqueueWakeMaf; [done|]. intros l w2 R2. by apply safe_ret.
      - by eapply safe_wake_if.
      - by apply safe_bind, safe_ret, safe_ret. }
    destruct (processWakeEvicts p); [|by apply safe_ret].
    apply safe_bind, safe_addressOf. intros msg _. apply safe_bind, safe_gets. by eapply safe_wake_if.
Qed.

Lemma res_same_handled m e w w' w'' :
  same_pipes w w' -> res m e w' -> handled w' w'' -> same_pipes w w'' /\ res m e w''.
Proof using. intros Sp R Hh. split; [etrans; [done|by apply handled_same]|by eapply res_handled]. Qed.

(** A law's assertions are the protocol's. *)
Lemma safe_law {A} (m : M (Cache S P) A) (Q Q' : A -> Cache S P -> Prop) w :
  safe pa m Q w -> (forall x w', Q x w' -> Q' x w') -> safe E m Q' w.
Proof using. unfold safe. destruct (m w) as [[x w']|why]; [auto|]. intros Hp _. by apply out_policy. Qed.

Lemma safe_wake_region (b : bool) p m w (Q : () -> Cache S P -> Prop) :
  res m 0 w -> (forall w', same_pipes w w' -> res m 0 w' -> Q () w') ->
  safe E (if b then x ← addressOf p; enqueueWakeRegionMaf cfg x (trackerOf p) else mret ()) Q w.
Proof using.
  intros R K. destruct b; [|by apply safe_ret, K]. apply safe_bind, safe_addressOf. intros msg _.
  unfold enqueueWakeRegionMaf. cbn. apply safe_bind, safe_bind, safe_gets. case_match.
  - eapply safe_enqueueWakeMaf; [done|]. intros l w1 R1. by apply safe_ret, K.
  - by apply safe_ret, safe_ret, K.
Qed.

Lemma safe_doTransmit p w :
  ending cfg p -> res (theReservations p) 0 w ->
  safe E (doTransmitProcess cfg p) (fun _ w' => same_pipes w w' /\ res 0 0 w') w.
Proof using PolicyLaws0.
  intros Ed R. destruct (ending_masks p Ed) as (v & Ep & Wv). unfold doTransmitProcess.
  apply safe_bind. eapply safe_mono; [by apply (safe_transmit_back p v)|].
  intros p1 w1 (S1 & R1 & E1). cbn beta. apply safe_bind.
  eapply safe_mono; [apply (safe_transmit_front p1 v); [by rewrite E1|done]|].
  intros p2 w2 (S2 & R2 & E2). cbn beta. apply safe_bind.
  assert (K : forall w3, same_pipes w w3 -> res (theReservations p2) 0 w3 ->
    safe E (let p := if clears_evict_buffer p2 then clearEvictBufferReservation p2 else p2 in
      dbg_assert (theReservations p =? 0) "Process has no more work but still holds reservations!";;
      let p := set_proc_type eProcNoMoreWork p in
      (if processWakeRegion p then x ← addressOf p; enqueueWakeRegionMaf cfg x (trackerOf p) else mret ());;
      wake_others cfg p) (fun _ w' => same_pipes w w' /\ res 0 0 w') w3).
  { intros w3 S3 R3. set (p3 := if clears_evict_buffer p2 then _ else _).
    assert (E3 : theReservations p3 = 0 /\ theRemoveMafEntry p3 = theRemoveMafEntry p /\ theMafEntry p3 = theMafEntry p).
    { assert (Et : theType p2 = theType p) by (rewrite E2, E1; done).
      assert (Er : theReservations p2 = if v then kResEvictBuffer else 0) by (rewrite E2; done).
      unfold p3, clears_evict_buffer, hasReserved. rewrite Et, Er. destruct v.
      - rewrite bool_decide_eq_true_2 by by apply Wv. by subst p2 p1.
      - rewrite andb_false_r. by subst p2 p1. }
    destruct E3 as (Z3 & M3 & I3). cbn zeta. apply safe_bind, safe_assert; rewrite Z3; [done|]. intros _.
    apply safe_bind.
    assert (R0 : res 0 0 w3).
    { eapply res_evict_bit; [done|]. rewrite E2. cbn. split; [done|]. intros r Hr Nr. destruct v; [|done].
      destruct Hr as (k & Hk & ->). rewrite !bit_testbit by done. rewrite Z.bits_0. unfold kResEvictBuffer.
      change 0x10 with (2 ^ 4). rewrite Z.pow2_bits_false; [done|]. intros <-. by apply Nr. }
    eapply safe_wake_region; [done|]. intros w4 S4 R4.
    eapply safe_mono; [apply safe_wake_others; [|done]|].
    - cbn. rewrite M3, I3. apply Ed.
    - intros p5 w5 (S5 & R5 & _). split; [|done]. by etrans; [|etrans]. }
  case_bool_decide.
  - eapply safe_law; [apply law_complete|]. intros ? w3 Hh.
    destruct (res_same_handled _ _ w2 w2 w3 ltac:(done) R2 Hh) as [S3 R3]. apply K; [|done].
    by etrans; [|etrans].
  - apply safe_ret, K; [by etrans|done].
Qed.

(** ** Into the tag pipeline *)

(** There is a server for the process in the tag pipeline of its bank: with one bank,
    the one that was asked. *)
Definition tag_free w : Prop := theBanks cfg = 1 -> avail_at Tag_pipes 0 w.

Lemma safe_enqueueTag a p w :
  usable a -> ending cfg p -> res (theReservations p) 0 w -> tag_free w ->
  safe E (enqueueTagPipeline cfg a p)
    (fun _ w' => res 0 0 w' /\ theMAFPipeline w' = theMAFPipeline w) w.
Proof using.
  intros [U _] Ed R T. unfold enqueueTagPipeline. apply safe_bind, safe_assert; [intros N%Z.ltb_ge; lia|].
  intros _. apply safe_bind, safe_addressOf. intros msg _.
  set (x := getBlockAddress _ _). pose proof (sh_banks _ _ (r_shape _ _ _ _ _ R)) as Hb.
  pose proof (getBank_range cfg x Hb) as Bx.
  destruct (set_at cfg floor Tag_pipes _ _ _ _ w (getBank cfg x) (rule_Tag cfg) R Bx) as (pipe & El & Ev & F & _).
  destruct (Fifo.serverAvail_total (cycleCount w) pipe F) as [b Eb].
  destruct (decide (b = true)) as [->|Nb].
  - eapply (safe_pipe_enqueue cfg floor pa Tag_pipes (ending cfg) false); [constructor|exact R|exact Ed|exact Bx|by exists pipe|].
    intros l w1 R1 _. done.
  - assert (N1 : theBanks cfg <> 1).
    { intros B1. destruct (T B1) as (pipe' & El' & Av). assert (getBank cfg x = 0) as E0 by lia.
      rewrite E0 in El. cbn [Z.to_nat] in *. rewrite El in El'. injection El' as <-. by rewrite Eb in Av; injection Av. }
    unfold pipe_enqueue, pipe_at. cbn. unfold safe, mbind, M_bind, gets, lift. cbn in Ev. rewrite Ev.
    unfold Fifo.serverAvail in Eb. unfold Fifo.enqueue. destruct (Fifo.theServerReadyTimes pipe); [done|].
    injection Eb as Eb. rewrite Eb. destruct b; [done|]. cbn. by apply out_bank.
Qed.

(** ** Running a process

    What a process that runs leaves behind. *)
Definition left_by w (_ : ()) w' : Prop := res 0 0 w' /\ theMAFPipeline w' = theMAFPipeline w.

Lemma tag_free_same w w' : same_pipes w w' -> tag_free w -> tag_free w'.
Proof using. intros (_ & Et & _ & Ec) T B1. unfold avail_at. cbn. rewrite Et, Ec. by apply T. Qed.

Lemma left_same w w' : same_pipes w w' -> forall x w'', left_by w' x w'' -> left_by w x w''.
Proof using. intros (Em & _) x w'' [R E1]. split; [done|congruence]. Qed.

Lemma res_mask m m' e w : res m e w -> m = m' -> res m' e w.
Proof using. by intros R <-. Qed.

(** One call of the code, with the rule for it. *)
Ltac next R := let w' := fresh "w" in let R' := fresh "R" in
  lazymatch goal with
  | |- safe _ (let x := _ in _) _ _ => cbn zeta
  | |- safe _ (unreserveMAF _) _ _ =>
      eapply safe_unreserve_maf; [exact R|mask|]; intros ? ? w' R'; clear R; rename R' into R; cbn beta
  | |- safe _ (unreserveFrontSideOut _) _ _ =>
      eapply safe_unreserve_fso; [exact R|mask|]; intros w' _ _ R'; clear R; rename R' into R; cbn beta
  | Et : theType _ = _ |- safe _ (unreserveBSO _ _) _ _ =>
      unfold unreserveBSO; cbn [theType consumeAction process_unreserve set_reservations enqueueFrontTransport
        set_removeMafEntry]; rewrite Et
  | |- safe _ (unreserveBackSideOut_Request _) _ _ => unfold unreserveBackSideOut_Request
  | |- safe _ (unreserveBackSideOut_Snoop _ _) _ _ => unfold unreserveBackSideOut_Snoop
  | |- safe _ (unreserve_back _ _) _ _ =>
      eapply safe_unreserve_back; [exact R|mask|]; intros ? ? w' R'; clear R; rename R' into R; cbn beta
  | |- safe _ (unreserveEvictBuffer _) _ _ =>
      eapply (safe_unreserve_evict _ _ pa); [exact R|]; intros ? ? w' R'; clear R; rename R' into R; cbn beta
  | |- safe _ (unreserveSnoopBuffer _) _ _ =>
      eapply safe_unreserve_snoop; [exact R|mask|]; intros ? w' R'; clear R; rename R' into R; cbn beta
  | |- safe _ (enqueueBackTransport _ _) _ _ =>
      eapply safe_enqueue_back; [exact R|]; intros ? w' ? R'; clear R; rename R' into R; cbn beta
  | |- safe _ (unreserveBackSideOut_Evict _ _) _ _ => unfold unreserveBackSideOut_Evict
  | |- safe _ (unreserveScheduledEvict _) _ _ =>
      eapply safe_unreserve_sched; [exact R|mask|]; intros w' R'; clear R; rename R' into R; cbn beta
  | |- safe _ (modify_maf _ _) _ _ =>
      eapply safe_modify_maf; [exact R|]; intros ? w' R'; clear R; rename R' into R; cbn beta;
      first [rewrite decide_True in R by done|rewrite decide_False in R by done]
  | |- safe _ (mret _) _ _ => apply safe_ret
  | |- safe _ (dbg_assert _ _) _ _ => apply safe_assert; [done|intros _]
  | |- safe _ (_ ≫= _) _ _ => apply safe_bind
  end.

(** The last call enters the tag pipeline. *)
Lemma safe_tag_last a p m w0 w e :
  usable a -> ending cfg p -> tag_free w0 -> same_pipes w0 w -> res m e w -> theReservations p = m -> 0 <= e ->
  safe E (enqueueTagPipeline cfg a p) (left_by w0) w.
Proof using.
  intros U Ed T Sp R <- He. eapply safe_mono; [eapply safe_enqueueTag; [done|done| |]|].
  - by eapply res_leak.
  - by eapply tag_free_same.
  - by apply left_same.
Qed.

Lemma safe_wait s p w :
  theReservations p = start_mask cfg eProcRequest -> theType p = eProcRequest -> s <> kWaitResponse ->
  res (start_mask cfg eProcRequest) 1 w ->
  safe E (insert_waiting cfg s p) (left_by w) w.
Proof using PolicyLaws0.
  intros Ep Et Ns R. unfold insert_waiting. repeat next R.
  eapply safe_alloc_maf; [exact R|reflexivity| |].
  - match goal with L : _ + held kResMaf _ < _ |- _ => exact L end.
  - cbn beta. intros ? w9 R9. rewrite decide_False in R9 by done. split; [exact R9|done].
Qed.

Lemma safe_examineRequest t b tracker w (Q : Action -> Cache S P -> Prop) :
  sound w -> (forall a w', handled w w' -> usable a -> legal_request a -> Q a w') ->
  safe E (examineRequest t b tracker) Q w.
Proof using PolicyLaws0.
  intros Sd K. unfold examineRequest. apply safe_null. intros msg _.
  destruct (isWrite _); [|apply safe_fail, out_write]. apply safe_bind. eapply safe_law; [by apply law_request|].
  intros [[? ?] a] w' (Hh & U & L). apply safe_ret. by apply K.
Qed.

Lemma safe_handleRequestTransport m e t b w (Q : Action -> Cache S P -> Prop) :
  res m e w -> (forall a w', handled w w' -> usable a -> legal_request a -> Q a w') ->
  safe E (handleRequestTransport t b) Q w.
Proof using PolicyLaws0.
  intros R K. unfold handleRequestTransport. apply safe_null. intros msg Em. cbn zeta.
  apply safe_bind, safe_assert; [intros _; apply out_request|intros _].
  apply safe_bind, safe_assert; [intros _; apply out_snoop_channel|intros _].
  apply safe_bind. unfold check_tracker at 1. destruct (tTracker t); [|apply safe_fail, out_tracker]. apply safe_ret.
  assert (N : isPrefetchRead (Messages.theType (body msg)) = false).
  { unfold message_of in Em. destruct (tMessage t) as [id|]; [|done].
    destruct (r_sound _ _ _ _ _ R) as (N & _). by apply (N id). }
  rewrite N. cbn [andb]. apply safe_examineRequest; [apply R|done].
Qed.

(** A process looks at its message and is no longer pending. *)
Lemma safe_remove_pending x m e w (Q : () -> Cache S P -> Prop) :
  res m e w -> (forall i, let w1 := set_impl i w in res m e w1 -> Q () w1) ->
  safe E (i ← gets impl; i ← lift (removePendingRequest x i); modify (set_impl i)) Q w.
Proof using PolicyLaws0.
  intros R K. apply safe_bind, safe_gets, safe_bind. apply (safe_pending cfg pa (removePendingRequest x)).
  - apply law_pending.
  - intros i Bi. apply safe_modify, K. by apply res_impl.
Qed.

(** A process that has run up to its action. *)
Ltac open_started St Et :=
  let Ep := fresh "Ep" in let Hf := fresh "Hf" in let Hb := fresh "Hb" in let Ht := fresh "Ht" in
  let Hr := fresh "Hr" in
  destruct St as (Ep & _ & _ & Hf & Hb & Ht & Hr); rewrite Et in Ep; unfold hasFrontMessage, hasBackMessage in Hf, Hb;
  apply orb_false_iff in Hf as [? ?].

(** The process holds what its messages need. *)
Ltac ends :=
  unfold ending, waits_for_reply, front_mask, back_mask, hasFrontMessage, hasBackMessage; cbn;
  repeat match goal with H : _ = _ |- _ => rewrite H end; cbn; auto 10; try done;
  unfold snoop_channel; destruct (theUseReplyChannel cfg); cbn; auto 10; try done.

Ltac enters := eapply safe_tag_last; [eassumption|ends|eassumption|eassumption|eassumption|ends|ends].

Ltac allocates R :=
  let w' := fresh "w" in let R' := fresh "R" in
  eapply safe_alloc_maf; [exact R|mask| |];
  [match goal with L : _ + held kResMaf _ < _ |- _ => exact L end
  |intros ? w' R'; clear R; rename R' into R; cbn beta;
   first [rewrite decide_True in R by done|rewrite decide_False in R by done]].

(** The state after a handler, and the process with its action. *)
Ltac after R Hh a p St Et :=
  let R' := fresh "R" in let p1 := fresh "p1" in
  pose proof (res_handled cfg floor _ _ _ _ R Hh) as R'; clear R; rename R' into R;
  lazymatch type of R with CacheReservations.res _ _ _ _ ?w' =>
  lazymatch goal with T : tag_free ?w |- _ =>
    assert (same_pipes w w') by (apply handled_same in Hh; exact Hh) end end;
  set (p1 := consumeAction a p); change (started cfg p1) in St;
  lazymatch type of Et with _ = ?t => change (theType p1 = t) in Et end;
  change (theReservations p) with (theReservations p1) in R.

Lemma safe_runRequest p w :
  started cfg p -> theType p = eProcRequest -> res (theReservations p) 1 w -> tag_free w ->
  safe E (runRequestProcess cfg p) (left_by w) w.
Proof using PolicyLaws0.
  intros St Et R T. unfold runRequestProcess.
  apply safe_bind, safe_assert; [rewrite bool_decide_eq_true_2 by auto; done|intros _].
  apply safe_bind, safe_addressOf. intros msg Em. apply safe_bind, safe_gets. cbn zeta. apply safe_null.
  intros msg' _. apply safe_bind, safe_gets, safe_bind. apply (safe_pending cfg pa (removePendingRequest _)).
  { apply law_pending. } intros i Bi. apply safe_bind, safe_modify.
  apply (res_impl _ _ _ _ _ i) in R; [|exact Bi]. set (w1 := set_impl i w) in *. apply safe_bind.
  eapply safe_handleRequestTransport; [exact R|]. intros a w2 Hh U L.
  after R Hh a p St Et. clearbody w1 p1.
  open_started St Et. rewrite Ep in R. cbn zeta.
  unfold legal_request in L. destruct (theAction a); try done.
  - destruct L as [-> ->]. repeat next R. by enters.
  - eapply safe_mono; [by apply safe_wait|by apply left_same].
  - eapply safe_mono; [by apply safe_wait|by apply left_same].
  - eapply safe_mono; [by apply safe_wait|by apply left_same].
  - destruct L as [-> ->]. repeat next R. allocates R. by enters.
  - pose proof (proj2 U L) as G. rewrite L. repeat next R. allocates R. repeat next R. by enters.
  - pose proof (proj2 U L) as G. rewrite L. repeat next R. by enters.
  - eapply safe_mono; [by apply safe_wait|by apply left_same].
  - destruct L as [L ->]. pose proof (proj2 U L) as G. rewrite L. repeat next R. allocates R. by enters.
Qed.

Lemma safe_maf_entry p (Q : MAF.MafEntry -> Cache S P -> Prop) w :
  (forall iter x, theMafEntry p = Some iter -> MAF.deref iter (theMaf w) = Done x -> Q x w) ->
  safe E (maf_entry p) Q w.
Proof using.
  intros K. unfold maf_entry. destruct (theMafEntry p) as [iter|] eqn:Em; [|apply safe_fail, out_stale].
  apply safe_bind, safe_gets, safe_deref. intros x D. by apply (K iter).
Qed.

Lemma safe_wait_again s p w :
  theType p = eProcMAFWakeup -> s <> kWaitResponse -> res (start_mask cfg eProcMAFWakeup) 1 w ->
  safe E (wait_again cfg s p) (left_by w) w.
Proof using PolicyLaws0.
  intros Et Ns R. unfold wait_again. repeat next R. by split.
Qed.

Lemma safe_runWakeMaf p w :
  started cfg p -> theType p = eProcMAFWakeup -> res (theReservations p) 1 w -> tag_free w ->
  safe E (runWakeMafProcess cfg p) (left_by w) w.
Proof using PolicyLaws0.
  intros St Et R T. unfold runWakeMafProcess. rewrite Et. apply safe_bind, safe_assert; [done|intros _].
  apply safe_bind, safe_maf_entry. intros iter x Em _. apply safe_null. intros msg _.
  apply safe_bind, safe_gets, safe_bind. apply (safe_pending cfg pa (removePendingRequest _)).
  { apply law_pending. } intros i Bi. apply safe_bind, safe_modify.
  apply (res_impl _ _ _ _ _ i) in R; [|exact Bi]. set (w1 := set_impl i w) in *. apply safe_bind.
  unfold wakeMaf. apply safe_bind. unfold check_tracker. destruct (tTracker _); [|apply safe_fail, out_tracker].
  apply safe_ret, safe_examineRequest; [apply R|]. intros a w2 Hh U L.
  after R Hh a p St Et. change (theMafEntry p) with (theMafEntry p1) in Em. clearbody w1 p1.
  open_started St Et. rewrite Ep in R. cbn zeta.
  unfold legal_request in L. destruct (theAction a); try done.
  - destruct L as [-> ->]. repeat next R. by enters.
  - eapply safe_mono; [by apply safe_wait_again|by apply left_same].
  - eapply safe_mono; [by apply safe_wait_again|by apply left_same].
  - eapply safe_mono; [by apply safe_wait_again|by apply left_same].
  - destruct L as [-> ->]. repeat next R. by enters.
  - pose proof (proj2 U L) as G. rewrite L. repeat next R. by enters.
  - pose proof (proj2 U L) as G. rewrite L. repeat next R. by enters.
  - eapply safe_mono; [by apply safe_wait_again|by apply left_same].
  - destruct L as [L ->]. pose proof (proj2 U L) as G. rewrite L. repeat next R. by enters.
Qed.

Lemma safe_runIProbe p w :
  started cfg p -> theType p = eProcIProbe -> res (theReservations p) 0 w -> tag_free w ->
  safe E (runIProbeProcess cfg p) (left_by w) w.
Proof using PolicyLaws0.
  intros St Et R T. unfold runIProbeProcess.
  apply safe_bind, safe_maf_entry. intros iter x Em _. apply safe_bind.
  eapply safe_law; [apply law_iprobe, R|]. intros a w2 (Hh & U & L).
  after R Hh a p St Et. change (theMafEntry p) with (theMafEntry p1) in Em. clearbody p1.
  open_started St Et. rewrite Ep in R. cbn zeta.
  destruct L as [-> | [-> L]].
  - repeat next R. split; [exact R|]. match goal with H : same_pipes _ _ |- _ => apply H end.
  - pose proof (proj2 U L) as G. rewrite L. repeat next R. by enters.
Qed.

Lemma safe_append_iprobe x i m e (Q : () -> Cache S P -> Prop) w :
  res m e w -> (forall l, let w1 := set_theIProbeList l w in res m e w1 -> Q () w1) ->
  safe E (l ← list_at theIProbeList (getBank cfg x); put_list theIProbeList set_theIProbeList (getBank cfg x) (l ++ [i]))
    Q w.
Proof using.
  intros R K. destruct (sh_lists _ _ (r_shape _ _ _ _ _ R)) as [_ L].
  pose proof (getBank_range cfg x (sh_banks _ _ (r_shape _ _ _ _ _ R))) as B.
  apply safe_bind. eapply safe_list_at; [done..|]. intros l _. eapply safe_put_list; [done..|].
  apply K. eapply res_iprobes; [done|]. by rewrite length_insert.
Qed.

Lemma safe_runSnoop p w :
  started cfg p -> theType p = eProcSnoop -> res (theReservations p) 0 w -> tag_free w ->
  safe E (runSnoopProcess cfg p) (left_by w) w.
Proof using PolicyLaws0.
  intros St Et R T. unfold runSnoopProcess. apply safe_bind, safe_addressOf. intros msg _.
  apply safe_bind, safe_gets, safe_bind. unfold message_type. apply safe_null. intros msg' _. apply safe_ret.
  set (x := getBlockAddress _ _). set (t := Messages.theType _).
  destruct (if isProbeType t then _ else _) as [temp|] eqn:Hp.
  - assert (Hf : MAF.find x kWaitProbe (theMaf w) = Some temp) by (unfold MAF.getProbingMAFEntry in Hp; by destruct (isProbeType t)).
    destruct (MAF.find_deref _ _ _ _ _ (r_maf _ _ _ _ _ R) Hf) as (en & D & _ & Es).
    open_started St Et. rewrite Ep in R. apply safe_bind, safe_lift_any.
    destruct (probe_result t) as [s|why] eqn:Hs.
    + apply safe_bind. eapply safe_modifyState; [exact R|exact D|]. intros f w1 R1. clear R. rename R1 into R.
      rewrite Es in R. rewrite !decide_False in R by (destruct t; simplify_eq/=; done).
      repeat next R. apply safe_ret. eapply safe_append_iprobe; [exact R|]. intros l w3 R3.
      split; [|done]. eapply res_mask; [exact R3|mask].
    + assert (why = "probe type") as -> by (destruct t; simplify_eq/=; done). apply out_probe.
  - apply safe_bind. eapply safe_law; [apply law_snoop, R|]. intros a w2 (Hh & U & L).
    after R Hh a p St Et. clearbody p1. open_started St Et. rewrite Ep in R. cbn zeta.
    destruct L as [-> | ->]; repeat next R; by enters.
Qed.

(** What a process on a message of the back side has left when its snoop slot is
    given back. *)
Record back_process (t : Transport) w p w' : Prop := {
  bp_res : res (Z.lor kResFrontSideOut (res_of (snoop_channel cfg))) 0 w';
  bp_mask : theReservations p = Z.lor kResFrontSideOut (res_of (snoop_channel cfg));
  bp_type : back_of cfg (theType p) = Some (snoop_channel cfg);
  bp_front : theSendToD p = false /\ theSendToI p = false;
  bp_back : theSendToBack p = false;
  bp_data : theTransmitAfterTag p = false;
  bp_remove : theRemoveMafEntry p = false;
  bp_orig : theOrig p = t;
  bp_same : same_pipes w w';
}.

Lemma safe_waiting_entry p m e w (Q : MAF.MafEntry -> Cache S P -> Prop) :
  res m e w -> waiting (theOrig p) w ->
  (forall x, MAF.deref (MAF.maf_iter x) (theMaf w) = Done x -> MAF.state x = kWaitResponse -> Q x w) ->
  safe E (waiting_entry p) Q w.
Proof using.
  intros R W K. unfold waiting_entry. apply safe_bind, safe_addressOf. intros msg Em. apply safe_bind, safe_gets.
  destruct (W (body msg)) as [iter Hi]; [unfold body_of; by rewrite Em|]. rewrite Hi.
  destruct (MAF.find_deref _ _ _ _ _ (r_maf _ _ _ _ _ R) Hi) as (x & D & _ & Ex).
  eapply safe_deref. intros y Dy. rewrite D in Dy. injection Dy as <-.
  pose proof (find_by_Some _ _ _ _ (MAF.deref_Done _ _ _ D)) as [_ <-]. by apply K.
Qed.

(** The entry that waited gives up its slot of the evict buffer. *)
Lemma safe_answered x s p m e (Q : () -> Cache S P -> Prop) w :
  res m e w -> theMafEntry p = Some (MAF.maf_iter x) -> MAF.deref (MAF.maf_iter x) (theMaf w) = Done x ->
  MAF.state x = kWaitResponse -> s <> kWaitResponse ->
  (forall f, let w1 := set_theMaf f w in res m (e + 1) w1 -> Q () w1) -> safe E (modify_maf s p) Q w.
Proof using.
  intros R Em D Ex Ns K. unfold modify_maf. rewrite Em. eapply safe_modifyState; [done|done|].
  intros f w1 R1. rewrite decide_True in R1 by done. rewrite decide_False in R1 by done. rewrite Z.sub_0_r in R1.
  by apply K.
Qed.

Lemma safe_evict_slot m e (Q : () -> Cache S P -> Prop) w :
  res m e w -> (forall s i, let w1 := set_impl i (set_theEvictBuffer s w) in res m (e - 1) w1 -> Q () w1) ->
  safe E evict_unreserve Q w.
Proof using PolicyLaws0.
  intros R K. eapply (safe_evict_unreserve cfg floor pa); [done|]. intros s i w1 R1. apply K, R1, moved_none.
Qed.

Lemma safe_back_send a p w0 w :
  back_process (theOrig p) w0 p w -> tag_free w0 -> usable a -> theAction a = kSend ->
  legal_back (theOrig p) w a -> safe E (back_action cfg a p) (left_by w0) w.
Proof using PolicyLaws0.
  intros [R Ep Et [? ?] ? ? ? _ ?] T U Ea L. unfold legal_back in L. unfold back_action. rewrite Ea in *.
  destruct (theFrontMessage a) eqn:Hf.
  - pose proof (proj2 U Hf) as G. cbn zeta. destruct (theBackMessage a); repeat next R; by enters.
  - destruct L as [?|L]; [done|]. rewrite L. repeat next R. by enters.
Qed.

Lemma safe_back_action a p w0 w :
  back_process (theOrig p) w0 p w -> tag_free w0 -> usable a -> legal_back (theOrig p) w a ->
  safe E (back_action cfg a p) (left_by w0) w.
Proof using PolicyLaws0.
  intros B T U L. destruct (decide (theAction a = kSend)) as [Ea|Na]; [by apply safe_back_send|].
  unfold legal_back in L. destruct B as [R Ep Et [? ?] ? ? ? _ Sp]. unfold back_action.
  destruct (theAction a) eqn:Ea; try done.
  - repeat next R. cbn [processWakeEvicts set_proc_type set_wakeAfterEvict]. destruct (theWakeEvicts a).
    + apply safe_bind. eapply safe_mono; [apply safe_doTransmit; [ends|eapply res_mask; [exact R|ends]]|].
      intros ? w' [(? & _) R']. apply safe_ret. split; [done|]. etrans; [done|]. apply Sp.
    + by enters.
  - destruct L as (Lf & W). rewrite Lf. next R. eapply safe_waiting_entry; [exact R|exact W|].
    intros x D Ex. cbn zeta. next R. eapply safe_answered; [exact R|done|exact D|done|done|].
    intros ? ? R1. clear R. rename R1 into R. do 4 next R. apply safe_bind, safe_assert; [intros _; apply out_reply|intros _].
    repeat next R.
    eapply safe_evict_slot; [exact R|]. intros ? ? ? R3. clear R. rename R3 into R. by enters.
  - destruct L as (Lf & W). pose proof (proj2 U Lf) as G. rewrite Lf. next R. eapply safe_waiting_entry; [exact R|exact W|].
    intros x D Ex. cbn zeta. next R. eapply safe_answered; [exact R|done|exact D|done|done|].
    intros ? ? R1. clear R. rename R1 into R. do 3 next R. destruct (theBackMessage a); repeat next R;
      (eapply safe_evict_slot; [exact R|]; intros ? ? ? R3; clear R; rename R3 into R; by enters).
  - next R. eapply safe_waiting_entry; [exact R|exact L|].
    intros x D Ex. cbn zeta. do 6 next R. eapply safe_answered; [exact R|done|exact D|done|done|].
    intros ? ? R1. clear R. rename R1 into R. next R.
    eapply safe_evict_slot; [exact R|]. intros ? ? ? R3. clear R. rename R3 into R. next R.
    apply safe_addressOf. intros msg _. eapply safe_enqueueWakeMaf; [exact R|]. intros ? ? R4.
    split; [|apply Sp]. eapply res_mask; [exact R4|mask].
  - next R. eapply safe_waiting_entry; [exact R|exact L|].
    intros x D Ex. cbn zeta. next R. eapply safe_answered; [exact R|done|exact D|done|done|].
    intros ? ? R1. clear R. rename R1 into R. repeat next R.
    eapply safe_evict_slot; [exact R|]. intros ? ? ? R3. clear R. rename R3 into R. by enters.
Qed.

Lemma safe_runBack p w :
  started cfg p -> theType p = eProcBackRequest \/ theType p = eProcBackReply ->
  res (theReservations p) 0 w -> tag_free w -> safe E (runBackProcess cfg p) (left_by w) w.
Proof using PolicyLaws0.
  intros (Ep & _ & _ & Hf & Hb & Ht & Hr) Et R T. unfold hasFrontMessage, hasBackMessage in *.
  apply orb_false_iff in Hf. unfold runBackProcess. apply safe_bind.
  eapply safe_law; [apply law_back, R|]. intros a w2 (Hh & U & L).
  pose proof (res_handled cfg floor _ _ _ _ R Hh) as R2. clear R. apply handled_same in Hh.
  rewrite Ep in R2. cbn zeta. apply safe_bind.
  apply safe_mono with (Q := fun p' w' => back_process (theOrig p) w p' w' /\ (legal_back (theOrig p) w' a)).
  - cbn [theType consumeAction]. case_bool_decide as D; rewrite ?D in *.
    + next R2. split; [|exact L]. split; cbn; rewrite ?Ep, ?D; try done; try mask.
      eapply res_mask; [exact R2|mask].
    + destruct Et as [?|Et]; [done|]. rewrite Et in *. apply safe_ret. split; [|exact L].
      split; cbn; rewrite ?Ep, ?Et; done.
  - intros p' w' [B L']. pose proof (bp_orig _ _ _ _ B) as Eo. rewrite <-Eo in *. by apply safe_back_action.
Qed.

Lemma safe_runEvict p w :
  started cfg p -> theType p = eProcEviction -> res (theReservations p) 0 w ->
  safe E (runEvictProcess cfg p) (left_by w) w.
Proof using PolicyLaws0.
  intros (Ep & _) Et R. rewrite Et in Ep. unfold runEvictProcess. apply safe_bind.
  eapply safe_law; [apply law_evict, R|]. intros a w2 (Hh & L).
  pose proof (res_handled cfg floor _ _ _ _ R Hh) as R2. clear R. apply handled_same in Hh. destruct Hh as (Hm & _).
  rewrite Ep in R2. repeat next R2. case_bool_decide as D.
  - apply safe_ret. split; [|exact Hm]. eapply res_mask; [exact R2|mask].
  - rewrite L by done. next R2. next R2. unfold sendBack_Evict.
    eapply safe_send_back; [exact R2|mask| |].
    + cbn. rewrite with_channel_same.
      match goal with L : _ + held (res_of (evict_channel cfg)) _ < _ |- _ => exact L end.
    + intros ? ? R3. split; [|exact Hm]. eapply res_mask; [exact R3|mask].
Qed.

Lemma safe_runWakeSnoop p w :
  started cfg p -> theType p = eProcWakeSnoop -> res (theReservations p) 0 w -> tag_free w ->
  safe E (runWakeSnoopProcess cfg p) (left_by w) w.
Proof using PolicyLaws0.
  intros St Et R T. unfold runWakeSnoopProcess. apply safe_bind, safe_assert; [intros _; apply out_snoop_tracker|intros _].
  apply safe_bind. eapply safe_law; [apply law_wake_snoop, R|]. intros a w2 (Hh & U).
  after R Hh a p St Et. 
  assert (Rq : requiresTag p1 = true).
  { destruct U as [U _]. unfold p1, requiresTag. cbn. by destruct (Z.eqb_spec (theRequiresTag a) 0); [lia|]. }
  clearbody p1. open_started St Et. rewrite Ep in R. cbn zeta. unfold requiresTag in *.
  repeat next R. destruct (theAction a) eqn:Ea; try apply safe_fail, out_wake.
  - repeat next R. cbn. rewrite Rq. by enters.
  - destruct (theFrontMessage a) eqn:Hf; [pose proof (proj2 U Hf) as G|]; destruct (theBackMessage a);
      repeat next R; cbn; rewrite Rq; by enters.
Qed.

(** What safe calls leave is what one of them leaves in particular. *)
Lemma safe_Done {A} (m : M (Cache S P) A) (Q : A -> Cache S P -> Prop) w x w' :
  safe E m Q w -> m w = Done (x, w') -> Q x w'.
Proof using. unfold safe. intros Hs Eq. by rewrite Eq in Hs. Qed.

Lemma safe_idle_stop p a w (Q : ProcessEntry -> Cache S P -> Prop) :
  res (start_mask cfg eProcIdleWork) 0 w ->
  (forall p' w', same_pipes w w' ->
     (if decide (theAction a = kNoAction)
      then p' = process_unreserve kResFrontSideOut (process_unreserve kResSnoopBuffer p) /\ res 0 0 w'
      else p' = process_unreserve kResSnoopBuffer p /\ res kResFrontSideOut 0 w') -> Q p' w') ->
  safe E (removeIdleWorkReservations p a) Q w.
Proof using PolicyLaws0.
  intros R K. eapply safe_law; [apply law_idle_stop|].
  { rewrite (r_snoops _ _ _ _ _ R). pose proof (held_nonneg kResSnoopBuffer w).
    change (bit kResSnoopBuffer (start_mask cfg eProcIdleWork)) with 1. lia. }
  intros p' w' (w1 & Eq & Hh).
  apply (safe_Done _ (fun p' w' => same_pipes w w' /\ (if decide (theAction a = kNoAction)
      then p' = process_unreserve kResFrontSideOut (process_unreserve kResSnoopBuffer p) /\ res 0 0 w'
      else p' = process_unreserve kResSnoopBuffer p /\ res kResFrontSideOut 0 w'))) in Eq.
  - destruct Eq as (Sp & Eq). apply K; [etrans; [done|by apply handled_same]|].
    case_decide; destruct Eq as [Eq R1]; (split; [done|by eapply res_handled]).
  - repeat next R. case_bool_decide; repeat next R; (split; [done|]);
      first [rewrite decide_True by done|rewrite decide_False by done]; (split; [done|]);
      (eapply res_mask; [exact R|mask]).
Qed.

Lemma safe_runIdle p w :
  started cfg p -> theType p = eProcIdleWork -> res (theReservations p) 0 w -> tag_free w ->
  safe E (runIdleWorkProcess cfg p) (left_by w) w.
Proof using PolicyLaws0.
  intros St Et R T. unfold runIdleWorkProcess. apply safe_null. intros msg _.
  apply safe_bind. unfold new_tracker. apply safe_bind, safe_gets, safe_bind, safe_modify, safe_ret.
  assert (R1 : res (theReservations p) 0 (set_next_tracker (next_tracker w + 1) w)).
  { destruct R. split; try done. by destruct r_shape. }
  clear R. set (w1 := set_next_tracker _ w) in *. cbn zeta. set (p0 := set_orig _ p).
  change (started cfg p0) in St. change (theType p0 = eProcIdleWork) in Et.
  change (theReservations p) with (theReservations p0) in R1. clearbody p0. clear p. rename p0 into p, R1 into R.
  apply safe_bind. eapply safe_law; [apply law_idle, R|]. intros a w2 (Hh & U & L).
  after R Hh a p St Et.
  assert (Rq : requiresTag p1 = true).
  { destruct U as [U _]. unfold p1, requiresTag. cbn. by destruct (Z.eqb_spec (theRequiresTag a) 0); [lia|]. }
  clearbody p1. open_started St Et. rewrite Ep in R. unfold requiresTag in *.
  apply safe_bind. eapply safe_idle_stop; [exact R|]. intros p' w' Sp. destruct L as [-> | (-> & Lf & Lb)].
  - rewrite decide_True by done. intros [-> R3]. cbn. rewrite Rq.
    eapply safe_tag_last; [exact U|ends|exact T| |exact R3|ends|done]. by etrans.
  - rewrite decide_False by done. intros [-> R3]. pose proof (proj2 U Lf) as G. rewrite Lf, Lb. cbn zeta.
    next R3. next R3. cbn. rewrite Rq.
    eapply safe_tag_last; [exact U|ends|exact T| |exact R3|ends|done]. by etrans.
Qed.

(** Every process gives back what it took, or enters the tag pipeline with it. *)
Lemma safe_run p w :
  started cfg p -> res (theReservations p) (bit kResEvictBuffer (theReservations p)) w -> tag_free w ->
  safe E (run_process cfg p) (left_by w) w.
Proof using PolicyLaws0.
  intros St R T. pose proof St as (Ep & Np & Nn & _). rewrite Ep in R at 2. unfold run_process.
  destruct (theType p) eqn:Et; try done.
  - by apply safe_runRequest.
  - apply safe_runSnoop; try done. revert R. unfold start_mask, snoop_channel. by destruct (theUseReplyChannel cfg).
  - apply safe_runBack; auto. revert R. unfold start_mask, snoop_channel. by destruct (theUseReplyChannel cfg).
  - apply safe_runBack; auto. revert R. unfold start_mask, snoop_channel. by destruct (theUseReplyChannel cfg).
  - by apply safe_runWakeMaf.
  - by apply safe_runIProbe.
  - apply safe_runEvict; try done. revert R. unfold start_mask, evict_channel. by destruct (theEvictOnSnoop cfg).
  - by apply safe_runIdle.
  - apply safe_runWakeSnoop; try done. revert R. unfold start_mask, snoop_channel. by destruct (theUseReplyChannel cfg).
Qed.
End processes.
