(* ===== verification/CacheSchedule.v ===== *)
(** * A cycle of a timing cache keeps its reservations

    The scheduler of CacheController.v, the queues in front of it and the pipelines
    behind it, with the invariant of CacheReservations.v: every loop ends, what the
    scheduler starts has its reservations, and a cycle of the controller stops at no
    assertion but those of [outside]. *)

From stdpp Require Import base gmap list strings fin_maps.
From Stdlib Require Import ZArith Lia.
From S2P Require Import Prelude Messages TimingQueues CacheBuffers MissAddressFile CacheController.
From S2P Require Import CacheReservations CacheProcesses.

Local Open Scope Z_scope.

Section schedule.
Context {S P : Type} `{IndexOrder} `{Policy S P} `{PolicyInvariant S P} (cfg : CacheConfig) (floor : BackChannel -> nat)
  (pa : string -> Prop)
  `{!PolicyLaws pa}.
Implicit Types (w : Cache S P) (p : ProcessEntry) (a : Action).

Local Abbreviation E := (outside cfg pa).
Local Abbreviation res := (res cfg floor).

(** ** The pipelines *)

Lemma safe_stepM (cond : M (Cache S P) bool) start w (Q : bool -> Cache S P -> Prop) :
  safe E cond (fun b w' => if b then safe E start (fun _ => Q true) w' else Q false w') w ->
  safe E (stepM cond start) Q w.
Proof using.
  intros Hc. apply safe_bind. eapply safe_mono; [exact Hc|]. intros [] w' Hw; [|exact Hw].
  apply safe_bind. eapply safe_mono; [exact Hw|]. intros ? w'' Hq. exact Hq.
Qed.

Lemma safe_andM (c d : M (Cache S P) bool) w (Q : bool -> Cache S P -> Prop) :
  safe E c (fun b w' => if b then safe E d Q w' else Q false w') w -> safe E (andM c d) Q w.
Proof using. intros Hc. apply safe_bind. eapply safe_mono; [exact Hc|]. by intros [] w'. Qed.

(** A round of a loop: the invariant, and progress when the loop goes on. *)
Definition round (measure : Cache S P -> nat) w (again : bool) w' : Prop :=
  res 0 0 w' /\ (again = true -> measure w' < measure w)%nat.

Lemma safe_drain_maf i w :
  0 <= i < theBanks cfg -> res 0 0 w ->
  safe E (drain_maf_step cfg i) (round (queued_at MAF_pipes i) w) w.
Proof using PolicyLaws0.
  intros Hi R. unfold drain_maf_step. apply safe_stepM, safe_andM.
  eapply safe_pipe_ready; [constructor|exact R|done|]. intros [] Hq; [|by split]. specialize (Hq eq_refl).
  eapply safe_pipe_avail; [constructor|exact R|done|]. intros [] Ht; [|by split]. specialize (Ht eq_refl).
  apply safe_bind. eapply safe_pipe_dequeue; [constructor|exact R|done|done|].
  intros p l w1 St _ R1 Lt. eapply safe_mono; [apply (safe_run cfg floor pa); [exact St|exact R1|]|].
  - intros B1. assert (i = 0) as -> by lia. exact Ht.
  - intros ? w2 [R2 Em]. split; [done|intros _]. unfold queued_at at 1. cbn. rewrite Em. exact Lt.
Qed.

Lemma safe_drain_data i w :
  0 <= i < theBanks cfg -> res 0 0 w ->
  safe E (drain_data_step cfg i) (round (queued_at Data_pipes i) w) w.
Proof using PolicyLaws0.
  intros Hi R. unfold drain_data_step. apply safe_stepM.
  eapply safe_pipe_ready; [constructor|exact R|done|]. intros [] Hq; [|by split]. specialize (Hq eq_refl).
  apply safe_bind. eapply safe_pipe_dequeue; [constructor|exact R|done|done|].
  intros p l w1 Ed _ R1 Lt. apply safe_bind.
  eapply safe_mono; [apply (safe_doTransmit cfg floor pa); [exact Ed|exact R1]|].
  intros ? w2 [(_ & _ & Et & _) R2]. apply safe_ret. split; [done|intros _].
  unfold queued_at at 1. cbn. rewrite Et. exact Lt.
Qed.

Lemma safe_peek s K c i m e w (Q : ProcessEntry -> Cache S P -> Prop) pipe :
  set_rule cfg s K c -> res m e w -> pipes s w !! Z.to_nat i = Some pipe -> 0 <= i < theBanks cfg ->
  (0 < queued_at s i w)%nat -> (forall p, K p -> head_at s i w = Some p -> Q p w) ->
  safe E (lift (Fifo.peek pipe)) Q w.
Proof using.
  intros Hs R El Hi Hq Ok. destruct (set_at cfg floor s K c _ _ w i Hs R Hi) as (pipe' & El' & _ & _ & A).
  rewrite El in El'. injection El' as <-. unfold queued_at in Hq. rewrite El in Hq. unfold head_at in Ok.
  rewrite El in Ok. cbn in Ok. unfold Fifo.peek, items in *. destruct (Fifo.theQueue pipe) as [|[p t] rest]; [cbn in Hq; lia|].
  cbn in A. apply Forall_cons in A as [Kp _]. by apply Ok.
Qed.

Lemma safe_pipe_at s K c i m e w (Q : Pipeline -> Cache S P -> Prop) :
  set_rule cfg s K c -> res m e w -> 0 <= i < theBanks cfg ->
  (forall pipe, pipes s w !! Z.to_nat i = Some pipe -> Fifo.fifo_ok pipe -> Forall K (items pipe) -> Q pipe w) ->
  safe E (pipe_at s i) Q w.
Proof using.
  intros Hs R Hi Ok. destruct (set_at cfg floor s K c _ _ w i Hs R Hi) as (pipe & El & Ev & F & A).
  unfold pipe_at. cbn. unfold safe, mbind, M_bind, gets, lift. rewrite Ev. by apply Ok.
Qed.

Lemma safe_drain_tag i w :
  0 <= i < theBanks cfg -> res 0 0 w ->
  safe E (drain_tag_step cfg i) (round (queued_at Tag_pipes i) w) w.
Proof using PolicyLaws0.
  intros Hi R. unfold drain_tag_step. apply safe_bind.
  eapply safe_pipe_ready; [constructor|exact R|done|]. intros [] Hq; [|by split]. specialize (Hq eq_refl). cbn [negb].
  apply safe_bind. eapply safe_pipe_at; [constructor|exact R|done|]. intros pipe El F A.
  apply safe_bind. eapply safe_peek; [constructor|exact R|exact El|done|done|]. intros p Ed Hp.
  destruct (negb _).
  - apply safe_bind. eapply safe_pipe_avail; [constructor|exact R|done|]. intros [] Hd.
    + specialize (Hd eq_refl). rewrite (proj1 Ed). apply safe_bind, safe_ret, safe_bind.
      eapply safe_pipe_dequeue; [constructor|exact R|done|done|]. intros p' l w1 _ Hp' R1 Lt.
      rewrite Hp in Hp'. injection Hp' as <-. apply safe_bind.
      eapply safe_pipe_enqueue; [constructor|exact R1|exact Ed|done|exact Hd|]. intros l' w2 R2 _.
      apply safe_ret. split; [exact R2|]. intros _. exact Lt.
    + apply safe_bind. unfold put_pipe. cbn. unfold safe, mbind, M_bind, gets, lift, modify.
      cbn in El. rewrite vec_put_in by (apply lookup_lt_Some in El; lia).
      split; [|done]. destruct (Fifo.stall_ok pipe F) as [F' Eq].
      assert (Ei : items (Fifo.stall pipe) = items pipe) by (unfold items; by rewrite Eq).
      eapply (res_set cfg floor Tag_pipes); [constructor|exact R|exact El|exact F'|by rewrite Ei|by rewrite Ei|done].
  - apply safe_bind. eapply safe_pipe_dequeue; [constructor|exact R|done|done|].
    intros p' l w1 Ed' _ R1 Lt. apply safe_bind.
    eapply safe_mono; [apply (safe_doTransmit cfg floor pa); [exact Ed'|exact R1]|].
    intros ? w2 [(_ & Et & _) R2]. apply safe_ret. split; [done|intros _].
    unfold queued_at at 1. cbn. rewrite Et. exact Lt.
Qed.

Lemma safe_pipe_loop s K c (step : Z -> M (Cache S P) bool) i w :
  set_rule cfg s K c -> 0 <= i < theBanks cfg ->
  (forall w, res 0 0 w -> safe E (step i) (round (queued_at s i) w) w) ->
  res 0 0 w -> safe E (pipe_loop s step i) (fun _ => res 0 0) w.
Proof using.
  intros Hs Hi Hst R. unfold pipe_loop. apply safe_bind. eapply safe_pipe_at; [exact Hs|exact R|done|].
  intros pipe El _ _. apply (safe_while E (res 0 0) (queued_at s i)); [exact Hst|exact R|].
  unfold queued_at. rewrite El. lia.
Qed.

Lemma in_around last n i : 0 < n -> i ∈ around last n -> 0 <= i < n.
Proof using. intros Hn (k & -> & _)%list_elem_of_fmap. by apply Z.mod_pos_bound. Qed.

Lemma in_below n i : i ∈ below n -> 0 <= i < n.
Proof using. by intros Hi%below_spec. Qed.

Lemma res_frame m e w w' :
  res m e w -> 
  w' = set_theLastTagPipeline (theLastTagPipeline w') (set_theLastDataPipeline (theLastDataPipeline w')
         (set_theLastScheduledBank (theLastScheduledBank w') (set_lastQueue (lastQueue w') w))) ->
  res m e w'.
Proof using. intros [] ->. split; try done. by destruct r_shape. Qed.

Lemma safe_advancePipelines w : res 0 0 w -> safe E (advancePipelines cfg) (fun _ => res 0 0) w.
Proof using PolicyLaws0.
  intros R. pose proof (sh_banks _ _ (r_shape _ _ _ _ _ R)) as Hb. unfold advancePipelines.
  apply safe_bind, safe_gets, safe_bind, safe_modify, safe_bind.
  eapply safe_mono; [apply (safe_for_each E (res 0 0))|].
  - intros i Hi w' R'. apply (in_around _ _ _ Hb) in Hi.
    eapply safe_pipe_loop; [constructor|done| |exact R']. intros. by apply safe_drain_tag.
  - by eapply res_frame; [exact R|].
  - clear R. intros ? w1 R. apply safe_bind, safe_gets, safe_bind, safe_modify.
    apply (safe_for_each E (res 0 0)).
    + intros i Hi w' R'. apply (in_around _ _ _ Hb) in Hi.
      eapply safe_pipe_loop; [constructor|done| |exact R']. intros. by apply safe_drain_data.
    + by eapply res_frame; [exact R|].
Qed.

(** ** Starting processes *)

Lemma safe_schedule i p m e w (Q : () -> Cache S P -> Prop) :
  started cfg p -> res m e w -> theReservations p = m -> bit kResEvictBuffer m = e ->
  0 <= i < theBanks cfg -> avail_at MAF_pipes i w ->
  (forall l, let w1 := set_theMAFPipeline l w in
     res 0 0 w1 -> (free_at MAF_pipes i w1 < free_at MAF_pipes i w)%nat -> Q () w1) ->
  safe E (schedule_process i p) Q w.
Proof using.
  intros St R <- <- Hi Av K. unfold schedule_process.
  eapply (safe_pipe_enqueue cfg floor pa MAF_pipes (started cfg) true); [constructor|exact R|exact St|done|exact Av|].
  intros l w1 R1 Lt. apply K; [by rewrite Z.sub_diag in R1|]. specialize (Lt eq_refl).
  change (free_at MAF_pipes i w) with (free_at MAF_pipes i w) in Lt. rewrite Lt. apply Nat.lt_succ_diag_r.
Qed.

(** One reservation, with the rule for it. *)
Ltac take R := let w' := fresh "w" in let R' := fresh "R" in
  lazymatch goal with
  | |- safe _ (let x := _ in _) _ _ => cbn zeta
  | |- safe _ (reserveFrontSideOut _) _ _ =>
      eapply safe_reserve_fso; [exact R|mask|assumption|]; intros w' R'; clear R; rename R' into R; cbn beta
  | |- safe _ (reserveBackSideOut_Request _) _ _ => unfold reserveBackSideOut_Request
  | |- safe _ (reserveBackSideOut_Snoop _ _) _ _ => unfold reserveBackSideOut_Snoop
  | |- safe _ (reserveBackSideOut_Evict _ _) _ _ => unfold reserveBackSideOut_Evict
  | |- safe _ (reserve_back _ _) _ _ =>
      eapply safe_reserve_back; [exact R|mask|assumption|]; intros ? w' R'; clear R; rename R' into R; cbn beta
  | |- safe _ (reserveEvictBuffer _) _ _ =>
      eapply (safe_reserve_evict _ _ pa); [exact R|assumption|]; intros ? ? w' R'; clear R; rename R' into R; cbn beta
  | |- safe _ (reserveMAF _) _ _ =>
      eapply safe_reserve_maf; [exact R|mask|assumption|]; intros ? w' R'; clear R; rename R' into R; cbn beta
  | |- safe _ (reserveScheduledEvict _) _ _ =>
      eapply safe_reserve_sched; [exact R|mask|]; intros w' R'; clear R; rename R' into R; cbn beta
  | |- safe _ (reserveSnoopBuffer _) _ _ =>
      eapply safe_reserve_snoop; [exact R|mask|]; intros ? w' R'; clear R; rename R' into R; cbn beta
  | |- safe _ (_ ≫= _) _ _ => apply safe_bind
  end.

(** The process has what its kind takes. *)
Ltac starts R :=
  eapply safe_schedule;
    [split; [mask|by split_and!]|exact R|mask|mask|done|assumption|].

Lemma safe_iprobe_step i w :
  0 <= i < theBanks cfg -> res 0 0 w ->
  safe E (iprobe_step i) (round (free_at MAF_pipes i) w) w.
Proof using PolicyLaws0.
  intros Hi R. unfold iprobe_step. destruct (sh_lists _ _ (r_shape _ _ _ _ _ R)) as [_ L].
  apply safe_stepM, safe_andM. eapply safe_pipe_avail; [constructor|exact R|done|].
  intros [] Av; [|by split]. specialize (Av eq_refl). apply safe_bind. eapply safe_list_at; [exact L|done|].
  intros [|x l] El; [by split|]. apply safe_gets. destruct (negb _ && _) eqn:Hc; [|by split].
  apply andb_true_iff in Hc as [F1%negb_true_iff F2%negb_true_iff].
  apply safe_bind. eapply safe_list_at; [exact L|done|]. intros l' El'. rewrite El in El'. injection El' as <-.
  apply safe_bind. eapply safe_put_list; [exact L|done|].
  set (w1 := set_theIProbeList _ w). assert (R1 : res 0 0 w1) by (apply res_iprobes; [done|by rewrite length_insert]).
  clear R. apply safe_bind, safe_gets, safe_bind, safe_deref. intros e _.
  repeat take R1. starts R1. intros l' w3 R3 Lt. by split.
Qed.

(** A process is started, and the loop has made progress. *)
Ltac started_one R := starts R; intros ? ? ? ?; by split.

Lemma safe_evict_step i w :
  0 <= i < theBanks cfg -> res 0 0 w ->
  safe E (evict_step cfg i) (round (free_at MAF_pipes i) w) w.
Proof using PolicyLaws0.
  intros Hi R. unfold evict_step. apply safe_stepM, safe_andM.
  eapply safe_pipe_avail; [constructor|exact R|done|]. intros [] Av; [|by split]. specialize (Av eq_refl).
  apply safe_gets. destruct (_ && _) eqn:Hc; [|by split].
  apply andb_true_iff in Hc as [_ F1%negb_true_iff]. repeat take R. started_one R.
Qed.

(** *** From the queues of the bank *)

Definition waits_at (c : InChannel) i w : Prop :=
  exists q, BankSideIn w c !! Z.to_nat i = Some q /\ vec_at (BankSideIn w c) i = Done q /\ plain q /\ MQ.theQueue q <> [].

Lemma bank_at c i m e w :
  res m e w -> 0 <= i < theBanks cfg ->
  exists q, BankSideIn w c !! Z.to_nat i = Some q /\ vec_at (BankSideIn w c) i = Done q /\ plain q /\
    (c = FrontPrefetch -> MQ.theQueue q = []).
Proof using.
  intros R Hi. destruct (sh_in _ _ (r_shape _ _ _ _ _ R) c) as [L _].
  destruct (vec_at_in (BankSideIn w c) i) as (q & El & Ev); [lia|]. exists q.
  apply list_elem_of_lookup_2 in El as Hq. split_and!; [done..| |].
  - apply (r_in _ _ _ _ _ R c). by right.
  - intros ->. apply (r_prefetch _ _ _ _ _ R). by right.
Qed.

Lemma safe_bank_queue c i m e w (Q : Queue -> Cache S P -> Prop) :
  res m e w -> 0 <= i < theBanks cfg ->
  (forall q, BankSideIn w c !! Z.to_nat i = Some q -> vec_at (BankSideIn w c) i = Done q -> plain q ->
     (c = FrontPrefetch -> MQ.theQueue q = []) -> Q q w) ->
  safe E (bank_queue c i) Q w.
Proof using.
  intros R Hi K. destruct (bank_at c i _ _ w R Hi) as (q & El & Ev & Pq & Em).
  unfold bank_queue. cbn. unfold safe, mbind, M_bind, gets, lift. rewrite Ev. by apply K.
Qed.

Lemma safe_bank_waits c i resources w (Q : bool -> Cache S P -> Prop) :
  0 <= i < theBanks cfg -> res 0 0 w ->
  (forall b, (b = true -> avail_at MAF_pipes i w /\ waits_at c i w /\ c <> FrontPrefetch /\ resources w = true) -> Q b w) ->
  safe E (bank_waits c i resources) Q w.
Proof using.
  intros Hi R K. unfold bank_waits. apply safe_andM. eapply safe_pipe_avail; [constructor|exact R|done|].
  intros [] Av; [|by apply K]. apply safe_bind. eapply safe_bank_queue; [exact R|done|]. intros q El Ev Pq Em.
  unfold MQ.empty. destruct (MQ.theQueue q) as [|x l] eqn:Eq; [by apply safe_ret, K|].
  apply safe_gets, K. intros Hr. split_and!; [by apply Av| |by intros ->; specialize (Em eq_refl)|done].
  exists q. split_and!; try done. by rewrite Eq.
Qed.

Lemma res_bank m e w c qs :
  res m e w -> length qs = Z.to_nat (theBanks cfg) ->
  (forall q, q ∈ qs -> plain q /\ (c = FrontPrefetch -> MQ.theQueue q = [])) ->
  res m e (set_BankSideIn (with_channel c qs (BankSideIn w)) w).
Proof using.
  intros [Rf Rr Rb Rg Rm Rs Rn Re Ri Rp St Tg Dt Sh Rd] L A. split; try done.
  - intros d q. cbn. unfold with_channel. case_decide as D; [|apply Ri].
    intros [Hq|Hq]; [apply (Ri d q); by left|by apply A].
  - intros q. cbn. unfold with_channel. case_decide as D; [|apply Rp].
    intros [Hq|Hq]; [apply (Rp q); by left|by apply A].
  - destruct Sh as [Hb Hc Hp Hl Hi Hf He]. split; try done. intros d. cbn. unfold with_channel.
    case_decide as D; [|apply Hi]. subst d. split; [done|apply Hi].
Qed.

Lemma safe_dequeue_bank c i m e w (Q : Transport -> Cache S P -> Prop) :
  0 <= i < theBanks cfg -> res m e w -> waits_at c i w -> c <> FrontPrefetch ->
  (forall t qs, let w1 := set_BankSideIn (with_channel c qs (BankSideIn w)) w in res m e w1 -> Q t w1) ->
  safe E (dequeue_bank c i) Q w.
Proof using.
  intros Hi R (q & El & Ev & Pq & Nq) Nc K. destruct (MQ.theQueue q) as [|[t x] rest] eqn:Eq; [done|].
  destruct (MQ.dequeue_ok _ q t x rest Pq Eq) as (q' & Ed & Pq' & _).
  unfold dequeue_bank, bank_queue, put_bank_queue. cbn. unfold safe, mbind, M_bind, gets, lift, modify, mret, M_ret.
  rewrite Ev, Ed, vec_put_in by (apply lookup_lt_Some in El; lia). apply K.
  destruct (sh_in _ _ (r_shape _ _ _ _ _ R) c) as [L _]. apply res_bank; [done|by rewrite length_insert|].
  intros y [->|Hy]%in_insert; (split; [|done]); [done|]. apply (r_in _ _ _ _ _ R c). by right.
Qed.

Lemma safe_back_reply_step i w :
  0 <= i < theBanks cfg -> res 0 0 w ->
  safe E (back_reply_step cfg i) (round (free_at MAF_pipes i) w) w.
Proof using PolicyLaws0.
  intros Hi R. unfold back_reply_step. apply safe_stepM. eapply safe_bank_waits; [done|exact R|].
  intros [] Hw; [|by split]. destruct (Hw eq_refl) as (Av & W & Nc & [F1%negb_true_iff F2%negb_true_iff]%andb_true_iff).
  apply safe_bind. eapply safe_dequeue_bank; [done|exact R|exact W|done|]. intros t qs w1 R1. clear R.
  repeat take R1. started_one R1.
Qed.

Lemma safe_back_request_step i w :
  0 <= i < theBanks cfg -> res 0 0 w ->
  safe E (back_request_step cfg i) (round (free_at MAF_pipes i) w) w.
Proof using PolicyLaws0.
  intros Hi R. unfold back_request_step. apply safe_stepM. eapply safe_bank_waits; [done|exact R|].
  intros [] Hw; [|by split].
  destruct (Hw eq_refl) as (Av & W & Nc & [[F1%negb_true_iff F2%negb_true_iff]%andb_true_iff _]%andb_true_iff).
  apply safe_bind. eapply safe_dequeue_bank; [done|exact R|exact W|done|]. intros t qs w1 R1. clear R.
  repeat take R1. started_one R1.
Qed.

Lemma safe_headTimestamp (q : Queue) w (Q : Z -> Cache S P -> Prop) :
  MQ.theQueue q <> [] -> (forall x, Q x w) -> safe E (lift (MQ.headTimestamp q)) Q w.
Proof using. intros N K. apply safe_lift_any. unfold MQ.headTimestamp. destruct (MQ.theQueue q) as [|[? ?] ?]; [done|apply K]. Qed.

Lemma safe_no_older_snoop i q m e w (Q : bool -> Cache S P -> Prop) :
  0 <= i < theBanks cfg -> res m e w -> MQ.theQueue q <> [] -> (forall b, Q b w) ->
  safe E (no_older_snoop i q) Q w.
Proof using.
  intros Hi R N K. unfold no_older_snoop. apply safe_bind. eapply safe_bank_queue; [exact R|done|]. intros s _ _ _ _.
  unfold MQ.empty. destruct (MQ.theQueue s) as [|x l] eqn:Es; [by apply safe_ret|].
  apply safe_bind, safe_headTimestamp; [by rewrite Es|]. intros ts.
  apply safe_bind, safe_headTimestamp; [done|]. intros tq. by apply safe_ret.
Qed.

Lemma safe_snoop_step i w :
  0 <= i < theBanks cfg -> res 0 0 w ->
  safe E (snoop_step cfg i) (round (free_at MAF_pipes i) w) w.
Proof using PolicyLaws0.
  intros Hi R. unfold snoop_step. apply safe_stepM, safe_andM. eapply safe_bank_waits; [done|exact R|].
  intros [] Hw; [|by split]. destruct (Hw eq_refl) as (Av & W & Nc & F%negb_true_iff).
  apply safe_bind. eapply safe_bank_queue; [exact R|done|]. intros q El _ _ _.
  destruct W as (q' & El' & Ev & Pq & Nq). rewrite El in El'. injection El' as <-.
  apply safe_bind, safe_lift_any. unfold MQ.peek. destruct (MQ.theQueue q) as [|[t x] rest] eqn:Eq; [done|].
  apply safe_ret. cbn [snoopResourcesAvailable].
  apply safe_bind. eapply safe_dequeue_bank; [done|exact R|exists q; by rewrite Eq|done|]. intros t' qs w1 R1. clear R.
  repeat take R1. apply safe_ret. started_one R1.
Qed.

Lemma safe_prefetch_step i w :
  0 <= i < theBanks cfg -> res 0 0 w ->
  safe E (prefetch_step i) (round (free_at MAF_pipes i) w) w.
Proof using PolicyLaws0.
  intros Hi R. unfold prefetch_step. apply safe_stepM, safe_andM. eapply safe_bank_waits; [done|exact R|].
  intros [] Hw; [|by split]. by destruct (Hw eq_refl) as (_ & _ & Nc & _).
Qed.

Lemma safe_add_pending x m e w (Q : () -> Cache S P -> Prop) :
  res m e w -> (forall i, let w1 := set_impl i w in res m e w1 -> Q () w1) ->
  safe E (i ← gets impl; i ← lift (addPendingRequest x i); modify (set_impl i)) Q w.
Proof using PolicyLaws0.
  intros R K. apply safe_bind, safe_gets, safe_bind. apply (safe_pending cfg pa (addPendingRequest x)).
  - apply law_pending.
  - intros i Bi. apply safe_modify, K. by apply res_impl.
Qed.

Lemma safe_request_step i w :
  0 <= i < theBanks cfg -> res 0 0 w ->
  safe E (request_step i) (round (free_at MAF_pipes i) w) w.
Proof using PolicyLaws0.
  intros Hi R. unfold request_step. apply safe_stepM, safe_andM. eapply safe_bank_waits; [done|exact R|].
  intros [] Hw; [|by split]. destruct (Hw eq_refl) as (Av & W & Nc & Hr).
  apply andb_true_iff in Hr as [[[F1%negb_true_iff F2%negb_true_iff]%andb_true_iff F3%negb_true_iff]%andb_true_iff F4%negb_true_iff].
  apply safe_bind. eapply safe_bank_queue; [exact R|done|]. intros q El _ _ _.
  pose proof W as (q' & El' & Ev & Pq & Nq). rewrite El in El'. injection El' as <-.
  apply safe_bind, safe_lift_any. unfold MQ.peek. destruct (MQ.theQueue q) as [|[t x] rest] eqn:Eq; [done|].
  apply safe_null. intros msg _. apply safe_andM, safe_gets. destruct (canStartRequest _ _); [|by split].
  eapply safe_no_older_snoop; [done|exact R|by rewrite Eq|]. intros [] ; [|by split].
  apply safe_bind. eapply safe_dequeue_bank; [done|exact R|exact W|done|]. intros t' qs w1 R1. clear R.
  repeat take R1. starts R1. intros ? ? R2 Lt. apply safe_null. intros msg' _.
  eapply safe_add_pending; [exact R2|]. intros ? ? R3. by split.
Qed.

Lemma safe_wake_snoop_step i w :
  0 <= i < theBanks cfg -> res 0 0 w ->
  safe E (wake_snoop_step cfg i) (round (free_at MAF_pipes i) w) w.
Proof using PolicyLaws0.
  intros Hi R. unfold wake_snoop_step. apply safe_stepM, safe_andM.
  eapply safe_pipe_avail; [constructor|exact R|done|]. intros [] Av; [|by split]. specialize (Av eq_refl).
  apply safe_gets. destruct (_ && _) eqn:Hc; [|by split].
  apply andb_true_iff in Hc as [[Hw F1%negb_true_iff]%andb_true_iff F2%negb_true_iff].
  apply safe_bind. unfold getWakingSnoopTransport. apply safe_bind, safe_gets, safe_bind, safe_lift_any.
  unfold SB.wakeSnoop. unfold hasWakingSnoops, SB.wakeListEmpty in Hw.
  destruct (SB.theWakeList (theSnoopBuffer w)) as [|en rest]; [done|]. apply safe_bind, safe_modify, safe_ret.
  set (w1 := set_theSnoopBuffer _ w).
  assert (R1 : res 0 0 w1) by (eapply res_snoops; [exact R|apply moved_none|]; apply (r_snoops _ _ _ _ _ R)).
  clear R. repeat take R1. started_one R1.
Qed.

Lemma safe_idle_step i w :
  0 <= i < theBanks cfg -> res 0 0 w ->
  safe E (idle_step i) (round (free_at MAF_pipes i) w) w.
Proof using PolicyLaws0.
  intros Hi R. unfold idle_step. apply safe_stepM, safe_andM.
  eapply safe_pipe_avail; [constructor|exact R|done|]. intros [] Av; [|by split]. specialize (Av eq_refl).
  apply safe_gets. destruct (idleWorkAvailable w) eqn:Hc; [|by split].
  destruct (law_idle_available w Hc) as [F1 F2]. apply safe_bind.
  eapply safe_law; [by apply law_idle_start|]. intros [msg p] w2 (w1 & Eq & Hh). cbn [snd] in Eq.
  apply (safe_Done cfg pa _ (fun p' w' => res (start_mask cfg eProcIdleWork) 0 w' /\ same_pipes w w' /\
     p' = process_reserve kResFrontSideOut (process_reserve kResSnoopBuffer (newProcess noTransport None None eProcIdleWork)))) in Eq.
  - destruct Eq as (R1 & Sp & ->).
    destruct (res_same_handled cfg floor _ _ _ _ _ Sp R1 Hh) as [Sp2 R2].
    assert (Av2 : avail_at MAF_pipes i w2).
    { destruct Sp2 as (Em & _ & _ & Et). unfold avail_at. cbn. by rewrite Em, Et. }
    eapply safe_schedule; [split; [mask|by split_and!]|exact R2|mask|mask|done|exact Av2|].
    intros l w3 R3 Lt. split; [done|]. intros _. destruct Sp2 as (Em & _ & _ & Et). revert Lt.
    unfold free_at. cbn. by rewrite Em, Et.
  - repeat take R. split; [eapply res_mask; [exact R|mask]|done].
Qed.

(** What is woken is an entry of the file, which may be marked as waking. *)
Lemma blocked_ok n x f w :
  MAF.maf_ok n f -> Forall (listed w) (MAF.theMshrs f) ->
  exists iter f', MAF.getBlockedMafEntry x f = Done (iter, f') /\ MAF.maf_ok n f' /\
    MAF.in_state kWaitResponse (MAF.theMshrs f') = MAF.in_state kWaitResponse (MAF.theMshrs f) /\
    Forall (listed w) (MAF.theMshrs f').
Proof using.
  intros K Ls. assert (Hm : forall s iter, s <> kWaitResponse -> MAF.find x s f = Some iter ->
    exists f', MAF.modifyState iter kWaking f = Done f' /\ MAF.maf_ok n f' /\
      MAF.in_state kWaitResponse (MAF.theMshrs f') = MAF.in_state kWaitResponse (MAF.theMshrs f) /\
      Forall (listed w) (MAF.theMshrs f')).
  { intros s iter Ns Hf. destruct (MAF.find_deref _ _ _ _ _ K Hf) as (en & D & _ & Es).
    destruct (MAF.modifyState_ok _ _ _ kWaking _ K D) as (f' & l1 & l2 & Eq & Ok & _ & El & El').
    exists f'. split_and!; [done..| |].
    - rewrite El, El', in_state_change, Es. rewrite !decide_False by done. lia.
    - rewrite El'. apply listed_state. by rewrite <-El. }
  unfold MAF.getBlockedMafEntry. destruct (MAF.find x kWaitRegion f) as [iter|] eqn:F1; [by eauto 10|].
  destruct (MAF.find x kWaitSnoop f) as [iter|] eqn:F2.
  { destruct (Hm kWaitSnoop _ ltac:(done) F2) as (f' & Eq & Ok & Ei & Ls'). rewrite Eq. by exists (Some iter), f'. }
  destruct (MAF.find x kWaitEvict f) as [iter|] eqn:F3; [|by eauto 10].
  destruct (Hm kWaitEvict _ ltac:(done) F3) as (f' & Eq & Ok & Ei & Ls'). rewrite Eq. by exists (Some iter), f'.
Qed.

(** The wake-ups that wait on a bank. *)
Definition woken_at i w : nat := match theWakeMAFList w !! Z.to_nat i with Some l => length l | None => 0%nat end.

Lemma safe_wake_maf_step i w :
  0 <= i < theBanks cfg -> res 0 0 w -> safe E (wake_maf_step i) (round (woken_at i) w) w.
Proof using PolicyLaws0.
  intros Hi R. unfold wake_maf_step. destruct (sh_lists _ _ (r_shape _ _ _ _ _ R)) as [L _].
  apply safe_stepM, safe_andM. eapply safe_pipe_avail; [constructor|exact R|done|].
  intros [] Av; [|by split]. specialize (Av eq_refl). apply safe_bind. eapply safe_list_at; [exact L|done|].
  intros [|[x tr] l] El; [by split|]. apply safe_gets. destruct (_ && _) eqn:Hc; [|by split].
  apply andb_true_iff in Hc as [[[F1%negb_true_iff F2%negb_true_iff]%andb_true_iff F3%negb_true_iff]%andb_true_iff _].
  apply safe_bind. eapply safe_list_at; [exact L|done|]. intros l' El'. rewrite El in El'. injection El' as <-.
  apply safe_bind. eapply safe_put_list; [exact L|done|]. set (w1 := set_theWakeMAFList _ w).
  assert (R1 : res 0 0 w1) by (apply res_wakes; [done|by rewrite length_insert]).
  assert (Lt : (woken_at i w1 < woken_at i w)%nat).
  { unfold woken_at. cbn. rewrite El, list_lookup_insert_eq by (by apply lookup_lt_Some in El). cbn. lia. }
  clear R. apply safe_bind, safe_gets. 
  destruct (blocked_ok _ x _ _ (r_maf _ _ _ _ _ R1) (r_listed _ _ _ _ _ R1)) as (iter & f & Eq & Ok & Ei & Ls).
  apply safe_bind, safe_lift. rewrite Eq. eexists; split; [done|]. apply safe_bind, safe_modify.
  assert (R2 : res 0 0 (set_theMaf f w1)) by (eapply res_maf; [exact R1|apply moved_none|exact Ok|done|exact Ei|exact Ls]).
  clear R1. set (w2 := set_theMaf f w1) in *. destruct iter as [iter|]; [|by apply safe_ret].
  apply safe_bind. change (MAF.deref iter f) with (MAF.deref iter (theMaf w2)). eapply safe_deref. intros en _.
  repeat take R2. starts R2. intros ? ? R3 _. eapply safe_add_pending; [exact R3|]. intros ? ? R4.
  by split.
Qed.

(** ** All banks *)

Lemma safe_bank_loop (step : Z -> M (Cache S P) bool) measure i w :
  0 <= i < theBanks cfg -> (forall w, res 0 0 w -> safe E (step i) (round measure w) w) ->
  (forall pipe l, theMAFPipeline w !! Z.to_nat i = Some pipe -> theWakeMAFList w !! Z.to_nat i = Some l ->
     (measure w <= length l + length (Fifo.theServerReadyTimes pipe))%nat) ->
  res 0 0 w -> safe E (bank_loop step i) (fun _ => res 0 0) w.
Proof using.
  intros Hi Hst Hm R. unfold bank_loop, rounds. apply safe_bind, safe_bind.
  eapply safe_pipe_at; [constructor|exact R|done|]. intros pipe El _ _.
  destruct (sh_lists _ _ (r_shape _ _ _ _ _ R)) as [L _].
  apply safe_bind. eapply safe_list_at; [exact L|done|]. intros l El'. apply safe_ret.
  apply (safe_while E (res 0 0) measure); [exact Hst|exact R|]. specialize (Hm pipe l El El'). lia.
Qed.

Lemma safe_free_loop (step : Z -> M (Cache S P) bool) i w :
  0 <= i < theBanks cfg -> (forall w, res 0 0 w -> safe E (step i) (round (free_at MAF_pipes i) w) w) ->
  res 0 0 w -> safe E (bank_loop step i) (fun _ => res 0 0) w.
Proof using.
  intros Hi Hst R. eapply safe_bank_loop; [done|exact Hst| |exact R]. intros pipe l El _.
  unfold free_at, Fifo.free_servers. cbn. rewrite El.
  pose proof (length_filter (fun t => t <= cycleCount w) (Fifo.theServerReadyTimes pipe)). lia.
Qed.

Lemma safe_schedule_bank i w :
  0 <= i < theBanks cfg -> res 0 0 w -> safe E (schedule_bank cfg i) (fun _ => res 0 0) w.
Proof using PolicyLaws0.
  intros Hi R. unfold schedule_bank. apply safe_bind. eapply safe_mono.
  { eapply (safe_bank_loop _ (woken_at i)); [done| | |exact R]; [intros; by apply safe_wake_maf_step|].
    intros pipe l _ El. unfold woken_at. rewrite El. lia. }
  clear R. cbn beta. intros ? w1 R.
  do 8 (apply safe_bind; eapply safe_mono;
    [eapply safe_free_loop; [done| |exact R]; intros;
     first [by apply safe_iprobe_step|by apply safe_wake_snoop_step|by apply safe_evict_step|by apply safe_back_reply_step
           |by apply safe_back_request_step|by apply safe_request_step|by apply safe_prefetch_step|by apply safe_snoop_step]
    |clear R; cbn beta; intros ? ? R]).
  eapply safe_free_loop; [done| |exact R]. intros. by apply safe_idle_step.
Qed.

Lemma safe_scheduleNewProcesses w : res 0 0 w -> safe E (scheduleNewProcesses cfg) (fun _ => res 0 0) w.
Proof using PolicyLaws0.
  intros R. pose proof (sh_banks _ _ (r_shape _ _ _ _ _ R)) as Hb. unfold scheduleNewProcesses.
  apply safe_bind, safe_gets, safe_bind. eapply safe_mono; [apply (safe_for_each E (res 0 0))|].
  - intros i Hi w' R'. apply (in_around _ _ _ Hb) in Hi. by apply safe_schedule_bank.
  - exact R.
  - clear R. intros ? w1 R. apply safe_modify. by eapply res_frame; [exact R|].
Qed.

(** ** New messages *)

Lemma res_side m e w c qs :
  res m e w -> length qs = length (SideIn w c) ->
  (forall q, q ∈ qs -> plain q /\ (c = FrontPrefetch -> MQ.theQueue q = [])) ->
  res m e (set_SideIn (with_channel c qs (SideIn w)) w).
Proof using.
  intros [Rf Rr Rb Rg Rm Rs Rn Re Ri Rp St Tg Dt Sh Rd] L A. split; try done.
  - intros d q. cbn. unfold with_channel. case_decide as D; [|apply Ri].
    intros [Hq|Hq]; [by apply A|apply (Ri d q); by right].
  - intros q. cbn. unfold with_channel. case_decide as D; [|apply Rp].
    intros [Hq|Hq]; [by apply A|apply (Rp q); by right].
  - destruct Sh as [Hb Hc Hp Hl Hi Hf He]. split; try done. intros d. cbn. unfold with_channel.
    case_decide as D; [|apply Hi]. subst d. rewrite L. apply Hi.
Qed.

Lemma sum_insert (qs : list Queue) i q q' :
  qs !! i = Some q -> (length (MQ.theQueue q) = Datatypes.S (length (MQ.theQueue q')))%nat ->
  (sum_list_with (fun q => length (MQ.theQueue q)) qs =
   Datatypes.S (sum_list_with (fun q => length (MQ.theQueue q)) (<[i := q']> qs)))%nat.
Proof using.
  intros El Lq. rewrite <-(list_insert_id qs i q El) at 1. apply list_elem_of_split_length in El as (l1 & l2 & -> & ->).
  rewrite !insert_app_r_alt, !Nat.sub_diag, !sum_list_with_app by done. cbn. lia.
Qed.

Lemma safe_new_round c ports sent w :
  (forall i, i ∈ ports -> 0 <= i < Z.of_nat (length (SideIn w c))) -> res 0 0 w ->
  safe E (new_round cfg c ports sent)
    (fun b w' => res 0 0 w' /\ (waiting_messages c w' <= waiting_messages c w)%nat /\
       (b = true -> sent = true \/ (waiting_messages c w' < waiting_messages c w)%nat)) w.
Proof using.
  revert sent w. induction ports as [|i ports IH]; intros sent w Hp R; cbn.
  { split_and!; [done|lia|by left]. }
  assert (Hi : 0 <= i < Z.of_nat (length (SideIn w c))) by (apply Hp, list_elem_of_here).
  assert (Hp' : forall j, j ∈ ports -> 0 <= j < Z.of_nat (length (SideIn w c))) by (intros j Hj; by apply Hp, list_elem_of_further).
  destruct (vec_at_in (SideIn w c) i Hi) as (q & El & Ev). apply list_elem_of_lookup_2 in El as Hq.
  assert (Pq : plain q) by (apply (r_in _ _ _ _ _ R c); by left).
  apply safe_bind. unfold port_queue. apply safe_bind, safe_gets, safe_lift. exists q. split; [done|].
  unfold MQ.empty. destruct (MQ.theQueue q) as [|[t x] rest] eqn:Eq; [by apply IH|].
  assert (Nc : c <> FrontPrefetch).
  { intros ->. rewrite (r_prefetch _ _ _ _ _ R q) in Eq; [done|by left]. }
  apply safe_bind, safe_lift. exists t. unfold MQ.peek. rewrite Eq. split; [done|].
  apply safe_null. intros msg _. cbn zeta. set (bank := getBank cfg _).
  assert (Hb : 0 <= bank < theBanks cfg) by apply getBank_range, (sh_banks _ _ (r_shape _ _ _ _ _ R)).
  apply safe_bind. eapply safe_bank_queue; [exact R|exact Hb|]. intros b Eb Evb Pb _.
  destruct (MQ.full 0 b) eqn:Fb; [by apply IH|].
  rewrite (MQ.full_ok 0 0 b Pb) in Fb by (destruct Pb; lia). apply Z.leb_gt in Fb.
  destruct (MQ.dequeue_ok _ q t x rest Pq Eq) as (q' & Ed & Pq' & Eq' & _).
  apply safe_bind, safe_lift. exists (t, q'). split; [done|]. apply safe_bind. unfold put_port_queue.
  apply safe_bind, safe_gets, safe_bind, safe_lift. eexists. split; [by apply vec_put_in|]. apply safe_modify.
  set (w1 := set_SideIn _ w).
  assert (R1 : res 0 0 w1).
  { apply res_side; [done|by rewrite length_insert|]. intros y [->|Hy]%in_insert; (split; [|done]); [done|].
    apply (r_in _ _ _ _ _ R c). by left. }
  assert (W1 : waiting_messages c w = Datatypes.S (waiting_messages c w1)).
  { unfold waiting_messages. cbn. rewrite with_channel_same. apply (sum_insert _ _ q); [done|]. by rewrite Eq, Eq'. }
  assert (L1 : length (SideIn w1 c) = length (SideIn w c)) by (cbn; by rewrite with_channel_same, length_insert).
  apply safe_bind, safe_gets, safe_bind, safe_lift.
  destruct (MQ.enqueue_ok 0 (cycleCount w1) t b Pb) as (b' & Ee & Pb' & _); [lia|]. exists b'. split; [done|].
  apply safe_bind. unfold put_bank_queue. apply safe_bind, safe_gets, safe_bind, safe_lift. eexists.
  split; [apply vec_put_in; change (BankSideIn w1 c) with (BankSideIn w c); apply lookup_lt_Some in Eb; lia|].
  apply safe_modify. set (w2 := set_BankSideIn _ w1).
  assert (R2 : res 0 0 w2).
  { apply res_bank; [done|rewrite length_insert; apply (sh_in _ _ (r_shape _ _ _ _ _ R1) c)|].
    intros y [->|Hy]%in_insert; (split; [|done]); [done|]. apply (r_in _ _ _ _ _ R1 c). by right. }
  eapply safe_mono; [apply IH; [|exact R2]|].
  - change (SideIn w2 c) with (SideIn w1 c). by rewrite L1.
  - intros again w3 (R3 & Le & Lt). change (waiting_messages c w2) with (waiting_messages c w1) in *.
    split_and!; [done|lia|]. intros _. right. lia.
Qed.

Lemma safe_doNewRequests c n w :
  0 < n -> Z.of_nat (length (SideIn w c)) = n -> res 0 0 w ->
  safe E (doNewRequests cfg c n) (fun _ => res 0 0) w.
Proof using.
  intros Hn Hl R. unfold doNewRequests. apply safe_bind, safe_gets, safe_bind, safe_gets, safe_bind.
  eapply safe_mono.
  - apply (safe_while E (fun w' => res 0 0 w' /\ length (SideIn w' c) = length (SideIn w c)) (waiting_messages c)).
    + intros w' [R' L']. eapply safe_mono.
      * apply safe_new_round; [|exact R']. intros i Hi. apply (in_around _ _ _ Hn) in Hi. rewrite L'. lia.
      * intros b w'' (R'' & _ & Lt). split; [split; [done|]|].
        -- destruct (sh_in _ _ (r_shape _ _ _ _ _ R'') c) as [_ ->].
           by destruct (sh_in _ _ (r_shape _ _ _ _ _ R) c) as [_ ->].
        -- intros ->. by destruct (Lt eq_refl).
    + done.
    + lia.
  - cbn beta. intros ? w1 [R1 _]. apply safe_modify. by eapply res_frame; [exact R1|].
Qed.

(** ** A cycle *)

Lemma safe_processMessages w : res 0 0 w -> safe E (processMessages cfg) (fun _ => res 0 0) w.
Proof using PolicyLaws0.
  intros R. unfold processMessages.
  assert (Hl : forall c w, res 0 0 w -> Z.of_nat (length (SideIn w c)) =
      match c with BackRequest | BackReply => 1 | _ => theCores cfg end).
  { intros c w' R'. destruct (sh_in _ _ (r_shape _ _ _ _ _ R') c) as [_ ->].
    pose proof (sh_cores _ _ (r_shape _ _ _ _ _ R')). destruct c; lia. }
  pose proof (sh_cores _ _ (r_shape _ _ _ _ _ R)) as Hc.
  do 5 (apply safe_bind; eapply safe_mono; [apply safe_doNewRequests; [|by rewrite Hl|exact R]; lia|];
        clear R; intros ? ? R).
  apply safe_bind. eapply safe_mono; [by apply safe_scheduleNewProcesses|]. clear R. intros ? w1 R. cbn beta in R.
  apply safe_bind. eapply safe_mono; [apply (safe_for_each E (res 0 0)); [|exact R]|].
  - intros i Hi%in_below ? R'. eapply safe_pipe_loop; [constructor|done| |exact R']. intros. by apply safe_drain_maf.
  - clear R. intros ? w2 R. by apply safe_advancePipelines.
Qed.
End schedule.
