(* ===== verification/CacheRuns.v ===== *)
(** * Runs of a timing cache

    The bus of CacheBus.v keeps the invariant of CacheReservations.v, and so does every
    run of the component, from [initialize] on, in which the neighbours push into ports
    that are available, never into the one for prefetches, and no message is a
    prefetching read: no queue overflows, every loop ends, and a run stops at no
    assertion but those of [outside]. *)

From stdpp Require Import base gmap list strings fin_maps.
From Stdlib Require Import ZArith Lia.
From S2P Require Import Prelude Messages TimingQueues CacheBuffers MissAddressFile CacheController.
From S2P Require Import CacheBus CacheReservations CacheProcesses CacheSchedule.

Local Open Scope Z_scope.

(** ** Events *)

Section events.
Context {S P : Type} `{IndexOrder} `{Policy S P} (cfg : CacheConfig) (bus : BusConfig).

(** What neighbours do, and a cycle of the component, given what they accept. *)
Inductive CacheEvent : Type :=
  | NewMessage (m : Message)
  | PushFront (c : InChannel) (anIndex : Z) (t : Transport)
  | PushReply (t : Transport)
  | PushRequest (t : Transport)
  | Cycle (available : list (OutPort * Transport) -> OutPort -> bool).

Definition do_event (e : CacheEvent) : M (CacheComponent (S:=S) (P:=P)) () :=
  match e with
  | NewMessage m => call (new_message m);; mret ()
  | PushFront c i t => push_front c i t
  | PushReply t => push_BackSideIn_Reply bus t
  | PushRequest t => push_BackSideIn_Request bus t
  | Cycle available =>
      drive cfg bus available;;
      call (modify (fun w => set_cycleCount (cycleCount w + 1) w))
  end.

(** What the theorems about runs ask of the events: of the front side's ports those for
    snoops and requests are used, and no message is a prefetching read. *)
Definition wired (e : CacheEvent) : bool :=
  match e with
  | NewMessage m => negb (isPrefetchRead (Messages.theType (body m)))
  | PushFront c _ _ => bool_decide (c = FrontSnoop \/ c = FrontRequest)
  | PushReply _ | PushRequest _ | Cycle _ => true
  end.

(** [available] of the port that an event pushes into. *)
Definition port_available (e : CacheEvent) (k : CacheComponent (S:=S) (P:=P)) : bool :=
  match e with
  | PushFront c _ _ => front_available c k
  | PushReply _ => back_reply_available k
  | PushRequest _ => back_request_available k
  | NewMessage _ | Cycle _ => true
  end.

(** A neighbour asks for [available] first and does not push when the answer is no. *)
Definition try_event (e : CacheEvent) : M (CacheComponent (S:=S) (P:=P)) () :=
  b ← gets (port_available e); if (b : bool) then do_event e else mret ().

Definition run_events (es : list CacheEvent) : M (CacheComponent (S:=S) (P:=P)) () := for_each es try_event.
End events.

Section runs.
Context {S P : Type} `{IndexOrder} `{Policy S P} `{PolicyInvariant S P} (cfg : CacheConfig) (pa : string -> Prop)
  `{!PolicyLaws pa} (bus : BusConfig).
Implicit Types (w : Cache S P) (k : CacheComponent (S:=S) (P:=P)).

Local Abbreviation E := (outside cfg pa).

Definition no_floor : BackChannel -> nat := fun _ => 0%nat.
Local Abbreviation res := (res cfg no_floor 0 0).

Definition leaves (d : eDirection) : option BackChannel :=
  match d with
  | kToBackSideOut_Request => Some BSO_Request
  | kToBackSideOut_Prefetch => Some BSO_Prefetch
  | kToBackSideOut_Snoop => Some BSO_Snoop
  | kToBackSideOut_Reply => Some BSO_Reply
  | _ => None
  end.

(** What is on the bus is still in its queue. *)
Record kept k : Prop := {
  kp_res : res (theController k);
  kp_idle : 0 < theBusTxCountdown k -> theBusDirection k <> kIdle;
  kp_front : forall c, leaves (theBusDirection k) = Some c -> MQ.theQueue (BackSideOut (theController k) c) <> [];
}.

Lemma res_floor floor floor' w :
  CacheReservations.res cfg floor 0 0 w ->
  (forall c, (floor' c <= length (MQ.theQueue (BackSideOut w c)))%nat) -> CacheReservations.res cfg floor' 0 0 w.
Proof using. intros [] F. by split. Qed.

Lemma safe_call {A} (m : M (Cache S P) A) (Q : A -> CacheComponent -> Prop) k :
  safe E m (fun x w' => Q x (set_controller w' k)) (theController k) -> safe E (call m) Q k.
Proof using. unfold safe, call. destruct (m (theController k)) as [[x w']|]; done. Qed.

(** *** What leaves *)

Lemma safe_out_queue c k (Q : Queue -> CacheComponent -> Prop) :
  Q (BackSideOut (theController k) c) k -> safe E (out_queue c) Q k.
Proof using. intros K. apply safe_call, safe_gets. destruct k. exact K. Qed.

Lemma safe_update_message t f w (Q : () -> Cache S P -> Prop) :
  (forall m, Messages.theType (f m) = Messages.theType m /\ theAddress (f m) = theAddress m) -> res w ->
  (forall st, res (set_store st w) -> Q () (set_store st w)) -> safe E (update_message t f) Q w.
Proof using.
  intros Hf R K. unfold update_message. apply safe_null. intros msg Em.
  unfold message_of in Em. destruct (tMessage t) as [id|]; [|done]. cbn in Em.
  apply safe_modify, K, res_store; [done|]. destruct (Hf (body msg)) as [Ht Ha].
  eapply sound_written; [exact Em|cbn; by rewrite Ha|]. cbn. by rewrite Ht.
Qed.

Lemma res_taken c q w :
  res w -> MQ.queue_ok (held (res_of c) w) q -> res (set_BackSideOut (with_channel c q (BackSideOut w)) w).
Proof using. intros R K. eapply res_back; [exact R|apply moved_none|exact K|apply Nat.le_0_l|done]. Qed.

(** The head of a queue leaves; only that queue gets shorter. *)
Lemma safe_send_from c port k (Q : Transport -> CacheComponent -> Prop) :
  res (theController k) -> MQ.theQueue (BackSideOut (theController k) c) <> [] ->
  (forall t w', res w' -> Q t (add_sent port t (set_controller w' k))) ->
  safe E (send_from bus c port) Q k.
Proof using.
  intros R N K. unfold send_from, take_back. apply safe_bind, safe_bind, safe_out_queue.
  set (q := BackSideOut _ c) in *. destruct (MQ.theQueue q) as [|[t x] rest] eqn:Eq; [done|].
  destruct (MQ.dequeue_ok _ q t x rest (r_back _ _ _ _ _ R c) Eq) as (q' & Ed & Ok & _).
  apply safe_bind, safe_lift. exists (t, q'). split; [done|]. apply safe_bind, safe_call, safe_modify, safe_ret.
  apply (res_taken c) in Ok; [|done]. set (w1 := set_BackSideOut _ _) in *. apply safe_bind.
  assert (K1 : forall w', res w' -> safe E (modify (add_sent port t);; mret t) Q (set_controller w' k)) by (intros w' R'; by apply K).
  case_bool_decide.
  - apply safe_ret. by apply K1.
  - apply safe_call, safe_update_message; [done|exact Ok|]. intros st R1. by apply K1.
Qed.

Section cycle.
Context (available : list (OutPort * Transport) -> OutPort -> bool).

Lemma safe_accepts port k (Q : bool -> CacheComponent -> Prop) :
  (forall b, Q b k) -> safe E (accepts available port) Q k.
Proof using. intros K. apply safe_gets, K. Qed.

Lemma safe_nonempty c k (Q : bool -> CacheComponent -> Prop) :
  (forall b, (b = true -> MQ.theQueue (BackSideOut (theController k) c) <> []) -> Q b k) ->
  safe E (nonempty c) Q k.
Proof using.
  intros K. unfold nonempty. apply safe_bind, safe_out_queue, safe_ret, K. unfold MQ.empty.
  by destruct (MQ.theQueue _).
Qed.

Lemma safe_younger o c k (Q : bool -> CacheComponent -> Prop) :
  MQ.theQueue (BackSideOut (theController k) c) <> [] -> (forall b, Q b k) -> safe E (younger o c) Q k.
Proof using.
  intros N K. unfold younger. apply safe_bind, safe_out_queue. unfold MQ.empty.
  destruct (MQ.theQueue (BackSideOut _ o)) as [|[t x] l] eqn:Eo; [by apply safe_ret|].
  apply safe_bind, safe_out_queue, safe_bind, safe_lift. exists x. unfold MQ.headTimestamp at 1. rewrite Eo. split; [done|].
  destruct (MQ.theQueue (BackSideOut _ c)) as [|[t' x'] l'] eqn:Ec; [done|].
  apply safe_bind, safe_lift. exists x'. unfold MQ.headTimestamp. rewrite Ec. split; [done|]. apply safe_ret, K.
Qed.

Lemma safe_andC (c d : M CacheComponent bool) k (Q : bool -> CacheComponent -> Prop) :
  safe E c (fun b k' => if b then safe E d Q k' else Q false k') k -> safe E (andC c d) Q k.
Proof using. intros Hc. apply safe_bind. eapply safe_mono; [exact Hc|]. by intros [] k'. Qed.

Lemma safe_may_send c others k (Q : bool -> CacheComponent -> Prop) :
  (forall b, (b = true -> MQ.theQueue (BackSideOut (theController k) c) <> []) -> Q b k) ->
  safe E (may_send available c others) Q k.
Proof using.
  intros K. unfold may_send. apply safe_andC, safe_nonempty. intros [] N; [|by apply K].
  specialize (N eq_refl). apply safe_andC, safe_accepts. intros [] ; [|by apply K].
  induction others as [|o others IH]; cbn; [by apply safe_ret, K|].
  apply safe_andC, safe_younger; [done|]. intros []; [exact IH|by apply K].
Qed.

(** *** The front side *)

Definition same_bus k k' : Prop :=
  theBusDirection k' = theBusDirection k /\ theBusTxCountdown k' = theBusTxCountdown k /\
  BackSideOut (theController k') = BackSideOut (theController k).

Lemma kept_same k k' : kept k -> same_bus k k' -> res (theController k') -> kept k'.
Proof using. intros [R I F] (Ed & En & Eb) R'. split; [done|by rewrite Ed, En|]. intros c. rewrite Ed, Eb. apply F. Qed.

Definition front_count (f : Cache S P -> list Queue) i k : nat :=
  match f (theController k) !! Z.to_nat i with Some q => length (MQ.theQueue q) | None => 0%nat end.

Inductive front_side : (Cache S P -> list Queue) -> (list Queue -> Cache S P -> Cache S P) -> Prop :=
  | front_D : front_side FrontSideOut_D set_FrontSideOut_D
  | front_I : front_side FrontSideOut_I set_FrontSideOut_I.

Lemma front_at f set i k :
  front_side f set -> kept k -> 0 <= i < theCores cfg ->
  exists q, f (theController k) !! Z.to_nat i = Some q /\ vec_at (f (theController k)) i = Done q /\ plain q /\
    Z.of_nat (length (MQ.theQueue q)) + theFrontSideOutReserve (theController k) <= MQ.theSize q.
Proof using.
  intros Hf [R _ _] Hi. destruct (sh_front _ _ (r_shape _ _ _ _ _ R)) as [LI LD].
  assert (L : length (f (theController k)) = Z.to_nat (theCores cfg)) by by destruct Hf.
  destruct (vec_at_in (f (theController k)) i) as (q & El & Ev); [lia|]. exists q.
  apply list_elem_of_lookup_2 in El as Hq. split_and!; [done..| |];
    apply (r_room _ _ _ _ _ R); destruct Hf; auto.
Qed.

Lemma safe_front_send f set port i k :
  front_side f set -> kept k -> 0 <= i < theCores cfg ->
  safe E (front_send available f set port i)
    (fun again k' => kept k' /\ (again = true -> front_count f i k' < front_count f i k)%nat) k.
Proof using.
  intros Hf Kp Hi. destruct (front_at f set i k Hf Kp Hi) as (q & El & Ev & Pq & Lq). unfold front_send.
  apply safe_bind, safe_call, safe_gets.
  assert (Ek : set_controller (theController k) k = k) by by destruct k. rewrite Ek.
  apply safe_bind, safe_lift. exists q. split; [done|]. unfold MQ.empty.
  destruct (MQ.theQueue q) as [|[t x] rest] eqn:Eq; [by apply safe_ret|].
  apply safe_bind, safe_accepts. intros []; [|by apply safe_ret]. cbn [negb].
  destruct (MQ.dequeue_ok 0 q t x rest Pq Eq) as (q' & Ed & Pq' & Eq' & Es).
  apply lookup_lt_Some in El as Li.
  apply safe_bind, safe_lift. exists (t, q'). split; [done|]. apply safe_bind, safe_lift. eexists.
  split; [apply vec_put_in; lia|]. apply safe_bind, safe_call, safe_modify, safe_bind, safe_modify, safe_ret.
  assert (R1 : res (set (<[Z.to_nat i := q']> (f (theController k))) (theController k))).
  { destruct Kp as [R _ _]. apply res_front; [destruct Hf; auto|exact R| |].
    - rewrite length_insert. destruct (sh_front _ _ (r_shape _ _ _ _ _ R)) as [LI LD]. by destruct Hf.
    - intros y [->|Hy]%in_insert.
      + split; [done|]. rewrite Eq', Es. cbn in Lq. lia.
      + apply (r_room _ _ _ _ _ R). destruct Hf; auto. }
  split.
  - eapply kept_same; [exact Kp| |exact R1]. by destruct Hf.
  - intros _. unfold front_count. rewrite El, Eq. destruct Hf; cbn; rewrite list_lookup_insert_eq by done; rewrite Eq'; cbn; lia.
Qed.

Lemma safe_front_loop f set port i k :
  front_side f set -> kept k -> 0 <= i < theCores cfg ->
  safe E (front_loop available f set port i) (fun _ => kept) k.
Proof using.
  intros Hf Kp Hi. destruct (front_at f set i k Hf Kp Hi) as (q & El & Ev & _). unfold front_loop.
  apply safe_bind, safe_call, safe_gets.
  assert (Ek : set_controller (theController k) k = k) by by destruct k. rewrite Ek.
  apply safe_bind, safe_lift. exists q. split; [done|].
  apply (safe_while E kept (front_count f i)); [intros k' Kp'; by apply safe_front_send|done|].
  unfold front_count. rewrite El. lia.
Qed.

Lemma safe_front_cycle i k :
  kept k -> 0 <= i < theCores cfg -> safe E (front_cycle available i) (fun _ => kept) k.
Proof using.
  intros Kp Hi. unfold front_cycle. apply safe_bind. eapply safe_mono; [by eapply safe_front_loop; [constructor|..]|].
  intros ? k' Kp'. by eapply safe_front_loop; [constructor|..].
Qed.

(** *** The back side *)

Lemma port_at c k :
  kept k -> 0 < theCores cfg ->
  exists q, SideIn (theController k) c !! 0%nat = Some q /\ vec_at (SideIn (theController k) c) 0 = Done q /\ plain q.
Proof using.
  intros [R _ _] Hc. destruct (sh_in _ _ (r_shape _ _ _ _ _ R) c) as [_ L].
  destruct (vec_at_in (SideIn (theController k) c) 0) as (q & El & Ev); [destruct c; lia|].
  exists q. split_and!; [done..|]. apply (r_in _ _ _ _ _ R c). left. by eapply list_elem_of_lookup_2.
Qed.

Lemma safe_port_queue c k (Q : Queue -> CacheComponent -> Prop) :
  kept k -> (forall q, SideIn (theController k) c !! 0%nat = Some q -> vec_at (SideIn (theController k) c) 0 = Done q ->
    plain q -> Q q k) -> safe E (call (port_queue c 0)) Q k.
Proof using.
  intros Kp K. destruct (port_at c k Kp (sh_cores _ _ (r_shape _ _ _ _ _ (kp_res _ Kp)))) as (q & El & Ev & Pq).
  apply safe_call. unfold port_queue. apply safe_bind, safe_gets, safe_lift. exists q. split; [done|].
  destruct k. by apply K.
Qed.

Lemma safe_in_full c k (Q : bool -> CacheComponent -> Prop) :
  kept k -> (forall b, (b = false -> forall q, SideIn (theController k) c !! 0%nat = Some q -> MQ.full 0 q = false) -> Q b k) ->
  safe E (in_full c) Q k.
Proof using.
  intros Kp K. unfold in_full. apply safe_bind, safe_port_queue; [done|]. intros q El _ _. apply safe_ret, K.
  intros Fl q'. rewrite El. by intros [= <-].
Qed.

(** A message enters a port's queue that has room. *)
Lemma safe_put_in c t k (Q : () -> CacheComponent -> Prop) q :
  kept k -> c <> FrontPrefetch -> SideIn (theController k) c !! 0%nat = Some q -> MQ.full 0 q = false ->
  (forall w', res w' -> BackSideOut w' = BackSideOut (theController k) -> Q () (set_controller w' k)) ->
  safe E (q' ← lift (MQ.enqueue (cycleCount (theController k)) t q); call (put_port_queue c 0 q')) Q k.
Proof using.
  intros Kp Nc El Fl K. destruct (port_at c k Kp (sh_cores _ _ (r_shape _ _ _ _ _ (kp_res _ Kp)))) as (q0 & El0 & Ev & Pq).
  rewrite El in El0. injection El0 as <-. rewrite (MQ.full_ok 0) in Fl by (done || destruct Pq; lia). apply Z.leb_gt in Fl.
  destruct (MQ.enqueue_ok 0 (cycleCount (theController k)) t q Pq) as (q' & Ee & Pq' & _); [lia|].
  apply safe_bind, safe_lift. exists q'. split; [done|]. apply safe_call. unfold put_port_queue.
  apply safe_bind, safe_gets, safe_bind, safe_lift. eexists. split; [apply vec_put_in; apply lookup_lt_Some in El; lia|].
  apply safe_modify, K; [|done]. destruct Kp as [R _ _]. apply res_side; [exact R|by rewrite length_insert|].
  intros y [->|Hy]%in_insert; (split; [|done]); [done|]. apply (r_in _ _ _ _ _ R c). by left.
Qed.

Lemma safe_enqueue_in c t k (Q : () -> CacheComponent -> Prop) :
  kept k -> c <> FrontPrefetch ->
  (forall q, SideIn (theController k) c !! 0%nat = Some q -> MQ.full 0 q = false) ->
  (forall w', res w' -> BackSideOut w' = BackSideOut (theController k) -> Q () (set_controller w' k)) ->
  safe E (enqueue_in c t) Q k.
Proof using.
  intros Kp Nc Fl K. unfold enqueue_in. apply safe_bind, safe_call, safe_gets.
  assert (Ek : set_controller (theController k) k = k) by by destruct k. rewrite Ek.
  apply safe_bind, safe_port_queue; [done|]. intros q El _ _. by apply safe_put_in; [..|apply Fl|].
Qed.

Lemma safe_body t w (Q : Message -> Cache S P -> Prop) : (forall m, Q m w) -> safe E (deref_message t) Q w.
Proof using. intros K. unfold safe, deref_message. destruct (message_of t w); [apply K|apply out_null]. Qed.

Lemma safe_transferTime t k (Q : Z -> CacheComponent -> Prop) :
  (forall n, Q n k) -> safe E (transferTime bus t) Q k.
Proof using.
  intros K. unfold transferTime. destruct (isFastMode bus); [by apply safe_ret|].
  apply safe_bind, safe_call, safe_body. intros m. apply safe_ret. destruct k. apply K.
Qed.

(** The bus takes up a message that arrives, or one that leaves and stays queued. *)
Lemma kept_bus k d n t :
  kept k -> d <> kIdle -> (forall c, leaves d = Some c -> MQ.theQueue (BackSideOut (theController k) c) <> []) ->
  kept (set_bus d n t k).
Proof using. intros [R I F] Nd L. by split. Qed.

Lemma kept_idle k t : kept k -> theBusTxCountdown k = 0 -> kept (set_bus kIdle (theBusTxCountdown k) t k).
Proof using. intros [R I F] Ez. split; [done| |done]. cbn. rewrite Ez. lia. Qed.

Lemma safe_start_out d c k :
  kept k -> leaves d = Some c -> MQ.theQueue (BackSideOut (theController k) c) <> [] ->
  safe E (start_out bus d c) (fun _ => kept) k.
Proof using.
  intros Kp L N. unfold start_out. apply safe_bind, safe_out_queue, safe_bind, safe_lift_any. unfold MQ.peek.
  destruct (MQ.theQueue _) as [|[t x] l] eqn:Eq; [done|]. apply safe_bind, safe_transferTime. intros n.
  apply safe_modify, kept_bus; [done|by intros ->|]. intros c'. rewrite L. intros [= <-]. by rewrite Eq.
Qed.

Lemma safe_start_in d t k :
  kept k -> d <> kIdle -> leaves d = None -> safe E (start_in bus d t) (fun _ => kept) k.
Proof using.
  intros Kp Nd L. unfold start_in. apply safe_bind, safe_modify, safe_bind, safe_transferTime. intros n.
  apply safe_modify, kept_bus; [apply kept_bus; [done..|by rewrite L]|done|by rewrite L].
Qed.

Lemma safe_from_buffer f set d k :
  (forall k, kept k -> kept (set None k)) -> kept k -> d <> kIdle -> leaves d = None -> f k <> None ->
  safe E (from_buffer bus f set d) (fun _ => kept) k.
Proof using.
  intros Hs Kp Nd L N. unfold from_buffer. apply safe_bind, safe_gets. destruct (f k) as [t|]; [|done].
  apply safe_bind, safe_modify, safe_start_in; auto.
Qed.

Lemma safe_ifM (c : M CacheComponent bool) m n k (Q : () -> CacheComponent -> Prop) :
  safe E c (fun b k' => if b then safe E m Q k' else safe E n Q k') k -> safe E (ifM c m n) Q k.
Proof using. intros Hc. apply safe_bind. eapply safe_mono; [exact Hc|]. by intros [] k'. Qed.

Lemma safe_buffer_ready f c k (Q : bool -> CacheComponent -> Prop) :
  kept k -> (forall b, (b = true -> f k <> None) -> Q b k) -> safe E (buffer_ready f c) Q k.
Proof using.
  intros Kp K. unfold buffer_ready. apply safe_bind, safe_gets. destruct (f k); [|by apply safe_ret, K].
  apply safe_bind, safe_in_full; [done|]. intros b _. by apply safe_ret, K.
Qed.

Lemma safe_start_transfer k : kept k -> safe E (start_transfer bus available) (fun _ => kept) k.
Proof using.
  intros Kp. unfold start_transfer.
  apply safe_ifM, safe_buffer_ready; [done|]. intros [] N1.
  { apply safe_from_buffer; auto. by intros k' []. }
  apply safe_ifM, safe_buffer_ready; [done|]. intros [] N2.
  { apply safe_from_buffer; auto. by intros k' []. }
  apply safe_ifM, safe_may_send. intros [] N3; [apply safe_start_out; auto|].
  apply safe_ifM, safe_andC, safe_bind, safe_nonempty. intros b _. apply safe_ret. destruct (negb b).
  - apply safe_may_send. intros [] N4; [apply safe_start_out; auto|].
    apply safe_ifM, safe_may_send. intros [] N5; [apply safe_start_out; auto|].
    apply safe_ifM, safe_may_send. intros [] N6; [apply safe_start_out; auto|by apply safe_ret].
  - apply safe_ifM, safe_may_send. intros [] N5; [apply safe_start_out; auto|].
    apply safe_ifM, safe_may_send. intros [] N6; [apply safe_start_out; auto|by apply safe_ret].
Qed.

Lemma safe_arrive c k :
  kept k -> c <> FrontPrefetch -> theBusTxCountdown k = 0 -> leaves (theBusDirection k) = None ->
  safe E (arrive c) (fun _ => kept) k.
Proof using.
  intros Kp Nc Ez L. unfold arrive. apply safe_bind, safe_in_full; [done|]. intros [] Fl; [by apply safe_ret|].
  specialize (Fl eq_refl). apply safe_bind, safe_gets, safe_bind, safe_enqueue_in; [done..|].
  intros w' R' Eb. apply safe_modify. apply kept_idle; [|done].
  eapply kept_same; [exact Kp| |exact R']. done.
Qed.

Lemma safe_leave c k :
  kept k -> theBusTxCountdown k = 0 -> leaves (theBusDirection k) = Some c ->
  safe E (leave bus available c) (fun _ => kept) k.
Proof using.
  intros Kp Ez L. unfold leave. apply safe_bind, safe_accepts. intros [].
  - apply safe_bind. unfold nonempty. apply safe_bind, safe_out_queue, safe_ret, safe_bind.
    pose proof (kp_front _ Kp c L) as N. apply safe_assert.
    { unfold MQ.empty. by destruct (MQ.theQueue _). }
    intros _. apply safe_bind, safe_send_from; [apply Kp|done|]. intros t w' R'. apply safe_modify.
    split; [done| |done]. cbn. rewrite Ez. lia.
  - apply safe_bind, safe_modify, safe_modify. apply (kept_idle (add_deadlock k)); [|done].
    destruct Kp. by split.
Qed.

Lemma safe_finish_transfer k :
  kept k -> theBusTxCountdown k = 0 -> safe E (finish_transfer bus available) (fun _ => kept) k.
Proof using.
  intros Kp Ez. unfold finish_transfer. apply safe_bind, safe_gets.
  destruct (theBusDirection k) eqn:Ed;
    [by apply safe_ret|apply safe_arrive|apply safe_arrive|apply safe_leave|apply safe_leave|apply safe_leave|apply safe_leave];
    try done; by rewrite Ed.
Qed.

Lemma safe_fast_evict k : kept k -> safe E (fast_evict bus available) (fun _ => kept) k.
Proof using.
  intros Kp. unfold fast_evict. apply safe_bind, safe_gets. case_bool_decide as Di; [|by apply safe_ret]. cbn [negb].
  apply safe_bind, safe_andC, safe_nonempty. intros [] N; [|by apply safe_ret]. specialize (N eq_refl).
  apply safe_accepts. intros []; [|by apply safe_ret]. cbn [negb].
  apply safe_bind, safe_out_queue, safe_bind, safe_lift_any. unfold MQ.peek.
  destruct (MQ.theQueue _) as [|[t x] l] eqn:Eq; [done|]. apply safe_bind, safe_call, safe_body. intros m.
  assert (Ek : set_controller (theController k) k = k) by by destruct k. rewrite Ek.
  case_bool_decide; [|by apply safe_ret]. apply safe_bind, safe_send_from; [apply Kp|by rewrite Eq|].
  intros t' w' R'. apply safe_ret. destruct Kp as [_ I _]. split; [done|done|]. cbn. by rewrite Di.
Qed.

Lemma safe_busCycle k :
  NoBus bus = false -> kept k -> safe E (busCycle cfg bus available) (fun _ => kept) k.
Proof using.
  intros Nb Kp. unfold busCycle. rewrite Nb. apply safe_bind. eapply safe_mono; [apply (safe_for_each E kept); [|exact Kp]|].
  { intros i Hi%in_below k' Kp'. by apply safe_front_cycle. }
  clear k Kp. intros ? k Kp. cbn beta in Kp. apply safe_bind. apply safe_mono with (Q := fun _ => kept).
  { destruct (FastEvictClean bus); [by apply safe_fast_evict|by apply safe_ret]. }
  clear k Kp. intros ? k Kp. apply safe_bind, safe_gets, safe_bind, safe_gets, safe_bind.
  apply safe_mono with (Q := fun _ => kept).
  - destruct (Z.ltb_spec 0 (theBusTxCountdown k)) as [Lt|Ge].
    + pose proof (kp_idle _ Kp Lt) as Nd. rewrite bool_decide_eq_false_2 by done.
      apply safe_bind, safe_assert; [done|intros _]. apply safe_modify. destruct Kp as [R I F]. by split.
    + case_bool_decide; [by apply safe_start_transfer|by apply safe_ret].
  - clear k Kp. intros ? k Kp. apply safe_bind, safe_gets. destruct (Z.eqb_spec (theBusTxCountdown k) 0); [|by apply safe_ret].
    by apply safe_finish_transfer.
Qed.

Lemma safe_drive k :
  NoBus bus = false -> kept k -> safe E (drive cfg bus available) (fun _ => kept) k.
Proof using PolicyLaws0.
  intros Nb Kp. unfold drive. apply safe_bind, safe_call.
  set (floor := fun c => length (MQ.theQueue (BackSideOut (theController k) c))).
  eapply safe_mono.
  - apply (safe_processMessages cfg floor pa). eapply res_floor; [apply Kp|]. done.
  - intros ? w' R'. apply safe_busCycle; [done|]. destruct Kp as [_ I F]. split; cbn.
    + eapply res_floor; [exact R'|]. intros c. apply Nat.le_0_l.
    + exact I.
    + intros c L. pose proof (r_floor _ _ _ _ _ R' c) as Le. specialize (F c L). unfold floor in Le.
      intros E0. rewrite E0 in Le. destruct (MQ.theQueue (BackSideOut (theController k) c)); [done|cbn in Le; lia].
Qed.
End cycle.

(** *** Pushes *)

Lemma kept_store st k : kept k -> res (set_store st (theController k)) -> kept (set_controller (set_store st (theController k)) k).
Proof using. intros Kp R. by eapply kept_same; [exact Kp| |exact R]. Qed.

Lemma safe_push_front c i t k :
  c = FrontSnoop \/ c = FrontRequest -> front_available c k = true -> kept k ->
  safe E (push_front c i t) (fun _ => kept) k.
Proof using.
  intros Hc Av Kp. unfold push_front. apply safe_bind, safe_port_queue; [done|]. intros q El _ _.
  unfold front_available in Av. rewrite El in Av.
  apply safe_bind, safe_assert; [by rewrite Av|intros _]. apply negb_true_iff in Av.
  apply safe_bind, safe_call, safe_update_message; [done|apply Kp|]. intros st R1.
  set (k1 := set_controller _ k). assert (Kp1 : kept k1) by by apply kept_store.
  apply safe_bind, safe_call, safe_gets. apply safe_put_in; [exact Kp1|by destruct Hc; subst c|exact El|exact Av|].
  intros w' R' Eb. by eapply kept_same; [exact Kp1| |exact R'].
Qed.

Lemma safe_push_back (b : CacheComponent -> bool) why t set k :
  b k = true -> kept k -> (forall k, kept k -> kept (set k)) ->
  safe E (a ← gets b; dbg_assert a why;; call (update_message t (set_coreIdx 0));; modify set) (fun _ => kept) k.
Proof using.
  intros Hb Kp Hs. apply safe_bind, safe_gets. rewrite Hb. apply safe_bind, safe_assert; [done|intros _].
  apply safe_bind, safe_call, safe_update_message; [done|apply Kp|]. intros st R1.
  by apply safe_modify, Hs, kept_store.
Qed.

Lemma safe_event e k :
  NoBus bus = false -> wired e = true -> kept k -> safe E (try_event cfg bus e) (fun _ => kept) k.
Proof using PolicyLaws0.
  intros Nb We Kp. unfold try_event. apply safe_bind, safe_gets. destruct (port_available e k) eqn:Pm; [|by apply safe_ret].
  destruct e as [m|c i t|t|t|available]; cbn [wired port_available do_event] in *.
  - apply safe_bind, safe_call, safe_bind, safe_gets, safe_bind, safe_modify, safe_bind, safe_modify, safe_ret, safe_ret.
    eapply kept_same; [exact Kp|done|]. cbn. set (w := theController k).
    destruct Kp as [[] _ _]. split; try done; [by destruct r_shape|]. apply sound_new; [|done].
    by apply negb_true_iff.
  - apply bool_decide_eq_true in We. by apply safe_push_front.
  - unfold push_BackSideIn_Reply. rewrite Nb. apply safe_push_back; [done..|]. by intros k' [].
  - unfold push_BackSideIn_Request. rewrite Nb. apply safe_push_back; [done..|]. by intros k' [].
  - apply safe_bind. eapply safe_mono; [by apply safe_drive|]. intros ? k' Kp'. apply safe_call, safe_modify.
    eapply kept_same; [exact Kp'|done|]. destruct Kp' as [[] _ _]. split; try done. by destruct r_shape.
Qed.

Lemma safe_events es k :
  NoBus bus = false -> forallb wired es = true -> kept k -> safe E (run_events cfg bus es) (fun _ => kept) k.
Proof using PolicyLaws0.
  intros Nb We Kp. apply (safe_for_each E kept); [|done]. intros e He k' Kp'.
  rewrite forallb_forall in We. apply safe_event; [done|by apply We, list_elem_of_In|done].
Qed.
End runs.

(** ** From the start *)

Record config_ok (cfg : CacheConfig) : Prop := {
  c_banks : 0 < theBanks cfg;
  c_cores : 0 < theCores cfg;
  c_queues : 0 <= QueueSizes cfg < 2 ^ 32 - 1;
  c_ports : 0 <= PreQueueSizes cfg < 2 ^ 32;
  c_maf : 0 <= MAFSize cfg < 2 ^ 31;
  c_evict : 0 <= EvictBufferSize cfg < 2 ^ 32;
}.

Lemma in_repeat {A} (x y : A) n : x ∈ repeat y n -> x = y.
Proof. induction n; cbn; [by intros ?%not_elem_of_nil|]. intros [-> | Hx]%elem_of_cons; auto. Qed.

Lemma in_pipes_repeat r (p : Pipeline) n : items p = [] -> in_pipes r (repeat p n) = 0.
Proof. intros Ei. induction n; cbn; [done|]. by rewrite Ei. Qed.

Lemma newPipelines_ok cfg issue lat l K :
  newPipelines cfg issue lat = Done l ->
  pipes_ok K l /\ length l = Z.to_nat (theBanks cfg) /\ forall r, in_pipes r l = 0.
Proof.
  unfold newPipelines. destruct (Fifo.newFifo _ _ _) as [p|] eqn:Ep; [|done]. intros [= <-].
  destruct (Fifo.fifo_new_ok _ _ _ _ Ep) as [F Eq]. assert (Ei : items p = []) by (unfold items; by rewrite Eq).
  split_and!; [|by rewrite repeat_length|by intros r; apply in_pipes_repeat].
  apply Forall_forall. intros x ->%in_repeat. split; [done|]. by rewrite Ei.
Qed.

Lemma new_kept {S P} `{IndexOrder} `{Policy S P} `{PolicyInvariant S P} cfg bus (i : P) k :
  config_ok cfg -> policy_inv i [] -> initialize cfg bus i = Done k -> kept cfg (S:=S) k.
Proof.
  intros [Cb Cc Cq Cp Cm Ce] Pi. unfold initialize, newController.
  destruct (MAF.newFile _ _) as [f|] eqn:Ef; [|done]. cbn [mbind outcome_bind].
  destruct (newPipelines cfg 1 0) as [p1|] eqn:E1; [|done]. cbn [mbind outcome_bind].
  destruct (newPipelines cfg (TagIssueLatency cfg) _) as [p2|] eqn:E2; [|done]. cbn [mbind outcome_bind].
  destruct (newPipelines cfg (DataIssueLatency cfg) _) as [p3|] eqn:E3; [|done]. cbn [mbind outcome_bind].
  destruct (_ && _); [|done]. intros [= <-].
  apply (newPipelines_ok _ _ _ _ (started cfg)) in E1 as (K1 & L1 & Z1).
  apply (newPipelines_ok _ _ _ _ (ending cfg)) in E2 as (K2 & L2 & Z2).
  apply (newPipelines_ok _ _ _ _ (ending cfg)) in E3 as (K3 & L3 & Z3).
  assert (Hm : MAF.maf_ok 0 f /\ MAF.theMshrs f = []).
  { unfold MAF.newFile in Ef. destruct (MAFTargetsPerRequest cfg =? 0) eqn:Et; [|done]. apply Z.eqb_eq in Et. rewrite Et in Ef.
    destruct (MAF.maf_new_ok (MAFSize cfg) Cm) as (f' & Ef' & Ok & Em). unfold MAF.newFile in Ef'. rewrite Z.eqb_refl in Ef'.
    rewrite Ef in Ef'. injection Ef' as <-. done. }
  destruct Hm as [Hm Em].
  assert (Pq : forall n, 0 <= n < 2 ^ 32 -> plain (@MQ.newQueue Transport n)) by (intros n; apply MQ.queue_new_ok).
  split; [|cbn; lia|done]. unfold no_floor. split; unfold held; cbn; rewrite ?Z1, ?Z2, ?Z3; try done.
  - intros q [->%in_repeat | ->%in_repeat]; (split; [apply Pq; lia|cbn; lia]).
  - intros c. rewrite !Z1, !Z2, !Z3. unfold bit. rewrite Z.land_0_l. cbn.
    destruct c; apply MQ.queue_new_ok; rewrite ?uint32_small; lia.
  - intros c. apply Nat.le_0_l.
  - exists 0. split; [done|]. rewrite Em. done.
  - intros c q [Hq | ->%in_repeat]; [|apply Pq; lia].
    destruct c; try (apply in_repeat in Hq as ->; apply Pq; lia); apply list_elem_of_singleton in Hq as ->; apply Pq; lia.
  - by intros q [->%in_repeat | ->%in_repeat].
  - split; try done; cbn.
    + by rewrite !repeat_length.
    + intros c. rewrite repeat_length. split; [done|]. by destruct c; rewrite ?repeat_length.
    + by rewrite !repeat_length.
    + lia.
  - unfold sound, no_prefetch_reads. cbn. rewrite Em. split_and!; done.
Qed.
