(* ===== verification/TimingCache.v ===== *)
(** * The timing cache

    What holds of every run of a timing cache whose protocol keeps the laws of
    CacheReservations.v, for one protocol that does, and what the code does where its
    bookkeeping fails: prefetches, replies without a bus, prefetching reads, probes of
    the instruction cache, quiescence. *)

From stdpp Require Import base gmap list strings fin_maps.
From Stdlib Require Import ZArith Lia.
From S2P Require Import Prelude Messages TimingQueues CacheBuffers MissAddressFile CacheController.
From S2P Require Import CacheBus CacheReservations CacheProcesses CacheSchedule CacheRuns.

Local Open Scope Z_scope.

(** ** Protocols given by their actions *)

Record Script : Type := mkScript {
  on_request : Action -> Action;
  on_snoop : Action -> Action;
  on_iprobe : Action -> Action;
}.

(** An action with the message that is handled as its messages. *)
Definition with_kind (k : enumAction) (front back : bool) (a : Action) : Action :=
  mkAction k (theOutputTracker a) (theFrontTransport a) (theBackTransport a) front back true false 0 1 false false
    false true.
Definition about (t : Transport) : Action :=
  mkAction kNoAction (tTracker t) t t false false true false 0 1 false false false true.

Definition known_kind (t : Transport) : M (Cache () ()) () :=
  m ← deref_message t; lift (MAF.getType (Messages.theType (body m)));; mret ().

Definition idle_stop (p : ProcessEntry) (a : Action) : M (Cache () ()) ProcessEntry :=
  p ← unreserveSnoopBuffer p;
  if bool_decide (theAction a = kNoAction) then unreserveFrontSideOut p else mret p.

(** Blocks of 64 bytes, none of them present: requests go to the back side, and what
    comes back answers the request that waits. *)
Definition scripted (sc : Script) : Policy () () := {|
  getBlockAddress := fun _ a => 64 * (a / 64);
  canStartRequest := fun _ _ => true;
  addPendingRequest := fun _ => Done;
  removePendingRequest := fun _ => Done;
  arrayEvictResourcesAvailable := fun _ => true;
  reserveArrayEvictResource := Done;
  unreserveArrayEvictResource := Done;
  freeEvictBuffer := fun w => EB.freeEntries (theEvictBuffer w);
  evictableBlockExists := base_evictableBlockExists;
  doEviction := mret (newAction kNoAction None 0);
  doRequest := fun t _ _ => known_kind t;; mret (false, false, on_request sc (about t));
  handleBackMessage := fun t =>
    m ← deref_message t;
    maf ← gets theMaf;
    match @MAF.find_entry arrival_order (64 * (theAddress (body m) / 64)) kWaitResponse maf with
    | Some e =>
        mret (with_kind kReplyAndRemoveResponseMAF true false
                (about (mkTransport (tMessage t) (tTracker (MAF.transport e)))))
    | None => mret (about t)
    end;
  handleSnoopMessage := fun t => mret (on_snoop sc (about t));
  handleIprobe := fun _ t => mret (on_iprobe sc (about t));
  idleWorkAvailable := fun _ => false;
  getIdleWorkMessage := fun p => p ← reserveSnoopBuffer p; p ← reserveFrontSideOut p; mret (None, p);
  removeIdleWorkReservations := idle_stop;
  handleIdleWork := fun t => mret (about t);
  completeIdleWork := fun _ => mret ();
  handleWakeSnoop := fun t => mret (on_snoop sc (about t));
|}.

Definition forwarding : Script := mkScript (with_kind kInsertMAF_WaitResponse false true) id (with_kind kInsertMAF_WaitSnoop false false).

Inductive unknown_message : string -> Prop :=
  | unknown_null : unknown_message "null message"
  | unknown_type : unknown_message "Illegal message type entered into MAF".

(** It keeps nothing. *)
Definition no_invariant {S P : Type} : PolicyInvariant S P := fun _ _ => True.

Section forwarding_laws.
#[local] Existing Instance arrival_order.
#[local] Instance forwarding_policy : Policy () () := scripted forwarding.
#[local] Existing Instance no_invariant.

Lemma forwarding_laws : PolicyLaws unknown_message.
Proof.
  split.
  - intros t b tracker w _. cbn. unfold known_kind. apply safe_bind, safe_bind. unfold safe at 1, deref_message.
    destruct (message_of t w) as [m|] eqn:Em; [|constructor]. apply safe_bind, safe_lift_any.
    destruct (MAF.getType (Messages.theType (body m))) as [k|why] eqn:Ek.
    + apply safe_ret, safe_ret. by split_and!.
    + assert (why = "Illegal message type entered into MAF") as -> by (destruct (Messages.theType _); simplify_eq/=; done).
      constructor.
  - intros t w _. cbn. apply safe_bind. unfold safe at 1, deref_message.
    destruct (message_of t w) as [m|] eqn:Em; [|constructor]. apply safe_bind, safe_gets.
    destruct (MAF.find_entry _ _ _) as [e|] eqn:Ef; apply safe_ret; (split_and!; try done).
    split; [done|]. intros x. unfold body_of. rewrite Em. intros [= <-]. exists (MAF.maf_iter e).
    unfold MAF.getWaitingMAFEntryIter, MAF.find. cbn [getBlockAddress forwarding_policy scripted]. by rewrite Ef.
  - intros t w _. apply safe_ret. split_and!; try done. by left.
  - intros b t w _. apply safe_ret. split_and!; try done. by left.
  - intros t w _. by apply safe_ret.
  - intros t w _. apply safe_ret. split_and!; try done. by left.
  - intros w _. apply safe_ret. by split.
  - intros msg w. by apply safe_ret.
  - done.
  - done.
  - intros p a w Hr. change (safe unknown_message (idle_stop p a) (fun p' w' => exists w1, idle_stop p a w = Done (p', w1) /\
      handled w1 w') w).
    assert (Hd : exists x w', idle_stop p a w = Done (x, w')).
    { unfold idle_stop, unreserveSnoopBuffer, update_snoops, SB.unreserve. cbn. unfold mbind, M_bind, gets, lift.
      rewrite (proj2 (Z.ltb_lt _ _)) by done. cbn. case_bool_decide; by eexists _, _. }
    destruct Hd as (x & w' & Eq). unfold safe. rewrite Eq. by exists w'.
  - by intros x i.
  - by intros i.
Qed.
End forwarding_laws.

(** ** Runs *)

(** A first-level data cache with its bus. *)
Definition small_cache : CacheConfig := mkConfig 1 1 2 0 64 1 1 1 1 4 4 4 0 4 4 true true.
Definition small_bus : BusConfig := mkBusConfig false false 2 1 7 false.

Definition load (a : Z) : Message := fresh_message (mkMessage LoadReq a 0 8 0 true eUnknown false).
Definition reply (a : Z) : Message := fresh_message (mkMessage MissReply a 0 64 0 true eUnknown false).
Definition cycles (n : nat) : list CacheEvent := repeat (Cycle (fun _ _ => true)) n.

(** A request misses, its copy goes out on the back side, and the answer comes back
    to the front. *)
Definition miss_and_reply : list CacheEvent :=
  [NewMessage (load 4096); PushFront FrontRequest 3 (mkTransport (Some 0) (Some 100))] ++ cycles 6 ++
  [NewMessage (reply 4096); PushReply (mkTransport (Some 1) (Some 100))] ++ cycles 8.

Definition run_small (sc : Script) (bus : BusConfig) (es : list CacheEvent) : outcome (CacheComponent (S:=()) (P:=())) :=
  k ← @initialize () () (scripted sc) small_cache bus ();
  '(_, k) ← @run_events () () arrival_order (scripted sc) small_cache bus es k;
  Done k.

Definition run_all (sc : Script) (cfg : CacheConfig) (bus : BusConfig) (es : list CacheEvent) : outcome (CacheComponent (S:=()) (P:=())) :=
  k ← @initialize () () (scripted sc) cfg bus ();
  '(_, k) ← for_each es (@do_event () () arrival_order (scripted sc) cfg bus) k;
  Done k.
Definition request (t : MemoryMessageType) (a : Z) : Message := fresh_message (mkMessage t a 0 8 0 true eUnknown false).
Definition transport (i : Z) : Transport := mkTransport (Some i) (Some (100 + i)).
Definition prefetch_one : list CacheEvent :=
  [NewMessage (request ReadReq 4096); PushFront FrontPrefetch 0 (transport 0)] ++ cycles 6.
Definition prefetch_read : list CacheEvent :=
  [NewMessage (request LoadReq 4096); PushFront FrontRequest 0 (transport 0)] ++ cycles 3 ++
  [NewMessage (request PrefetchReadAllocReq 4096); PushFront FrontRequest 0 (transport 1)] ++ cycles 3.
Definition replying : Script := mkScript (with_kind kInsertMAF_WaitResponse false true) (with_kind kSend false true) id.
Definition without_bus : BusConfig := mkBusConfig true false 2 1 7 false.
Definition one_snoop : list CacheEvent :=
  [NewMessage (request EvictClean 4096); PushFront FrontSnoop 0 (transport 0)] ++ cycles 6.
Definition l1d_cache : CacheConfig := mkConfig 1 1 2 0 64 0 1 1 1 8 4 4 0 4 4 true true.
Definition three_snoops : list CacheEvent :=
  [NewMessage (request EvictClean 4096); NewMessage (request EvictClean 8192); NewMessage (request EvictClean 12288);
   PushFront FrontSnoop 0 (transport 0); PushFront FrontSnoop 0 (transport 1); PushFront FrontSnoop 0 (transport 2)] ++ cycles 1.

(** The witnesses compute: the maps of the model are transparent to conversion. *)
#[local] Transparent gmap_empty.

(** ** Theorems *)

(** Every counter is what the queue or the buffer holds and what the processes in the
    pipelines hold reserved, and there is room for both. *)
Record accounted {S P} `{IndexOrder} `{Policy S P} (cfg : CacheConfig) (w : Cache S P) : Prop := {
  a_back : forall c, MQ.queue_ok (held (res_of c) w) (BackSideOut w c);
  a_front : theFrontSideOutReserve w = held kResFrontSideOut w /\
    forall q, q ∈ FrontSideOut_I w \/ q ∈ FrontSideOut_D w ->
      plain q /\ Z.of_nat (length (MQ.theQueue q)) + theFrontSideOutReserve w <= MQ.theSize q;
  a_maf : MAF.maf_ok (held kResMaf w) (theMaf w);
  a_snoops : SB.theReserve (theSnoopBuffer w) = held kResSnoopBuffer w;
  a_evicts : theScheduledEvicts w = held kResScheduledEvict w;
  a_in : forall c q, q ∈ SideIn w c \/ q ∈ BankSideIn w c -> plain q;
}.

Lemma kept_accounted {S P} `{IndexOrder} `{Policy S P} `{PolicyInvariant S P} cfg (k : CacheComponent (S:=S) (P:=P)) :
  kept cfg k -> accounted cfg (theController k).
Proof. intros [[] _ _]. by split. Qed.

Lemma runs_kept {S P} `{IndexOrder} `{Policy S P} `{PolicyInvariant S P} cfg bus pa `{!PolicyLaws pa} (i : P) k es :
  config_ok cfg -> NoBus bus = false -> forallb wired es = true ->
  policy_inv (S:=S) i [] -> initialize cfg bus i = Done k ->
  safe (outside cfg pa) (run_events cfg bus es) (fun _ => kept cfg (S:=S)) k.
Proof. intros Ok Nb We Pi Ek. apply safe_events; [done..|]. by eapply new_kept. Qed.

(** C10 Take a timing cache with a bus (not NoBus) and any protocol that keeps the laws of
    the interface, and a run from [initialize] on of cycles and of pushes, in any order,
    each into a port that is available at that moment.  The events are [wired]: the
    front side's ports for snoops and requests and the back side's two ports are used,
    nothing is pushed into FrontSideIn_Prefetch, and no message is a prefetching read
    ([unused_paths_stop] shows that such events stop the run).  Then the run ends in a
    state in which all counters are right and no queue is fuller than its size, or
    stops at one of the assertions of [outside], which the controller's own
    bookkeeping cannot exclude; no loop runs out of fuel. *)
Theorem timing_cache_safe {S P} `{IndexOrder} `{Policy S P} `{PolicyInvariant S P} cfg bus pa `{!PolicyLaws pa} (i : P) k es :
  config_ok cfg -> NoBus bus = false -> forallb wired es = true ->
  policy_inv (S:=S) i [] -> initialize cfg bus i = Done k ->
  match run_events cfg bus es k with
  | Done (_, k') => accounted cfg (theController (S:=S) k')
  | Assert why => outside cfg pa why
  end.
Proof.
  intros Ok Nb We Pi Ek. pose proof (runs_kept cfg bus pa i k es Ok Nb We Pi Ek) as Hs. unfold safe in Hs.
  destruct (run_events cfg bus es k) as [[? k']|]; [|exact Hs]. by apply kept_accounted.
Qed.

Definition state_of (o : outcome (CacheComponent (S:=()) (P:=()))) (k0 : CacheComponent) : CacheComponent :=
  match o with Done k => k | Assert _ => k0 end.
Definition empty_component : CacheComponent (S:=()) (P:=()) :=
  state_of (@initialize () () (scripted forwarding) small_cache small_bus ())
    (mkComponent (mkCache ∅ 0 0 0 (MAF.mkFile [] 0 0 0 [] 0 0) [] [] [] 0 0 [] [] (fun _ => []) (fun _ => []) [] []
       (fun _ => MQ.newQueue 0) (fun _ => 0) 0 0 0 (SB.newSnoopBuffer 0) (EB.newEvictBuffer 0) ()) 0 kIdle noTransport
       None None [] [] 0 []).

Lemma outcome_found {A} (test : A -> bool) (o : outcome A) :
  match o with Done a => test a | Assert _ => false end = true -> exists a, o = Done a /\ test a = true.
Proof. destruct o as [a|]; [by exists a|done]. Qed.

#[local] Abbreviation run_forwarding :=
  (run_events (H := arrival_order) (H0 := scripted forwarding) small_cache small_bus miss_and_reply empty_component).
Definition answered (r : () * CacheComponent (S:=()) (P:=())) : bool :=
  component_isQuiesced r.2 &&
  bool_decide (sent r.2 = [(BackSideOut_port BSO_Request, mkTransport (Some 0) (Some 100));
                           (FrontSideOut_D_port 0, mkTransport (Some 1) (Some 100))]).

Lemma small_ok : config_ok small_cache.
Proof. by split. Qed.

Lemma timing_cache_safe_witness : exists k',
  run_forwarding = Done ((), k') /\
  accounted (H := arrival_order) (H0 := scripted forwarding) small_cache (theController k') /\
  sent k' = [(BackSideOut_port BSO_Request, mkTransport (Some 0) (Some 100));
             (FrontSideOut_D_port 0, mkTransport (Some 1) (Some 100))].
Proof.
  pose proof (@timing_cache_safe () () arrival_order (scripted forwarding) no_invariant small_cache small_bus unknown_message
    forwarding_laws () empty_component miss_and_reply small_ok eq_refl eq_refl I eq_refl) as Hs.
  destruct (outcome_found answered run_forwarding) as ([[] k'] & Er & An); [vm_compute; reflexivity|].
  rewrite Er in Hs. exists k'. apply andb_true_iff in An as [_ An]. apply bool_decide_eq_true in An.
  exact (conj Er (conj Hs An)).
Defined.

Lemma empty_pipes {S P} `{IndexOrder} `{Policy S P} K (l : list Pipeline) r :
  pipes_ok K l -> isPipelineSetEmpty l = true -> in_pipes r l = 0.
Proof.
  intros Ok Em. unfold isPipelineSetEmpty in Em. induction Ok as [|p l [F _] _ IH]; [done|]. cbn in *.
  apply andb_true_iff in Em as [E1 E2]. rewrite (IH E2). unfold Fifo.empty in E1. apply Z.eqb_eq in E1.
  rewrite (Fifo.f_size _ F) in E1. unfold items. by destruct (Fifo.theQueue p).
Qed.

Lemma quiesced_holds {S P} `{IndexOrder} `{Policy S P} `{PolicyInvariant S P} cfg (k : CacheComponent (S:=S) (P:=P)) r :
  kept cfg k -> isQuiesced (theController k) = true -> held r (theController k) = 0.
Proof.
  intros [R _ _] Q. unfold isQuiesced in Q. repeat (apply andb_true_iff in Q as [Q ?]). unfold held.
  rewrite (empty_pipes (started cfg) (theMAFPipeline _)), (empty_pipes (ending cfg) (theTagPipeline _)),
    (empty_pipes (ending cfg) (theDataPipeline _)); [done|apply R|done|apply R|done|apply R|done].
Qed.

(** C11 Reservations do not leak: in every state that such a run (a bus, [wired] events,
    pushes into available ports) reaches and that counts as quiesced, no slot of an output
    queue, of the miss address file or of the snoop buffer, and no eviction is reserved,
    and the back side's queues have nothing in use. *)
Theorem timing_cache_quiesced {S P} `{IndexOrder} `{Policy S P} `{PolicyInvariant S P} cfg bus pa `{!PolicyLaws pa} (i : P) k es k' :
  config_ok cfg -> NoBus bus = false -> forallb wired es = true ->
  policy_inv (S:=S) i [] -> initialize cfg bus i = Done k ->
  run_events cfg bus es k = Done ((), k') -> component_isQuiesced (S:=S) k' = true ->
  let w := theController k' in
  theFrontSideOutReserve w = 0 /\ MAF.theReserve (theMaf w) = 0 /\ SB.theReserve (theSnoopBuffer w) = 0 /\
  theScheduledEvicts w = 0 /\ forall c, MQ.theCurrentReserve (BackSideOut w c) = 0.
Proof.
  intros Ok Nb We Pi Ek Er Q. cbn zeta. pose proof (runs_kept cfg bus pa i k es Ok Nb We Pi Ek) as Hs. unfold safe in Hs. rewrite Er in Hs.
  apply andb_true_iff in Q as [_ Q]. pose proof (fun r => quiesced_holds cfg k' r Hs Q) as Hh.
  destruct (kept_accounted _ _ Hs) as [Ab [Af _] Am As Ae _].
  rewrite Hh in Af, As, Ae, Am. split_and!; try done; [by apply Am|]. intros c.
  specialize (Ab c). rewrite Hh in Ab. rewrite (MQ.q_reserve _ _ Ab), (MQ.q_usage _ _ Ab), Z.add_0_r.
  unfold isQuiesced in Q. repeat (apply andb_true_iff in Q as [Q ?]).
  assert (Em : MQ.empty (BackSideOut (theController k') c) = true) by (destruct c; done). apply MQ.empty_spec in Em. by rewrite Em.
Qed.

Lemma timing_cache_quiesced_witness : exists k',
  run_forwarding = Done ((), k') /\ MAF.theReserve (theMaf (theController k')) = 0.
Proof.
  destruct (outcome_found answered run_forwarding) as ([[] k'] & Er & An); [vm_compute; reflexivity|].
  exists k'. split; [exact Er|]. apply andb_true_iff in An as [An _].
  exact (proj1 (proj2 (@timing_cache_quiesced () () arrival_order (scripted forwarding) no_invariant small_cache small_bus unknown_message
    forwarding_laws () empty_component miss_and_reply k' small_ok eq_refl eq_refl I eq_refl Er An))).
Defined.

(** What the controller offers and does not get through: a prefetch that waits for
    its response keeps its slot of the evict buffer and stops the run; so does a
    prefetching read whose block has an entry in the miss address file, which is
    answered by a message to the back side that the action does not announce; and so
    does a reply of a snoop without a bus, whose loop takes from the snoop queue. *)
Theorem unused_paths_stop :
  run_all forwarding small_cache small_bus prefetch_one =
    Assert "Process has no more work but still holds reservations!" /\
  run_all forwarding small_cache small_bus prefetch_read = Assert "action.theBackMessage" /\
  run_all replying small_cache without_bus one_snoop = Assert "!theQueue.empty()" /\
  exists k, run_all replying small_cache small_bus one_snoop = Done k /\
    sent k = [(BackSideOut_port BSO_Reply, transport 0)].
Proof.
  split_and!; try (vm_compute; reflexivity).
  destruct (outcome_found (fun k => bool_decide (sent k = [(BackSideOut_port BSO_Reply, transport 0)]))
    (run_all replying small_cache small_bus one_snoop)) as (k & Ek & Sk); [vm_compute; reflexivity|].
  exists k. split; [exact Ek|]. apply bool_decide_eq_true in Sk. exact Sk.
Qed.

Definition one_waits (qs : list Queue) : bool :=
  match qs with [q] => match MQ.theQueue q with [_] => true | _ => false end | _ => false end.
Lemma one_waits_spec qs : one_waits qs = true -> exists q t, qs = [q] /\ MQ.theQueue q = [t].
Proof.
  destruct qs as [|q [|]]; [done| |done]. cbn. destruct (MQ.theQueue q) as [|t [|]] eqn:Eq; [done| |done]. by exists q, t.
Qed.

(** A controller counts as quiesced while a message waits in a queue of its bank:
    three snoops arrive at once, two processes can start, and a cycle later all that
    is looked at is empty. *)
Theorem quiesced_with_work_left :
  exists k q t, run_all forwarding l1d_cache small_bus three_snoops = Done k /\ component_isQuiesced k = true /\
    BankSideIn (theController k) FrontSnoop = [q] /\ MQ.theQueue q = [t].
Proof.
  destruct (outcome_found (fun k => component_isQuiesced k && one_waits (BankSideIn (theController k) FrontSnoop))
    (run_all forwarding l1d_cache small_bus three_snoops)) as (k & Ek & Tk); [vm_compute; reflexivity|].
  apply andb_true_iff in Tk as [Qk Wk]. destruct (one_waits_spec _ Wk) as (q & t & Eq & Et).
  exists k, q, t. exact (conj Ek (conj Qk (conj Eq Et))).
Qed.
