(* ===== verification/MesiRuns.v ===== *)
(** * Runs of a timing cache with InclusiveMESI

    What the laws of MesiLaws.v give for every run from an empty tag array: a block is
    in one place, and its state is one of the protocol's. *)

From stdpp Require Import base gmap list strings fin_maps.
From Stdlib Require Import ZArith Lia.
From S2P Require Import Prelude Messages TimingQueues CacheBuffers MissAddressFile TagArray TagArrayContract.
Import BlockState.
From S2P Require Import CacheController InclusiveMESI CacheBus CacheReservations CacheProcesses CacheSchedule CacheRuns.
From S2P Require Import MesiInvariant MesiLaws TimingCache.

Local Open Scope Z_scope.

(** ** Every run *)

Section runs.
Context `{IndexOrder} (mc : MesiConfig).
Context (others_fill : Transport -> option tFillLevel) (originatorLevel : Z -> option tFillLevel).
#[local] Instance mesi_runs : Policy State MesiState := mesi_policy mc others_fill originatorLevel.

Local Abbreviation array k := (theArray (impl (theController k))).
Local Abbreviation evictBuffer k := (theEvictBuffer (theController k)).
Implicit Types k : CacheComponent (S:=State) (P:=MesiState).

Lemma empty_blocks_ok size assoc block policy arr :
  Arr.newArray size assoc block policy = Done arr -> assoc * block <= size < 2 ^ 31 -> blocks_ok arr [].
Proof.
  intros Ea [Hs Hw]. destruct (Arr.newArray_ok _ _ _ _ _ Ea Hs Hw) as [Ok P]. split; [done| |constructor|constructor].
  intros x. rewrite P. by right; right; right.
Qed.

Lemma runs_sound cfg bus size assoc block policy arr k es :
  config_ok cfg -> NoBus bus = false -> forallb wired es = true -> Arr.newArray size assoc block policy = Done arr ->
  assoc * block <= size < 2 ^ 31 -> initialize cfg bus (newMesiState arr) = Done k ->
  safe (outside cfg mesi_assert) (run_events cfg bus es) (fun _ k' => sound (theController k')) k.
Proof.
  intros Ok Nb We Ea Hs Ek. eapply safe_mono; [eapply (runs_kept cfg bus mesi_assert); [done..| |exact Ek]|].
  - by eapply empty_blocks_ok.
  - intros _ k' [R _ _]. apply (r_sound _ _ _ _ _ R).
Qed.
Lemma runs_blocks cfg bus size assoc block policy arr k es :
  config_ok cfg -> NoBus bus = false -> forallb wired es = true -> Arr.newArray size assoc block policy = Done arr ->
  assoc * block <= size < 2 ^ 31 -> initialize cfg bus (newMesiState arr) = Done k ->
  safe (outside cfg mesi_assert) (run_events cfg bus es)
    (fun _ k' => blocks_ok (array k') (EB.theEvictions (evictBuffer k'))) k.
Proof.
  intros Ok Nb We Ea Hs Ek. eapply safe_mono; [by eapply runs_sound|]. intros _ k' (_ & _ & _ & B). exact B.
Qed.

(** C13 In every state that a run of a timing cache with InclusiveMESI and a bus reaches
    from an empty tag array, whatever the array's geometry, the messages and their order
    (nothing in the port for prefetches and no prefetching read, [wired]): a
    block that is valid in the tag array is not in the evict buffer, and no block is in
    the evict buffer twice; every lookup finds a set.  A run that does not get there
    stops at an assertion of the listed ones. *)
Theorem mesi_blocks_once cfg bus size assoc block policy arr k es :
  config_ok cfg -> NoBus bus = false -> forallb wired es = true -> Arr.newArray size assoc block policy = Done arr ->
  assoc * block <= size < 2 ^ 31 -> initialize cfg bus (newMesiState arr) = Done k ->
  match run_events cfg bus es k with
  | Assert why => outside cfg mesi_assert why
  | Done (_, k') =>
      NoDup (EB.theBlockAddress <$> EB.theEvictions (evictBuffer k')) /\
      forall x, exists lk, Arr.lookup (array k') x = Done lk /\
        (Arr.isHit lk = true -> EB.find (Arr.blockAddress (array k') x) (evictBuffer k') = None)
  end.
Proof.
  intros Ok Nb We Ea Hs Ek. pose proof (runs_blocks cfg bus _ _ _ _ arr k es Ok Nb We Ea Hs Ek) as R. unfold safe in R.
  destruct (run_events cfg bus es k) as [[? k']|]; [|exact R]. split; [apply R|]. intros x.
  destruct (Arr.lookup_ok (array k') x) as (lk & El & _ & Hh); [apply R|]. exists lk. split; [done|].
  intros Hit%Hh. unfold EB.find. destruct (find_by _ _ _) as [e|] eqn:F; [|done].
  apply find_by_Some in F as [He Hx]. by destruct (valid_not_evicted _ _ _ R Hit e He).
Qed.

(** C14 The states are typed: in every such state of a run a lookup gives modified,
    exclusive, shared or invalid, never owned, and an entry of the evict buffer has one
    of the first three and the type of an eviction. *)
Theorem mesi_states_typed cfg bus size assoc block policy arr k es :
  config_ok cfg -> NoBus bus = false -> forallb wired es = true -> Arr.newArray size assoc block policy = Done arr ->
  assoc * block <= size < 2 ^ 31 -> initialize cfg bus (newMesiState arr) = Done k ->
  match run_events cfg bus es k with
  | Assert why => outside cfg mesi_assert why
  | Done (_, k') =>
      (forall x, exists lk v, Arr.lookup (array k') x = Done lk /\ Arr.lk_state lk (array k') = Done v /\
         existsb (eqb v) [Modified; Exclusive; Shared; Invalid] = true /\ eqb v Owned = false) /\
      Forall (fun e => existsb (eqb (EB.theState e)) [Modified; Exclusive; Shared] = true /\
                isEvictType (EB.theType e) = true) (EB.theEvictions (evictBuffer k'))
  end.
Proof.
  intros Ok Nb We Ea Hs Ek. pose proof (runs_blocks cfg bus _ _ _ _ arr k es Ok Nb We Ea Hs Ek) as R. unfold safe in R.
  destruct (run_events cfg bus es k) as [[? k']|]; [|exact R].
  assert (T : forall v, mesi_state v ->
    existsb (eqb v) [Modified; Exclusive; Shared; Invalid] = true /\ eqb v Owned = false /\
    (Arr.st v <> Invalid -> existsb (eqb v) [Modified; Exclusive; Shared] = true)).
  { intros v Mv. cbn [existsb]. rewrite !Arr.eqb_st. by destruct Mv as [-> |[-> |[-> | ->]]]. }
  split.
  - intros x. destruct (Arr.lookup_ok (array k') x) as (lk & El & Hd & _); [apply R|].
    destruct (Arr.handle_state (array k') x lk (bo_array _ _ R) Hd) as (v & Ev & Sv). exists lk, v.
    assert (Mv : mesi_state v).
    { pose proof (bo_states _ _ R x) as Mx. unfold mesi_state in *. destruct (Arr.isHit lk); [|rewrite Sv; auto].
      by rewrite <-Sv, Arr.st_st in Mx. }
    split_and!; [done|done|by apply T|by apply T].
  - eapply Forall_impl; [apply R|]. intros e (Ms & Ns & _ & _ & Te). split; [by apply T|done].
Qed.
End runs.

(** ** A run *)

(** A first-level cache of two sets of two blocks. *)
Definition mesi_config : MesiConfig := mkMesi eL1 ePeerL1Cache false false false false true 64.
Lemma mesi_config_new : newMesi eL1 false false false false true 64 = Done mesi_config.
Proof. reflexivity. Qed.

Definition filled (t : Transport) : option tFillLevel := Some eL2.
Definition no_originator (k : Z) : option tFillLevel := None.

#[local] Abbreviation mesi_l1 := (mesi_runs (H := arrival_order) mesi_config filled no_originator).
#[local] Abbreviation mesi_started :=
  (@initialize State MesiState mesi_l1 small_cache small_bus (newMesiState small_array)).
#[local] Abbreviation mesi_ran es k :=
  (@run_events State MesiState arrival_order mesi_l1 small_cache small_bus es k).
Definition run_mesi (es : list CacheEvent) : outcome (CacheComponent (S:=State) (P:=MesiState)) :=
  k ← mesi_started; '(_, k) ← mesi_ran es k; Done k.

Lemma run_mesi_found (test : CacheComponent -> bool) es :
  match run_mesi es with Done k => test k | Assert _ => false end = true ->
  exists k k', mesi_started = Done k /\ mesi_ran es k = Done ((), k') /\ test k' = true.
Proof.
  unfold run_mesi. destruct mesi_started as [k|] eqn:Ek; [|done]. cbn [mbind outcome_bind].
  destruct (mesi_ran es k) as [[[] k']|] eqn:Er; [|done]. cbn [mbind outcome_bind]. intros T. by exists k, k'.
Qed.

(** A core asks for a block, and the back side answers what the cache asked for. *)
Definition ask (n : Z) (x : MemoryMessageType) (a : Z) : list CacheEvent :=
  [NewMessage (request x a); PushFront FrontRequest 0 (transport n)] ++ cycles 6.
Definition answer_miss (n : Z) (x : MemoryMessageType) (a tr : Z) : list CacheEvent :=
  [NewMessage (fresh_message (mkMessage x a 0 64 0 true eUnknown false)); PushReply (mkTransport (Some n) (Some tr))] ++ cycles 8.
(** A block is written; two others of its set are read. *)
Definition three_blocks : list CacheEvent :=
  ask 0 LoadReq 4096 ++ answer_miss 2 MissReplyWritable 4096 100 ++ ask 5 StoreReq 4096 ++
  ask 7 LoadReq 4224 ++ answer_miss 9 MissReply 4224 107 ++ ask 12 LoadReq 4352 ++ answer_miss 14 MissReply 4352 112.
Definition has_evicted (k : CacheComponent (S:=State) (P:=MesiState)) : bool :=
  let a := theArray (impl (theController k)) in
  bool_decide ((fun e => (EB.theBlockAddress e, EB.theState e)) <$> EB.theEvictions (theEvictBuffer (theController k)) =
               [(4096, Modified)]) &&
  (Arr.peek a 4096 =? Invalid) && (Arr.peek a 4224 =? Shared) && (Arr.peek a 4352 =? Shared).

Lemma small_size : 2 * 64 <= 256 < 2 ^ 31.
Proof. lia. Qed.

Lemma mesi_blocks_once_witness : exists k k',
  mesi_ran three_blocks k = Done ((), k') /\ has_evicted k' = true /\
  NoDup (EB.theBlockAddress <$> EB.theEvictions (theEvictBuffer (theController k'))).
Proof.
  destruct (run_mesi_found has_evicted three_blocks) as (k & k' & Ek & Er & T); [vm_compute; reflexivity|].
  pose proof (@mesi_blocks_once arrival_order mesi_config filled no_originator small_cache small_bus 256 2 64
    Arr.REPLACEMENT_LRU small_array k three_blocks small_ok eq_refl eq_refl eq_refl small_size Ek) as Hs.
  rewrite Er in Hs. exists k, k'. exact (conj Er (conj T (proj1 Hs))).
Defined.

Lemma mesi_states_typed_witness : exists k k',
  mesi_ran three_blocks k = Done ((), k') /\
  Forall (fun e => existsb (eqb (EB.theState e)) [Modified; Exclusive; Shared] = true /\ isEvictType (EB.theType e) = true)
    (EB.theEvictions (theEvictBuffer (theController k'))).
Proof.
  destruct (run_mesi_found has_evicted three_blocks) as (k & k' & Ek & Er & T); [vm_compute; reflexivity|].
  pose proof (@mesi_states_typed arrival_order mesi_config filled no_originator small_cache small_bus 256 2 64
    Arr.REPLACEMENT_LRU small_array k three_blocks small_ok eq_refl eq_refl eq_refl small_size Ek) as Hs.
  rewrite Er in Hs. exists k, k'. exact (conj Er (proj2 Hs)).
Defined.
