(* ===== verification/MesiRequests.v ===== *)
(** * What InclusiveMESI grants at once

    The table [granted] says which requests of the front side a block in a state
    answers, with which reply and in which state it stays, which it answers and keeps
    in the miss file, and which have to wait; [doRequest] implements it. *)

From stdpp Require Import base gmap list strings fin_maps.
From Stdlib Require Import ZArith Lia.
From S2P Require Import Prelude Messages TimingQueues CacheBuffers MissAddressFile TagArray.
Import BlockState.
From S2P Require Import CacheController InclusiveMESI CacheBus CacheReservations CacheProcesses CacheSchedule CacheRuns.
From S2P Require Import MesiInvariant MesiLaws TimingCache TagArrayContract MesiRuns.

Local Open Scope Z_scope.

(** ** The table *)

(** What a request for a block in a state comes to: the reply is sent and the block is
    left in a state; or the reply is sent, the block stays as it is, and the request
    waits in the miss file for the right to write; or there is no reply yet. *)
Inductive Grant : Type :=
  | Answers (reply : MemoryMessageType) (s : State)
  | AnswersAndAsks (reply : MemoryMessageType)
  | NoAnswer.

Definition granted (x : MemoryMessageType) (s : State) : Grant :=
  let owned := (s =? Modified) || (s =? Exclusive) in
  if s =? Invalid then NoAnswer
  else match x with
       | LoadReq => Answers LoadReply s
       | FetchReq => if s =? Exclusive then NoAnswer else Answers FetchReply s
       | ReadReq => if s =? Modified then Answers MissReplyDirty Exclusive
                    else if s =? Exclusive then Answers MissReplyWritable Exclusive else Answers MissReply Shared
       | WriteReq => if s =? Modified then Answers MissReplyDirty Exclusive
                     else if s =? Exclusive then Answers MissReplyWritable Exclusive else NoAnswer
       | StoreReq => if owned then Answers StoreReply Modified else NoAnswer
       | StorePrefetchReq => if owned then Answers StorePrefetchReply Modified else NoAnswer
       | RMWReq => if owned then Answers RMWReply Modified else NoAnswer
       | CmpxReq => if owned then Answers CmpxReply Modified else NoAnswer
       | NonAllocatingStoreReq => if owned then Answers NonAllocatingStoreReply Modified else NoAnswer
       | AtomicPreloadReq => if owned then Answers AtomicPreloadReply s else AnswersAndAsks AtomicPreloadReply
       | UpgradeReq => if s =? Exclusive then Answers UpgradeReply Exclusive else NoAnswer
       | PrefetchReadNoAllocReq => Answers PrefetchReadRedundant s
       | _ => NoAnswer
       end.

(** The state in which a cache has a block, in its array or among its evictions. *)
Definition holds_block (a : Arr.StdArray) (b : EB.EvictBuffer State) (x : Z) : State :=
  if Arr.peek a x =? Invalid then
    match EB.find (Arr.blockAddress a x) b with Some e => Arr.st (EB.theState e) | None => Invalid end
  else Arr.peek a x.

Section exact.
Context `{IndexOrder} (mc : MesiConfig).
Context (others_fill : Transport -> option tFillLevel) (originatorLevel : Z -> option tFillLevel).

Local Abbreviation W := (Cache State MesiState).
Context (w0 : W) (t : Transport) (x : Z) (lk : Arr.LookupResult).
Implicit Types (w : W) (v : State) (y : MemoryMessageType) (m : MemoryMessage).
Local Abbreviation array w := (theArray (impl w)).
Local Abbreviation work := (work mc others_fill originatorLevel w0 t x lk true).
Local Abbreviation E := mesi_assert.

(** The lookup [lk] is of a block in the state [v], and the message of [t] has the type
    [y]. *)
Record exact v y w : Prop := {
  ex_work : work w;
  ex_state : Arr.peek (array w) x = v;
  ex_hit : Arr.isHit lk = false -> v = Invalid;
  ex_type : exists b, body_of t w = Some b /\ Messages.theType b = y;
}.

Definition knows v y {A} (m : M W A) (R : A -> State -> MemoryMessageType -> Prop) : Prop :=
  forall w, exact v y w -> safe E m (fun a w' => exists v' y', R a v' y' /\ exact v' y' w') w.
(** A step that changes neither. *)
Definition same v y {A} (m : M W A) : Prop := knows v y m (fun _ v' y' => v' = v /\ y' = y).

Lemma knows_ret {A} v y (a : A) (R : A -> State -> MemoryMessageType -> Prop) : R a v y -> knows v y (mret a) R.
Proof using. intros Ra w K. apply safe_ret. by exists v, y. Qed.
Lemma knows_mono {A} v y (m : M W A) (R R' : A -> State -> MemoryMessageType -> Prop) :
  knows v y m R -> (forall a v' y', R a v' y' -> R' a v' y') -> knows v y m R'.
Proof using. intros Hm HR w K. eapply safe_mono; [by apply Hm|]. intros a w' (v' & y' & Ra & K'). exists v', y'. auto. Qed.
Lemma knows_bind {A B} v y (m : M W A) (f : A -> M W B) R R' :
  knows v y m R -> (forall a v' y', R a v' y' -> knows v' y' (f a) R') -> knows v y (m ≫= f) R'.
Proof using.
  intros Hm Hf w K. apply safe_bind. eapply safe_mono; [by apply Hm|]. intros a w' (v' & y' & Ra & K'). by apply (Hf a v' y').
Qed.
Lemma knows_same {A B} v y (m : M W A) (f : A -> M W B) R :
  same v y m -> (forall a, knows v y (f a) R) -> knows v y (m ≫= f) R.
Proof using. intros Hm Hf. eapply knows_bind; [exact Hm|]. intros a v' y' [-> ->]. apply Hf. Qed.
Lemma knows_fail {A} v y why (R : A -> State -> MemoryMessageType -> Prop) : E why -> knows v y (dbg_fail why) R.
Proof using. intros Hw w _. by apply safe_fail. Qed.
Lemma knows_ret_bind {A B} v y (a : A) (f : A -> M W B) R : knows v y (f a) R -> knows v y (mret a ≫= f) R.
Proof using. intros Hf w K. by apply Hf. Qed.
Lemma knows_assoc {A B C} v y (m : M W A) (g : A -> M W B) (f : B -> M W C) R :
  knows v y (a ← m; b ← g a; f b) R -> knows v y ((m ≫= g) ≫= f) R.
Proof using.
  intros Hm w K. specialize (Hm w K). unfold safe, mbind, M_bind in *. by destruct (m w) as [[a w1]|].
Qed.
Lemma knows_lift {A B} v y (o : outcome A) (f : A -> M W B) R :
  (forall why, o = Assert why -> E why) -> (forall a, o = Done a -> knows v y (f a) R) -> knows v y (lift o ≫= f) R.
Proof using. intros Hw Hf w K. apply safe_bind, safe_lift_any. destruct o as [a|why]; [by apply Hf|by apply Hw]. Qed.

(** *** Steps *)

Lemma safe_state {B} v y (f : State -> M W B) (Q : B -> W -> Prop) w :
  exact v y w -> (forall s, Arr.st s = v -> safe E (f s) Q w) -> safe E (block_state lk ≫= f) Q w.
Proof using.
  intros K Hf. apply safe_bind. unfold block_state, array_get. apply safe_bind, safe_gets, safe_lift_any.
  destruct (Arr.handle_state _ _ _ (wk_array _ _ _ _ _ _ _ _ _ (ex_work _ _ _ K)) (wk_handle _ _ _ _ _ _ _ _ _ (ex_work _ _ _ K)))
    as (s & -> & Es).
  apply Hf. rewrite Es, (ex_state _ _ _ K). destruct (Arr.isHit lk) eqn:Hh; [done|].
  by rewrite (ex_hit _ _ _ K Hh).
Qed.
Lemma knows_state {B} v y (f : State -> M W B) R :
  (forall s, Arr.st s = v -> knows v y (f s) R) -> knows v y (block_state lk ≫= f) R.
Proof using. intros Hf w K. eapply safe_state; [exact K|]. intros s Es. by apply Hf. Qed.

(** A step that keeps the invariant, the block and the message. *)
Lemma same_steps {A} v y (m : M W A) :
  stays mc others_fill originatorLevel w0 t x true lk m ->
  (forall w a w', work w -> m w = Done (a, w') ->
     Arr.peek (array w') x = Arr.peek (array w) x /\ body_of t w' = body_of t w) -> same v y m.
Proof using.
  intros Hm Hs w K. specialize (Hm w (ex_work _ _ _ K)). specialize (Hs w). unfold safe in *.
  destruct (m w) as [[a w']|why]; [|done]. destruct Hm as (? & -> & K'). exists v, y. split; [done|].
  destruct (Hs a w' (ex_work _ _ _ K) eq_refl) as [Ea Eb]. destruct K. split; [done|by rewrite Ea|done|by rewrite Eb].
Qed.

Lemma knows_change v y (g : State -> State) :
  stays mc others_fill originatorLevel w0 t x true lk (array_do (Arr.change_block lk g)) ->
  (forall s, Arr.st s = Invalid -> Arr.st (g s) = Invalid) \/ v <> Invalid ->
  knows v y (array_do (Arr.change_block lk g)) (fun _ v' y' => (exists s, Arr.st s = v /\ v' = Arr.st (g s)) /\ y' = y).
Proof using.
  intros Hs Hv w K. specialize (Hs w (ex_work _ _ _ K)). unfold safe, array_do, gets, lift, modify, mbind, M_bind in *. cbn in *.
  pose proof (Arr.change_block_ok _ _ _ g (wk_array _ _ _ _ _ _ _ _ _ (ex_work _ _ _ K))
    (wk_handle _ _ _ _ _ _ _ _ _ (ex_work _ _ _ K))) as C.
  destruct (Arr.change_block lk g (array w)) as [a|why]; [|done]. destruct Hs as (? & -> & K').
  destruct C as (_ & _ & _ & s & Es & P). exists (Arr.st (g s)), y. rewrite (ex_state _ _ _ K) in Es. split.
  - split; [|done]. by exists s.
  - split; [exact K'|..].
    + change (array (set_impl _ w)) with a. rewrite P. by rewrite decide_True.
    + intros Hh. pose proof (ex_hit _ _ _ K Hh) as Ev. destruct Hv as [Hv|]; [|done]. apply Hv. by rewrite Es.
    + exact (ex_type _ _ _ K).
Qed.

Lemma knows_setState v y s :
  mesi_state s -> v <> Invalid -> knows v y (setState lk s) (fun _ v' y' => v' = Arr.st s /\ y' = y).
Proof using.
  intros Ms Nv. eapply knows_mono; [apply knows_change; [by apply stays_setState|by right]|].
  intros _ v' y' [(s0 & _ & ->) ->]. by rewrite Arr.st_assign.
Qed.
Lemma same_setProtected v y b : same v y (setProtected lk b).
Proof using.
  eapply knows_mono; [apply knows_change; [apply stays_setProtected|left; intros s; by rewrite Arr.st_setProtected]|].
  intros _ v' y' [(s0 & <- & ->) ->]. by rewrite Arr.st_setProtected.
Qed.
Lemma same_setPrefetched v y b : same v y (setPrefetched lk b).
Proof using.
  eapply knows_mono; [apply knows_change; [apply stays_setPrefetched|left; intros s; by rewrite Arr.st_setPrefetched]|].
  intros _ v' y' [(s0 & <- & ->) ->]. by rewrite Arr.st_setPrefetched.
Qed.
Lemma same_recordAccess v y : same v y (recordAccess lk).
Proof using.
  apply same_steps; [apply stays_recordAccess|]. intros w [] w' K Eq. unfold recordAccess, array_do in Eq. cbn in Eq.
  unfold gets, lift, modify, mbind, M_bind in Eq.
  pose proof (Arr.order_ok _ x lk "std_lookup->valid()" _ Arr.recordAccess_order (wk_array _ _ _ _ _ _ _ _ _ K)
    (wk_handle _ _ _ _ _ _ _ _ _ K)) as C. unfold Arr.recordAccess in Eq.
  destruct (Arr.with_block _ _ _ _) as [a|]; [|done]. injection Eq as <-. destruct C as (_ & _ & _ & P). split; [apply P|done].
Qed.

(** The protocol's own state and messages that are not the one of [t]. *)
Lemma same_impl v y (g : MesiState -> MesiState) :
  (forall i, theArray (g i) = theArray i) -> same v y (modify (fun w : W => set_impl (g (impl w)) w)).
Proof using.
  intros Hg. apply same_steps; [by apply stays_same_array|]. intros w [] w' K [= <-]. split; [|done]. cbn. by rewrite Hg.
Qed.
Lemma same_startRequest v y a : same v y (startRequest a).
Proof using.
  by apply (same_impl v y (fun i => set_requests (CacheBuffers.startRequest (Arr.getSet (theArray i) a) (theRequestTracker i)) i)).
Qed.
Lemma same_setFillLevel v y k l : same v y (setFillLevel k l).
Proof using.
  destruct k as [k|]; [|by apply knows_fail].
  by apply (same_impl v y (fun i => set_fill_levels (<[k := l]> (fill_levels i)) i)).
Qed.
Lemma same_use_tracker v y k : same v y (use_tracker k).
Proof using. destruct k; [by apply knows_ret|by apply knows_fail]. Qed.
Lemma same_gets {A} v y (f : W -> A) : same v y (gets f).
Proof using. intros w K. apply safe_gets. by exists v, y. Qed.
Lemma same_default_fill v y l : same v y (default_fill others_fill t l).
Proof using.
  apply knows_same.
  - unfold fillLevel. destruct (tTracker t); [|by apply knows_fail]. apply knows_same; [apply same_gets|]. intros. by apply knows_ret.
  - intros [l'|]; [by apply knows_ret|apply same_setFillLevel].
Qed.
Lemma same_deref v y t' : same v y (deref_message t').
Proof using.
  apply same_steps; [apply stays_deref|]. intros w m w' K Eq. unfold deref_message in Eq.
  destruct (message_of t' w); [|done]. by injection Eq as <- <-.
Qed.
Lemma same_new_request v y z a pc size core : isPrefetchRead z = false -> same v y (new_request z a pc size core).
Proof using.
  intros Np. apply same_steps; [by apply stays_new_request|]. intros w i w' K Eq.
  unfold new_request, new_message, write_message, gets, modify, mbind, M_bind, mret, M_ret in Eq. cbn in Eq.
  injection Eq as <- <-. split; [done|].
  change (body_of t (set_store (<[next_message w := fresh_message (mkMessage z a pc size core true eUnknown false)]> (store w)) w) = body_of t w).
  rewrite body_of_written, decide_False; [done|]. intros Et. pose proof (wk_old _ _ _ _ _ _ _ _ _ K _ Et). lia.
Qed.

Lemma knows_set_type v y z : isPrefetchRead z = false -> knows v y (set_msg_type t z) (fun _ v' y' => v' = v /\ y' = z).
Proof using.
  intros Np w K. pose proof (stays_set_type mc others_fill originatorLevel w0 t x true lk t z Np w (ex_work _ _ _ K)) as Hs.
  unfold set_msg_type, update_message, write_message, modify, safe, mbind, M_bind in *. cbn in *.
  unfold deref_message in *. destruct (message_of t w) as [m|] eqn:Em; [|done].
  destruct (tMessage t) as [id|] eqn:Et; [|done]. destruct Hs as (? & -> & K'). exists v, z. split; [done|].
  destruct K. split; [done..|]. exists (Messages.set_type z (body m)). split; [|done].
  by rewrite body_of_written, decide_True.
Qed.
End exact.

(** ** Walking with the state in hand *)

Create HintDb exact.
#[export] Hint Resolve same_setProtected same_setPrefetched same_recordAccess same_startRequest same_setFillLevel
  same_use_tracker same_gets same_default_fill same_deref same_new_request : exact.
#[export] Hint Extern 1 (isPrefetchRead _ = false) => reflexivity : exact.

(** A test of a state that is known. *)
Ltac known b v :=
  replace b with v by
    (repeat match goal with E : Arr.st ?s = _ |- context [eqb ?s _] => rewrite (Arr.eqb_st s), E end; reflexivity);
  cbn iota.

Ltac same_by := solve [eauto with exact nocore | unfold same; repeat know_step; done]
with know_step :=
  lazymatch goal with
  | |- knows _ _ _ _ _ _ _ _ _ (mret _) _ => apply knows_ret
  | |- knows _ _ _ _ _ _ _ _ _ (dbg_fail _) _ => apply knows_fail; reflexivity
  | |- knows _ _ _ _ _ _ _ _ _ (mbind _ (block_state _)) _ => apply knows_state; intros ?s ?Es
  | |- knows _ _ _ _ _ _ _ _ _ (mbind _ (setState _ _)) _ =>
      eapply knows_bind; [apply knows_setState; [auto with mesi|discriminate]|intros [] ? ? [-> ->]]
  | |- knows _ _ _ _ _ _ _ _ _ (mbind _ (set_msg_type _ _)) _ =>
      eapply knows_bind; [apply knows_set_type; first [reflexivity|assumption]|intros [] ? ? [-> ->]]
  | |- knows _ _ _ _ _ _ _ _ _ (set_msg_type _ _) _ =>
      eapply knows_mono; [apply knows_set_type; first [reflexivity|assumption]|intros [] ? ? [-> ->]]
  | |- knows _ _ _ _ _ _ _ _ _ (mbind _ (mret _)) _ => apply knows_ret_bind
  | |- knows _ _ _ _ _ _ _ _ _ (mbind _ (mbind _ _)) _ => apply knows_assoc
  | |- knows _ _ _ _ _ _ _ _ _ (mbind _ (if ?b then _ else _)) _ =>
      first [known b true|known b false|destruct b eqn:?]
  | |- knows _ _ _ _ _ _ _ _ _ (mbind _ (match ?e with _ => _ end)) _ => destruct e eqn:?
  | |- knows _ _ _ _ _ _ _ _ _ (mbind _ _) _ => apply knows_same; [same_by|intros ?]
  | |- knows _ _ _ _ _ _ _ _ _ (let _ := _ in _) _ => cbn zeta
  | |- knows ?mc ?f ?l ?w0 ?t ?x ?lk ?v ?y ?m _ =>
      first [(change (same mc f l w0 t x lk v y m); solve [eauto with exact nocore])
            |lazymatch m with
             | if ?b then _ else _ => first [known b true|known b false|destruct b eqn:?]
             | match ?e with _ => _ end => destruct e eqn:?
             end]
  end.

Section table.
Context `{IndexOrder} (mc : MesiConfig).
Context (others_fill : Transport -> option tFillLevel) (originatorLevel : Z -> option tFillLevel).

Local Abbreviation W := (Cache State MesiState).
Context (w0 : W) (t : Transport) (x : Z) (lk : Arr.LookupResult).
Implicit Types (w : W) (v : State) (y : MemoryMessageType) (m : MemoryMessage).
Local Abbreviation knows := (knows mc others_fill originatorLevel w0 t x lk).
Local Abbreviation same := (same mc others_fill originatorLevel w0 t x lk).
Local Abbreviation start := (newAction kReplyAndRemoveMAF (tTracker t) 1).

(** The actions of a request that gets no reply: it waits in the miss file or goes to
    the back side, with nothing for the front side; or a probe goes to the front side. *)
Definition unanswered (a : Action) : Prop :=
  match theAction a with
  | kInsertMAF_WaitResponse | kSend => theFrontMessage a = false
  | kInsertMAF_WaitProbe => theFrontMessage a = true
  | _ => False
  end.

(** A request is answered at once exactly when the table says so. *)
Definition as_granted y v (a : Action) v' y' : Prop :=
  match granted y v with
  | Answers z u => theAction a = kReplyAndRemoveMAF /\ v' = u /\ y' = z
  | AnswersAndAsks _ =>
      theAction a = kReplyAndInsertMAF_WaitResponse /\ theFrontMessage a = true /\ theBackMessage a = true /\
      v' = v /\ y' = y
  | NoAnswer => unanswered a /\ v' = v /\ y' = y
  end.

Ltac walk_states Ms := destruct Ms as [-> |[-> |[-> | ->]]]; repeat know_step; try done.

Definition one_of_four v : Prop := v = Modified \/ v = Exclusive \/ v = Shared \/ v = Invalid.
Local Abbreviation table y v := (fun pr => as_granted y v (pr_action pr)).

Lemma table_NonAllocatingStore v m blk hit :
  one_of_four v -> knows v NonAllocatingStoreReq (request_NonAllocatingStore mc t m blk lk start hit) (table NonAllocatingStoreReq v).
Proof using. intros Ms. unfold request_NonAllocatingStore, ask_back. walk_states Ms. Qed.

Lemma table_Fetch v m blk hit :
  one_of_four v -> knows v FetchReq (request_Fetch mc t m blk lk start hit) (table FetchReq v).
Proof using. intros Ms. unfold request_Fetch, ask_back. walk_states Ms. Qed.

(** The end that loads and reads have. *)
Lemma knows_prefetcher v y (m : M W Progress) (R : Progress -> State -> MemoryMessageType -> Prop) :
  knows v y m R -> knows v y (pr ← m; prefetcher_hit originatorLevel t lk (pr_hit pr);; mret pr) R.
Proof using.
  intros Hm. eapply knows_bind; [exact Hm|]. intros pr v' y' Rp. apply knows_same; [|intros []; by apply knows_ret].
  unfold prefetcher_hit. same_by.
Qed.

Lemma table_Load v m blk hit :
  one_of_four v -> knows v LoadReq (request_Load mc originatorLevel t m blk lk start hit) (table LoadReq v).
Proof using.
  intros Ms. unfold request_Load. apply knows_state. intros s Es. apply knows_prefetcher. unfold ask_back.
  walk_states Ms.
Qed.

Lemma table_Read v hit :
  one_of_four v -> knows v ReadReq (request_Read originatorLevel t lk start hit) (table ReadReq v).
Proof using.
  intros Ms. unfold request_Read. apply knows_state. intros s Es. apply knows_prefetcher. walk_states Ms.
Qed.

Lemma same_protect v y : same v y (protect_for_upgrade lk).
Proof using. unfold protect_for_upgrade. same_by. Qed.
Hint Resolve same_protect : exact.

Lemma table_Write v blk hit :
  one_of_four v -> knows v WriteReq (request_Write t blk lk start hit) (table WriteReq v).
Proof using. intros Ms. unfold request_Write, ask_back. walk_states Ms. Qed.

Lemma table_AtomicPreload v m blk hit :
  one_of_four v -> knows v AtomicPreloadReq (request_AtomicPreload mc t m blk lk start hit) (table AtomicPreloadReq v).
Proof using.
  intros Ms. unfold request_AtomicPreload. apply knows_state. intros s Es. eapply knows_bind.
  - instantiate (1 := table AtomicPreloadReq v). unfold ask_back. walk_states Ms.
  - intros pr v' y' T. repeat know_step; done.
Qed.

Lemma table_Store v y m blk hit :
  one_of_four v -> Messages.theType m = y -> knows v y (request_Store mc t m blk lk start hit) (table y v).
Proof using.
  intros Ms Ey. unfold request_Store. rewrite Ey.
  apply knows_lift; [by intros why; destruct y; intros [= <-]|]. intros z Ez.
  assert (Np : isPrefetchRead z = false) by by destruct y; simplify_eq/=.
  unfold ask_back. destruct y; cbn in Ez; simplify_eq; walk_states Ms.
Qed.

Lemma table_Upgrade v hit :
  one_of_four v -> knows v UpgradeReq (request_Upgrade t lk start hit) (table UpgradeReq v).
Proof using. intros Ms. unfold request_Upgrade. walk_states Ms. Qed.

Lemma table_PrefetchReadNoAlloc v hit :
  one_of_four v -> knows v PrefetchReadNoAllocReq (request_PrefetchReadNoAlloc t lk start hit) (table PrefetchReadNoAllocReq v).
Proof using. intros Ms. unfold request_PrefetchReadNoAlloc. walk_states Ms. Qed.

Lemma table_switch v m blk hit :
  one_of_four v ->
  knows v (Messages.theType m) (request_switch mc originatorLevel t m blk lk start hit) (table (Messages.theType m) v).
Proof using.
  intros Ms. unfold request_switch. destruct (Messages.theType m) eqn:Et; try (by apply knows_fail);
    first [by apply table_NonAllocatingStore|by apply table_Fetch|by apply table_Load|by apply table_Read|by apply table_Write
          |by apply table_AtomicPreload|by apply table_Store|by apply table_Upgrade|by apply table_PrefetchReadNoAlloc].
Qed.

(** What [as_granted] reads of an action. *)
Lemma as_granted_same a a' y v v' y' :
  theAction a' = theAction a ->
  (theAction a' <> kReplyAndRemoveMAF -> theFrontMessage a' = theFrontMessage a) ->
  (theBackMessage a = true -> theBackMessage a' = true) ->
  as_granted y v a v' y' -> as_granted y v a' v' y'.
Proof using.
  intros Ea Ef Eb G. unfold as_granted, unanswered in *. rewrite Ea in *. destruct (granted y v) as [z u|z|].
  - done.
  - destruct G as (Gk & Gf & Gb & ? & ?). rewrite Gk in Ef. rewrite Ef by done. auto.
  - destruct G as (Gu & ? & ?). split; [|done]. destruct (theAction a); try done; by rewrite Ef.
Qed.

(** The answer goes to where the request came from. *)
Definition as_answered y v (a : Action) v' y' : Prop :=
  as_granted y v a v' y' /\
  (theAction a = kReplyAndRemoveMAF -> theFrontTransport a = t /\ theFrontMessage a = true).

Lemma table_finish v y v0 y0 pr :
  as_granted y0 v0 (pr_action pr) v y ->
  knows v y (finish_request mc others_fill t lk pr) (as_answered y0 v0).
Proof using.
  intros G. unfold finish_request. know_step. do 4 (apply knows_same; [same_by|intros ?]). eapply knows_bind with (R := fun a v' y' =>
    theAction a = theAction (pr_action pr) /\
    (theAction a <> kReplyAndRemoveMAF -> theFrontMessage a = theFrontMessage (pr_action pr)) /\
    (theBackMessage (pr_action pr) = true -> theBackMessage a = true) /\
    (theAction a = kReplyAndRemoveMAF -> theFrontTransport a = t /\ theFrontMessage a = true) /\ v' = v /\ y' = y).
  - destruct (theAction (pr_action pr)) eqn:Ea, (theBackMessage (pr_action pr)) eqn:Eb; repeat know_step;
      (split_and!; cbn; intuition congruence).
  - intros act v' y' (Ea & Ef & Eb & Et & -> & ->). repeat know_step; (split; [by apply (as_granted_same (pr_action pr))|done]).
Qed.
End table.

(** *** Messages of the action's own

    A probe, an upgrade or a reply that is not the request itself is a new message. *)

Section own_messages.
Context `{IndexOrder} (mc : MesiConfig).
Context (others_fill : Transport -> option tFillLevel) (originatorLevel : Z -> option tFillLevel).
Local Abbreviation W := (Cache State MesiState).
Context (t : Transport) (lk : Arr.LookupResult).
Implicit Types (w : W) (y : MemoryMessageType).
Local Abbreviation start := (newAction kReplyAndRemoveMAF (tTracker t) 1).

(** Partial correctness: what holds of a result, if there is one. *)
Definition ends {A} (P : W -> Prop) (m : M W A) (R : A -> W -> Prop) : Prop :=
  forall w a w', P w -> m w = Done (a, w') -> R a w'.
Definition always : W -> Prop := fun _ => True.

Lemma ends_ret {A} (P : W -> Prop) (a : A) (R : A -> W -> Prop) : (forall w, P w -> R a w) -> ends P (mret a) R.
Proof using. intros K w b w' Pw [= <- <-]. auto. Qed.
Lemma ends_then {A B} P Q (m : M W A) (f : A -> M W B) R :
  ends P m Q -> (forall a, ends (Q a) (f a) R) -> ends P (m ≫= f) R.
Proof using.
  intros Hm Hf w b w' Pw E. unfold mbind, M_bind in E. destruct (m w) as [[a w1]|] eqn:Em; [|done].
  eapply Hf; [by eapply Hm|exact E].
Qed.
Lemma ends_any {A B} P (m : M W A) (f : A -> M W B) R : (forall a, ends always (f a) R) -> ends P (m ≫= f) R.
Proof using. intros Hf. by apply (ends_then P (fun _ => always)). Qed.
Lemma ends_fail {A} P why (R : A -> W -> Prop) : ends P (dbg_fail why) R.
Proof using. done. Qed.

(** A step that leaves the messages alone. *)
Definition quiet {A} (m : M W A) : Prop :=
  forall w a w', m w = Done (a, w') -> store w' = store w /\ next_message w' = next_message w.
Lemma quiet_done {A} (a : A) : quiet (mret a).
Proof using. by intros w b w' [= _ <-]. Qed.
Lemma quiet_fail {A} why : quiet (A:=A) (dbg_fail why).
Proof using. done. Qed.
Lemma quiet_then {A B} (m : M W A) (f : A -> M W B) : quiet m -> (forall a, quiet (f a)) -> quiet (m ≫= f).
Proof using.
  intros Hm Hf w b w' E. unfold mbind, M_bind in E. destruct (m w) as [[a w1]|] eqn:Em; [|done].
  destruct (Hm _ _ _ Em) as [<- <-]. by eapply Hf.
Qed.
Lemma quiet_gets {A} (f : W -> A) : quiet (gets f).
Proof using. by intros w b w' [= _ <-]. Qed.
Lemma quiet_lift {A} (o : outcome A) : quiet (lift o).
Proof using. intros w b w'. unfold lift. destruct o; [|done]. by intros [= _ <-]. Qed.
Lemma quiet_deref t' : quiet (deref_message t').
Proof using. intros w b w'. unfold deref_message. destruct (message_of t' w); [|done]. by intros [= _ <-]. Qed.
Lemma quiet_impl (g : MesiState -> MesiState) : quiet (modify (fun w : W => set_impl (g (impl w)) w)).
Proof using. by intros w b w' [= _ <-]. Qed.
Lemma quiet_array_get {A} (f : Arr.StdArray -> outcome A) : quiet (array_get f).
Proof using. apply quiet_then; [apply quiet_gets|intros; apply quiet_lift]. Qed.
Lemma quiet_array_do (f : Arr.StdArray -> outcome Arr.StdArray) : quiet (array_do f).
Proof using.
  intros w b w'. unfold array_do, gets, lift, modify, mbind, M_bind. cbn.
  destruct (f _); [|done]. by intros [= _ <-].
Qed.
Lemma quiet_fillLevel k l : quiet (setFillLevel k l).
Proof using. destruct k; [|done]. by intros w b w' [= _ <-]. Qed.
Lemma quiet_use k : quiet (use_tracker k).
Proof using. destruct k; [apply quiet_done|done]. Qed.
Lemma quiet_start x : quiet (startRequest x).
Proof using. by intros w b w' [= _ <-]. Qed.
Lemma quiet_default l : quiet (default_fill others_fill t l).
Proof using.
  apply quiet_then.
  - unfold fillLevel. destruct (tTracker t); [|done]. apply quiet_then; [apply quiet_gets|intros; apply quiet_done].
  - intros [?|]; [apply quiet_done|apply quiet_fillLevel].
Qed.

(** The message [id] has the type [y]; it is not a new one. *)
Definition message_is (id : Z) y w : Prop :=
  id < next_message w /\ exists m, store w !! id = Some m /\ Messages.theType (body m) = y.

Lemma message_is_body id y w : message_is id y w -> exists b, body_of (set_message id t) w = Some b /\ Messages.theType b = y.
Proof using.
  intros [_ (m & Em & Et)]. exists (body m). split; [|done]. unfold body_of, message_of. cbn. by rewrite Em.
Qed.
Lemma message_is_same id y w w' :
  store w' = store w /\ next_message w' = next_message w -> message_is id y w -> message_is id y w'.
Proof using. unfold message_is. by intros [-> ->]. Qed.

Lemma ends_new P y x pc size core :
  ends P (new_request y x pc size core) (fun id w => message_is id y w).
Proof using.
  intros w id w' _ E. unfold new_request, new_message, write_message, gets, modify, mbind, M_bind, mret, M_ret in E.
  cbn in E. injection E as <- <-. split; [cbn; lia|]. eexists. split; [apply lookup_insert_eq|done].
Qed.
Lemma ends_new_other id z y x pc size core :
  ends (message_is id z) (new_request y x pc size core) (fun id' w => message_is id z w /\ message_is id' y w).
Proof using.
  intros w id' w' [Lt (m & Em & Et)] E. split; [|exact (ends_new always _ _ _ _ _ _ _ _ I E)].
  unfold new_request, new_message, write_message, gets, modify, mbind, M_bind, mret, M_ret in E.
  cbn in E. injection E as <- <-. split; [cbn; lia|]. exists m. split; [|done].
  cbn. by rewrite lookup_insert_ne by lia.
Qed.

Lemma ends_quiet {A B} (P : W -> Prop) (m : M W A) (f : A -> M W B) R :
  (forall w w', store w' = store w /\ next_message w' = next_message w -> P w -> P w') ->
  quiet m -> (forall a, ends P (f a) R) -> ends P (m ≫= f) R.
Proof using.
  intros Hp Hm Hf. apply (ends_then P (fun _ => P)); [|done]. intros w a w' Pw E. eapply Hp; [by eapply Hm|done].
Qed.

(** The action's own messages are there when the handler is through. *)
Definition sends (a : Action) w : Prop :=
  match theAction a with
  | kReplyAndInsertMAF_WaitResponse => exists reply request,
      theFrontTransport a = set_message reply t /\ message_is reply AtomicPreloadReply w /\
      theBackTransport a = set_message request t /\ message_is request UpgradeReq w
  | kInsertMAF_WaitProbe => exists probe, theFrontTransport a = set_message probe t /\ message_is probe Probe w
  | _ => True
  end.
Lemma sends_same (a : Action) w w' :
  store w' = store w /\ next_message w' = next_message w -> sends a w -> sends a w'.
Proof using.
  intros E. unfold sends. destruct (theAction a); try done.
  - intros (p & -> & M). exists p. split; [done|by eapply message_is_same].
  - intros (p & q & -> & M & -> & N). exists p, q. split_and!; try done; by eapply message_is_same.
Qed.

Definition sends_none (a : Action) : Prop :=
  theAction a <> kReplyAndInsertMAF_WaitResponse /\ theAction a <> kInsertMAF_WaitProbe.
Lemma sends_nothing (a : Action) w : sends_none a -> sends a w.
Proof using. intros [N1 N2]. unfold sends. by destruct (theAction a). Qed.

Lemma ends_ask {B} P x blk pc size core act (f : Action -> M W B) R :
  (forall act', theAction act' = theAction act -> ends always (f act') R) ->
  ends P (ask_back t x blk pc size core act ≫= f) R.
Proof using.
  intros Hf w b w' Pw E. unfold mbind, M_bind in E. unfold ask_back, mbind, M_bind in E.
  destruct (new_request _ _ _ _ _ w) as [[id w1]|]; [|done]. exact (Hf (act_back (set_message id t) act) eq_refl _ _ _ I E).
Qed.

Ltac walk_none :=
  repeat lazymatch goal with
  | |- ends _ (mret _) _ =>
      apply ends_ret; intros ? _; split; cbn in *; congruence
  | |- ends _ (mbind _ (ask_back _ _ _ _ _ _ _)) _ => apply ends_ask; intros ? ?
  | |- ends _ (dbg_fail _) _ => apply ends_fail
  | |- ends _ (let _ := _ in _) _ => cbn zeta
  | |- ends _ (mbind _ _) _ => apply ends_any; intros ?
  | |- ends _ (if ?b then _ else _) _ => destruct b
  end.

Lemma ends_none {A} P (m : M W A) (g : A -> Action) :
  ends always m (fun a _ => sends_none (g a)) -> ends P m (fun a => sends (g a)).
Proof using. intros Hm w a w' _ E. by eapply sends_nothing, Hm. Qed.

Lemma none_then_hit (m : M W Progress) :
  ends always m (fun pr _ => sends_none (pr_action pr)) ->
  ends always (pr ← m; prefetcher_hit originatorLevel t lk (pr_hit pr);; mret pr) (fun pr _ => sends_none (pr_action pr)).
Proof using.
  intros Hm. eapply ends_then; [exact Hm|]. intros pr w a w' Sn E. unfold mbind, M_bind in E.
  destruct (prefetcher_hit _ _ _ _ w) as [[? w1]|]; [|done]. by injection E as <- <-.
Qed.

Lemma sends_Fetch m blk hit :
  ends always (request_Fetch mc t m blk lk start hit) (fun pr => sends (pr_action pr)).
Proof using.
  unfold request_Fetch. apply ends_any. intros s. destruct (eqb s Exclusive); [|apply ends_none; walk_none].
  eapply ends_then; [apply ends_new|]. intros id. cbn beta.
  apply ends_quiet; [intros w w' E; by apply message_is_same|apply quiet_array_do|]. intros [].
  apply ends_ret. intros w Mi. exists id. by split.
Qed.

Lemma sends_AtomicPreload m blk hit :
  ends always (request_AtomicPreload mc t m blk lk start hit) (fun pr => sends (pr_action pr)).
Proof using.
  unfold request_AtomicPreload. apply ends_any. intros s. eapply ends_then with (Q := fun pr => sends (pr_action pr)).
  - destruct (eqb s Modified || eqb s Exclusive); [apply ends_none; walk_none|].
    destruct (eqb s Shared); [|apply ends_none; walk_none].
    apply ends_any; intros []. apply ends_any; intros []. eapply ends_then; [apply ends_new|]. intros request. cbn beta.
    eapply ends_then; [apply ends_new_other|]. intros reply. cbn beta. apply ends_ret. intros w [M1 M2].
    exists reply, request. by split_and!.
  - intros pr. apply ends_quiet; [intros w w'; apply sends_same|apply quiet_array_get|]. intros s'.
    apply ends_quiet; [intros w w'; apply sends_same| |intros; by apply ends_ret].
    destruct (pr_hit pr && prefetched s'); [apply quiet_array_do|apply quiet_done].
Qed.

Lemma sends_switch m blk hit :
  ends always (request_switch mc originatorLevel t m blk lk start hit) (fun pr => sends (pr_action pr)).
Proof using.
  unfold request_switch. destruct (Messages.theType m); try apply ends_fail;
    try apply sends_Fetch; try apply sends_AtomicPreload; apply ends_none;
    unfold request_NonAllocatingStore, request_Load, request_Read, request_Write, request_Store, request_Upgrade,
      request_PrefetchReadNoAlloc; first [solve [apply ends_any; intros s; apply none_then_hit; walk_none]|walk_none].
Qed.

Lemma sends_finish pr :
  ends (sends (pr_action pr)) (finish_request mc others_fill t lk pr) sends.
Proof using.
  unfold finish_request. set (Hk := fun w w' => sends_same (pr_action pr) w w').
  apply ends_quiet; [exact Hk|apply quiet_array_get|intros s].
  apply ends_quiet; [exact Hk|destruct (_ && _); [apply quiet_array_do|apply quiet_done]|intros []].
  apply ends_quiet; [exact Hk|destruct (pr_hit pr); [destruct (tTracker t); [apply quiet_default|apply quiet_done]|apply quiet_done]|intros []].
  apply ends_quiet; [exact Hk|destruct (pr_upgrade pr); [apply quiet_use|apply quiet_done]|intros []].
  apply ends_quiet; [exact Hk|apply quiet_deref|intros m]. cbn zeta.
  apply ends_then with (Q := sends).
  - assert (N : sends_none (pr_action pr) -> forall a : Action, theAction a = theAction (pr_action pr) -> forall w, sends a w).
    { intros [N1 N2] a Ea w. apply sends_nothing. split; by rewrite Ea. }
    destruct (theAction (pr_action pr)) eqn:Ea;
      try (apply ends_ret; intros w S; first [exact S|apply N; [split; by rewrite Ea|done]]);
      (apply ends_quiet; [exact Hk|apply quiet_start|intros []]; apply ends_ret; intros w S;
       first [exact S|apply N; [split; by rewrite Ea|by destruct (theBackMessage _)]]).
  - intros a. apply ends_quiet; [intros w w'; apply sends_same| |intros; by apply ends_ret].
    destruct (pr_miss pr); [apply quiet_use|apply quiet_done].
Qed.
End own_messages.

(** ** The whole handler *)

Section request.
Context `{IndexOrder} (mc : MesiConfig).
Context (others_fill : Transport -> option tFillLevel) (originatorLevel : Z -> option tFillLevel).
#[local] Instance request_policy : Policy State MesiState := mesi_policy mc others_fill originatorLevel.

Local Abbreviation W := (Cache State MesiState).
Implicit Types (w : W) (t : Transport).
Local Abbreviation array w := (theArray (impl w)).

(** The message of a transport has the type [y]. *)
Definition carries t (y : MemoryMessageType) w : Prop := exists b, body_of t w = Some b /\ Messages.theType b = y.

(** What a request has come to: the block waits for what is under way, or the table
    has decided.  An upgrade of a block that is not there asks for it. *)
Definition as_specified t (y : MemoryMessageType) (x : Z) w (a : Action) w' : Prop :=
  let blk := Arr.blockAddress (array w) x in
  let s := holds_block (array w) (theEvictBuffer w) x in
  let asked := if bool_decide (y = UpgradeReq) && (s =? Invalid) then WriteReq else y in
  (theAction a = kInsertMAF_WaitEvict /\ w' = w /\
     exists e, EB.find blk (theEvictBuffer w) = Some e /\ EB.thePending e = true) \/
  (theAction a = kInsertMAF_WaitSnoop /\ has_snoops blk w' = true /\ Arr.peek (array w') x = s) \/
  match granted asked s with
  | Answers z u =>
      theAction a = kReplyAndRemoveMAF /\ theFrontMessage a = true /\ theFrontTransport a = t /\
      carries t z w' /\ Arr.peek (array w') x = u
  | AnswersAndAsks z =>
      theAction a = kReplyAndInsertMAF_WaitResponse /\ theFrontMessage a = true /\ carries (theFrontTransport a) z w' /\
      theBackMessage a = true /\ carries (theBackTransport a) UpgradeReq w' /\ Arr.peek (array w') x = s
  | NoAnswer =>
      unanswered a /\ (theAction a = kInsertMAF_WaitProbe -> carries (theFrontTransport a) Probe w') /\
      Arr.peek (array w') x = s
  end.

Local Abbreviation exact w0 t x lk := (exact mc others_fill originatorLevel w0 t x lk).

(** The lookup, and the block that is fetched back from the evict buffer. *)
Lemma safe_find_block t w m (Q : option Arr.LookupResult -> W -> Prop) :
  sound w -> message_of t w = Some m ->
  let x := Arr.blockAddress (array w) (theAddress (body m)) in
  let s := holds_block (array w) (theEvictBuffer w) x in
  (forall e, EB.find x (theEvictBuffer w) = Some e -> EB.thePending e = true -> Q None w) ->
  (forall lk w', exact w t x lk s (Messages.theType (body m)) w' -> Q (Some lk) w') ->
  safe mesi_assert
    (lk ← array_get (fun arr => Arr.lookup arr x); v ← block_state lk;
     if eqb v Invalid then fetch_evictee mc lk x else mret (Some lk)) Q w.
Proof using.
  intros So Em x s Hn Hs. assert (Hx : Arr.blockAddress (array w) x = x) by apply Arr.blockAddress_idem.
  assert (Oa : Arr.array_ok (array w)) by (eapply bo_array, So). destruct (Arr.lookup_ok _ x Oa) as (lk & El & Hd & Hh).
  apply safe_bind. unfold array_get. apply safe_bind, safe_gets, safe_lift_any. rewrite El.
  assert (K : MesiInvariant.work mc others_fill originatorLevel w t x lk false w)
    by (eapply start_work; [done|exact Em|by rewrite Hx|done]).
  assert (Eb : exists b, body_of t w = Some b /\ Messages.theType b = Messages.theType (body m)).
  { exists (body m). split; [|done]. unfold body_of. by rewrite Em. }
  apply safe_bind. unfold block_state, array_get. apply safe_bind, safe_gets, safe_lift_any.
  destruct (Arr.handle_state _ _ _ Oa Hd) as (v & -> & Ev).
  assert (Hi : Arr.isHit lk = false -> Arr.peek (array w) x = Invalid).
  { intros Hf. destruct (decide (Arr.peek (array w) x = Invalid)) as [|N]; [done|]. apply Hh in N. congruence. }
  assert (Ev' : Arr.st v = Arr.peek (array w) x) by (rewrite Ev; destruct (Arr.isHit lk); [done|by rewrite Hi]).
  assert (Es : s = if Arr.peek (array w) x =? Invalid then
      match EB.find x (theEvictBuffer w) with Some e => Arr.st (EB.theState e) | None => Invalid end
    else Arr.peek (array w) x) by (unfold s, holds_block; by rewrite Hx).
  destruct (eqb v Invalid) eqn:Eq.
  - apply eqb_spec in Eq. change (Arr.st Invalid) with Invalid in Eq. rewrite Ev' in Eq. rewrite Eq in Es.
    eapply safe_mono; [by apply safe_fetch_evictee|]. intros [lk'|] w'.
    + intros (K' & S' & L' & P'). apply Hs. split; [exact K'|..].
      * rewrite P', Eq, Es. by destruct (EB.find _ _).
      * intros Hf. by rewrite Es, (L' Hf).
      * destruct Eb as (b & Eb & Et). exists b. split; [|done]. unfold body_of, message_of in *. by rewrite S'.
    + intros [-> (e & Ee & Ep)]. by eapply Hn.
  - apply safe_ret, Hs. assert (N : Arr.peek (array w) x <> Invalid).
    { intros E. rewrite E in Ev'. assert (eqb v Invalid = true); [|congruence]. by apply eqb_spec. }
    rewrite (proj2 (Z.eqb_neq _ _) N) in Es. split; [by eapply work_valid|done| |done].
    intros Hf. by destruct N; apply Hi.
Qed.

Lemma holds_block_aligned w x :
  sound w ->
  holds_block (array w) (theEvictBuffer w) (Arr.blockAddress (array w) x) = holds_block (array w) (theEvictBuffer w) x.
Proof using.
  intros So. assert (Oa : Arr.array_ok (array w)) by (eapply bo_array, So). unfold holds_block.
  rewrite Arr.blockAddress_idem. by rewrite (Arr.peek_block _ _ x Oa (Arr.blockAddress_idem _ _)).
Qed.

Lemma holds_one_of_four w x : sound w -> one_of_four (holds_block (array w) (theEvictBuffer w) x).
Proof using.
  intros So. unfold holds_block. pose proof (proj2 (proj2 (proj2 So))) as Ok.
  assert (K : forall s, mesi_state s -> one_of_four (Arr.st s)) by done.
  destruct (Arr.peek _ _ =? Invalid).
  - destruct (EB.find _ _) as [e|] eqn:Ef; [|by right; right; right]. apply K. apply find_by_Some in Ef as [He _].
    pose proof (bo_evicted _ _ Ok) as F. rewrite Forall_forall in F. by apply F.
  - pose proof (bo_states _ _ Ok x) as Ms. unfold mesi_state in Ms. revert Ms. unfold Arr.peek.
    destruct (_ !! _); [|by right; right; right]. unfold Arr.peek_set. destruct (list_find _ _) as [[? b]|]; [|by right; right; right].
    by rewrite Arr.st_st.
Qed.

Lemma knows_deref {B} w0 t x lk v y (f : Message -> M W B) R :
  (forall m, Messages.theType (body m) = y -> knows mc others_fill originatorLevel w0 t x lk v y (f m) R) ->
  knows mc others_fill originatorLevel w0 t x lk v y (deref_message t ≫= f) R.
Proof using.
  intros Hf w K. apply safe_bind. unfold safe at 1, deref_message. destruct (message_of t w) as [m|] eqn:Em; [|done].
  apply Hf; [|done]. destruct (ex_type _ _ _ _ _ _ _ _ _ _ K) as (b & Eb & Et). unfold body_of in Eb. rewrite Em in Eb.
  by injection Eb as <-.
Qed.

Lemma safe_assoc3 {A B C D} (m : M W A) (f : A -> M W B) (g : A -> B -> M W C) (h : C -> M W D) Q w :
  safe mesi_assert (a ← m; b ← f a; g a b) (fun c w' => safe mesi_assert (h c) Q w') w ->
  safe mesi_assert (a ← m; b ← f a; c ← g a b; h c) Q w.
Proof using.
  unfold safe, mbind, M_bind. destruct (m w) as [[a w1]|]; [|done]. destruct (f a w1) as [[b w2]|]; [|done].
  by destruct (g a b w2) as [[c w3]|].
Qed.

(** The request once the state of its block is known. *)
Lemma knows_rest w0 t x lk v y s hit :
  one_of_four v -> Arr.st s = v ->
  knows mc others_fill originatorLevel w0 t x lk v y
    ((if bool_decide (y = UpgradeReq) && eqb s Invalid then set_msg_type t WriteReq else mret ());;
     m ← deref_message t;
     pr ← request_switch mc originatorLevel t (body m) x lk (newAction kReplyAndRemoveMAF (tTracker t) 1) hit;
     a ← finish_request mc others_fill t lk pr;
     mret (negb (pr_miss pr), hit && prefetched s, a))
    (fun r => as_answered t (if bool_decide (y = UpgradeReq) && (v =? Invalid) then WriteReq else y) v r.2).
Proof using.
  intros Ms Es. rewrite Arr.eqb_st, Es. change (Arr.st Invalid) with Invalid.
  set (z := if bool_decide _ && _ then WriteReq else y).
  eapply knows_bind with (R := fun _ v' y' => v' = v /\ y' = z).
  { unfold z. destruct (bool_decide _ && _); [by apply knows_set_type|by apply knows_ret]. }
  intros _ ? ? [-> ->]. apply knows_deref. intros m Et. eapply knows_bind; [rewrite <-Et; by apply table_switch|].
  rewrite Et. intros pr v' y' G. eapply knows_bind; [by apply table_finish|]. intros a v2 y2 G2. by apply knows_ret.
Qed.

Lemma granted_asks y v z : granted y v = AnswersAndAsks z -> z = AtomicPreloadReply.
Proof using. unfold granted. intros E. destruct y; repeat case_match; congruence. Qed.

(** What is safe and what holds of every result, together. *)
Lemma safe_ends {A} (m : M W A) (Q : A -> W -> Prop) (R : A -> W -> Prop) (Q' : A -> W -> Prop) w :
  safe mesi_assert m Q w -> ends always m R -> (forall a w', Q a w' -> R a w' -> Q' a w') -> safe mesi_assert m Q' w.
Proof using.
  intros Hm Hr Hq. unfold safe in *. specialize (Hr w). destruct (m w) as [[a w']|]; [|done].
  apply Hq; [done|]. by apply Hr.
Qed.

Lemma sends_rest t x lk (b h : bool) s :
  ends always
    ((if b then set_msg_type t WriteReq else mret ());;
     m ← deref_message t;
     pr ← request_switch mc originatorLevel t (body m) x lk (newAction kReplyAndRemoveMAF (tTracker t) 1) h;
     a ← finish_request mc others_fill t lk pr;
     mret (negb (pr_miss pr), h && prefetched s, a)) (fun r => sends t r.2).
Proof using.
  apply ends_any. intros []. apply ends_any. intros m. eapply ends_then; [apply sends_switch|]. intros pr. cbn beta.
  eapply ends_then; [apply sends_finish|]. intros a. cbn beta. by apply ends_ret.
Qed.

(** C12 A request from the front side of a cache in good order (the invariant of C13),
    with no entry of its address in the miss file, waits for a pending eviction of its
    block or for snoops under way, or is dealt with as the table says.  A block in a
    state for which the table [Answers] is answered at once, with the table's reply and
    state, and the request is done with.  An atomic preload of a shared block
    ([AnswersAndAsks]) is answered at once too, with a reply of its own, and waits in
    the miss file while an upgrade goes to the back side; the block stays shared.  Any
    other request is not answered: it waits for a response or goes to the back side with
    nothing for the front side, or a probe goes to the front side; and the block, fetched
    back from the evict buffer if it was there, keeps its state.  A core never writes a
    block that the cache does not hold modified or exclusive.  A run that does not get
    there stops at an assertion of the protocol ([mesi_assert]). *)
Theorem request_refines_table t w m tracker :
  sound w -> message_of t w = Some m ->
  safe mesi_assert (mesi_doRequest mc others_fill originatorLevel t false tracker)
    (fun r w' => as_specified t (Messages.theType (body m)) (theAddress (body m)) w r.2 w') w.
Proof using.
  intros So Em. unfold mesi_doRequest. apply safe_bind. unfold safe at 1, deref_message. rewrite Em.
  apply safe_bind. unfold block_of_address. apply safe_bind, safe_gets, safe_ret.
  set (x := theAddress (body m)). set (blk := Arr.blockAddress (array w) x). set (y := Messages.theType (body m)).
  cbn iota. apply safe_assoc3. pose proof (holds_block_aligned w x So) as Hb. fold blk in Hb.
  assert (Hx : Arr.blockAddress (array w) blk = blk) by apply Arr.blockAddress_idem.
  apply (safe_find_block t w m _ So Em); fold x blk y.
  - intros e Ee Ep. apply safe_ret. left. split_and!; [done..|]. by exists e.
  - intros lk w1 K1. rewrite Hb in K1. set (v := holds_block _ _ x) in K1.
    assert (Pk : forall v' y' w', exact w t blk lk v' y' w' -> Arr.peek (array w') x = v').
    { intros v' y' w' [K' <- _ _]. apply Arr.peek_block; [apply (wk_array _ _ _ _ _ _ _ _ _ K')|].
      rewrite !(Arr.same_block _ _ _ (wk_geometry _ _ _ _ _ _ _ _ _ K')). by rewrite Hx. }
    eapply safe_state; [exact K1|]. intros s Es. cbn zeta. apply safe_bind, safe_gets.
    destruct (has_snoops blk w1) eqn:Hs.
    + apply safe_ret. right; left. split_and!; [done..|]. by eapply Pk.
    + eapply safe_ends; [apply (knows_rest w t blk lk v y s); [by apply holds_one_of_four|exact Es|exact K1]|apply sends_rest|].
      intros r w' (v' & y' & [G T] & K') Sn. right; right. fold v. unfold as_granted in G. unfold sends in Sn.
      set (asked := if bool_decide _ && _ then WriteReq else y) in *.
      destruct (granted asked v) as [z u|z|] eqn:Eg.
      * destruct G as (Ea & -> & ->). destruct (T Ea) as [-> ->]. split_and!; [done..|by apply K'|by eapply Pk].
      * destruct G as (Ea & Ef & Eb & -> & ->). rewrite Ea in Sn. destruct Sn as (p & q & -> & Mp & -> & Mq).
        assert (z = AtomicPreloadReply) as -> by by apply (granted_asks asked v).
        split_and!; [done|done|by apply message_is_body|done|by apply message_is_body|by eapply Pk].
      * destruct G as (Na & -> & ->). split_and!; [done| |by eapply Pk]. intros Ea. rewrite Ea in Sn.
        destruct Sn as (p & -> & Mp). by apply message_is_body.
Qed.
End request.

(** ** A store to a block that was read for writing *)

#[local] Abbreviation mesi_l1 := (mesi_runs (H := arrival_order) mesi_config filled no_originator).
#[local] Abbreviation mesi_started :=
  (@initialize State MesiState mesi_l1 small_cache small_bus (newMesiState small_array)).
#[local] Abbreviation mesi_ran es k :=
  (@run_events State MesiState arrival_order mesi_l1 small_cache small_bus es k).
Definition then_store : list CacheEvent :=
  ask 0 LoadReq 4096 ++ answer_miss 2 MissReplyWritable 4096 100 ++ [NewMessage (request StoreReq 4096)].
Definition stored (r : outcome ((bool * bool * Action) * Cache State MesiState)) : bool :=
  match r with
  | Done ((_, a), w) =>
      bool_decide (theAction a = kReplyAndRemoveMAF) && (Arr.peek (theArray (impl w)) 4096 =? Modified)
  | Assert _ => false
  end.
Definition stores (k : CacheComponent (S:=State) (P:=MesiState)) : bool :=
  let w := theController k in
  match message_of (transport 5) w with
  | Some m => bool_decide (Messages.theType (body m) = StoreReq) && (theAddress (body m) =? 4096) &&
              stored (mesi_doRequest (H := arrival_order) mesi_config filled no_originator (transport 5) false None w)
  | None => false
  end.

Lemma stores_request k :
  stores k = true -> exists m, message_of (transport 5) (theController k) = Some m /\ Messages.theType (body m) = StoreReq /\
    theAddress (body m) = 4096.
Proof.
  unfold stores. destruct (message_of _ _) as [m|]; [|done]. intros T. apply andb_true_iff in T as [[T1 T2]%andb_true_iff _].
  exists m. split_and!; [done|by apply bool_decide_eq_true in T1|lia].
Qed.
Lemma then_store_sound k k' : mesi_started = Done k -> mesi_ran then_store k = Done ((), k') ->
  sound (H0 := mesi_l1) (theController k').
Proof.
  intros Ek Er. pose proof (@runs_sound arrival_order mesi_config filled no_originator small_cache small_bus 256 2 64
    Arr.REPLACEMENT_LRU small_array k then_store small_ok eq_refl eq_refl eq_refl small_size Ek) as Hs.
  unfold safe in Hs. rewrite Er in Hs. exact Hs.
Qed.

Lemma request_refines_table_witness : exists k m,
  stores k = true /\ message_of (transport 5) (theController k) = Some m /\
  safe mesi_assert (mesi_doRequest (H := arrival_order) mesi_config filled no_originator (transport 5) false None)
    (fun r w' => as_specified (H := arrival_order) (transport 5) (Messages.theType (body m)) (theAddress (body m)) (theController k) r.2 w')
    (theController k).
Proof.
  destruct (run_mesi_found stores then_store) as (k0 & k & Ek & Er & T); [vm_compute; reflexivity|].
  destruct (stores_request k T) as (m & Em & _). exists k, m. split; [exact T|]. split; [exact Em|].
  exact (request_refines_table (H := arrival_order) mesi_config filled no_originator (transport 5) (theController k) m None
    (then_store_sound k0 k Ek Er) Em).
Defined.
