(* ===== verification/RegisterMap.v ===== *)
(** * The register map tables of the core

    [PhysicalMap] and [RegisterWindowMap] of components/uArchARM/MapTable.hpp: the
    table that gives each architectural register its current physical register,
    the free list, and for each architectural register the list of the physical
    registers that hold its committed value and the values of the writes in
    flight, oldest first.

    A table that is used as the core uses it - a register is created for each write
    at dispatch, the previous one is freed when the write retires, and the new one
    is freed after the previous mapping is restored when the write is squashed - is
    described by the committed registers and the list of writes in flight
    ([table_ok]).  The operations are shown to keep this description and to reach
    none of their assertions. *)

From stdpp Require Import base list sets strings sorting.
From Stdlib Require Import ZArith Lia.
From S2P Require Import Prelude.

(** ** Register names *)

Inductive eRegisterType : Set := xRegisters | vRegisters | ccBits.
#[export] Instance eRegisterType_eq_dec : EqDecision eRegisterType.
Proof. solve_decision. Defined.

(** A [uint32_t] that is only used as an index is a natural number; [reg] and
    [mapped_reg] have the same fields. *)
Record reg : Set := mkReg { theType : eRegisterType; theIndex : nat }.
#[export] Instance reg_eq_dec : EqDecision reg.
Proof. solve_decision. Defined.

Definition kGlobalRegCount : Z := 32.
Definition kGlobalRegSets : Z := 1.
Definition kNumWindows : Z := 0.
Definition kRegistersPerWindow : Z := 0.
Definition kWindowRegCount : Z := kRegistersPerWindow * kNumWindows.
Definition kSpecialRegCount : Z := 3.
Definition kTotalRegs : Z := kGlobalRegSets * kGlobalRegCount + kWindowRegCount + kSpecialRegCount.
Definition kFirstSpecialReg : Z := kGlobalRegSets * kGlobalRegCount + kWindowRegCount.

Record RegisterWindowMap : Set := mkWindow {
  theCWP : Z; theAG : bool; theIG : bool; theMG : bool }.

Definition window_reset : RegisterWindowMap := mkWindow 0 false false false.

Definition wrap32 (x : Z) : Z := x mod 2 ^ 32.

(** [RegisterWindowMap::rotate]. *)
Definition rotate (w : RegisterWindowMap) (aReg : reg) : reg :=
  match theType aReg with
  | xRegisters =>
      let index := Z.of_nat (theIndex aReg) in
      if (kFirstSpecialReg <=? index)%Z then aReg
      else if (index <? kGlobalRegCount)%Z then
        let index :=
          if theAG w && (index <? kGlobalRegCount)%Z then wrap32 (index + kGlobalRegCount)
          else if theMG w && (index <? kGlobalRegCount)%Z then wrap32 (index + 2 * kGlobalRegCount)
          else if theIG w && (index <? kGlobalRegCount)%Z then wrap32 (index + 3 * kGlobalRegCount)
          else index in
        mkReg xRegisters (Z.to_nat index)
      else
        let index := wrap32 (index + (kNumWindows - 1 - theCWP w) * kRegistersPerWindow
                             + (kGlobalRegSets - 1) * kGlobalRegCount) in
        let index := if (kFirstSpecialReg <=? index)%Z then wrap32 (index - kWindowRegCount) else index in
        mkReg xRegisters (Z.to_nat index)
  | _ => aReg
  end.

(** No caller sets the global sets, so names do not rotate. *)
Lemma rotate_reset r : rotate window_reset r = r.
Proof.
  destruct r as [[] i]; unfold rotate; cbn [theType theIndex]; try done.
  change kFirstSpecialReg with 32%Z; change kGlobalRegCount with 32%Z; cbn.
  destruct (32 <=? Z.of_nat i)%Z eqn:H1; [done|].
  destruct (Z.of_nat i <? 32)%Z eqn:H2; [by rewrite Nat2Z.id|lia].
Qed.

(** ** The map table *)

Record PhysicalMap : Set := mkMap {
  theNameCount : nat;
  theRegisterCount : nat;
  theMappings : list nat;
  theFreeList : list nat;
  theAssignedRegisters : list (list nat);
  theReverseMappings : list Z }.

Definition set_mappings v p := mkMap (theNameCount p) (theRegisterCount p) v (theFreeList p)
  (theAssignedRegisters p) (theReverseMappings p).
Definition set_free v p := mkMap (theNameCount p) (theRegisterCount p) (theMappings p) v
  (theAssignedRegisters p) (theReverseMappings p).
Definition set_assigned v p := mkMap (theNameCount p) (theRegisterCount p) (theMappings p) (theFreeList p)
  v (theReverseMappings p).
Definition set_reverse v p := mkMap (theNameCount p) (theRegisterCount p) (theMappings p) (theFreeList p)
  (theAssignedRegisters p) v.

(** An element of a vector; outside the vector it is undefined in the code. *)
Definition elt {W A} (l : list A) (i : nat) : M W A :=
  match l !! i with Some a => mret a | None => dbg_fail "vector index out of range" end.

(** [PhysicalMap::reset], for a table of which the vectors have their sizes. *)
Definition map_reset (p : PhysicalMap) : PhysicalMap :=
  let n := theNameCount p in
  let m := theRegisterCount p in
  mkMap n m (seq 0 n) (seq n (m - n)) ((fun i => [i]) <$> seq 0 n)
    ((fun i => if decide (i < n) then Z.of_nat i else (-1)%Z) <$> seq 0 m).

(** The constructor. *)
Definition newPhysicalMap (aNameCount aRegisterCount : nat) : PhysicalMap :=
  map_reset (mkMap aNameCount aRegisterCount [] [] [] []).

Definition map_name (aRegisterName : nat) : M PhysicalMap nat :=
  p ← gets id;
  dbg_assert (bool_decide (aRegisterName < length (theMappings p))) "map";;
  elt (theMappings p) aRegisterName.

Definition front {W} (l : list nat) : M W nat :=
  match l with r :: _ => mret r | [] => dbg_fail "front of an empty list" end.

Definition mapArchitectural (aRegisterName : nat) : M PhysicalMap nat :=
  p ← gets id;
  dbg_assert (bool_decide (aRegisterName < length (theAssignedRegisters p))) "mapArchitectural";;
  l ← elt (theAssignedRegisters p) aRegisterName; front l.

(** [PhysicalMap::create]: the new register and the previous one. *)
Definition create (aRegisterName : nat) : M PhysicalMap (nat * nat) :=
  p ← gets id;
  dbg_assert (bool_decide (aRegisterName < length (theMappings p))) "create: name";;
  previous_reg ← elt (theMappings p) aRegisterName;
  new_reg ← front (theFreeList p);
  modify (set_free (tail (theFreeList p)));;
  modify (set_mappings (<[aRegisterName := new_reg]> (theMappings p)));;
  l ← elt (theAssignedRegisters p) aRegisterName;
  modify (set_assigned (<[aRegisterName := l ++ [new_reg]]> (theAssignedRegisters p)));;
  rev ← elt (theReverseMappings p) new_reg;
  dbg_assert (rev =? -1)%Z "create: register in use";;
  modify (set_reverse (<[new_reg := Z.of_nat aRegisterName]> (theReverseMappings p)));;
  mret (new_reg, previous_reg).

(** The loop of [free]: erase the first occurrence. *)
Fixpoint erase_first (r : nat) (l : list nat) : option (list nat) :=
  match l with
  | [] => None
  | x :: l => if decide (x = r) then Some l else cons x <$> erase_first r l
  end.

Definition free (aRegisterName : nat) : M PhysicalMap () :=
  p ← gets id;
  modify (set_free (theFreeList p ++ [aRegisterName]));;
  arch ← elt (theReverseMappings p) aRegisterName;
  dbg_assert ((0 <=? arch) && (arch <? Z.of_nat (length (theAssignedRegisters p))))%Z "free: not assigned";;
  let arch_name := Z.to_nat arch in
  current ← elt (theMappings p) arch_name;
  dbg_assert (negb (current =? aRegisterName)) "free: still mapped";;
  l ← elt (theAssignedRegisters p) arch_name;
  dbg_assert (negb (length l =? 0)) "free: nothing assigned";;
  modify (set_reverse (<[aRegisterName := (-1)%Z]> (theReverseMappings p)));;
  match erase_first aRegisterName l with
  | Some l' => modify (set_assigned (<[arch_name := l']> (theAssignedRegisters p)))
  | None => dbg_fail "free: not found"
  end.

(** [theMappings[aRegisterName] = aReg], outside the vector undefined. *)
Definition restore (aRegisterName aReg : nat) : M PhysicalMap () :=
  p ← gets id;
  _ ← elt (theMappings p) aRegisterName;
  modify (set_mappings (<[aRegisterName := aReg]> (theMappings p))).

(** The counting loops of [checkInvariants]. *)
Fixpoint count_all {W} (rs : list nat) (registers : list nat) : M W (list nat) :=
  match rs with
  | [] => mret registers
  | r :: rs => k ← elt registers r; count_all rs (<[r := S k]> registers)
  end.

Definition checkInvariants : M PhysicalMap bool :=
  p ← gets id;
  registers ← count_all (theMappings p) (replicate (theRegisterCount p) 0);
  registers ← count_all (theFreeList p) registers;
  mret (forallb (fun k => k <=? 1) registers).

(** ** What a table describes

    The operands of the instructions in flight in program order: a source that was
    mapped to a register, or a write of a name with its new and previous register. *)

Inductive item : Set :=
  | Read (name mapped : nat)
  | Write (name new prev : nat).

Definition upd (c : nat -> nat) (a r : nat) : nat -> nat := fun b => if decide (b = a) then r else c b.

(** The registers that hold the newest values, after the writes of [fl]. *)
Definition after (c : nat -> nat) (i : item) : nat -> nat :=
  match i with Read _ _ => c | Write a new _ => upd c a new end.
Definition newest (c : nat -> nat) (fl : list item) : nat -> nat := foldl after c fl.

Definition writers (fl : list item) (a : nat) : list nat :=
  omap (fun i => match i with Write b new _ => if decide (b = a) then Some new else None | _ => None end) fl.
Definition news (fl : list item) : list nat :=
  omap (fun i => match i with Write _ new _ => Some new | _ => None end) fl.
Definition written (fl : list item) : list nat :=
  omap (fun i => match i with Write b _ _ => Some b | _ => None end) fl.
Definition only_writes (fl : list item) : list item :=
  omap (fun i => match i with Write _ _ _ => Some i | _ => None end) fl.

(** Every operand was mapped to the newest write before it, and every write has
    kept the one it replaced. *)
Fixpoint linked (c : nat -> nat) (fl : list item) : Prop :=
  match fl with
  | [] => True
  | Read a r :: fl => r = c a /\ linked c fl
  | Write a new prev :: fl => prev = c a /\ linked (upd c a new) fl
  end.

Lemma upd_same c a r : upd c a r a = r.
Proof. unfold upd. by rewrite decide_True. Qed.
Lemma upd_other c a r b : b <> a -> upd c a r b = c b.
Proof. intros. unfold upd. by rewrite decide_False. Qed.

Lemma newest_app c l1 l2 : newest c (l1 ++ l2) = newest (newest c l1) l2.
Proof. apply foldl_app. Qed.

Lemma linked_app c l1 l2 : linked c (l1 ++ l2) <-> linked c l1 /\ linked (newest c l1) l2.
Proof.
  revert c. induction l1 as [|[a r|a r p] l1 IH]; intros c; simpl; [tauto| |];
  rewrite IH; tauto.
Qed.

Lemma newest_other c fl a : a ∉ written fl -> newest c fl a = c a.
Proof.
  revert c. induction fl as [|[b r|b r p] fl IH]; intros c; simpl; [done|apply IH|].
  rewrite not_elem_of_cons. intros [Hn Hf]. unfold newest in *. simpl. rewrite IH by done.
  by apply upd_other.
Qed.

Lemma newest_ext c c' fl a : c a = c' a -> newest c fl a = newest c' fl a.
Proof.
  revert c c'. induction fl as [|[b r|b r p] fl IH]; intros c c' H; simpl; [done|by apply IH|].
  unfold newest in *. simpl. apply IH. unfold upd. by case_decide.
Qed.

Lemma linked_ext c c' fl : (forall i, i ∈ fl -> match i with Read a _ | Write a _ _ => c a = c' a end) ->
  linked c fl -> linked c' fl.
Proof.
  revert c c'. induction fl as [|[b r|b r p] fl IH]; intros c c' H; simpl; [done| |];
  intros [-> Hl]; (split; [apply (H _ (list_elem_of_here _ _))|]); eapply IH; [|done| |done];
  intros i Hi; pose proof (H i (list_elem_of_further _ _ _ Hi)) as E.
  - done.
  - destruct i; unfold upd; by case_decide.
Qed.

Lemma linked_only_writes c fl : linked c fl -> linked c (only_writes fl).
Proof. revert c. induction fl as [|[b r|b r p] fl IH]; intros c; simpl; [done| |]; intros [? H]; [|split]; auto. Qed.
Lemma newest_only_writes c fl : newest c (only_writes fl) = newest c fl.
Proof. revert c. induction fl as [|[b r|b r p] fl IH]; intros c; simpl; [done| |]; apply IH. Qed.
Lemma writers_app l1 l2 a : writers (l1 ++ l2) a = writers l1 a ++ writers l2 a.
Proof. apply omap_app. Qed.
Lemma writers_only_writes fl a : writers (only_writes fl) a = writers fl a.
Proof. induction fl as [|[b r|b r p] fl IH]; simpl; [done|apply IH|]. unfold writers in *. simpl. by rewrite IH. Qed.
Lemma news_app l1 l2 : news (l1 ++ l2) = news l1 ++ news l2.
Proof. apply omap_app. Qed.
Lemma news_only_writes fl : news (only_writes fl) = news fl.
Proof. induction fl as [|[b r|b r p] fl IH]; simpl; [done|apply IH|]. unfold news in *. simpl. by rewrite IH. Qed.
Lemma written_app l1 l2 : written (l1 ++ l2) = written l1 ++ written l2.
Proof. apply omap_app. Qed.
Lemma written_only_writes fl : written (only_writes fl) = written fl.
Proof. induction fl as [|[b r|b r p] fl IH]; simpl; [done|apply IH|]. unfold written in *. simpl. by rewrite IH. Qed.
Lemma news_length fl : length (news fl) = length (written fl).
Proof. induction fl as [|[b r|b r p] fl IH]; simpl; [done|apply IH|]. unfold news, written in *. simpl. by rewrite IH. Qed.

Lemma writers_other fl a : a ∉ written fl -> writers fl a = [].
Proof.
  induction fl as [|[b r|b r p] fl IH]; simpl; [done|apply IH|]. rewrite not_elem_of_cons.
  intros [Hn Hf]. unfold writers in *. simpl. rewrite decide_False by done. by apply IH.
Qed.

Lemma elem_of_writers fl a r : r ∈ writers fl a <-> exists p, Write a r p ∈ fl.
Proof.
  unfold writers. rewrite list_elem_of_omap. split.
  - intros ([b x|b x p] & Hi & E); [done|]. case_decide; simplify_eq. by exists p.
  - intros [p Hi]. exists (Write a r p). split; [done|]. by rewrite decide_True.
Qed.

Lemma elem_of_news fl r : r ∈ news fl <-> exists a p, Write a r p ∈ fl.
Proof.
  unfold news. rewrite list_elem_of_omap. split.
  - intros ([b x|b x p] & Hi & E); simplify_eq. by exists b, p.
  - intros (a & p & Hi). by exists (Write a r p).
Qed.

Lemma newest_cases c fl a : newest c fl a = c a /\ writers fl a = [] \/
  exists l, writers fl a = l ++ [newest c fl a].
Proof.
  induction fl as [|i fl IH] using rev_ind; [by left|]. rewrite newest_app, writers_app.
  destruct i as [b r|b r p]; cbn; [by rewrite app_nil_r|].
  unfold upd. destruct (decide (a = b)) as [->|N].
  - rewrite decide_True by done. right. by eexists.
  - rewrite decide_False by done. by rewrite app_nil_r.
Qed.

Record table_ok (c : nat -> nat) (fl : list item) (p : PhysicalMap) : Prop := {
  ok_mapped : length (theMappings p) = theNameCount p;
  ok_lists : length (theAssignedRegisters p) = theNameCount p;
  ok_names : forall a, a ∈ written fl -> a < theNameCount p;
  ok_mappings : forall a, a < theNameCount p -> theMappings p !! a = Some (newest c fl a);
  ok_assigned : forall a, a < theNameCount p -> theAssignedRegisters p !! a = Some (c a :: writers fl a);
  ok_committed : forall a, a < theNameCount p -> theReverseMappings p !! c a = Some (Z.of_nat a);
  ok_flying : forall a r prev, Write a r prev ∈ fl -> theReverseMappings p !! r = Some (Z.of_nat a);
  ok_unused : forall r, r ∈ theFreeList p -> theReverseMappings p !! r = Some (-1)%Z;
  ok_all : theFreeList p ++ (c <$> seq 0 (theNameCount p)) ++ news fl ≡ₚ seq 0 (theRegisterCount p);
  ok_linked : linked c fl;
}.

Section table.
Context {c : nat -> nat} {fl : list item} {p : PhysicalMap} (Ok : table_ok c fl p).

Lemma table_NoDup : NoDup (theFreeList p ++ (c <$> seq 0 (theNameCount p)) ++ news fl).
Proof. rewrite (ok_all _ _ _ Ok). apply NoDup_seq. Qed.

(** The free registers are those that hold neither a committed value nor a write in flight. *)
Lemma table_count : length (theFreeList p) + theNameCount p + length (written fl) = theRegisterCount p.
Proof.
  pose proof (Permutation_length (ok_all _ _ _ Ok)) as H.
  rewrite !length_app, length_fmap, !length_seq, news_length in H. lia.
Qed.

Lemma committed_used a : a < theNameCount p -> c a ∉ theFreeList p /\ c a ∉ news fl.
Proof.
  intros Ha. pose proof table_NoDup as H. apply NoDup_app in H as (_ & H1 & H).
  apply NoDup_app in H as (_ & H2 & _).
  assert (Hc : c a ∈ c <$> seq 0 (theNameCount p)) by (apply list_elem_of_fmap_2, elem_of_seq; lia).
  split; [|by apply H2]. intros Hf. apply (H1 _ Hf), elem_of_app. by left.
Qed.

Lemma news_used r : r ∈ news fl -> r ∉ theFreeList p.
Proof.
  intros Hr Hf. pose proof table_NoDup as H. apply NoDup_app in H as (_ & H1 & _).
  apply (H1 _ Hf), elem_of_app. by right.
Qed.

Lemma committed_inj a b : a < theNameCount p -> b < theNameCount p -> c a = c b -> a = b.
Proof.
  intros Ha Hb E. pose proof (ok_committed _ _ _ Ok a Ha) as Ea. rewrite E, (ok_committed _ _ _ Ok b Hb) in Ea.
  simplify_eq. lia.
Qed.

Lemma assigned_NoDup a : a < theNameCount p -> NoDup (c a :: writers fl a).
Proof.
  intros Ha. pose proof (committed_used a Ha) as [_ Hn]. pose proof table_NoDup as H.
  apply NoDup_app in H as (_ & _ & H). apply NoDup_app in H as (_ & _ & H).
  assert (Hs : writers fl a `sublist_of` news fl).
  { clear. induction fl as [|[b r|b r q] l IH]; [constructor|apply IH|]. unfold writers, news in *; cbn.
    case_decide; by constructor. }
  apply NoDup_cons. split.
  - intros Hw. apply Hn. by eapply sublist_subseteq.
  - eapply sublist_NoDup; eauto.
Qed.

Lemma newest_used a : a < theNameCount p -> newest c fl a ∉ theFreeList p.
Proof.
  intros Ha. destruct (newest_cases c fl a) as [[-> _]|[l Hl]]; [by apply committed_used|].
  apply news_used, elem_of_news. destruct (proj1 (elem_of_writers fl a (newest c fl a))) as [q Hq];
  [rewrite Hl, elem_of_app; right; by left|by eauto].
Qed.

Lemma register_range r : r ∈ theFreeList p \/ r ∈ (c <$> seq 0 (theNameCount p)) \/ r ∈ news fl ->
  r < theRegisterCount p.
Proof.
  intros H. assert (Hr : r ∈ seq 0 (theRegisterCount p)) by (rewrite <- (ok_all _ _ _ Ok), !elem_of_app; tauto).
  apply elem_of_seq in Hr. lia.
Qed.
End table.

(** ** The operations *)

Ltac run_map := cbv [mbind M_bind mret M_ret gets modify dbg_assert dbg_fail id elt front];
  cbn [theNameCount theRegisterCount theMappings theFreeList theAssignedRegisters theReverseMappings
       set_mappings set_free set_assigned set_reverse].

Lemma map_name_ok c fl p a : table_ok c fl p -> a < theNameCount p -> map_name a p = Done (newest c fl a, p).
Proof.
  intros Ok Ha. unfold map_name. run_map.
  rewrite (ok_mapped _ _ _ Ok), (ok_mappings _ _ _ Ok a Ha). by rewrite bool_decide_eq_true_2.
Qed.

Lemma mapArchitectural_ok c fl p a : table_ok c fl p -> a < theNameCount p -> mapArchitectural a p = Done (c a, p).
Proof.
  intros Ok Ha. unfold mapArchitectural. run_map.
  rewrite (ok_lists _ _ _ Ok), (ok_assigned _ _ _ Ok a Ha). by rewrite bool_decide_eq_true_2.
Qed.

Lemma read_ok c fl p a : table_ok c fl p -> a < theNameCount p ->
  table_ok c (fl ++ [Read a (newest c fl a)]) p.
Proof.
  intros Ok Ha. set (l := fl ++ [Read a (newest c fl a)]).
  assert (Hw : written l = written fl) by (unfold l, written; by rewrite omap_app, app_nil_r).
  assert (Hs : forall b, writers l b = writers fl b) by (intros; unfold l; by rewrite writers_app, app_nil_r).
  assert (Hn : news l = news fl) by (unfold l; by rewrite news_app, app_nil_r).
  assert (Hc : newest c l = newest c fl) by (unfold l; by rewrite newest_app).
  destruct Ok. split; rewrite ?Hw, ?Hn, ?Hc; try done.
  - intros. rewrite Hs. auto.
  - intros b r q [H|H%list_elem_of_singleton]%elem_of_app; [eauto|done].
  - apply linked_app. by split.
Qed.

(** The reads at the end can be forgotten. *)
Lemma table_drop_reads c l1 l2 p : table_ok c (l1 ++ l2) p -> table_ok c (l1 ++ only_writes l2) p.
Proof.
  intros []. split; rewrite ?written_app, ?written_only_writes, ?news_app, ?news_only_writes,
    <- ?written_app, <- ?news_app; try done.
  - intros a Ha. by rewrite newest_app, newest_only_writes, <- newest_app, ok_mappings0.
  - intros a Ha. by rewrite writers_app, writers_only_writes, <- writers_app, ok_assigned0.
  - intros a r q [H|H]%elem_of_app; eapply ok_flying0; rewrite elem_of_app; [by left|right].
    apply list_elem_of_omap in H as (i & Hi & Ei). destruct i; by simplify_eq.
  - apply linked_app in ok_linked0 as [H1 H2]. apply linked_app. split; [done|by apply linked_only_writes].
Qed.

(** So can one at the front. *)
Lemma table_skip_read c a r fl p : table_ok c (Read a r :: fl) p -> table_ok c fl p.
Proof.
  intros []. split; try done.
  - intros b x q H. eapply ok_flying0. by right.
  - by destruct ok_linked0.
Qed.

Lemma create_ok c fl p a r : table_ok c fl p -> a < theNameCount p -> head (theFreeList p) = Some r ->
  exists p', create a p = Done ((r, newest c fl a), p') /\
  table_ok c (fl ++ [Write a r (newest c fl a)]) p' /\
  theNameCount p' = theNameCount p /\ theRegisterCount p' = theRegisterCount p /\
  theFreeList p = r :: theFreeList p'.
Proof.
  intros Ok Ha Hr. destruct (theFreeList p) as [|r' rest] eqn:Hf; [done|]. cbn in Hr. simplify_eq.
  assert (Hin : r ∈ theFreeList p) by (rewrite Hf; by left).
  pose proof (table_NoDup Ok) as Hd. rewrite Hf in Hd. cbn in Hd. apply NoDup_cons in Hd as [Hnew _].
  assert (Hlt : r < length (theReverseMappings p)).
  { apply lookup_lt_is_Some. rewrite (ok_unused _ _ _ Ok r Hin). by eexists. }
  eexists. split; [|split; [|split; [|split]]].
  - unfold create. run_map. rewrite (ok_mapped _ _ _ Ok), bool_decide_eq_true_2 by done.
    rewrite (ok_mappings _ _ _ Ok a Ha), Hf. cbn [front]. run_map.
    rewrite (ok_assigned _ _ _ Ok a Ha). rewrite (ok_unused _ _ _ Ok r Hin). reflexivity.
  - set (l := fl ++ _). assert (Hc : newest c l = upd (newest c fl) a r) by (unfold l; by rewrite newest_app).
    assert (Hl : forall b, writers l b = writers fl b ++ (if decide (a = b) then [r] else [])).
    { intros b. unfold l. rewrite writers_app. f_equal. cbn. by case_decide. }
    pose proof (ok_mapped _ _ _ Ok) as E1. pose proof (ok_lists _ _ _ Ok) as E2.
    split; cbn; rewrite ?length_insert; try done.
    + intros b. unfold l, written. rewrite omap_app, elem_of_app. intros [H|H%list_elem_of_singleton]; subst; [|done].
      by apply (ok_names _ _ _ Ok).
    + intros b Hb. rewrite Hc. unfold upd. case_decide; subst.
      * apply list_lookup_insert_eq; lia.
      * rewrite list_lookup_insert_ne by done. by apply (ok_mappings _ _ _ Ok).
    + intros b Hb. rewrite Hl. case_decide; subst.
      * apply list_lookup_insert_eq; lia.
      * rewrite list_lookup_insert_ne, app_nil_r by done. by apply (ok_assigned _ _ _ Ok).
    + intros b Hb. rewrite list_lookup_insert_ne; [by apply (ok_committed _ _ _ Ok)|].
      intros ->. apply Hnew. rewrite !elem_of_app. right; left. apply list_elem_of_fmap_2, elem_of_seq. lia.
    + intros b x q [H|H%list_elem_of_singleton]%elem_of_app.
      * rewrite list_lookup_insert_ne; [by eapply ok_flying|]. intros ->. apply Hnew.
        rewrite !elem_of_app. right; right. apply elem_of_news. eauto.
      * injection H as -> -> ->. by apply list_lookup_insert_eq.
    + intros x Hx. rewrite list_lookup_insert_ne; [apply (ok_unused _ _ _ Ok); rewrite Hf; by right|].
      intros ->. apply Hnew. rewrite !elem_of_app. by left.
    + rewrite <- (ok_all _ _ _ Ok), Hf. unfold l. rewrite news_app. cbn. solve_Permutation.
    + apply linked_app. split; [apply (ok_linked _ _ _ Ok)|done].
  - done.
  - done.
  - done.
Qed.

Lemma fmap_upd c a r l : NoDup l -> a ∈ l -> c a :: (upd c a r <$> l) ≡ₚ r :: (c <$> l).
Proof.
  intros Hd Ha. apply list_elem_of_split in Ha as (l1 & l2 & ->).
  apply NoDup_app in Hd as (_ & H1 & Hd). apply NoDup_cons in Hd as [H2 _].
  assert (Hs : forall k : list nat, a ∉ k -> upd c a r <$> k = c <$> k).
  { intros k Hk. apply list_fmap_ext. intros i x Hx. apply upd_other. intros ->.
    by apply Hk, (list_elem_of_lookup_2 _ i). }
  rewrite !fmap_app, !fmap_cons, upd_same, !Hs; [solve_Permutation|done|].
  intros H. apply (H1 _ H). by left.
Qed.

Lemma erase_first_mid r l1 l2 : r ∉ l1 -> erase_first r (l1 ++ r :: l2) = Some (l1 ++ l2).
Proof.
  induction l1 as [|x l1 IH]; cbn; [by rewrite decide_True|]. rewrite not_elem_of_cons. intros [H1 H2].
  rewrite decide_False, IH; by try congruence.
Qed.

(** What [free] does when its assertions hold. *)
Lemma free_computed p r a current l1 l2 :
  theReverseMappings p !! r = Some (Z.of_nat a) -> theMappings p !! a = Some current -> current <> r ->
  theAssignedRegisters p !! a = Some (l1 ++ r :: l2) -> r ∉ l1 ->
  free r p = Done ((), set_assigned (<[a := l1 ++ l2]> (theAssignedRegisters p))
    (set_reverse (<[r := (-1)%Z]> (theReverseMappings p)) (set_free (theFreeList p ++ [r]) p))).
Proof.
  intros Hrev Hmap Hne Has Hl1. pose proof (lookup_lt_Some _ _ _ Has) as Hlt.
  unfold free. run_map. rewrite Hrev, Nat2Z.id.
  rewrite (proj2 (Z.leb_le 0 (Z.of_nat a))), (proj2 (Z.ltb_lt _ _)) by lia. cbn [andb].
  rewrite Hmap, (proj2 (Nat.eqb_neq _ _) Hne). cbn [negb]. rewrite Has.
  rewrite length_app. cbn [length]. rewrite Nat.add_succ_r. cbn [Nat.eqb negb].
  by rewrite erase_first_mid.
Qed.

(** The oldest write retires: its register becomes the committed one. *)
Lemma retire_ok c fl p a r q : table_ok c (Write a r q :: fl) p ->
  exists p', free q p = Done ((), p') /\ table_ok (upd c a r) fl p' /\
  theNameCount p' = theNameCount p /\ theRegisterCount p' = theRegisterCount p /\
  theFreeList p' = theFreeList p ++ [q].
Proof.
  intros Ok. assert (Ha : a < theNameCount p) by (apply (ok_names _ _ _ Ok); by left).
  destruct (ok_linked _ _ _ Ok) as [-> Hl].
  pose proof (assigned_NoDup Ok a Ha) as Hd. pose proof (committed_used Ok a Ha) as [_ Hnn].
  assert (Hw : writers (Write a r (c a) :: fl) a = r :: writers fl a) by (unfold writers; cbn; by rewrite decide_True).
  rewrite Hw in Hd.
  assert (Hne : newest c (Write a r (c a) :: fl) a <> c a).
  { destruct (newest_cases c (Write a r (c a) :: fl) a) as [[_ H]|[l H]]; [by rewrite Hw in H|].
    intros E. apply NoDup_cons in Hd as [Hd _]. apply Hd. rewrite <- Hw, H, E, elem_of_app. right. by left. }
  eexists. split; [|split; [|split; [|split]]].
  - eapply (free_computed p (c a) a _ []); [by apply (ok_committed _ _ _ Ok)|by apply (ok_mappings _ _ _ Ok)
    |done|by apply (ok_assigned _ _ _ Ok)|apply not_elem_of_nil].
  - pose proof (ok_mapped _ _ _ Ok) as E1. pose proof (ok_lists _ _ _ Ok) as E2.
    assert (Hold : forall b, b ∈ news (Write a r (c a) :: fl) -> b <> c a) by (intros b Hb ->; done).
    split; cbn; rewrite ?length_insert; try done.
    + intros b Hb. apply (ok_names _ _ _ Ok). by right.
    + intros b Hb. by rewrite (ok_mappings _ _ _ Ok).
    + intros b Hb. destruct (decide (b = a)) as [->|D].
      * rewrite upd_same, list_lookup_insert_eq by lia. cbn. by rewrite decide_True.
      * rewrite upd_other, list_lookup_insert_ne, (ok_assigned _ _ _ Ok) by done. unfold writers; cbn.
        by rewrite decide_False.
    + intros b Hb. destruct (decide (b = a)) as [->|D].
      * rewrite upd_same, list_lookup_insert_ne by (apply not_eq_sym, Hold; by left).
        eapply (ok_flying _ _ _ Ok). by left.
      * rewrite upd_other, list_lookup_insert_ne; [by apply (ok_committed _ _ _ Ok)| |done].
        intros E. apply D. symmetry. by apply (committed_inj Ok).
    + intros b x y Hb. rewrite list_lookup_insert_ne; [eapply (ok_flying _ _ _ Ok); by right|].
      apply not_eq_sym, Hold. right. apply elem_of_news. eauto.
    + intros x [Hx| ->%list_elem_of_singleton]%elem_of_app.
      * rewrite list_lookup_insert_ne; [by apply (ok_unused _ _ _ Ok)|]. intros <-. by destruct (committed_used Ok a Ha).
      * apply list_lookup_insert_eq, lookup_lt_is_Some. rewrite (ok_committed _ _ _ Ok a Ha). by eexists.
    + rewrite <- (ok_all _ _ _ Ok). rewrite <- (assoc (++)). cbn. apply (inj (app (theFreeList p))).
      change (c a :: (upd c a r <$> seq 0 (theNameCount p)) ++ news fl) with
        ((c a :: (upd c a r <$> seq 0 (theNameCount p))) ++ news fl).
      rewrite fmap_upd by (apply NoDup_seq || (apply elem_of_seq; lia)). solve_Permutation.
  - done.
  - done.
  - done.
Qed.

(** What follows a squashed write has its own names. *)
Definition apart (a : nat) (l : list item) : Prop :=
  forall i, i ∈ l -> match i with Read b _ | Write b _ _ => b <> a end.

Lemma apart_written a l : apart a l -> a ∉ written l.
Proof.
  intros H Hw. apply list_elem_of_omap in Hw as ([b x|b x y] & Hi & E); simplify_eq.
  by apply (H _ Hi).
Qed.

Section squash.
Context {c : nat -> nat} {l1 l2 : list item} {p : PhysicalMap} {a r q : nat}.
Context (Ok : table_ok c (l1 ++ Write a r q :: l2) p) (Hl2 : apart a l2).

Lemma squash_in : Write a r q ∈ l1 ++ Write a r q :: l2.
Proof. rewrite elem_of_app. right. by left. Qed.

Lemma squash_name : a < theNameCount p.
Proof. apply (ok_names _ _ _ Ok), list_elem_of_omap. exists (Write a r q). by split; [apply squash_in|]. Qed.

Lemma squash_writers b : writers (l1 ++ Write a r q :: l2) b =
  if decide (b = a) then writers (l1 ++ l2) b ++ [r] else writers (l1 ++ l2) b.
Proof.
  rewrite !writers_app. destruct (decide (b = a)) as [->|D]; unfold writers at 2; cbn.
  - rewrite decide_True by done. rewrite (writers_other l2) by by apply apart_written.
    fold (writers l2 a). rewrite (writers_other l2) by by apply apart_written. by rewrite app_nil_r.
  - by rewrite decide_False.
Qed.

Lemma squash_news : news (l1 ++ Write a r q :: l2) ≡ₚ r :: news (l1 ++ l2).
Proof. rewrite !news_app. cbn. fold (news l2). solve_Permutation. Qed.

Lemma squash_linked : linked c (l1 ++ l2) /\ q = newest c l1 a.
Proof.
  pose proof (ok_linked _ _ _ Ok) as Hl. apply linked_app in Hl as [H1 [Hq H2]]. split; [|done].
  apply linked_app. split; [done|]. eapply linked_ext; [|done]. intros i Hi. specialize (Hl2 i Hi).
  destruct i; by apply upd_other.
Qed.

Lemma squash_newest b : newest c (l1 ++ l2) b =
  if decide (b = a) then q else newest c (l1 ++ Write a r q :: l2) b.
Proof.
  destruct squash_linked as [_ ->]. rewrite !newest_app. case_decide as D; subst.
  - by apply newest_other, apart_written.
  - cbn. fold (newest (upd (newest c l1) a (newest c l1 a)) l2). apply newest_ext. by rewrite upd_other.
Qed.

Lemma squash_assigned : c a :: writers (l1 ++ Write a r q :: l2) a = (c a :: writers (l1 ++ l2) a) ++ [r].
Proof. rewrite squash_writers. by rewrite decide_True. Qed.

Lemma squash_fresh : r ∉ c a :: writers (l1 ++ l2) a.
Proof.
  pose proof (assigned_NoDup Ok a squash_name) as Hd. rewrite squash_assigned in Hd.
  apply NoDup_app in Hd as (_ & Hd & _). intros Hr. apply (Hd _ Hr). by left.
Qed.

Lemma squash_previous : q <> r.
Proof.
  intros Eq. apply squash_fresh. rewrite <- Eq. pose proof (squash_newest a) as E. rewrite decide_True in E by done.
  destruct (newest_cases c (l1 ++ l2) a) as [[H _]|[l H]]; rewrite E in H; [rewrite H; by left|].
  right. rewrite H, elem_of_app. right. by left.
Qed.

Lemma squash_others x : x ∈ theFreeList p \/ x ∈ news (l1 ++ l2) -> x <> r.
Proof.
  intros Hx Eq. destruct Hx as [Hx|Hx]; rewrite Eq in Hx.
  - apply (news_used Ok r); [|done]. rewrite squash_news. by left.
  - pose proof (table_NoDup Ok) as H. apply NoDup_app in H as (_ & _ & H). apply NoDup_app in H as (_ & _ & H).
    rewrite squash_news in H. by apply NoDup_cons in H as [H _].
Qed.

Lemma squash_described :
  table_ok c (l1 ++ l2) (mkMap (theNameCount p) (theRegisterCount p) (<[a := q]> (theMappings p))
    (theFreeList p ++ [r]) (<[a := c a :: writers (l1 ++ l2) a]> (theAssignedRegisters p))
    (<[r := (-1)%Z]> (theReverseMappings p))).
Proof.
  pose proof (ok_mapped _ _ _ Ok) as E1. pose proof (ok_lists _ _ _ Ok) as E2. pose proof squash_name as Ha.
  split; cbn; rewrite ?length_insert; try done.
  - intros b Hb. apply (ok_names _ _ _ Ok). unfold written in *. rewrite omap_app, elem_of_app in *.
    destruct Hb; [by left|right; by right].
  - intros b Hb. rewrite squash_newest. case_decide; subst; [apply list_lookup_insert_eq; lia|].
    rewrite list_lookup_insert_ne by done. by apply (ok_mappings _ _ _ Ok).
  - intros b Hb. destruct (decide (b = a)) as [->|D]; [apply list_lookup_insert_eq; lia|].
    rewrite list_lookup_insert_ne, (ok_assigned _ _ _ Ok), squash_writers by done. by rewrite decide_False.
  - intros b Hb. rewrite list_lookup_insert_ne; [by apply (ok_committed _ _ _ Ok)|]. intros Eq.
    apply (committed_used Ok b Hb). rewrite <- Eq.
    rewrite squash_news. by left.
  - intros b x y Hb. rewrite list_lookup_insert_ne.
    + eapply (ok_flying _ _ _ Ok). apply elem_of_app in Hb as [Hb|Hb]; rewrite elem_of_app; [by left|right; by right].
    + apply not_eq_sym, squash_others. right. apply elem_of_news. eauto.
  - intros x [Hx|Hx%list_elem_of_singleton]%elem_of_app.
    + rewrite list_lookup_insert_ne; [by apply (ok_unused _ _ _ Ok)|]. apply not_eq_sym, squash_others. by left.
    + rewrite Hx. apply list_lookup_insert_eq, lookup_lt_is_Some. rewrite (ok_flying _ _ _ Ok a r q squash_in). by eexists.
  - rewrite <- (ok_all _ _ _ Ok), squash_news. solve_Permutation.
  - apply squash_linked.
Qed.

(** A write is squashed: the previous mapping comes back and its register is free. *)
Lemma squash_ok :
  exists p', (restore a q;; free r) p = Done ((), p') /\ table_ok c (l1 ++ l2) p' /\
  theNameCount p' = theNameCount p /\ theRegisterCount p' = theRegisterCount p /\
  theFreeList p' = theFreeList p ++ [r].
Proof.
  pose proof squash_name as Ha. pose proof (ok_mapped _ _ _ Ok) as E1.
  eexists. split; [|split; [|split; [|split]]].
  - unfold restore. run_map. rewrite (ok_mappings _ _ _ Ok a Ha). run_map.
    rewrite (free_computed _ r a q (c a :: writers (l1 ++ l2) a) []); [reflexivity|..]; cbn; try done.
    + eapply (ok_flying _ _ _ Ok), squash_in.
    + apply list_lookup_insert_eq; lia.
    + apply squash_previous.
    + rewrite (ok_assigned _ _ _ Ok a Ha). by rewrite squash_assigned.
    + apply squash_fresh.
  - rewrite app_nil_r. apply squash_described.
  - done.
  - done.
  - done.
Qed.
End squash.

(** ** The table's own check, and the first table *)

Lemma newest_reverse c fl p a : table_ok c fl p -> a < theNameCount p ->
  theReverseMappings p !! newest c fl a = Some (Z.of_nat a).
Proof.
  intros Ok Ha. destruct (newest_cases c fl a) as [[-> _]|[l Hl]]; [by apply (ok_committed _ _ _ Ok)|].
  destruct (proj1 (elem_of_writers fl a (newest c fl a))) as [q Hq]; [rewrite Hl, elem_of_app; right; by left|].
  by eapply (ok_flying _ _ _ Ok).
Qed.

Lemma newest_range c fl p a : table_ok c fl p -> a < theNameCount p -> newest c fl a < theRegisterCount p.
Proof.
  intros Ok Ha. apply (register_range Ok). right.
  destruct (newest_cases c fl a) as [[-> _]|[l Hl]].
  - left. apply list_elem_of_fmap_2, elem_of_seq. lia.
  - right. destruct (proj1 (elem_of_writers fl a (newest c fl a))) as [q Hq]; [rewrite Hl, elem_of_app; right; by left|].
    apply elem_of_news. eauto.
Qed.

Lemma mappings_elem c fl p r : table_ok c fl p -> r ∈ theMappings p ->
  exists a, a < theNameCount p /\ r = newest c fl a.
Proof.
  intros Ok [i Hi]%list_elem_of_lookup. pose proof (lookup_lt_Some _ _ _ Hi) as Hlt.
  rewrite (ok_mapped _ _ _ Ok) in Hlt. exists i. split; [done|].
  rewrite (ok_mappings _ _ _ Ok) in Hi by done. by simplify_eq.
Qed.

Lemma mappings_NoDup c fl p : table_ok c fl p -> NoDup (theMappings p ++ theFreeList p).
Proof.
  intros Ok. apply NoDup_app. split; [|split].
  - apply NoDup_alt. intros i j x Hi Hj.
    pose proof (lookup_lt_Some _ _ _ Hi) as Li. pose proof (lookup_lt_Some _ _ _ Hj) as Lj.
    rewrite (ok_mapped _ _ _ Ok) in Li, Lj. rewrite (ok_mappings _ _ _ Ok) in Hi, Hj by done.
    injection Hi as <-. injection Hj as Hj. pose proof (newest_reverse c fl p i Ok Li) as E.
    rewrite <- Hj, (newest_reverse c fl p j Ok Lj) in E. simplify_eq. lia.
  - intros x Hx. destruct (mappings_elem c fl p x Ok Hx) as (a & Ha & ->). by apply newest_used.
  - pose proof (table_NoDup Ok) as H. by apply NoDup_app in H as [H _].
Qed.

Lemma count_all_app {W} l1 l2 v (w : W) :
  count_all (l1 ++ l2) v w = (v' ← count_all l1 v; count_all l2 v') w.
Proof.
  revert v. induction l1 as [|r l1 IH]; intros v; [done|]. cbn. run_map.
  destruct (v !! r); cbn; [apply IH|done].
Qed.

Lemma count_all_once {W} l v (w : W) : NoDup l -> (forall r, r ∈ l -> v !! r = Some 0) -> Forall (fun k => k <= 1) v ->
  exists v', count_all l v w = Done (v', w) /\ Forall (fun k => k <= 1) v'.
Proof.
  revert v. induction l as [|r l IH]; intros v Hd Hz Hv; [by exists v|]. apply NoDup_cons in Hd as [Hr Hd].
  cbn. run_map. rewrite (Hz r) by by left. cbn. apply IH; [done| |].
  - intros x Hx. rewrite list_lookup_insert_ne; [apply Hz; by right|]. by intros ->.
  - apply Forall_insert; [done|lia].
Qed.

Lemma check_ok c fl p : table_ok c fl p -> checkInvariants p = Done (true, p).
Proof.
  intros Ok. destruct (count_all_once (theMappings p ++ theFreeList p)
    (replicate (theRegisterCount p) 0) p) as (v & Hv & Hle).
  - by eapply mappings_NoDup.
  - intros r [Hr|Hr]%elem_of_app; apply lookup_replicate_2.
    + destruct (mappings_elem c fl p r Ok Hr) as (a & Ha & ->). by apply newest_range.
    + apply (register_range Ok). by left.
  - apply Forall_replicate. lia.
  - rewrite count_all_app in Hv. unfold checkInvariants. revert Hv. run_map.
    destruct (count_all (theMappings p) _ p) as [[v1 w]|] eqn:E; [|done]. cbn. intros Hv.
    destruct (count_all (theFreeList p) v1 w) as [[v2 w2]|] eqn:E2; [|done]. cbn in *. simplify_eq.
    f_equal. f_equal. apply forallb_forall. intros k Hk%list_elem_of_In.
    apply Nat.leb_le. by apply (proj1 (Forall_forall _ _) Hle).
Qed.

Lemma new_table_ok n m : n <= m -> table_ok id [] (newPhysicalMap n m).
Proof.
  intros Hnm. unfold newPhysicalMap, map_reset. cbn.
  assert (Hrev : forall i, i < m -> ((fun i => if decide (i < n) then Z.of_nat i else (-1)%Z) <$> seq 0 m) !! i =
    Some (if decide (i < n) then Z.of_nat i else (-1)%Z)).
  { intros i Hi. rewrite list_lookup_fmap, lookup_seq_lt by done. done. }
  split; cbn; rewrite ?length_fmap, ?length_seq; try done.
  - intros a Ha. unfold written in Ha; cbn in Ha. by apply not_elem_of_nil in Ha.
  - intros a Ha. by rewrite lookup_seq_lt.
  - intros a Ha. rewrite list_lookup_fmap, lookup_seq_lt by done. done.
  - intros a Ha. rewrite Hrev by (unfold id; lia). by rewrite decide_True.
  - intros a r q Hx. by apply not_elem_of_nil in Hx.
  - intros r Hr%elem_of_seq. rewrite Hrev by lia. rewrite decide_False by lia. done.
  - rewrite list_fmap_id, app_nil_r. rewrite (Permutation_app_comm (seq n (m - n))).
    change (seq n (m - n)) with (seq (0 + n) (m - n)). rewrite <- (seq_app n (m - n) 0). by replace (n + (m - n)) with m by lia.
Qed.

(** ** A name written twice by one instruction

    The squash effects run in the order of the dispatch effects: the older write is
    undone first, so the newer one's previous register is free when it comes back. *)

Lemma count_all_value {W} l v (w : W) : Forall (fun r => r < length v) l ->
  exists v', count_all l v w = Done (v', w) /\ length v' = length v /\
  forall x k, v !! x = Some k -> v' !! x = Some (k + length (filter (fun y => y = x) l)).
Proof.
  intros F. revert v F. induction l as [|r l IH]; intros v F.
  { exists v. split_and!; [done|done|]. intros x k E. cbn. by rewrite Nat.add_0_r. }
  apply Forall_cons in F as [Hr F]. destruct (lookup_lt_is_Some_2 v r Hr) as [k Ek].
  destruct (IH (<[r := S k]> v)) as (v' & Ev & Hl & Hc); [by rewrite length_insert|].
  exists v'. split_and!; [|by rewrite Hl, length_insert|].
  - cbn. run_map. by rewrite Ek.
  - intros x j E. rewrite filter_cons. destruct (decide (r = x)) as [->|N].
    + rewrite (Hc x (S k)) by by apply list_lookup_insert_eq. cbn. f_equal. rewrite E in Ek. injection Ek as ->. lia.
    + rewrite (Hc x j); [done|]. by rewrite list_lookup_insert_ne.
Qed.

(** A register that is mapped and free makes the table's check fail. *)
Lemma check_twice p r : r ∈ theMappings p -> r ∈ theFreeList p ->
  Forall (fun x => x < theRegisterCount p) (theMappings p ++ theFreeList p) ->
  checkInvariants p = Done (false, p).
Proof.
  intros Hm Hf F. pose proof F as Fr. apply Forall_app in F as [F1 F2].
  destruct (count_all_value (theMappings p) (replicate (theRegisterCount p) 0) p) as (v1 & E1 & L1 & C1);
    [by rewrite length_replicate|]. rewrite length_replicate in L1.
  destruct (count_all_value (theFreeList p) v1 p) as (v2 & E2 & _ & C2); [by rewrite L1|].
  unfold checkInvariants. run_map. rewrite E1. cbv [mbind M_bind]. rewrite E2. f_equal. f_equal.
  rewrite Forall_forall in F2. specialize (F2 r Hf).
  pose proof (C1 r 0 (lookup_replicate_2 _ _ _ F2)) as K1. pose proof (C2 r _ K1) as K2. cbn in K2.
  assert (P : forall l : list nat, r ∈ l -> 1 <= length (filter (fun y => y = r) l)).
  { intros l Hl. assert (Hin : r ∈ filter (fun y => y = r) l) by by apply list_elem_of_filter.
    destruct (filter _ l); [by apply not_elem_of_nil in Hin|cbn; lia]. }
  pose proof (P _ Hm). pose proof (P _ Hf). apply not_true_iff_false. intros Hb. rewrite forallb_forall in Hb.
  specialize (Hb _ (proj1 (list_elem_of_In _ _) (list_elem_of_lookup_2 _ _ _ K2))). apply Nat.leb_le in Hb. lia.
Qed.

Lemma pair_squash_table c fl p a r1 r2 q q2 : table_ok c (fl ++ [Write a r1 q; Write a r2 q2]) p ->
  exists p1 p', (restore a q;; free r1) p = Done ((), p1) /\ (restore a q2;; free r2) p1 = Done ((), p') /\
  q2 = r1 /\ r1 <> r2 /\ theMappings p' !! a = Some r1 /\ theFreeList p' = theFreeList p ++ [r1; r2] /\
  checkInvariants p' = Done (false, p').
Proof.
  intros Ok. pose proof (ok_linked _ _ _ Ok) as Hl. apply linked_app in Hl as [_ (Eq & Eq2 & _)].
  rewrite upd_same in Eq2. subst q2.
  assert (W1 : Write a r1 q ∈ fl ++ [Write a r1 q; Write a r2 r1]) by set_solver.
  assert (W2 : Write a r2 r1 ∈ fl ++ [Write a r1 q; Write a r2 r1]) by set_solver.
  assert (Ha : a < theNameCount p).
  { apply (ok_names _ _ _ Ok), list_elem_of_omap. by exists (Write a r1 q). }
  assert (Hw : writers (fl ++ [Write a r1 q; Write a r2 r1]) a = writers fl a ++ [r1; r2]).
  { rewrite writers_app. f_equal. cbn. by rewrite !decide_True. }
  pose proof (assigned_NoDup Ok a Ha) as Hd. pose proof (ok_assigned _ _ _ Ok a Ha) as Has. rewrite Hw in Hd, Has.
  rewrite app_comm_cons in Hd, Has. set (l := c a :: writers fl a) in *.
  apply NoDup_app in Hd as (_ & Hd & Hr%NoDup_cons). destruct Hr as [Hr _]. rewrite list_elem_of_singleton in Hr.
  assert (Hq : q ∈ l).
  { rewrite Eq. destruct (newest_cases c fl a) as [[-> _]|[l' E]]; [by left|]. right. rewrite E. set_solver. }
  assert (H1 : r1 ∉ l) by (intros K; apply (Hd _ K); by left). assert (H2 : r2 ∉ l) by (intros K; apply (Hd _ K); set_solver).
  pose proof (ok_flying _ _ _ Ok _ _ _ W1) as V1. pose proof (ok_flying _ _ _ Ok _ _ _ W2) as V2.
  pose proof (ok_mapped _ _ _ Ok) as Lm. pose proof (ok_lists _ _ _ Ok) as La.
  pose proof (lookup_lt_Some _ _ _ V1) as Lr.
  set (p0 := set_mappings (<[a := q]> (theMappings p)) p).
  assert (F1 : free r1 p0 = Done ((), set_assigned (<[a := l ++ [r2]]> (theAssignedRegisters p0))
    (set_reverse (<[r1 := (-1)%Z]> (theReverseMappings p0)) (set_free (theFreeList p0 ++ [r1]) p0)))).
  { apply (free_computed p0 r1 a q l [r2]); [done|cbn; apply list_lookup_insert_eq; lia|by intros ->|done|done]. }
  set (p1 := set_assigned _ _) in F1. set (p2 := set_mappings (<[a := r1]> (theMappings p1)) p1).
  assert (F2 : free r2 p2 = Done ((), set_assigned (<[a := l ++ []]> (theAssignedRegisters p2))
    (set_reverse (<[r2 := (-1)%Z]> (theReverseMappings p2)) (set_free (theFreeList p2 ++ [r2]) p2)))).
  { apply (free_computed p2 r2 a r1 l []); cbn; [by rewrite list_lookup_insert_ne
    |apply list_lookup_insert_eq; rewrite length_insert; lia|done|apply list_lookup_insert_eq; lia|done]. }
  set (p' := set_assigned _ _) in F2. exists p1, p'. split_and!; [| |done|done| | |].
  - unfold restore. run_map. by rewrite (ok_mappings _ _ _ Ok a Ha).
  - unfold restore. run_map. change (theMappings p1) with (<[a := q]> (theMappings p)).
    by rewrite list_lookup_insert_eq by lia.
  - cbn. apply list_lookup_insert_eq. rewrite length_insert. lia.
  - cbn. by rewrite <- (assoc (++)).
  - assert (Rg : forall r, r ∈ theFreeList p \/ r ∈ news (fl ++ [Write a r1 q; Write a r2 r1]) -> r < theRegisterCount p).
    { intros r Hr'. apply (register_range Ok). tauto. }
    assert (N1 : r1 < theRegisterCount p) by (apply Rg; right; apply elem_of_news; eauto).
    assert (N2 : r2 < theRegisterCount p) by (apply Rg; right; apply elem_of_news; eauto).
    assert (Nq : Forall (fun r => r < theRegisterCount p) (theMappings p)).
    { apply Forall_forall. intros r Hr'. destruct (mappings_elem _ _ _ _ Ok Hr') as (b & Hb & ->). by eapply newest_range. }
    apply (check_twice p' r1); cbn.
    + apply (list_elem_of_lookup_2 _ a), list_lookup_insert_eq. rewrite length_insert. lia.
    + set_solver.
    + rewrite list_insert_insert_eq. apply Forall_app. split; [by apply Forall_insert|].
      rewrite <- (assoc (++)). apply Forall_app. split; [|by repeat constructor].
      apply Forall_forall. intros r Hr'. apply Rg. by left.
Qed.
