(* ===== verification/RegisterFile.v ===== *)
(** * The register file and the bypass network of the core

    RegisterFile (components/uArchARM/RegisterFile.hpp): for each physical register
    its value, its status and the instructions that wait for it.  BypassNetwork
    (components/uArchARM/BypassNetwork.hpp): for each physical register the
    functions that take a value before it is written.

    The vectors that the code indexes by register type are functions of the type,
    and the parallel vectors of one register file are one vector of records.  What
    the two do to instructions - satisfy or squash a dependance, offer a value to a
    bypass function - is a list of calls in the order of the code. *)

From stdpp Require Import base list strings.
From Stdlib Require Import ZArith Lia.
From S2P Require Import Prelude RegisterMap.

Inductive eResourceStatus : Set := kReady | kUnmapped | kNotReady.
#[export] Instance eResourceStatus_eq_dec : EqDecision eResourceStatus.
Proof. solve_decision. Defined.

(** [boost::variant<int64_t, uint64_t, bits>]. *)
Inductive register_value : Set := Int64 (v : Z) | UInt64 (v : Z) | Bits (v : Z).
#[export] Instance register_value_eq_dec : EqDecision register_value.
Proof. solve_decision. Defined.

(** An instruction and one of its dependances. *)
Record InstructionDependance : Set := mkDep { instruction : Z; dependance : Z }.
(** An instruction and the function it connects to the bypass network. *)
Record bypass_handle : Set := mkHandle { handle_instruction : Z; handle_fn : Z }.

Inductive call : Set :=
  | Satisfied (d : InstructionDependance)
  | Squashed (d : InstructionDependance)
  | Bypassed (h : bypass_handle) (v : register_value).

Record Register : Set := mkRegister {
  theDependances : list InstructionDependance;
  theStatus : eResourceStatus;
  theReg : register_value;
  theCollectCount : Z }.

Definition set_dependances d r := mkRegister d (theStatus r) (theReg r) (theCollectCount r).
Definition set_theStatus s r := mkRegister (theDependances r) s (theReg r) (theCollectCount r).
Definition set_theReg v r := mkRegister (theDependances r) (theStatus r) v (theCollectCount r).
Definition set_count k r := mkRegister (theDependances r) (theStatus r) (theReg r) k.

Record Bypass : Set := mkBypass { theDeps : list bypass_handle; theCount : Z }.

(** A vector indexed by register type, with one element changed. *)
Definition tset {A} (t : eRegisterType) (x : A) (f : eRegisterType -> A) : eRegisterType -> A :=
  fun t' => if decide (t' = t) then x else f t'.

Lemma tset_same {A} t (x : A) f : tset t x f t = x.
Proof. unfold tset. by rewrite decide_True. Qed.
Lemma tset_other {A} t (x : A) f t' : t' <> t -> tset t x f t' = f t'.
Proof. intros. unfold tset. by rewrite decide_False. Qed.

(** The registers of each type, the bypass functions of each, and the calls made. *)
Record RegisterFile : Set := mkRF {
  theRegs : eRegisterType -> list Register;
  theBypassNetwork : eRegisterType -> list Bypass;
  theCalls : list call }.

Definition cell (r : reg) : M RegisterFile Register :=
  f ← gets id; elt (theRegs f (theType r)) (theIndex r).
Definition put_cell (r : reg) (x : Register) : M RegisterFile () :=
  modify (fun f => mkRF (tset (theType r) (<[theIndex r := x]> (theRegs f (theType r))) (theRegs f))
    (theBypassNetwork f) (theCalls f)).
Definition lookup_bypass (r : reg) : M RegisterFile Bypass :=
  f ← gets id; elt (theBypassNetwork f (theType r)) (theIndex r).
Definition put_bypass (r : reg) (x : Bypass) : M RegisterFile () :=
  modify (fun f => mkRF (theRegs f)
    (tset (theType r) (<[theIndex r := x]> (theBypassNetwork f (theType r))) (theBypassNetwork f)) (theCalls f)).
Definition called (cs : list call) : M RegisterFile () :=
  modify (fun f => mkRF (theRegs f) (theBypassNetwork f) (theCalls f ++ cs)).

(** [initialize] and [reset]; [BypassNetwork::reset]. *)
Definition fresh_register : Register := mkRegister [] kUnmapped (UInt64 0) 10.
Definition fresh_bypass : Bypass := mkBypass [] 10.
Definition initialize (aSizes : eRegisterType -> nat) : RegisterFile :=
  mkRF (fun t => replicate (aSizes t) fresh_register) (fun t => replicate (aSizes t) fresh_bypass) [].

Section register_file.
(** Whether an instruction is complete when the operation is called, and whether a
    bypass function takes a value. *)
Context (isComplete : Z -> bool) (accepts : bypass_handle -> register_value -> bool).

(** The loops that erase the dependances of complete instructions. *)
Definition uncollected (l : list InstructionDependance) : list InstructionDependance :=
  List.filter (fun d => negb (isComplete (instruction d))) l.

Definition collect (aReg : reg) : M RegisterFile () :=
  x ← cell aReg;
  let count := (theCollectCount x - 1)%Z in
  if (count <=? 0)%Z then put_cell aReg (set_dependances (uncollected (theDependances x)) (set_count 10 x))
  else put_cell aReg (set_count count x).

Definition collectAll : M RegisterFile () :=
  modify (fun f => mkRF (fun t => (fun x => set_dependances (uncollected (theDependances x)) (set_count 10 x))
    <$> theRegs f t) (theBypassNetwork f) (theCalls f)).

Definition map_register (aReg : reg) : M RegisterFile () :=
  x ← cell aReg; put_cell aReg (set_theStatus kNotReady x);;
  dbg_assert (length (theDependances x) =? 0) "map: dependances".

Definition squash_register (aReg : reg) : M RegisterFile () :=
  x ← cell aReg;
  (if decide (theStatus x <> kUnmapped) then put_cell aReg (set_theStatus kNotReady x) else mret ());;
  called (Squashed <$> theDependances x).

Definition unmap_register (aReg : reg) : M RegisterFile () :=
  x ← cell aReg; put_cell aReg (set_dependances [] (set_theStatus kUnmapped x)).

Definition status (aReg : reg) : M RegisterFile eResourceStatus := x ← cell aReg; mret (theStatus x).

Definition setStatus (aReg : reg) (aStatus : eResourceStatus) : M RegisterFile () :=
  x ← cell aReg; put_cell aReg (set_theStatus aStatus x).

Definition request (aReg : reg) (aDependance : InstructionDependance) : M RegisterFile eResourceStatus :=
  collect aReg;;
  x ← cell aReg;
  put_cell aReg (set_dependances (theDependances x ++ [aDependance]) x);;
  mret (theStatus x).

(** [boost::get<uint64_t>] throws for the other types. *)
Definition get_uint64 (v : register_value) : M RegisterFile Z :=
  match v with UInt64 x => mret x | _ => dbg_fail "bad_get" end.

(** The masked old value is computed and then overwritten. *)
Definition poke (aReg : reg) (aValue : register_value) (isW : bool) : M RegisterFile () :=
  x ← cell aReg;
  if isW then
    val ← get_uint64 (theReg x);
    let res := Z.land val (Z.shiftl (Z.ones 32) 32) in
    v ← get_uint64 aValue;
    let res := Z.land v (Z.ones 32) in
    put_cell aReg (set_theReg (UInt64 res) x)
  else put_cell aReg (set_theReg aValue x).

Definition peek (aReg : reg) : M RegisterFile register_value := x ← cell aReg; mret (theReg x).

Definition read (aReg : reg) : M RegisterFile register_value :=
  x ← cell aReg; dbg_assert (bool_decide (theStatus x = kReady)) "read: not ready";; peek aReg.

Definition write (aReg : reg) (aValue : register_value) (isW : bool) : M RegisterFile () :=
  poke aReg aValue isW;;
  x ← cell aReg;
  put_cell aReg (set_dependances (uncollected (theDependances x)) (set_theStatus kReady x));;
  called (Satisfied <$> uncollected (theDependances x)).

(** ** The bypass network *)

Definition doCollect (l : list bypass_handle) : list bypass_handle :=
  List.filter (fun h => negb (isComplete (handle_instruction h))) l.

Definition collect_bypass (anIndex : reg) : M RegisterFile () :=
  x ← lookup_bypass anIndex;
  let count := (theCount x - 1)%Z in
  if (count <=? 0)%Z then put_bypass anIndex (mkBypass (doCollect (theDeps x)) 10)
  else put_bypass anIndex (mkBypass (theDeps x) count).

Definition collectAll_bypass : M RegisterFile () :=
  modify (fun f => mkRF (theRegs f) (fun t => (fun x => mkBypass (doCollect (theDeps x)) 10) <$> theBypassNetwork f t)
    (theCalls f)).

Definition connect (anIndex : reg) (h : bypass_handle) : M RegisterFile () :=
  collect_bypass anIndex;;
  x ← lookup_bypass anIndex; put_bypass anIndex (mkBypass (theDeps x ++ [h]) (theCount x)).

Definition unmap_bypass (anIndex : reg) : M RegisterFile () :=
  x ← lookup_bypass anIndex; put_bypass anIndex (mkBypass [] (theCount x)).

Definition write_bypass (anIndex : reg) (aValue : register_value) : M RegisterFile () :=
  x ← lookup_bypass anIndex;
  called ((fun h => Bypassed h aValue) <$> theDeps x);;
  put_bypass anIndex (mkBypass (List.filter (fun h => negb (accepts h aValue)) (theDeps x)) (theCount x)).

(** ** The core's operations on registers (CoreModel/registers.cpp) *)

Definition mapRegister (aRegister : reg) : M RegisterFile () :=
  s ← status aRegister; dbg_assert (bool_decide (s = kUnmapped)) "mapRegister: mapped";; map_register aRegister.

Definition unmapRegister (aRegister : reg) : M RegisterFile () :=
  s ← status aRegister; dbg_assert (bool_decide (s <> kUnmapped)) "unmapRegister: unmapped";;
  unmap_register aRegister;; unmap_bypass aRegister.

Definition initializeRegister (aRegister : reg) (aValue : register_value) : M RegisterFile () :=
  poke aRegister aValue false;; setStatus aRegister kReady.

Definition copyRegValue (aSource aDest : reg) : M RegisterFile () :=
  v ← peek aSource; poke aDest v false.
End register_file.
