(* ===== verification/Renaming.v ===== *)
(** * Register renaming in the core

    How instructions use the map tables and the register file: the effects that the
    decoder gives an instruction (components/armDecoder/Effects.cpp), the core's
    [map], [create], [free] and [restore] (CoreModel/registers.cpp), and the reorder
    buffer through which instructions are dispatched, retired and squashed
    (CoreModel/dispatch.cpp, CoreModel/cycle.cpp).

    The queries of the retirement loop that decide when the oldest instruction may
    retire are not modelled: any instruction at the head may. *)

From stdpp Require Import base list strings.
From Stdlib Require Import ZArith Lia.
From S2P Require Import Prelude RegisterMap RegisterFile.

(** ** Instructions *)

(** The operand codes that hold register names and mappings. *)
Inductive eOperandCode : Set :=
  | kRS1 | kRS2 | kRS3 | kRS4 | kRS5 | kCCs
  | kRD | kRD1 | kRD2 | kCCd
  | kPS1 | kPS2 | kPS3 | kPS4 | kPS5 | kCCps
  | kPD | kPD1 | kPD2 | kCCpd
  | kPPD | kPPD1 | kPPD2 | kPCCpd.
#[export] Instance eOperandCode_eq_dec : EqDecision eOperandCode.
Proof. solve_decision. Defined.

Inductive Operand : Set := OpReg (r : reg) | OpMapped (r : reg).

Inductive Effect : Set :=
  | MapSourceEffect (theInputCode theOutputCode : eOperandCode)
  | FreeMappingEffect (theMappingCode : eOperandCode)
  | RestoreMappingEffect (theNameCode theMappingCode : eOperandCode)
  | MapDestinationEffect (theInputCode theOutputCode thePreviousMappingCode : eOperandCode) (theSquashEffects : bool).

Record Instruction : Set := mkInstruction {
  theOperands : eOperandCode -> option Operand;
  theDispatchEffects : list Effect;
  theRetirementEffects : list Effect;
  theSquashEffects : list Effect;
  theRetired : bool;
  theSquashed : bool }.

Definition setOperand (code : eOperandCode) (o : Operand) (i : Instruction) : Instruction :=
  mkInstruction (fun k => if decide (k = code) then Some o else theOperands i k)
    (theDispatchEffects i) (theRetirementEffects i) (theSquashEffects i) (theRetired i) (theSquashed i).
Definition addRetirementEffect (e : Effect) (i : Instruction) : Instruction :=
  mkInstruction (theOperands i) (theDispatchEffects i) (theRetirementEffects i ++ [e]) (theSquashEffects i)
    (theRetired i) (theSquashed i).
Definition addSquashEffect (e : Effect) (i : Instruction) : Instruction :=
  mkInstruction (theOperands i) (theDispatchEffects i) (theRetirementEffects i) (theSquashEffects i ++ [e])
    (theRetired i) (theSquashed i).
Definition addDispatchEffect (e : Effect) (i : Instruction) : Instruction :=
  mkInstruction (theOperands i) (theDispatchEffects i ++ [e]) (theRetirementEffects i) (theSquashEffects i)
    (theRetired i) (theSquashed i).
Definition set_retired (i : Instruction) : Instruction :=
  mkInstruction (theOperands i) (theDispatchEffects i) (theRetirementEffects i) (theSquashEffects i)
    true (theSquashed i).
Definition set_squashed (i : Instruction) : Instruction :=
  mkInstruction (theOperands i) (theDispatchEffects i) (theRetirementEffects i) (theSquashEffects i)
    (theRetired i) true.

(** ** The core *)

Record Core : Set := mkCore {
  theWindowMap : RegisterWindowMap;
  theMapTables : eRegisterType -> PhysicalMap;
  theRegisters : RegisterFile;
  theROB : list Instruction;
  theSRB : list Instruction;
  theROBSize : nat }.

Definition set_tables v s := mkCore (theWindowMap s) v (theRegisters s) (theROB s) (theSRB s) (theROBSize s).
Definition set_registers v s := mkCore (theWindowMap s) (theMapTables s) v (theROB s) (theSRB s) (theROBSize s).
Definition set_ROB v s := mkCore (theWindowMap s) (theMapTables s) (theRegisters s) v (theSRB s) (theROBSize s).
Definition set_SRB v s := mkCore (theWindowMap s) (theMapTables s) (theRegisters s) (theROB s) v (theROBSize s).

(** An operation of one map table, and one of the register file, in the core. *)
Definition mapTable {A} (t : eRegisterType) (m : M PhysicalMap A) : M Core A := fun s =>
  match m (theMapTables s t) with
  | Done (a, p) => Done (a, set_tables (tset t p (theMapTables s)) s)
  | Assert why => Assert why
  end.
Definition registers {A} (m : M RegisterFile A) : M Core A := fun s =>
  match m (theRegisters s) with
  | Done (a, f) => Done (a, set_registers f s)
  | Assert why => Assert why
  end.

(** [kxRegs_Total], [kvRegs] and [kccRegs], and the sizes of the register files. *)
Definition name_count (t : eRegisterType) : nat :=
  match t with xRegisters => Z.to_nat kTotalRegs | vRegisters => 64 | ccBits => 5 end.
Definition per_instruction (t : eRegisterType) : nat :=
  match t with xRegisters => 3 | vRegisters => 4 | ccBits => 2 end.
Definition reg_file_sizes (rob : nat) (t : eRegisterType) : nat := name_count t + per_instruction t * rob.

(** The part of the constructor and of [resetARM] that makes the tables and the
    register file. *)
Definition newCore (aROBSize : nat) : Core :=
  mkCore window_reset (fun t => newPhysicalMap (name_count t) (reg_file_sizes aROBSize t))
    (initialize (reg_file_sizes aROBSize)) [] [] aROBSize.

(** [restoreARMState] and [fillXRegisters] with [resetPSTATE]: the registers of the
    architectural state are initialised. *)
Fixpoint initialize_all (rs : list (reg * register_value)) : M Core () :=
  match rs with
  | [] => mret ()
  | (r, v) :: rs => registers (initializeRegister r v);; initialize_all rs
  end.
Definition restoreARMState (theGlobalRegs : nat -> Z) (theCCRegs : Z) : M Core () :=
  initialize_all (((fun i => (mkReg xRegisters i, UInt64 (theGlobalRegs i))) <$> seq 0 32)
    ++ [(mkReg ccBits 0, UInt64 theCCRegs)]).

Definition core_map (aReg : reg) : M Core reg :=
  s ← gets id;
  let r := rotate (theWindowMap s) aReg in
  i ← mapTable (theType r) (map_name (theIndex r)); mret (mkReg (theType r) i).

Definition core_create (aReg : reg) : M Core (reg * reg) :=
  s ← gets id;
  let r := rotate (theWindowMap s) aReg in
  x ← mapTable (theType r) (create (theIndex r));
  let first := mkReg (theType aReg) x.1 in
  let second := mkReg (theType aReg) x.2 in
  registers (mapRegister first);;
  st ← registers (status second);
  dbg_assert (bool_decide (st <> kUnmapped)) "create: previous register unmapped";;
  mret (first, second).

Definition core_free (aReg : reg) : M Core () :=
  mapTable (theType aReg) (free (theIndex aReg));; registers (unmapRegister aReg).

Definition core_restore (aName aReg : reg) : M Core () :=
  dbg_assert (bool_decide (theType aName = theType aReg)) "restore: type";;
  s ← gets id;
  let name := rotate (theWindowMap s) aName in
  mapTable (theType aName) (restore (theIndex name) (theIndex aReg)).

Definition readArchitecturalRegister (aRegister : reg) : M Core register_value :=
  i ← mapTable (theType aRegister) (mapArchitectural (theIndex aRegister));
  registers (peek (mkReg (theType aRegister) i)).

(** ** Effects *)

(** [operand<reg>] and [operand<mapped_reg>] throw on an operand of another type. *)
Definition operand_reg (code : eOperandCode) (i : Instruction) : M Core reg :=
  match theOperands i code with Some (OpReg r) => mret r | _ => dbg_fail "bad_get" end.
Definition operand_mapped (code : eOperandCode) (i : Instruction) : M Core reg :=
  match theOperands i code with Some (OpMapped r) => mret r | _ => dbg_fail "bad_get" end.

Definition invoke (e : Effect) (i : Instruction) : M Core Instruction :=
  match e with
  | MapSourceEffect theInputCode theOutputCode =>
      name ← operand_reg theInputCode i;
      mapped_name ← core_map name;
      mret (setOperand theOutputCode (OpMapped mapped_name) i)
  | FreeMappingEffect theMappingCode =>
      mapping ← operand_mapped theMappingCode i;
      core_free mapping;; mret i
  | RestoreMappingEffect theNameCode theMappingCode =>
      name ← operand_reg theNameCode i;
      mapping ← operand_mapped theMappingCode i;
      core_restore name mapping;; mret i
  | MapDestinationEffect theInputCode theOutputCode thePreviousMappingCode squash =>
      name ← operand_reg theInputCode i;
      x ← core_create name;
      let i := setOperand theOutputCode (OpMapped x.1) i in
      let i := setOperand thePreviousMappingCode (OpMapped x.2) i in
      (if decide (theType x.1 = ccBits) then registers (copyRegValue x.2 x.1) else mret ());;
      let i := addRetirementEffect (FreeMappingEffect thePreviousMappingCode) i in
      let i := if squash then
          addSquashEffect (FreeMappingEffect theOutputCode)
            (addSquashEffect (RestoreMappingEffect theInputCode thePreviousMappingCode) i)
        else i in
      mret i
  end.

(** [EffectChain::invoke]. *)
Fixpoint invoke_chain (es : list Effect) (i : Instruction) : M Core Instruction :=
  match es with [] => mret i | e :: es => i ← invoke e i; invoke_chain es i end.

Definition doDispatchEffects (i : Instruction) : M Core Instruction := invoke_chain (theDispatchEffects i) i.
Definition doRetirementEffects (i : Instruction) : M Core Instruction :=
  i ← invoke_chain (theRetirementEffects i) i; mret (set_retired i).
Definition squash (i : Instruction) : M Core Instruction :=
  invoke_chain (theSquashEffects (set_squashed i)) (set_squashed i).

(** ** How the decoder gives an instruction its operands (armSharedFunctions.cpp) *)

Definition newInstruction : Instruction := mkInstruction (fun _ => None) [] [] [] false false.

(** Operand numbers are 1 to 5; the decoder asserts it and passes constants. *)
Definition rs_code (anOpNumber : nat) : eOperandCode :=
  match anOpNumber with 1 => kRS1 | 2 => kRS2 | 3 => kRS3 | 4 => kRS4 | _ => kRS5 end.
Definition ps_code (anOpNumber : nat) : eOperandCode :=
  match anOpNumber with 1 => kPS1 | 2 => kPS2 | 3 => kPS3 | 4 => kPS4 | _ => kPS5 end.

Definition setRS (rs_code : eOperandCode) (rs : nat) := setOperand rs_code (OpReg (mkReg xRegisters rs)).
Definition setRD (rd : nat) := setOperand kRD (OpReg (mkReg xRegisters rd)).
Definition setRD1 (rd1 : nat) := setOperand kRD1 (OpReg (mkReg xRegisters rd1)).
Definition setRD2 (rd2 : nat) := setOperand kRD2 (OpReg (mkReg xRegisters rd2)).
Definition setCCS (rs_code : eOperandCode) (cc : nat) := setOperand rs_code (OpReg (mkReg ccBits cc)).
Definition setCCD (cc : nat) := setOperand kCCd (OpReg (mkReg ccBits cc)).

(** The part of each function that concerns the mapping of registers. *)
Definition addReadXRegister (anOpNumber rs : nat) (i : Instruction) : Instruction :=
  addDispatchEffect (MapSourceEffect (rs_code anOpNumber) (ps_code anOpNumber)) (setRS (rs_code anOpNumber) rs i).
Definition readRegister (anOpNumber rs : nat) (i : Instruction) : Instruction :=
  if rs =? 31 then i else addReadXRegister anOpNumber rs i.
Definition addReadCC (i : Instruction) : Instruction :=
  addDispatchEffect (MapSourceEffect kCCs kCCps) (setCCS kCCs 0 i).
Definition addSetCC (i : Instruction) : Instruction :=
  addDispatchEffect (MapDestinationEffect kCCd kCCpd kPCCpd true) (setCCD 0 i).
Definition addWriteback (addSquash : bool) (i : Instruction) : Instruction :=
  addDispatchEffect (MapDestinationEffect kRD kPD kPPD addSquash) i.
Definition addWriteback1 (addSquash : bool) (i : Instruction) : Instruction :=
  addDispatchEffect (MapDestinationEffect kRD1 kPD1 kPPD1 addSquash) i.
Definition addWriteback2 (addSquash : bool) (i : Instruction) : Instruction :=
  addDispatchEffect (MapDestinationEffect kRD2 kPD2 kPPD2 addSquash) i.
Definition addDestination (rd : nat) (setflags addSquash : bool) (i : Instruction) : Instruction :=
  let i := addWriteback addSquash (setRD rd i) in
  if setflags then addSetCC i else i.
Definition addDestination1 (rd : nat) (addSquash : bool) (i : Instruction) : Instruction :=
  addWriteback1 addSquash (setRD1 rd i).
Definition addDestination2 (rd : nat) (addSquash : bool) (i : Instruction) : Instruction :=
  addWriteback2 addSquash (setRD2 rd i).
Definition addPairDestination (rd rd1 : nat) (addSquash : bool) (i : Instruction) : Instruction :=
  addDestination1 rd1 addSquash (addDestination rd false addSquash i).

(** ** The reorder buffer *)

Definition availableROB (theInterruptSignalled theSpinning theSpinControlEnabled : bool) (theLSQCount : Z)
    (s : Core) : Z :=
  if theInterruptSignalled then 0
  else if theSpinning && theSpinControlEnabled && (0 <? theLSQCount)%Z then 0
  else Z.of_nat (theROBSize s) - Z.of_nat (length (theROB s)).

Definition dispatch (anInsn : Instruction) : M Core () :=
  i ← doDispatchEffects anInsn;
  modify (fun s => set_ROB (theROB s ++ [i]) s).

(** One turn of the loop of [retire]; [takeTrap] returns before it records a trap,
    so the head always leaves the buffer. *)
Definition retire : M Core () :=
  s ← gets id;
  match theROB s with
  | [] => mret ()
  | i :: rob =>
      i ← doRetirementEffects i;
      modify (fun s => set_SRB (theSRB s ++ [i]) (set_ROB rob s))
  end.

Definition commit : M Core () := modify (fun s => set_SRB (tail (theSRB s)) s).

Fixpoint squash_all (l : list Instruction) : M Core () :=
  match l with [] => mret () | i :: l => _ ← squash i; squash_all l end.

(** [theSquashInstruction] is the position [k] in the buffer. *)
Definition doSquash (k : nat) (theSquashInclusive : bool) : M Core () :=
  s ← gets id;
  if decide (k < length (theROB s)) then
    let erase := if theSquashInclusive then k else S k in
    squash_all (rev (drop erase (theROB s)));;
    modify (set_ROB (take erase (theROB s)))
  else mret ().
