(* ===== verification/RenamingInvariant.v ===== *)
(** * The renaming invariant

    Each register type of the core is described by the committed registers and the
    items in flight of its map table ([RegisterMap.table_ok]) together with its part
    of the register file: a free register is unmapped and nobody waits for it, a
    register that holds a committed value or a write in flight is mapped.  The
    core's operations keep the description and reach none of their assertions. *)

From stdpp Require Import base list sets strings.
From Stdlib Require Import ZArith Lia.
From S2P Require Import Prelude RegisterMap RegisterFile Renaming.

(** ** What an operation does to the register file *)

(** Only [r] may have changed, and it stays mapped if it was. *)
Record touches (r : reg) (f f' : RegisterFile) : Prop := {
  tc_regs : forall t, length (theRegs f' t) = length (theRegs f t);
  tc_bypass : forall t, length (theBypassNetwork f' t) = length (theBypassNetwork f t);
  tc_other : forall t i, mkReg t i <> r ->
    theRegs f' t !! i = theRegs f t !! i /\ theBypassNetwork f' t !! i = theBypassNetwork f t !! i;
}.

Definition is_mapped (f : RegisterFile) (r : reg) : Prop :=
  exists x, theRegs f (theType r) !! theIndex r = Some x /\ theStatus x <> kUnmapped.
Definition is_idle (f : RegisterFile) (r : reg) : Prop :=
  exists x b, theRegs f (theType r) !! theIndex r = Some x /\ theStatus x = kUnmapped /\ theDependances x = [] /\
  theBypassNetwork f (theType r) !! theIndex r = Some b /\ theDeps b = [].
(** The values are those of the integer registers. *)
Definition is_uint64 (v : register_value) : Prop := match v with UInt64 _ => True | _ => False end.
Definition holds_uint64 (f : RegisterFile) (r : reg) : Prop :=
  exists x, theRegs f (theType r) !! theIndex r = Some x /\ is_uint64 (theReg x).
Definition value_of (f : RegisterFile) (r : reg) : option register_value :=
  theReg <$> theRegs f (theType r) !! theIndex r.

Lemma touches_refl r f : touches r f f.
Proof. by split. Qed.
Lemma touches_trans r f f1 f2 : touches r f f1 -> touches r f1 f2 -> touches r f f2.
Proof.
  intros [H1 H2 H3] [K1 K2 K3]. split; intros; [by rewrite K1|by rewrite K2|].
  destruct (H3 t i) as [<- <-]; [done|]. by apply K3.
Qed.

Section touches.
Context {r : reg} {f : RegisterFile}.

Lemma put_cell_touches x : touches r f (mkRF (tset (theType r) (<[theIndex r := x]> (theRegs f (theType r))) (theRegs f))
  (theBypassNetwork f) (theCalls f)).
Proof.
  split; cbn; [|done|].
  - intros t. unfold tset. case_decide; [|done]. subst. by rewrite length_insert.
  - intros t i Hi. split; [|done]. unfold tset. case_decide; [|done]. subst.
    apply list_lookup_insert_ne. intros E. apply Hi. destruct r. cbn in *. by subst.
Qed.

Lemma put_bypass_touches x : touches r f (mkRF (theRegs f)
  (tset (theType r) (<[theIndex r := x]> (theBypassNetwork f (theType r))) (theBypassNetwork f)) (theCalls f)).
Proof.
  split; cbn; [done| |].
  - intros t. unfold tset. case_decide; [|done]. subst. by rewrite length_insert.
  - intros t i Hi. split; [done|]. unfold tset. case_decide; [|done]. subst.
    apply list_lookup_insert_ne. intros E. apply Hi. destruct r. cbn in *. by subst.
Qed.
End touches.

(** ** Rules for the operations of the register file *)

Lemma wp_cell r x (Q : Register -> RegisterFile -> Prop) f :
  theRegs f (theType r) !! theIndex r = Some x -> Q x f -> wp (cell r) Q f.
Proof. intros E H. unfold cell, wp. run_map. by rewrite E. Qed.

Lemma wp_lookup_bypass r b (Q : Bypass -> RegisterFile -> Prop) f :
  theBypassNetwork f (theType r) !! theIndex r = Some b -> Q b f -> wp (lookup_bypass r) Q f.
Proof. intros E H. unfold lookup_bypass, wp. run_map. by rewrite E. Qed.

(** What the register [r] holds after an operation on it. *)
Definition updated (r : reg) (f : RegisterFile) (P : Register -> Bypass -> Prop) (f' : RegisterFile) : Prop :=
  touches r f f' /\ exists x b, theRegs f' (theType r) !! theIndex r = Some x /\
  theBypassNetwork f' (theType r) !! theIndex r = Some b /\ P x b.

Section rules.
Context (isComplete : Z -> bool) (accepts : bypass_handle -> register_value -> bool).
Context (r : reg) (f : RegisterFile) (x : Register) (b : Bypass).
Context (Hx : theRegs f (theType r) !! theIndex r = Some x)
  (Hb : theBypassNetwork f (theType r) !! theIndex r = Some b).

Lemma updated_refl (P : Register -> Bypass -> Prop) : P x b -> updated r f P f.
Proof. intros. split; [apply touches_refl|]. eauto. Qed.

Lemma updated_cell x' (P : Register -> Bypass -> Prop) : P x' b -> wp (put_cell r x') (fun _ => updated r f P) f.
Proof.
  intros H. unfold put_cell. apply wp_modify. split; [apply put_cell_touches|].
  exists x', b. cbn. rewrite tset_same, list_lookup_insert_eq by by eapply lookup_lt_Some. done.
Qed.

Lemma updated_bypass b' (P : Register -> Bypass -> Prop) : P x b' -> wp (put_bypass r b') (fun _ => updated r f P) f.
Proof.
  intros H. unfold put_bypass. apply wp_modify. split; [apply put_bypass_touches|].
  exists x, b'. cbn. rewrite tset_same, list_lookup_insert_eq by by eapply lookup_lt_Some. done.
Qed.

Lemma updated_called cs P : updated r f P f -> wp (called cs) (fun _ => updated r f P) f.
Proof. intros [[H1 H2 H3] H]. unfold called. apply wp_modify. split; [by split|done]. Qed.
End rules.

(** Operations on one register, one after the other. *)
Lemma updated_bind {A B} r f (m : M RegisterFile A) (k : A -> M RegisterFile B) P (Q : B -> Register -> Bypass -> Prop) :
  wp m (fun a => updated r f (P a)) f ->
  (forall a f1 x b, theRegs f1 (theType r) !! theIndex r = Some x ->
    theBypassNetwork f1 (theType r) !! theIndex r = Some b -> P a x b ->
    wp (k a) (fun a' => updated r f1 (Q a')) f1) ->
  wp (m ≫= k) (fun a => updated r f (Q a)) f.
Proof.
  intros H1 H2. apply wp_bind. eapply wp_mono; [exact H1|]. intros a f1 [T (x & b & Hx & Hb & HP)].
  eapply wp_mono; [by eapply H2|]. intros a' f2 [T2 H]. split; [by eapply touches_trans|done].
Qed.

Ltac touch_cell :=
  apply wp_bind; eapply wp_cell; [eassumption|].
Ltac touch_bypass :=
  apply wp_bind; eapply wp_lookup_bypass; [eassumption|].
(** The next operation on the register, after which the register is described by [P]. *)
Ltac touch P :=
  eapply (updated_bind _ _ _ _ (fun _ => P)); [|intros ? ? ? ? ? ? ?].

Section operations.
Context (isComplete : Z -> bool) (accepts : bypass_handle -> register_value -> bool).
Context (r : reg) (f : RegisterFile) (x : Register) (b : Bypass).
Context (Hx : theRegs f (theType r) !! theIndex r = Some x)
  (Hb : theBypassNetwork f (theType r) !! theIndex r = Some b).

Lemma status_ok (Q : eResourceStatus -> RegisterFile -> Prop) : Q (theStatus x) f -> wp (status r) Q f.
Proof. intros H. unfold status. touch_cell. exact H. Qed.

Lemma mapRegister_ok : theStatus x = kUnmapped -> theDependances x = [] ->
  wp (mapRegister r) (fun _ => updated r f (fun x' b' => theStatus x' = kNotReady /\ theReg x' = theReg x)) f.
Proof.
  intros Hs Hd. unfold mapRegister. apply wp_bind, status_ok. rewrite Hs. cbn.
  apply wp_bind, wp_assert; [done|]. unfold map_register. touch_cell.
  touch (fun x' (b' : Bypass) => theStatus x' = kNotReady /\ theReg x' = theReg x).
  - eapply updated_cell; eauto.
  - apply wp_assert; [by rewrite Hd|]. by eapply updated_refl.
Qed.

Lemma unmapRegister_ok : theStatus x <> kUnmapped ->
  wp (unmapRegister r) (fun _ => updated r f (fun x' b' =>
    theStatus x' = kUnmapped /\ theDependances x' = [] /\ theDeps b' = [] /\ theReg x' = theReg x)) f.
Proof.
  intros Hs. unfold unmapRegister. apply wp_bind, status_ok. apply wp_bind, wp_assert; [by rewrite bool_decide_eq_true_2|].
  touch (fun x' (b' : Bypass) => theStatus x' = kUnmapped /\ theDependances x' = [] /\ theReg x' = theReg x).
  - unfold unmap_register. touch_cell. by eapply updated_cell.
  - unfold unmap_bypass. touch_bypass. eapply updated_bypass; try done. naive_solver.
Qed.

Lemma request_ok d : wp (request isComplete r d)
  (fun _ => updated r f (fun x' b' => theStatus x' = theStatus x /\ theReg x' = theReg x)) f.
Proof.
  unfold request. touch (fun x' (b' : Bypass) => theStatus x' = theStatus x /\ theReg x' = theReg x).
  - unfold collect. touch_cell. case_match; by eapply updated_cell.
  - touch_cell. touch (fun x' (b' : Bypass) => theStatus x' = theStatus x /\ theReg x' = theReg x).
    + by eapply updated_cell.
    + apply wp_ret. by eapply updated_refl.
Qed.

Lemma squash_register_ok : theStatus x <> kUnmapped -> wp (squash_register r)
  (fun _ => updated r f (fun x' b' => theStatus x' <> kUnmapped /\ theReg x' = theReg x)) f.
Proof.
  intros Hs. unfold squash_register. touch_cell.
  touch (fun x' (b' : Bypass) => theStatus x' <> kUnmapped /\ theReg x' = theReg x).
  - rewrite decide_True by done. by eapply updated_cell.
  - apply updated_called. by eapply updated_refl.
Qed.

Lemma poke_ok v isW : is_uint64 (theReg x) -> is_uint64 v -> wp (poke r v isW)
  (fun _ => updated r f (fun x' b' => theStatus x' = theStatus x /\ is_uint64 (theReg x') /\
    theDependances x' = theDependances x /\ (isW = false -> theReg x' = v))) f.
Proof.
  intros Ho Hv. unfold poke. touch_cell. destruct isW; [|by eapply updated_cell].
  destruct (theReg x); try done. destruct v; try done. cbn. by eapply updated_cell.
Qed.

Lemma write_ok v isW : is_uint64 (theReg x) -> is_uint64 v -> wp (write isComplete r v isW)
  (fun _ => updated r f (fun x' b' => theStatus x' = kReady /\ is_uint64 (theReg x'))) f.
Proof.
  intros Ho Hv. unfold write. eapply (updated_bind _ _ _ _ (fun _ x' b' => is_uint64 (theReg x'))).
  - eapply wp_mono; [by apply poke_ok|]. intros _ f' [T (x' & b' & ? & ? & ?)]. split; [done|]. naive_solver.
  - intros _ f1 x1 b1 H1 H2 H3. touch_cell. touch (fun x' (b' : Bypass) => theStatus x' = kReady /\ is_uint64 (theReg x')).
    + by eapply updated_cell.
    + apply updated_called. by eapply updated_refl.
Qed.

Lemma initialize_ok v : is_uint64 (theReg x) -> is_uint64 v -> wp (initializeRegister r v)
  (fun _ => updated r f (fun x' b' => theStatus x' = kReady /\ theReg x' = v)) f.
Proof.
  intros Ho Hv. unfold initializeRegister. eapply (updated_bind _ _ _ _ (fun _ x' b' => theReg x' = v)).
  - eapply wp_mono; [by apply poke_ok|]. intros _ f' [T (x' & b' & ? & ? & ?)]. split; [done|]. naive_solver.
  - intros _ f1 x1 b1 H1 H2 H3. unfold setStatus. touch_cell. by eapply updated_cell.
Qed.

Lemma copy_ok src y : theRegs f (theType src) !! theIndex src = Some y -> wp (copyRegValue src r)
  (fun _ => updated r f (fun x' b' => theStatus x' = theStatus x /\ theReg x' = theReg y)) f.
Proof.
  intros Hy. unfold copyRegValue, peek. apply wp_bind. touch_cell. apply wp_ret. unfold poke. touch_cell.
  by eapply updated_cell.
Qed.

Lemma connect_ok h : wp (connect isComplete r h) (fun _ => updated r f (fun x' b' => x' = x)) f.
Proof.
  unfold connect. touch (fun x' (b' : Bypass) => x' = x).
  - unfold collect_bypass. touch_bypass. case_match; by eapply updated_bypass.
  - subst. touch_bypass. by eapply updated_bypass.
Qed.

Lemma write_bypass_ok v : wp (write_bypass accepts r v) (fun _ => updated r f (fun x' b' => x' = x)) f.
Proof.
  unfold write_bypass. touch_bypass. touch (fun x' (b' : Bypass) => x' = x).
  - apply updated_called. by eapply updated_refl.
  - subst. by eapply updated_bypass.
Qed.
End operations.

(** ** The description of one register type *)

(** The names that instructions use: those of which the registers are initialised. *)
Definition used (t : eRegisterType) : nat := match t with xRegisters => 32 | vRegisters => 0 | ccBits => 1 end.

Lemma used_names t : used t <= name_count t.
Proof. destruct t; by apply Nat.leb_le. Qed.

Definition live (t : eRegisterType) (c : nat -> nat) (fl : list item) (r : nat) : Prop :=
  (exists a, a < used t /\ r = c a) \/ r ∈ news fl.

Record bank_ok (t : eRegisterType) (c : nat -> nat) (fl : list item) (rob : nat) (p : PhysicalMap)
    (f : RegisterFile) : Prop := {
  bk_table : table_ok c fl p;
  bk_names : theNameCount p = name_count t;
  bk_count : theRegisterCount p = reg_file_sizes rob t;
  bk_cells : length (theRegs f t) = reg_file_sizes rob t;
  bk_bypass : length (theBypassNetwork f t) = reg_file_sizes rob t;
  bk_used : forall a, a ∈ written fl -> a < used t;
  bk_idle : forall r, r ∈ theFreeList p -> is_idle f (mkReg t r);
  bk_live : forall r, live t c fl r -> is_mapped f (mkReg t r);
  bk_values : forall r, r < reg_file_sizes rob t -> holds_uint64 f (mkReg t r);
}.

Definition kept (P : reg -> Prop) (f f' : RegisterFile) : Prop := forall r, P r -> value_of f' r = value_of f r.

Section bank.
Context {t : eRegisterType} {c : nat -> nat} {fl : list item} {rob : nat} {p : PhysicalMap} {f : RegisterFile}.
Context (Ok : bank_ok t c fl rob p f).

Lemma live_range r : live t c fl r -> r < reg_file_sizes rob t.
Proof.
  intros H. rewrite <- (bk_count _ _ _ _ _ _ Ok). apply (register_range (bk_table _ _ _ _ _ _ Ok)). right.
  destruct H as [(a & Ha & ->)|H]; [left|by right]. apply list_elem_of_fmap_2, elem_of_seq.
  rewrite (bk_names _ _ _ _ _ _ Ok). pose proof (used_names t). lia.
Qed.

Lemma live_not_free r : live t c fl r -> r ∉ theFreeList p.
Proof.
  intros [(a & Ha & ->)|H]; [|by apply (news_used (bk_table _ _ _ _ _ _ Ok))].
  apply (committed_used (bk_table _ _ _ _ _ _ Ok)). rewrite (bk_names _ _ _ _ _ _ Ok). pose proof (used_names t). lia.
Qed.

Lemma newest_live a : a < used t -> live t c fl (newest c fl a).
Proof.
  intros Ha. destruct (newest_cases c fl a) as [[-> _]|[l Hl]]; [left; eauto|right].
  destruct (proj1 (elem_of_writers fl a (newest c fl a))) as [q Hq]; [rewrite Hl, elem_of_app; right; by left|].
  apply elem_of_news. eauto.
Qed.

Lemma used_name a : a < used t -> a < theNameCount p.
Proof. rewrite (bk_names _ _ _ _ _ _ Ok). pose proof (used_names t). lia. Qed.

(** The registers of the type are in the register file and the bypass network. *)
Lemma bank_register r : r < reg_file_sizes rob t -> exists x b,
  theRegs f t !! r = Some x /\ theBypassNetwork f t !! r = Some b /\ is_uint64 (theReg x).
Proof.
  intros Hr. destruct (bk_values _ _ _ _ _ _ Ok r Hr) as (x & Hx & Hv).
  destruct (lookup_lt_is_Some_2 (theBypassNetwork f t) r) as [b Hb]; [by rewrite (bk_bypass _ _ _ _ _ _ Ok)|].
  cbn in *. eauto 6.
Qed.

(** An operation on a register that is not free. *)
Lemma bank_touched r f' : touches r f f' ->
  (theType r = t -> theIndex r ∉ theFreeList p /\ is_mapped f' r /\ holds_uint64 f' r) ->
  bank_ok t c fl rob p f'.
Proof.
  intros [T1 T2 T3] Hr. destruct Ok. split; rewrite ?T1, ?T2; try done.
  - intros i Hi. destruct (T3 t i) as [E1 E2].
    + intros <-. by apply (Hr eq_refl).
    + unfold is_idle. cbn. rewrite E1, E2. by apply bk_idle0.
  - intros i Hi. destruct (decide (mkReg t i = r)) as [<-|N]; [by apply Hr|].
    destruct (T3 t i N) as [E1 E2]. unfold is_mapped. cbn. rewrite E1. by apply bk_live0.
  - intros i Hi. destruct (decide (mkReg t i = r)) as [<-|N]; [by apply Hr|].
    destruct (T3 t i N) as [E1 E2]. unfold holds_uint64. cbn. rewrite E1. by apply bk_values0.
Qed.

(** The table changes, and with it the register [r] of the type. *)
Lemma bank_change c' fl' p' f' r : table_ok c' fl' p' ->
  theNameCount p' = theNameCount p -> theRegisterCount p' = theRegisterCount p ->
  touches (mkReg t r) f f' -> holds_uint64 f' (mkReg t r) ->
  (forall a, a ∈ written fl' -> a < used t) ->
  (forall i, i ∈ theFreeList p' -> i = r /\ is_idle f' (mkReg t r) \/ i <> r /\ i ∈ theFreeList p) ->
  (forall i, live t c' fl' i -> i = r /\ is_mapped f' (mkReg t r) \/ i <> r /\ live t c fl i) ->
  bank_ok t c' fl' rob p' f'.
Proof.
  intros Hp' N1 N2 [T1 T2 T3] Hv Hw Hfree Hlive. destruct Ok.
  assert (Hne : forall i, i <> r -> mkReg t i <> mkReg t r) by congruence.
  split; rewrite ?T1, ?T2, ?N1, ?N2; try done.
  - intros i [[-> H]|[Hi H]]%Hfree; [done|]. destruct (T3 t i (Hne i Hi)) as [E1 E2].
    unfold is_idle. cbn. rewrite E1, E2. by apply bk_idle0.
  - intros i [[-> H]|[Hi H]]%Hlive; [done|]. destruct (T3 t i (Hne i Hi)) as [E1 E2].
    unfold is_mapped. cbn. rewrite E1. by apply bk_live0.
  - intros i Hi. destruct (decide (i = r)) as [->|N]; [done|]. destruct (T3 t i (Hne i N)) as [E1 E2].
    unfold holds_uint64. cbn. rewrite E1. by apply bk_values0.
Qed.

Lemma bank_drop_reads l1 l2 : fl = l1 ++ l2 -> bank_ok t c (l1 ++ only_writes l2) rob p f.
Proof.
  intros E. pose proof Ok as Ok'. rewrite E in Ok'. destruct Ok'.
  assert (Hn : news (l1 ++ only_writes l2) = news (l1 ++ l2)) by by rewrite !news_app, news_only_writes.
  assert (Hw : written (l1 ++ only_writes l2) = written (l1 ++ l2)) by by rewrite !written_app, written_only_writes.
  split; unfold live; rewrite ?Hw, ?Hn; try done. by apply table_drop_reads.
Qed.
End bank.

(** ** The core *)

Definition committed : Type := eRegisterType -> nat -> nat.
Definition flights : Type := eRegisterType -> list item.

Record core_ok (s : Core) (c : committed) (fls : flights) : Prop := {
  co_window : theWindowMap s = window_reset;
  co_bank : forall t, bank_ok t (c t) (fls t) (theROBSize s) (theMapTables s t) (theRegisters s);
}.

(** The registers that are not free. *)
Definition alive (c : committed) (fls : flights) (r : reg) : Prop := live (theType r) (c (theType r)) (fls (theType r)) (theIndex r).

(** The parts of the core that only the reorder buffer's operations change. *)
Definition same_buffers (s s' : Core) : Prop :=
  theROB s' = theROB s /\ theSRB s' = theSRB s /\ theROBSize s' = theROBSize s.

Lemma wp_mapTable {A} t (m : M PhysicalMap A) a p (Q : A -> Core -> Prop) s :
  m (theMapTables s t) = Done (a, p) -> Q a (set_tables (tset t p (theMapTables s)) s) -> wp (mapTable t m) Q s.
Proof. intros E H. unfold mapTable, wp. by rewrite E. Qed.

Lemma wp_registers {A} (m : M RegisterFile A) (Q : A -> Core -> Prop) s :
  wp m (fun a f => Q a (set_registers f s)) (theRegisters s) -> wp (registers m) Q s.
Proof. unfold registers, wp. by destruct (m (theRegisters s)) as [[a f]|]. Qed.

Lemma touches_kept r f f' (P : reg -> Prop) : touches r f f' -> (P r -> value_of f' r = value_of f r) -> kept P f f'.
Proof.
  intros [_ _ T] Hr x Hx. destruct (decide (x = r)) as [->|N]; [by apply Hr|].
  destruct x as [t i]. destruct (T t i N) as [E _]. unfold value_of. cbn. by rewrite E.
Qed.

Section core.
Context {s : Core} {c : committed} {fls : flights} (Ok : core_ok s c fls).

Lemma tables_ok t : table_ok (c t) (fls t) (theMapTables s t).
Proof. apply (bk_table _ _ _ _ _ _ (co_bank _ _ _ Ok t)). Qed.

Lemma core_map_ok r : theIndex r < used (theType r) ->
  wp (core_map r) (fun m s' =>
    m = mkReg (theType r) (newest (c (theType r)) (fls (theType r)) (theIndex r)) /\
    core_ok s' c (tset (theType r) (fls (theType r) ++ [Read (theIndex r) (theIndex m)]) fls) /\
    theRegisters s' = theRegisters s /\ same_buffers s s') s.
Proof.
  intros Ha. destruct r as [t a]. cbn [theType theIndex] in *.
  pose proof (co_bank _ _ _ Ok t) as Bt. pose proof (used_name Bt a Ha) as Hn.
  unfold core_map. apply wp_bind, wp_gets. unfold id. rewrite (co_window _ _ _ Ok), rotate_reset. cbn [theType theIndex].
  apply wp_bind. eapply wp_mapTable; [apply (map_name_ok _ _ _ a (tables_ok t) Hn)|]. apply wp_ret.
  split; [done|]. split; [|done]. split; [apply (co_window _ _ _ Ok)|]. intros t'. cbn.
  unfold tset at 2. case_decide; [subst t'|rewrite tset_other by done; apply (co_bank _ _ _ Ok)].
  rewrite tset_same. destruct Bt. pose proof (read_ok _ _ _ a bk_table0 Hn) as Hr.
  split; unfold live; rewrite ?written_app, ?news_app, ?app_nil_r; try done.
Qed.

(** A free register is taken for a write. *)
Lemma core_create_ok r : theIndex r < used (theType r) -> theFreeList (theMapTables s (theType r)) <> [] ->
  wp (core_create r) (fun x s' =>
    let t := theType r in
    theType x.1 = t /\ x.2 = mkReg t (newest (c t) (fls t) (theIndex r)) /\
    core_ok s' c (tset t (fls t ++ [Write (theIndex r) (theIndex x.1) (theIndex x.2)]) fls) /\
    ~ alive c fls x.1 /\ alive c fls x.2 /\
    kept (fun _ => True) (theRegisters s) (theRegisters s') /\ same_buffers s s') s.
Proof.
  intros Ha Hne. destruct r as [t a]. cbn [theType theIndex] in *.
  pose proof (co_bank _ _ _ Ok t) as Bt. pose proof (used_name Bt a Ha) as Hn.
  destruct (theFreeList (theMapTables s t)) as [|r free'] eqn:Hf; [done|].
  assert (Hrf : r ∈ theFreeList (theMapTables s t)) by (rewrite Hf; by left).
  destruct (create_ok _ _ _ a r (tables_ok t) Hn) as (p' & Hp & Hp' & N1 & N2 & F); [by rewrite Hf|].
  destruct (bk_idle _ _ _ _ _ _ Bt r Hrf) as (x & b & Hx & Hs & Hd & Hb & Hbd).
  pose proof (newest_live (c := c t) (fl := fls t) a Ha) as Hlive.
  pose proof (fun K : live t (c t) (fls t) r => live_not_free Bt r K Hrf) as Hdead.
  destruct (bk_live _ _ _ _ _ _ Bt _ Hlive) as (y & Hy & Hys).
  assert (Hry : r <> newest (c t) (fls t) a) by (intros ->; by apply (live_not_free Bt _ Hlive)).
  unfold core_create. apply wp_bind, wp_gets. unfold id. rewrite (co_window _ _ _ Ok), rotate_reset. cbn [theType theIndex].
  apply wp_bind. eapply wp_mapTable; [exact Hp|]. cbn [fst snd]. apply wp_bind, wp_registers. cbn.
  eapply wp_mono; [by eapply (mapRegister_ok _ _ x b)|].
  intros _ f1 (T & x1 & b1 & Hx1 & Hb1 & Hs1 & Hv1). cbn in *.
  destruct (tc_other _ _ _ T t (newest (c t) (fls t) a)) as [E1 _]; [congruence|].
  apply wp_bind, wp_registers. cbn. eapply (status_ok (mkReg t (newest (c t) (fls t) a))); [cbn; by rewrite E1|].
  apply wp_bind, wp_assert; [by rewrite bool_decide_eq_true_2|]. apply wp_ret. cbn.
  split; [done|]. split; [done|]. split; [|split; [done|split; [done|split; [|done]]]].
  - split; [apply (co_window _ _ _ Ok)|]. intros t'. destruct (decide (t' = t)) as [->|N]; cbn.
    + rewrite !tset_same. eapply (bank_change Bt); try done.
      * exists x1. cbn. rewrite Hx1, Hv1. split; [done|].
        destruct (bank_register Bt r) as (z & bz & Hz & _ & Hu); [|cbn in *; congruence].
        rewrite <- (bk_count _ _ _ _ _ _ Bt). apply (register_range (tables_ok t)). by left.
      * intros b'. rewrite written_app, elem_of_app. intros [Hb'|Hb'%list_elem_of_singleton]; [by apply (bk_used _ _ _ _ _ _ Bt)|by subst].
      * intros i Hi. right. split; [|rewrite F; by right].
        intros ->. pose proof (table_NoDup (tables_ok t)) as Hd'. rewrite F in Hd'. cbn in Hd'.
        apply NoDup_cons in Hd' as [Hd' _]. apply Hd'. rewrite elem_of_app. by left.
      * intros i Hi. destruct (decide (i = r)) as [->|Ni]; [left; split; [done|]; exists x1; cbn; by rewrite Hs1|].
        right. split; [done|]. destruct Hi as [Hi|Hi]; [by left|]. rewrite news_app in Hi.
        apply elem_of_app in Hi as [Hi|Hi%list_elem_of_singleton]; [by right|done].
    + rewrite !tset_other by done. eapply (bank_touched (co_bank _ _ _ Ok t')); [done|]. by intros E.
  - eapply touches_kept; [done|]. intros _. unfold value_of. cbn. by rewrite Hx1, Hx; cbn; rewrite Hv1.
Qed.

(** [core_free] in a state [s1] that differs from [s] in the mappings of the type,
    when the table can free the register: the freed register was alive. *)
Lemma core_free_ok s1 t r p' c' fl' :
  theWindowMap s1 = window_reset -> theRegisters s1 = theRegisters s -> same_buffers s s1 ->
  (forall t', t' <> t -> theMapTables s1 t' = theMapTables s t') ->
  live t (c t) (fls t) r ->
  free r (theMapTables s1 t) = Done ((), p') -> table_ok c' fl' p' ->
  theNameCount p' = theNameCount (theMapTables s t) -> theRegisterCount p' = theRegisterCount (theMapTables s t) ->
  theFreeList p' = theFreeList (theMapTables s t) ++ [r] ->
  (forall a, a ∈ written fl' -> a < used t) ->
  (forall i, live t c' fl' i -> i <> r /\ live t (c t) (fls t) i) ->
  wp (core_free (mkReg t r)) (fun _ s' =>
    core_ok s' (tset t c' c) (tset t fl' fls) /\
    kept (fun _ => True) (theRegisters s) (theRegisters s') /\ same_buffers s s') s1.
Proof.
  intros Hwin Hregs (B1 & B2 & B3) Hsame Hlive Hp Hp' N1 N2 F Hw Hl. pose proof (co_bank _ _ _ Ok t) as Bt.
  unfold core_free. cbn [theType theIndex]. apply wp_bind. eapply wp_mapTable; [exact Hp|].
  apply wp_registers. cbn. rewrite Hregs. destruct (bank_register Bt r (live_range Bt r Hlive)) as (x & b & Hx & Hb & Hu).
  destruct (bk_live _ _ _ _ _ _ Bt r Hlive) as (x' & Hx' & Hs). cbn in *. simplify_eq.
  eapply wp_mono; [by eapply (unmapRegister_ok (mkReg t r))|].
  intros _ f1 (T & x1 & b1 & Hx1 & Hb1 & Hs1 & Hd1 & Hbd1 & Hv1). cbn in *.
  split; [|split; [|done]].
  - split; [done|]. intros t'. cbn. rewrite B3. destruct (decide (t' = t)) as [->|N]; cbn.
    + rewrite !tset_same. eapply (bank_change Bt); try done.
      * exists x1. cbn. by rewrite Hv1.
      * intros i Hi. destruct (decide (i = r)) as [->|Ni]; [left; split; [done|]; by exists x1, b1|].
        right. split; [done|]. rewrite F in Hi. by apply elem_of_app in Hi as [Hi|Hi%list_elem_of_singleton].
      * intros i Hi. right. by apply Hl.
    + rewrite !tset_other, Hsame by done. eapply (bank_touched (co_bank _ _ _ Ok t')); [done|]. by intros E.
  - eapply touches_kept; [done|]. intros _. unfold value_of. cbn. by rewrite Hx1, Hx; cbn; rewrite Hv1.
Qed.

(** The oldest write of a type retires. *)
Lemma core_retire_ok t a r q fl : fls t = Write a r q :: fl ->
  wp (core_free (mkReg t q)) (fun _ s' =>
    core_ok s' (tset t (upd (c t) a r) c) (tset t fl fls) /\
    kept (fun _ => True) (theRegisters s) (theRegisters s') /\ same_buffers s s') s.
Proof.
  intros Hf. pose proof (co_bank _ _ _ Ok t) as Bt. pose proof (tables_ok t) as Tt. rewrite Hf in Tt.
  destruct (retire_ok _ _ _ _ _ _ Tt) as (p' & Hp & Hp' & N1 & N2 & F).
  pose proof (bk_used _ _ _ _ _ _ Bt) as Hu. rewrite Hf in Hu. pose proof (Hu a (list_elem_of_here _ _)) as Ha.
  destruct (ok_linked _ _ _ Tt) as [-> _].
  assert (Hnq : c t a ∉ news (Write a r (c t a) :: fl)).
  { apply (committed_used Tt). rewrite (bk_names _ _ _ _ _ _ Bt). pose proof (used_names t). lia. }
  eapply (core_free_ok s); try done.
  - apply (co_window _ _ _ Ok).
  - left. eauto.
  - intros b Hb. apply Hu. by right.
  - intros i Hi. rewrite Hf. assert (Hr : r ∈ news (Write a r (c t a) :: fl)) by left.
    destruct Hi as [(b & Hb & ->)|Hi].
    + destruct (decide (b = a)) as [->|N]; [rewrite upd_same; split; [by intros ->|by right]|].
      rewrite upd_other by done. split; [|left; eauto]. intros E. apply N.
      pose proof (used_names t). eapply (committed_inj Tt); rewrite ?(bk_names _ _ _ _ _ _ Bt); [lia|lia|done].
    + split; [|right; by right]. intros ->. apply Hnq. by right.
Qed.

(** A write is squashed, before which only writes of other names are left. *)
Lemma core_squash_ok t a r q l1 l2 : fls t = l1 ++ Write a r q :: l2 -> apart a l2 ->
  wp (core_restore (mkReg t a) (mkReg t q);; core_free (mkReg t r)) (fun _ s' =>
    core_ok s' c (tset t (l1 ++ l2) fls) /\
    kept (fun _ => True) (theRegisters s) (theRegisters s') /\ same_buffers s s') s.
Proof.
  intros Hf Hap. pose proof (co_bank _ _ _ Ok t) as Bt. pose proof (tables_ok t) as Tt. rewrite Hf in Tt.
  destruct (squash_ok Tt Hap) as (p' & Hp & Hp' & N1 & N2 & F).
  assert (Hr : r ∈ news (fls t)) by (rewrite Hf, news_app, elem_of_app; right; by left).
  pose proof (bk_used _ _ _ _ _ _ Bt) as Hu.
  cbv [mbind M_bind] in Hp. destruct (restore a q (theMapTables s t)) as [[[] p1]|] eqn:E; [|done].
  apply wp_bind. unfold core_restore. apply wp_bind, wp_assert; [by apply bool_decide_eq_true_2|]. apply wp_bind, wp_gets.
  unfold id. rewrite (co_window _ _ _ Ok), rotate_reset. cbn [theType theIndex].
  eapply wp_mapTable; [exact E|].
  eapply wp_mono; [eapply (core_free_ok _ t r p' (c t) (l1 ++ l2)); try done|].
  - apply (co_window _ _ _ Ok).
  - intros t' N. cbn. by rewrite tset_other.
  - by right.
  - cbn. by rewrite tset_same.
  - intros b. rewrite written_app, elem_of_app. intros Hb. apply Hu.
    rewrite Hf, written_app, elem_of_app. destruct Hb; [by left|right; by right].
  - intros i Hi. split.
    + destruct Hi as [(b & Hb & ->)|Hi]; [|apply (squash_others Tt); by right]. intros Er.
      apply (committed_used Tt b).
      * rewrite (bk_names _ _ _ _ _ _ Bt). pose proof (used_names t). lia.
      * by rewrite Er, <- Hf.
    + destruct Hi as [Hi|Hi]; [by left|right]. rewrite Hf. rewrite (squash_news (r := r)). by right.
  - intros _ s' (H1 & H2 & H3). split; [|done]. destruct H1 as [W B]. split; [done|].
    intros t'. specialize (B t'). destruct (decide (t' = t)) as [->|N]; [by rewrite tset_same in B|].
    by rewrite (tset_other t (c t)) in B.
Qed.
End core.
