(* ===== verification/RenamingRuns.v ===== *)
(** * Renaming of whole instructions

    What the dispatch, the retirement and the squash of an instruction do to the
    renaming invariant (RenamingInvariant.v), and the invariant of the core under
    every sequence of these and of the reads and writes of the registers of the
    instructions in the reorder buffer. *)

From stdpp Require Import base list sets strings.
From Stdlib Require Import ZArith Lia.
From S2P Require Import Prelude RegisterMap RegisterFile Renaming RenamingInvariant.

(** ** Well-formed instructions *)

Definition inputs (e : Effect) : list eOperandCode :=
  match e with MapSourceEffect i _ | MapDestinationEffect i _ _ _ => [i] | _ => [] end.
Definition outputs (e : Effect) : list eOperandCode :=
  match e with MapSourceEffect _ o => [o] | MapDestinationEffect _ o p _ => [o; p] | _ => [] end.

(** The name that an effect maps or renames, and the names that an instruction writes. *)
Definition name_of (ops : eOperandCode -> option Operand) (code : eOperandCode) : option reg :=
  match ops code with Some (OpReg r) => Some r | _ => None end.
Definition mapped_of (ops : eOperandCode -> option Operand) (code : eOperandCode) : option reg :=
  match ops code with Some (OpMapped r) => Some r | _ => None end.
Definition dest_names (ops : eOperandCode -> option Operand) (es : list Effect) : list reg :=
  omap (fun e => match e with MapDestinationEffect i _ _ _ => name_of ops i | _ => None end) es.

(** The effect maps a register that the architectural state has; a destination can
    be squashed. *)
Definition maps_used (ops : eOperandCode -> option Operand) (e : Effect) : bool :=
  match e with
  | MapSourceEffect i _ | MapDestinationEffect i _ _ true =>
      match name_of ops i with Some r => theIndex r <? used (theType r) | None => false end
  | _ => false
  end.

Definition of_type (t : eRegisterType) (rs : list reg) : list reg := filter (fun r => theType r = t) rs.

(** Operands are written once and not read before, no name is written twice, and an
    instruction writes no more registers than it was given room for. *)
Definition well_formed (i : Instruction) : bool :=
  let es := theDispatchEffects i in
  let ops := theOperands i in
  forallb (maps_used ops) es
  && bool_decide (NoDup (es ≫= outputs))
  && forallb (fun k => bool_decide (k ∉ es ≫= outputs)) (es ≫= inputs)
  && bool_decide (theRetirementEffects i = []) && bool_decide (theSquashEffects i = [])
  && bool_decide (NoDup (dest_names ops es))
  && forallb (fun t => length (of_type t (dest_names ops es)) <=? per_instruction t) [xRegisters; vRegisters; ccBits].

(** ** What an instruction has recorded *)

Definition item_of (ops : eOperandCode -> option Operand) (e : Effect) : option (eRegisterType * item) :=
  match e with
  | MapSourceEffect i o =>
      n ← name_of ops i; m ← mapped_of ops o; Some (theType n, Read (theIndex n) (theIndex m))
  | MapDestinationEffect i o p _ =>
      n ← name_of ops i; m ← mapped_of ops o; q ← mapped_of ops p;
      Some (theType n, Write (theIndex n) (theIndex m) (theIndex q))
  | _ => None
  end.

Definition items (t : eRegisterType) (ops : eOperandCode -> option Operand) (es : list Effect) : list item :=
  omap (fun e => x ← item_of ops e; if decide (x.1 = t) then Some x.2 else None) es.

(** The effects that the destinations add. *)
Definition retirement_of (es : list Effect) : list Effect :=
  omap (fun e => match e with MapDestinationEffect _ _ p _ => Some (FreeMappingEffect p) | _ => None end) es.
Definition squash_of (es : list Effect) : list Effect :=
  es ≫= fun e => match e with
    | MapDestinationEffect i o p _ => [RestoreMappingEffect i p; FreeMappingEffect o] | _ => [] end.

(** The operands of an effect after its dispatch: the mapped registers have the type of the name. *)
Definition mapped_typed (ops : eOperandCode -> option Operand) (e : Effect) : Prop :=
  match e with
  | MapSourceEffect i o => exists n m, ops i = Some (OpReg n) /\ ops o = Some (OpMapped m) /\ theType m = theType n
  | MapDestinationEffect i o p sq => sq = true /\
      exists n m q, ops i = Some (OpReg n) /\ ops o = Some (OpMapped m) /\ ops p = Some (OpMapped q) /\
      theType m = theType n /\ theType q = theType n
  | _ => False
  end.

Definition flight_of (t : eRegisterType) (i : Instruction) : list item := items t (theOperands i) (theDispatchEffects i).

(** An instruction in the reorder buffer. *)
Record recorded (i : Instruction) : Prop := {
  rc_typed : forall e, e ∈ theDispatchEffects i -> mapped_typed (theOperands i) e;
  rc_used : forall e, e ∈ theDispatchEffects i -> maps_used (theOperands i) e = true;
  rc_retirement : theRetirementEffects i = retirement_of (theDispatchEffects i);
  rc_squash : Renaming.theSquashEffects i = squash_of (theDispatchEffects i);
  rc_names : NoDup (dest_names (theOperands i) (theDispatchEffects i));
  rc_count : forall t, length (of_type t (dest_names (theOperands i) (theDispatchEffects i))) <= per_instruction t;
}.

Definition agree (ks : list eOperandCode) (ops ops' : eOperandCode -> option Operand) : Prop :=
  forall k, k ∈ ks -> ops' k = ops k.

Lemma name_of_agree ops ops' k : ops' k = ops k -> name_of ops' k = name_of ops k.
Proof. unfold name_of. by intros ->. Qed.
Lemma mapped_of_agree ops ops' k : ops' k = ops k -> mapped_of ops' k = mapped_of ops k.
Proof. unfold mapped_of. by intros ->. Qed.

Definition codes (e : Effect) : list eOperandCode := inputs e ++ outputs e.

Lemma item_of_agree ops ops' e : agree (codes e) ops ops' -> item_of ops' e = item_of ops e.
Proof.
  intros H. destruct e as [i o| | |i o p sq]; try done; cbn in *.
  - by rewrite (name_of_agree ops ops' i), (mapped_of_agree ops ops' o) by (apply H; cbn; set_solver).
  - by rewrite (name_of_agree ops ops' i), (mapped_of_agree ops ops' o), (mapped_of_agree ops ops' p)
      by (apply H; cbn; set_solver).
Qed.

Lemma mapped_typed_agree ops ops' e : agree (codes e) ops ops' -> mapped_typed ops e -> mapped_typed ops' e.
Proof.
  intros H. destruct e as [i o| | |i o p sq]; try done; cbn in *.
  - intros (n & m & ? & ? & ?). exists n, m. rewrite !(H i), !(H o) by set_solver. done.
  - intros (? & n & m & q & ? & ? & ? & ?). split; [done|]. exists n, m, q.
    rewrite !(H i), !(H o), !(H p) by set_solver. done.
Qed.

Lemma items_agree t ops ops' es : agree (es ≫= codes) ops ops' -> items t ops' es = items t ops es.
Proof.
  intros H. induction es as [|e es IH]; [done|]. unfold items in *. cbn in *.
  rewrite (item_of_agree ops ops'), IH; [done| |]; intros k Hk; apply H; rewrite elem_of_app; tauto.
Qed.

Lemma items_app t ops l1 l2 : items t ops (l1 ++ l2) = items t ops l1 ++ items t ops l2.
Proof. apply omap_app. Qed.

(** The names written by the items are the destinations of the type. *)
Lemma written_items t ops es : (forall e, e ∈ es -> mapped_typed ops e) ->
  written (items t ops es) = theIndex <$> of_type t (dest_names ops es).
Proof.
  intros H. induction es as [|e es IH]; [done|]. rewrite <- (app_nil_l es), app_comm_cons, items_app, written_app.
  assert (He : mapped_typed ops e) by (apply H; by left). unfold dest_names, of_type in *. rewrite omap_app, filter_app, fmap_app.
  rewrite <- IH by (intros; apply H; by right). f_equal. clear IH.
  destruct e as [i o| | |i o p sq]; try done; cbn in *.
  - destruct He as (n & m & En & Em & _). unfold items, name_of, mapped_of; cbn. rewrite En, Em. cbn. by case_decide.
  - destruct He as (_ & n & m & q & En & Em & Eq & _). unfold items, name_of, mapped_of; cbn.
    unfold name_of, mapped_of. rewrite En, Em, Eq. cbn. by case_decide.
Qed.

(** ** Dispatch *)

Lemma core_ok_ext s c c' fls fls' : (forall t, c t = c' t) -> (forall t, fls t = fls' t) ->
  core_ok s c fls -> core_ok s c' fls'.
Proof. intros Hc Hf [W B]. split; [done|]. intros t. rewrite <- Hc, <- Hf. apply B. Qed.

(** An operation on a register that is not free keeps the invariant. *)
Lemma core_touch s c fls r f : core_ok s c fls -> alive c fls r ->
  updated r (theRegisters s) (fun x _ => theStatus x <> kUnmapped /\ is_uint64 (theReg x)) f ->
  core_ok (set_registers f s) c fls.
Proof.
  intros Ok Hr [T (x & b & Hx & Hb & Hs & Hu)]. split; [apply Ok|]. intros t. cbn.
  apply (bank_touched (co_bank _ _ _ Ok t) r); [done|]. intros <-. split; [|split].
  - apply (live_not_free (co_bank _ _ _ Ok (theType r))). exact Hr.
  - destruct r. by exists x.
  - destruct r. by exists x.
Qed.

Lemma alive_register s c fls r : core_ok s c fls -> alive c fls r -> exists x b,
  theRegs (theRegisters s) (theType r) !! theIndex r = Some x /\
  theBypassNetwork (theRegisters s) (theType r) !! theIndex r = Some b /\
  theStatus x <> kUnmapped /\ is_uint64 (theReg x).
Proof.
  intros Ok Hr. pose proof (co_bank _ _ _ Ok (theType r)) as B.
  destruct (bank_register B (theIndex r) (live_range B _ Hr)) as (x & b & Hx & Hb & Hu).
  destruct (bk_live _ _ _ _ _ _ B _ Hr) as (y & Hy & Hs). cbn in *. simplify_eq. eauto 6.
Qed.

(** The flights grow by what an effect has recorded. *)
Definition extend (fls : flights) (ops : eOperandCode -> option Operand) (es : list Effect) : flights :=
  fun t => fls t ++ items t ops es.

Lemma alive_extend c fls ops es r : alive c fls r -> alive c (extend fls ops es) r.
Proof.
  unfold alive, live, extend. rewrite news_app, elem_of_app. tauto.
Qed.

Lemma operand_reg_ok k r i s : theOperands i k = Some (OpReg r) -> operand_reg k i s = Done (r, s).
Proof. unfold operand_reg. by intros ->. Qed.
Lemma operand_mapped_ok k r i s : theOperands i k = Some (OpMapped r) -> operand_mapped k i s = Done (r, s).
Proof. unfold operand_mapped. by intros ->. Qed.

Lemma wp_operand_reg k r i (Q : reg -> Core -> Prop) s : theOperands i k = Some (OpReg r) -> Q r s -> wp (operand_reg k i) Q s.
Proof. intros E H. unfold wp. by rewrite (operand_reg_ok _ _ _ _ E). Qed.
Lemma wp_operand_mapped k r i (Q : reg -> Core -> Prop) s :
  theOperands i k = Some (OpMapped r) -> Q r s -> wp (operand_mapped k i) Q s.
Proof. intros E H. unfold wp. by rewrite (operand_mapped_ok _ _ _ _ E). Qed.

(** What one dispatch effect does to its instruction. *)
Record dispatched (e : Effect) (i i' : Instruction) : Prop := {
  di_agree : forall k, k ∉ outputs e -> theOperands i' k = theOperands i k;
  di_typed : mapped_typed (theOperands i') e;
  di_dispatch : theDispatchEffects i' = theDispatchEffects i;
  di_retirement : theRetirementEffects i' = theRetirementEffects i ++ retirement_of [e];
  di_squash : Renaming.theSquashEffects i' = Renaming.theSquashEffects i ++ squash_of [e];
}.

(** There is a free register for each destination. *)
Definition room (s : Core) (ops : eOperandCode -> option Operand) (es : list Effect) (fls : flights) : Prop :=
  forall t, length (written (fls t)) + length (of_type t (dest_names ops es)) <= per_instruction t * theROBSize s.

Lemma room_free s c fls ops es r i o p sq : core_ok s c fls -> room s ops (MapDestinationEffect i o p sq :: es) fls ->
  name_of ops i = Some r -> theFreeList (theMapTables s (theType r)) <> [].
Proof.
  intros Ok Hroom Hn Hf. pose proof (co_bank _ _ _ Ok (theType r)) as B.
  pose proof (table_count (bk_table _ _ _ _ _ _ B)) as Hc. rewrite Hf in Hc.
  rewrite (bk_names _ _ _ _ _ _ B), (bk_count _ _ _ _ _ _ B) in Hc. unfold reg_file_sizes in Hc. cbn in Hc.
  specialize (Hroom (theType r)). unfold of_type, dest_names in Hroom. cbn in Hroom. rewrite Hn in Hroom. cbn in Hroom.
  rewrite decide_True in Hroom by done. cbn in Hroom. lia.
Qed.

Lemma setOperand_same k o i : theOperands (setOperand k o i) k = Some o.
Proof. cbn. by rewrite decide_True. Qed.
Lemma setOperand_other k o i k' : k' <> k -> theOperands (setOperand k o i) k' = theOperands i k'.
Proof. intros. cbn. by rewrite decide_False. Qed.

Lemma source_effect_ok s c fls i k o : core_ok s c fls ->
  maps_used (theOperands i) (MapSourceEffect k o) = true -> k <> o ->
  wp (invoke (MapSourceEffect k o) i) (fun i' s' =>
    dispatched (MapSourceEffect k o) i i' /\
    core_ok s' c (extend fls (theOperands i') [MapSourceEffect k o]) /\
    kept (alive c fls) (theRegisters s) (theRegisters s') /\ same_buffers s s') s.
Proof.
  intros Ok Hu Hne. cbn in Hu. unfold name_of in Hu. destruct (theOperands i k) as [[n|]|] eqn:En; try done.
  apply Nat.ltb_lt in Hu. cbn [invoke]. apply wp_bind. eapply wp_operand_reg; [exact En|].
  apply wp_bind. eapply wp_mono; [by apply (core_map_ok Ok)|]. intros m s' (Em & Ok' & Er & Eb). apply wp_ret.
  assert (E1 : theOperands (setOperand o (OpMapped m) i) k = Some (OpReg n)) by by rewrite setOperand_other.
  pose proof (setOperand_same o (OpMapped m) i) as E2.
  split; [|split; [|split; [intros r _; by rewrite Er|done]]].
  - split; rewrite ?app_nil_r; try done.
    + intros k' Hk'. apply setOperand_other. set_solver.
    + exists n, m. subst m. done.
  - eapply core_ok_ext; [done| |exact Ok']. intros t. unfold extend, items, name_of, mapped_of.
    cbn [omap list_omap item_of]. unfold name_of, mapped_of. rewrite E1, E2. cbn.
    unfold tset. case_decide as D; [subst t; by rewrite decide_True|]. by rewrite decide_False, app_nil_r.
Qed.

Lemma core_create_extend t fls i k o p n m q :
  theOperands i k = Some (OpReg n) -> theOperands i o = Some (OpMapped m) -> theOperands i p = Some (OpMapped q) ->
  tset (theType n) (fls (theType n) ++ [Write (theIndex n) (theIndex m) (theIndex q)]) fls t =
  extend fls (theOperands i) [MapDestinationEffect k o p true] t.
Proof.
  intros E1 E2 E3. unfold extend, items. cbn. unfold name_of, mapped_of. rewrite E1, E2, E3. cbn.
  unfold tset. case_decide as D; [subst t; by rewrite decide_True|]. by rewrite decide_False, app_nil_r.
Qed.

(** The value of the previous condition flags is copied into the new register. *)
Lemma copy_flags_ok s c fls new old : core_ok s c fls -> alive c fls new -> alive c fls old ->
  wp (if decide (theType new = ccBits) then registers (copyRegValue old new) else mret ()) (fun _ s' =>
    core_ok s' c fls /\ kept (fun r => r <> new) (theRegisters s) (theRegisters s') /\ same_buffers s s') s.
Proof.
  intros Ok Hn Ho. case_decide as D; [|by apply wp_ret].
  destruct (alive_register _ _ _ _ Ok Hn) as (x & b & Hx & Hb & Hs & Hu).
  destruct (alive_register _ _ _ _ Ok Ho) as (y & b' & Hy & _ & _ & Huy).
  apply wp_registers. eapply wp_mono; [by eapply (copy_ok new _ x b Hx Hb old y)|].
  intros _ f [T (x' & b2 & Hx' & Hb' & Es & Ev)]. split; [|split; [|done]].
  - apply (core_touch _ _ _ new); [done|done|]. split; [done|]. exists x', b2. rewrite Es, Ev. done.
  - by eapply touches_kept.
Qed.

Lemma destination_effect_ok s c fls i k o p es : core_ok s c fls ->
  maps_used (theOperands i) (MapDestinationEffect k o p true) = true ->
  k <> o -> k <> p -> o <> p -> room s (theOperands i) (MapDestinationEffect k o p true :: es) fls ->
  wp (invoke (MapDestinationEffect k o p true) i) (fun i' s' =>
    dispatched (MapDestinationEffect k o p true) i i' /\
    core_ok s' c (extend fls (theOperands i') [MapDestinationEffect k o p true]) /\
    kept (alive c fls) (theRegisters s) (theRegisters s') /\ same_buffers s s') s.
Proof.
  intros Ok Hu H1 H2 H3 Hroom. cbn in Hu. destruct (name_of (theOperands i) k) as [n|] eqn:En; [|done].
  pose proof (room_free _ _ _ _ _ _ _ _ _ _ Ok Hroom En) as Hne.
  unfold name_of in En. destruct (theOperands i k) as [[n'|]|] eqn:Ek; simplify_eq. apply Nat.ltb_lt in Hu.
  cbn [invoke]. apply wp_bind. eapply wp_operand_reg; [exact Ek|]. apply wp_bind.
  eapply wp_mono; [by apply (core_create_ok Ok)|]. intros [m q] s1 (Tm & Eq & Ok1 & Hm & Hq & K1 & B1). cbn [fst snd] in *.
  set (i' := addSquashEffect _ _).
  assert (E1 : theOperands i' k = Some (OpReg n)) by (unfold i'; cbn; by rewrite !decide_False).
  assert (E2 : theOperands i' o = Some (OpMapped m)) by (unfold i'; cbn; by rewrite decide_False, decide_True).
  assert (E3 : theOperands i' p = Some (OpMapped q)) by (unfold i'; cbn; by rewrite decide_True).
  assert (Ok2 : core_ok s1 c (extend fls (theOperands i') [MapDestinationEffect k o p true])).
  { eapply core_ok_ext; [done| |exact Ok1]. intros t. by apply core_create_extend. }
  apply wp_bind. eapply wp_mono; [apply (copy_flags_ok _ _ _ m q Ok2)|].
  - unfold alive, live. rewrite <- (core_create_extend (theType m) fls i' k o p n m q) by done.
    rewrite Tm, tset_same, news_app, elem_of_app. right. right. by left.
  - by apply alive_extend.
  - intros _ s2 (Ok3 & K2 & B2). apply wp_ret. split; [|split; [done|split]].
    + split; try done; [|by split; [|exists n, m, q; subst q]|unfold i'; cbn; by rewrite <- (assoc (++))].
      intros k' Hk'. unfold i'. cbn. rewrite !decide_False by set_solver. done.
    + intros r Hr. rewrite (K2 r), (K1 r); [done|done|]. by intros ->.
    + destruct B1 as (? & ? & ?), B2 as (? & ? & ?). unfold same_buffers. by split_and!; congruence.
Qed.

Lemma effect_ok s c fls i e es : core_ok s c fls -> maps_used (theOperands i) e = true ->
  NoDup (outputs e) -> (forall k, k ∈ inputs e -> k ∉ outputs e) -> room s (theOperands i) (e :: es) fls ->
  wp (invoke e i) (fun i' s' => dispatched e i i' /\ core_ok s' c (extend fls (theOperands i') [e]) /\
    kept (alive c fls) (theRegisters s) (theRegisters s') /\ same_buffers s s') s.
Proof.
  intros Ok Hu Hd Hi Hr. destruct e as [k o| | |k o p []]; try done; cbn [inputs outputs] in *.
  - apply source_effect_ok; [done|done|]. specialize (Hi k). set_solver.
  - specialize (Hi k (list_elem_of_here _ _)). apply NoDup_cons in Hd as [Hd _].
    apply (destination_effect_ok _ _ _ _ _ _ _ es); [done|done|set_solver..|done].
Qed.

Lemma used_typed ops e : maps_used ops e = true -> exists k n, k ∈ inputs e /\ name_of ops k = Some n.
Proof.
  destruct e as [k o| | |k o p []]; try done; cbn; destruct (name_of ops k) as [n|] eqn:E; try done;
  intros _; exists k, n; (split; [by left|done]).
Qed.

Lemma maps_used_agree ops ops' e : agree (inputs e) ops ops' -> maps_used ops' e = maps_used ops e.
Proof.
  intros H. destruct e as [k o| | |k o p []]; try done; cbn; by rewrite (name_of_agree ops ops') by (apply H; by left).
Qed.

Lemma dest_names_agree ops ops' es : agree (es ≫= inputs) ops ops' -> dest_names ops' es = dest_names ops es.
Proof.
  intros H. induction es as [|e es IH]; [done|]. unfold dest_names in *. cbn in *.
  rewrite IH by (intros k Hk; apply H; rewrite elem_of_app; by right).
  destruct e as [k o| | |k o p b]; try done. by rewrite (name_of_agree ops ops') by (apply H; by left).
Qed.

Lemma elem_of_codes es k : k ∈ es ≫= codes <-> k ∈ es ≫= inputs \/ k ∈ es ≫= outputs.
Proof.
  induction es as [|e es IH]; cbn; [set_solver|]. unfold codes in *. rewrite !elem_of_app, IH. tauto.
Qed.

(** What is fixed about the operands while the effects [es] are dispatched after [dn]. *)
Record plan (i : Instruction) (dn es : list Effect) : Prop := {
  pl_typed : forall e, e ∈ dn -> mapped_typed (theOperands i) e;
  pl_used : forall e, e ∈ es -> maps_used (theOperands i) e = true;
  pl_once : NoDup ((dn ++ es) ≫= outputs);
  pl_inputs : forall k, k ∈ (dn ++ es) ≫= inputs -> k ∉ (dn ++ es) ≫= outputs;
  pl_retirement : theRetirementEffects i = retirement_of dn;
  pl_squash : Renaming.theSquashEffects i = squash_of dn;
}.

Lemma plan_fresh i dn e es k : plan i dn (e :: es) -> k ∈ outputs e ->
  k ∉ dn ≫= codes /\ k ∉ es ≫= inputs /\ k ∉ inputs e.
Proof.
  intros P Hk. pose proof (pl_once _ _ _ P) as Ho. pose proof (pl_inputs _ _ _ P) as Hi.
  rewrite bind_app in *. cbn in *. apply NoDup_app in Ho as (_ & Ho & _).
  rewrite bind_app in Hi. cbn in Hi.
  assert (Hni : forall k', k' ∈ (dn ≫= inputs) ++ inputs e ++ (es ≫= inputs) -> k' <> k).
  { intros k' H' ->. apply (Hi k H'). rewrite !elem_of_app. tauto. }
  rewrite elem_of_codes. split; [intros [H|H]|split; intros H].
  - apply (Hni k); [rewrite !elem_of_app; tauto|done].
  - apply (Ho k H). rewrite elem_of_app. by left.
  - apply (Hni k); [rewrite !elem_of_app; tauto|done].
  - apply (Hni k); [rewrite !elem_of_app; tauto|done].
Qed.

Lemma plan_step i i' dn e es : plan i dn (e :: es) -> dispatched e i i' -> plan i' (dn ++ [e]) es.
Proof.
  intros P D. assert (Ha : agree (dn ≫= codes) (theOperands i) (theOperands i')).
  { intros k Hk. apply (di_agree _ _ _ D). intros Ho. by destruct (plan_fresh _ _ _ _ _ P Ho) as (? & ? & ?). }
  assert (Hb : agree (es ≫= inputs) (theOperands i) (theOperands i')).
  { intros k Hk. apply (di_agree _ _ _ D). intros Ho. by destruct (plan_fresh _ _ _ _ _ P Ho) as (? & ? & ?). }
  pose proof (pl_once _ _ _ P) as Ho. pose proof (pl_inputs _ _ _ P) as Hi. rewrite cons_middle, (assoc (++)) in Ho.
  split; [| |exact Ho| | |].
  - intros x [Hx| ->%list_elem_of_singleton]%elem_of_app; [|apply D].
    eapply mapped_typed_agree; [|by apply (pl_typed _ _ _ P)]. intros k Hk. apply Ha.
    apply list_elem_of_bind. eauto.
  - intros x Hx. rewrite (maps_used_agree (theOperands i)); [apply (pl_used _ _ _ P); by right|].
    intros k Hk. apply Hb. apply list_elem_of_bind. eauto.
  - intros k Hk. rewrite <- (assoc (++)) in Hk |- *. by apply Hi.
  - rewrite (di_retirement _ _ _ D), (pl_retirement _ _ _ P). unfold retirement_of. by rewrite omap_app.
  - rewrite (di_squash _ _ _ D), (pl_squash _ _ _ P). unfold squash_of. by rewrite bind_app.
Qed.

Lemma extend_app fls ops l1 l2 t : extend (extend fls ops l1) ops l2 t = extend fls ops (l1 ++ l2) t.
Proof. unfold extend. by rewrite items_app, (assoc (++)). Qed.

Lemma extend_agree fls ops ops' es t : agree (es ≫= codes) ops ops' -> extend fls ops' es t = extend fls ops es t.
Proof. intros H. unfold extend. by rewrite (items_agree t ops ops'). Qed.

Lemma same_buffers_trans s1 s2 s3 : same_buffers s1 s2 -> same_buffers s2 s3 -> same_buffers s1 s3.
Proof. intros (? & ? & ?) (? & ? & ?). unfold same_buffers. by split_and!; congruence. Qed.

Lemma room_step s s' fls i i' dn e es : plan i dn (e :: es) -> dispatched e i i' -> same_buffers s s' ->
  room s (theOperands i) (e :: es) (extend fls (theOperands i) dn) ->
  room s' (theOperands i') es (extend fls (theOperands i') (dn ++ [e])).
Proof.
  intros P D (_ & _ & Es) Hr t. rewrite Es. specialize (Hr t).
  assert (Hd : dest_names (theOperands i') es = dest_names (theOperands i) es).
  { apply dest_names_agree. intros k Hk. apply (di_agree _ _ _ D). intros Ho.
    by destruct (plan_fresh _ _ _ _ _ P Ho) as (? & ? & ?). }
  assert (Hdn : items t (theOperands i') dn = items t (theOperands i) dn).
  { apply items_agree. intros k Hk. apply (di_agree _ _ _ D). intros Ho.
    by destruct (plan_fresh _ _ _ _ _ P Ho) as (? & ? & ?). }
  assert (He : dest_names (theOperands i') [e] = dest_names (theOperands i) [e]).
  { apply dest_names_agree. intros k Hk. apply (di_agree _ _ _ D). intros Ho.
    destruct (plan_fresh _ _ _ _ _ P Ho) as (? & ? & ?). cbn in Hk. by rewrite app_nil_r in Hk. }
  unfold extend in *. rewrite items_app, Hdn, Hd, !written_app, !length_app in *.
  rewrite (written_items t _ [e]) by (intros x ->%list_elem_of_singleton; apply D). rewrite He, length_fmap.
  assert (Hc : of_type t (dest_names (theOperands i) (e :: es)) =
    of_type t (dest_names (theOperands i) [e]) ++ of_type t (dest_names (theOperands i) es)).
  { unfold of_type, dest_names. rewrite <- filter_app, <- omap_app. done. }
  rewrite Hc, length_app in Hr. lia.
Qed.

Lemma dispatch_chain_ok c fls es dn i s : plan i dn es ->
  core_ok s c (extend fls (theOperands i) dn) -> room s (theOperands i) es (extend fls (theOperands i) dn) ->
  wp (invoke_chain es i) (fun i' s' => plan i' (dn ++ es) [] /\
    theDispatchEffects i' = theDispatchEffects i /\
    (forall k, k ∉ es ≫= outputs -> theOperands i' k = theOperands i k) /\
    core_ok s' c (extend fls (theOperands i') (dn ++ es)) /\
    kept (alive c fls) (theRegisters s) (theRegisters s') /\ same_buffers s s') s.
Proof.
  revert dn i s. induction es as [|e es IH]; intros dn i s P Ok Hr; cbn [invoke_chain].
  { apply wp_ret. rewrite app_nil_r. by split_and!. }
  apply wp_bind. eapply wp_mono.
  { apply (effect_ok _ _ _ _ _ es Ok); [apply (pl_used _ _ _ P); by left| | |done].
    - pose proof (pl_once _ _ _ P) as H. rewrite bind_app in H. cbn in H.
      apply NoDup_app in H as (_ & _ & H). by apply NoDup_app in H as [H _].
    - intros k Hk Ho. by destruct (plan_fresh _ _ _ _ _ P Ho) as (? & ? & ?). }
  intros i1 s1 (D & Ok1 & K1 & B1). pose proof (plan_step _ _ _ _ _ P D) as P1.
  assert (Hdn : agree (dn ≫= codes) (theOperands i) (theOperands i1)).
  { intros k Hk. apply (di_agree _ _ _ D). intros Ho. by destruct (plan_fresh _ _ _ _ _ P Ho) as (? & ? & ?). }
  eapply wp_mono; [apply (IH (dn ++ [e]) i1 s1 P1)|].
  - eapply core_ok_ext; [done| |exact Ok1]. intros t. rewrite <- extend_app. unfold extend at 1 3.
    by rewrite (extend_agree _ _ _ _ _ Hdn).
  - by eapply room_step.
  - intros i2 s2 (P2 & E2 & A2 & Ok2 & K2 & B2). rewrite <- (assoc (++)) in P2, Ok2. cbn in P2, Ok2.
    split_and!; [done|by rewrite E2, (di_dispatch _ _ _ D)| |done| |by eapply same_buffers_trans].
    + intros k Hk. cbn in Hk. rewrite elem_of_app in Hk. rewrite A2, (di_agree _ _ _ D); tauto.
    + intros r Hr'. rewrite (K2 r), (K1 r); [done|by apply alive_extend|done].
Qed.

(** An instruction is dispatched when the reorder buffer has a place for it. *)
Lemma dispatch_effects_ok c fls i s : well_formed i = true -> core_ok s c fls ->
  (forall t, length (written (fls t)) + per_instruction t <= per_instruction t * theROBSize s) ->
  wp (doDispatchEffects i) (fun i' s' => recorded i' /\
    (forall k r, theOperands i k = Some (OpReg r) -> k ∉ theDispatchEffects i ≫= outputs -> theOperands i' k = Some (OpReg r)) /\
    theDispatchEffects i' = theDispatchEffects i /\
    core_ok s' c (fun t => fls t ++ flight_of t i') /\
    kept (alive c fls) (theRegisters s) (theRegisters s') /\ same_buffers s s') s.
Proof.
  intros Hwf Ok Hroom. unfold well_formed in Hwf. rewrite !andb_true_iff, !bool_decide_eq_true in Hwf.
  destruct Hwf as [[[[[[W1 W2] W3] W4] W5] W6] W7].
  assert (W3' : forall k, k ∈ theDispatchEffects i ≫= inputs -> k ∉ theDispatchEffects i ≫= outputs).
  { intros k Hk. rewrite forallb_forall in W3. specialize (W3 k (proj1 (list_elem_of_In _ _) Hk)).
    by apply bool_decide_eq_true in W3. }
  assert (W7' : forall t, length (of_type t (dest_names (theOperands i) (theDispatchEffects i))) <= per_instruction t).
  { intros t. rewrite forallb_forall in W7. apply Nat.leb_le, W7. destruct t; cbn; tauto. }
  assert (P : plan i [] (theDispatchEffects i)).
  { split; try done; cbn [app]; [by intros e ?%not_elem_of_nil|].
    intros e He. rewrite forallb_forall in W1. by apply W1, list_elem_of_In. }
  unfold doDispatchEffects. eapply wp_mono; [apply (dispatch_chain_ok c fls _ [] i s P)|].
  - eapply core_ok_ext; [done| |exact Ok]. intros t. unfold extend. by rewrite app_nil_r.
  - intros t. unfold extend. rewrite app_nil_r. specialize (Hroom t). specialize (W7' t). lia.
  - intros i' s' (P' & E & A & Ok' & K & B). cbn [app] in *.
    assert (En : dest_names (theOperands i') (theDispatchEffects i') = dest_names (theOperands i) (theDispatchEffects i)).
    { rewrite E. apply dest_names_agree. intros k Hk. by apply A, W3'. }
    split_and!; [|by intros k r Hk Hn; rewrite A|done| |done|done].
    + split; rewrite ?En; [by rewrite E; apply P'| |by rewrite E; apply P'|by rewrite E; apply P'|done|done].
      rewrite E. intros e He. rewrite (maps_used_agree (theOperands i)); [by apply (pl_used _ _ _ P)|].
      intros k Hk. apply A, W3', list_elem_of_bind. eauto.
    + eapply core_ok_ext; [done| |exact Ok']. intros t. unfold extend, flight_of. by rewrite E.
Qed.

(** ** Retirement *)

Lemma items_cons t ops e es : items t ops (e :: es) = items t ops [e] ++ items t ops es.
Proof. apply (items_app t ops [e]). Qed.

Lemma items_source t ops k o n m : ops k = Some (OpReg n) -> ops o = Some (OpMapped m) ->
  items t ops [MapSourceEffect k o] = if decide (theType n = t) then [Read (theIndex n) (theIndex m)] else [].
Proof.
  intros E1 E2. unfold items. cbn. unfold name_of, mapped_of. rewrite E1, E2. cbn. by case_decide.
Qed.

Lemma items_destination t ops k o p b n m q :
  ops k = Some (OpReg n) -> ops o = Some (OpMapped m) -> ops p = Some (OpMapped q) ->
  items t ops [MapDestinationEffect k o p b] =
    if decide (theType n = t) then [Write (theIndex n) (theIndex m) (theIndex q)] else [].
Proof.
  intros E1 E2 E3. unfold items. cbn. unfold name_of, mapped_of. rewrite E1, E2, E3. cbn. by case_decide.
Qed.

Lemma bank_skip_read t c a r fl rob p f : bank_ok t c (Read a r :: fl) rob p f -> bank_ok t c fl rob p f.
Proof. intros []. split; try done. by eapply table_skip_read. Qed.

Lemma retire_chain_ok i rest es : (forall e, e ∈ es -> mapped_typed (theOperands i) e) -> forall c fls s,
  core_ok s c fls -> (forall t, fls t = items t (theOperands i) es ++ rest t) ->
  wp (invoke_chain (retirement_of es) i) (fun i' s' => i' = i /\
    core_ok s' (fun t => newest (c t) (items t (theOperands i) es)) rest /\
    kept (fun _ => True) (theRegisters s) (theRegisters s') /\ same_buffers s s') s.
Proof.
  induction es as [|e es IH]; intros Ht c fls s Ok Hf.
  { apply wp_ret. split_and!; try done. eapply core_ok_ext; [done| |exact Ok]. intros t. by rewrite Hf. }
  assert (He : mapped_typed (theOperands i) e) by (apply Ht; by left).
  assert (Ht' : forall x, x ∈ es -> mapped_typed (theOperands i) x) by (intros; apply Ht; by right).
  destruct e as [k o| | |k o p b]; try done; cbn [mapped_typed] in He.
  - destruct He as (n & m & E1 & E2 & _). change (retirement_of (_ :: es)) with (retirement_of es).
    eapply wp_mono; [apply (IH Ht' c (fun t => items t (theOperands i) es ++ rest t)); [|done]|].
    + destruct Ok as [W B]. split; [done|]. intros t. specialize (B t).
      rewrite Hf, items_cons, (items_source t _ k o n m E1 E2) in B. case_decide; [|done].
      exact (bank_skip_read _ _ _ _ _ _ _ _ B).
    + intros i' s' (-> & Ok' & K & Bu). split_and!; try done. eapply core_ok_ext; [|done|exact Ok'].
      intros t. rewrite items_cons, newest_app, (items_source t _ k o n m E1 E2). by case_decide.
  - destruct He as (-> & n & m & q & E1 & E2 & E3 & _ & Tq). cbn [retirement_of omap list_omap].
    change (invoke_chain _ i) with (i ← invoke (FreeMappingEffect p) i; invoke_chain (retirement_of es) i).
    apply wp_bind. cbn [invoke]. apply wp_bind. eapply wp_operand_mapped; [exact E3|]. apply wp_bind.
    pose proof (Hf (theType n)) as Hn. rewrite items_cons, (items_destination _ _ _ _ _ _ n m q E1 E2 E3), decide_True in Hn by done.
    replace q with (mkReg (theType n) (theIndex q)) at 1 by (destruct q; cbn in *; by subst).
    eapply wp_mono; [by apply (core_retire_ok Ok _ _ _ _ _ Hn)|]. intros _ s1 (Ok1 & K1 & B1). apply wp_ret.
    eapply wp_mono; [apply (IH Ht' _ _ s1 Ok1)|].
    + intros t. unfold tset. case_decide as D; [by subst t|].
      by rewrite Hf, items_cons, (items_destination t _ _ _ _ _ n m q E1 E2 E3), decide_False.
    + intros i' s' (-> & Ok' & K & Bu). split_and!; [done| |intros r _; by rewrite (K r), (K1 r)|by eapply same_buffers_trans].
      eapply core_ok_ext; [|done|exact Ok']. intros t. rewrite items_cons, newest_app.
      rewrite (items_destination t _ _ _ _ _ n m q E1 E2 E3). unfold tset. case_decide as D.
      * subst t. by rewrite decide_True.
      * by rewrite decide_False.
Qed.

(** The oldest instruction retires: its registers become the committed ones. *)
Lemma retirement_ok c fls rest i s : recorded i -> core_ok s c fls -> (forall t, fls t = flight_of t i ++ rest t) ->
  wp (doRetirementEffects i) (fun i' s' => i' = set_retired i /\
    core_ok s' (fun t => newest (c t) (flight_of t i)) rest /\
    kept (fun _ => True) (theRegisters s) (theRegisters s') /\ same_buffers s s') s.
Proof.
  intros R Ok Hf. unfold doRetirementEffects. rewrite (rc_retirement _ R). apply wp_bind.
  eapply wp_mono; [apply (retire_chain_ok i rest _ (rc_typed _ R) c fls s Ok Hf)|].
  intros i' s' (-> & ?). by apply wp_ret.
Qed.

(** ** Squash *)

Lemma only_writes_app l1 l2 : only_writes (l1 ++ l2) = only_writes l1 ++ only_writes l2.
Proof. apply omap_app. Qed.

Lemma items_apart t ops es a : (forall e, e ∈ es -> mapped_typed ops e) -> mkReg t a ∉ dest_names ops es ->
  apart a (only_writes (items t ops es)).
Proof.
  intros Ht Hn i Hi. assert (Hb : written (only_writes (items t ops es)) = written (items t ops es)) by apply written_only_writes.
  rewrite (written_items t ops es Ht) in Hb. unfold only_writes in Hi. apply list_elem_of_omap in Hi as (j & Hj & Ej).
  destruct j as [|b r q]; simplify_eq. intros ->. apply Hn.
  assert (Ha : a ∈ written (only_writes (items t ops es))).
  { apply list_elem_of_omap. exists (Write a r q). split; [|done]. apply list_elem_of_omap. by exists (Write a r q). }
  rewrite Hb in Ha. apply list_elem_of_fmap in Ha as ([t' a'] & -> & Ha). apply list_elem_of_filter in Ha as [<- Ha]. done.
Qed.

(** The two effects that squash a destination. *)
Lemma squash_effects_ok k o p n m q i (Q : Instruction -> Core -> Prop) (next : Instruction -> M Core Instruction) s :
  theOperands i k = Some (OpReg n) -> theOperands i o = Some (OpMapped m) -> theOperands i p = Some (OpMapped q) ->
  wp (core_restore n q;; core_free m) (fun _ s' => wp (next i) Q s') s ->
  wp (i ← invoke (RestoreMappingEffect k p) i; i ← invoke (FreeMappingEffect o) i; next i) Q s.
Proof.
  intros E1 E2 E3 H. unfold wp in *. cbn [invoke]. cbv [mbind M_bind mret M_ret] in *.
  rewrite (operand_reg_ok _ _ _ _ E1), (operand_mapped_ok _ _ _ _ E3).
  destruct (core_restore n q s) as [[[] s1]|]; [|done]. rewrite (operand_mapped_ok _ _ _ _ E2).
  by destruct (core_free m s1) as [[[] s2]|].
Qed.

Lemma squash_chain_ok i pre es : (forall e, e ∈ es -> mapped_typed (theOperands i) e) ->
  NoDup (dest_names (theOperands i) es) -> forall c fls s, core_ok s c fls ->
  (forall t, fls t = pre t ++ only_writes (items t (theOperands i) es)) ->
  wp (invoke_chain (squash_of es) i) (fun i' s' => i' = i /\ core_ok s' c pre /\
    kept (fun _ => True) (theRegisters s) (theRegisters s') /\ same_buffers s s') s.
Proof.
  induction es as [|e es IH]; intros Ht Hnd c fls s Ok Hf.
  { apply wp_ret. split_and!; try done. eapply core_ok_ext; [done| |exact Ok]. intros t. by rewrite Hf, app_nil_r. }
  assert (He : mapped_typed (theOperands i) e) by (apply Ht; by left).
  assert (Ht' : forall x, x ∈ es -> mapped_typed (theOperands i) x) by (intros; apply Ht; by right).
  destruct e as [k o| | |k o p b]; try done; cbn [mapped_typed] in He.
  - destruct He as (n & m & E1 & E2 & _). apply (IH Ht' Hnd c fls s Ok).
    intros t. rewrite Hf, items_cons, (items_source t _ k o n m E1 E2). by case_decide.
  - destruct He as (-> & n & m & q & E1 & E2 & E3 & Tm & Tq).
    unfold dest_names in Hnd. cbn in Hnd. unfold name_of at 1 in Hnd. rewrite E1 in Hnd. apply NoDup_cons in Hnd as [Hn Hnd].
    change (invoke_chain _ i) with (i ← invoke (RestoreMappingEffect k p) i; i ← invoke (FreeMappingEffect o) i; invoke_chain (squash_of es) i).
    eapply squash_effects_ok; [exact E1|exact E2|exact E3|].
    pose proof (Hf (theType n)) as Hfn.
    rewrite items_cons, (items_destination _ _ _ _ _ _ n m q E1 E2 E3), decide_True in Hfn by done.
    destruct n as [t a], m as [tm r], q as [tq x]. cbn [theType theIndex] in *. subst tm tq.
    eapply wp_mono; [apply (core_squash_ok Ok t a r x (pre t) _ Hfn)|].
    + by apply items_apart.
    + intros _ s1 (Ok1 & K1 & B1). eapply wp_mono; [apply (IH Ht' Hnd c _ s1 Ok1)|].
      * intros t'. unfold tset. case_decide as D; [by subst t'|].
        by rewrite Hf, items_cons, (items_destination t' _ _ _ _ _ _ _ _ E1 E2 E3), decide_False by (cbn; congruence).
      * intros i' s' (-> & Ok' & K & Bu). split_and!; [done|done|intros y _; by rewrite (K y), (K1 y)|by eapply same_buffers_trans].
Qed.

(** The youngest instruction is squashed: its registers are free again. *)
Lemma squash_instruction_ok c fls pre i s : recorded i -> core_ok s c fls -> (forall t, fls t = pre t ++ flight_of t i) ->
  wp (squash i) (fun i' s' => i' = set_squashed i /\ core_ok s' c pre /\
    kept (fun _ => True) (theRegisters s) (theRegisters s') /\ same_buffers s s') s.
Proof.
  intros R Ok Hf. unfold squash. cbn [Renaming.theSquashEffects set_squashed]. rewrite (rc_squash _ R).
  apply (squash_chain_ok (set_squashed i) pre _ (rc_typed _ R) (rc_names _ R) c
    (fun t => pre t ++ only_writes (flight_of t i)) s); [|done].
  destruct Ok as [W B]. split; [done|]. intros t. apply (bank_drop_reads (B t)), Hf.
Qed.
