(* ===== verification/RenamingContract.v ===== *)
(** * What register renaming promises

    The core under every sequence of dispatches of well-formed instructions,
    retirements, squashes and uses of the mapped registers: no assertion of the map tables or of the register file
    fails and a register is always free for a dispatch, sources are mapped to the
    newest older write, the architectural registers change only when an instruction
    retires, and a squash restores the mappings.  Instructions that the
    decoder builds with distinct destinations are well formed; one that names a
    register twice as its destination breaks the map table when it is squashed. *)

From stdpp Require Import base list sets strings.
From Stdlib Require Import ZArith Lia.
From S2P Require Import Prelude RegisterMap RegisterFile Renaming RenamingInvariant RenamingRuns.

(** ** Events *)

(** What happens to the core; [k] is a position in the reorder buffer and [j] one of
    the dispatch effects of the instruction there.  [complete] says which
    instructions are complete, [accepts] which bypass functions take the value. *)
Inductive core_event : Type :=
  | Dispatch (i : Instruction)
  | Retire
  | Commit
  | SquashFrom (k : nat) (theSquashInclusive : bool)
  | RequestRegister (k j : nat) (d : InstructionDependance) (complete : Z -> bool)
  | ConnectBypass (k j : nat) (h : bypass_handle) (complete : Z -> bool)
  | WriteRegister (k j : nat) (v : register_value) (isW : bool) (complete : Z -> bool)
  | BypassRegister (k j : nat) (v : register_value) (accepts : bypass_handle -> register_value -> bool)
  | SquashRegister (k j : nat).

(** The register that an effect has mapped, and whether it is a destination. *)
Definition effect_register (i : Instruction) (e : Effect) : option (bool * reg) :=
  match e with
  | MapSourceEffect _ o => m ← mapped_of (theOperands i) o; Some (false, m)
  | MapDestinationEffect _ o _ _ => m ← mapped_of (theOperands i) o; Some (true, m)
  | _ => None
  end.
Definition register_at (k j : nat) (s : Core) : option (bool * reg) :=
  i ← theROB s !! k; e ← theDispatchEffects i !! j; effect_register i e.

Definition on_register (k j : nat) (op : reg -> M RegisterFile ()) : M Core () :=
  s ← gets id;
  match register_at k j s with Some (_, r) => registers (op r) | None => mret () end.

(** An instruction writes the registers that its destinations have been given: an
    effect that is no destination has nothing to write. *)
Definition on_destination (k j : nat) (op : reg -> M RegisterFile ()) : M Core () :=
  s ← gets id;
  match register_at k j s with Some (true, r) => registers (op r) | _ => mret () end.

(** The decoder hands an instruction over when the reorder buffer has room (whether or
    not an interrupt or spinning also holds it back). *)
Definition try_dispatch (i : Instruction) : M Core () :=
  s ← gets id;
  if (0 <? availableROB false false false 0 s)%Z then dispatch i else mret ().

Definition exec (e : core_event) : M Core () :=
  match e with
  | Dispatch i => try_dispatch i
  | Retire => retire
  | Commit => commit
  | SquashFrom k incl => doSquash k incl
  | RequestRegister k j d complete => on_register k j (fun r => _ ← request complete r d; mret ())
  | ConnectBypass k j h complete => on_register k j (fun r => connect complete r h)
  | WriteRegister k j v isW complete => on_destination k j (fun r => write complete r v isW)
  | BypassRegister k j v accepts => on_register k j (fun r => write_bypass accepts r v)
  | SquashRegister k j => on_register k j squash_register
  end.

Fixpoint run (es : list core_event) : M Core () :=
  match es with [] => mret () | e :: es => exec e;; run es end.

(** What the theorems ask of the events: the instructions are well formed and the
    values written are those of the integer registers. *)
Definition allowed (e : core_event) : bool :=
  match e with
  | Dispatch i => well_formed i
  | WriteRegister _ _ v _ _ => match v with UInt64 _ => true | _ => false end
  | _ => true
  end.
Definition all_allowed (es : list core_event) : Prop := Forall (fun e => allowed e = true) es.

Definition final (m : M Core ()) (s : Core) : outcome Core :=
  match m s with Done (_, s) => Done s | Assert why => Assert why end.

(** A core with [rob] places in its reorder buffer, with the architectural state
    restored, after the events. *)
Definition core_run (rob : nat) (theGlobalRegs : nat -> Z) (theCCRegs : Z) (es : list core_event) : outcome Core :=
  final (restoreARMState theGlobalRegs theCCRegs;; run es) (newCore rob).

(** ** The invariant of the core *)

Definition flights_of (l : list Instruction) : flights := fun t => l ≫= flight_of t.

Record rob_ok (s : Core) (c : committed) : Prop := {
  rb_core : core_ok s c (flights_of (theROB s));
  rb_recorded : Forall recorded (theROB s);
  rb_size : length (theROB s) <= theROBSize s;
}.

Lemma flights_app l1 l2 t : flights_of (l1 ++ l2) t = flights_of l1 t ++ flights_of l2 t.
Proof. apply bind_app. Qed.
Lemma flights_one i t : flights_of [i] t = flight_of t i.
Proof. unfold flights_of. cbn. apply app_nil_r. Qed.

(** An instruction in the buffer uses at most its share of the registers. *)
Lemma flights_bound l t : Forall recorded l -> length (written (flights_of l t)) <= per_instruction t * length l.
Proof.
  induction 1 as [|i l R Hl IH]; [cbn; lia|]. change (flights_of (i :: l) t) with (flight_of t i ++ flights_of l t).
  rewrite written_app, length_app. unfold flight_of at 1. rewrite (written_items _ _ _ (rc_typed _ R)), length_fmap.
  pose proof (rc_count _ R t). cbn. lia.
Qed.

Lemma squash_all_ok c pre l : Forall recorded l -> forall s,
  core_ok s c (fun t => pre t ++ flights_of l t) ->
  wp (squash_all (rev l)) (fun _ s' => core_ok s' c pre /\
    kept (fun _ => True) (theRegisters s) (theRegisters s') /\ same_buffers s s') s.
Proof.
  induction l as [|i l IH] using rev_ind; intros R s Ok.
  - apply wp_ret. split_and!; try done. eapply core_ok_ext; [done| |exact Ok]. intros t. cbn. by rewrite app_nil_r.
  - apply Forall_app in R as [R Ri]. apply Forall_cons in Ri as [Ri _]. rewrite rev_unit. cbn [squash_all].
    apply wp_bind. eapply wp_mono; [apply (squash_instruction_ok c _ (fun t => pre t ++ flights_of l t) i s Ri Ok)|].
    + intros t. cbn. by rewrite flights_app, flights_one, (assoc (++)).
    + intros i' s1 (-> & Ok1 & K1 & B1). eapply wp_mono; [apply (IH R s1 Ok1)|].
      intros _ s2 (Ok2 & K2 & B2). split_and!; [done|intros r _; by rewrite (K2 r), (K1 r)|by eapply same_buffers_trans].
Qed.

Section events.
Context {s : Core} {c : committed} (Ok : rob_ok s c).

Lemma dispatch_event_ok i : well_formed i = true -> length (theROB s) < theROBSize s ->
  wp (dispatch i) (fun _ s' => rob_ok s' c /\
    kept (alive c (flights_of (theROB s))) (theRegisters s) (theRegisters s') /\
    exists i', theROB s' = theROB s ++ [i'] /\ theROBSize s' = theROBSize s) s.
Proof.
  intros Hwf Hlt. destruct Ok as [Okc R Hs]. unfold dispatch. apply wp_bind.
  eapply wp_mono; [apply (dispatch_effects_ok c _ i s Hwf Okc)|].
  - intros t. pose proof (flights_bound _ t R). nia.
  - intros i' s1 (Ri & _ & _ & Ok1 & K & B1 & B2 & B3). apply wp_modify. split; [|split; [done|exists i'; cbn; by rewrite B1]].
    split; cbn; rewrite B1, ?B3.
    + destruct Ok1 as [W B]. split; [done|]. intros t. cbn. rewrite flights_app, flights_one. apply B.
    + apply Forall_app. split; [done|by apply Forall_singleton].
    + rewrite length_app. cbn. lia.
Qed.

Lemma retire_event_ok : wp retire (fun _ s' =>
  exists c', rob_ok s' c' /\ kept (fun _ => True) (theRegisters s) (theRegisters s') /\ theROBSize s' = theROBSize s /\
  match theROB s with [] => c' = c | i :: _ => forall t, c' t = newest (c t) (flight_of t i) end) s.
Proof.
  destruct Ok as [Okc R Hs]. unfold retire. apply wp_bind, wp_gets. unfold id.
  destruct (theROB s) as [|i l] eqn:Er; [apply wp_ret; exists c; split_and!; try done; split; rewrite Er; done|].
  apply Forall_cons in R as [Ri R]. apply wp_bind.
  eapply wp_mono; [apply (retirement_ok c _ (flights_of l) i s Ri Okc); done|].
  intros i' s1 (-> & Ok1 & K & B1 & B2 & B3). apply wp_modify.
  exists (fun t => newest (c t) (flight_of t i)). split; [|done]. split; cbn; [|done|rewrite B3; cbn in Hs; lia].
  destruct Ok1 as [W B]. by split.
Qed.

Lemma squash_event_ok k incl : wp (doSquash k incl) (fun _ s' => rob_ok s' c /\
  kept (fun _ => True) (theRegisters s) (theRegisters s') /\ theROBSize s' = theROBSize s /\
  theROB s' = if decide (k < length (theROB s)) then take (if incl then k else S k) (theROB s) else theROB s) s.
Proof.
  destruct Ok as [Okc R Hs]. unfold doSquash. apply wp_bind, wp_gets. unfold id. case_decide as D; [|by apply wp_ret].
  set (n := if incl then k else S k). apply wp_bind.
  assert (Rd : Forall recorded (drop n (theROB s))) by by apply Forall_drop.
  eapply wp_mono; [apply (squash_all_ok c (flights_of (take n (theROB s))) _ Rd s)|].
  - eapply core_ok_ext; [done| |exact Okc]. intros t. cbn. by rewrite <- flights_app, take_drop.
  - intros _ s1 (Ok1 & K & B1 & B2 & B3). apply wp_modify. split; [|done].
    split; cbn; [|by apply Forall_take|rewrite length_take; lia]. destruct Ok1 as [W B]. by split.
Qed.
End events.

(** ** Uses of the mapped registers *)

Lemma flight_in i l1 l2 t x : x ∈ flight_of t i -> x ∈ flights_of (l1 ++ i :: l2) t.
Proof. intros H. rewrite flights_app, elem_of_app. right. unfold flights_of. cbn. rewrite elem_of_app. by left. Qed.

Lemma read_alive c t fl a m : linked c fl -> Read a m ∈ fl -> a < used t -> live t c fl m.
Proof.
  intros Hl (l1 & l2 & ->)%list_elem_of_split Ha. apply linked_app in Hl as [_ [-> _]].
  destruct (newest_live (t := t) (c := c) (fl := l1) a Ha) as [H|H]; [by left|right].
  rewrite news_app, elem_of_app. by left.
Qed.

Lemma effect_item i e t : mapped_typed (theOperands i) e -> e ∈ theDispatchEffects i -> forall x,
  item_of (theOperands i) e = Some (t, x) -> x ∈ flight_of t i.
Proof.
  intros He Hin x Hx. apply list_elem_of_omap. exists e. split; [done|]. rewrite Hx. cbn. by rewrite decide_True.
Qed.

Lemma register_alive s c k j b r : rob_ok s c -> register_at k j s = Some (b, r) ->
  alive c (flights_of (theROB s)) r /\ (b = true -> theIndex r ∈ news (flights_of (theROB s) (theType r))).
Proof.
  intros [Okc R _] H. unfold register_at in H. destruct (theROB s !! k) as [i|] eqn:Ei; [|done]. cbn in H.
  destruct (theDispatchEffects i !! j) as [e|] eqn:Ee; [|done]. cbn in H.
  apply list_elem_of_lookup_2 in Ee. pose proof (proj1 (Forall_lookup _ _) R k i Ei) as Ri.
  pose proof (rc_typed _ Ri e Ee) as He. pose proof (rc_used _ Ri e Ee) as Hu.
  apply take_drop_middle in Ei. rewrite <- Ei.
  destruct e as [p o| | |p o q sq]; try done; cbn in *.
  - destruct He as (n & m & E1 & E2 & Tm). unfold mapped_of, name_of in *. rewrite E1 in Hu. rewrite E2 in H. cbn in H.
    injection H as <- <-. split; [|done]. apply Nat.ltb_lt in Hu. unfold alive. rewrite Tm.
    apply (read_alive _ _ _ (theIndex n)); [|apply flight_in|done].
    + rewrite Ei. apply (bk_table _ _ _ _ _ _ (co_bank _ _ _ Okc (theType n))).
    + eapply effect_item; [|exact Ee|]; [by apply Ri|]. cbn. unfold mapped_of, name_of. by rewrite E1, E2.
  - destruct He as (-> & n & m & x & E1 & E2 & E3 & Tm & Tq). unfold mapped_of in H. rewrite E2 in H. cbn in H.
    injection H as <- <-. unfold alive. rewrite Tm.
    assert (Hn : theIndex m ∈ news (flights_of (take k (theROB s) ++ i :: drop (S k) (theROB s)) (theType n))).
    { apply elem_of_news. exists (theIndex n), (theIndex x). apply flight_in.
      eapply effect_item; [|exact Ee|]; [by apply Ri|]. cbn. unfold mapped_of, name_of. by rewrite E1, E2, E3. }
    split; [by right|done].
Qed.

(** An operation of the register file on a register that an instruction has mapped. *)
Lemma on_register_ok s c k j op : rob_ok s c ->
  (forall b r x y, register_at k j s = Some (b, r) ->
    theRegs (theRegisters s) (theType r) !! theIndex r = Some x ->
    theBypassNetwork (theRegisters s) (theType r) !! theIndex r = Some y ->
    theStatus x <> kUnmapped -> is_uint64 (theReg x) ->
    wp (op r) (fun _ => updated r (theRegisters s) (fun x' _ => theStatus x' <> kUnmapped /\ is_uint64 (theReg x') /\
      (theReg x' = theReg x \/ b = true))) (theRegisters s)) ->
  wp (on_register k j op) (fun _ s' => rob_ok s' c /\ theROB s' = theROB s /\ theROBSize s' = theROBSize s /\
    kept (fun r => theIndex r ∉ news (flights_of (theROB s) (theType r))) (theRegisters s) (theRegisters s')) s.
Proof.
  intros Ok H. unfold on_register. apply wp_bind, wp_gets. unfold id.
  destruct (register_at k j s) as [[b r]|] eqn:Er; [|by apply wp_ret].
  destruct (register_alive _ _ _ _ _ _ Ok Er) as [Hal Hnew]. destruct Ok as [Okc R Hs].
  destruct (alive_register _ _ _ _ Okc Hal) as (x & y & Hx & Hy & Hst & Hu).
  apply wp_registers. eapply wp_mono; [by eapply H|]. intros _ f [T (x' & y' & Hx' & Hy' & Hst' & Hu' & Hv)].
  split; [|split; [done|split; [done|]]].
  - split; [|done|done]. cbn. apply (core_touch _ _ _ r); [done|done|]. split; [done|]. eauto 6.
  - eapply touches_kept; [done|]. intros Hr. unfold value_of. cbn in *. rewrite Hx', Hx. cbn.
    destruct Hv as [->| ->]; [done|]. by destruct (Hr (Hnew eq_refl)).
Qed.

Lemma on_destination_register k j op s :
  on_destination k j op s = match register_at k j s with Some (true, _) => on_register k j op s | _ => Done ((), s) end.
Proof.
  unfold on_destination, on_register. cbv [mbind M_bind gets id mret M_ret].
  by destruct (register_at k j s) as [[[] r]|].
Qed.

(** ** Every event *)

Definition holds_committed (c : committed) (r : reg) : Prop :=
  exists a, a < used (theType r) /\ theIndex r = c (theType r) a.

(** The registers that hold the architectural state after an event. *)
Definition committed_after (e : core_event) (s : Core) (c c' : committed) : Prop :=
  forall t, c' t = match e, theROB s with Retire, i :: _ => newest (c t) (flight_of t i) | _, _ => c t end.

Definition event_post (e : core_event) (s : Core) (c : committed) (s' : Core) : Prop :=
  exists c', rob_ok s' c' /\ theROBSize s' = theROBSize s /\ committed_after e s c c' /\
  kept (holds_committed c') (theRegisters s) (theRegisters s').

Lemma committed_alive s c r : rob_ok s c -> holds_committed c r ->
  alive c (flights_of (theROB s)) r /\ theIndex r ∉ news (flights_of (theROB s) (theType r)).
Proof.
  intros [Okc _ _] (a & Ha & E). split; [by left; exists a|]. rewrite E.
  pose proof (co_bank _ _ _ Okc (theType r)) as B. apply (committed_used (bk_table _ _ _ _ _ _ B)).
  rewrite (bk_names _ _ _ _ _ _ B). pose proof (used_names (theType r)). lia.
Qed.

Lemma register_event_ok e k j op s c : rob_ok s c -> e <> Retire -> exec e s = on_register k j op s ->
  (forall b r x y, register_at k j s = Some (b, r) ->
    theRegs (theRegisters s) (theType r) !! theIndex r = Some x ->
    theBypassNetwork (theRegisters s) (theType r) !! theIndex r = Some y ->
    theStatus x <> kUnmapped -> is_uint64 (theReg x) ->
    wp (op r) (fun _ => updated r (theRegisters s) (fun x' _ => theStatus x' <> kUnmapped /\ is_uint64 (theReg x') /\
      (theReg x' = theReg x \/ b = true))) (theRegisters s)) ->
  wp (exec e) (fun _ => event_post e s c) s.
Proof.
  intros Ok Hne E H. unfold wp. rewrite E.
  eapply (wp_mono (on_register k j op)); [by apply (on_register_ok _ _ _ _ _ Ok)|].
  intros _ s' (Ok' & _ & Hsz & K). exists c. split_and!; [done|done| |].
  - intros t. by destruct e.
  - intros r Hr. apply K. by apply (committed_alive _ _ _ Ok Hr).
Qed.

Lemma nothing_happens e s c : rob_ok s c -> e <> Retire -> event_post e s c s.
Proof. intros Ok Hne. exists c. split_and!; [done|done| |done]. intros t. by destruct e. Qed.

Lemma event_ok e s c : rob_ok s c -> allowed e = true -> wp (exec e) (fun _ => event_post e s c) s.
Proof.
  intros Ok Ha. destruct e as [i| | |k incl|k j d complete|k j h complete|k j v isW complete|k j v accepts|k j].
  - cbn [allowed exec] in *. unfold try_dispatch. apply wp_bind, wp_gets. unfold id.
    destruct (Z.ltb_spec 0 (availableROB false false false 0 s)) as [Hlt|_]; [|by apply wp_ret, nothing_happens].
    cbn in Hlt. eapply wp_mono; [apply (dispatch_event_ok Ok i Ha); lia|]. intros _ s' (Ok' & K & i' & _ & Hsz).
    exists c. split_and!; try done. intros r Hr. apply K. by apply (committed_alive _ _ _ Ok Hr).
  - cbn [exec]. eapply wp_mono; [apply (retire_event_ok Ok)|]. intros _ s' (c' & Ok' & K & Hsz & Hc).
    exists c'. split_and!; [done|done| |intros r _; by apply K].
    intros t. destruct (theROB s); [by subst c'|apply Hc].
  - cbn [exec]. unfold commit. apply wp_modify. exists c. destruct Ok as [[W B] R Hs]. by split_and!.
  - cbn [exec]. eapply wp_mono; [apply (squash_event_ok Ok)|]. intros _ s' (Ok' & K & Hsz & _).
    exists c. split_and!; try done. intros r _. by apply K.
  - eapply register_event_ok; [done|done|reflexivity|]. intros b r x y _ Hx Hy Hs Hu. cbn beta. apply wp_bind.
    eapply wp_mono; [by apply (request_ok complete r _ x y Hx Hy d)|]. intros _ f [T (x' & y' & Hx' & Hy' & Es & Ev)].
    apply wp_ret. split; [done|]. exists x', y'. rewrite Es, Ev. naive_solver.
  - eapply register_event_ok; [done|done|reflexivity|]. intros b r x y _ Hx Hy Hs Hu. cbn beta.
    eapply wp_mono; [by apply (connect_ok complete r _ x y Hx Hy h)|]. intros _ f [T (x' & y' & Hx' & Hy' & ->)].
    split; [done|]. exists x, y'. naive_solver.
  - cbn [allowed] in Ha. destruct v as [|z|]; try done.
    assert (D : (exists r, register_at k j s = Some (true, r)) \/ on_destination k j (fun r => write complete r (UInt64 z) isW) s = Done ((), s)).
    { rewrite on_destination_register. destruct (register_at k j s) as [[[] r]|]; eauto. }
    destruct D as [[r0 Er0]|E]; [|unfold wp; cbn [exec]; rewrite E; by apply nothing_happens].
    eapply register_event_ok; [done|done|cbn [exec]; by rewrite on_destination_register, Er0|].
    intros b r x y Er Hx Hy Hs Hu. cbn beta. rewrite Er0 in Er. injection Er as <- ->.
    eapply wp_mono; [by apply (write_ok complete r _ x y Hx Hy)|]. intros _ f [T (x' & y' & Hx' & Hy' & Es & Ev)].
    split; [done|]. exists x', y'. rewrite Es. naive_solver.
  - eapply register_event_ok; [done|done|reflexivity|]. intros b r x y _ Hx Hy Hs Hu. cbn beta.
    eapply wp_mono; [by apply (write_bypass_ok accepts r _ x y Hx Hy v)|]. intros _ f [T (x' & y' & Hx' & Hy' & ->)].
    split; [done|]. exists x, y'. naive_solver.
  - eapply register_event_ok; [done|done|reflexivity|]. intros b r x y _ Hx Hy Hs Hu. cbn beta.
    eapply wp_mono; [by apply (squash_register_ok r _ x y Hx Hy Hs)|]. intros _ f [T (x' & y' & Hx' & Hy' & Es & Ev)].
    split; [done|]. exists x', y'. rewrite Ev. naive_solver.
Qed.

(** ** The first state *)

(** While the architectural registers are initialised: [dn] are, the others are fresh. *)
Definition initialised (sizes : eRegisterType -> nat) (dn : list reg) (f : RegisterFile) : Prop :=
  (forall t, length (theRegs f t) = sizes t /\ length (theBypassNetwork f t) = sizes t) /\
  forall r, theIndex r < sizes (theType r) -> exists x b, theRegs f (theType r) !! theIndex r = Some x /\
  theBypassNetwork f (theType r) !! theIndex r = Some b /\ is_uint64 (theReg x) /\
  if decide (r ∈ dn) then theStatus x <> kUnmapped else x = fresh_register /\ b = fresh_bypass.

Lemma initialize_step sizes dn r v f : initialised sizes dn f -> theIndex r < sizes (theType r) -> is_uint64 v ->
  wp (initializeRegister r v) (fun _ => initialised sizes (r :: dn)) f.
Proof.
  intros [Hl Hr] Hlt Hv. destruct (Hr r Hlt) as (x & b & Hx & Hb & Hu & _).
  eapply wp_mono; [by apply (initialize_ok r f x b Hx Hb)|]. intros _ f' [[T1 T2 T3] (x' & b' & Hx' & Hb' & Es & Ev)].
  split; [intros t; rewrite T1, T2; apply Hl|]. intros r' Hlt'. destruct (decide (r' = r)) as [->|N].
  - exists x', b'. split_and!; [done|done|by rewrite Ev|]. case_decide as D; [by rewrite Es|]. destruct D. by left.
  - destruct (T3 (theType r') (theIndex r')) as [-> ->]; [by destruct r'|].
    destruct (Hr r' Hlt') as (y & d & Hy & Hd & Huy & Hc). exists y, d. split_and!; try done.
    case_decide as D; case_decide as D'; try done; [by destruct D'; right|].
    by apply elem_of_cons in D' as [|].
Qed.

Lemma initialize_all_ok rs : Forall (fun x => is_uint64 x.2) rs -> forall sizes dn s,
  Forall (fun x => theIndex x.1 < sizes (theType x.1)) rs -> initialised sizes dn (theRegisters s) ->
  wp (initialize_all rs) (fun _ s' => exists f, s' = set_registers f s /\ initialised sizes (rev rs.*1 ++ dn) f) s.
Proof.
  induction 1 as [|[r v] rs Hv Hvs IH]; intros sizes dn s Hb Hi.
  - apply wp_ret. exists (theRegisters s). by destruct s.
  - apply Forall_cons in Hb as [Hr Hb]. cbn [initialize_all]. apply wp_bind, wp_registers.
    eapply wp_mono; [by apply (initialize_step sizes dn)|]. intros u f Hf.
    eapply wp_mono; [apply (IH sizes (r :: dn)); [done|exact Hf]|]. intros _ s' (f' & Es & Hf').
    exists f'. split; [exact Es|]. cbn. by rewrite <- (assoc (++)).
Qed.

Lemma initial_file sizes : initialised sizes [] (initialize sizes).
Proof.
  split; [intros t; cbn; by rewrite !length_replicate|]. intros r Hr. exists fresh_register, fresh_bypass. cbn.
  split_and!; [by apply lookup_replicate_2|by apply lookup_replicate_2|done|].
  rewrite decide_False by apply not_elem_of_nil. done.
Qed.


Definition architectural_names : list reg := (mkReg xRegisters <$> seq 0 32) ++ [mkReg ccBits 0].

Lemma architectural_used r : r ∈ architectural_names <-> theIndex r < used (theType r).
Proof.
  unfold architectural_names. rewrite elem_of_app, list_elem_of_fmap, list_elem_of_singleton.
  destruct r as [t i]. cbn [theType theIndex]. split.
  - intros [(a & E & Ha%elem_of_seq)|E]; injection E as -> ->; cbn [used]; lia.
  - destruct t; cbn [used]; intros Hi; [left; exists i; by rewrite elem_of_seq; split; [|lia]|lia|right].
    by replace i with 0 by lia.
Qed.

(** A core whose architectural registers are initialised satisfies the invariant. *)
Lemma initialised_ok rob f dn : initialised (reg_file_sizes rob) dn f ->
  (forall r, r ∈ dn <-> r ∈ architectural_names) -> rob_ok (set_registers f (newCore rob)) (fun _ => id).
Proof.
  intros [Hl Hr] Hdn. split; [|constructor|cbn; lia]. split; [done|]. intros t.
  assert (Hnm : name_count t <= reg_file_sizes rob t) by (unfold reg_file_sizes; lia).
  cbn [theMapTables theRegisters set_registers newCore theROBSize theROB]. split; try done.
  - by apply new_table_ok.
  - apply Hl.
  - apply Hl.
  - intros a Ha. by apply not_elem_of_nil in Ha.
  - intros r Hfree. cbn in Hfree. apply elem_of_seq in Hfree.
    destruct (Hr (mkReg t r)) as (x & b & Hx & Hb & _ & Hc); [cbn; lia|]. rewrite decide_False in Hc.
    + destruct Hc as [-> ->]. by exists fresh_register, fresh_bypass.
    + rewrite Hdn, architectural_used. cbn [theType theIndex]. pose proof (used_names t). lia.
  - intros r [(a & Ha & ->)|Hn]; [|by apply not_elem_of_nil in Hn]. unfold id.
    destruct (Hr (mkReg t a)) as (x & b & Hx & Hb & _ & Hc); [cbn; pose proof (used_names t); lia|].
    rewrite decide_True in Hc by (rewrite Hdn, architectural_used; done). by exists x.
  - intros r Hlt. destruct (Hr (mkReg t r) Hlt) as (x & b & Hx & Hb & Hu & _). by exists x.
Qed.

Lemma restored_ok theGlobalRegs theCCRegs rob :
  wp (restoreARMState theGlobalRegs theCCRegs) (fun _ s => rob_ok s (fun _ => id) /\ theROBSize s = rob) (newCore rob).
Proof.
  unfold restoreARMState. set (rs := _ ++ _).
  assert (Hn : rs.*1 = architectural_names).
  { unfold rs. rewrite fmap_app, <- list_fmap_compose. done. }
  assert (Hu : forall x, x ∈ rs -> theIndex x.1 < used (theType x.1)).
  { intros x Hx. apply architectural_used. rewrite <- Hn. by apply list_elem_of_fmap_2. }
  eapply wp_mono; [apply (initialize_all_ok rs) with (sizes := reg_file_sizes rob) (dn := [])|].
  - apply Forall_app. split; [|by repeat constructor]. apply Forall_fmap, Forall_true. done.
  - apply Forall_forall. intros x Hx. specialize (Hu x Hx). pose proof (used_names (theType x.1)).
    unfold reg_file_sizes. lia.
  - apply initial_file.
  - intros _ s (f & -> & Hf). split; [|done]. eapply initialised_ok; [exact Hf|].
    intros r. rewrite app_nil_r, Hn. by rewrite !list_elem_of_In, <- in_rev.
Qed.

(** ** What the decoder builds

    Reads of operands 1 to 5, of the condition flags, and one destination, with or
    without the flags, or a pair of two different ones. *)

Lemma well_formed_spec i : let es := theDispatchEffects i in let ops := theOperands i in
  well_formed i = true <->
  (forall e, e ∈ es -> maps_used ops e = true) /\ NoDup (es ≫= outputs) /\
  (forall k, k ∈ es ≫= inputs -> k ∉ es ≫= outputs) /\ theRetirementEffects i = [] /\ Renaming.theSquashEffects i = [] /\
  NoDup (dest_names ops es) /\ forall t, length (of_type t (dest_names ops es)) <= per_instruction t.
Proof.
  intros es ops. unfold well_formed. fold es ops. rewrite !andb_true_iff, !bool_decide_eq_true, !forallb_forall.
  assert (T : (forall t, t ∈ [xRegisters; vRegisters; ccBits] -> (length (of_type t (dest_names ops es)) <=? per_instruction t) = true) <->
    forall t, length (of_type t (dest_names ops es)) <= per_instruction t).
  { split; intros H t; [|intros _; apply Nat.leb_le, H]. apply Nat.leb_le, H. destruct t; set_solver. }
  assert (S : forall (l : list eOperandCode) (f : eOperandCode -> bool) (P : eOperandCode -> Prop),
    (forall k, f k = true <-> P k) -> (forall k, In k l -> f k = true) <-> forall k, k ∈ l -> P k).
  { intros l f P HP. split; intros H k Hk; apply HP, H, list_elem_of_In, Hk. }
  rewrite <- T, (S _ _ (fun k => k ∉ es ≫= outputs)) by (intros; apply bool_decide_eq_true).
  setoid_rewrite list_elem_of_In. tauto.
Qed.

(** One more effect, of operands that the others do not use. *)
Lemma add_effect_well_formed i k o e : well_formed i = true -> inputs e = [k] ->
  let i' := addDispatchEffect e (setOperand k o i) in let es := theDispatchEffects i in
  maps_used (theOperands i') e = true -> NoDup (k :: outputs e) ->
  (forall x, x ∈ k :: outputs e -> x ∉ es ≫= codes) ->
  (forall r, r ∈ dest_names (theOperands i') [e] -> r ∉ dest_names (theOperands i) es) ->
  (forall t, length (of_type t (dest_names (theOperands i) es)) +
    length (of_type t (dest_names (theOperands i') [e])) <= per_instruction t) ->
  well_formed i' = true.
Proof.
  intros Wf Ei i' es Hu Hd Hn Hr Ht. apply well_formed_spec in Wf as (W1 & W2 & W3 & W4 & W5 & W6 & W7).
  fold es in W1, W2, W3, W6, W7.
  apply NoDup_cons in Hd as [Hk Hd].
  assert (Ag : forall x, x ∈ es ≫= inputs -> theOperands i' x = theOperands i x).
  { intros x Hx. unfold i'. cbn. rewrite decide_False; [done|]. intros ->.
    apply (Hn k); [by left|]. apply elem_of_codes. by left. }
  assert (En : dest_names (theOperands i') es = dest_names (theOperands i) es) by by apply dest_names_agree.
  apply well_formed_spec. change (theDispatchEffects i') with (es ++ [e]). rewrite !bind_app. cbn [mbind list_bind].
  rewrite !app_nil_r, Ei. unfold dest_names in *. rewrite omap_app. rewrite En. split_and!; try done.
  - intros x [Hx|Hx%list_elem_of_singleton]%elem_of_app; [|by subst x].
    rewrite (maps_used_agree (theOperands i)); [by apply W1|]. intros y Hy. apply Ag, list_elem_of_bind. eauto.
  - apply NoDup_app. split_and!; [done| |done]. intros x Hx Hx'. apply (Hn x); [by right|]. apply elem_of_codes. by right.
  - intros x. rewrite !elem_of_app. intros [Hx|Hx] [Ho|Ho].
    + by apply (W3 x).
    + apply (Hn x); [by right|]. apply elem_of_codes. by left.
    + apply list_elem_of_singleton in Hx as ->. apply (Hn k); [by left|]. apply elem_of_codes. by right.
    + apply list_elem_of_singleton in Hx as ->. done.
  - apply NoDup_app. split_and!; [done|intros x Hx Hx'; by apply (Hr x)|].
    clear. destruct e as [| | |? ? ? ?]; cbn; try constructor. destruct (name_of _ _); repeat constructor. set_solver.
  - intros t. unfold of_type in *. rewrite filter_app, length_app. apply Ht.
Qed.

Inductive destinations : Set :=
  | NoDestination
  | OneDestination (rd : nat) (setflags : bool)
  | TwoDestinations (rd rd1 : nat).
Definition add_reads (rs : list (nat * nat)) (i : Instruction) : Instruction :=
  foldl (fun i x => addReadXRegister x.1 x.2 i) i rs.
Definition decoded (rs : list (nat * nat)) (cc : bool) (d : destinations) : Instruction :=
  let i := add_reads rs newInstruction in
  let i := if cc then addReadCC i else i in
  match d with
  | NoDestination => i
  | OneDestination rd setflags => addDestination rd setflags true i
  | TwoDestinations rd rd1 => addPairDestination rd rd1 true i
  end.
Definition distinct (d : destinations) : Prop :=
  match d with
  | NoDestination => True
  | OneDestination rd _ => rd < 32
  | TwoDestinations rd rd1 => rd < 32 /\ rd1 < 32 /\ rd <> rd1
  end.

(** The instruction so far: well formed, with the destinations [ns] and no codes but those of [P]. *)
Record built (P : eOperandCode -> Prop) (ns : list reg) (i : Instruction) : Prop := {
  bt_wf : well_formed i = true;
  bt_names : dest_names (theOperands i) (theDispatchEffects i) = ns;
  bt_codes : forall x, x ∈ theDispatchEffects i ≫= codes -> P x;
}.

Lemma built_step (P : eOperandCode -> Prop) ns i k o e : built P ns i -> inputs e = [k] ->
  let i' := addDispatchEffect e (setOperand k o i) in let ns' := dest_names (theOperands i') [e] in
  maps_used (theOperands i') e = true -> NoDup (k :: outputs e) -> (forall x, x ∈ k :: outputs e -> ~ P x) ->
  (forall r, r ∈ ns' -> r ∉ ns) ->
  (forall t, length (of_type t ns) + length (of_type t ns') <= per_instruction t) ->
  built (fun x => P x \/ x ∈ k :: outputs e) (ns ++ ns') i'.
Proof.
  intros [Wf <- Hc] Ei i' ns' Hu Hd Hn Hr Ht. split.
  - eapply add_effect_well_formed; try done. intros x Hx Hx'. by apply (Hn x), Hc.
  - change (theDispatchEffects i') with (theDispatchEffects i ++ [e]). unfold ns', dest_names. rewrite omap_app. f_equal.
    fold (dest_names (theOperands i') (theDispatchEffects i)). apply dest_names_agree. intros x Hx.
    unfold i'. cbn. rewrite decide_False; [done|]. intros ->. apply (Hn k); [by left|]. apply Hc, elem_of_codes. by left.
  - intros x. change (theDispatchEffects i') with (theDispatchEffects i ++ [e]). rewrite bind_app, elem_of_app.
    intros [Hx|Hx]; [left; by apply Hc|right]. cbn in Hx. rewrite app_nil_r in Hx. unfold codes in Hx.
    rewrite Ei in Hx. exact Hx.
Qed.

Lemma built_weaken (P Q : eOperandCode -> Prop) ns i : (forall x, P x -> Q x) -> built P ns i -> built Q ns i.
Proof. intros H []. split; auto. Qed.

Definition operand_number (n : nat) : Prop := 1 <= n <= 5.
Definition read_codes (ns : list nat) (x : eOperandCode) : Prop :=
  exists n, n ∈ ns /\ operand_number n /\ (x = rs_code n \/ x = ps_code n).

Lemma operand_codes n m : operand_number n -> operand_number m ->
  rs_code n <> ps_code m /\ (rs_code n = rs_code m -> n = m) /\ (ps_code n = ps_code m -> n = m).
Proof.
  unfold operand_number. intros Hn Hm.
  do 6 (destruct n as [|n]; [do 6 (destruct m as [|m]; [try (exfalso; lia); by split_and!|]); exfalso; lia|]). exfalso; lia.
Qed.

Lemma reads_built rs : NoDup rs.*1 -> Forall (fun x => operand_number x.1 /\ x.2 < 32) rs ->
  built (read_codes rs.*1) [] (add_reads rs newInstruction).
Proof.
  induction rs as [|[n r] rs IH] using rev_ind; intros Hd F.
  { split; [done|done|]. intros x Hx. by apply not_elem_of_nil in Hx. }
  rewrite fmap_app in Hd |- *. apply NoDup_app in Hd as (Hd & Hn & _). apply Forall_app in F as [F [[Hop Hr] _]%Forall_cons].
  cbn [fst snd] in *. unfold add_reads. rewrite foldl_app. cbn [foldl fst snd fmap list_fmap].
  fold (add_reads rs newInstruction). destruct (operand_codes n n Hop Hop) as (N & _).
  eapply built_weaken; [|refine (built_step _ [] _ (rs_code n) (OpReg (mkReg xRegisters r))
    (MapSourceEffect (rs_code n) (ps_code n)) (IH Hd F) eq_refl _ _ _ _ _)].
  - cbn beta. cbn [outputs]. intros x [(m & Hm & Hm' & Hx)|Hx].
    + exists m. split; [set_solver|done].
    + exists n. split; [set_solver|]. split; [done|]. set_solver.
  - cbn. unfold name_of. cbn. rewrite decide_True by done. apply Nat.ltb_lt, Hr.
  - cbn [outputs]. apply NoDup_cons. split; [set_solver|]. apply NoDup_singleton.
  - cbn [outputs]. intros x Hx (m & Hm & Hm' & Hx'). destruct (operand_codes n m Hop Hm') as (A1 & A2 & A3).
    destruct (operand_codes m n Hm' Hop) as (A4 & _).
    assert (m = n) as ->; [|apply (Hn n Hm); set_solver]. set_unfold in Hx.
    destruct Hx as [->|[->|[]]], Hx' as [E|E]; try (by destruct A1); try (by destruct A4); symmetry; auto.
  - intros x Hx. by apply not_elem_of_nil in Hx.
  - intros t. cbn. lia.
Qed.

(** The same with the codes in a list. *)
Definition among (L : list eOperandCode) : eOperandCode -> Prop := fun x => x ∈ L.
Lemma among_step L ns i k o e : built (among L) ns i -> inputs e = [k] ->
  let i' := addDispatchEffect e (setOperand k o i) in let ns' := dest_names (theOperands i') [e] in
  maps_used (theOperands i') e = true -> bool_decide (NoDup (k :: outputs e)) = true ->
  bool_decide (Forall (fun x => x ∉ L) (k :: outputs e)) = true ->
  (forall r, r ∈ ns' -> r ∉ ns) ->
  (forall t, length (of_type t ns) + length (of_type t ns') <= per_instruction t) ->
  built (among (L ++ k :: outputs e)) (ns ++ ns') i'.
Proof.
  intros B Ei i' ns' Hu Hd%bool_decide_eq_true Hn%bool_decide_eq_true Hr Ht. rewrite Forall_forall in Hn.
  eapply built_weaken; [|by apply (built_step (among L))]. intros x [Hx|Hx]; unfold among in *; rewrite elem_of_app; tauto.
Qed.

Lemma one_name t t' a ns : length (of_type t ns) + 1 <= per_instruction t ->
  length (of_type t ns) <= per_instruction t -> length (of_type t ns) + length (of_type t [mkReg t' a]) <= per_instruction t.
Proof. intros H1 H2. unfold of_type at 2. rewrite filter_cons, filter_nil. case_decide; cbn; lia. Qed.

(** Instructions with distinct destinations are well formed. *)
Lemma decoded_well_formed rs cc d : NoDup rs.*1 -> Forall (fun x => operand_number x.1 /\ x.2 < 32) rs -> distinct d ->
  well_formed (decoded rs cc d) = true.
Proof.
  intros Hd F Dd. set (L := [kRS1; kRS2; kRS3; kRS4; kRS5; kPS1; kPS2; kPS3; kPS4; kPS5]).
  assert (B0 : built (among L) [] (add_reads rs newInstruction)).
  { eapply built_weaken; [|by apply reads_built]. intros x (n & _ & Hn & Hx). unfold operand_number, among, L in *.
    do 6 (destruct n as [|n]; [try (exfalso; lia); cbn in Hx; destruct Hx as [->| ->]; set_solver|]). exfalso; lia. }
  assert (B1 : built (among (L ++ [kCCs; kCCps])) []
    (if cc then addReadCC (add_reads rs newInstruction) else add_reads rs newInstruction)).
  { destruct cc.
    - refine (among_step L [] _ kCCs (OpReg (mkReg ccBits 0)) (MapSourceEffect kCCs kCCps) B0 eq_refl eq_refl eq_refl eq_refl _ _).
      + intros r Hr. by apply not_elem_of_nil in Hr.
      + intros t. cbn. lia.
    - eapply built_weaken; [|exact B0]. unfold among. intros x. rewrite elem_of_app. tauto. }
  unfold decoded. set (i := if cc then _ else _) in *. clearbody i. clear B0.
  assert (Dest : forall rd, rd < 32 ->
    built (among ((L ++ [kCCs; kCCps]) ++ [kRD; kPD; kPPD])) [mkReg xRegisters rd] (addWriteback true (setRD rd i))).
  { intros rd Hrd.
    refine (among_step _ [] i kRD (OpReg (mkReg xRegisters rd)) (MapDestinationEffect kRD kPD kPPD true) B1 eq_refl _ eq_refl eq_refl _ _).
    - apply Nat.ltb_lt, Hrd.
    - intros r _. apply not_elem_of_nil.
    - intros t. apply one_name; destruct t; vm_compute; lia. }
  destruct d as [|rd f|rd rd1]; cbn [distinct] in Dd; [apply B1| |].
  - destruct f; cbn [addDestination]; [|by apply Dest].
    refine (bt_wf _ _ _ (among_step _ _ _ kCCd (OpReg (mkReg ccBits 0)) (MapDestinationEffect kCCd kCCpd kPCCpd true)
      (Dest rd Dd) eq_refl eq_refl eq_refl eq_refl _ _)).
    + intros r Hr ->%list_elem_of_singleton. by apply list_elem_of_singleton in Hr.
    + intros t. apply one_name; destruct t; vm_compute; lia.
  - destruct Dd as (D1 & D2 & D3).
    refine (bt_wf _ _ _ (among_step _ _ _ kRD1 (OpReg (mkReg xRegisters rd1)) (MapDestinationEffect kRD1 kPD1 kPPD1 true)
      (Dest rd D1) eq_refl _ eq_refl eq_refl _ _)).
    + apply Nat.ltb_lt, D2.
    + intros r Hr ->%list_elem_of_singleton. apply list_elem_of_singleton in Hr. congruence.
    + intros t. apply one_name; destruct t; vm_compute; lia.
Qed.

(** ADDS x3, x4, x5 writes a register and the condition flags. *)
Definition adds_x3 : Instruction := decoded [(1, 4); (2, 5)] false (OneDestination 3 true).

(** It is dispatched, its result is written, and it retires while another follows. *)
Definition adds_events : list core_event :=
  [Dispatch adds_x3; WriteRegister 0 2 (UInt64 9) false (fun _ => false); Dispatch adds_x3; Retire].
Lemma adds_allowed : all_allowed adds_events.
Proof. repeat constructor. Qed.
Lemma adds_all_well_formed : Forall (fun i => well_formed i = true) [adds_x3; adds_x3].
Proof. repeat constructor. Qed.

(** ** The properties *)

Lemma run_ok es : all_allowed es -> forall s c, rob_ok s c ->
  wp (run es) (fun _ s' => (exists c', rob_ok s' c') /\ theROBSize s' = theROBSize s) s.
Proof.
  induction 1 as [|e es Ha _ IH]; intros s c Ok; [apply wp_ret; eauto|]. cbn [run]. apply wp_bind.
  eapply wp_mono; [by apply (event_ok e s c Ok)|]. intros _ s1 (c1 & Ok1 & Hs1 & _).
  eapply wp_mono; [by eapply IH|]. intros _ s2 [H1 H2]. split; [done|congruence].
Qed.

Lemma final_ok m s (Q : () -> Core -> Prop) : wp m Q s -> exists s', final m s = Done s' /\ Q () s'.
Proof. unfold wp, final. destruct (m s) as [[[] s']|]; [eauto|done]. Qed.

Lemma one_event_ok e s c : rob_ok s c -> allowed e = true -> wp (run [e]) (fun _ => event_post e s c) s.
Proof.
  intros Ok Ha. cbn [run]. apply wp_bind. eapply wp_mono; [by apply event_ok|]. intros u s' H. by apply wp_ret.
Qed.

Lemma core_run_ok rob g cc es : all_allowed es ->
  exists s c, core_run rob g cc es = Done s /\ rob_ok s c /\ theROBSize s = rob.
Proof.
  intros Ha. destruct (final_ok (restoreARMState g cc;; run es) (newCore rob)
    (fun _ s => (exists c, rob_ok s c) /\ theROBSize s = rob)) as (s & E & [c Hc] & Hs); [|exists s, c; split; [exact E|split; assumption]].
  apply wp_bind. eapply wp_mono; [apply restored_ok|]. intros _ s [Ok Hs].
  eapply wp_mono; [by eapply run_ok|]. intros _ s' [Ok' Hs']. split; [done|congruence].
Qed.

Lemma run_app l1 l2 s : run (l1 ++ l2) s = (run l1;; run l2) s.
Proof.
  revert s. induction l1 as [|e l1 IH]; intros s; [done|]. cbn [run app]. cbv [mbind M_bind].
  destruct (exec e s) as [[[] s1]|]; [apply IH|done].
Qed.

Lemma final_bind m1 m2 s s1 : final m1 s = Done s1 -> final (m1;; m2) s = final m2 s1.
Proof. unfold final, mbind, M_bind. destruct (m1 s) as [[[] s']|]; [by intros [= ->]|done]. Qed.

Lemma core_run_app rob g cc l1 l2 s : core_run rob g cc l1 = Done s -> core_run rob g cc (l1 ++ l2) = final (run l2) s.
Proof.
  unfold core_run. intros H. rewrite <- (final_bind _ (run l2) _ _ H). unfold final, mbind, M_bind.
  destruct (restoreARMState g cc (newCore rob)) as [[[] s0]|]; [|done]. rewrite run_app. unfold mbind, M_bind.
  by destruct (run l1 s0) as [[[] s1]|].
Qed.

#[local] Opaque core_run.

(** The register that holds a name's architectural value, and the value. *)
Definition architectural_register (s : Core) (r : reg) : reg :=
  mkReg (theType r) match mapArchitectural (theIndex r) (theMapTables s (theType r)) with Done (i, _) => i | Assert _ => 0 end.
Definition architectural_value (s : Core) (r : reg) : option register_value :=
  match readArchitecturalRegister r s with Done (v, _) => Some v | Assert _ => None end.

Lemma architectural_register_ok s c r : rob_ok s c -> theIndex r < used (theType r) ->
  architectural_register s r = mkReg (theType r) (c (theType r) (theIndex r)).
Proof.
  intros [Okc _ _] Hr. pose proof (co_bank _ _ _ Okc (theType r)) as B. unfold architectural_register.
  by rewrite (mapArchitectural_ok _ _ _ _ (bk_table _ _ _ _ _ _ B) (used_name B _ Hr)).
Qed.

Lemma architectural_value_ok s c r : rob_ok s c -> theIndex r < used (theType r) ->
  architectural_value s r = value_of (theRegisters s) (mkReg (theType r) (c (theType r) (theIndex r))).
Proof.
  intros [Okc _ _] Hr. pose proof (co_bank _ _ _ Okc (theType r)) as B.
  unfold architectural_value, readArchitecturalRegister, mapTable, registers, peek, cell. cbv [mbind M_bind gets id elt mret M_ret dbg_fail].
  rewrite (mapArchitectural_ok _ _ _ _ (bk_table _ _ _ _ _ _ B) (used_name B _ Hr)). cbn. unfold value_of. cbn.
  by destruct (theRegs (theRegisters s) (theType r) !! c (theType r) (theIndex r)).
Qed.

(** C16 Whatever well-formed instructions (operands of their own, architectural x
    registers or the flags, no destination twice: what [decoded] builds, see
    [decoded_well_formed]) are dispatched when the reorder buffer has room, retired and
    squashed, and whatever 64-bit values are written to their destinations: no
    assertion of the map tables or of the register file fails and no free list runs
    out; the tables' own check holds, and each register is free, committed or in
    flight.  ([pair_squash_breaks_map] is an instruction that is not well formed.) *)
Theorem renaming_never_fails rob theGlobalRegs theCCRegs es : all_allowed es ->
  exists s, core_run rob theGlobalRegs theCCRegs es = Done s /\ length (theROB s) <= rob /\
  forall t, checkInvariants (theMapTables s t) = Done (true, theMapTables s t) /\
    length (theFreeList (theMapTables s t)) + name_count t + length (written (flights_of (theROB s) t)) = reg_file_sizes rob t.
Proof.
  set (g := theGlobalRegs); set (cc := theCCRegs). intros Hes. destruct (core_run_ok rob g cc es Hes) as (s & c & E & [Okc R Hs] & Hr). exists s.
  subst rob. split; [exact E|]. split; [exact Hs|]. intros t. pose proof (co_bank _ _ _ Okc t) as B.
  pose proof (bk_table _ _ _ _ _ _ B) as T. split; [by eapply check_ok|].
  pose proof (table_count T) as Hc. by rewrite (bk_names _ _ _ _ _ _ B), (bk_count _ _ _ _ _ _ B) in Hc.
Qed.

Lemma renaming_never_fails_witness : exists s, core_run 2 Z.of_nat 0 adds_events = Done s /\ length (theROB s) <= 2 /\
  checkInvariants (theMapTables s xRegisters) = Done (true, theMapTables s xRegisters).
Proof.
  destruct (renaming_never_fails 2 Z.of_nat 0 adds_events adds_allowed) as (s & E & H & K). exists s.
  exact (conj E (conj H (proj1 (K xRegisters)))).
Defined.

(** C17 In every state that a run of well-formed instructions (see C16) reaches, the
    sources of an instruction in the reorder buffer are mapped to the register of the
    newest older write of their name - in the instructions before it or earlier in its
    own effects - or else to the architectural register. *)
Theorem sources_read_newest_write rob theGlobalRegs theCCRegs es : all_allowed es ->
  exists s, core_run rob theGlobalRegs theCCRegs es = Done s /\
  forall l1 i l2 e1 e e2 t a m, theROB s = l1 ++ i :: l2 -> theDispatchEffects i = e1 ++ e :: e2 ->
    item_of (theOperands i) e = Some (t, Read a m) ->
    m = newest (fun b => theIndex (architectural_register s (mkReg t b))) (flights_of l1 t ++ items t (theOperands i) e1) a.
Proof.
  set (g := theGlobalRegs); set (cc := theCCRegs). intros Hes. destruct (core_run_ok rob g cc es Hes) as (s & c & E & Ok & Hr). exists s. split; [exact E|]. clear E.
  intros l1 i l2 e1 e e2 t a m El Ee Hi. pose proof Ok as [Okc R _].
  pose proof (ok_linked _ _ _ (bk_table _ _ _ _ _ _ (co_bank _ _ _ Okc t))) as Hl.
  rewrite El in Hl, R. apply Forall_app in R as [_ [Ri _]%Forall_cons].
  change (i :: l2) with ([i] ++ l2) in Hl. rewrite !flights_app, flights_one in Hl. unfold flight_of in Hl.
  rewrite Ee, items_app, items_cons in Hl. rewrite <- !(assoc (++)) in Hl. rewrite (assoc (++)) in Hl.
  apply linked_app in Hl as [_ Hl]. unfold items at 2 in Hl. cbn in Hl. rewrite Hi in Hl. cbn in Hl.
  rewrite decide_True in Hl by done. destruct Hl as [-> _]. apply newest_ext.
  assert (Ha : a < used t).
  { pose proof (rc_used _ Ri e) as Hu. rewrite Ee, elem_of_app in Hu. specialize (Hu (or_intror (list_elem_of_here _ _))).
    destruct e as [k o| | |k o p b]; try done; cbn in Hi, Hu; destruct (name_of (theOperands i) k) as [n|]; try done; cbn in Hi.
    - destruct (mapped_of (theOperands i) o); [|done]. cbn in Hi. injection Hi as <- <- _. by apply Nat.ltb_lt.
    - destruct (mapped_of (theOperands i) o); [|done]. cbn in Hi. by destruct (mapped_of (theOperands i) p). }
  by rewrite (architectural_register_ok _ c _ Ok).
Qed.

Lemma sources_read_newest_write_witness : exists s, core_run 2 Z.of_nat 0 adds_events = Done s /\
  forall i e e2 m, theROB s = [i] -> theDispatchEffects i = e :: e2 ->
    item_of (theOperands i) e = Some (xRegisters, Read 4 m) ->
    m = newest (fun b => theIndex (architectural_register s (mkReg xRegisters b))) [] 4.
Proof.
  destruct (sources_read_newest_write 2 Z.of_nat 0 adds_events adds_allowed) as (s & E & K). exists s. split; [exact E|].
  intros i e e2 m El Ee Hi. exact (K [] i [] [] e e2 xRegisters 4 m El Ee Hi).
Defined.

(** The value of a name after the instruction [i] has retired: that of the last
    register it gave the name. *)
Definition retired_value (s : Core) (i : Instruction) (r : reg) : option register_value :=
  match last (writers (flight_of (theType r) i) (theIndex r)) with
  | Some m => value_of (theRegisters s) (mkReg (theType r) m)
  | None => architectural_value s r
  end.

Lemma retired_value_ok s c i r : rob_ok s c -> theIndex r < used (theType r) ->
  retired_value s i r = value_of (theRegisters s) (mkReg (theType r) (newest (c (theType r)) (flight_of (theType r) i) (theIndex r))).
Proof.
  intros Ok Hr. unfold retired_value.
  destruct (newest_cases (c (theType r)) (flight_of (theType r) i) (theIndex r)) as [[E1 E2]|[l E]].
  - rewrite E2, E1. by apply architectural_value_ok.
  - by rewrite E at 1; rewrite last_snoc.
Qed.

(** C15 After a run of well-formed instructions (see C16), an event changes the
    architectural registers only when it retires the oldest instruction, which then
    gives its destinations the values of its own registers: dispatches of well-formed
    instructions, squashes, and the writes of instructions in flight do not show. *)
Theorem only_retirement_changes_architecture rob theGlobalRegs theCCRegs es e : all_allowed es -> allowed e = true ->
  exists s s', core_run rob theGlobalRegs theCCRegs es = Done s /\
  core_run rob theGlobalRegs theCCRegs (es ++ [e]) = Done s' /\
  forall r, r ∈ architectural_names -> architectural_value s' r =
    match e, theROB s with Retire, i :: _ => retired_value s i r | _, _ => architectural_value s r end.
Proof.
  set (g := theGlobalRegs); set (cc := theCCRegs). intros Ha He. destruct (core_run_ok rob g cc es Ha) as (s & c & E & Ok & Hr).
  destruct (final_ok _ _ _ (one_event_ok e s c Ok He)) as (s' & E' & c' & Ok' & _ & Hc & K). exists s, s'.
  split; [exact E|]. split; [rewrite (core_run_app _ _ _ _ _ _ E); exact E'|]. clear E E'.
  intros r Hu%architectural_used. rewrite (architectural_value_ok _ _ _ Ok' Hu), K by by exists (theIndex r).
  rewrite Hc. destruct e; try by rewrite (architectural_value_ok _ _ _ Ok Hu).
  destruct (theROB s) as [|i l]; [by rewrite (architectural_value_ok _ _ _ Ok Hu)|].
  by rewrite (retired_value_ok _ _ _ _ Ok Hu).
Qed.

Lemma only_retirement_changes_architecture_witness : exists s s', core_run 2 Z.of_nat 0 adds_events = Done s /\
  core_run 2 Z.of_nat 0 (adds_events ++ [SquashFrom 0 true]) = Done s' /\
  architectural_value s' (mkReg xRegisters 3) = architectural_value s (mkReg xRegisters 3).
Proof.
  destruct (only_retirement_changes_architecture 2 Z.of_nat 0 adds_events (SquashFrom 0 true) adds_allowed eq_refl)
    as (s & s' & E & E' & K). exists s, s'. split; [exact E|]. split; [exact E'|].
  apply (K (mkReg xRegisters 3)). apply architectural_used. apply (Nat.ltb_lt 3 32). reflexivity.
Defined.

(** Dispatches add to the end of the reorder buffer. *)
Lemma dispatches_ok l : Forall (fun i => well_formed i = true) l -> forall s c, rob_ok s c ->
  wp (run (Dispatch <$> l)) (fun _ s' => rob_ok s' c /\ theROBSize s' = theROBSize s /\ exists l', theROB s' = theROB s ++ l') s.
Proof.
  induction 1 as [|i l Hwf _ IH]; intros s c Ok; [apply wp_ret; split_and!; [done|done|exists []; by rewrite app_nil_r]|].
  cbn [fmap list_fmap run exec]. apply wp_bind. unfold try_dispatch. apply wp_bind, wp_gets. unfold id.
  destruct (Z.ltb_spec 0 (availableROB false false false 0 s)) as [Hlt|_]; [|by apply wp_ret, IH]. cbn in Hlt.
  eapply wp_mono; [apply (dispatch_event_ok Ok i Hwf); lia|]. intros u s1 (Ok1 & _ & i' & E1 & S1).
  eapply wp_mono; [by apply IH|]. intros u' s2 (Ok2 & S2 & l' & E2). split; [done|]. split; [congruence|].
  exists (i' :: l'). by rewrite E2, E1, <- (assoc (++)).
Qed.

(** The map table is determined by what it describes, up to the order of the free list. *)
Lemma table_determined c fl p p' : table_ok c fl p -> table_ok c fl p' ->
  theNameCount p' = theNameCount p -> theRegisterCount p' = theRegisterCount p ->
  theMappings p' = theMappings p /\ theAssignedRegisters p' = theAssignedRegisters p /\ theFreeList p' ≡ₚ theFreeList p.
Proof.
  intros T T' N1 N2. split_and!.
  - apply list_eq. intros a. destruct (decide (a < theNameCount p)) as [H|H].
    + rewrite (ok_mappings _ _ _ T), (ok_mappings _ _ _ T') by lia. done.
    + rewrite !lookup_ge_None_2; [done|rewrite (ok_mapped _ _ _ T); lia|rewrite (ok_mapped _ _ _ T'); lia].
  - apply list_eq. intros a. destruct (decide (a < theNameCount p)) as [H|H].
    + rewrite (ok_assigned _ _ _ T), (ok_assigned _ _ _ T') by lia. done.
    + rewrite !lookup_ge_None_2; [done|rewrite (ok_lists _ _ _ T); lia|rewrite (ok_lists _ _ _ T'); lia].
  - pose proof (ok_all _ _ _ T) as H. pose proof (ok_all _ _ _ T') as H'. rewrite N1, N2, <- H in H'.
    by apply Permutation_app_inv_r in H'.
Qed.

(** Dispatches followed by a squash from the first of them. *)
Lemma squash_recovers_ok l s c : Forall (fun i => well_formed i = true) l -> rob_ok s c ->
  wp (run ((Dispatch <$> l) ++ [SquashFrom (length (theROB s)) true]))
    (fun _ s' => rob_ok s' c /\ theROB s' = theROB s /\ theROBSize s' = theROBSize s) s.
Proof.
  intros Hl Ok. unfold wp. rewrite run_app. apply (wp_bind (run (Dispatch <$> l))).
  eapply wp_mono; [by apply dispatches_ok|]. intros u s1 (Ok1 & S1 & l' & E1).
  cbn [run exec]. apply wp_bind.
  eapply wp_mono; [apply (squash_event_ok Ok1)|]. intros u' s2 (Ok2 & _ & S2 & E2). apply wp_ret. split; [done|]. split; [|congruence].
  case_decide as D; rewrite E2, E1; [apply take_app_length|].
  rewrite E1, length_app in D. destruct l'; [by rewrite app_nil_r|cbn in D; lia].
Qed.

(** C33 After a run of well-formed instructions (see C16), dispatching any more of them
    and squashing them restores the reorder buffer, every mapping and the lists of
    assigned registers; the free list comes back in another order. *)
Theorem squash_recovers rob theGlobalRegs theCCRegs es l :
  all_allowed es -> Forall (fun i => well_formed i = true) l ->
  exists s s', core_run rob theGlobalRegs theCCRegs es = Done s /\
  core_run rob theGlobalRegs theCCRegs (es ++ (Dispatch <$> l) ++ [SquashFrom (length (theROB s)) true]) = Done s' /\
  theROB s' = theROB s /\
  forall t, let p := theMapTables s t in let p' := theMapTables s' t in
    theMappings p' = theMappings p /\ theAssignedRegisters p' = theAssignedRegisters p /\ theFreeList p' ≡ₚ theFreeList p.
Proof.
  set (g := theGlobalRegs); set (cc := theCCRegs). intros Ha Hl. destruct (core_run_ok rob g cc es Ha) as (s & c & E & Ok & Hr).
  destruct (final_ok _ _ _ (squash_recovers_ok l s c Hl Ok)) as (s' & E' & Ok' & El & Es). exists s, s'.
  split; [exact E|]. split; [rewrite (core_run_app _ _ _ _ _ _ E); exact E'|]. clear E E'. split; [exact El|].
  intros t p p'. destruct Ok as [Okc _ _], Ok' as [Okc' _ _]. rewrite El in Okc'.
  pose proof (co_bank _ _ _ Okc t) as B. pose proof (co_bank _ _ _ Okc' t) as B'.
  eapply table_determined; [apply B|apply B'|..].
  - unfold p, p'. by rewrite (bk_names _ _ _ _ _ _ B), (bk_names _ _ _ _ _ _ B').
  - unfold p, p'. by rewrite (bk_count _ _ _ _ _ _ B), (bk_count _ _ _ _ _ _ B'), Es.
Qed.

Lemma squash_recovers_witness : exists s s', core_run 2 Z.of_nat 0 adds_events = Done s /\
  core_run 2 Z.of_nat 0 (adds_events ++ (Dispatch <$> [adds_x3; adds_x3]) ++ [SquashFrom (length (theROB s)) true]) = Done s' /\
  theMappings (theMapTables s' ccBits) = theMappings (theMapTables s ccBits).
Proof.
  destruct (squash_recovers 2 Z.of_nat 0 adds_events [adds_x3; adds_x3] adds_allowed adds_all_well_formed)
    as (s & s' & E & E' & _ & K). exists s, s'. exact (conj E (conj E' (proj1 (K ccBits)))).
Defined.

(** ** One register named twice *)

(** A load pair to the same register twice: the decoder does not reject it. *)
Definition pair_to (a : nat) : Instruction := addPairDestination a a true newInstruction.

(** Mapping the previous register back and freeing the one that was given, when the
    table computes it and the register is not free. *)
Lemma restore_free_computed s t a r q p1 x b : theWindowMap s = window_reset ->
  (restore a q;; free r) (theMapTables s t) = Done ((), p1) ->
  theRegs (theRegisters s) t !! r = Some x -> theBypassNetwork (theRegisters s) t !! r = Some b ->
  theStatus x <> kUnmapped ->
  wp (core_restore (mkReg t a) (mkReg t q);; core_free (mkReg t r)) (fun _ s' =>
    theMapTables s' t = p1 /\ theWindowMap s' = window_reset /\
    touches (mkReg t r) (theRegisters s) (theRegisters s') /\ same_buffers s s') s.
Proof.
  intros Hw Hp Hx Hb Hs. cbv [mbind M_bind] in Hp. destruct (restore a q (theMapTables s t)) as [[[] p0]|] eqn:E; [|done].
  apply wp_bind. unfold core_restore. apply wp_bind, wp_assert; [by apply bool_decide_eq_true_2|]. apply wp_bind, wp_gets.
  unfold id. rewrite Hw, rotate_reset. cbn [theType theIndex]. eapply wp_mapTable; [exact E|].
  unfold core_free. cbn [theType theIndex]. apply wp_bind. eapply wp_mapTable; [cbn; rewrite tset_same; exact Hp|].
  apply wp_registers. cbn. eapply wp_mono; [by eapply (unmapRegister_ok (mkReg t r))|].
  intros _ f1 (T & _). split_and!; [cbn; apply tset_same|exact Hw|exact T|done].
Qed.

(** Its dispatch is sound: each destination gets a register of its own. *)
Lemma pair_dispatched a s c : rob_ok s c -> a < 32 -> length (theROB s) < theROBSize s ->
  wp (dispatch (pair_to a)) (fun _ s' => exists i' n1 m1 q1 n2 m2 q2,
    theROB s' = theROB s ++ [i'] /\
    core_ok s' c (extend (flights_of (theROB s)) (theOperands i') (theDispatchEffects (pair_to a))) /\
    theSquashEffects i' = squash_of (theDispatchEffects (pair_to a)) /\
    (n1 = mkReg xRegisters a /\ n2 = mkReg xRegisters a) /\
    (theOperands i' kRD = Some (OpReg n1) /\ theOperands i' kPD = Some (OpMapped m1) /\ theOperands i' kPPD = Some (OpMapped q1)) /\
    (theOperands i' kRD1 = Some (OpReg n2) /\ theOperands i' kPD1 = Some (OpMapped m2) /\ theOperands i' kPPD1 = Some (OpMapped q2)) /\
    (theType m1 = theType n1 /\ theType q1 = theType n1) /\ (theType m2 = theType n2 /\ theType q2 = theType n2)) s.
Proof.
  intros [Okc R _] Ha Hlt. set (es := theDispatchEffects (pair_to a)).
  assert (P : plan (pair_to a) [] es).
  { split; try done; cbn [app].
    - by intros e ?%not_elem_of_nil.
    - intros e He. apply Nat.ltb_lt in Ha. unfold es in He. cbn in He. apply elem_of_cons in He as [-> | ->%list_elem_of_singleton]; exact Ha.
    - apply (bool_decide_unpack _). by vm_compute.
    - intros k Hk. apply (bool_decide_unpack (k ∉ _)). unfold es in *. cbn in Hk.
      repeat (apply elem_of_cons in Hk as [-> |Hk]; [by vm_compute|]). by apply not_elem_of_nil in Hk. }
  assert (Rm : room s (theOperands (pair_to a)) es (extend (flights_of (theROB s)) (theOperands (pair_to a)) [])).
  { intros t. unfold extend. rewrite app_nil_r. pose proof (flights_bound _ t R) as B.
    assert (L : length (of_type t (dest_names (theOperands (pair_to a)) es)) <= per_instruction t) by (destruct t; vm_compute; lia).
    nia. }
  unfold dispatch, doDispatchEffects. apply wp_bind. eapply wp_mono; [apply (dispatch_chain_ok c (flights_of (theROB s)) es [] _ s P)|].
  - eapply core_ok_ext; [done| |exact Okc]. intros t. unfold extend. by rewrite app_nil_r.
  - exact Rm.
  - intros i' s1 (P' & _ & A & Ok1 & _ & B1 & _). cbn [app] in *. apply wp_modify.
    destruct (pl_typed _ _ _ P' (MapDestinationEffect kRD kPD kPPD true)) as (_ & n1 & m1 & q1 & E1 & E2 & E3 & T1 & T2); [by left|].
    destruct (pl_typed _ _ _ P' (MapDestinationEffect kRD1 kPD1 kPPD1 true)) as (_ & n2 & m2 & q2 & E4 & E5 & E6 & T3 & T4);
      [by right; left|].
    assert (N1 : n1 = mkReg xRegisters a).
    { rewrite A in E1 by (apply (bool_decide_unpack (_ ∉ _)); by vm_compute).
      assert (K : theOperands (pair_to a) kRD = Some (OpReg (mkReg xRegisters a))) by reflexivity. congruence. }
    assert (N2 : n2 = mkReg xRegisters a).
    { rewrite A in E4 by (apply (bool_decide_unpack (_ ∉ _)); by vm_compute).
      assert (K : theOperands (pair_to a) kRD1 = Some (OpReg (mkReg xRegisters a))) by reflexivity. congruence. }
    exists i', n1, m1, q1, n2, m2, q2. split_and!; try done; [cbn; by rewrite B1| |apply P'].
    destruct Ok1 as [W B]. by split.
Qed.

Definition broken (s : Core) (a : nat) : Prop :=
  let p := theMapTables s xRegisters in
  (exists m, theMappings p !! a = Some m /\ m ∈ theFreeList p) /\ checkInvariants p = Done (false, p).

Lemma pair_squash_ok a s c : rob_ok s c -> a < 32 -> length (theROB s) < theROBSize s ->
  wp (run [Dispatch (pair_to a); SquashFrom (length (theROB s)) true]) (fun _ s' => broken s' a /\ theROB s' = theROB s) s.
Proof.
  intros Ok Ha Hlt. cbn [run exec]. apply wp_bind. unfold try_dispatch. apply wp_bind, wp_gets. unfold id.
  rewrite (proj2 (Z.ltb_lt _ _)) by (cbn; lia).
  eapply wp_mono; [by apply (pair_dispatched a s c)|].
  intros _ s1 (i' & n1 & m1 & q1 & n2 & m2 & q2 & Er & Ok1 & Sq & [-> ->] & (E1 & E2 & E3) & (E4 & E5 & E6) & [T1 T2] & [T3 T4]).
  destruct m1 as [t1 r1], q1 as [u1 x1], m2 as [t2 r2], q2 as [u2 x2]. cbn [theType theIndex] in *. subst t1 u1 t2 u2.
  pose proof (co_bank _ _ _ Ok1 xRegisters) as B. pose proof (bk_table _ _ _ _ _ _ B) as T.
  assert (Fl : extend (flights_of (theROB s)) (theOperands i') (theDispatchEffects (pair_to a)) xRegisters =
    flights_of (theROB s) xRegisters ++ [Write a r1 x1; Write a r2 x2]).
  { unfold extend. f_equal. cbn. unfold items. cbn. unfold name_of, mapped_of. by rewrite E1, E2, E3, E4, E5, E6. }
  rewrite Fl in T.
  destruct (pair_squash_table _ _ _ _ _ _ _ _ T) as (p1 & p' & S1 & S2 & -> & N & Mp & Fp & Ck).
  assert (Lv : forall r, r = r1 \/ r = r2 -> exists x b, theRegs (theRegisters s1) xRegisters !! r = Some x /\
    theBypassNetwork (theRegisters s1) xRegisters !! r = Some b /\ theStatus x <> kUnmapped).
  { intros r Hr. destruct (alive_register s1 c _ (mkReg xRegisters r) Ok1) as (x & b & Hx & Hb & Hs & _); [|by exists x, b].
    right. cbn [theType theIndex]. rewrite Fl, news_app, elem_of_app. right. cbn. set_solver. }
  destruct (Lv r1) as (x & b & Hx & Hb & Hs); [by left|]. destruct (Lv r2) as (y & d & Hy & Hd & Hs2); [by right|].
  apply wp_bind. unfold doSquash. apply wp_bind, wp_gets. unfold id. rewrite Er, length_app. cbn [length].
  rewrite decide_True by lia. rewrite drop_app_length. cbn [rev app squash_all]. apply wp_bind, wp_bind.
  unfold squash. cbn [Renaming.theSquashEffects set_squashed]. rewrite Sq.
  change (squash_of (theDispatchEffects (pair_to a))) with
    [RestoreMappingEffect kRD kPPD; FreeMappingEffect kPD; RestoreMappingEffect kRD1 kPPD1; FreeMappingEffect kPD1].
  change (invoke_chain _ (set_squashed i')) with (i ← invoke (RestoreMappingEffect kRD kPPD) (set_squashed i'); i ← invoke (FreeMappingEffect kPD) i;
    i ← invoke (RestoreMappingEffect kRD1 kPPD1) i; i ← invoke (FreeMappingEffect kPD1) i; mret i).
  eapply squash_effects_ok; [exact E1|exact E2|exact E3|].
  eapply wp_mono; [apply (restore_free_computed s1 xRegisters a r1 x1 p1 x b (co_window _ _ _ Ok1) S1 Hx Hb Hs)|].
  intros _ s2 (M2 & W2 & Tc & B2). eapply squash_effects_ok; [exact E4|exact E5|exact E6|].
  destruct (tc_other _ _ _ Tc xRegisters r2) as [Q1 Q2]; [congruence|].
  eapply wp_mono; [apply (restore_free_computed s2 xRegisters a r2 r1 p' y d); [done|by rewrite M2|by rewrite Q1|by rewrite Q2|done]|].
  intros _ s3 (M3 & _ & _ & B3). apply wp_ret, wp_ret, wp_modify, wp_ret. split.
  - unfold broken. cbn. rewrite M3. split; [|exact Ck]. exists r1. split; [exact Mp|]. rewrite Fp. set_solver.
  - cbn. apply take_app_length.
Qed.

(** C40 In every core that a run of allowed events reaches, with room in the reorder
    buffer, and for every register: a load pair that names the register as both its
    destinations, dispatched and squashed, leaves the name mapped to a register that
    is also free, and the table's own check fails.  The squash effects run in the
    order of the dispatch effects, so the younger destination's previous register,
    which is the older one's new register, is mapped back after it was freed. *)
Theorem pair_squash_breaks_map rob theGlobalRegs theCCRegs es s a :
  all_allowed es -> core_run rob theGlobalRegs theCCRegs es = Done s -> length (theROB s) < rob -> a < 32 ->
  exists s', core_run rob theGlobalRegs theCCRegs (es ++ [Dispatch (pair_to a); SquashFrom (length (theROB s)) true]) = Done s' /\
    theROB s' = theROB s /\
    let p := theMapTables s' xRegisters in
    (exists m, theMappings p !! a = Some m /\ m ∈ theFreeList p) /\ checkInvariants p = Done (false, p).
Proof.
  intros Hes E Hlt Ha. destruct (core_run_ok rob theGlobalRegs theCCRegs es Hes) as (s0 & c & E0 & Ok & Hr).
  rewrite E in E0. injection E0 as <-. rewrite <- Hr in Hlt.
  destruct (final_ok _ _ _ (pair_squash_ok a s c Ok Ha Hlt)) as (s' & E' & Bk & Er). exists s'.
  split; [rewrite (core_run_app _ _ _ _ _ _ E); exact E'|]. clear E E'. split; [exact Er|exact Bk].
Qed.

Lemma one_dispatched :
  match core_run 2 Z.of_nat 0 [Dispatch adds_x3] with Done s => length (theROB s) <? 2 | Assert _ => false end = true.
Proof. vm_compute. reflexivity. Qed.

Lemma pair_squash_breaks_map_witness : exists s s', core_run 2 Z.of_nat 0 [Dispatch adds_x3] = Done s /\
  core_run 2 Z.of_nat 0 ([Dispatch adds_x3] ++ [Dispatch (pair_to 1); SquashFrom (length (theROB s)) true]) = Done s' /\
  checkInvariants (theMapTables s' xRegisters) = Done (false, theMapTables s' xRegisters).
Proof.
  pose proof one_dispatched as T. destruct (core_run 2 Z.of_nat 0 [Dispatch adds_x3]) as [s|] eqn:E; [|discriminate T].
  assert (A : all_allowed [Dispatch adds_x3]) by (repeat constructor).
  destruct (pair_squash_breaks_map 2 Z.of_nat 0 [Dispatch adds_x3] s 1 A E (proj1 (Nat.ltb_lt _ _) T)
    (proj1 (Nat.ltb_lt 1 32) eq_refl)) as (s' & E' & _ & _ & K). exists s, s'. split; [reflexivity|]. exact (conj E' K).
Defined.

(** ** Examples *)

Example adds_well_formed : well_formed adds_x3 = true /\ well_formed (pair_to 1) = false.
Proof. by vm_compute. Qed.

(** Its result is architectural once it has retired, and not before. *)
Definition x3_after (es : list core_event) : option register_value :=
  match core_run 2 Z.of_nat 0 es with
  | Done s => architectural_value s (mkReg xRegisters 3)
  | Assert _ => None
  end.

Example adds_run :
  let write := [Dispatch adds_x3; WriteRegister 0 2 (UInt64 9) false (fun _ => false)] in
  x3_after [] = Some (UInt64 3) /\ x3_after write = Some (UInt64 3) /\ x3_after (write ++ [Retire]) = Some (UInt64 9)
  /\ x3_after (write ++ [SquashFrom 0 true]) = Some (UInt64 3).
Proof. by vm_compute. Qed.
